(* ===== verification/_CoqProject ===== *)
-Q . S2P
Prelude.v
CLib.v
Incommon.v
Base64.v
RemainObj.v
RemainCodec.v
RemainRe.v
RemainMo.v
RemainMt.v
RemainObjMgr.v
UriCodec.v
HashSlot.v
StringUtil.v
Atomic.v
SpeedControl.v
UniqueNum.v
ThreadPool.v
FileSys.v
WriteFile.v
ReadFile.v
CalmFs.v
Journal.v
Durable.v
MsgFile.v
MsgFileProofs.v
MsgFiles.v
MsgRestart.v
RemainMgr.v
RemainLife.v
TcpCli.v
TcpCliProofs.v
RedisTopo.v
RedisWorld.v
RedisConn.v
RedisAsync.v
RedisProofs.v
RedisTypes.v
RedisReach.v
RedisRoute.v
ClusterData.v
ClusterClient.v
ClusterCommands.v
ClusterPool.v
ClusterMgr.v
ClusterSample.v
ClusterProofs.v
ClusterResults.v
ClusterInv.v
ClusterReach.v
ClusterSpec.v
HttpReq.v
HttpCli.v
HttpCliProofs.v
HttpExit.v
ZookConfig.v
ZookLaws.v
ZookProofs.v
ZookMirror.v
Fuel.v
KafkaBrokers.v
KafkaDiscovery.v
KafkaPush.v
KafkaLaws.v
KafkaPushProofs.v
KafkaPool.v
KafkaPop.v
KafkaPopProofs.v
KafkaRows.v
IniFile.v
Aes.v
Passwords.v
Gzip.v
Digest.v
RedisSync.v
HttpSockets.v
RedisLibevent.v
Times.v
Daemon.v
