(* ===== verification/Prelude.v ===== *)
(** * Verification of cmake_frame: overview and shared prelude

    cmake_frame is a collection of C++ server components under [src/]. This
    development models the ones with logic of their own and proves what makes
    them correct. Definitions keep the names of the source; each follows its
    function branch by branch.

    ** The program and the files

    - [src/common]: helpers the components share. [Base64.v] (Base64.cpp, also
      copied in remainFile), [UriCodec.v] (UriCodec.h), [StringUtil.v]
      (StringUtility.cpp), [Atomic.v] (Atomic.h), [CLib.v] (the C library
      functions they use), [ThreadPool.v] (ThreadPool.cpp, Condition.h,
      CountDownLatch.cpp: the pool of threads of all clients, and the latch);
      [Aes.v] (AES.cpp: texts in AES blocks, over the class [OpenSSL]),
      [Passwords.v] (MysqlEncryPass.cpp, UserInputPass.h: stored passwords, over
      [Base64.v]), [IniFile.v] (MysqlEncryPass.cpp, UpdateIniFile.cpp: a value in an
      ini file, over [FileSys.v]), [Gzip.v] (gzip.cpp, zip.cpp, over the class
      [Zlib]), [Digest.v] (MD5.cpp: digests as text), [Times.v] (TimeUtility.cpp,
      Timestamp.cpp) and [Daemon.v] (Daemon.cpp: pid file, start and stop).
    - [src/remainFile]: keeps message objects in text files until they can be
      processed. Four layers, bottom up:
      [FileSys.v] (POSIX and stdio, and the path helpers of Incommon.h),
      [WriteFile.v] (ShareWriteFileMgr and localWriteFileMgr of WriteFileMgr.cpp:
      one writer, rotation, renaming) and [ReadFile.v] (ReadFileMgr.cpp,
      ReadDirMgr.cpp),
      [RemainMgr.v] (WriteFileMgr of WriteFileMgr.cpp, RemainMgr.cpp: a shared
      and a local writer for each kind of file and folder),
      [RemainObjMgr.v] (RemainObjMgr.cpp: objects to lines and back). The object
      ([RemainObj.v]), the statements its codec repeats ([RemainCodec.v]) and the
      three pairs of writer and parser ([RemainRe.v], [RemainMo.v], [RemainMt.v])
      have files of their own; [Incommon.v] holds the pointer helpers. The object
      layer is proved against the class [RemainMgrOps], which [RemainMgr.v]
      implements. [CalmFs.v] and [Journal.v] are proof libraries: the file system
      without failures, and the journal a writer and a reader implement there;
      [Durable.v] follows one record through any failures, [RemainLife.v] joins all layers.
    - [src/msgFile]: message details in files by day and hour, over the calls of
      [FileSys.v] too. [MsgFile.v] (FileMgr.cpp: one file, its rotation and its final
      name; DirUtil.cpp), [MsgFileProofs.v], [MsgFiles.v] (MessageFilesImpl.cpp: one
      FileMgr per kind of detail, the walks over the tree), [MsgRestart.v] (what the
      walk at start does).
    - [src/speedcontrol]: rate limits and counters, [SpeedControl.v].
    - [src/libeventcpcli]: a TCP client with IO threads, [UniqueNum.v]
      (UniqueNum.h), [TcpCli.v] (LibeventTcpCli.cpp, LibeventIo.cpp,
      TcpClient.cpp), [TcpCliProofs.v].
    - [src/curlHttpCli]: an HTTP client with IO threads and a callback thread,
      [HttpReq.v] (requests, connections, queues), [HttpCli.v] (CurlHttpCli.cpp,
      AsyncCurlHttp.cpp), [HttpCliProofs.v] (requests), [HttpExit.v] (where each thread
      is, and curlHttpCliExit), [HttpSockets.v] (AsyncCurlHttp.cpp: the sockets and the
      timer that libcurl asks for).
    - [src/redisAsyn]: an asynchronous client of Redis for single servers, masters
      with slaves and clusters. [HashSlot.v] (RedisTools.cpp: keys to slots,
      [split]), [RedisTopo.v] (PartRedisAsync.cpp: replies about the topology into
      nodes and the table of slots), [RedisWorld.v] (the state of the module:
      OrderInfo.h, LibeventIo.h, the globals of RedisAsync.cpp), [RedisConn.v]
      (RedisClient.cpp, LibeventIo.cpp, redisSvrOnConnect: connections, IO threads,
      the state machines of the three kinds of group), [RedisAsync.v] (the rest of
      RedisAsync.cpp and the steps of the whole). Of v1.0; v2.0 repeats these files
      next to an unfinished replacement of hiredis. [RedisProofs.v] follows the
      orders, [RedisTypes.v] and [RedisReach.v] the well-formedness of states,
      [RedisRoute.v] one command.
    - [src/rediscluster]: a synchronous client of a Redis cluster. [ClusterData.v]
      (the headers: connections and pools in heaps, the manager, and hiredis as
      the class [Hiredis]), [ClusterClient.v] and [ClusterCommands.v]
      (RedisClient.cpp: connecting and replies; one definition per command),
      [ClusterPool.v] (RedisClusterNode.cpp: the connections of one node),
      [ClusterMgr.v] (RedisClusterMgr.cpp: nodes by slot, the connection for a key;
      [handle] is the step of the whole). [ClusterProofs.v] is about one connection,
      [ClusterResults.v] has a table of the commands and their results, [ClusterInv.v] and [ClusterReach.v] about the invariant of all objects,
      [ClusterSpec.v] about the whole; [ClusterSample.v] is a concrete server.
    - [src/redisSync], [src/redislibevent]: smaller clients of Redis. [RedisSync.v]
      (redisClient.cpp, over the class [HiredisSync]) and [RedisLibevent.v]
      (RedisAsync.cpp: commands on several connections in turn).
    - [src/zookconfig]: configuration and lists of servers in ZooKeeper.
      [ZookConfig.v] (ZookConfig.cpp; the ZooKeeper library is the class
      [Zookeeper]), [ZookLaws.v] (what its header documents, and a small service),
      [ZookProofs.v] (nodes and lists), [ZookMirror.v] (the copy of the configuration).
    - [src/zookafka]: producers and consumers of Kafka that find the brokers through
      ZooKeeper. [KafkaBrokers.v] (ZooKafBrokers.cpp and what the other files repeat of
      it; rapidjson and jansson are classes), [KafkaDiscovery.v] (the list that is
      found), [KafkaPush.v] and [KafkaPool.v] (ZooKfkTopicsPush.cpp: one producer, rows
      of them), [KafkaPop.v] and [KafkaRows.v] (ZooKfkTopicsPop.cpp), over librdkafka as
      the classes [Producer] and [Consumer]; [KafkaLaws.v] (what its header documents,
      and a small library), [KafkaPushProofs.v], [KafkaPopProofs.v]. [Fuel.v] is total
      correctness for operations with fuel.

    ** What the theorems show

    - Objects in files: [RemainLife.objects_survive] is the refinement of the whole
      of remainFile: what is written, flushed and read comes back, each object
      once. It rests on the journal ([Journal.represents]: writer and directory
      represent the published and the current records, every operation is a
      simulation) and on the codec (a line is determined by a schema of fields
      that is read as it was written). With failures of any system call:
      [records_durable] (the file of a record keeps a name of the writer, since names
      end with a number that comes again after 99999 files) and [reading_loses_nothing];
      on any text:
      [no_line_lost], [wrong_kind_refused], [split_terminates].
    - Details in files: [messages_durable] follows one record through any operations
      and failures, [restart_finishes] what a stopped process left. Runs in which
      records are lost or not found: [same_millisecond_loses],
      [finished_file_replaced], [read_back_fails], [dotless_throws].
    - ZooKeeper: [path_created] and [server_listed] are what registering and listing
      promise while nobody else changes the nodes, [config_mirror] is the invariant of the copy. Runs that go wrong:
      [second_change_missed], [registration_of_old_session], [all_servers_gone],
      [failed_read_overruns], [server_left_out].
    - Kafka: [messages_reported] is the account of a producer (what [push] accepts is
      reported once), [brokers_followed] and the lemma [brokers_found] say which brokers
      it uses when every node is in order, [subscription_followed] is the invariant of a
      consumer and what starting and stopping a topic do to its list (a topic named twice
      is still there after one stop, [twice_named_stays]), [consumed_in_order] what it hands
      out while there are messages without error. The loops that are not waits for
      others end ([ends]). Runs that go wrong: [vanished_broker_overruns], [trailing_comma], [rapidjson_port_missing], [refusal_hidden],
      [error_like_message], [one_failure_is_final], [failed_init_subscribed].
    - The TCP client's connections belong to one IO thread each ([references_valid]: the
      map, the queues and the vector agree, so that no index is out of range; objects are
      never freed in the model).
    - Concurrent components are transition systems in which every step is one
      critical section or atomic operation of a thread, in any interleaving;
      invariants hold in every reachable state: [ends_once], [references_valid],
      [no_lost_wakeup], [messages_in_order] (TCP client), [request_answered_once],
      [exit_waits_for_requests], [http_no_lost_wakeup] (HTTP client),
      [concurrent_rate_limit] and the lemma [statistics_complete] (speed control),
      [no_command_lost], [redis_well_typed], [state_changes_reported] (Redis client),
      [tasks_in_order], [pool_wakeups], [stop_returns] (pool of threads; what [stop]
      loses is in [stop_abandons] and [stop_leaves]).
    - Leaving the HTTP client: [exit_waits_for_requests] holds whenever
      [curlHttpCliExit] returns. It does not always: [exit_notification_lost] and
      [exit_misses_thread] are reachable states from which no run ends it, and
      [late_request_lost] and [late_wakeup] are runs of callers that meet it.
      What libcurl asked to be watched is watched ([sockets_watched], a lemma).
    - The Redis client: [cluster_nodes_table] says what a reply to CLUSTER NODES
      means, [command_goes_to_owner] refines [redisAsyncCommand] against the nodes of
      the group; runs that go wrong are lemmas ([answered_twice],
      [lost_master_undefined], [restart_loses_orders]).
    - The cluster client: [connections_exclusive] is its invariant (a connection has
      one caller and one pool), [find_connection] what a caller gets for a key,
      [command_outcome] the words that each command sends and what it makes of the reply, [cluster_slots] what [init] makes of the
      reply of a server, [slots_filled] that giving out slots ends, and which pools go.
      [busy_connection_freed], [expire_loses_connection], [coverage_lost],
      [key_with_space] are runs that go wrong.
    - Secrets and archives: [password_roundtrip], [gzip_roundtrip] (which includes that
      the loops end; with too small a buffer the output may be cut with code 0, [truncated_success]), and the lemmas [cbc_roundtrip], [ecb_roundtrip],
      [value_replaced] (the rest of an ini file stays as it is); runs that go wrong in
      [long_keys_undefined], [wrong_line_run], [failures_run], [paddings_run].
    - Smaller parts, as lemmas: [connect_sound] and [failed_attempt_undefined] (RedisSync),
      [commands_answered] (RedisLibevent: one call for each command with a callback,
      in any order of commands and replies) with [silent_blocks], [reset_undefined],
      [never_ready]; [timestamp_roundtrip] (times), [restarted] and
      [lock_failure_truncates] (daemon).
    - Codecs: round trips with the sizes of the C buffers ([base64_buffers], and the
      lemmas [base64_roundtrip], [message_id_roundtrip], [uri_phone_roundtrip],
      [url_roundtrip], [hex_roundtrip], [msgid_bytes_roundtrip]),
      [unique_numbers] and [unique_number_fields], [crc16_bitwise] and
      [hash_tag_slot], [split_correct], [string_replace], [substring_search].

    ** Conventions and bounds

    - Integers are [Z] with the wrap-around of their width written out ([u16],
      [u32], [u64], [s32], [s64]); [char] is signed and the data model LP64, as on
      the Linux targets of the build files; [strtol] saturates as in glibc.
    - Buffers and strings are lists of bytes, a pointer into a NUL-terminated
      buffer is a suffix, an object that is shared is an index into a list that
      stands for the heap. Undefined behaviour is a value ([None], [Undefined] or
      the flag [undefined]), and theorems show that it does not occur.
    - Stateful code is written in the state monad [St], with the weakest
      precondition [wp] and its rules below, or in [Op] where a step may be
      undefined, with [wlp] (what holds if the step is defined); [record <| field := v |>] updates a field.
    - Loops without a structural bound take fuel or follow the length of their
      input: [split_terminates] shows that the length of the text is enough for
      the line loop, [string_replace] and [split_correct] give the fuel they need;
      the retry loops of reading and writing run three times in the code; the
      addresses of a group are at most as many as its bytes; [SLOT_ROUNDS] is more
      than a [uint16_t] loop can run, and [fill_slots_forever] shows what is left
      over never ends ([slots_filled] for the synchronous client). [no_command_lost] assumes fewer than [2^32] commands on a
      connection, whose numbers then do not repeat.
    - What other programs and threads answer is an argument: the class [Env] of
      [FileSys.v] chooses which call fails, the clock and the order of a directory
      listing; the classes [Hiredis], [HiredisSync], [Zookeeper], [Producer], [Consumer],
      [Jansson], [RapidJson], [OpenSSL] and [Zlib] are the libraries, [Zone] the time zone; libevent, libcurl, sockets, [eventfd] counters (16 exbibyte limit
      not reached) and times are arguments of steps. [new] does not return null;
      [std::mutex] gives atomic sections. The logging macros are left out.

    ** Not modelled

    - Transfers themselves: libcurl, libevent, hiredis, librdkafka, ZooKeeper,
      OpenSSL and zlib are called, not implemented, in this repository; the
      vendored headers under [src/include] are theirs.
    - Of the Redis client: the start and join of threads, the lifetimes of shared
      objects (no theorem says that none is used after its end), and v2.0 of
      RedisClient.cpp with RedisSocket.cpp: RedisSocket.h and RedisCommon.h do not
      compile, so their classes have no behaviour to model.
    - [src/common]: process statistics (the output of awk and df), logging, the wrappers
      of single [pthread] calls, [Daemon::ChangeTo], the functions of Timestamp.h on
      [double]. MD5, AES and deflate themselves are the libraries'.
    - Of [src/rediscluster]: calls of the manager at the same time, which are data
      races in the code; [str2Vec], which nothing calls.
    - [src/redisClusterAsyn] (a stub); async.c and the sample program of
      [src/redislibevent]. Of [src/zookafka]: the versions that are not built, the closing of
      the ZooKeeper handle, and several threads in one object (of other threads a waiting
      [pop] sees the flags they set).
    - Of [src/msgFile]: DetailFileSys.cpp (not in the build, needs headers that are not
      in the repository), several threads at once ([details_] is read without its mutex).
    - The earlier versions kept beside the current ones (curlHttpCli V1.0.0.0). *)

From Stdlib Require Export ZArith Lia.
From Stdlib Require ZifyClasses.
From Stdlib Require Export Strings.Byte.
From stdpp Require Export base tactics list option gmap strings.

#[global] Open Scope Z_scope.

(** ** Bytes

    The C++ code works on [char] / [unsigned char] buffers and on
    [std::string]; all of them are lists of [Byte.byte] here. *)

Abbreviation bytes := (list Byte.byte).

#[global] Instance byte_eq_dec : EqDecision Byte.byte := Byte.byte_eq_dec.

#[global] Program Instance byte_countable : Countable Byte.byte :=
  inj_countable Byte.to_N Byte.of_N _.
Next Obligation. intros b. apply Byte.of_to_N. Qed.

(** [static_cast<unsigned char>(c)] as a number. *)
Definition uchar (b : Byte.byte) : Z := Z.of_N (Byte.to_N b).

(** A [char] as a number: [char] is signed on the targets of this code. *)
Definition schar (b : Byte.byte) : Z :=
  if decide (uchar b < 128) then uchar b else uchar b - 256.

(** [static_cast<char>(z)]: truncation to eight bits. *)
Definition to_byte (z : Z) : Byte.byte :=
  default Byte.x00 (Byte.of_N (Z.to_N (z mod 256))).

(** The string literal [s] as a byte buffer. *)
Definition lit (s : string) : bytes := String.list_byte_of_string s.

Definition NUL : Byte.byte := Byte.x00.

Lemma uchar_range b : 0 <= uchar b < 256.
Proof.
  unfold uchar. pose proof (Byte.to_N_bounded b) as H. lia.
Qed.

Lemma to_byte_uchar b : to_byte (uchar b) = b.
Proof.
  unfold to_byte. rewrite Z.mod_small by apply uchar_range.
  unfold uchar. by rewrite N2Z.id, Byte.of_to_N.
Qed.

Lemma uchar_to_byte z : uchar (to_byte z) = z mod 256.
Proof.
  unfold to_byte, uchar.
  assert (Hz : 0 <= z mod 256 < 256) by (apply Z.mod_pos_bound; lia).
  destruct (Byte.of_N (Z.to_N (z mod 256))) as [b|] eqn:E; cbn.
  - apply Byte.to_of_N in E. rewrite E. lia.
  - apply Byte.of_N_None_iff in E. lia.
Qed.

Lemma uchar_inj b c : uchar b = uchar c → b = c.
Proof. intros E. by rewrite <- (to_byte_uchar b), E, to_byte_uchar. Qed.

#[global] Instance uchar_Inj : Inj (=) (=) uchar := uchar_inj.

Lemma to_byte_small z : 0 <= z < 256 → uchar (to_byte z) = z.
Proof. intros ?. rewrite uchar_to_byte. by apply Z.mod_small. Qed.

(** ** Machine integers

    A [w]-bit integer is a [Z]; conversions to a [w]-bit type wrap around. *)

Definition wrap_u (w z : Z) : Z := z mod 2 ^ w.
Definition wrap_s (w z : Z) : Z :=
  let m := wrap_u w z in if decide (m < 2 ^ (w - 1)) then m else m - 2 ^ w.

Abbreviation u8 := (wrap_u 8).
Abbreviation u16 := (wrap_u 16).
Abbreviation u32 := (wrap_u 32).
Abbreviation u64 := (wrap_u 64).
Abbreviation s32 := (wrap_s 32).
Abbreviation s64 := (wrap_s 64).

Definition in_s (w z : Z) : Prop := - 2 ^ (w - 1) <= z < 2 ^ (w - 1).
Definition in_u (w z : Z) : Prop := 0 <= z < 2 ^ w.
#[global] Instance in_s_dec w z : Decision (in_s w z).
Proof. unfold in_s. apply _. Defined.
#[global] Instance in_u_dec w z : Decision (in_u w z).
Proof. unfold in_u. apply _. Defined.

Lemma wrap_u_range w z : 0 <= w → in_u w (wrap_u w z).
Proof. intros ?. apply Z.mod_pos_bound. lia. Qed.

Lemma wrap_u_id w z : in_u w z → wrap_u w z = z.
Proof. apply Z.mod_small. Qed.

Lemma pow2_split w : 0 < w → 2 ^ w = 2 * 2 ^ (w - 1).
Proof. intros ?. rewrite <- Z.pow_succ_r by lia. f_equal. lia. Qed.

Lemma wrap_s_range w z : 0 < w → in_s w (wrap_s w z).
Proof.
  intros Hw. unfold wrap_s, in_s.
  pose proof (wrap_u_range w z ltac:(lia)) as Hr. unfold in_u in Hr.
  rewrite (pow2_split w) in * by done. case_decide; lia.
Qed.

Lemma wrap_s_id w z : 0 < w → in_s w z → wrap_s w z = z.
Proof.
  intros Hw Hz. unfold wrap_s, wrap_u, in_s in *.
  pose proof (pow2_split w Hw) as Hp.
  destruct (decide (0 <= z)).
  - rewrite Z.mod_small by lia. case_decide; lia.
  - rewrite <- (Z_mod_plus_full z 1), Z.mod_small by lia. case_decide; lia.
Qed.

Lemma wrap_s_u w z : 0 < w → wrap_s w (wrap_u w z) = wrap_s w z.
Proof.
  intros Hw. unfold wrap_s, wrap_u. rewrite Z.mod_mod by lia. done.
Qed.

Lemma wrap_s_u_small z : 0 <= z < 2 ^ 31 → s32 (u64 z) = z.
Proof. intros Hz. rewrite wrap_u_id by (unfold in_u; lia). apply wrap_s_id; unfold in_s; lia. Qed.

(** Bit operations on disjoint ranges are additions. *)
Lemma lor_add_low a b n : 0 <= n → 0 <= b < 2 ^ n → Z.lor (a * 2 ^ n) b = a * 2 ^ n + b.
Proof.
  intros Hn Hb. assert (Hd : Z.land (a * 2 ^ n) b = 0).
  { apply Z.bits_inj'. intros m Hm. rewrite Z.land_spec, Z.bits_0.
    destruct (decide (m < n)).
    - by rewrite Z.mul_pow2_bits_low.
    - replace b with (b mod 2 ^ n) by (by apply Z.mod_small).
      rewrite (Z.mod_pow2_bits_high b n m) by lia. apply andb_false_r. }
  by rewrite <- Z.lxor_lor, <- Z.add_nocarry_lxor.
Qed.

(** [(c & (mask << n)) >> n] for the mask of [w] low bits. *)
Lemma shiftr_land_mask c n w :
  0 <= n → 0 <= w → Z.shiftr (Z.land c (Z.shiftl (Z.ones w) n)) n = (c / 2 ^ n) mod 2 ^ w.
Proof.
  intros Hn Hw. rewrite Z.shiftr_land, Z.shiftr_shiftl_l, Z.sub_diag, Z.shiftl_0_r by lia.
  by rewrite Z.land_ones, Z.shiftr_div_pow2.
Qed.

(** [zify] for division and remainder on [nat]. *)
#[global] Program Instance Op_nat_div : ZifyClasses.BinOp Nat.div := {| ZifyClasses.TBOp := Z.div |}.
Next Obligation. apply Nat2Z.inj_div. Qed.
#[global] Program Instance Op_nat_mod : ZifyClasses.BinOp Nat.modulo := {| ZifyClasses.TBOp := Z.modulo |}.
Next Obligation. apply Nat2Z.inj_mod. Qed.
Add Zify BinOp Op_nat_div.
Add Zify BinOp Op_nat_mod.

(** Arithmetic goals with division and remainder by constants. *)
Ltac dlia := zify; Z.to_euclidean_division_equations; lia.

(** ** Functional update of record fields

    [r <| f := v |>] is [r] with field [f] replaced; [r <| f ::= g |>] applies
    [g] to the field. A record type supports it once its eta expansion is
    declared as an instance of [Eta]. *)

Class Eta (R : Type) := eta_of : R → R.
Class Setter {R E : Type} (g : R → E) := set_with : (E → E) → R → R.
Arguments set_with {R E} g {_} f r : rename.

Ltac derive_setter :=
  match goal with
  | |- @Setter ?R ?E ?g =>
      let i := constr:(_ : Eta R) in
      let e := eval hnf in i in
      match eval pattern g in e with
      | ?u _ =>
          let s := eval cbv beta in (fun (f : E → E) => u (fun r => f (g r))) in
          exact s
      end
  end.
#[global] Hint Extern 1 (Setter _) => derive_setter : typeclass_instances.

Declare Scope record_scope.
#[global] Open Scope record_scope.
Notation "r <| f ::= g |>" := (set_with f g r)
  (at level 1, f at next level, g at level 99, left associativity) : record_scope.
Notation "r <| f := v |>" := (set_with f (λ _, v) r)
  (at level 1, f at next level, v at level 99, left associativity) : record_scope.

(** ** A state monad

    Operations on objects that other calls share are state transformers. *)

Definition St (W A : Type) : Type := W → A * W.
#[global] Instance St_ret W : MRet (St W) := λ A a w, (a, w).
#[global] Instance St_bind W : MBind (St W) :=
  λ A B k m w, let '(a, w') := m w in k a w'.
#[global] Instance St_fmap W : FMap (St W) :=
  λ A B f m w, let '(a, w') := m w in (f a, w').

Lemma st_bind_run {W A B} (m : St W A) (k : A → St W B) w :
  (m ≫= k) w = let '(a, w') := m w in k a w'.
Proof. done. Qed.
Lemma st_ret_run {W A} (a : A) (w : W) : (mret a : St W A) w = (a, w).
Proof. done. Qed.

Lemma st_ret_bind {W A B} (a : A) (k : A → St W B) : mret a ≫= k = k a.
Proof. done. Qed.

(** Running a state transformer on a state. *)
Ltac st_run := repeat (rewrite ?st_bind_run, ?st_ret_run; cbn beta iota).

Definition st_get {W} : St W W := λ w, (w, w).
Definition st_gets {W A} (f : W → A) : St W A := λ w, (f w, w).
Definition st_put {W} (w : W) : St W () := λ _, ((), w).
Definition st_mod {W} (f : W → W) : St W () := λ w, ((), f w).

(** Weakest preconditions: [wp m Q w] when running [m] on [w] ends in [Q]. *)
Definition wp {W A} (m : St W A) (Q : A → W → Prop) (w : W) : Prop := Q (m w).1 (m w).2.

Section wp.
Context {W : Type}.

Lemma wp_ret {A} (a : A) Q (w : W) : Q a w → wp (mret a) Q w.
Proof. done. Qed.
Lemma wp_bind {A B} (m : St W A) (k : A → St W B) Q w :
  wp m (λ a, wp (k a) Q) w → wp (m ≫= k) Q w.
Proof. unfold wp. rewrite st_bind_run. by destruct (m w). Qed.
Lemma wp_bind_inv {A B} (m : St W A) (k : A → St W B) Q w :
  wp (m ≫= k) Q w → wp m (λ a, wp (k a) Q) w.
Proof. unfold wp. rewrite st_bind_run. by destruct (m w). Qed.
Lemma wp_mono {A} (m : St W A) (P Q : A → W → Prop) w :
  wp m P w → (∀ a w', P a w' → Q a w') → wp m Q w.
Proof. unfold wp. auto. Qed.
Lemma wp_get Q (w : W) : Q w w → wp st_get Q w.
Proof. done. Qed.
Lemma wp_gets {A} (f : W → A) Q w : Q (f w) w → wp (st_gets f) Q w.
Proof. done. Qed.
Lemma wp_mod f Q (w : W) : Q () (f w) → wp (st_mod f) Q w.
Proof. done. Qed.
Lemma wp_run {A} (m : St W A) Q w a w' : m w = (a, w') → wp m Q w → Q a w'.
Proof. unfold wp. by intros ->. Qed.
End wp.

(** ** Operations that may be undefined

    [None]: the code does something the language leaves undefined (or waits for
    ever), so there is no state afterwards. *)

Definition Op (W A : Type) : Type := W → option (A * W).
#[global] Instance Op_ret W : MRet (Op W) := λ A a w, Some (a, w).
#[global] Instance Op_bind W : MBind (Op W) :=
  λ A B k m w, match m w with Some (a, w') => k a w' | None => None end.

Section op.
Context {W : Type}.
Definition op_undefined {A} : Op W A := λ _, None.
Definition op_get {A} (f : W → A) : Op W A := λ w, Some (f w, w).
Definition op_mod (f : W → W) : Op W () := λ w, Some ((), f w).
(** Dereferencing, [v[i]] and the like. *)
Definition op_some {A} (o : option A) : Op W A := λ w, match o with Some a => Some (a, w) | None => None end.
Definition op_find {A} (f : W → option A) : Op W A := λ w, match f w with Some a => Some (a, w) | None => None end.
Fixpoint op_each {A} (f : A → Op W ()) (l : list A) : Op W () :=
  match l with [] => mret () | x :: l' => _ ← f x; op_each f l' end.

Lemma op_bind_get {A B} (f : W → A) (k : A → Op W B) w : (op_get f ≫= k) w = k (f w) w.
Proof. done. Qed.
Lemma op_bind_mod {B} f (k : () → Op W B) w : (op_mod f ≫= k) w = k () (f w).
Proof. done. Qed.
Lemma op_bind_find {A B} (f : W → option A) (k : A → Op W B) w :
  (op_find f ≫= k) w = match f w with Some a => k a w | None => None end.
Proof. unfold mbind, Op_bind, op_find. by destruct (f w). Qed.
Lemma op_bind_some {A B} (o : option A) (k : A → Op W B) w :
  (op_some o ≫= k) w = match o with Some a => k a w | None => None end.
Proof. unfold mbind, Op_bind, op_some. by destruct o. Qed.
Lemma op_bind_run {A B} (m : Op W A) (k : A → Op W B) w :
  (m ≫= k) w = match m w with Some (a, w') => k a w' | None => None end.
Proof. done. Qed.

(** [wlp m Q w]: if [m] comes to an end in [w], then with [Q]. *)
Definition wlp {A} (m : Op W A) (Q : A → W → Prop) (w : W) : Prop :=
  match m w with Some (a, w') => Q a w' | None => True end.
Implicit Types w : W.
Lemma wlp_ret {A} (a : A) (Q : A → W → Prop) w : Q a w → wlp (mret a) Q w.
Proof. done. Qed.
Lemma wlp_bind {A B} (m : Op W A) (k : A → Op W B) Q w : wlp m (λ a, wlp (k a) Q) w → wlp (m ≫= k) Q w.
Proof. unfold wlp, mbind, Op_bind. by destruct (m w) as [[]|]. Qed.
Lemma wlp_mono {A} (m : Op W A) (P Q : A → W → Prop) w :
  wlp m P w → (∀ a w', P a w' → Q a w') → wlp m Q w.
Proof. unfold wlp. destruct (m w) as [[]|]; auto. Qed.
Lemma wlp_seq {A B} (m : Op W A) (k : A → Op W B) (P : A → W → Prop) Q w :
  wlp m P w → (∀ a w', P a w' → wlp (k a) Q w') → wlp (m ≫= k) Q w.
Proof. intros Hm Hk. apply wlp_bind. by eapply wlp_mono. Qed.
Lemma wlp_undefined {A} (Q : A → W → Prop) w : wlp op_undefined Q w.
Proof. done. Qed.
Lemma wlp_get {A} (f : W → A) (Q : A → W → Prop) w : Q (f w) w → wlp (op_get f) Q w.
Proof. done. Qed.
Lemma wlp_mod f (Q : () → W → Prop) w : Q () (f w) → wlp (op_mod f) Q w.
Proof. done. Qed.
Lemma wlp_find {A} (f : W → option A) (Q : A → W → Prop) w : (∀ a, f w = Some a → Q a w) → wlp (op_find f) Q w.
Proof. unfold wlp, op_find. destruct (f w); auto. Qed.
Lemma wlp_some {A} (o : option A) (Q : A → W → Prop) w : (∀ a, o = Some a → Q a w) → wlp (op_some o) Q w.
Proof. unfold wlp, op_some. destruct o; auto. Qed.
Lemma wlp_run {A} (m : Op W A) Q w a w' : m w = Some (a, w') → wlp m Q w → Q a w'.
Proof. unfold wlp. by intros ->. Qed.
(** An invariant of every round. *)
Lemma wlp_each {A} (f : A → Op W ()) (I : W → Prop) l w :
  (∀ x w, x ∈ l → I w → wlp (f x) (λ _, I) w) → I w → wlp (op_each f l) (λ _, I) w.
Proof.
  revert w. induction l as [|x l IH]; intros w Hf Hw; cbn [op_each]; [done|].
  apply (wlp_seq _ _ (λ _, I)); [apply Hf; [left|done]|]. intros [] w' Hw'. apply IH; [|exact Hw']. intros y v Hy ?. apply Hf; [by right|done].
Qed.
End op.

(** ** Lists *)

Section lists.
Context {A : Type}.
Implicit Types l k : list A.

(** The longest prefix whose elements satisfy [f], and what follows it. *)
Fixpoint span (f : A → bool) l : list A * list A :=
  match l with
  | [] => ([], [])
  | x :: l' => if f x then let '(a, b) := span f l' in (x :: a, b) else ([], l)
  end.

Lemma span_app f l a b : span f l = (a, b) → l = a ++ b.
Proof.
  revert a b. induction l as [|x l IH]; intros a b; cbn; [naive_solver|].
  destruct (f x); [|naive_solver].
  destruct (span f l) as [a' b'] eqn:E. intros [= <- <-]. cbn. f_equal. by apply IH.
Qed.

Lemma span_true f l a b : span f l = (a, b) → Forall (λ x, f x = true) a.
Proof.
  revert a b. induction l as [|x l IH]; intros a b; cbn; [naive_solver|].
  destruct (f x) eqn:Hx; [|naive_solver].
  destruct (span f l) as [a' b'] eqn:E. intros [= <- <-]. constructor; eauto.
Qed.

Lemma span_head_false f x l : f x = false → span f (x :: l) = ([], x :: l).
Proof. intros Hx. cbn. by rewrite Hx. Qed.

Lemma span_Forall f l k :
  Forall (λ x, f x = true) l →
  (∀ x, head k = Some x → f x = false) → span f (l ++ k) = (l, k).
Proof.
  intros Hl Hk. induction Hl as [|x l Hx Hl IH]; cbn.
  - destruct k as [|y k]; cbn; [done|]. by rewrite (Hk y).
  - by rewrite Hx, IH.
Qed.
End lists.

(** ** Automation *)

Create HintDb cframe.
#[export] Hint Resolve uchar_range : cframe.


(** A closed decidable goal, by evaluation. *)
Ltac decide_now :=
  match goal with |- ?P => apply (bool_decide_unpack P) end; by vm_compute.

Ltac split_decide := repeat (case_decide || case_match); simplify_eq/=.
