(* ===== verification/CLib.v ===== *)
(** * The C library functions the sources rely on

    Decimal formatting ([sprintf] with ["%ld"] and ["%d"]), decimal parsing
    ([strtol], [strtoul], [atoi] in base ten, with the saturation glibc
    documents), [isspace], [strlen]. A pointer into a NUL-terminated buffer is
    the list of the bytes from it up to the terminator of the buffer; a read at
    the end of the list is the terminator. *)

From S2P Require Import Prelude.

(** ** Character classes ("C" locale) *)

Definition is_digit (b : byte) : bool := (48 <=? uchar b) && (uchar b <=? 57).
Definition c_isspace (b : byte) : bool :=
  (uchar b =? 32) || ((9 <=? uchar b) && (uchar b <=? 13)).
Definition digit (d : Z) : byte := to_byte (48 + d).
Definition digit_val (b : byte) : Z := uchar b - 48.

(** ** Decimal output *)

(** The decimal digits of [z >= 0] in front of [acc]. *)
Fixpoint dec_digits (fuel : nat) (z : Z) (acc : bytes) : bytes :=
  match fuel with
  | O => acc
  | S n =>
      let acc' := digit (z mod 10) :: acc in
      if z <? 10 then acc' else dec_digits n (z / 10) acc'
  end.

(** A number below [2^k] has at most [k] decimal digits. *)
Definition fmt_u (z : Z) : bytes := dec_digits (S (Z.to_nat (Z.log2 z))) z [].

(** [sprintf(buf, "%ld", z)], and ["%d"], which prints the same digits. *)
Definition fmt_ld (z : Z) : bytes :=
  if z <? 0 then "-"%byte :: fmt_u (- z) else fmt_u z.

(** ** Decimal input *)

Definition digits_val (l : bytes) : Z :=
  fold_left (λ acc b, acc * 10 + digit_val b) l 0.

(** Optional sign and leading digits: (negative?, magnitude). *)
Definition parse_dec (s : bytes) : bool * Z :=
  match (span c_isspace s).2 with
  | b :: s' =>
      if decide (b = "-"%byte) then (true, digits_val (span is_digit s').1)
      else if decide (b = "+"%byte) then (false, digits_val (span is_digit s').1)
      else (false, digits_val (span is_digit (b :: s')).1)
  | [] => (false, 0)
  end.

(** [strtol(s, NULL, 10)]: saturates at LONG_MIN / LONG_MAX. *)
Definition strtol (s : bytes) : Z :=
  let '(neg, n) := parse_dec s in
  if neg then Z.max (- 2 ^ 63) (- n) else Z.min (2 ^ 63 - 1) n.

(** [strtoul(s, NULL, 10)]: saturates at ULONG_MAX, negates modulo [2^64]. *)
Definition strtoul (s : bytes) : Z :=
  let '(neg, n) := parse_dec s in
  if decide (2 ^ 64 <= n) then 2 ^ 64 - 1 else if neg then u64 (- n) else n.

(** [atoi(s)] is [(int) strtol(s, NULL, 10)]. *)
Definition atoi (s : bytes) : Z := s32 (strtol s).

(** ** Facts *)

Definition no_digit_head (k : bytes) : Prop := ∀ b, head k = Some b → is_digit b = false.

Lemma uchar_digit d : 0 <= d < 10 → uchar (digit d) = 48 + d.
Proof. intros ?. unfold digit. apply to_byte_small. lia. Qed.

Lemma is_digit_digit d : 0 <= d < 10 → is_digit (digit d) = true.
Proof. intros ?. unfold is_digit. rewrite uchar_digit by done. lia. Qed.

Lemma digit_val_digit d : 0 <= d < 10 → digit_val (digit d) = d.
Proof. intros ?. unfold digit_val. rewrite uchar_digit by done. lia. Qed.

Lemma is_digit_bounds b : is_digit b = true → 48 <= uchar b <= 57.
Proof. unfold is_digit. lia. Qed.

#[export] Hint Resolve is_digit_digit : cframe.

(** The value of [l] when digits of value [v] precede it. *)
Definition digits_from (v : Z) (l : bytes) : Z :=
  fold_left (λ acc b, acc * 10 + digit_val b) l v.

Lemma dec_digits_digits n z acc :
  0 <= z → Forall (λ b, is_digit b = true) acc →
  Forall (λ b, is_digit b = true) (dec_digits n z acc).
Proof.
  revert z acc. induction n as [|n IH]; intros z acc Hz Hacc; cbn; [done|].
  assert (0 <= z mod 10 < 10) by (apply Z.mod_pos_bound; lia).
  case_match; [|apply IH; [by apply Z.div_pos|]]; constructor; eauto with cframe.
Qed.

Lemma dec_digits_val n z acc :
  0 <= z < 2 ^ Z.of_nat n → digits_from 0 (dec_digits n z acc) = digits_from z acc.
Proof.
  revert z acc. induction n as [|n IH]; intros z acc Hz.
  { cbn in *. by replace z with 0 by lia. }
  assert (0 <= z mod 10 < 10) by (apply Z.mod_pos_bound; lia).
  pose proof (Z.div_mod z 10 ltac:(lia)) as Hdm.
  cbn [dec_digits]. case_match eqn:E.
  - unfold digits_from. cbn [fold_left].
    rewrite digit_val_digit by done. f_equal.
    rewrite Z.mod_small by lia. lia.
  - rewrite IH.
    + unfold digits_from. cbn [fold_left].
      rewrite digit_val_digit by done. f_equal. lia.
    + split; [apply Z.div_pos; lia|].
      rewrite Nat2Z.inj_succ, Z.pow_succ_r in Hz by lia. lia.
Qed.

Lemma fmt_u_digits z : 0 <= z → Forall (λ b, is_digit b = true) (fmt_u z).
Proof. intros ?. by apply dec_digits_digits. Qed.

Lemma log2_fuel z : 0 <= z → z < 2 ^ Z.of_nat (S (Z.to_nat (Z.log2 z))).
Proof.
  intros Hz. rewrite Nat2Z.inj_succ, Z2Nat.id by apply Z.log2_nonneg.
  destruct (decide (z = 0)) as [->|]; [done|]. apply Z.log2_spec. lia.
Qed.

Lemma fmt_u_val z : 0 <= z → digits_val (fmt_u z) = z.
Proof.
  intros Hz. unfold fmt_u.
  change digits_val with (digits_from 0).
  rewrite dec_digits_val; [done|]. split; [done|]. by apply log2_fuel.
Qed.

Lemma dec_digits_cons n z acc :
  dec_digits n z acc ≠ [] ∨ n = 0%nat.
Proof.
  revert z acc. induction n as [|n IH]; intros z acc; [by right|left].
  cbn. case_match; [done|]. destruct (IH (z / 10) (digit (z mod 10) :: acc)) as [?| ->]; done.
Qed.

Lemma fmt_u_cons z : 0 <= z → ∃ b l, fmt_u z = b :: l ∧ is_digit b = true.
Proof.
  intros Hz. pose proof (fmt_u_digits z Hz) as Hd.
  destruct (fmt_u z) as [|b l] eqn:E.
  - unfold fmt_u in E. destruct (dec_digits_cons (S (Z.to_nat (Z.log2 z))) z []); done.
  - exists b, l. by inversion Hd.
Qed.

Lemma not_space_or_sign b :
  is_digit b = true → c_isspace b = false ∧ b ≠ "-"%byte ∧ b ≠ "+"%byte.
Proof.
  intros H%is_digit_bounds. split_and!.
  - unfold c_isspace. lia.
  - intros ->. change (uchar "-"%byte) with 45 in H. lia.
  - intros ->. change (uchar "+"%byte) with 43 in H. lia.
Qed.

(** Parsing what was printed, with any continuation that is not a digit. *)
Lemma parse_dec_fmt z k :
  no_digit_head k → parse_dec (fmt_ld z ++ k) = (z <? 0, Z.abs z).
Proof.
  intros Hk. unfold fmt_ld, parse_dec.
  destruct (Z.ltb_spec z 0) as [Hz|Hz].
  - cbn [app span c_isspace]. change (c_isspace "-"%byte) with false. cbn [snd].
    rewrite decide_True by done.
    rewrite span_Forall; [|apply fmt_u_digits; lia|exact Hk].
    cbn [fst]. rewrite fmt_u_val by lia. f_equal. lia.
  - destruct (fmt_u_cons z Hz) as (b & l & E & Hb).
    destruct (not_space_or_sign b Hb) as (Hs & Hm & Hp).
    rewrite E. cbn [app]. rewrite span_head_false by done. cbn [snd].
    rewrite decide_False, decide_False by done.
    change (b :: l ++ k) with ((b :: l) ++ k). rewrite <- E.
    rewrite span_Forall; [|apply fmt_u_digits; lia|exact Hk].
    cbn [fst]. rewrite fmt_u_val by lia. f_equal. lia.
Qed.

Lemma strtol_fmt z k : in_s 64 z → no_digit_head k → strtol (fmt_ld z ++ k) = z.
Proof.
  intros Hz Hk. unfold strtol, in_s in *. rewrite parse_dec_fmt by done.
  destruct (Z.ltb_spec z 0); lia.
Qed.

Lemma strtoul_fmt z k :
  in_s 64 z → no_digit_head k → s64 (strtoul (fmt_ld z ++ k)) = z.
Proof.
  intros Hz Hk. unfold strtoul. rewrite parse_dec_fmt by done.
  rewrite decide_False by (unfold in_s in *; lia).
  destruct (Z.ltb_spec z 0).
  - rewrite wrap_s_u by lia. rewrite wrap_s_id by (unfold in_s in *; lia). lia.
  - rewrite wrap_s_id by (unfold in_s in *; lia). lia.
Qed.

Lemma atoi_fmt z k : in_s 32 z → no_digit_head k → atoi (fmt_ld z ++ k) = z.
Proof.
  intros Hz Hk. unfold atoi. rewrite strtol_fmt; [apply wrap_s_id; [lia|done]| |done].
  unfold in_s in *. lia.
Qed.

(** A printed number is made of digits, after an optional minus sign. *)
Lemma fmt_ld_chars z b : b ∈ fmt_ld z → is_digit b = true ∨ b = "-"%byte.
Proof.
  assert (Hd : ∀ y, 0 <= y → b ∈ fmt_u y → is_digit b = true).
  { intros y Hy Hb. pose proof (fmt_u_digits y Hy) as H.
    rewrite Forall_forall in H. by apply H. }
  unfold fmt_ld. destruct (Z.ltb_spec z 0).
  - intros [->|Hb]%elem_of_cons; [by right|left]. apply (Hd (- z)); [lia|done].
  - intros Hb. left. by apply (Hd z).
Qed.

Lemma atoi_range s : in_s 32 (atoi s).
Proof. by apply wrap_s_range. Qed.
