(* ===== verification/Incommon.v ===== *)
(** * Character and pointer helpers of [src/remainFile/src/Incommon.h]

    A [const char *] is [None] for NULL and [Some s] for a pointer whose buffer
    holds the bytes [s] and then its terminator; a pointer into the same buffer
    is a suffix of it, so pointer differences are differences of lengths. Loops
    that test [*p] stop at the first NUL byte or at the end of the list. *)

From S2P Require Import Prelude CLib.

Section pointers.

(** [strIntLen]: the length up to the first NUL. *)
Fixpoint strIntLen_loop (str : bytes) (len : nat) : nat :=
  match str with
  | [] => len
  | x :: str' => if decide (x = NUL) then len else strIntLen_loop str' (S len)
  end.
Definition strIntLen (str : option bytes) : nat :=
  match str with None => 0%nat | Some s => strIntLen_loop s 0 end.

(** [endConstCharStr] (and [endCharStr], the same loop): the terminator. *)
Fixpoint endConstCharStr (p : bytes) : bytes :=
  match p with
  | [] => []
  | x :: p' => if decide (x = NUL) then p else endConstCharStr p'
  end.

(** [strFristConstChar] (and [strFristChar]): the first [c] before the NUL. *)
Fixpoint strFristConstChar_loop (p : bytes) (c : byte) : option bytes :=
  match p with
  | [] => None
  | x :: p' =>
      if decide (x = NUL) then None
      else if decide (x = c) then Some p else strFristConstChar_loop p' c
  end.
Definition strFristConstChar (str : option bytes) (c : byte) : option bytes :=
  match str with None => None | Some s => strFristConstChar_loop s c end.

(** The comparison loop of [strFirstConstStr]: how many of the first [n] bytes
    of [q] agree with [p_for]; both pointers read NUL at the end. *)
Definition deref (p : bytes) : byte := default NUL (head p).
Fixpoint strFirstConstStr_match (n : nat) (p_for q : bytes) : nat :=
  match n with
  | O => 0%nat
  | S n' =>
      if decide (deref p_for = deref q)
      then S (strFirstConstStr_match n' (tail p_for) (tail q))
      else 0%nat
  end.

Fixpoint strFirstConstStr_loop (fuel : nat) (p tar : bytes) (q_len : nat) : option bytes :=
  match fuel with
  | O => None
  | S fuel' =>
      match strFristConstChar (Some p) (deref tar) with
      | None => None
      | Some p =>
          if decide (strIntLen (Some p) < q_len)%nat then None
          else if decide (strFirstConstStr_match q_len p tar = q_len) then Some p
          else strFirstConstStr_loop fuel' (tail p) tar q_len
      end
  end.

(** [strFirstConstStr]: every round moves at least one byte forward, so the
    length of the buffer bounds the number of rounds. *)
Definition strFirstConstStr (str : option bytes) (tar : bytes) : option bytes :=
  match str with
  | None => None
  | Some s =>
      let p_len := strIntLen (Some s) in
      let q_len := strIntLen (Some tar) in
      if decide (p_len < q_len)%nat then None
      else strFirstConstStr_loop (S (length s)) s tar q_len
  end.

(** [TranMsgIdI64ToChar]: the eight bytes of an [int64_t], most significant
    first; [TranMsgIdCharToI64] reads them back. *)
Definition TranMsgIdI64ToChar (IMsgId : Z) : bytes :=
  let j := IMsgId in
  [ to_byte (Z.land (Z.shiftr j 56) 255); to_byte (Z.land (Z.shiftr j 48) 255);
    to_byte (Z.land (Z.shiftr j 40) 255); to_byte (Z.land (Z.shiftr j 32) 255);
    to_byte (Z.land (Z.shiftr j 24) 255); to_byte (Z.land (Z.shiftr j 16) 255);
    to_byte (Z.land (Z.shiftr j 8) 255); to_byte (Z.land j 255) ].

Definition TranMsgIdCharToI64 (szMsgId : option bytes) : Z :=
  match szMsgId with
  | None => 0
  | Some p =>
      let at_ i := uchar (nth i p NUL) in
      let j := s64 (0 + s64 (Z.shiftl (at_ 0%nat) 56)) in
      let j := s64 (j + Z.shiftl (at_ 1%nat) 48) in
      let j := s64 (j + Z.shiftl (at_ 2%nat) 40) in
      let j := s64 (j + Z.shiftl (at_ 3%nat) 32) in
      let j := s64 (j + Z.shiftl (at_ 4%nat) 24) in
      let j := s64 (j + Z.shiftl (at_ 5%nat) 16) in
      let j := s64 (j + Z.shiftl (at_ 6%nat) 8) in
      s64 (j + at_ 7%nat)
  end.

(** [std::string::find_last_of] for one character. *)
Fixpoint find_last_of (c : byte) (s : bytes) : option nat :=
  match s with
  | [] => None
  | x :: s' =>
      match find_last_of c s' with
      | Some i => Some (S i)
      | None => if decide (x = c) then Some 0%nat else None
      end
  end.

(** [locakExePath]: the directory of the executable; [link] is what [readlink]
    found at ["/proc/self/exe"], [None] when it failed, cut to its buffer. *)
Definition locakExePath (link : option bytes) : bytes :=
  match link with
  | None => []
  | Some target =>
      let result := take 1024 target in
      match find_last_of "/"%byte result with
      | Some pos => take pos result
      | None => result
      end
  end.

End pointers.

(** ** Facts *)

(** A buffer without embedded NUL bytes. *)
Definition no_nul (s : bytes) : Prop := NUL ∉ s.
#[global] Instance no_nul_dec s : Decision (no_nul s).
Proof. unfold no_nul. apply _. Defined.

Lemma no_nul_cons x s : no_nul (x :: s) ↔ x ≠ NUL ∧ no_nul s.
Proof. unfold no_nul. rewrite not_elem_of_cons. split; intros []; split; congruence. Qed.

Lemma no_nul_app s t : no_nul (s ++ t) ↔ no_nul s ∧ no_nul t.
Proof. unfold no_nul. by rewrite not_elem_of_app. Qed.

Lemma strIntLen_loop_no_nul s n : no_nul s → strIntLen_loop s n = (n + length s)%nat.
Proof.
  revert n. induction s as [|x s IH]; intros n Hs; cbn; [lia|].
  apply no_nul_cons in Hs as [Hx Hs].
  rewrite decide_False by done. rewrite IH by done. lia.
Qed.

Lemma strIntLen_no_nul s : no_nul s → strIntLen (Some s) = length s.
Proof. intros ?. cbn. by rewrite strIntLen_loop_no_nul. Qed.

(** The first separator of [a ++ c :: k] is the written one. *)
Lemma strFristConstChar_app a c k :
  no_nul a → c ≠ NUL → c ∉ a → strFristConstChar (Some (a ++ c :: k)) c = Some (c :: k).
Proof.
  intros Ha Hc Hca. cbn. induction a as [|x a IH]; cbn.
  - by rewrite decide_False, decide_True by done.
  - apply no_nul_cons in Ha as [Hx Ha]. apply not_elem_of_cons in Hca as [Hxc Hca].
    rewrite decide_False, decide_False by done. by apply IH.
Qed.

Lemma strFristConstChar_suffix p c q :
  strFristConstChar (Some p) c = Some q →
  ∃ a, p = a ++ q ∧ (c ∉ a) ∧ no_nul a ∧ ∃ k, q = c :: k.
Proof.
  cbn. revert q. induction p as [|x p IH]; intros q; cbn; [done|].
  case_decide as Hx; [done|]. case_decide as Hc.
  - intros [= <-]. exists []. subst x. split_and!; [done| | |eauto].
    + apply not_elem_of_nil.
    + apply not_elem_of_nil.
  - intros (a & -> & Hca & Hna & k & ->)%IH. exists (x :: a).
    rewrite not_elem_of_cons, no_nul_cons. naive_solver.
Qed.

Lemma strFristConstChar_None p c :
  no_nul p → strFristConstChar (Some p) c = None → c ∉ p.
Proof.
  intros Hp. cbn. induction p as [|x p IH]; cbn; [intros _; apply not_elem_of_nil|].
  apply no_nul_cons in Hp as [Hx Hp].
  rewrite decide_False by done. case_decide; [done|].
  intros ?. apply not_elem_of_cons. split; [done|]. by apply IH.
Qed.

Lemma strFirstConstStr_match_full p q :
  (length q <= length p)%nat →
  (strFirstConstStr_match (length q) p q = length q) ↔ q `prefix_of` p.
Proof.
  revert p. induction q as [|y q IH]; intros p Hlen; cbn [length strFirstConstStr_match].
  - split; [intros _; apply prefix_nil|done].
  - destruct p as [|x p]; cbn in Hlen; [lia|]. cbn [deref head default tail].
    case_decide as E; cbn in E.
    + subst x. 
      specialize (IH p ltac:(lia)). split.
      * intros [= H]. apply prefix_cons, IH. done.
      * intros H%prefix_cons_inv_2. f_equal. by apply IH.
    + split; [done|]. intros H%prefix_cons_inv_1. done.
Qed.

Lemma strIntLen_le s : (strIntLen (Some s) <= length s)%nat.
Proof.
  cbn. enough (H : ∀ n, (strIntLen_loop s n <= n + length s)%nat) by apply (H 0%nat).
  induction s as [|x s IH]; intros n; cbn; [lia|].
  case_decide; [lia|]. specialize (IH (S n)). lia.
Qed.

(** Whatever the buffer holds, a match lies inside it and is long enough. *)
Lemma strFirstConstStr_suffix s tar p :
  strFirstConstStr (Some s) tar = Some p →
  (strIntLen (Some tar) <= length p)%nat ∧ ∃ a, s = a ++ p.
Proof.
  unfold strFirstConstStr. case_decide; [done|].
  generalize (S (length s)) as fuel. intros fuel. clear H.
  revert s. induction fuel as [|fuel IH]; intros s; [done|]. cbn [strFirstConstStr_loop].
  destruct (strFristConstChar (Some s) _) as [q|] eqn:E; [|done].
  apply strFristConstChar_suffix in E as (a & -> & _ & _ & k & ->).
  case_decide as Hlen; [done|]. case_decide.
  - intros [= <-]. pose proof (strIntLen_le (deref tar :: k)). split; [lia|eauto].
  - cbn [tail]. intros [Hp [b ->]]%IH. split; [done|].
    exists (a ++ deref tar :: b). by rewrite <- app_assoc.
Qed.

(** [t] starts at [k] inside [s], after the bytes [b]. *)
Definition occurs (t s b k : bytes) : Prop := s = b ++ k ∧ t `prefix_of` k.

Lemma occurs_length t s b k : occurs t s b k → (length t <= length k)%nat.
Proof. intros [_ H]. by apply prefix_length. Qed.

Lemma occurs_head c t s b k : occurs (c :: t) s b k → s !! length b = Some c.
Proof. intros [-> [x ->]]. by apply list_lookup_middle. Qed.

(** An occurrence cannot start inside a prefix without the first byte. *)
Lemma occurs_after c t a s b k :
  c ∉ a → occurs (c :: t) (a ++ s) b k → (length a <= length b)%nat.
Proof.
  intros Hc H%occurs_head. destruct (decide (length a <= length b)%nat) as [|Hlt]; [done|].
  rewrite lookup_app_l in H by lia. exfalso. apply Hc. by eapply list_elem_of_lookup_2.
Qed.

Definition first_occurrence (t s : bytes) (r : option bytes) : Prop :=
  match r with
  | Some p => ∃ a, occurs t s a p ∧ ∀ b k, occurs t s b k → (length a <= length b)%nat
  | None => ∀ b k, ¬ occurs t s b k
  end.

(** Skipping bytes that cannot start an occurrence. *)
Lemma first_occurrence_skip t a s r :
  (∀ b k, occurs t (a ++ s) b k → (length a <= length b)%nat) →
  first_occurrence t s r → first_occurrence t (a ++ s) r.
Proof.
  intros Hskip. assert (Hinv : ∀ b k, occurs t (a ++ s) b k →
    ∃ b', b = a ++ b' ∧ occurs t s b' k).
  { intros b k Ho. pose proof (Hskip b k Ho) as Hlen. destruct Ho as [E Hp].
    exists (drop (length a) b).
    assert (Hb : take (length a) b = a).
    { apply (f_equal (take (length a))) in E.
      rewrite take_app_length in E. rewrite take_app_le in E by done. done. }
    rewrite <- Hb at 1. rewrite take_drop. split; [done|].
    split; [|done]. rewrite <- (take_drop (length a) b), Hb, <- app_assoc in E.
    by apply app_inv_head in E. }
  destruct r as [p|]; cbn.
  - intros (a' & [-> Hp] & Hmin). exists (a ++ a'). split.
    + split; [by rewrite app_assoc|done].
    + intros b k (b' & -> & Ho)%Hinv. rewrite !length_app. apply Hmin in Ho. lia.
  - intros Hnone b k (b' & -> & Ho)%Hinv. by eapply Hnone.
Qed.

Lemma strFirstConstStr_loop_spec fuel p t :
  (length p < fuel)%nat → no_nul p → no_nul t → t ≠ [] →
  first_occurrence t p (strFirstConstStr_loop fuel p t (length t)).
Proof.
  revert p. induction fuel as [|fuel IH]; intros p Hfuel Hp Ht Hne; [lia|].
  destruct t as [|c t]; [done|]. cbn [strFirstConstStr_loop].
  pose proof Ht as [Hc Ht']%no_nul_cons.
  change (deref (c :: t)) with c.
  destruct (strFristConstChar (Some p) c) as [q|] eqn:E.
  - apply strFristConstChar_suffix in E as (a & -> & Hca & Hna & k & ->).
    apply no_nul_app in Hp as [_ Hq]. pose proof Hq as [_ Hk]%no_nul_cons.
    apply first_occurrence_skip.
    { intros b k' Ho. exact (occurs_after _ _ _ _ _ _ Hca Ho). }
    rewrite strIntLen_no_nul by done. cbn [length] in Hfuel.
    rewrite length_app in Hfuel. cbn [length] in Hfuel.
    destruct (decide _) as [Hshort|Hlong].
    { intros b k' Ho. pose proof (occurs_length _ _ _ _ Ho) as Hl. destruct Ho as [E _].
      apply (f_equal length) in E. rewrite length_app in E. lia. }
    destruct (decide (strFirstConstStr_match _ _ _ = _)) as [Hm|Hm].
    + apply (strFirstConstStr_match_full (c :: k) (c :: t)) in Hm; [|lia].
      exists []. split; [by split|]. cbn. lia.
    + cbn [tail]. change (c :: k) with ([c] ++ k). apply first_occurrence_skip.
      * intros [|x b] k' [E Hpre]; [|cbn; lia]. exfalso. apply Hm.
        apply (strFirstConstStr_match_full (c :: k) (c :: t)); [lia|].
        cbn in E. by subst k'.
      * apply IH; [lia|done..].
  - apply strFristConstChar_None in E; [|done].
    intros b k [-> [x ->]]. apply E. set_solver.
Qed.

(** [strFirstConstStr] returns the first occurrence of a NUL-free target, and
    NULL exactly when there is none. *)
Lemma strFirstConstStr_first s t :
  no_nul s → no_nul t → t ≠ [] → first_occurrence t s (strFirstConstStr (Some s) t).
Proof.
  intros Hs Ht Hne. unfold strFirstConstStr.
  rewrite !strIntLen_no_nul by done. destruct (decide _) as [Hlt|].
  - intros b k Ho. pose proof (occurs_length _ _ _ _ Ho). destruct Ho as [-> _].
    rewrite length_app in Hlt. lia.
  - apply strFirstConstStr_loop_spec; [lia|done..].
Qed.

Lemma strFirstConstStr_app a c t k :
  no_nul (a ++ (c :: t) ++ k) → c ∉ a →
  strFirstConstStr (Some (a ++ (c :: t) ++ k)) (c :: t) = Some ((c :: t) ++ k).
Proof.
  intros Hn Hc. pose proof Hn as [Ha [Ht Hk]%no_nul_app]%no_nul_app.
  pose proof (strFirstConstStr_first _ (c :: t) Hn Ht ltac:(done)) as H.
  destruct (strFirstConstStr _ _) as [p|]; cbn in H.
  - destruct H as (a' & [E Hp] & Hmin).
    specialize (Hmin a ((c :: t) ++ k) ltac:(split; [done|by eexists])).
    destruct (decide (length a' = length a)) as [Hl|Hl].
    + apply app_inj_1 in E as [_ E]; [|done]. cbn. by rewrite <- E.
    + pose proof (occurs_after c t a _ a' p Hc ltac:(by split)). lia.
  - exfalso. eapply (H a ((c :: t) ++ k)). split; [done|by eexists].
Qed.

Lemma strFirstConstStr_absent s c t :
  no_nul s → no_nul (c :: t) → c ∉ s → strFirstConstStr (Some s) (c :: t) = None.
Proof.
  intros Hs Ht Hc. pose proof (strFirstConstStr_first s (c :: t) Hs Ht ltac:(done)) as H.
  destruct (strFirstConstStr _ _) as [p|]; [|done].
  destruct H as (a & [-> [x ->]] & _). exfalso. apply Hc. set_solver.
Qed.

(** [strFirstConstStr] is a correct substring search: on NUL-free strings it
    returns the suffix that starts at the first occurrence of a non-empty target,
    and NULL exactly when the target does not occur; NULL stays NULL. *)
Theorem substring_search (s t : bytes) :
  no_nul s → no_nul t → t ≠ [] →
  strFirstConstStr None t = None ∧
  match strFirstConstStr (Some s) t with
  | Some p => ∃ a, s = a ++ p ∧ t `prefix_of` p ∧
      ∀ b k, s = b ++ k → t `prefix_of` k → (length a <= length b)%nat
  | None => ∀ b k, s = b ++ k → ¬ t `prefix_of` k
  end.
Proof.
  intros Hs Ht Hne. split; [done|].
  pose proof (strFirstConstStr_first s t Hs Ht Hne) as H.
  destruct (strFirstConstStr (Some s) t) as [p|].
  - destruct H as (a & [-> Hp] & Hmin). exists a. split_and!; [done..|].
    intros b k E Hk. by apply (Hmin b k).
  - intros b k -> Hk. by apply (H b k).
Qed.

Lemma substring_search_witness :
  no_nul (lit "aab-aabc") ∧ strFirstConstStr None (lit "aabc") = None ∧
  match strFirstConstStr (Some (lit "aab-aabc")) (lit "aabc") with
  | Some p => ∃ a, lit "aab-aabc" = a ++ p ∧ lit "aabc" `prefix_of` p ∧
      ∀ b k, lit "aab-aabc" = b ++ k → lit "aabc" `prefix_of` k → (length a <= length b)%nat
  | None => ∀ b k, lit "aab-aabc" = b ++ k → ¬ lit "aabc" `prefix_of` k
  end.
Proof. split; [decide_now|]. apply (substring_search (lit "aab-aabc") (lit "aabc")); [decide_now..|done]. Defined.

(** ** Message ids *)

Lemma s64_congr a b : a mod 2 ^ 64 = b mod 2 ^ 64 → s64 a = s64 b.
Proof. intros E. unfold wrap_s, wrap_u. by rewrite E. Qed.

Lemma s64_mod a : s64 a mod 2 ^ 64 = a mod 2 ^ 64.
Proof. unfold wrap_s, wrap_u. case_decide; dlia. Qed.

Lemma s64_add_l a b : s64 (s64 a + b) = s64 (a + b).
Proof. apply s64_congr. by rewrite Z.add_mod, s64_mod, <- Z.add_mod. Qed.

Lemma byte_shift m n : 0 <= n → uchar (to_byte (Z.land (Z.shiftr m n) 255)) = m / 2 ^ n mod 256.
Proof.
  intros. rewrite uchar_to_byte. change 255 with (Z.ones 8).
  rewrite Z.land_ones, Z.shiftr_div_pow2 by lia. apply Z.mod_mod. lia.
Qed.

(** Message ids survive [TranMsgIdI64ToChar] and [TranMsgIdCharToI64]: every
    [int64_t], negative ones too, is read back from its eight bytes. *)
Theorem msgid_bytes_roundtrip (IMsgId : Z) :
  in_s 64 IMsgId → TranMsgIdCharToI64 (Some (TranMsgIdI64ToChar IMsgId)) = IMsgId.
Proof.
  intros Hm. unfold TranMsgIdCharToI64, TranMsgIdI64ToChar. cbn [nth]. cbv zeta.
  rewrite <- (Z.shiftr_0_r IMsgId) at 8. rewrite !byte_shift by lia.
  rewrite !Z.shiftl_mul_pow2, (Z.add_comm 0) by lia.
  repeat first [rewrite s64_add_l | rewrite <- Z.add_assoc].
  transitivity (s64 IMsgId); [|by apply wrap_s_id]. apply s64_congr.
  assert (Hd : ∀ a b, 0 <= a → b = a + 8 → IMsgId / 2 ^ b = IMsgId / 2 ^ a / 256)
    by (intros a b ? ->; by rewrite Z.div_div, Z.pow_add_r by lia).
  rewrite (Hd 48 56), (Hd 40 48), (Hd 32 40), (Hd 24 32), (Hd 16 24), (Hd 8 16), (Hd 0 8),
    Z.div_1_r by done. clear. rewrite <- (Z_mod_plus_full _ (IMsgId / 256 / 256 / 256 / 256 / 256 / 256 / 256 / 256)).
  f_equal. dlia.
Qed.

Lemma msgid_bytes_roundtrip_witness :
  TranMsgIdCharToI64 (Some (TranMsgIdI64ToChar (-9223372036854775807))) = -9223372036854775807.
Proof. apply (msgid_bytes_roundtrip (-9223372036854775807)). decide_now. Defined.
