(* ===== verification/Base64.v ===== *)
(** * Base64 ([src/common/Base64.cpp], copied in [src/remainFile/src/Base64.cpp])

    [Encode] and [Decode] with their output buffers; the round trip and the
    bounds of both buffers. *)

From S2P Require Import Prelude CLib.

Module Base64.

Definition base64Code : bytes :=
  lit "ABCDEFGHIJKLMNOPQRSTUVWXYZabcdefghijklmnopqrstuvwxyz0123456789+/".

Definition Base2Chr (n : Z) : byte :=
  let n := Z.land n 63 in
  if n <? 26 then to_byte (n + 65)
  else if n <? 52 then to_byte (n - 26 + 97)
  else if n <? 62 then to_byte (n - 52 + 48)
  else if n =? 62 then "+"%byte
  else "/"%byte.

Definition Chr2Base (c : byte) : Z :=
  let z := schar c in
  if (65 <=? z) && (z <=? 90) then u8 (z - 65)
  else if (97 <=? z) && (z <=? 122) then u8 (z - 97 + 26)
  else if (48 <=? z) && (z <=? 57) then u8 (z - 48 + 52)
  else if decide (c = "+"%byte) then 62
  else if decide (c = "/"%byte) then 63
  else 64.

Definition Base64EncodeLen (n : Z) : Z := (n + 2) / 3 * 4 + 1.
Definition Base64DecodeLen (n : Z) : Z := n / 4 * 3 + 2.

(** [base64Code[k]] *)
Definition code (k : Z) : byte := nth (Z.to_nat k) base64Code NUL.

(** The body of the loop of [Encode] on the 24-bit group [c]; [over] is how far
    [i] ended up beyond [src.size()]. *)
Definition encode_group (c : Z) (over : Z) : bytes :=
  let p0 := code (Z.shiftr (Z.land c 0xfc0000) 18) in
  let p1 := code (Z.shiftr (Z.land c 0x03f000) 12) in
  let p2 := code (Z.shiftr (Z.land c 0x000fc0) 6) in
  let p3 := code (Z.shiftr (Z.land c 0x00003f) 0) in
  let p3 := if 0 <? over then "="%byte else p3 in
  let p2 := if 1 <? over then "="%byte else p2 in
  [p0; p1; p2; p3].

(** One group: [c = q[i]; c *= 256; c += q[i+1] ...] with missing bytes as 0. *)
Definition group (b0 b1 b2 : Z) : Z :=
  let c := b0 in
  let c := u32 (c * 256) in
  let c := u32 (c + b1) in
  let c := u32 (c * 256) in
  u32 (c + b2).

Fixpoint Encode_loop (q : bytes) : bytes :=
  match q with
  | [] => []
  | b0 :: q1 =>
      match q1 with
      | [] => encode_group (group (uchar b0) 0 0) 2
      | b1 :: q2 =>
          match q2 with
          | [] => encode_group (group (uchar b0) (uchar b1) 0) 1
          | b2 :: q3 =>
              encode_group (group (uchar b0) (uchar b1) (uchar b2)) 0 ++ Encode_loop q3
          end
      end
  end.

(** [Encode(src, &dst)]: the result and the new value of [dst]. *)
Definition Encode (src dst : bytes) : bool * bytes :=
  match src with
  | [] => (false, dst)
  | _ => (true, Encode_loop src)
  end.

(** The loop of [Decode] from index [i], with the partial byte [t] and the bytes
    [out] stored so far. [None] is the early [return false]. *)
Fixpoint Decode_loop (src : bytes) (i : nat) (t : Z) (out : bytes) : bool * bytes :=
  match src with
  | [] => (true, out)
  | x :: src' =>
      if decide (x = "="%byte) then (true, out)
      else
        let c := if decide (x = NUL) then 65 else Chr2Base x in
        if c =? 64 then (false, out)
        else if c =? 65 then (true, out)
        else
          match (i mod 4)%nat with
          | 0%nat => Decode_loop src' (S i) (u8 (Z.shiftl c 2)) out
          | 1%nat =>
              Decode_loop src' (S i) (u8 (Z.shiftl c 4))
                (out ++ [to_byte (Z.lor t (u8 (Z.shiftr c 4)))])
          | 2%nat =>
              Decode_loop src' (S i) (u8 (Z.shiftl c 6))
                (out ++ [to_byte (Z.lor t (Z.shiftr c 2))])
          | _ => Decode_loop src' (S i) t (out ++ [to_byte (Z.lor t c)])
          end
  end.

(** [Decode(src, &dst)]. The buffer is [dst] resized; on success it is cut to
    the bytes stored, on failure it keeps what lies behind them. *)
Definition Decode (src dst : bytes) : bool * bytes :=
  match src with
  | [] => (false, dst)
  | _ =>
      let buf := resize (Z.to_nat (Base64DecodeLen (Z.of_nat (length src)))) NUL dst in
      let '(ok, out) := Decode_loop src 0 0 [] in
      if ok then (true, out) else (false, out ++ drop (length out) buf)
  end.

(** ** The alphabet *)

Definition sextets : list Z := seqZ 0 64.

Lemma sextet_check (P : Z → Prop) `{∀ z, Decision (P z)} :
  forallb (λ z, bool_decide (P z)) sextets = true → ∀ k, 0 <= k < 64 → P k.
Proof.
  intros Hall k Hk. rewrite forallb_forall in Hall.
  apply (bool_decide_unpack (P k)), Is_true_true, Hall.
  apply list_elem_of_In, elem_of_seqZ. lia.
Qed.

Lemma Base2Chr_code k : 0 <= k < 64 → Base2Chr k = code k.
Proof. revert k. apply (sextet_check _). by vm_compute. Qed.

Lemma Chr2Base_code k : 0 <= k < 64 → Chr2Base (code k) = k.
Proof. revert k. apply (sextet_check _). by vm_compute. Qed.

Lemma code_not_special k : 0 <= k < 64 → code k ≠ "="%byte ∧ code k ≠ NUL ∧ code k ≠ ","%byte.
Proof. revert k. apply (sextet_check _). by vm_compute. Qed.

(** [Chr2Base] accepts exactly the 64 characters of the alphabet. *)
Lemma Chr2Base_range c : Chr2Base c = 64 ∨ 0 <= Chr2Base c < 64 ∧ c = code (Chr2Base c).
Proof.
  assert (H : bool_decide (Chr2Base c = 64 ∨ (0 <= Chr2Base c < 64 ∧ c = code (Chr2Base c))) = true)
    by (by destruct c; vm_compute).
  by apply bool_decide_eq_true in H.
Qed.

(** ** Length of the encoding *)

Lemma Encode_loop_ind (P : bytes → Prop) :
  P [] → (∀ a, P [a]) → (∀ a b, P [a; b]) →
  (∀ a b c l, P l → P (a :: b :: c :: l)) → ∀ l, P l.
Proof.
  intros H0 H1 H2 H3 l.
  assert (Hl : P l ∧ (∀ a, P (a :: l)) ∧ ∀ a b, P (a :: b :: l)); [|by destruct Hl].
  induction l as [|x l (? & ? & ?)]; auto.
Qed.

Lemma Encode_loop_length src :
  Z.of_nat (length (Encode_loop src)) + 1 = Base64EncodeLen (Z.of_nat (length src)).
Proof.
  unfold Base64EncodeLen. induction src as [| | |a b c l IH] using Encode_loop_ind;
    [done..|]. cbn [Encode_loop]. rewrite length_app. cbn [length encode_group].
  rewrite !Nat2Z.inj_succ in *. dlia.
Qed.

(** ** Round trip *)

Lemma group_val b0 b1 b2 :
  0 <= b0 < 256 → 0 <= b1 < 256 → 0 <= b2 < 256 →
  group b0 b1 b2 = b0 * 65536 + b1 * 256 + b2.
Proof. intros. unfold group, wrap_u. dlia. Qed.

(** The four sextets of a group. *)
Lemma encode_group_code c over :
  encode_group c over =
    [ code ((c / 2 ^ 18) mod 64); code ((c / 2 ^ 12) mod 64);
      if 1 <? over then "="%byte else code ((c / 2 ^ 6) mod 64);
      if 0 <? over then "="%byte else code (c mod 64) ].
Proof.
  unfold encode_group.
  change 0xfc0000 with (Z.shiftl (Z.ones 6) 18). change 0x03f000 with (Z.shiftl (Z.ones 6) 12).
  change 0x000fc0 with (Z.shiftl (Z.ones 6) 6). change 0x00003f with (Z.shiftl (Z.ones 6) 0).
  rewrite !shiftr_land_mask by lia. by rewrite Z.div_1_r.
Qed.

(** One step of the decoder on a character of the alphabet. *)
Lemma Decode_loop_code k src i t out :
  0 <= k < 64 →
  Decode_loop (code k :: src) i t out =
    match (i mod 4)%nat with
    | 0%nat => Decode_loop src (S i) (k * 2 ^ 2) out
    | 1%nat => Decode_loop src (S i) (u8 (k * 2 ^ 4)) (out ++ [to_byte (Z.lor t (k / 2 ^ 4))])
    | 2%nat => Decode_loop src (S i) (u8 (k * 2 ^ 6)) (out ++ [to_byte (Z.lor t (k / 2 ^ 2))])
    | _ => Decode_loop src (S i) t (out ++ [to_byte (Z.lor t k)])
    end.
Proof.
  intros Hk. destruct (code_not_special k Hk) as (He & Hn & _). cbn [Decode_loop].
  rewrite decide_False, decide_False, Chr2Base_code by done.
  rewrite (proj2 (Z.eqb_neq k 64)), (proj2 (Z.eqb_neq k 65)) by lia.
  rewrite !Z.shiftl_mul_pow2, !Z.shiftr_div_pow2 by lia.
  rewrite (wrap_u_id 8 (k * 2 ^ 2)) by (unfold in_u; lia).
  rewrite (wrap_u_id 8 (k / 2 ^ 4)) by (unfold in_u; dlia). done.
Qed.

(** Reassembling the bytes of a group from its sextets. *)
Lemma sextets_bytes c (b0 b1 b2 : byte) :
  c = uchar b0 * 65536 + uchar b1 * 256 + uchar b2 →
  to_byte (Z.lor ((c / 2 ^ 18) mod 64 * 2 ^ 2) ((c / 2 ^ 12) mod 64 / 2 ^ 4)) = b0 ∧
  to_byte (Z.lor (u8 ((c / 2 ^ 12) mod 64 * 2 ^ 4)) ((c / 2 ^ 6) mod 64 / 2 ^ 2)) = b1 ∧
  to_byte (Z.lor (u8 ((c / 2 ^ 6) mod 64 * 2 ^ 6)) (c mod 64)) = b2.
Proof.
  intros Hc. pose proof (uchar_range b0). pose proof (uchar_range b1).
  pose proof (uchar_range b2).
  assert (E1 : u8 ((c / 2 ^ 12) mod 64 * 2 ^ 4) = (c / 2 ^ 12) mod 16 * 2 ^ 4)
    by (unfold wrap_u; dlia).
  assert (E2 : u8 ((c / 2 ^ 6) mod 64 * 2 ^ 6) = (c / 2 ^ 6) mod 4 * 2 ^ 6)
    by (unfold wrap_u; dlia).
  rewrite E1, E2, !lor_add_low by dlia.
  split_and!; apply uchar_inj; rewrite to_byte_small; dlia.
Qed.

Lemma Decode_Encode_loop src i t out :
  (i mod 4 = 0)%nat → Decode_loop (Encode_loop src) i t out = (true, out ++ src).
Proof.
  assert (Hs : ∀ j, ((4 * j) mod 4 = 0 ∧ S (4 * j) mod 4 = 1 ∧ S (S (4 * j)) mod 4 = 2 ∧
    S (S (S (4 * j))) mod 4 = 3)%nat) by (intros; dlia).
  assert (Hm : ∀ z : Z, 0 <= z mod 64 < 64) by (intros; apply Z.mod_pos_bound; lia).
  intros Hi. assert (∃ j, i = 4 * j)%nat as [j ->] by (exists (i / 4)%nat; dlia). clear Hi.
  destruct (Hs j) as (H0 & H1 & H2 & H3).
  revert j t out H0 H1 H2 H3.
  induction src as [|a|a b|a b c l IH] using Encode_loop_ind; intros j t out H0 H1 H2 H3.
  - cbn. by rewrite app_nil_r.
  - cbn [Encode_loop]. rewrite encode_group_code, group_val by auto using uchar_range with lia.
    destruct (sextets_bytes _ a NUL NUL eq_refl) as (Ha & _ & _).
    rewrite Decode_loop_code, H0, Decode_loop_code, H1 by done. cbn [Z.ltb Z.compare].
    change (uchar NUL) with 0 in Ha. rewrite Ha. by cbn.
  - cbn [Encode_loop]. rewrite encode_group_code, group_val by auto using uchar_range with lia.
    destruct (sextets_bytes _ a b NUL eq_refl) as (Ha & Hb & _).
    rewrite Decode_loop_code, H0, Decode_loop_code, H1 by done.
    change (1 <? 1) with false. change (0 <? 1) with true. cbn match.
    rewrite Decode_loop_code, H2 by done.
    change (uchar NUL) with 0 in Ha, Hb. rewrite Ha, Hb. cbn. by rewrite <- app_assoc.
  - cbn [Encode_loop]. rewrite encode_group_code, group_val by auto using uchar_range with lia.
    destruct (sextets_bytes _ a b c eq_refl) as (Ha & Hb & Hc).
    change (1 <? 0) with false. change (0 <? 0) with false. cbn match. cbn [app].
    rewrite Decode_loop_code, H0, Decode_loop_code, H1, Decode_loop_code, H2,
      Decode_loop_code, H3 by done.
    rewrite Ha, Hb, Hc. rewrite <- !app_assoc. cbn [app].
    replace (S (S (S (S (4 * j))))) with (4 * S j)%nat by lia.
    destruct (Hs (S j)) as (? & ? & ? & ?).
    rewrite IH by done. by rewrite <- app_assoc.
Qed.

(** How many bytes the decoder may have stored when it reads index [i]. *)
Definition stored (i : nat) : nat := (i / 4 * 3 + pred (i mod 4))%nat.

Lemma stored_le i j : (i <= j)%nat → (stored i <= stored j)%nat.
Proof. unfold stored. intros. dlia. Qed.

Lemma Decode_loop_stored src i t out :
  (length out <= stored i)%nat →
  (length (Decode_loop src i t out).2 <= stored (i + length src))%nat.
Proof.
  revert i t out. induction src as [|x src IH]; intros i t out Ho; cbn [Decode_loop length].
  { by rewrite Nat.add_0_r. }
  pose proof (stored_le i (i + S (length src)) ltac:(lia)).
  case_decide; [cbn [snd]; lia|]. cbv zeta.
  destruct (_ =? 64); [cbn [snd]; lia|]. destruct (_ =? 65); [cbn [snd]; lia|].
  rewrite <- Nat.add_succ_comm.
  assert (Hm : (i mod 4 < 4)%nat) by dlia. revert Ho Hm. unfold stored at 1.
  destruct (i mod 4)%nat as [|[|[|[|]]]] eqn:Ei; intros; try lia;
    apply IH; rewrite ?length_app; unfold stored; cbn [length]; dlia.
Qed.

(** [Decode] stores inside the buffer it allocated. *)
Lemma Decode_loop_bound src t :
  Z.of_nat (length (Decode_loop src 0 t []).2) <= Base64DecodeLen (Z.of_nat (length src)).
Proof.
  pose proof (Decode_loop_stored src 0 t [] ltac:(cbn; lia)) as H.
  unfold Base64DecodeLen. unfold stored in H. cbn [Nat.add] in H. dlia.
Qed.

(** Characters of an encoding: the alphabet and the padding. *)
Lemma Encode_loop_chars src b :
  b ∈ Encode_loop src → (∃ k, 0 <= k < 64 ∧ b = code k) ∨ b = "="%byte.
Proof.
  assert (Hg : ∀ c over, b ∈ encode_group c over → (∃ k, 0 <= k < 64 ∧ b = code k) ∨ b = "="%byte).
  { intros c over. rewrite encode_group_code.
    assert (Hm : ∀ z, 0 <= z mod 64 < 64) by (intros; apply Z.mod_pos_bound; lia).
    rewrite !elem_of_cons, elem_of_nil. intros [->|[->|[->|[->|[]]]]];
      repeat case_match; eauto. }
  induction src as [| | |x y z l IH] using Encode_loop_ind; cbn [Encode_loop]; eauto.
  - by intros ?%elem_of_nil.
  - rewrite elem_of_app. intros [?|?]; eauto.
Qed.

Lemma Encode_loop_not_in src b :
  b = NUL ∨ b = ","%byte ∨ b = "013"%byte ∨ b = "010"%byte → b ∉ Encode_loop src.
Proof.
  intros Hb [(k & Hk & E)|E]%Encode_loop_chars; [|destruct Hb as [->|[->|[->| ->]]]; done].
  revert Hk E. assert (Hall : ∀ k, 0 <= k < 64 →
    code k ≠ NUL ∧ code k ≠ ","%byte ∧ code k ≠ "013"%byte ∧ code k ≠ "010"%byte)
    by (apply (sextet_check _); by vm_compute).
  intros Hk%Hall ->. destruct Hk as (?&?&?&?). by destruct Hb as [|[|[|]]].
Qed.

(** ** Properties *)

Lemma Encode_nonempty src dst : src ≠ [] → Encode src dst = (true, Encode_loop src).
Proof. by destruct src. Qed.

Lemma Decode_full src dst : src ≠ [] → Decode_loop src 0 0 [] = (true, (Decode_loop src 0 0 []).2) →
  Decode src dst = (true, (Decode_loop src 0 0 []).2).
Proof. intros Hs E. destruct src; [done|]. unfold Decode. by rewrite E. Qed.

Lemma Decode_Encode src dst : src ≠ [] → Decode (Encode_loop src) dst = (true, src).
Proof.
  intros Hs. pose proof (Encode_loop_length src) as Hl. unfold Base64EncodeLen in Hl.
  pose proof (Decode_Encode_loop src 0 0 [] eq_refl) as Hd. rewrite Decode_full; rewrite ?Hd; [done| |done].
  intros E. by rewrite E in Hd; injection Hd as <-.
Qed.

(** Base64 round trip: a non-empty buffer is encoded into exactly
    [(n + 2) / 3 * 4] characters, whatever the target held, and decoding them gives
    the buffer back. *)
Lemma base64_roundtrip (src dst dst' : bytes) :
  src ≠ [] → ∃ e, Encode src dst = (true, e) ∧
    Z.of_nat (length e) = (Z.of_nat (length src) + 2) / 3 * 4 ∧ Decode e dst' = (true, src).
Proof.
  intros Hs. exists (Encode_loop src). rewrite Encode_nonempty by done.
  pose proof (Encode_loop_length src) as Hl. unfold Base64EncodeLen in Hl.
  split_and!; [done|lia|by apply Decode_Encode].
Qed.

Lemma base64_roundtrip_witness :
  lit "remain" ≠ [] ∧ ∃ e, Encode (lit "remain") (lit "x") = (true, e) ∧
    Z.of_nat (length e) = (Z.of_nat (length (lit "remain")) + 2) / 3 * 4 ∧
    Decode e [] = (true, lit "remain").
Proof. split; [done|]. by apply (base64_roundtrip (lit "remain") (lit "x") []). Defined.

(** C40: No buffer overflow: for every input, valid Base64 or not, the bytes
    [Decode] stores fit the [Base64DecodeLen] bytes it reserved, and the text of
    [Encode] with its terminator fits [Base64EncodeLen] exactly; a rejected input
    leaves a target of exactly the reserved size. *)
Theorem base64_buffers (src dst : bytes) :
  Z.of_nat (length (Encode_loop src)) + 1 = Base64EncodeLen (Z.of_nat (length src)) ∧
  Z.of_nat (length (Decode_loop src 0 0 []).2) <= Base64DecodeLen (Z.of_nat (length src)) ∧
  ((Decode src dst).1 = false → src ≠ [] →
   Z.of_nat (length (Decode src dst).2) = Base64DecodeLen (Z.of_nat (length src))).
Proof.
  pose proof (Decode_loop_bound src 0) as Hb. split_and!; [apply Encode_loop_length|done|].
  destruct src as [|x src]; [done|]. unfold Decode.
  destruct (Decode_loop (x :: src) 0 0 []) as [[] out]; [done|]. intros _ _. cbn [snd] in *.
  rewrite length_app, length_drop, length_resize. lia.
Qed.

Lemma base64_buffers_witness :
  (Decode (lit "ab!d") []).1 = false ∧ Z.of_nat (length (Decode (lit "ab!d") []).2) = 5.
Proof. split; [done|]. by apply (base64_buffers (lit "ab!d") []). Defined.

End Base64.
