(* ===== verification/RemainObj.v ===== *)
(** * The remain object ([src/remainFile/RemainObjMgr.h], class [RemainObj])

    One field per data member, in the order of the class: [int] and [int64_t]
    members are numbers, [std::string] members byte strings. *)

From S2P Require Import Prelude.

Definition REMAIN_OBJMGR_RE_FLAG : Z := 1.
Definition REMAIN_OBJMGR_MO_FLAG : Z := 2.
Definition REMAIN_OBJMGR_MT_FLAG : Z := 3.

Record RemainObj := mk_RemainObj {
  m_nMsgFmt : Z;
  bitFlag_ : Z;
  m_nPkNumber : Z;
  m_nPkTotal : Z;
  m_nPhoneCount : Z;
  m_nMsgLevel : Z;
  m_nEcid : Z;
  m_nPreNodeid : Z;
  m_nLocalNodeid : Z;
  m_nGateId : Z;
  m_nBatchType : Z;
  m_nRptFlag : Z;
  m_nRptFrom : Z;
  m_nTpudhi : Z;
  m_nTppid : Z;
  m_nLongMsgSeq : Z;
  m_nChargeNum : Z;
  m_nSignPos : Z;
  m_nFileSize : Z;
  m_nMmstype : Z;
  m_nMobileCountry : Z;
  m_nMobileArea : Z;
  m_nMobileCity : Z;
  m_nMobileType : Z;
  m_nFeeFlag : Z;
  m_nChargeType : Z;
  m_nChargeRate : Z;
  m_nMsgSeqId : Z;
  m_nDttype : Z;
  m_nSendFlag : Z;
  m_nPassThrough : Z;
  m_nPtMsgId : Z; (* int64_t *)
  m_nSuppMsgId : Z; (* int64_t *)
  m_nInitMgsId : Z; (* int64_t *)
  m_nCreateTime : Z; (* int64_t *)
  m_nRecvTime : Z; (* int64_t *)
  m_nRespTime : Z; (* int64_t *)
  m_nInsertTime : Z; (* int64_t *)
  m_nSubmitTime : Z; (* int64_t *)
  m_nDoneTime : Z; (* int64_t *)
  m_nRecvRptTime : Z; (* int64_t *)
  m_nTranTime : Z; (* int64_t *)
  m_nDealTime : Z; (* int64_t *)
  m_nDeliverTime : Z; (* int64_t *)
  m_nAttime : Z; (* int64_t *)
  m_nValidtime : Z; (* int64_t *)
  m_nMsgHashCode : Z; (* int64_t *)
  m_nMwBatchId : Z; (* int64_t *)
  m_strSpMsgId : bytes;
  m_strPtcode : bytes;
  m_strUserBatchId : bytes;
  m_strSvrType : bytes;
  m_strSignature : bytes;
  m_strMsgHash256 : bytes;
  m_strCustName : bytes;
  m_strAccNumber : bytes;
  m_strBankNumber : bytes;
  m_strTransSeq : bytes;
  m_strAccInfo : bytes;
  m_strChangeMark : bytes;
  m_strExitSign : bytes;
  m_strCustNumber : bytes;
  m_strDepartCode : bytes;
  m_strSignOrgcode : bytes;
  m_strReserve : bytes;
  m_strSubmitter : bytes;
  m_strReviewer : bytes;
  m_strSignStatus : bytes;
  m_strMsgSrcIp : bytes;
  m_strSpip : bytes;
  m_strUserId : bytes;
  m_strPhone : bytes;
  m_strMsgContent : bytes;
  m_strUserCustid : bytes;
  m_strUserExData : bytes;
  m_strSpNumber : bytes;
  m_strSpGate : bytes;
  m_strCpno : bytes;
  m_strExno : bytes;
  m_strServiceNo : bytes;
  m_strAuthenInfo : bytes;
  m_strFileName : bytes;
  m_strSeqNo : bytes;
  m_strTplid : bytes;
  m_strMmsTitle : bytes;
  m_strMmsMsgPath : bytes;
  m_strErrorCode : bytes;
  m_strErrorCode2 : bytes;
  m_strErrorMsg : bytes;
  m_strSubmitDate : bytes;
  m_strDoneDate : bytes;
  m_strFragFolder : bytes;
}.

#[export] Instance RemainObj_eta : Eta RemainObj := λ r, mk_RemainObj
  (m_nMsgFmt r) (bitFlag_ r) (m_nPkNumber r) (m_nPkTotal r) (m_nPhoneCount r) (m_nMsgLevel r)
  (m_nEcid r) (m_nPreNodeid r) (m_nLocalNodeid r) (m_nGateId r) (m_nBatchType r) (m_nRptFlag r)
  (m_nRptFrom r) (m_nTpudhi r) (m_nTppid r) (m_nLongMsgSeq r) (m_nChargeNum r) (m_nSignPos r)
  (m_nFileSize r) (m_nMmstype r) (m_nMobileCountry r) (m_nMobileArea r) (m_nMobileCity r)
  (m_nMobileType r) (m_nFeeFlag r) (m_nChargeType r) (m_nChargeRate r) (m_nMsgSeqId r)
  (m_nDttype r) (m_nSendFlag r) (m_nPassThrough r) (m_nPtMsgId r) (m_nSuppMsgId r)
  (m_nInitMgsId r) (m_nCreateTime r) (m_nRecvTime r) (m_nRespTime r) (m_nInsertTime r)
  (m_nSubmitTime r) (m_nDoneTime r) (m_nRecvRptTime r) (m_nTranTime r) (m_nDealTime r)
  (m_nDeliverTime r) (m_nAttime r) (m_nValidtime r) (m_nMsgHashCode r) (m_nMwBatchId r)
  (m_strSpMsgId r) (m_strPtcode r) (m_strUserBatchId r) (m_strSvrType r) (m_strSignature r)
  (m_strMsgHash256 r) (m_strCustName r) (m_strAccNumber r) (m_strBankNumber r) (m_strTransSeq r)
  (m_strAccInfo r) (m_strChangeMark r) (m_strExitSign r) (m_strCustNumber r) (m_strDepartCode r)
  (m_strSignOrgcode r) (m_strReserve r) (m_strSubmitter r) (m_strReviewer r) (m_strSignStatus r)
  (m_strMsgSrcIp r) (m_strSpip r) (m_strUserId r) (m_strPhone r) (m_strMsgContent r)
  (m_strUserCustid r) (m_strUserExData r) (m_strSpNumber r) (m_strSpGate r) (m_strCpno r)
  (m_strExno r) (m_strServiceNo r) (m_strAuthenInfo r) (m_strFileName r) (m_strSeqNo r)
  (m_strTplid r) (m_strMmsTitle r) (m_strMmsMsgPath r) (m_strErrorCode r) (m_strErrorCode2 r)
  (m_strErrorMsg r) (m_strSubmitDate r) (m_strDoneDate r) (m_strFragFolder r).

(** The default constructor: numbers 0, strings empty, folder ["ccb"]. *)
Definition RemainObj_new : RemainObj := mk_RemainObj
  0 0 0 0 0 0 0 0 0 0 0 0 0 0 0 0 0 0 0 0 0 0 0 0 0 0 0 0 0 0 0 0 0 0 0 0 0 0 0 0 0 0 0 0 0 0 0
  0 [] [] [] [] [] [] [] [] [] [] [] [] [] [] [] [] [] [] [] [] [] [] [] [] [] [] [] [] [] [] []
  [] [] [] [] [] [] [] [] [] [] [] [] (lit "ccb").

(** The copy constructor and [operator=]: every member is copied. *)
Definition RemainObj_assign (self that : RemainObj) : RemainObj := self
  <| m_nMsgFmt := m_nMsgFmt that |>
  <| bitFlag_ := bitFlag_ that |>
  <| m_nPkNumber := m_nPkNumber that |>
  <| m_nPkTotal := m_nPkTotal that |>
  <| m_nPhoneCount := m_nPhoneCount that |>
  <| m_nMsgLevel := m_nMsgLevel that |>
  <| m_nEcid := m_nEcid that |>
  <| m_nPreNodeid := m_nPreNodeid that |>
  <| m_nLocalNodeid := m_nLocalNodeid that |>
  <| m_nGateId := m_nGateId that |>
  <| m_nBatchType := m_nBatchType that |>
  <| m_nRptFlag := m_nRptFlag that |>
  <| m_nRptFrom := m_nRptFrom that |>
  <| m_nTpudhi := m_nTpudhi that |>
  <| m_nTppid := m_nTppid that |>
  <| m_nLongMsgSeq := m_nLongMsgSeq that |>
  <| m_nChargeNum := m_nChargeNum that |>
  <| m_nSignPos := m_nSignPos that |>
  <| m_nFileSize := m_nFileSize that |>
  <| m_nMmstype := m_nMmstype that |>
  <| m_nMobileCountry := m_nMobileCountry that |>
  <| m_nMobileArea := m_nMobileArea that |>
  <| m_nMobileCity := m_nMobileCity that |>
  <| m_nMobileType := m_nMobileType that |>
  <| m_nFeeFlag := m_nFeeFlag that |>
  <| m_nChargeType := m_nChargeType that |>
  <| m_nChargeRate := m_nChargeRate that |>
  <| m_nMsgSeqId := m_nMsgSeqId that |>
  <| m_nDttype := m_nDttype that |>
  <| m_nSendFlag := m_nSendFlag that |>
  <| m_nPassThrough := m_nPassThrough that |>
  <| m_nPtMsgId := m_nPtMsgId that |>
  <| m_nSuppMsgId := m_nSuppMsgId that |>
  <| m_nInitMgsId := m_nInitMgsId that |>
  <| m_nCreateTime := m_nCreateTime that |>
  <| m_nRecvTime := m_nRecvTime that |>
  <| m_nRespTime := m_nRespTime that |>
  <| m_nInsertTime := m_nInsertTime that |>
  <| m_nSubmitTime := m_nSubmitTime that |>
  <| m_nDoneTime := m_nDoneTime that |>
  <| m_nRecvRptTime := m_nRecvRptTime that |>
  <| m_nTranTime := m_nTranTime that |>
  <| m_nDealTime := m_nDealTime that |>
  <| m_nDeliverTime := m_nDeliverTime that |>
  <| m_nAttime := m_nAttime that |>
  <| m_nValidtime := m_nValidtime that |>
  <| m_nMsgHashCode := m_nMsgHashCode that |>
  <| m_nMwBatchId := m_nMwBatchId that |>
  <| m_strSpMsgId := m_strSpMsgId that |>
  <| m_strPtcode := m_strPtcode that |>
  <| m_strUserBatchId := m_strUserBatchId that |>
  <| m_strSvrType := m_strSvrType that |>
  <| m_strSignature := m_strSignature that |>
  <| m_strMsgHash256 := m_strMsgHash256 that |>
  <| m_strCustName := m_strCustName that |>
  <| m_strAccNumber := m_strAccNumber that |>
  <| m_strBankNumber := m_strBankNumber that |>
  <| m_strTransSeq := m_strTransSeq that |>
  <| m_strAccInfo := m_strAccInfo that |>
  <| m_strChangeMark := m_strChangeMark that |>
  <| m_strExitSign := m_strExitSign that |>
  <| m_strCustNumber := m_strCustNumber that |>
  <| m_strDepartCode := m_strDepartCode that |>
  <| m_strSignOrgcode := m_strSignOrgcode that |>
  <| m_strReserve := m_strReserve that |>
  <| m_strSubmitter := m_strSubmitter that |>
  <| m_strReviewer := m_strReviewer that |>
  <| m_strSignStatus := m_strSignStatus that |>
  <| m_strMsgSrcIp := m_strMsgSrcIp that |>
  <| m_strSpip := m_strSpip that |>
  <| m_strUserId := m_strUserId that |>
  <| m_strPhone := m_strPhone that |>
  <| m_strMsgContent := m_strMsgContent that |>
  <| m_strUserCustid := m_strUserCustid that |>
  <| m_strUserExData := m_strUserExData that |>
  <| m_strSpNumber := m_strSpNumber that |>
  <| m_strSpGate := m_strSpGate that |>
  <| m_strCpno := m_strCpno that |>
  <| m_strExno := m_strExno that |>
  <| m_strServiceNo := m_strServiceNo that |>
  <| m_strAuthenInfo := m_strAuthenInfo that |>
  <| m_strFileName := m_strFileName that |>
  <| m_strSeqNo := m_strSeqNo that |>
  <| m_strTplid := m_strTplid that |>
  <| m_strMmsTitle := m_strMmsTitle that |>
  <| m_strMmsMsgPath := m_strMmsMsgPath that |>
  <| m_strErrorCode := m_strErrorCode that |>
  <| m_strErrorCode2 := m_strErrorCode2 that |>
  <| m_strErrorMsg := m_strErrorMsg that |>
  <| m_strSubmitDate := m_strSubmitDate that |>
  <| m_strDoneDate := m_strDoneDate that |>
  <| m_strFragFolder := m_strFragFolder that |>.

(** Type invariant: the numbers fit their C++ types. *)
Definition int_members : list (RemainObj → Z) :=
  [ m_nMsgFmt; bitFlag_; m_nPkNumber; m_nPkTotal; m_nPhoneCount; m_nMsgLevel; m_nEcid;
    m_nPreNodeid; m_nLocalNodeid; m_nGateId; m_nBatchType; m_nRptFlag; m_nRptFrom; m_nTpudhi;
    m_nTppid; m_nLongMsgSeq; m_nChargeNum; m_nSignPos; m_nFileSize; m_nMmstype;
    m_nMobileCountry; m_nMobileArea; m_nMobileCity; m_nMobileType; m_nFeeFlag; m_nChargeType;
    m_nChargeRate; m_nMsgSeqId; m_nDttype; m_nSendFlag; m_nPassThrough ].

Definition int64_members : list (RemainObj → Z) :=
  [ m_nPtMsgId; m_nSuppMsgId; m_nInitMgsId; m_nCreateTime; m_nRecvTime; m_nRespTime;
    m_nInsertTime; m_nSubmitTime; m_nDoneTime; m_nRecvRptTime; m_nTranTime; m_nDealTime;
    m_nDeliverTime; m_nAttime; m_nValidtime; m_nMsgHashCode; m_nMwBatchId ].

Definition RemainObj_typed (r : RemainObj) : Prop :=
  Forall (λ f, in_s 32 (f r)) int_members ∧ Forall (λ f, in_s 64 (f r)) int64_members.
#[export] Instance RemainObj_typed_dec r : Decision (RemainObj_typed r).
Proof. unfold RemainObj_typed. apply _. Defined.

Lemma typed_int r f : RemainObj_typed r → f ∈ int_members → in_s 32 (f r).
Proof. intros [H _]. by apply (proj1 (Forall_forall _ _) H f). Qed.

Lemma typed_int64 r f : RemainObj_typed r → f ∈ int64_members → in_s 64 (f r).
Proof. intros [_ H]. by apply (proj1 (Forall_forall _ _) H f). Qed.

(** The members written as they are (identifiers, addresses, codes, dates). *)
Definition raw_members : list (RemainObj → bytes) :=
  [ m_strPtcode; m_strMsgSrcIp; m_strSpip; m_strUserId; m_strSpNumber; m_strSpGate; m_strCpno;
    m_strExno; m_strErrorCode; m_strErrorCode2; m_strSubmitDate ].
