(* ===== verification/RemainCodec.v ===== *)
(** * The field codec of the remain objects

    [RemainObjMgr.cpp] writes one object per line: members separated by commas,
    numbers in decimal, free text in Base64, identifiers and dates as they are,
    ["\r\n"] at the end. This file gives the statements the source repeats for
    each member (the [put_] functions of the writers, the [get_] readers of the
    parsers) and the theory of lists of such statements. *)

From S2P Require Import Prelude CLib Incommon Base64 RemainObj.

Definition comma : byte := ","%byte.
Definition CRLF : bytes := ["013"%byte; "010"%byte].

(** ** Writers *)

(** [sprintf(strBuf, "%ld", v); msgDetail.append(strBuf).append(",")] *)
Definition put_ld (v : Z) : bytes := fmt_ld v ++ [comma].
(** The same with ["%d"]. *)
Definition put_d (v : Z) : bytes := fmt_ld v ++ [comma].
(** [baseResult.assign(""); Base64::Encode(v, &baseResult); append ...] *)
Definition put_b64 (v : bytes) : bytes := (Base64.Encode v []).2 ++ [comma].
(** [msgDetail.append(v).append(",")] *)
Definition put_raw (v : bytes) : bytes := v ++ [comma].
(** [msgDetail.append(v).append("\r\n")] *)
Definition put_last (v : bytes) : bytes := v ++ CRLF.

(** ** Readers

    A reader works on [pBuf] and the object under construction; [inl] is the
    [return] of an error code. *)

Definition reader : Type := bytes * RemainObj → Z + (bytes * RemainObj).

Fixpoint in_order (l : list reader) : reader := λ st,
  match l with
  | [] => inr st
  | r :: l' => match r st with inl e => inl e | inr st' => in_order l' st' end
  end.

(** [pComma = strFristConstChar(pBuf, ','); if (!pComma) return err; ...;
    pBuf = pComma + 1] around the conversion [conv pBuf pComma]. *)
Definition get_field (err : Z) (conv : bytes → bytes → RemainObj → RemainObj) : reader :=
  λ '(pBuf, reObj),
    match strFristConstChar (Some pBuf) comma with
    | None => inl err
    | Some pComma => inr (tail pComma, conv pBuf pComma reObj)
    end.

(** [tmpString.assign(pBuf, pComma - pBuf)] *)
Definition upto (pBuf pComma : bytes) : bytes := take (length pBuf - length pComma) pBuf.

Definition get_ul (err : Z) (f : RemainObj → Z) `{!Setter f} : reader :=
  get_field err (λ pBuf _ o, o <| f := s64 (strtoul pBuf) |>).
Definition get_int (err : Z) (f : RemainObj → Z) `{!Setter f} : reader :=
  get_field err (λ pBuf _ o, o <| f := atoi pBuf |>).
Definition get_b64 (err : Z) (f : RemainObj → bytes) `{!Setter f} : reader :=
  get_field err (λ pBuf pComma o, o <| f := (Base64.Decode (upto pBuf pComma) []).2 |>).
Definition get_raw (err : Z) (f : RemainObj → bytes) `{!Setter f} : reader :=
  get_field err (λ pBuf pComma o, o <| f := upto pBuf pComma |>).

(** [if (reObj->bitFlag_ != flag) return err] *)
Definition check_bitFlag (err flag : Z) : reader := λ '(pBuf, reObj),
  if decide (bitFlag_ reObj = flag) then inr (pBuf, reObj) else inl err.

(** The last member: up to ["\r\n"], or up to the end of the C string. *)
Definition get_last (f : RemainObj → bytes) `{!Setter f} : reader := λ '(pBuf, reObj),
  let bufLen :=
    match strFirstConstStr (Some pBuf) CRLF with
    | Some pLine => (length pBuf - length pLine)%nat
    | None => strIntLen (Some pBuf)
    end in
  inr (pBuf, reObj <| f := take bufLen pBuf |>).

(** A parse from a fresh object: [objVect.push_back(reObj); return 0]. *)
Definition push_parsed (r : reader) (pBuf : bytes) (objVect : list RemainObj) :
    Z * list RemainObj :=
  match r (pBuf, RemainObj_new) with
  | inl err => (err, objVect)
  | inr (_, reObj) => (0, objVect ++ [reObj])
  end.

(** ** Schemas: the members of a line, with how each is written and read *)

Inductive fld : Type :=
  | FUl (err : Z) (f : RemainObj → Z) `{!Setter f}
  | FInt (err : Z) (f : RemainObj → Z) `{!Setter f}
  | FB64 (err : Z) (f : RemainObj → bytes) `{!Setter f}
  | FRaw (err : Z) (f : RemainObj → bytes) `{!Setter f}
  | FFlag (err flag : Z).

Definition write_fld (o : RemainObj) (d : fld) : bytes :=
  match d with
  | FUl _ f => put_ld (f o)
  | FInt _ f => put_d (f o)
  | FB64 _ f => put_b64 (f o)
  | FRaw _ f => put_raw (f o)
  | FFlag _ _ => []
  end.

Definition read_fld (d : fld) : reader :=
  match d with
  | FUl err f => get_ul err f
  | FInt err f => get_int err f
  | FB64 err f => get_b64 err f
  | FRaw err f => get_raw err f
  | FFlag err flag => check_bitFlag err flag
  end.

(** [acc] with the member of [d] copied from [o]. *)
Definition copy_fld (o acc : RemainObj) (d : fld) : RemainObj :=
  match d with
  | FUl _ f => acc <| f := f o |>
  | FInt _ f => acc <| f := f o |>
  | FB64 _ f => acc <| f := f o |>
  | FRaw _ f => acc <| f := f o |>
  | FFlag _ _ => acc
  end.

Definition writes (l : list fld) (o : RemainObj) : bytes := concat (map (write_fld o) l).
Definition reads (l : list fld) : reader := in_order (map read_fld l).
Definition copies (l : list fld) (o acc : RemainObj) : RemainObj := fold_left (copy_fld o) l acc.

(** What a member must satisfy to be read back: its number fits, its raw text
    holds neither separator nor NUL, and the flag is the expected one by the
    time it is tested. *)
Definition plain (s : bytes) : Prop := (comma ∉ s) ∧ no_nul s.
#[export] Instance plain_dec s : Decision (plain s).
Proof. unfold plain. apply _. Defined.

Definition fld_ok (o acc : RemainObj) (d : fld) : Prop :=
  match d with
  | FUl _ f => in_s 64 (f o)
  | FInt _ f => in_s 32 (f o)
  | FB64 _ _ => True
  | FRaw _ f => plain (f o)
  | FFlag _ flag => bitFlag_ acc = flag
  end.

Fixpoint flds_ok (o acc : RemainObj) (l : list fld) : Prop :=
  match l with
  | [] => True
  | d :: l' => fld_ok o acc d ∧ flds_ok o (copy_fld o acc d) l'
  end.

(** An object that survives the text form: numbers that fit their types, the
    expected flag, and raw members free of separators. *)
Definition raw_ok (s : bytes) : Prop := plain s ∧ ("013"%byte ∉ s).
#[export] Instance raw_ok_dec s : Decision (raw_ok s).
Proof. unfold raw_ok. apply _. Defined.

Definition readable (flag : Z) (o : RemainObj) : Prop :=
  RemainObj_typed o ∧ bitFlag_ o = flag ∧ Forall (λ f, raw_ok (f o)) raw_members ∧
  raw_ok (m_strDoneDate o).
#[export] Instance readable_dec flag o : Decision (readable flag o).
Proof. unfold readable. apply _. Defined.

(** ** Theory *)

Lemma app_assoc_schema (l1 l2 l3 : list bytes) (s : bytes) l :
  concat (l1 ++ l2 ++ l3) = concat (l ++ [s]) →
  concat l1 ++ concat l2 ++ concat l3 = concat l ++ s.
Proof. rewrite !concat_app. cbn. by rewrite app_nil_r. Qed.

Lemma in_order_app l1 l2 st :
  in_order (l1 ++ l2) st =
    match in_order l1 st with inl e => inl e | inr st' => in_order l2 st' end.
Proof.
  revert st. induction l1 as [|r l1 IH]; intros st; cbn; [done|].
  destruct (r st); [done|]. apply IH.
Qed.

Lemma in_order_concat ls st : in_order (map in_order ls) st = in_order (concat ls) st.
Proof.
  revert st. induction ls as [|l ls IH]; intros st; cbn; [done|].
  rewrite in_order_app. destruct (in_order l st); [done|]. apply IH.
Qed.

Lemma upto_app a k : upto (a ++ k) k = a.
Proof. unfold upto. rewrite length_app, Nat.add_sub. apply take_app_length. Qed.

Lemma no_digit_comma k : no_digit_head (comma :: k).
Proof. intros b [= <-]. done. Qed.

Lemma get_field_app err conv a k acc :
  plain a →
  get_field err conv (a ++ comma :: k, acc) = inr (k, conv (a ++ comma :: k) (comma :: k) acc).
Proof.
  intros [Hc Hn]. unfold get_field. by rewrite strFristConstChar_app.
Qed.

Lemma plain_fmt z : plain (fmt_ld z).
Proof.
  split; intros [H|H]%fmt_ld_chars; done.
Qed.

Lemma plain_encode v : plain (Base64.Encode v []).2.
Proof.
  destruct v as [|x v]; [split; apply not_elem_of_nil|].
  split; apply Base64.Encode_loop_not_in; tauto.
Qed.

Lemma decode_encode_empty v : (Base64.Decode (Base64.Encode v []).2 []).2 = v.
Proof.
  destruct v as [|x v]; [done|]. cbn [Base64.Encode snd]. unfold Base64.Decode.
  pose proof (Base64.Decode_Encode_loop (x :: v) 0 0 [] eq_refl) as H.
  destruct (Base64.Encode_loop (x :: v)) as [|y l]; [by inversion H|]. by rewrite H.
Qed.

#[export] Hint Resolve plain_fmt plain_encode no_digit_comma : cframe.

Lemma read_write_fld o acc d k :
  fld_ok o acc d → read_fld d (write_fld o d ++ k, acc) = inr (k, copy_fld o acc d).
Proof.
  destruct d as [err f ?|err f ?|err f ?|err f ?|err flag]; cbn [fld_ok read_fld write_fld copy_fld];
    intros Hok; unfold get_ul, get_int, get_b64, get_raw, put_ld, put_d, put_b64, put_raw;
    rewrite <- ?app_assoc; cbn [app].
  - rewrite get_field_app by auto with cframe. by rewrite strtoul_fmt by auto with cframe.
  - rewrite get_field_app by auto with cframe. by rewrite atoi_fmt by auto with cframe.
  - rewrite get_field_app by auto with cframe. by rewrite upto_app, decode_encode_empty.
  - rewrite get_field_app by done. by rewrite upto_app.
  - unfold check_bitFlag. by rewrite decide_True.
Qed.

Lemma reads_writes l o acc k :
  flds_ok o acc l → reads l (writes l o ++ k, acc) = inr (k, copies l o acc).
Proof.
  revert acc. induction l as [|d l IH]; intros acc; [done|].
  intros [Hd Hl]. unfold reads, writes in *. cbn [map concat in_order].
  rewrite <- app_assoc, read_write_fld by done. by rewrite IH.
Qed.

(** The last member, in a line from which the ["\r\n"] was cut. *)
Lemma get_last_line v acc f `{!Setter f} :
  no_nul v → "013"%byte ∉ v → get_last f (v, acc) = inr (v, acc <| f := v |>).
Proof.
  intros Hn Hc. unfold get_last. unfold CRLF.
  rewrite strFirstConstStr_absent by (done || decide_now).
  by rewrite strIntLen_no_nul, firstn_all.
Qed.

(** Looking up a member in a concrete list of members. *)
Ltac in_members := repeat (apply list_elem_of_here || apply list_elem_of_further).

Lemma readable_int flag o f : readable flag o → f ∈ int_members → in_s 32 (f o).
Proof. intros [? _]. by apply typed_int. Qed.
Lemma readable_int64 flag o f : readable flag o → f ∈ int64_members → in_s 64 (f o).
Proof. intros [? _]. by apply typed_int64. Qed.
Lemma readable_raw flag o f : readable flag o → f ∈ raw_members → plain (f o).
Proof. intros (_ & _ & H & _) Hf. by apply (proj1 (Forall_forall _ _) H f). Qed.

(** The side conditions of a concrete schema. *)
Ltac schema_side H :=
  cbn -[in_s]; repeat split;
  first [ exact I
        | exact (proj1 (proj2 H))
        | eapply readable_int; [exact H|in_members]
        | eapply readable_int64; [exact H|in_members]
        | eapply readable_raw; [exact H|in_members] ].

(** ** The interface of a line format

    What the file level needs from a writer and a parser of one kind of object:
    the parser only appends to the vector, rejects with a negative code, and
    reads back a written line (except for the folder, which is not written). *)

Class LineFormat (flag : Z) (to_string : RemainObj → bytes)
    (of_string : bytes → list RemainObj → Z * list RemainObj) : Prop := {
  of_string_cases l :
    (∃ o, ∀ objs, of_string l objs = (0, objs ++ [o])) ∨
    (∃ err, err < 0 ∧ ∀ objs, of_string l objs = (err, objs));
  of_to_string o : readable flag o → ∃ l,
    to_string o = l ++ CRLF ∧ no_nul l ∧ ("013"%byte ∉ l) ∧
    ∀ objs, of_string l objs = (0, objs ++ [o <| m_strFragFolder := lit "ccb" |>]);
}.

(** The error codes a schema can return. *)
Definition fld_err (d : fld) : Z :=
  match d with FUl e _ | FInt e _ | FB64 e _ | FRaw e _ | FFlag e _ => e end.

Lemma read_fld_err d st e : read_fld d st = inl e → e = fld_err d.
Proof.
  destruct st as [p o].
  destruct d; cbn; unfold get_field, check_bitFlag; case_match; congruence.
Qed.

Lemma reads_err l k f `{!Setter f} st e :
  in_order (map read_fld l ++ [get_last f]) st = inl e → e ∈ map fld_err l ∨ k = e.
Proof.
  revert st. induction l as [|d l IH]; intros st; cbn [map app in_order].
  - destruct st. done.
  - destruct (read_fld d st) as [e'|st'] eqn:E.
    + intros [= <-]. left. apply read_fld_err in E as ->. apply list_elem_of_here.
    + intros [H|H]%IH; [left|by right]. by apply list_elem_of_further.
Qed.

(** Characters of a written line. *)
Lemma write_fld_chars o d b :
  (b = NUL ∨ b = "013"%byte) →
  match d with FRaw _ f => b ∉ f o | _ => True end → b ∉ write_fld o d.
Proof.
  intros Hb Hd. assert (Hc : b ≠ comma) by (destruct Hb; by subst).
  assert (Hf : ∀ z, b ∉ fmt_ld z) by (intros z [H|H]%fmt_ld_chars; destruct Hb; by subst).
  assert (He : ∀ v, b ∉ (Base64.Encode v []).2).
  { intros [|x v]; [apply not_elem_of_nil|]. apply Base64.Encode_loop_not_in.
    destruct Hb; tauto. }
  destruct d; cbn; unfold put_ld, put_d, put_b64, put_raw;
    rewrite ?not_elem_of_app, ?list_elem_of_singleton; auto using not_elem_of_nil.
Qed.

Definition raw_field (o : RemainObj) (d : fld) : Prop :=
  match d with FRaw _ f => raw_ok (f o) | _ => True end.

Lemma writes_chars o l b :
  (b = NUL ∨ b = "013"%byte) → Forall (raw_field o) l → b ∉ writes l o.
Proof.
  intros Hb Hl. unfold writes. induction Hl as [|d l Hd Hl IH]; cbn.
  - apply not_elem_of_nil.
  - apply not_elem_of_app. split; [|done]. apply write_fld_chars; [done|].
    destruct d as [| | |err f ?|]; try exact I. destruct Hd as [[_ Hn] Hr].
    destruct Hb as [->| ->]; done.
Qed.

Lemma readable_raw_field flag o f : readable flag o → f ∈ raw_members → raw_ok (f o).
Proof. intros (_ & _ & H & _) Hf. by apply (proj1 (Forall_forall _ _) H f). Qed.

(** Every schema gives a line format. *)
Lemma schema_format flag to_string parse schema :
  (∀ o, to_string o = writes schema o ++ put_last (m_strDoneDate o)) →
  (∀ st, in_order parse st = in_order (map read_fld schema ++ [get_last m_strDoneDate]) st) →
  (∀ o, readable flag o → flds_ok o RemainObj_new schema) →
  (∀ o, readable flag o → Forall (raw_field o) schema) →
  (∀ o, (copies schema o RemainObj_new) <| m_strDoneDate := m_strDoneDate o |> =
        o <| m_strFragFolder := lit "ccb" |>) →
  Forall (λ e, e < 0) (map fld_err schema) →
  LineFormat flag to_string (push_parsed (in_order parse)).
Proof.
  intros Hto Hof Hok Hraw Hcopy Herr. split.
  - intros l. unfold push_parsed. rewrite Hof.
    destruct (in_order _ _) as [e|[? o]] eqn:E; [right|left; eauto].
    exists e. split; [|done].
    apply (reads_err _ (-1)) in E as [He| <-]; [|done].
    by apply (proj1 (Forall_forall _ _) Herr e).
  - intros o Ho. pose proof Ho as (_ & _ & _ & Hlast).
    pose proof Hlast as [[_ Hn] Hr].
    exists (writes schema o ++ m_strDoneDate o). split_and!.
    + rewrite Hto. unfold put_last. by rewrite app_assoc.
    + apply no_nul_app. split; [apply writes_chars; auto|done].
    + rewrite not_elem_of_app. split; [apply writes_chars; auto|done].
    + intros objs. unfold push_parsed.
      rewrite Hof, in_order_app. fold (reads schema).
      rewrite reads_writes by auto. cbn [in_order].
      rewrite get_last_line by done. by rewrite Hcopy.
Qed.

(** A text whose flag is not the expected one is refused at the flag. *)
Lemma reads_wrong_flag o acc pre err flag post rest k :
  flds_ok o acc pre → bitFlag_ (copies pre o acc) ≠ flag →
  in_order (map read_fld (pre ++ FFlag err flag :: post) ++ rest) (writes pre o ++ k, acc) =
  inl err.
Proof.
  intros Hok Hf. rewrite map_app, <- app_assoc, in_order_app. fold (reads pre).
  rewrite reads_writes by done. cbn. by rewrite decide_False.
Qed.

Lemma flds_ok_app o acc l1 l2 : flds_ok o acc (l1 ++ l2) → flds_ok o acc l1.
Proof.
  revert acc. induction l1 as [|d l1 IH]; intros acc; cbn; [done|].
  intros [? ?]. split; eauto.
Qed.

Lemma writes_app l1 l2 o : writes (l1 ++ l2) o = writes l1 o ++ writes l2 o.
Proof. unfold writes. by rewrite map_app, concat_app. Qed.

(** The members in front of the flag, in every format. *)
Definition head_flds : list fld :=
  [ FUl (-1422) m_nPtMsgId; FUl (-1422) m_nSuppMsgId; FUl (-1422) m_nInitMgsId;
    FInt (-1424) m_nMsgFmt; FInt (-1424) bitFlag_ ].
