(* ===== verification/RemainMt.v ===== *)
(** * Text form of a downstream message ([src/remainFile/src/RemainObjMgr.cpp])

    [transMtToString] and [transStringToMt], in pieces that follow the source from top to
    bottom; each piece lists the members in the order the source handles them. *)

From S2P Require Import Prelude CLib Incommon Base64 RemainObj RemainCodec.

Module Mt.

Definition transMtToString_1 (obj : RemainObj) : bytes :=
  concat
    [ put_ld (m_nPtMsgId obj);
      put_ld (m_nSuppMsgId obj);
      put_ld (m_nInitMgsId obj);
      put_d (m_nMsgFmt obj);
      put_d (bitFlag_ obj);
      put_d (m_nPkNumber obj);
      put_d (m_nPkTotal obj);
      put_d (m_nPhoneCount obj);
      put_d (m_nMsgLevel obj);
      put_d (m_nEcid obj);
      put_d (m_nPreNodeid obj);
      put_d (m_nLocalNodeid obj);
      put_d (m_nGateId obj);
      put_d (m_nBatchType obj);
      put_d (m_nRptFlag obj);
      put_d (m_nRptFrom obj);
      put_d (m_nTpudhi obj);
      put_d (m_nTppid obj);
      put_d (m_nLongMsgSeq obj);
      put_d (m_nChargeNum obj);
      put_d (m_nSignPos obj);
      put_d (m_nFileSize obj);
      put_d (m_nMmstype obj);
      put_d (m_nMobileCountry obj);
      put_d (m_nMobileArea obj);
      put_d (m_nMobileCity obj);
      put_d (m_nMobileType obj);
      put_d (m_nFeeFlag obj);
      put_d (m_nChargeType obj);
      put_d (m_nChargeRate obj);
      put_d (m_nMsgSeqId obj);
      put_d (m_nDttype obj);
      put_d (m_nSendFlag obj);
      put_d (m_nPassThrough obj);
      put_ld (m_nCreateTime obj) ].

Definition transMtToString_2 (obj : RemainObj) : bytes :=
  concat
    [ put_ld (m_nRecvTime obj);
      put_ld (m_nRespTime obj);
      put_ld (m_nInsertTime obj);
      put_ld (m_nSubmitTime obj);
      put_ld (m_nDoneTime obj);
      put_ld (m_nRecvRptTime obj);
      put_ld (m_nTranTime obj);
      put_ld (m_nDealTime obj);
      put_ld (m_nDeliverTime obj);
      put_ld (m_nAttime obj);
      put_ld (m_nValidtime obj);
      put_ld (m_nMsgHashCode obj);
      put_ld (m_nMwBatchId obj);
      put_b64 (m_strSpMsgId obj);
      put_raw (m_strPtcode obj);
      put_b64 (m_strUserBatchId obj);
      put_b64 (m_strSvrType obj);
      put_b64 (m_strSignature obj);
      put_b64 (m_strMsgHash256 obj);
      put_b64 (m_strCustName obj);
      put_b64 (m_strAccNumber obj);
      put_b64 (m_strBankNumber obj);
      put_b64 (m_strTransSeq obj);
      put_b64 (m_strAccInfo obj);
      put_b64 (m_strChangeMark obj);
      put_b64 (m_strExitSign obj);
      put_b64 (m_strCustNumber obj);
      put_b64 (m_strDepartCode obj);
      put_b64 (m_strSignOrgcode obj);
      put_b64 (m_strReserve obj);
      put_b64 (m_strSubmitter obj);
      put_b64 (m_strReviewer obj);
      put_b64 (m_strSignStatus obj);
      put_raw (m_strMsgSrcIp obj);
      put_raw (m_strSpip obj);
      put_raw (m_strUserId obj);
      put_b64 (m_strPhone obj);
      put_b64 (m_strMsgContent obj);
      put_b64 (m_strUserCustid obj) ].

Definition transMtToString_3 (obj : RemainObj) : bytes :=
  concat
    [ put_b64 (m_strUserExData obj);
      put_raw (m_strSpNumber obj);
      put_raw (m_strSpGate obj);
      put_raw (m_strCpno obj);
      put_raw (m_strExno obj);
      put_b64 (m_strServiceNo obj);
      put_b64 (m_strAuthenInfo obj);
      put_b64 (m_strFileName obj);
      put_b64 (m_strSeqNo obj);
      put_b64 (m_strTplid obj);
      put_b64 (m_strMmsTitle obj);
      put_b64 (m_strMmsMsgPath obj);
      put_raw (m_strErrorCode obj);
      put_raw (m_strErrorCode2 obj);
      put_b64 (m_strErrorMsg obj);
      put_raw (m_strSubmitDate obj);
      put_last (m_strDoneDate obj) ].

Definition transMtToString (obj : RemainObj) : bytes :=
  transMtToString_1 obj ++ transMtToString_2 obj ++ transMtToString_3 obj.

Definition transStringToMt_1 : reader :=
  in_order
    [ get_ul (-1422) m_nPtMsgId;
      get_ul (-1422) m_nSuppMsgId;
      get_ul (-1422) m_nInitMgsId;
      get_int (-1424) m_nMsgFmt;
      get_int (-1424) bitFlag_;
      check_bitFlag (-1426) REMAIN_OBJMGR_MT_FLAG;
      get_int (-1424) m_nPkNumber;
      get_int (-1424) m_nPkTotal;
      get_int (-1424) m_nPhoneCount;
      get_int (-1424) m_nMsgLevel;
      get_int (-1424) m_nEcid;
      get_int (-1424) m_nPreNodeid;
      get_int (-1424) m_nLocalNodeid;
      get_int (-1424) m_nGateId;
      get_int (-1424) m_nBatchType;
      get_int (-1424) m_nRptFlag;
      get_int (-1424) m_nRptFrom ].

Definition transStringToMt_2 : reader :=
  in_order
    [ get_int (-1424) m_nTpudhi;
      get_int (-1424) m_nTppid;
      get_int (-1424) m_nLongMsgSeq;
      get_int (-1424) m_nChargeNum;
      get_int (-1424) m_nSignPos;
      get_int (-1424) m_nFileSize;
      get_int (-1424) m_nMmstype;
      get_int (-1424) m_nMobileCountry;
      get_int (-1424) m_nMobileArea;
      get_int (-1424) m_nMobileCity;
      get_int (-1424) m_nMobileType;
      get_int (-1424) m_nFeeFlag;
      get_int (-1424) m_nChargeType;
      get_int (-1424) m_nChargeRate;
      get_int (-1424) m_nMsgSeqId;
      get_int (-1424) m_nDttype;
      get_int (-1424) m_nSendFlag;
      get_int (-1424) m_nPassThrough ].

Definition transStringToMt_3 : reader :=
  in_order
    [ get_ul (-1422) m_nCreateTime;
      get_ul (-1422) m_nRecvTime;
      get_ul (-1422) m_nRespTime;
      get_ul (-1422) m_nInsertTime;
      get_ul (-1422) m_nSubmitTime;
      get_ul (-1422) m_nDoneTime;
      get_ul (-1422) m_nRecvRptTime;
      get_ul (-1422) m_nTranTime;
      get_ul (-1422) m_nDealTime;
      get_ul (-1422) m_nDeliverTime;
      get_ul (-1422) m_nAttime;
      get_ul (-1422) m_nValidtime;
      get_ul (-1422) m_nMsgHashCode;
      get_ul (-1424) m_nMwBatchId;
      get_b64 (-1422) m_strSpMsgId;
      get_raw (-1422) m_strPtcode;
      get_b64 (-1422) m_strUserBatchId ].

Definition transStringToMt_4 : reader :=
  in_order
    [ get_b64 (-1422) m_strSvrType;
      get_b64 (-1422) m_strSignature;
      get_b64 (-1422) m_strMsgHash256;
      get_b64 (-1422) m_strCustName;
      get_b64 (-1422) m_strAccNumber;
      get_b64 (-1422) m_strBankNumber;
      get_b64 (-1422) m_strTransSeq;
      get_b64 (-1422) m_strAccInfo;
      get_b64 (-1422) m_strChangeMark;
      get_b64 (-1422) m_strExitSign;
      get_b64 (-1422) m_strCustNumber;
      get_b64 (-1422) m_strDepartCode ].

Definition transStringToMt_5 : reader :=
  in_order
    [ get_b64 (-1422) m_strSignOrgcode;
      get_b64 (-1422) m_strReserve;
      get_b64 (-1422) m_strSubmitter;
      get_b64 (-1422) m_strReviewer;
      get_b64 (-1422) m_strSignStatus;
      get_raw (-1422) m_strMsgSrcIp;
      get_raw (-1422) m_strSpip;
      get_raw (-1422) m_strUserId;
      get_b64 (-1422) m_strPhone;
      get_b64 (-1422) m_strMsgContent;
      get_b64 (-1422) m_strUserCustid;
      get_b64 (-1422) m_strUserExData;
      get_raw (-1422) m_strSpNumber ].

Definition transStringToMt_6 : reader :=
  in_order
    [ get_raw (-1422) m_strSpGate;
      get_raw (-1422) m_strCpno;
      get_raw (-1422) m_strExno;
      get_b64 (-1422) m_strServiceNo;
      get_b64 (-1422) m_strAuthenInfo;
      get_b64 (-1422) m_strFileName;
      get_b64 (-1422) m_strSeqNo;
      get_b64 (-1422) m_strTplid;
      get_b64 (-1422) m_strMmsTitle;
      get_b64 (-1422) m_strMmsMsgPath;
      get_raw (-1422) m_strErrorCode;
      get_raw (-1422) m_strErrorCode2;
      get_b64 (-1422) m_strErrorMsg ].

Definition transStringToMt_7 : reader :=
  in_order
    [ get_raw (-1422) m_strSubmitDate;
      get_last m_strDoneDate ].

Definition transStringToMt (pBuf : bytes) (objVect : list RemainObj) : Z * list RemainObj :=
  push_parsed (in_order [transStringToMt_1; transStringToMt_2; transStringToMt_3; transStringToMt_4; transStringToMt_5; transStringToMt_6; transStringToMt_7]) pBuf objVect.

(** The order of the members in the text, with the error of each. *)
Definition schema : list fld :=
  [ FUl (-1422) m_nPtMsgId;
    FUl (-1422) m_nSuppMsgId;
    FUl (-1422) m_nInitMgsId;
    FInt (-1424) m_nMsgFmt;
    FInt (-1424) bitFlag_;
    FFlag (-1426) REMAIN_OBJMGR_MT_FLAG;
    FInt (-1424) m_nPkNumber;
    FInt (-1424) m_nPkTotal;
    FInt (-1424) m_nPhoneCount;
    FInt (-1424) m_nMsgLevel;
    FInt (-1424) m_nEcid;
    FInt (-1424) m_nPreNodeid;
    FInt (-1424) m_nLocalNodeid;
    FInt (-1424) m_nGateId;
    FInt (-1424) m_nBatchType;
    FInt (-1424) m_nRptFlag;
    FInt (-1424) m_nRptFrom;
    FInt (-1424) m_nTpudhi;
    FInt (-1424) m_nTppid;
    FInt (-1424) m_nLongMsgSeq;
    FInt (-1424) m_nChargeNum;
    FInt (-1424) m_nSignPos;
    FInt (-1424) m_nFileSize;
    FInt (-1424) m_nMmstype;
    FInt (-1424) m_nMobileCountry;
    FInt (-1424) m_nMobileArea;
    FInt (-1424) m_nMobileCity;
    FInt (-1424) m_nMobileType;
    FInt (-1424) m_nFeeFlag;
    FInt (-1424) m_nChargeType;
    FInt (-1424) m_nChargeRate;
    FInt (-1424) m_nMsgSeqId;
    FInt (-1424) m_nDttype;
    FInt (-1424) m_nSendFlag;
    FInt (-1424) m_nPassThrough;
    FUl (-1422) m_nCreateTime;
    FUl (-1422) m_nRecvTime;
    FUl (-1422) m_nRespTime;
    FUl (-1422) m_nInsertTime;
    FUl (-1422) m_nSubmitTime;
    FUl (-1422) m_nDoneTime;
    FUl (-1422) m_nRecvRptTime;
    FUl (-1422) m_nTranTime;
    FUl (-1422) m_nDealTime;
    FUl (-1422) m_nDeliverTime;
    FUl (-1422) m_nAttime;
    FUl (-1422) m_nValidtime;
    FUl (-1422) m_nMsgHashCode;
    FUl (-1424) m_nMwBatchId;
    FB64 (-1422) m_strSpMsgId;
    FRaw (-1422) m_strPtcode;
    FB64 (-1422) m_strUserBatchId;
    FB64 (-1422) m_strSvrType;
    FB64 (-1422) m_strSignature;
    FB64 (-1422) m_strMsgHash256;
    FB64 (-1422) m_strCustName;
    FB64 (-1422) m_strAccNumber;
    FB64 (-1422) m_strBankNumber;
    FB64 (-1422) m_strTransSeq;
    FB64 (-1422) m_strAccInfo;
    FB64 (-1422) m_strChangeMark;
    FB64 (-1422) m_strExitSign;
    FB64 (-1422) m_strCustNumber;
    FB64 (-1422) m_strDepartCode;
    FB64 (-1422) m_strSignOrgcode;
    FB64 (-1422) m_strReserve;
    FB64 (-1422) m_strSubmitter;
    FB64 (-1422) m_strReviewer;
    FB64 (-1422) m_strSignStatus;
    FRaw (-1422) m_strMsgSrcIp;
    FRaw (-1422) m_strSpip;
    FRaw (-1422) m_strUserId;
    FB64 (-1422) m_strPhone;
    FB64 (-1422) m_strMsgContent;
    FB64 (-1422) m_strUserCustid;
    FB64 (-1422) m_strUserExData;
    FRaw (-1422) m_strSpNumber;
    FRaw (-1422) m_strSpGate;
    FRaw (-1422) m_strCpno;
    FRaw (-1422) m_strExno;
    FB64 (-1422) m_strServiceNo;
    FB64 (-1422) m_strAuthenInfo;
    FB64 (-1422) m_strFileName;
    FB64 (-1422) m_strSeqNo;
    FB64 (-1422) m_strTplid;
    FB64 (-1422) m_strMmsTitle;
    FB64 (-1422) m_strMmsMsgPath;
    FRaw (-1422) m_strErrorCode;
    FRaw (-1422) m_strErrorCode2;
    FB64 (-1422) m_strErrorMsg;
    FRaw (-1422) m_strSubmitDate ].

(** The writer and the reader, written out above from their own lines, follow
    the same schema. *)
Lemma transMtToString_schema obj :
  transMtToString obj = writes schema obj ++ put_last (m_strDoneDate obj).
Proof. apply app_assoc_schema. reflexivity. Qed.

Lemma transStringToMt_schema st :
  in_order [transStringToMt_1; transStringToMt_2; transStringToMt_3; transStringToMt_4; transStringToMt_5; transStringToMt_6; transStringToMt_7] st = in_order (map read_fld schema ++ [get_last m_strDoneDate]) st.
Proof. exact (in_order_concat [_; _; _; _; _; _; _] st). Qed.

Lemma Mt_copied_schema o :
  (copies schema o RemainObj_new) <| m_strDoneDate := m_strDoneDate o |> =
  o <| m_strFragFolder := lit "ccb" |>.
Proof. by destruct o. Qed.

(** A readable object satisfies the side conditions of the schema. *)
Lemma Mt_schema_ok o : readable REMAIN_OBJMGR_MT_FLAG o → flds_ok o RemainObj_new schema.
Proof. intros Ho. schema_side Ho. Qed.

Lemma Mt_schema_raw o : readable REMAIN_OBJMGR_MT_FLAG o → Forall (raw_field o) schema.
Proof.
  intros Ho. repeat constructor; cbn; try exact I;
    (eapply readable_raw_field; [exact Ho|in_members]).
Qed.

(** The line of an object of another kind is refused with -1426. *)
Lemma Mt_refuses_other flag o l objs post :
  readable flag o → flag ≠ REMAIN_OBJMGR_MT_FLAG →
  l = writes head_flds o ++ post → transStringToMt l objs = (-1426, objs).
Proof.
  intros Ho Hf ->. unfold transStringToMt, push_parsed.
  rewrite transStringToMt_schema.
  change schema with (head_flds ++ FFlag (-1426) REMAIN_OBJMGR_MT_FLAG :: drop 6 schema).
  rewrite reads_wrong_flag; [done| |].
  - schema_side Ho.
  - change (bitFlag_ o ≠ REMAIN_OBJMGR_MT_FLAG). by destruct Ho as (_ & -> & _).
Qed.

#[export] Instance Mt_format : LineFormat REMAIN_OBJMGR_MT_FLAG transMtToString transStringToMt.
Proof.
  apply (schema_format _ _ _ schema);
    auto using transMtToString_schema, transStringToMt_schema, Mt_schema_ok, Mt_schema_raw, Mt_copied_schema.
  decide_now.
Qed.

End Mt.
