(* ===== verification/RemainObjMgr.v ===== *)
(** * The remain object manager ([src/remainFile/src/RemainObjMgr.cpp])

    [RemainObjMgr] turns objects into lines and hands them to [RemainMgr], which
    owns the files; on the way back it splits what a file held into lines,
    parses them, and sends a line it cannot parse to the backup file. The file
    level is reached through the interface [RemainMgrOps]. *)

From S2P Require Import Prelude CLib Incommon Base64 RemainObj RemainCodec RemainRe RemainMo RemainMt.
Import Re Mo Mt.

(** What the manager calls on [RemainMgr::instance()] ([RemainMgr.h]); the state
    of that object and of the files is [W]. *)
Class RemainMgrOps (W : Type) := {
  remainMgrInit : Z → Z → Z → bytes → bytes → St W Z;
  remainMgrExit : St W ();
  writeRemainFile : Z → bytes → bytes → St W Z;
  writeRemainFileBak : Z → bytes → bytes → St W Z;
  readRemainFile : Z → bytes → St W (Z * bytes);
  remainMgrStatistics : Z → bytes → St W (Z * (Z * Z));
  remainMgrCheck : Z → St W ();
  remainMgrGenFreq : Z → St W ();
  remainMgrMaxFileSize : Z → St W ();
}.

(** The data members of [RemainObjMgr]. *)
Record RemainObjMgr := mk_RemainObjMgr {
  isExit_ : Z;
  isInit_ : Z;
  gateNo_ : Z;
  maxCount_ : Z;
  outSecond_ : Z;
  sharePath_ : bytes;
  localPath_ : bytes;
}.
#[export] Instance RemainObjMgr_eta : Eta RemainObjMgr := λ r,
  mk_RemainObjMgr (isExit_ r) (isInit_ r) (gateNo_ r) (maxCount_ r) (outSecond_ r)
    (sharePath_ r) (localPath_ r).

Definition RemainObjMgr_new : RemainObjMgr := mk_RemainObjMgr 0 0 0 0 0 [] [].

Section manager.
Context {W : Type} `{!RemainMgrOps W}.

Definition remainObjMgrExit (self : RemainObjMgr) : St W RemainObjMgr :=
  let self := self <| isExit_ := 1 |> in
  _ ← remainMgrExit;
  mret self.

(** [link] is the target of ["/proc/self/exe"]. *)
Definition remainObjMgrInit (link : option bytes) (self : RemainObjMgr)
    (gateNo maxCount outSeconds : Z) (sharePath localPath : bytes) :
    St W (Z * RemainObjMgr) :=
  let self := self <| gateNo_ := s32 gateNo |> <| maxCount_ := maxCount |>
                   <| outSecond_ := outSeconds |> <| sharePath_ := sharePath |>
                   <| localPath_ := match localPath with [] => locakExePath link | _ => localPath end |> in
  _ ← remainMgrInit gateNo maxCount outSeconds sharePath localPath;
  mret (0, self <| isInit_ := 1 |>).

(** The [switch (obj->bitFlag_)] of the write operations: the line, or the code
    of the failure; [e] are the codes of the four cases. *)
Definition render (e_re e_mo e_mt e_default : Z) (obj : RemainObj) : Z + bytes :=
  let checked err msg := match msg with [] => inl err | _ => inr msg end in
  if decide (bitFlag_ obj = REMAIN_OBJMGR_RE_FLAG) then checked e_re (transReToString obj)
  else if decide (bitFlag_ obj = REMAIN_OBJMGR_MO_FLAG) then checked e_mo (transMoToString obj)
  else if decide (bitFlag_ obj = REMAIN_OBJMGR_MT_FLAG) then checked e_mt (transMtToString obj)
  else inl e_default.

Definition writeRemainObject (self : RemainObjMgr) (obj : RemainObj) : St W Z :=
  if decide (isInit_ self = 0) then mret (-1429)
  else if decide (isExit_ self ≠ 0) then mret (-141)
  else
    match render (-1414) (-1415) (-1416) (-145) obj with
    | inl ret => mret ret
    | inr msgDetail => writeRemainFile (bitFlag_ obj) (m_strFragFolder obj) msgDetail
    end.

Definition writeRemainObjectBak (self : RemainObjMgr) (obj : RemainObj) : St W Z :=
  if decide (isInit_ self = 0) then mret (-1429)
  else if decide (isExit_ self ≠ 0) then mret (-141)
  else
    match render (-1417) (-1418) (-1419) (-144) obj with
    | inl ret => mret ret
    | inr msgDetail => writeRemainFileBak (bitFlag_ obj) (m_strFragFolder obj) msgDetail
    end.

(** One line of a file: parse it, or save it to the backup file. *)
Definition handle_line (trans : bytes → list RemainObj → Z * list RemainObj)
    (flag : Z) (fragFolder line : bytes) (objVect : list RemainObj) :
    St W (Z * list RemainObj) :=
  let '(ret, objVect) :=
    if decide (length line < 3072)%nat then trans line objVect else (-1428, objVect) in
  if decide (ret < 0) then
    _ ← writeRemainFileBak flag fragFolder line;
    mret (ret, objVect)
  else mret (ret, objVect).

(** The [do ... while (pLine)] loop of one case of [transStringToObject]. *)
Fixpoint lines_loop (fuel : nat) (trans : bytes → list RemainObj → Z * list RemainObj)
    (flag : Z) (fragFolder : bytes) (pLine : option bytes) (pBegin : bytes)
    (ret : Z) (objVect : list RemainObj) : St W (Z * list RemainObj) :=
  match fuel with
  | O => mret (ret, objVect)
  | S fuel' =>
      '(pBegin, (ret, objVect)) ←
        match pLine with
        | Some pLine =>
            let bufLen := (length pBegin - length pLine)%nat in
            r ← handle_line trans flag fragFolder (take bufLen pBegin) objVect;
            mret (drop 2 pLine, r)
        | None => mret (pBegin, (ret, objVect))
        end;
      match strFirstConstStr (Some pBegin) CRLF with
      | Some pLine => lines_loop fuel' trans flag fragFolder (Some pLine) pBegin ret objVect
      | None => mret (ret, objVect)
      end
  end.

Definition transStringToObject (bigFlag : Z) (fragFolder remainData : bytes)
    (objVect : list RemainObj) : St W (Z * list RemainObj) :=
  let fuel := S (S (length remainData)) in
  if decide (remainData = []) then mret (-1420, objVect)
  else if decide (bigFlag = REMAIN_OBJMGR_RE_FLAG) then
    lines_loop fuel transStringToRe REMAIN_OBJMGR_RE_FLAG fragFolder None remainData 0 objVect
  else if decide (bigFlag = REMAIN_OBJMGR_MO_FLAG) then
    lines_loop fuel transStringToMo REMAIN_OBJMGR_MO_FLAG fragFolder None remainData 0 objVect
  else if decide (bigFlag = REMAIN_OBJMGR_MT_FLAG) then
    lines_loop fuel transStringToMt REMAIN_OBJMGR_MT_FLAG fragFolder None remainData 0 objVect
  else mret (-1427, objVect).

Definition readRemainObject (self : RemainObjMgr) (bitFlag : Z) (objVect : list RemainObj)
    (fragFolder : bytes) : St W (Z * list RemainObj) :=
  if decide (isInit_ self = 0) then mret (-1429, objVect)
  else if decide (isExit_ self ≠ 0) then mret (-141, objVect)
  else
    '(ret, msgDetail) ← readRemainFile bitFlag fragFolder;
    if decide (ret < 0) then mret (ret, objVect)
    else transStringToObject bitFlag fragFolder msgDetail objVect.

(** The counts are out parameters: [None] when they are not written. *)
Definition statisticsRemainCount (self : RemainObjMgr) (bitFlag : Z) (fragFolder : bytes) :
    St W (Z * option (Z * Z)) :=
  if decide (isInit_ self = 0) then mret (-1429, None)
  else if decide (isExit_ self ≠ 0) then mret (-141, None)
  else '(ret, counts) ← remainMgrStatistics bitFlag fragFolder; mret (ret, Some counts).

(** [now] is what [secondSinceEpoch()] returns. *)
Definition everySecondCheck (now : Z) (self : RemainObjMgr) (second : Z) : St W () :=
  if decide (isExit_ self ≠ 0) then mret ()
  else
    let second := if decide (second = 0) then u64 now else second in
    remainMgrCheck second.

Definition updateGenFreq (freq : Z) : St W () := remainMgrGenFreq freq.
Definition updateMaxFileSize (size : Z) : St W () := remainMgrMaxFileSize size.

(** ** Reference: a text as a list of lines *)

Fixpoint handle_lines (trans : bytes → list RemainObj → Z * list RemainObj)
    (flag : Z) (fragFolder : bytes) (lines : list bytes) (ret : Z) (objVect : list RemainObj) :
    St W (Z * list RemainObj) :=
  match lines with
  | [] => mret (ret, objVect)
  | l :: lines' =>
      '(ret, objVect) ← handle_line trans flag fragFolder l objVect;
      handle_lines trans flag fragFolder lines' ret objVect
  end.

Definition text_of (lines : list bytes) : bytes := concat (map (.++ CRLF) lines).
Definition line_ok (l : bytes) : Prop := no_nul l ∧ ("013"%byte ∉ l).
#[local] Instance line_ok_dec l : Decision (line_ok l).
Proof. unfold line_ok. apply _. Defined.

Lemma text_no_nul lines : Forall line_ok lines → no_nul (text_of lines).
Proof.
  induction 1 as [|l lines [Hn _] _ IH]; unfold text_of; cbn; [apply not_elem_of_nil|].
  rewrite !no_nul_app. split_and!; [done|decide_now|exact IH].
Qed.

Lemma find_line l rest :
  line_ok l → no_nul rest →
  strFirstConstStr (Some (l ++ CRLF ++ rest)) CRLF = Some (CRLF ++ rest).
Proof.
  intros [Hn Hc] Hr. apply (strFirstConstStr_app l "013"%byte ["010"%byte] rest); [|done].
  rewrite !no_nul_app. split_and!; [done|decide_now|done].
Qed.

Lemma find_none rest : line_ok rest → strFirstConstStr (Some rest) CRLF = None.
Proof. intros [Hn Hc]. apply (strFirstConstStr_absent rest "013"%byte ["010"%byte]); [done|decide_now|done]. Qed.

Lemma lines_loop_cons fuel trans flag frag l rest ret objs w :
  lines_loop (S fuel) trans flag frag (Some (CRLF ++ rest)) (l ++ CRLF ++ rest) ret objs w =
  (let '((ret', objs'), w') := handle_line trans flag frag l objs w in
   match strFirstConstStr (Some rest) CRLF with
   | Some p => lines_loop fuel trans flag frag (Some p) rest ret' objs' w'
   | None => ((ret', objs'), w')
   end).
Proof.
  cbn [lines_loop]. rewrite (length_app l), Nat.add_sub, take_app_length.
  st_run. destruct (handle_line trans flag frag l objs w) as [[ret' objs'] w'].
  cbn [drop app CRLF]. st_run. by destruct (strFirstConstStr _ _).
Qed.

Lemma lines_loop_lines trans flag frag lines rest fuel ret objs w :
  Forall line_ok lines → line_ok rest → (length lines < fuel)%nat →
  lines_loop fuel trans flag frag None (text_of lines ++ rest) ret objs w =
  handle_lines trans flag frag lines ret objs w.
Proof.
  intros Hl Hr Hf. destruct fuel as [|fuel]; [lia|].
  assert (Hgo : ∀ lines fuel ret objs w, Forall line_ok lines → (length lines <= fuel)%nat →
    match strFirstConstStr (Some (text_of lines ++ rest)) CRLF with
    | Some p => lines_loop fuel trans flag frag (Some p) (text_of lines ++ rest) ret objs w
    | None => ((ret, objs), w)
    end = handle_lines trans flag frag lines ret objs w).
  { clear -Hr. intros lines. induction lines as [|l lines IH]; intros fuel ret objs w Hl Hf.
    - cbn [text_of map concat app]. by rewrite find_none.
    - inversion Hl as [|? ? Hl1 Hl2]; subst. destruct fuel as [|fuel]; cbn in Hf; [lia|].
      assert (E : text_of (l :: lines) ++ rest = l ++ CRLF ++ (text_of lines ++ rest)).
      { unfold text_of. cbn. by rewrite <- !app_assoc. }
      rewrite E, find_line; [|done|apply no_nul_app; split; [by apply text_no_nul|apply Hr]].
      rewrite lines_loop_cons. cbn [handle_lines]. st_run.
      destruct (handle_line trans flag frag l objs w) as [[ret' objs'] w'].
      apply IH; [done|lia]. }
  rewrite <- (Hgo lines fuel) by (done || lia).
  cbn [lines_loop]. st_run. by destruct (strFirstConstStr _ _).
Qed.

(** Fuel: every round after the first consumes a separator. *)
Lemma text_length lines : (2 * length lines <= length (text_of lines))%nat.
Proof.
  unfold text_of. induction lines as [|l lines IH]; cbn [map concat length]; [lia|].
  rewrite !length_app. cbn [length CRLF]. lia.
Qed.

(** The result of the loop does not depend on the fuel once it exceeds the
    length of the buffer: the loop of the source terminates. *)
Lemma lines_loop_fuel trans flag frag f1 f2 pLine pBegin ret objs w :
  match pLine with Some p => (2 <= length p)%nat ∧ (length p <= length pBegin)%nat | None => True end →
  (length pBegin + (match pLine with Some _ => 0 | None => 1 end) < f1)%nat →
  (length pBegin + (match pLine with Some _ => 0 | None => 1 end) < f2)%nat →
  lines_loop f1 trans flag frag pLine pBegin ret objs w =
  lines_loop f2 trans flag frag pLine pBegin ret objs w.
Proof.
  revert f2 pLine pBegin ret objs w.
  induction f1 as [|f1 IH]; intros [|f2] pLine pBegin ret objs w Hp H1 H2; try lia.
  assert (Hnext : ∀ s ret objs w, (length s < f1)%nat → (length s < f2)%nat →
    match strFirstConstStr (Some s) CRLF with
    | Some p => lines_loop f1 trans flag frag (Some p) s ret objs w
    | None => ((ret, objs), w)
    end = match strFirstConstStr (Some s) CRLF with
    | Some p => lines_loop f2 trans flag frag (Some p) s ret objs w
    | None => ((ret, objs), w)
    end).
  { intros s ret' objs' w' Hs1 Hs2. destruct (strFirstConstStr _ _) as [p|] eqn:E; [|done].
    apply strFirstConstStr_suffix in E as [Hl [a ->]].
    change (strIntLen (Some CRLF)) with 2%nat in Hl. rewrite length_app in Hs1, Hs2.
    apply IH; rewrite ?length_app; lia. }
  cbn [lines_loop]. st_run. destruct pLine as [p|]; cbn in H1, H2.
  - st_run. destruct (handle_line _ _ _ _ _ _) as [[ret' objs'] w']. st_run.
    destruct Hp as [Hp1 Hp2].
    specialize (Hnext (drop 2 p) ret' objs' w'). rewrite length_drop in Hnext.
    specialize (Hnext ltac:(lia) ltac:(lia)). by destruct (strFirstConstStr _ _).
  - st_run. specialize (Hnext pBegin ret objs w ltac:(lia) ltac:(lia)).
    by destruct (strFirstConstStr _ _).
Qed.

(** The parser and the writer of a flag. *)
Definition parser (flag : Z) : bytes → list RemainObj → Z * list RemainObj :=
  if decide (flag = REMAIN_OBJMGR_RE_FLAG) then transStringToRe
  else if decide (flag = REMAIN_OBJMGR_MO_FLAG) then transStringToMo
  else transStringToMt.
Definition writer (flag : Z) : RemainObj → bytes :=
  if decide (flag = REMAIN_OBJMGR_RE_FLAG) then transReToString
  else if decide (flag = REMAIN_OBJMGR_MO_FLAG) then transMoToString
  else transMtToString.
Definition known_flag (flag : Z) : Prop := 1 <= flag <= 3.
#[local] Instance known_flag_dec flag : Decision (known_flag flag).
Proof. unfold known_flag. apply _. Defined.

Lemma flag_cases flag : known_flag flag → flag = 1 ∨ flag = 2 ∨ flag = 3.
Proof. unfold known_flag. lia. Qed.

#[local] Instance flag_format flag :
  known_flag flag → LineFormat flag (writer flag) (parser flag).
Proof. intros [->|[->| ->]]%flag_cases; cbn; apply _. Qed.

Lemma transStringToObject_lines flag frag lines objs w :
  known_flag flag → lines ≠ [] → Forall line_ok lines →
  transStringToObject flag frag (text_of lines) objs w =
  handle_lines (parser flag) flag frag lines 0 objs w.
Proof.
  intros Hf Hne Hl. unfold transStringToObject.
  pose proof (text_length lines) as Hlen.
  rewrite decide_False by (intros E; rewrite E in Hlen; destruct lines; cbn in Hlen; [done|lia]).
  rewrite <- (lines_loop_lines _ _ _ lines [] (S (S (length (text_of lines))))), app_nil_r;
    [|done|split; apply not_elem_of_nil|lia].
  unfold parser. destruct (flag_cases flag Hf) as [->|[->| ->]]; done.
Qed.

Lemma render_writer e1 e2 e3 e4 flag o :
  known_flag flag → bitFlag_ o = flag → (writer flag o) ≠ [] →
  render e1 e2 e3 e4 o = inr (writer flag o).
Proof.
  intros Hf Ho Hne. unfold render. rewrite Ho.
  destruct (flag_cases flag Hf) as [->|[->| ->]].
  - rewrite decide_True by done. change (writer 1) with transReToString in *.
    by destruct (transReToString o).
  - rewrite decide_False, decide_True by done. change (writer 2) with transMoToString in *.
    by destruct (transMoToString o).
  - rewrite !decide_False, decide_True by done. change (writer 3) with transMtToString in *.
    by destruct (transMtToString o).
Qed.

(** The lines the writers produce, one after the other, are parsed as the objects. *)
Lemma read_objects flag frag os ms objs w :
  known_flag flag → os ≠ [] → Forall (readable flag) os →
  Forall2 (λ o m, render (-1414) (-1415) (-1416) (-145) o = inr m ∧ (length m < 3074)%nat) os ms →
  transStringToObject flag frag (concat ms) objs w =
    ((0, objs ++ map (λ o, o <| m_strFragFolder := lit "ccb" |>) os), w).
Proof.
  intros Hf Hne Hos Hms. pose proof (flag_format flag Hf) as F.
  assert (Hex : ∃ lines, ms = map (.++ CRLF) lines ∧ Forall line_ok lines ∧
    ∀ ret objs, handle_lines (parser flag) flag frag lines ret objs w =
      ((match lines with [] => ret | _ => 0 end,
        objs ++ map (λ o, o <| m_strFragFolder := lit "ccb" |>) os), w)).
  { clear Hne objs. induction Hms as [|o m os ms [Hm Hlen] _ IH].
    - exists []. split_and!; [done|constructor|]. intros. by rewrite app_nil_r.
    - inversion Hos as [|? ? Ho Hos']; subst. destruct (IH Hos') as (lines & -> & Hl & Hh).
      destruct (of_to_string o Ho) as (l & Hto & Hn & Hc & Hof).
      assert (Em : m = l ++ CRLF).
      { rewrite (render_writer _ _ _ _ flag) in Hm; [congruence|done|apply Ho|].
        rewrite Hto. by destruct l. }
      subst m. rewrite length_app in Hlen. cbn in Hlen.
      exists (l :: lines). split_and!; [done|by constructor|].
      intros ret objs. cbn [handle_lines]. st_run. unfold handle_line at 1.
      rewrite decide_True, Hof by lia. rewrite decide_False by done. st_run.
      rewrite Hh. cbn [map]. rewrite <- app_assoc. by destruct lines. }
  destruct Hex as (lines & -> & Hl & Hh).
  assert (lines ≠ []) by (intros ->; by inversion Hms; subst).
  change (concat (map (.++ CRLF) lines)) with (text_of lines).
  rewrite transStringToObject_lines, Hh by done. by destruct lines.
Qed.

(** ** Properties *)


(** the loop that splits a file into lines terminates: with any fuel beyond
    the length of the buffer it computes the same result, for any content. *)
Theorem split_terminates trans flag frag data objs w k :
  lines_loop (S (S (length data)) + k) trans flag frag None data 0 objs w =
  lines_loop (S (S (length data))) trans flag frag None data 0 objs w.
Proof. apply lines_loop_fuel; [done|lia..]. Qed.

(** before initialisation every operation on objects answers -1429 and after
    the exit call -141, and neither touches the files or the vector. *)
Theorem operations_guarded self obj flag frag objs w :
  isInit_ self = 0 ∨ isExit_ self ≠ 0 →
  ∃ e, e = (if decide (isInit_ self = 0) then -1429 else -141) ∧
    writeRemainObject self obj w = (e, w) ∧
    writeRemainObjectBak self obj w = (e, w) ∧
    readRemainObject self flag objs frag w = ((e, objs), w) ∧
    statisticsRemainCount self flag frag w = ((e, None), w).
Proof.
  intros Hg. eexists. split; [done|].
  unfold writeRemainObject, writeRemainObjectBak, readRemainObject, statisticsRemainCount.
  destruct (decide (isInit_ self = 0)); [done|]. destruct Hg as [|Hg]; [done|].
  by rewrite !decide_True by done.
Qed.

(** A line is only accepted by the parser of its own kind: the line of a
    report, an upstream or a downstream message is refused with -1426 by the
    parsers of the other two kinds, and the vector is left as it was. *)
Theorem wrong_kind_refused f1 f2 o l objs :
  known_flag f1 → known_flag f2 → f1 ≠ f2 → readable f1 o → writer f1 o = l ++ CRLF →
  parser f2 l objs = (-1426, objs).
Proof.
  intros H1 H2 Hne Ho Hl.
  assert (Hpre : ∃ post, l = writes head_flds o ++ post).
  { assert (Hw : ∃ rest, writer f1 o = writes head_flds o ++ writes rest o ++ put_last (m_strDoneDate o)).
    { destruct (flag_cases f1 H1) as [->|[->| ->]].
      - exists (drop 5 Re.schema). rewrite (Re.transReToString_schema o : writer 1 o = _).
        by rewrite app_assoc, <- writes_app.
      - exists (drop 5 Mo.schema). rewrite (Mo.transMoToString_schema o : writer 2 o = _).
        by rewrite app_assoc, <- writes_app.
      - exists (drop 5 Mt.schema). rewrite (Mt.transMtToString_schema o : writer 3 o = _).
        by rewrite app_assoc, <- writes_app. }
    destruct Hw as [rest Hw]. exists (writes rest o ++ m_strDoneDate o).
    rewrite Hw in Hl. unfold put_last in Hl. rewrite !app_assoc in Hl.
    apply app_inv_tail in Hl. by rewrite app_assoc. }
  destruct Hpre as [post ->].
  destruct (flag_cases f2 H2) as [->|[->| ->]].
  - by eapply (Re.Re_refuses_other f1).
  - by eapply (Mo.Mo_refuses_other f1).
  - by eapply (Mt.Mt_refuses_other f1).
Qed.

End manager.

(** ** A manager that records the lines sent to the backup files *)

Abbreviation BakLog := (list (Z * bytes * bytes)).
#[export] Instance log_ops : RemainMgrOps BakLog := {|
  remainMgrInit := λ _ _ _ _ _, mret 0;
  remainMgrExit := mret ();
  writeRemainFile := λ _ _ _, mret 0;
  writeRemainFileBak := λ flag frag data log, (0, log ++ [(flag, frag, data)]);
  readRemainFile := λ _ _, mret (-122, []);
  remainMgrStatistics := λ _ _, mret (0, (0, 0));
  remainMgrCheck := λ _, mret ();
  remainMgrGenFreq := λ _, mret ();
  remainMgrMaxFileSize := λ _, mret ();
|}.

(** The status of one line and the object it gives, if any. *)
Definition line_result (flag : Z) (l : bytes) : Z * list RemainObj :=
  if decide (length l < 3072)%nat then parser flag l [] else (-1428, []).
Definition rejected (flag : Z) (l : bytes) : Prop := (line_result flag l).1 < 0.
#[export] Instance rejected_dec flag l : Decision (rejected flag l).
Proof. unfold rejected. apply _. Defined.

Lemma line_result_cases flag l :
  known_flag flag →
  let trans objs := if decide (length l < 3072)%nat then parser flag l objs else (-1428, objs) in
  (∃ o, line_result flag l = (0, [o]) ∧ ∀ objs, trans objs = (0, objs ++ [o])) ∨
  (∃ e, e < 0 ∧ line_result flag l = (e, []) ∧ ∀ objs, trans objs = (e, objs)).
Proof.
  intros Hf trans. pose proof (flag_format flag Hf) as F. unfold trans, line_result.
  case_decide; [|right; by exists (-1428)].
  destruct (of_string_cases (LineFormat:=F) l) as [[o Ho]|(e & He & Hp)]; [left|right].
  - exists o. by rewrite Ho.
  - exists e. by rewrite Hp.
Qed.

Lemma handle_line_log flag frag l objs (log : BakLog) :
  known_flag flag →
  handle_line (parser flag) flag frag l objs log =
    (((line_result flag l).1, objs ++ (line_result flag l).2),
     log ++ (if decide (rejected flag l) then [(flag, frag, l)] else [])) ∧
  length (line_result flag l).2 = (if decide (rejected flag l) then 0 else 1)%nat.
Proof.
  intros Hf. unfold handle_line.
  destruct (line_result_cases flag l Hf) as [(o & Hl & Ht)|(e & He & Hl & Ht)];
    rewrite Ht.
  - rewrite !(decide_False (P:=rejected flag l)) by (unfold rejected; by rewrite Hl).
    rewrite Hl, decide_False by lia. cbn. by rewrite app_nil_r.
  - rewrite !(decide_True (P:=rejected flag l)) by (unfold rejected; by rewrite Hl).
    rewrite Hl, decide_True by lia. cbn. by rewrite app_nil_r.
Qed.

Lemma handle_lines_log flag frag lines ret objs (log : BakLog) :
  known_flag flag →
  handle_lines (parser flag) flag frag lines ret objs log =
    ((default ret (fst ∘ line_result flag <$> last lines),
      objs ++ concat (map (snd ∘ line_result flag) lines)),
     log ++ map (λ l, (flag, frag, l)) (filter (rejected flag) lines)).
Proof.
  intros Hf. revert ret objs log. induction lines as [|l lines IH]; intros ret objs log.
  { cbn. by rewrite !app_nil_r. }
  cbn [handle_lines]. st_run.
  destruct (handle_line_log flag frag l objs log Hf) as [-> _]. rewrite IH.
  cbn [map concat]. rewrite <- !app_assoc, filter_cons. f_equal; [f_equal|].
  - destruct lines; [done|]. rewrite last_cons_cons. by destruct (last _) eqn:E;
      [|apply last_None in E].
  - by case_decide.
Qed.

(** C21: no line of a file is lost: each complete line gives exactly one object,
    appended in order, or is passed unchanged to the backup file of its kind, in
    order; and the value returned is the status of the last line alone. *)
Theorem no_line_lost flag frag lines objs (log : BakLog) :
  known_flag flag → lines ≠ [] → Forall line_ok lines →
  ∃ objs',
    transStringToObject flag frag (text_of lines) objs log =
      ((default 0 (fst ∘ line_result flag <$> last lines), objs ++ objs'),
       log ++ map (λ l, (flag, frag, l)) (filter (rejected flag) lines)) ∧
    (length objs' + length (filter (rejected flag) lines) = length lines)%nat.
Proof.
  intros Hf Hne Hl. exists (concat (map (snd ∘ line_result flag) lines)).
  rewrite transStringToObject_lines, handle_lines_log by done. split; [done|].
  clear Hne Hl. induction lines as [|l lines IH]; [done|].
  cbn [map concat]. rewrite filter_cons, length_app.
  destruct (handle_line_log flag [] l [] [] Hf) as [_ Hlen].
  change ((snd ∘ line_result flag) l) with (line_result flag l).2. rewrite Hlen.
  case_decide; cbn [length]; lia.
Qed.

(** ** Witnesses *)

Definition sample_report : RemainObj :=
  RemainObj_new <| m_nPtMsgId := -9223372036854775808 |> <| bitFlag_ := 1 |>
    <| m_nMsgFmt := 15 |> <| m_strMsgContent := lit "hello, world" |>
    <| m_strUserId := lit "user01" |> <| m_strDoneDate := lit "20190312" |>
    <| m_strFragFolder := lit "user01" |>.


Lemma operations_guarded_witness :
  ∃ e, e = (if decide (isInit_ RemainObjMgr_new = 0) then -1429 else -141) ∧
    writeRemainObject RemainObjMgr_new sample_report ([] : BakLog) = (e, []) ∧
    writeRemainObjectBak RemainObjMgr_new sample_report ([] : BakLog) = (e, []) ∧
    readRemainObject RemainObjMgr_new 1 [] [] ([] : BakLog) = ((e, []), []) ∧
    statisticsRemainCount RemainObjMgr_new 1 [] ([] : BakLog) = ((e, None), []).
Proof. apply (operations_guarded RemainObjMgr_new sample_report). by left. Defined.

Lemma wrong_kind_refused_witness :
  ∃ l, writer 1 sample_report = l ++ CRLF ∧ parser 3 l [] = (-1426, []).
Proof.
  exists (take (length (writer 1 sample_report) - 2) (writer 1 sample_report)).
  split; [by vm_compute|].
  apply (wrong_kind_refused 1 3 sample_report);
    [decide_now|decide_now|lia|decide_now|by vm_compute].
Defined.

Lemma no_line_lost_witness :
  ∃ objs',
    transStringToObject 1 (lit "u") (text_of [lit "broken"; lit "1,2"]) [] ([] : BakLog) =
      ((default 0 (fst ∘ line_result 1 <$> last [lit "broken"; lit "1,2"]), [] ++ objs'),
       [] ++ map (λ l, (1, lit "u", l)) (filter (rejected 1) [lit "broken"; lit "1,2"])) ∧
    (length objs' + length (filter (rejected 1) [lit "broken"; lit "1,2"]) =
     length [lit "broken"; lit "1,2"])%nat.
Proof. apply no_line_lost; [decide_now|discriminate|decide_now]. Defined.
