(* ===== verification/UriCodec.v ===== *)
(** * Message ids and phone numbers as URI text ([src/common/UriCodec.h])

    A 64-bit message id is written as eleven characters of six bits each, least
    significant first; a phone number is added to such a text, digits shifted by
    the characters of the id. Reads outside [crc64tab] and writes outside the
    128-byte buffers are undefined behaviour: [None]. *)

From S2P Require Import Prelude CLib Incommon.

Module UriCodec.

Definition CRC_TABLE_SIZE : Z := 64.
Definition CRC_URISTR_LEN : nat := 11.

Definition crc64tab : bytes :=
  lit "0123456789ABCDEFGHIJKLMNOPQRSTUVWXYZabcdefghijklmnopqrstuvwxyz_-".

(** [crc64tab[i]] *)
Definition tab (i : Z) : option byte := if decide (0 <= i) then crc64tab !! Z.to_nat i else None.

(** [encode]: the loop over [CRC_URISTR_LEN] characters. *)
Fixpoint encode_loop (n : nat) (messId : Z) : option bytes :=
  match n with
  | O => Some []
  | S n' =>
      let index := u8 (Z.land messId 63) in
      c ← tab index;
      rest ← encode_loop n' (Z.shiftr messId 6);
      Some (c :: rest)
  end.
Definition encode (messId : Z) : option bytes := encode_loop CRC_URISTR_LEN messId.

(** [crc_index]: the position in the table, or -1. *)
Fixpoint crc_index_loop (sub : Z) (t : bytes) (c : byte) : Z :=
  match t with
  | [] => -1
  | x :: t' => if decide (c = x) then sub else crc_index_loop (sub + 1) t' c
  end.
Definition crc_index (c : byte) : Z := crc_index_loop 0 crc64tab c.

(** [decode]: [for (i = 10; i >= 0; i--)]; [rev] is the text from index [i] down
    to 0. [inl] is the early [return 0]. *)
Fixpoint decode_loop (rev : bytes) (messId : Z) : Z :=
  match rev with
  | [] => messId
  | c :: rev' =>
      let index := crc_index c in
      if index <? 0 then 0
      else
        let messId := Z.lor messId index in
        let messId := match rev' with [] => messId | _ => u64 (Z.shiftl messId 6) end in
        decode_loop rev' messId
  end.
Definition decode (messStr : bytes) : Z :=
  if decide (length messStr = CRC_URISTR_LEN) then decode_loop (reverse messStr) 0 else 0.

(** The body of the loop of [uriPhoneEncode] for index [i]; [pp] is the start of
    the buffer. *)
Definition phone_char (pp : bytes) (i : nat) (q : byte) : option bytes :=
  if (schar q <? 48) || (57 <? schar q) then
    (* [size_t sub = *qChar / CRC_TABLE_SIZE]: negative values are out of range *)
    c1 ← tab (Z.quot (schar q) CRC_TABLE_SIZE);
    c2 ← tab (Z.rem (schar q) CRC_TABLE_SIZE);
    Some ["@"%byte; c1; c2]
  else
    p ← pp !! (i mod CRC_URISTR_LEN)%nat;
    let index := crc_index p in
    let index := index + (schar q - 48) in
    c ← tab (Z.rem index CRC_TABLE_SIZE);
    Some [c].

Fixpoint phone_loop (pp : bytes) (i : nat) (phone : bytes) : option bytes :=
  match phone with
  | [] => Some []
  | q :: phone' =>
      here ← phone_char pp i q;
      rest ← phone_loop pp (S i) phone';
      Some (here ++ rest)
  end.

(** [strlen(buff)] bytes of a zeroed buffer that holds [s]. *)
Definition c_str (s : bytes) : bytes := take (strIntLen (Some s)) s.

Definition uriPhoneEncode (u phoneNum : bytes) : option bytes :=
  if decide (CRC_URISTR_LEN <= S (length u))%nat then
    let pp := take CRC_URISTR_LEN (u ++ [NUL]) in
    body ← phone_loop pp 0 phoneNum;
    if decide (length (pp ++ body) < 128)%nat then Some (c_str (pp ++ body)) else None
  else None.

(** Storing a character in the 128-byte buffer of [uriPhoneDecode]. *)
Definition put_char (out : bytes) (z : Z) : option bytes :=
  if decide (length out < 128)%nat then Some (out ++ [to_byte z]) else None.

(** The loop of [uriPhoneDecode]: [n] is [numLen - i], [p] the text from [pChar]
    on, [enc] the whole text. [inl] is an early return; the byte after the
    terminator is not readable. *)
Fixpoint unphone_loop (enc : bytes) (n i : nat) (p out : bytes) : option (Z + bytes) :=
  match n with
  | O => Some (inr out)
  | S n' =>
      let qc := nth (i mod CRC_URISTR_LEN) enc NUL in
      if decide (deref p = "@"%byte) then
        let index := crc_index (deref (tail p)) in
        if decide (tail p = []) then None
        else
          let sub := crc_index (deref (tail (tail p))) in
          if (index <? 0) || (sub <? 0) then Some (inl index)
          else
            out ← put_char out (index * CRC_TABLE_SIZE + sub);
            (* [numLen -= 2] *)
            unphone_loop enc (n' - 2) (S i) (drop 3 p) out
      else
        let index := crc_index (deref p) in
        let sub := crc_index qc in
        if (index <? 0) || (sub <? 0) then Some (inl index)
        else
          out ← put_char out (if sub <=? index then index - sub + 48
                              else index - sub + CRC_TABLE_SIZE + 48);
          unphone_loop enc n' (S i) (tail p) out
  end.

(** [uriPhoneDecode]: the result, and [u] and [phoneNum] when they are assigned. *)
Definition uriPhoneDecode (enc : bytes) : option (Z * option bytes * option bytes) :=
  if decide (length enc < CRC_URISTR_LEN)%nat then Some (-1, None, None)
  else
    let u := take CRC_URISTR_LEN enc in
    r ← unphone_loop enc (length enc - CRC_URISTR_LEN) 0 (drop CRC_URISTR_LEN enc) [];
    match r with
    | inl ret => Some (ret, Some u, None)
    | inr out =>
        (* [strlen(buff)] *)
        if decide (length out < 128 ∨ NUL ∈ out)%nat then Some (0, Some u, Some (c_str out)) else None
    end.

(** ** The table *)

Lemma tab_Some k : 0 <= k < 64 → ∃ c, tab k = Some c ∧ crc_index c = k ∧ c ≠ "@"%byte ∧ c ≠ NUL.
Proof.
  intros Hk. assert (Hc : forallb (λ k, match tab k with
    | Some c => bool_decide (crc_index c = k ∧ c ≠ "@"%byte ∧ c ≠ NUL) | None => false end)
    (seqZ 0 64) = true) by (by vm_compute).
  rewrite forallb_forall in Hc. specialize (Hc k).
  destruct (tab k) as [c|].
  - exists c. split; [done|]. apply (bool_decide_unpack _), Is_true_true, Hc.
    apply list_elem_of_In, elem_of_seqZ. lia.
  - exfalso. by assert (false = true) by (apply Hc, list_elem_of_In, elem_of_seqZ; lia).
Qed.

Lemma crc_index_range c : crc_index c = -1 ∨ 0 <= crc_index c < 64.
Proof.
  assert (H : bool_decide (crc_index c = -1 ∨ 0 <= crc_index c < 64) = true)
    by (by destruct c; vm_compute).
  by apply bool_decide_eq_true in H.
Qed.

(** ** Message ids *)

(** The value of a text, least significant character first. *)
Fixpoint value (l : list Z) : Z := match l with [] => 0 | k :: l' => k + 64 * value l' end.

Lemma encode_loop_value n m :
  0 <= m → ∃ s, encode_loop n m = Some s ∧ length s = n ∧
    Forall (λ c, 0 <= crc_index c < 64) s ∧ value (map crc_index s) = m mod 64 ^ Z.of_nat n ∧
    NUL ∉ s.
Proof.
  revert m. induction n as [|n IH]; intros m Hm.
  { exists []. split_and!; [done|done|constructor|by rewrite Z.mod_1_r|apply not_elem_of_nil]. }
  cbn [encode_loop]. assert (Hk : 0 <= m mod 64 < 64) by (apply Z.mod_pos_bound; lia).
  change 63 with (Z.ones 6). rewrite Z.land_ones, Z.shiftr_div_pow2 by lia.
  change (2 ^ 6) with 64. rewrite (wrap_u_id 8) by (unfold in_u; lia).
  destruct (tab_Some _ Hk) as (c & -> & Hc & _ & Hnul). cbn [mbind option_bind].
  destruct (IH (m / 64)) as (s & -> & Hl & Hs & Hv & Hn); [by apply Z.div_pos|].
  exists (c :: s). cbn [length map value]. split_and!; [done|lia|constructor; [lia|done]| |].
  - rewrite Hc, Hv, Nat2Z.inj_succ, Z.pow_succ_r by lia.
    rewrite (Z.rem_mul_r m 64) by lia. lia.
  - by apply not_elem_of_cons.
Qed.

(** The value of a text, most significant character first, on top of [acc]. *)
Definition value_rev (l : list Z) (acc : Z) : Z := foldl (λ acc k, acc * 64 + k) acc l.

Lemma value_rev_reverse l : value_rev (reverse l) 0 = value l.
Proof.
  induction l as [|k l IH]; [done|].
  unfold value_rev in *. rewrite reverse_cons, foldl_app. cbn. rewrite IH. lia.
Qed.

Lemma lor_u64_index X k : 0 <= k < 64 → Z.lor (u64 (64 * X)) k = u64 (64 * X + k).
Proof.
  intros Hk. assert (E : u64 (64 * X) = (X mod 2 ^ 58) * 2 ^ 6).
  { unfold wrap_u. change (2 ^ 64) with (64 * 2 ^ 58). rewrite Z.mul_mod_distr_l by done. lia. }
  rewrite E, lor_add_low by (cbn; lia). unfold wrap_u. dlia.
Qed.

Lemma u64_shiftl_6 Y : u64 (Z.shiftl (u64 Y) 6) = u64 (64 * Y).
Proof.
  unfold wrap_u. rewrite Z.shiftl_mul_pow2 by lia. change (2 ^ 6) with 64.
  rewrite Z.mul_mod_idemp_l by done. f_equal. lia.
Qed.

Lemma decode_loop_value r X :
  Forall (λ c, 0 <= crc_index c < 64) r → r ≠ [] →
  decode_loop r (u64 (64 * X)) = u64 (value_rev (map crc_index r) X).
Proof.
  intros Hr. revert X. induction Hr as [|c r Hc Hr IH]; intros X Hne; [done|].
  cbn [decode_loop map value_rev foldl].
  destruct (Z.ltb_spec (crc_index c) 0); [lia|].
  rewrite lor_u64_index by lia. destruct r as [|c' r].
  - cbn. by rewrite (Z.mul_comm X).
  - rewrite u64_shiftl_6, (Z.mul_comm 64 X). by apply IH.
Qed.

(** Message ids survive the trip through a URI: every 64-bit id is written as
    eleven characters, without running outside the table, and reads back as
    itself. *)
Theorem message_id_roundtrip (m : Z) :
  in_u 64 m → ∃ s, encode m = Some s ∧ length s = 11%nat ∧ decode s = m.
Proof.
  intros Hm. unfold in_u in Hm.
  destruct (encode_loop_value CRC_URISTR_LEN m) as (s & Hs & Hl & Hf & Hv & _); [lia|].
  exists s. split_and!; [done|done|]. unfold decode. rewrite decide_True by done.
  rewrite <- (Z.mul_0_r 64), <- (wrap_u_id 64 (64 * 0)) by done.
  rewrite decode_loop_value.
  - rewrite (fmap_reverse crc_index s : map _ _ = _), value_rev_reverse.
    change (crc_index <$> s) with (map crc_index s). rewrite Hv.
    change (64 ^ Z.of_nat CRC_URISTR_LEN) with (2 ^ 66).
    rewrite (Z.mod_small m) by lia. by apply wrap_u_id.
  - by apply Forall_reverse.
  - destruct s; [done|]. intros Hr. apply (f_equal length) in Hr. by rewrite length_reverse in Hr.
Qed.

Lemma message_id_roundtrip_witness :
  in_u 64 18446744073709551615 ∧ ∃ s, encode 18446744073709551615 = Some s ∧ length s = 11%nat ∧
    decode s = 18446744073709551615.
Proof. split; [done|]. by apply (message_id_roundtrip 18446744073709551615). Defined.

(** ** Phone numbers *)

(** A text of eleven characters of the table, such as [encode] produces. *)
Definition id_text (u : bytes) : Prop :=
  length u = CRC_URISTR_LEN ∧ Forall (λ c, 0 <= crc_index c < 64) u.
#[global] Instance id_text_dec u : Decision (id_text u).
Proof. unfold id_text. apply _. Defined.

(** A seven-bit character other than NUL. *)
Definition ascii (q : byte) : Prop := 0 < uchar q < 128.
#[global] Instance ascii_dec q : Decision (ascii q).
Proof. unfold ascii. apply _. Defined.

Lemma no_nul_nil : no_nul [].
Proof. apply not_elem_of_nil. Qed.

Lemma crc_index_NUL : crc_index NUL = -1.
Proof. done. Qed.

Lemma id_text_no_nul u : id_text u → no_nul u.
Proof.
  intros [_ Hu] Hn. rewrite Forall_forall in Hu. specialize (Hu _ Hn).
  rewrite crc_index_NUL in Hu. lia.
Qed.

Lemma id_text_at u i : id_text u → ∃ p, u !! (i mod CRC_URISTR_LEN)%nat = Some p ∧ 0 <= crc_index p < 64.
Proof.
  intros [Hl Hu]. destruct (lookup_lt_is_Some_2 u (i mod CRC_URISTR_LEN)%nat) as [p Hp].
  { rewrite Hl. by apply Nat.mod_upper_bound. }
  exists p. split; [done|]. exact (Forall_lookup_1 _ u _ p Hu Hp).
Qed.

Lemma deref_cons c p : deref (c :: p) = c.
Proof. done. Qed.

Lemma put_char_byte out q z : (length out < 128)%nat → z = uchar q → put_char out z = Some (out ++ [q]).
Proof. intros Hl ->. unfold put_char. by rewrite decide_True, to_byte_uchar. Qed.

(** What one character becomes, and that the decoder takes it back. *)
Lemma phone_char_decodes u k i q rest out :
  id_text u → ascii q → (length out < 128)%nat →
  ∃ h, phone_char u i q = Some h ∧ (length h <= 3)%nat ∧ no_nul h ∧
    unphone_loop (u ++ k) (length (h ++ rest)) i (h ++ rest) out =
    unphone_loop (u ++ k) (length rest) (S i) rest (out ++ [q]).
Proof.
  intros Hu Hq Ho. unfold phone_char, ascii in *.
  assert (Hs : schar q = uchar q) by (unfold schar; rewrite decide_True; lia). rewrite Hs.
  destruct (_ || _) eqn:Hd.
  - change (Z.quot _ _) with (uchar q ÷ 64). change (Z.rem _ CRC_TABLE_SIZE) with (Z.rem (uchar q) 64).
    destruct (tab_Some (uchar q ÷ 64)) as (c1 & -> & H1 & _ & Hn1); [dlia|].
    destruct (tab_Some (Z.rem (uchar q) 64)) as (c2 & -> & H2 & _ & Hn2); [dlia|].
    cbn [mbind option_bind]. eexists. split_and!; [done|cbn; lia|rewrite !no_nul_cons; auto using no_nul_nil|].
    cbn [length app unphone_loop tail]. rewrite !deref_cons, decide_True, decide_False, H1, H2 by done.
    destruct (Z.ltb_spec (uchar q ÷ 64) 0); [dlia|].
    destruct (Z.ltb_spec (Z.rem (uchar q) 64) 0); [dlia|]. cbn [orb].
    erewrite (put_char_byte _ q) by (unfold CRC_TABLE_SIZE; dlia).
    cbn [mbind option_bind drop]. f_equal. lia.
  - apply orb_false_iff in Hd as [?%Z.ltb_ge ?%Z.ltb_ge].
    destruct (id_text_at u i Hu) as (p & Hp & Hr). rewrite Hp. cbn [mbind option_bind].
    destruct (tab_Some (Z.rem (crc_index p + (uchar q - 48)) CRC_TABLE_SIZE)) as (c & -> & Hc & Hat & Hn);
      [unfold CRC_TABLE_SIZE; dlia|].
    cbn [mbind option_bind]. eexists. split_and!; [done|cbn; lia|rewrite no_nul_cons; auto using no_nul_nil|].
    cbn [length app unphone_loop tail]. rewrite !deref_cons, decide_False by done.
    rewrite (nth_lookup_Some (u ++ k) _ _ p) by (by apply lookup_app_l_Some). rewrite Hc.
    unfold CRC_TABLE_SIZE in *.
    destruct (Z.ltb_spec (Z.rem (crc_index p + (uchar q - 48)) 64) 0); [dlia|].
    destruct (Z.ltb_spec (crc_index p) 0); [lia|]. cbn [orb].
    erewrite (put_char_byte _ q); [done|done|]. case_match; dlia.
Qed.

Lemma phone_loop_decodes u k phone i rest out :
  id_text u → Forall ascii phone → (length out + length phone <= 128)%nat →
  ∃ b, phone_loop u i phone = Some b ∧ (length b <= 3 * length phone)%nat ∧ no_nul b ∧
    unphone_loop (u ++ k) (length (b ++ rest)) i (b ++ rest) out =
    unphone_loop (u ++ k) (length rest) (i + length phone) rest (out ++ phone).
Proof.
  intros Hu Hp. revert i out. induction Hp as [|q phone Hq Hp IH]; intros i out Hl; cbn [length] in Hl.
  { exists []. cbn. rewrite app_nil_r, Nat.add_0_r. split_and!; [done|lia|apply not_elem_of_nil|done]. }
  destruct (IH (S i) (out ++ [q])) as (b & Hb & Hbl & Hbn & IHb); [rewrite length_app; cbn; lia|].
  destruct (phone_char_decodes u k i q (b ++ rest) out Hu Hq) as (h & Hh & Hhl & Hhn & E); [lia|].
  exists (h ++ b). cbn [phone_loop]. rewrite Hh, Hb. split_and!; [done| |by rewrite no_nul_app|].
  - rewrite length_app. cbn [length]. lia.
  - rewrite <- app_assoc, E, IHb, <- app_assoc. cbn. f_equal. lia.
Qed.

Lemma c_str_no_nul s : no_nul s → c_str s = s.
Proof. intros Hs. unfold c_str. rewrite strIntLen_no_nul by done. by apply take_ge. Qed.

Lemma ascii_no_nul s : Forall ascii s → no_nul s.
Proof. intros Hs Hn. rewrite Forall_forall in Hs. by destruct (Hs _ Hn). Qed.

(** Encoding a phone number under a message id and decoding the text gives
    back the id and the number, for ids of eleven characters of the table and
    numbers of up to 38 seven-bit characters; neither routine leaves its buffers. *)
Theorem uri_phone_roundtrip (u phone : bytes) :
  id_text u → Forall ascii phone → (length phone <= 38)%nat →
  ∃ enc, uriPhoneEncode u phone = Some enc ∧ uriPhoneDecode enc = Some (0, Some u, Some phone).
Proof.
  intros Hu Hp Hl. pose proof Hu as [Hlen _].
  destruct (phone_loop_decodes u [] phone 0 [] [] Hu Hp) as (b & Hb & Hbl & Hbn & _); [cbn; lia|].
  exists (u ++ b). unfold uriPhoneEncode. rewrite decide_True by (rewrite Hlen; unfold CRC_URISTR_LEN; lia).
  rewrite (take_app_length' u) by done. rewrite Hb. cbn [mbind option_bind].
  assert (Hub : no_nul (u ++ b)) by (rewrite no_nul_app; auto using id_text_no_nul).
  rewrite c_str_no_nul by done. rewrite decide_True by (rewrite length_app, Hlen; unfold CRC_URISTR_LEN; lia).
  split; [done|]. unfold uriPhoneDecode. rewrite decide_False by (rewrite length_app; lia).
  rewrite take_app_length', drop_app_length' by done.
  replace (length (u ++ b) - CRC_URISTR_LEN)%nat with (length (b ++ [])) by (rewrite !length_app; cbn; lia).
  destruct (phone_loop_decodes u b phone 0 [] [] Hu Hp) as (b' & Hb' & _ & _ & E); [cbn; lia|].
  rewrite Hb in Hb'. injection Hb' as <-. rewrite app_nil_r in *. rewrite E. cbn [length unphone_loop mbind option_bind app].
  rewrite decide_True by (left; lia). by rewrite c_str_no_nul by auto using ascii_no_nul.
Qed.

Lemma uri_phone_roundtrip_witness :
  ∃ enc, uriPhoneEncode (lit "3-Zk0aB_9yx") (lit "+86 13800138000") = Some enc ∧
    uriPhoneDecode enc = Some (0, Some (lit "3-Zk0aB_9yx"), Some (lit "+86 13800138000")).
Proof. apply (uri_phone_roundtrip (lit "3-Zk0aB_9yx") (lit "+86 13800138000")); decide_now. Defined.

Lemma put_char_ok out z : (length out < 128)%nat →
  ∃ out', put_char out z = Some out' ∧ length out' = S (length out).
Proof.
  intros Hl. unfold put_char. rewrite decide_True by done. eexists. split; [done|].
  rewrite length_app. cbn. lia.
Qed.

Lemma unphone_loop_safe enc n i p out :
  length p = n → (length out + n < 128)%nat → last p ≠ Some "@"%byte →
  ∃ r, unphone_loop enc n i p out = Some r ∧
    match r with inl ret => -1 <= ret < 64 | inr out' => (length out' < 128)%nat end.
Proof.
  revert i p out. induction (lt_wf n) as [n _ IH]; intros i p out Hp Ho Hlast.
  destruct n as [|n]; [eexists; split; [done|cbn; lia]|].
  destruct p as [|c p]; [done|]. injection Hp as Hp. cbn [unphone_loop].
  cbn [tail]. rewrite !deref_cons. destruct (decide (c = "@"%byte)) as [->|Hc].
  - destruct p as [|c1 p]; [done|]. rewrite decide_False by done. cbn [tail]. rewrite deref_cons.
    set (sub := crc_index (deref p)). pose proof (crc_index_range c1).
    destruct (_ || _) eqn:E; [eexists; split; [done|cbn -[crc_index]; lia]|].
    destruct p as [|c2 p]; [by rewrite orb_comm in E|].
    destruct (put_char_ok out (crc_index c1 * CRC_TABLE_SIZE + sub)) as (out' & E' & Hl'); [lia|].
    rewrite E'. cbn [mbind option_bind drop]. rewrite drop_0.
    cbn [length] in Hp. apply (IH (n - 2)%nat); [lia|lia|lia|].
    intros Hx. apply Hlast. cbn. destruct p; [done|done].
  - pose proof (crc_index_range c). destruct (_ || _); [eexists; split; [done|cbn -[crc_index]; lia]|].
    match goal with |- context [put_char out ?z] => destruct (put_char_ok out z) as (out' & -> & Hl') end; [lia|].
    cbn [mbind option_bind]. apply IH; [lia|lia|lia|].
    intros Hx. apply Hlast. destruct p; [done|done].
Qed.

(** Every text of at most 138 characters that does not end in "@" is decoded
    without leaving the table, the text or the 128-byte buffer; the returned value
    is between -1 and 63, and the number is assigned exactly when it is 0 and the
    loop ran to its end. *)
Theorem uri_phone_decode_safe (enc : bytes) :
  (length enc <= 138)%nat → last enc ≠ Some "@"%byte →
  ∃ ret u phone, uriPhoneDecode enc = Some (ret, u, phone) ∧ -1 <= ret < 64 ∧
    (is_Some phone → ret = 0).
Proof.
  intros Hl Hlast. unfold uriPhoneDecode. case_decide as Hs; [eexists _, _, _; split; [done|]|].
  { split; [lia|]. by intros [? ?]. }
  destruct (unphone_loop_safe enc (length enc - CRC_URISTR_LEN) 0 (drop CRC_URISTR_LEN enc) [])
    as ([ret|out] & -> & Hr).
  - by rewrite length_drop.
  - unfold CRC_URISTR_LEN in *. cbn. lia.
  - intros Hx. apply Hlast. rewrite <- (take_drop CRC_URISTR_LEN enc), last_app. by rewrite Hx.
  - eexists _, _, _. split; [done|]. split; [lia|]. by intros [? ?].
  - cbn [mbind option_bind]. rewrite decide_True by auto. eexists _, _, _. split; [done|]. split; [lia|done].
Qed.

Lemma uri_phone_decode_safe_witness :
  ∃ ret u phone, uriPhoneDecode (lit "3-Zk0aB_9yx12!") = Some (ret, u, phone) ∧ -1 <= ret < 64 ∧
    (is_Some phone → ret = 0).
Proof. apply (uri_phone_decode_safe (lit "3-Zk0aB_9yx12!")); decide_now. Defined.

End UriCodec.
