(* ===== verification/HashSlot.v ===== *)
(** * Hash slots of the Redis cluster ([src/redisAsyn/v2.0/src/RedisTools.cpp])

    [crc16], [keyHashSlot] and [split]; the table-driven checksum is the bitwise
    CRC16 with polynomial 0x1021, and keys with the same hash tag share a slot. *)

From S2P Require Import Prelude CLib.

Module RedisTools.

Definition crc16tab : list Z := [
    0x0000; 0x1021; 0x2042; 0x3063; 0x4084; 0x50a5; 0x60c6; 0x70e7; 0x8108; 0x9129; 0xa14a; 0xb16b;
    0xc18c; 0xd1ad; 0xe1ce; 0xf1ef; 0x1231; 0x0210; 0x3273; 0x2252; 0x52b5; 0x4294; 0x72f7; 0x62d6;
    0x9339; 0x8318; 0xb37b; 0xa35a; 0xd3bd; 0xc39c; 0xf3ff; 0xe3de; 0x2462; 0x3443; 0x0420; 0x1401;
    0x64e6; 0x74c7; 0x44a4; 0x5485; 0xa56a; 0xb54b; 0x8528; 0x9509; 0xe5ee; 0xf5cf; 0xc5ac; 0xd58d;
    0x3653; 0x2672; 0x1611; 0x0630; 0x76d7; 0x66f6; 0x5695; 0x46b4; 0xb75b; 0xa77a; 0x9719; 0x8738;
    0xf7df; 0xe7fe; 0xd79d; 0xc7bc; 0x48c4; 0x58e5; 0x6886; 0x78a7; 0x0840; 0x1861; 0x2802; 0x3823;
    0xc9cc; 0xd9ed; 0xe98e; 0xf9af; 0x8948; 0x9969; 0xa90a; 0xb92b; 0x5af5; 0x4ad4; 0x7ab7; 0x6a96;
    0x1a71; 0x0a50; 0x3a33; 0x2a12; 0xdbfd; 0xcbdc; 0xfbbf; 0xeb9e; 0x9b79; 0x8b58; 0xbb3b; 0xab1a;
    0x6ca6; 0x7c87; 0x4ce4; 0x5cc5; 0x2c22; 0x3c03; 0x0c60; 0x1c41; 0xedae; 0xfd8f; 0xcdec; 0xddcd;
    0xad2a; 0xbd0b; 0x8d68; 0x9d49; 0x7e97; 0x6eb6; 0x5ed5; 0x4ef4; 0x3e13; 0x2e32; 0x1e51; 0x0e70;
    0xff9f; 0xefbe; 0xdfdd; 0xcffc; 0xbf1b; 0xaf3a; 0x9f59; 0x8f78; 0x9188; 0x81a9; 0xb1ca; 0xa1eb;
    0xd10c; 0xc12d; 0xf14e; 0xe16f; 0x1080; 0x00a1; 0x30c2; 0x20e3; 0x5004; 0x4025; 0x7046; 0x6067;
    0x83b9; 0x9398; 0xa3fb; 0xb3da; 0xc33d; 0xd31c; 0xe37f; 0xf35e; 0x02b1; 0x1290; 0x22f3; 0x32d2;
    0x4235; 0x5214; 0x6277; 0x7256; 0xb5ea; 0xa5cb; 0x95a8; 0x8589; 0xf56e; 0xe54f; 0xd52c; 0xc50d;
    0x34e2; 0x24c3; 0x14a0; 0x0481; 0x7466; 0x6447; 0x5424; 0x4405; 0xa7db; 0xb7fa; 0x8799; 0x97b8;
    0xe75f; 0xf77e; 0xc71d; 0xd73c; 0x26d3; 0x36f2; 0x0691; 0x16b0; 0x6657; 0x7676; 0x4615; 0x5634;
    0xd94c; 0xc96d; 0xf90e; 0xe92f; 0x99c8; 0x89e9; 0xb98a; 0xa9ab; 0x5844; 0x4865; 0x7806; 0x6827;
    0x18c0; 0x08e1; 0x3882; 0x28a3; 0xcb7d; 0xdb5c; 0xeb3f; 0xfb1e; 0x8bf9; 0x9bd8; 0xabbb; 0xbb9a;
    0x4a75; 0x5a54; 0x6a37; 0x7a16; 0x0af1; 0x1ad0; 0x2ab3; 0x3a92; 0xfd2e; 0xed0f; 0xdd6c; 0xcd4d;
    0xbdaa; 0xad8b; 0x9de8; 0x8dc9; 0x7c26; 0x6c07; 0x5c64; 0x4c45; 0x3ca2; 0x2c83; 0x1ce0; 0x0cc1;
    0xef1f; 0xff3e; 0xcf5d; 0xdf7c; 0xaf9b; 0xbfba; 0x8fd9; 0x9ff8; 0x6e17; 0x7e36; 0x4e55; 0x5e74;
    0x2e93; 0x3eb2; 0x0ed1; 0x1ef0 ].

(** The body of the loop of [crc16] on one character: [char] is sign-extended. *)
Definition crc16_step (crc : Z) (b : byte) : Z :=
  let index := Z.land (Z.lxor (Z.shiftr crc 8) (schar b)) 0x00FF in
  u16 (Z.lxor (Z.shiftl crc 8) (nth (Z.to_nat index) crc16tab 0)).
Definition crc16 (buf : bytes) : Z := foldl crc16_step 0 buf.

(** [for (s = ...; s < len; s++) if (key[s] == c) break;] *)
Fixpoint index_of (c : byte) (s : nat) (key : bytes) : nat :=
  match key with
  | [] => s
  | x :: key' => if decide (x = c) then s else index_of c (S s) key'
  end.

Definition keyHashSlot (key : bytes) : Z :=
  let len := length key in
  let s := index_of "{"%byte 0 key in
  if decide (s = len) then Z.land (crc16 key) 0x3FFF
  else
    let e := index_of "}"%byte (s + 1) (drop (s + 1) key) in
    if decide (e = len ∨ e = s + 1)%nat then Z.land (crc16 key) 0x3FFF
    else Z.land (crc16 (take (e - s - 1) (drop (s + 1) key))) 0x3FFF.

Definition getKeySlotIndex (key : bytes) : Z :=
  match key with [] => 0 | _ => keyHashSlot key end.

(** [std::string::find] from the start of [s]. *)
Fixpoint find_sub (delim s : bytes) : option nat :=
  if decide (take (length delim) s = delim) then Some 0%nat
  else match s with [] => None | _ :: s' => S <$> find_sub delim s' end.

(** The loop of [split] on what lies behind [beginIndex]: a round for each
    delimiter found, so the length of the string bounds the rounds. *)
Fixpoint split_loop (fuel : nat) (delim s : bytes) (result : list bytes) : list bytes :=
  match fuel with
  | O => result
  | S fuel' =>
      match s with
      | [] => result
      | _ =>
          match find_sub delim s with
          | None => result ++ [s]
          | Some endIndex =>
              let result := if (0 <? endIndex)%nat then result ++ [take endIndex s] else result in
              split_loop fuel' delim (drop (endIndex + length delim) s) result
          end
      end
  end.
Definition split (str delim : bytes) (result : list bytes) : list bytes :=
  match str with
  | [] => result
  | _ =>
      if decide (default NUL (head delim) = NUL) then result ++ [str]
      else split_loop (S (length str)) delim str result
  end.

(** ** The checksum *)

(** One bit of the CRC16 register, and one byte. *)
Definition crc_bit (x : Z) : Z := Z.lxor (u16 (Z.shiftl x 1)) (if Z.testbit x 15 then 0x1021 else 0).
Definition crc_bits (n : nat) (x : Z) : Z := Nat.iter n crc_bit x.
Definition crc_byte (crc : Z) (b : byte) : Z := crc_bits 8 (Z.lxor crc (Z.shiftl (uchar b) 8)).

Lemma u16_land x : u16 x = Z.land x (Z.ones 16).
Proof. by rewrite Z.land_ones. Qed.

Lemma crc_bit_lxor x y : crc_bit (Z.lxor x y) = Z.lxor (crc_bit x) (crc_bit y).
Proof.
  unfold crc_bit. rewrite !u16_land, Z.shiftl_lxor, Z.lxor_spec.
  assert (Hl : ∀ a b c, Z.land (Z.lxor a b) c = Z.lxor (Z.land a c) (Z.land b c)).
  { intros a b c. apply Z.bits_inj'. intros n Hn. rewrite Z.land_spec, !Z.lxor_spec, !Z.land_spec.
    by destruct (Z.testbit a n), (Z.testbit b n), (Z.testbit c n). }
  rewrite Hl. generalize (Z.land (Z.shiftl x 1) (Z.ones 16)), (Z.land (Z.shiftl y 1) (Z.ones 16)).
  intros a b. apply Z.bits_inj'. intros n Hn. rewrite !Z.lxor_spec.
  destruct (Z.testbit x 15), (Z.testbit y 15), (Z.testbit a n), (Z.testbit b n);
    cbn [xorb]; rewrite ?Z.bits_0; by destruct (Z.testbit 0x1021 n).
Qed.

Lemma crc_bits_lxor n x y : crc_bits n (Z.lxor x y) = Z.lxor (crc_bits n x) (crc_bits n y).
Proof.
  induction n as [|n IH]; [done|].
  assert (E : ∀ z, crc_bits (S n) z = crc_bit (crc_bits n z)) by done.
  by rewrite !E, IH, crc_bit_lxor.
Qed.

(** A property of the numbers below [2^n], by evaluation. *)
Lemma below_check (P : Z → Prop) `{!∀ z, Decision (P z)} n :
  forallb (λ z, bool_decide (P z)) (seqZ 0 n) = true → ∀ z, 0 <= z < n → P z.
Proof.
  rewrite forallb_forall. intros Hall z Hz. apply (bool_decide_unpack _), Is_true_true, Hall.
  apply list_elem_of_In, elem_of_seqZ. lia.
Qed.

Lemma crc_low k : 0 <= k < 256 → crc_bits 8 k = Z.shiftl k 8.
Proof. revert k. apply (below_check _ 256). by vm_compute. Qed.
Lemma crc_high k : 0 <= k < 256 → crc_bits 8 (Z.shiftl k 8) = nth (Z.to_nat k) crc16tab 0.
Proof. revert k. apply (below_check _ 256). by vm_compute. Qed.
Lemma crc16tab_range k : 0 <= k < 256 → in_u 16 (nth (Z.to_nat k) crc16tab 0).
Proof. revert k. apply (below_check _ 256). by vm_compute. Qed.

Lemma land_lxor_r a b c : Z.land (Z.lxor a b) c = Z.lxor (Z.land a c) (Z.land b c).
Proof.
  apply Z.bits_inj'. intros n Hn. rewrite Z.land_spec, !Z.lxor_spec, !Z.land_spec.
  by destruct (Z.testbit a n), (Z.testbit b n), (Z.testbit c n).
Qed.

Lemma schar_low b : Z.land (schar b) 255 = uchar b.
Proof.
  change 255 with (Z.ones 8). rewrite Z.land_ones by lia. pose proof (uchar_range b).
  unfold schar. case_decide; dlia.
Qed.

Lemma split_16 x : 0 <= x → x = Z.lxor (Z.shiftl (Z.shiftr x 8) 8) (Z.land x 255).
Proof.
  intros Hx. rewrite <- Z.add_nocarry_lxor.
  - change 255 with (Z.ones 8). rewrite Z.land_ones, Z.shiftl_mul_pow2, Z.shiftr_div_pow2 by lia. dlia.
  - apply Z.bits_inj'. intros n Hn. rewrite Z.land_spec, Z.bits_0.
    destruct (decide (n < 8)).
    + rewrite Z.shiftl_spec_low by done. done.
    + change 255 with (Z.ones 8). rewrite Z.land_ones, Z.mod_pow2_bits_high by lia. apply andb_false_r.
Qed.

Lemma lxor_below w a b : 0 <= w → in_u w a → in_u w b → in_u w (Z.lxor a b).
Proof.
  intros Hw Ha Hb. assert (E : Z.lxor a b = Z.land (Z.lxor a b) (Z.ones w)).
  { unfold in_u in *. rewrite land_lxor_r, !Z.land_ones by done. by rewrite !Z.mod_small. }
  rewrite E, Z.land_ones by done. apply Z.mod_pos_bound. lia.
Qed.

(** The table step is eight steps of the bitwise register. *)
Lemma crc16_step_bits crc b : in_u 16 crc → crc16_step crc b = crc_byte crc b ∧ in_u 16 (crc16_step crc b).
Proof.
  intros Hc. unfold in_u in Hc. set (hi := Z.shiftr crc 8). set (lo := Z.land crc 255).
  assert (Hhi : in_u 8 hi) by (unfold hi, in_u; rewrite Z.shiftr_div_pow2 by lia; dlia).
  assert (Hlo : in_u 8 lo).
  { unfold lo, in_u. change 255 with (Z.ones 8). rewrite Z.land_ones by lia. apply Z.mod_pos_bound. lia. }
  pose proof (uchar_range b) as Hb.
  assert (Hx : in_u 8 (Z.lxor hi (uchar b))) by (apply lxor_below; done || lia). unfold in_u in Hx, Hlo, Hhi.
  assert (E : crc16_step crc b = Z.lxor (Z.shiftl lo 8) (nth (Z.to_nat (Z.lxor hi (uchar b))) crc16tab 0)).
  { unfold crc16_step. fold hi. rewrite land_lxor_r, schar_low.
    assert (Eh : Z.land hi 255 = hi).
    { change 255 with (Z.ones 8). rewrite Z.land_ones by lia. apply Z.mod_small. lia. }
    change 0x00FF with 255. rewrite Eh, u16_land, land_lxor_r, <- !u16_land. f_equal.
    - unfold lo, wrap_u. change 255 with (Z.ones 8). rewrite Z.land_ones, !Z.shiftl_mul_pow2 by lia. dlia.
    - apply wrap_u_id, crc16tab_range. lia. }
  split.
  - rewrite E. unfold crc_byte.
    replace (Z.lxor crc (Z.shiftl (uchar b) 8)) with (Z.lxor (Z.shiftl (Z.lxor hi (uchar b)) 8) lo).
    + by rewrite crc_bits_lxor, crc_high, crc_low, Z.lxor_comm by lia.
    + rewrite (split_16 crc) at 1 by lia. fold hi lo. rewrite Z.shiftl_lxor.
      rewrite !Z.lxor_assoc. f_equal. apply Z.lxor_comm.
  - rewrite E. apply lxor_below; [done| |by apply crc16tab_range].
    unfold in_u. rewrite Z.shiftl_mul_pow2 by lia. lia.
Qed.

Lemma crc16_from crc buf :
  in_u 16 crc → foldl crc16_step crc buf = foldl crc_byte crc buf ∧ in_u 16 (foldl crc16_step crc buf).
Proof.
  revert crc. induction buf as [|b buf IH]; intros crc Hc; [done|]. cbn [foldl].
  destruct (crc16_step_bits crc b Hc) as [E Hr]. rewrite <- E. by apply IH.
Qed.

(** C39: The table-driven [crc16] is the CRC16 of the polynomial 0x1021, bit by bit, on
    every buffer, characters above 127 included. *)
Theorem crc16_bitwise (buf : bytes) : crc16 buf = foldl crc_byte 0 buf ∧ in_u 16 (crc16 buf).
Proof. by apply crc16_from. Qed.

(** ** Slots *)

Lemma land_slot x : 0 <= Z.land x 0x3FFF < 16384.
Proof. change 0x3FFF with (Z.ones 14). rewrite Z.land_ones by lia. by apply Z.mod_pos_bound. Qed.

Lemma getKeySlotIndex_range key : 0 <= getKeySlotIndex key < 16384.
Proof.
  destruct key as [|x key]; cbn [getKeySlotIndex]; [done|]. unfold keyHashSlot. repeat case_decide; apply land_slot.
Qed.

Lemma index_of_app c a k n : c ∉ a → index_of c n (a ++ c :: k) = (n + length a)%nat.
Proof.
  revert n. induction a as [|x a IH]; intros n Ha; cbn.
  - rewrite decide_True by done. lia.
  - apply not_elem_of_cons in Ha as [Hx Ha]. rewrite decide_False, IH by congruence. lia.
Qed.

(** Keys with the same hash tag land in the same slot: for a key
    [a{tag}z] whose first brace opens a non-empty tag without a closing brace the
    slot is that of the tag alone, and every key has a slot below 16384. *)
Theorem hash_tag_slot (a tag z : bytes) :
  "{"%byte ∉ a → "}"%byte ∉ tag → tag ≠ [] →
  keyHashSlot (a ++ "{"%byte :: tag ++ "}"%byte :: z) = Z.land (crc16 tag) 0x3FFF ∧
  ∀ key, 0 <= getKeySlotIndex key < 16384.
Proof.
  intros Ha Ht Hne. split; [|apply getKeySlotIndex_range].
  unfold keyHashSlot. rewrite index_of_app by done. cbn [Nat.add].
  rewrite decide_False by (rewrite length_app; cbn; lia).
  replace (drop (length a + 1) (a ++ "{"%byte :: tag ++ "}"%byte :: z)) with (tag ++ "}"%byte :: z).
  2: { rewrite <- drop_drop, drop_app_length. done. }
  rewrite index_of_app by done.
  assert (0 < length tag)%nat by (destruct tag; [done|cbn; lia]).
  rewrite decide_False by (rewrite !length_app; cbn; rewrite length_app; cbn; lia).
  f_equal. f_equal. apply take_app_length'. lia.
Qed.

Lemma hash_tag_slot_witness :
  (keyHashSlot (lit "user{1000}.following") = 11326 ∧ keyHashSlot (lit "user{1000}.followers") = 11326) ∧
  keyHashSlot (lit "user" ++ "{"%byte :: lit "1000" ++ "}"%byte :: lit ".following") = Z.land (crc16 (lit "1000")) 0x3FFF ∧
  ∀ key, 0 <= getKeySlotIndex key < 16384.
Proof.
  split; [split; vm_compute; reflexivity|].
  apply (hash_tag_slot (lit "user") (lit "1000") (lit ".following")); [decide_now..|done].
Defined.

(** ** Splitting *)

(** [d] stands in [s] at index [m]. *)
Definition stands_at (d s : bytes) (m : nat) : Prop := take (length d) (drop m s) = d.

Lemma find_sub_spec d s :
  match find_sub d s with
  | Some n => stands_at d s n ∧ (n <= length s)%nat ∧ ∀ m, (m < n)%nat → ¬ stands_at d s m
  | None => ∀ m, (m <= length s)%nat → ¬ stands_at d s m
  end.
Proof.
  unfold stands_at. induction s as [|x s IH]; cbn [find_sub]; case_decide as Hd.
  - split_and!; [done|cbn; lia|lia].
  - intros m Hm. cbn in Hm. by replace m with 0%nat by lia.
  - split_and!; [done|lia|lia].
  - destruct (find_sub d s) as [n|]; cbn [fmap option_fmap option_map].
    + destruct IH as (H1 & H2 & H3). split_and!; [done|cbn; lia|].
      intros [|m] Hm; [done|]. apply H3. lia.
    + intros [|m] Hm; [done|]. cbn in Hm. apply IH. lia.
Qed.

Lemma stands_at_split d s n : stands_at d s n → s = take n s ++ d ++ drop (n + length d) s.
Proof.
  intros H. rewrite <- (take_drop n s) at 1. f_equal.
  rewrite <- (take_drop (length d) (drop n s)), H, drop_drop. done.
Qed.

(** What [split] means: pieces between delimiters found from the left, without
    the empty ones. *)
Inductive splits (d : bytes) : bytes → list bytes → Prop :=
  | splits_end : splits d [] []
  | splits_last s : s ≠ [] → (∀ m, (m <= length s)%nat → ¬ stands_at d s m) → splits d s [s]
  | splits_empty s ps : splits d s ps → splits d (d ++ s) ps
  | splits_piece p s ps :
      p ≠ [] → (∀ m, (m < length p)%nat → ¬ stands_at d (p ++ d ++ s) m) →
      splits d s ps → splits d (p ++ d ++ s) (p :: ps).

Lemma split_loop_spec fuel d s result :
  d ≠ [] → (length s < fuel)%nat → ∃ ps, split_loop fuel d s result = result ++ ps ∧ splits d s ps.
Proof.
  intros Hd. revert s result. induction fuel as [|fuel IH]; intros s result Hf; [lia|].
  cbn [split_loop]. destruct s as [|x s]; [exists []; split; [by rewrite app_nil_r|constructor]|].
  pose proof (find_sub_spec d (x :: s)) as Hs. destruct (find_sub d (x :: s)) as [n|].
  - destruct Hs as (H1 & H2 & H3).
    assert (0 < length d)%nat by (destruct d; [done|cbn; lia]).
    assert (E := stands_at_split d (x :: s) n H1).
    set (r' := if (0 <? n)%nat then result ++ [take n (x :: s)] else result).
    destruct (IH (drop (n + length d) (x :: s)) r') as (ps & E' & Hp).
    { rewrite length_drop. cbn [length] in *. lia. }
    rewrite E'. unfold r'. destruct (Nat.ltb_spec 0 n) as [Hn|Hn].
    + exists (take n (x :: s) :: ps). split; [by rewrite <- app_assoc|]. rewrite E at 1.
      apply splits_piece; [destruct n; [lia|done]| |done]. rewrite <- E. intros m Hm. apply H3.
      rewrite length_take in Hm. lia.
    + exists ps. split; [done|]. assert (n = 0%nat) as -> by lia.
      cbn [take app] in E. rewrite E at 1. by apply splits_empty.
  - exists [x :: s]. split; [done|]. by apply splits_last.
Qed.

(** [split] cuts a string at the delimiters found from the left and drops empty
    pieces, appending to the result it was given; the loop terminates. *)
Theorem split_correct (str delim : bytes) (result : list bytes) :
  default NUL (head delim) ≠ NUL →
  ∃ ps, split str delim result = result ++ ps ∧ splits delim str ps.
Proof.
  intros Hd. unfold split. destruct str as [|x str].
  { exists []. split; [by rewrite app_nil_r|constructor]. }
  rewrite decide_False by done. apply split_loop_spec; [by destruct delim|lia].
Qed.

Lemma split_correct_witness :
  split (lit "a::b:::c") (lit "::") [] = [lit "a"; lit "b"; lit ":c"] ∧
  ∃ ps, split (lit "a::b:::c") (lit "::") [] = [] ++ ps ∧ splits (lit "::") (lit "a::b:::c") ps.
Proof. split; [vm_compute; reflexivity|]. by apply (split_correct (lit "a::b:::c") (lit "::") []). Defined.

End RedisTools.
