(* ===== verification/StringUtil.v ===== *)
(** * String helpers ([src/common/StringUtility.cpp])

    A [std::string] is a list of bytes, a pointer to one an [option] (the null
    pointer is [None]). A read outside a table is [None]. *)

From S2P Require Import Prelude CLib HashSlot.
Import RedisTools.

Module StringUtility.

(** ** Definitions *)

(** [Split] is the code of [split] in RedisTools.cpp, line by line. *)
Definition Split : bytes → bytes → list bytes → list bytes := split.

Definition StartsWith (str prefix : bytes) : bool :=
  if (length str <? length prefix)%nat then false
  else bool_decide (take (length prefix) str = prefix).

Definition EndsWith (str suffix : bytes) : bool :=
  if (length str <? length suffix)%nat then false
  else bool_decide (drop (length str - length suffix) str = suffix).

Definition Ltrim (str : bytes) : bytes := (span c_isspace str).2.
Definition Rtrim (str : bytes) : bytes := reverse (span c_isspace (reverse str)).2.
Definition Trim (str : bytes) : bytes := Rtrim (Ltrim str).
Definition Trim_list (strList : option (list bytes)) : option (list bytes) :=
  match strList with None => None | Some l => Some (Trim <$> l) end.

(** The loop of [StringReplace] on what lies behind [pos]: [done] is the string
    up to [pos]. [None]: the loop has not ended within [fuel] rounds. *)
Fixpoint StringReplace_loop (fuel : nat) (subStr1 subStr2 done str : bytes) : option bytes :=
  match fuel with
  | O => None
  | S fuel' =>
      match find_sub subStr1 str with
      | None => Some (done ++ str)
      | Some pos =>
          StringReplace_loop fuel' subStr1 subStr2 (done ++ take pos str ++ subStr2)
            (drop (pos + length subStr1) str)
      end
  end.
Definition StringReplace (fuel : nat) (subStr1 subStr2 str : bytes) : option bytes :=
  StringReplace_loop fuel subStr1 subStr2 [] str.

(** The percent-encoding table: four entries for a character, the length of its
    encoding and up to three characters. *)
Definition ENCODECHARS : list Z := [
    3; 37; 48; 48; 3; 37; 48; 49; 3; 37; 48; 50; 3; 37; 48; 51; 3; 37; 48; 52; 3; 37; 48; 53;
    3; 37; 48; 54; 3; 37; 48; 55; 3; 37; 48; 56; 3; 37; 48; 57; 3; 37; 48; 65; 3; 37; 48; 66;
    3; 37; 48; 67; 3; 37; 48; 68; 3; 37; 48; 69; 3; 37; 48; 70; 3; 37; 49; 48; 3; 37; 49; 49;
    3; 37; 49; 50; 3; 37; 49; 51; 3; 37; 49; 52; 3; 37; 49; 53; 3; 37; 49; 54; 3; 37; 49; 55;
    3; 37; 49; 56; 3; 37; 49; 57; 3; 37; 49; 65; 3; 37; 49; 66; 3; 37; 49; 67; 3; 37; 49; 68;
    3; 37; 49; 69; 3; 37; 49; 70; 1; 43; 50; 48; 3; 37; 50; 49; 3; 37; 50; 50; 3; 37; 50; 51;
    3; 37; 50; 52; 3; 37; 50; 53; 3; 37; 50; 54; 3; 37; 50; 55; 3; 37; 50; 56; 3; 37; 50; 57;
    3; 37; 50; 65; 3; 37; 50; 66; 3; 37; 50; 67; 1; 45; 50; 68; 1; 46; 50; 69; 3; 37; 50; 70;
    1; 48; 51; 48; 1; 49; 51; 49; 1; 50; 51; 50; 1; 51; 51; 51; 1; 52; 51; 52; 1; 53; 51; 53;
    1; 54; 51; 54; 1; 55; 51; 55; 1; 56; 51; 56; 1; 57; 51; 57; 3; 37; 51; 65; 3; 37; 51; 66;
    3; 37; 51; 67; 3; 37; 51; 68; 3; 37; 51; 69; 3; 37; 51; 70; 3; 37; 52; 48; 1; 65; 52; 49;
    1; 66; 52; 50; 1; 67; 52; 51; 1; 68; 52; 52; 1; 69; 52; 53; 1; 70; 52; 54; 1; 71; 52; 55;
    1; 72; 52; 56; 1; 73; 52; 57; 1; 74; 52; 65; 1; 75; 52; 66; 1; 76; 52; 67; 1; 77; 52; 68;
    1; 78; 52; 69; 1; 79; 52; 70; 1; 80; 53; 48; 1; 81; 53; 49; 1; 82; 53; 50; 1; 83; 53; 51;
    1; 84; 53; 52; 1; 85; 53; 53; 1; 86; 53; 54; 1; 87; 53; 55; 1; 88; 53; 56; 1; 89; 53; 57;
    1; 90; 53; 65; 3; 37; 53; 66; 3; 37; 53; 67; 3; 37; 53; 68; 3; 37; 53; 69; 1; 95; 53; 70;
    3; 37; 54; 48; 1; 97; 54; 49; 1; 98; 54; 50; 1; 99; 54; 51; 1; 100; 54; 52; 1; 101; 54; 53;
    1; 102; 54; 54; 1; 103; 54; 55; 1; 104; 54; 56; 1; 105; 54; 57; 1; 106; 54; 65; 1; 107; 54; 66;
    1; 108; 54; 67; 1; 109; 54; 68; 1; 110; 54; 69; 1; 111; 54; 70; 1; 112; 55; 48; 1; 113; 55; 49;
    1; 114; 55; 50; 1; 115; 55; 51; 1; 116; 55; 52; 1; 117; 55; 53; 1; 118; 55; 54; 1; 119; 55; 55;
    1; 120; 55; 56; 1; 121; 55; 57; 1; 122; 55; 65; 3; 37; 55; 66; 3; 37; 55; 67; 3; 37; 55; 68;
    1; 126; 55; 69; 3; 37; 55; 70; 3; 37; 56; 48; 3; 37; 56; 49; 3; 37; 56; 50; 3; 37; 56; 51;
    3; 37; 56; 52; 3; 37; 56; 53; 3; 37; 56; 54; 3; 37; 56; 55; 3; 37; 56; 56; 3; 37; 56; 57;
    3; 37; 56; 65; 3; 37; 56; 66; 3; 37; 56; 67; 3; 37; 56; 68; 3; 37; 56; 69; 3; 37; 56; 70;
    3; 37; 57; 48; 3; 37; 57; 49; 3; 37; 57; 50; 3; 37; 57; 51; 3; 37; 57; 52; 3; 37; 57; 53;
    3; 37; 57; 54; 3; 37; 57; 55; 3; 37; 57; 56; 3; 37; 57; 57; 3; 37; 57; 65; 3; 37; 57; 66;
    3; 37; 57; 67; 3; 37; 57; 68; 3; 37; 57; 69; 3; 37; 57; 70; 3; 37; 65; 48; 3; 37; 65; 49;
    3; 37; 65; 50; 3; 37; 65; 51; 3; 37; 65; 52; 3; 37; 65; 53; 3; 37; 65; 54; 3; 37; 65; 55;
    3; 37; 65; 56; 3; 37; 65; 57; 3; 37; 65; 65; 3; 37; 65; 66; 3; 37; 65; 67; 3; 37; 65; 68;
    3; 37; 65; 69; 3; 37; 65; 70; 3; 37; 66; 48; 3; 37; 66; 49; 3; 37; 66; 50; 3; 37; 66; 51;
    3; 37; 66; 52; 3; 37; 66; 53; 3; 37; 66; 54; 3; 37; 66; 55; 3; 37; 66; 56; 3; 37; 66; 57;
    3; 37; 66; 65; 3; 37; 66; 66; 3; 37; 66; 67; 3; 37; 66; 68; 3; 37; 66; 69; 3; 37; 66; 70;
    3; 37; 67; 48; 3; 37; 67; 49; 3; 37; 67; 50; 3; 37; 67; 51; 3; 37; 67; 52; 3; 37; 67; 53;
    3; 37; 67; 54; 3; 37; 67; 55; 3; 37; 67; 56; 3; 37; 67; 57; 3; 37; 67; 65; 3; 37; 67; 66;
    3; 37; 67; 67; 3; 37; 67; 68; 3; 37; 67; 69; 3; 37; 67; 70; 3; 37; 68; 48; 3; 37; 68; 49;
    3; 37; 68; 50; 3; 37; 68; 51; 3; 37; 68; 52; 3; 37; 68; 53; 3; 37; 68; 54; 3; 37; 68; 55;
    3; 37; 68; 56; 3; 37; 68; 57; 3; 37; 68; 65; 3; 37; 68; 66; 3; 37; 68; 67; 3; 37; 68; 68;
    3; 37; 68; 69; 3; 37; 68; 70; 3; 37; 69; 48; 3; 37; 69; 49; 3; 37; 69; 50; 3; 37; 69; 51;
    3; 37; 69; 52; 3; 37; 69; 53; 3; 37; 69; 54; 3; 37; 69; 55; 3; 37; 69; 56; 3; 37; 69; 57;
    3; 37; 69; 65; 3; 37; 69; 66; 3; 37; 69; 67; 3; 37; 69; 68; 3; 37; 69; 69; 3; 37; 69; 70;
    3; 37; 70; 48; 3; 37; 70; 49; 3; 37; 70; 50; 3; 37; 70; 51; 3; 37; 70; 52; 3; 37; 70; 53;
    3; 37; 70; 54; 3; 37; 70; 55; 3; 37; 70; 56; 3; 37; 70; 57; 3; 37; 70; 65; 3; 37; 70; 66;
    3; 37; 70; 67; 3; 37; 70; 68; 3; 37; 70; 69; 3; 37; 70; 70 ].

Definition HEX2DEC : list Z := [
    (-1); (-1); (-1); (-1); (-1); (-1); (-1); (-1); (-1); (-1); (-1); (-1); (-1); (-1); (-1); (-1);
    (-1); (-1); (-1); (-1); (-1); (-1); (-1); (-1); (-1); (-1); (-1); (-1); (-1); (-1); (-1); (-1);
    (-1); (-1); (-1); (-1); (-1); (-1); (-1); (-1); (-1); (-1); (-1); (-1); (-1); (-1); (-1); (-1);
    0; 1; 2; 3; 4; 5; 6; 7; 8; 9; (-1); (-1); (-1); (-1); (-1); (-1);
    (-1); 10; 11; 12; 13; 14; 15; (-1); (-1); (-1); (-1); (-1); (-1); (-1); (-1); (-1);
    (-1); (-1); (-1); (-1); (-1); (-1); (-1); (-1); (-1); (-1); (-1); (-1); (-1); (-1); (-1); (-1);
    (-1); 10; 11; 12; 13; 14; 15; (-1); (-1); (-1); (-1); (-1); (-1); (-1); (-1); (-1);
    (-1); (-1); (-1); (-1); (-1); (-1); (-1); (-1); (-1); (-1); (-1); (-1); (-1); (-1); (-1); (-1);
    (-1); (-1); (-1); (-1); (-1); (-1); (-1); (-1); (-1); (-1); (-1); (-1); (-1); (-1); (-1); (-1);
    (-1); (-1); (-1); (-1); (-1); (-1); (-1); (-1); (-1); (-1); (-1); (-1); (-1); (-1); (-1); (-1);
    (-1); (-1); (-1); (-1); (-1); (-1); (-1); (-1); (-1); (-1); (-1); (-1); (-1); (-1); (-1); (-1);
    (-1); (-1); (-1); (-1); (-1); (-1); (-1); (-1); (-1); (-1); (-1); (-1); (-1); (-1); (-1); (-1);
    (-1); (-1); (-1); (-1); (-1); (-1); (-1); (-1); (-1); (-1); (-1); (-1); (-1); (-1); (-1); (-1);
    (-1); (-1); (-1); (-1); (-1); (-1); (-1); (-1); (-1); (-1); (-1); (-1); (-1); (-1); (-1); (-1);
    (-1); (-1); (-1); (-1); (-1); (-1); (-1); (-1); (-1); (-1); (-1); (-1); (-1); (-1); (-1); (-1);
    (-1); (-1); (-1); (-1); (-1); (-1); (-1); (-1); (-1); (-1); (-1); (-1); (-1); (-1); (-1); (-1) ].

(** What one character appends to [dstStr]. [srcStr[i] * 4] is computed in [int]
    from a signed [char]. *)
Definition UrlEncode_char (b : byte) : option bytes :=
  let offset := Z.to_nat (u16 (schar b * 4)) in
  n ← ENCODECHARS !! offset;
  mapM (λ i, to_byte <$> ENCODECHARS !! (offset + 1 + i)%nat) (seq 0 (Z.to_nat n)).
Definition UrlEncode (srcStr : bytes) : option bytes := mjoin <$> mapM UrlEncode_char srcStr.

Definition hex2dec (b : byte) : Z := nth (Z.to_nat (uchar b)) HEX2DEC (-1).

(** Both loops of [UrlDecode]: the first one runs while three characters are
    left, the second one copies the rest. *)
Fixpoint UrlDecode (src : bytes) : bytes :=
  match src with
  | a :: ((b :: ((c :: src3) as src2)) as src1) =>
      if decide (a = "%"%byte) then
        if decide (hex2dec b ≠ -1 ∧ hex2dec c ≠ -1) then
          to_byte (Z.shiftl (hex2dec b) 4 + hex2dec c) :: UrlDecode src3
        else a :: UrlDecode src1
      else if decide (a = "+"%byte) then " "%byte :: UrlDecode src1
      else a :: UrlDecode src1
  | _ => src
  end.

(** [::toupper] and [::tolower] in the "C" locale. *)
Definition c_toupper (b : byte) : byte :=
  if (97 <=? uchar b) && (uchar b <=? 122) then to_byte (uchar b - 32) else b.
Definition c_tolower (b : byte) : byte :=
  if (65 <=? uchar b) && (uchar b <=? 90) then to_byte (uchar b + 32) else b.
Definition ToUpper (str : bytes) : bytes := c_toupper <$> str.
Definition ToLower (str : bytes) : bytes := c_tolower <$> str.

Definition StripSuffix (str suffix : bytes) : bool * bytes :=
  if (length suffix <=? length str)%nat then
    let suffixPos := (length str - length suffix)%nat in
    if decide (drop suffixPos str = suffix) then (true, take (length str - length suffix) str)
    else (false, str)
  else (false, str).

Definition StripPrefix (str prefix : bytes) : bool * bytes :=
  if (length prefix <=? length str)%nat then
    if decide (take (length prefix) str = prefix) then (true, drop (length prefix) str)
    else (false, str)
  else (false, str).

(** The macros [ASCII2DEC] ([None]: return false) and [DEC2ASCII]. *)
Definition ASCII2DEC (c : byte) : option Z :=
  let z := uchar c in
  if (48 <=? z) && (z <=? 57) then Some (z - 48)
  else if (65 <=? z) && (z <=? 70) then Some (z - (65 - 10))
  else if (97 <=? z) && (z <=? 102) then Some (z - (97 - 10))
  else None.
Definition DEC2ASCII (z : Z) : byte := to_byte (if z <=? 9 then z + 48 else z + (65 - 10)).

(** The loop of [Hex2Bin] on the characters from [hexStr]; the end of the list
    is the terminator. *)
Fixpoint Hex2Bin_loop (hexStr binStr : bytes) : bool * bytes :=
  match hexStr with
  | [] => (true, binStr)
  | a :: rest =>
      if decide (a = NUL) then (true, binStr)
      else match rest with
      | [] => (false, binStr)
      | b :: hexStr' =>
          if decide (b = NUL) then (false, binStr)
          else match ASCII2DEC a, ASCII2DEC b with
          | Some high, Some low =>
              Hex2Bin_loop hexStr' (binStr ++ [to_byte (Z.shiftl high 4 + low)])
          | _, _ => (false, binStr)
          end
      end
  end.
Definition Hex2Bin (hexStr binStr : option bytes) : bool * option bytes :=
  match hexStr, binStr with
  | Some h, Some _ => let '(ok, bin) := Hex2Bin_loop h [] in (ok, Some bin)
  | _, _ => (false, binStr)
  end.

(** [Bin2Hex] of the [binLen] bytes at [binStr]. *)
Definition Bin2Hex_byte (b : byte) : bytes :=
  [DEC2ASCII (Z.shiftr (uchar b) 4); DEC2ASCII (Z.land (uchar b) 0xF)].
Definition Bin2Hex (binStr hexStr : option bytes) : bool * option bytes :=
  match binStr, hexStr with
  | Some s, Some _ => (true, Some (foldl (λ hex b, hex ++ Bin2Hex_byte b) [] s))
  | _, _ => (false, hexStr)
  end.

(** ** URL encoding *)

(** A test that all bytes pass, by evaluation. *)
Lemma bytes_check (f : byte → bool) : forallb (λ z, f (to_byte z)) (seqZ 0 256) = true → ∀ b, f b = true.
Proof.
  rewrite forallb_forall. intros Hall b. rewrite <- (to_byte_uchar b). apply Hall.
  apply list_elem_of_In, elem_of_seqZ. pose proof (uchar_range b). lia.
Qed.

(** How one character is encoded. *)
Definition encoded_as (b : byte) (e : bytes) : bool :=
  match e with
  | [x] => bool_decide (x ≠ "%"%byte ∧ ((x = b ∧ x ≠ "+"%byte) ∨ (x = "+"%byte ∧ b = " "%byte)))
  | [p; h; l] =>
      bool_decide (p = "%"%byte ∧ h ≠ "+"%byte ∧ l ≠ "+"%byte ∧ hex2dec h ≠ -1 ∧ hex2dec l ≠ -1 ∧
                   to_byte (Z.shiftl (hex2dec h) 4 + hex2dec l) = b)
  | _ => false
  end.

Definition encodes (b : byte) : bool :=
  match UrlEncode_char b with
  | Some e => (uchar b <? 128) && encoded_as b e
  | None => negb (uchar b <? 128)
  end.

Lemma UrlEncode_char_spec b :
  if decide (uchar b < 128) then ∃ e, UrlEncode_char b = Some e ∧ encoded_as b e = true
  else UrlEncode_char b = None.
Proof.
  assert (H : encodes b = true) by (revert b; apply bytes_check; by vm_compute).
  unfold encodes in H. destruct (UrlEncode_char b) as [e|]; case_decide; [|lia|lia|done].
  exists e. split; [done|]. by apply andb_true_iff in H as [_ H].
Qed.

(** The last two characters. *)
Definition last2 (l : bytes) : bytes := drop (length l - 2) l.

Lemma last2_cons x l : (2 <= length l)%nat → last2 (x :: l) = last2 l.
Proof. intros H. unfold last2. cbn [length]. by replace (S (length l) - 2)%nat with (S (length l - 2)) by lia. Qed.

Lemma UrlDecode_short l : (length l <= 2)%nat → UrlDecode l = l.
Proof. by destruct l as [|? [|? [|??]]]; cbn [length]; [..|lia]. Qed.

(** Decoding one encoded character. *)
Lemma UrlDecode_encoded b e l s :
  encoded_as b e = true → (UrlDecode l = s ↔ "+"%byte ∉ last2 l) →
  (UrlDecode (e ++ l) = b :: s ↔ "+"%byte ∉ last2 (e ++ l)).
Proof.
  intros He IH. destruct e as [|x [|h [|y [|]]]]; try done; cbn [encoded_as] in He; cbn [app];
    apply bool_decide_eq_true in He.
  - destruct (decide (2 <= length l)%nat) as [Hl|Hl].
    + rewrite last2_cons by done. destruct l as [|a [|a' l]]; [cbn in Hl; lia..|].
      destruct He as [Hp [[-> Hx]|[-> ->]]]; cbn [UrlDecode]; rewrite (decide_False (P := _ = "%"%byte)) by done.
      * rewrite decide_False by done. rewrite <- IH. naive_solver.
      * rewrite decide_True by done. rewrite <- IH. naive_solver.
    + rewrite UrlDecode_short by (cbn; lia). rewrite UrlDecode_short in IH by lia.
      unfold last2 in *. replace (length l - 2)%nat with 0%nat in IH by lia.
      replace (length (x :: l) - 2)%nat with 0%nat by (cbn; lia). rewrite drop_0 in *.
      rewrite not_elem_of_cons, <- IH. destruct He as [Hp [[-> Hx]|[-> ->]]]; [naive_solver|].
      split; [intros [=]|by intros [? _]].
  - destruct He as (-> & Hh & Hy & H1 & H2 & Hb). cbn [UrlDecode].
    rewrite decide_True by done. rewrite decide_True by done. rewrite Hb.
    assert (Hl : "+"%byte ∉ last2 ("%"%byte :: h :: y :: l) ↔ "+"%byte ∉ last2 l).
    { rewrite last2_cons by (cbn; lia). unfold last2.
      destruct l as [|a [|a' l]]; cbn; rewrite ?not_elem_of_cons, ?Nat.sub_0_r; set_solver. }
    rewrite Hl, <- IH. naive_solver.
Qed.

Lemma UrlEncode_decode s :
  Forall (λ b, uchar b < 128) s →
  ∃ e, UrlEncode s = Some e ∧ (UrlDecode e = s ↔ "+"%byte ∉ last2 e).
Proof.
  induction 1 as [|b s Hb _ (e & He & IH)].
  { exists []. split; [done|]. cbn. set_solver. }
  pose proof (UrlEncode_char_spec b) as Hc. rewrite decide_True in Hc by done.
  destruct Hc as (e1 & E1 & He1). unfold UrlEncode in *. cbn [mapM]. rewrite E1.
  destruct (mapM UrlEncode_char s) as [es|]; [|done]. cbn in He |- *. simplify_eq.
  eexists. split; [done|]. by apply UrlDecode_encoded.
Qed.

Lemma UrlEncode_outside s : forallb (λ b, uchar b <? 128) s = false → UrlEncode s = None.
Proof.
  unfold UrlEncode. induction s as [|b s IH]; [done|]. cbn [forallb mapM].
  pose proof (UrlEncode_char_spec b) as Hc. destruct (Z.ltb_spec (uchar b) 128) as [Hb|Hb]; cbn [andb].
  - intros H%IH. destruct (UrlEncode_char b); [|done]. cbn.
    by destruct (mapM UrlEncode_char s).
  - intros _. rewrite decide_False in Hc by lia. by rewrite Hc.
Qed.

(** Seven-bit text is encoded without leaving the table and [UrlDecode] inverts
    it exactly when the encoding has no plus sign among its last two characters,
    where the decoder copies it; text with an eighth bit makes the encoder read
    outside its table. *)
Theorem url_roundtrip (s : bytes) :
  if forallb (λ b, uchar b <? 128) s then
    ∃ e, UrlEncode s = Some e ∧ (UrlDecode e = s ↔ "+"%byte ∉ last2 e)
  else UrlEncode s = None.
Proof.
  destruct (forallb _ s) eqn:E.
  - apply UrlEncode_decode. rewrite Forall_forall. intros b Hb%list_elem_of_In.
    rewrite forallb_forall in E. apply E in Hb. lia.
  - by apply UrlEncode_outside.
Qed.

(** ** Hexadecimal text *)

Definition hex_byte_ok (b : byte) : bool :=
  match Bin2Hex_byte b with
  | [h; l] =>
      bool_decide (h ≠ NUL ∧ l ≠ NUL) &&
      match ASCII2DEC h, ASCII2DEC l with
      | Some hi, Some lo => bool_decide (to_byte (Z.shiftl hi 4 + lo) = b)
      | _, _ => false
      end
  | _ => false
  end.

Lemma Hex2Bin_byte b hex bin : Hex2Bin_loop (Bin2Hex_byte b ++ hex) bin = Hex2Bin_loop hex (bin ++ [b]).
Proof.
  assert (H : hex_byte_ok b = true) by (revert b; apply bytes_check; by vm_compute).
  unfold hex_byte_ok in H. unfold Bin2Hex_byte in *. cbn [app Hex2Bin_loop].
  apply andb_true_iff in H as [[Hh Hl]%bool_decide_eq_true H]. rewrite !decide_False by done.
  destruct (ASCII2DEC _); [|done]. destruct (ASCII2DEC _); [|done].
  apply bool_decide_eq_true in H. by rewrite H.
Qed.

Lemma Bin2Hex_bytes s acc :
  foldl (λ hex b, hex ++ Bin2Hex_byte b) acc s = acc ++ mjoin (Bin2Hex_byte <$> s).
Proof.
  revert acc. induction s as [|b s IH]; intros acc; cbn [foldl]; [by rewrite app_nil_r|].
  by rewrite IH, <- app_assoc.
Qed.

Lemma Hex2Bin_Bin2Hex s bin : Hex2Bin_loop (mjoin (Bin2Hex_byte <$> s)) bin = (true, bin ++ s).
Proof.
  revert bin. induction s as [|b s IH]; intros bin; [by rewrite app_nil_r|].
  rewrite fmap_cons. cbn [mjoin list_join]. by rewrite Hex2Bin_byte, IH, <- app_assoc.
Qed.

Lemma length_Bin2Hex s : length (mjoin (Bin2Hex_byte <$> s)) = (2 * length s)%nat.
Proof. induction s as [|b s IH]; [done|]. change (S (S (length (mjoin (Bin2Hex_byte <$> s)))) = 2 * S (length s))%nat. lia. Qed.

(** A text [Hex2Bin] accepts: pairs of hexadecimal digits. *)
Fixpoint hex_pairs (l : bytes) : bool :=
  match l with
  | [] => true
  | a :: b :: l' => bool_decide (is_Some (ASCII2DEC a)) && bool_decide (is_Some (ASCII2DEC b)) && hex_pairs l'
  | _ => false
  end.

Lemma ASCII2DEC_NUL a : is_Some (ASCII2DEC a) → a ≠ NUL.
Proof. intros H ->. cbn in H. by destruct H. Qed.

Lemma Hex2Bin_accepts n l bin : (length l <= n)%nat → NUL ∉ l → (Hex2Bin_loop l bin).1 = hex_pairs l.
Proof.
  revert l bin. induction n as [|n IH]; intros l bin Hn Hl.
  { by destruct l; [|cbn in Hn; lia]. }
  destruct l as [|a [|b l]]; [done| |]; cbn [Hex2Bin_loop hex_pairs]; rewrite !not_elem_of_cons in Hl.
  - by rewrite decide_False by naive_solver.
  - rewrite !decide_False by naive_solver. cbn in Hn.
    destruct (ASCII2DEC a); [|done]. destruct (ASCII2DEC b); [|done]. cbn. apply IH; [lia|naive_solver].
Qed.

(** [Hex2Bin] of the text [Bin2Hex] writes gives back every byte string, and
    [Hex2Bin] accepts a text without terminator exactly when it consists of pairs
    of hexadecimal digits. *)
Theorem hex_roundtrip :
  (∀ s old old', ∃ hex, Bin2Hex (Some s) (Some old) = (true, Some hex) ∧
                        length hex = (2 * length s)%nat ∧
                        Hex2Bin (Some hex) (Some old') = (true, Some s)) ∧
  (∀ hex old, NUL ∉ hex → (Hex2Bin (Some hex) (Some old)).1 = hex_pairs hex).
Proof.
  split.
  - intros s old old'. exists (mjoin (Bin2Hex_byte <$> s)). unfold Bin2Hex, Hex2Bin.
    rewrite Bin2Hex_bytes. split; [done|]. split; [|by rewrite Hex2Bin_Bin2Hex].
    apply length_Bin2Hex.
  - intros hex old Hn. unfold Hex2Bin. rewrite <- (Hex2Bin_accepts (length hex) hex []) by done.
    by destruct (Hex2Bin_loop hex []).
Qed.

(** ** Affixes and trimming *)

(** Prefixes and suffixes: [StripPrefix] and [StripSuffix] succeed exactly when
    the string has the affix, and leave the rest of it (the string unchanged when
    they fail); [StartsWith] and [EndsWith] are the same tests. *)
Lemma strip_affixes (str affix : bytes) :
  (∀ rest, StripPrefix str affix = (true, rest) ↔ str = affix ++ rest) ∧
  (∀ rest, StripSuffix str affix = (true, rest) ↔ str = rest ++ affix) ∧
  (StartsWith str affix = (StripPrefix str affix).1 ∧ EndsWith str affix = (StripSuffix str affix).1) ∧
  (∀ rest, StripPrefix str affix = (false, rest) ∨ StripSuffix str affix = (false, rest) → rest = str).
Proof.
  unfold StripPrefix, StripSuffix, StartsWith, EndsWith. split_and!.
  - intros rest. destruct (Nat.leb_spec (length affix) (length str)).
    + case_decide as E; split; intros H'; simplify_eq.
      * rewrite <- E at 1. by rewrite take_drop.
      * by rewrite drop_app_length.
      * by rewrite take_app_length in E.
    + split; [done|]. intros ->. rewrite length_app in *. lia.
  - intros rest. destruct (Nat.leb_spec (length affix) (length str)).
    + case_decide as E; split; intros H'; simplify_eq.
      * rewrite <- (take_drop (length str - length affix) str) at 1. by rewrite E.
      * f_equal. apply take_app_length'. rewrite length_app. lia.
      * destruct E. apply drop_app_length'. rewrite length_app. lia.
    + split; [done|]. intros ->. rewrite length_app in *. lia.
  - destruct (Nat.leb_spec (length affix) (length str)), (Nat.ltb_spec (length str) (length affix)); try lia; [|done].
    case_decide; [by apply bool_decide_eq_true|by apply bool_decide_eq_false].
  - destruct (Nat.leb_spec (length affix) (length str)), (Nat.ltb_spec (length str) (length affix)); try lia; [|done].
    case_decide; [by apply bool_decide_eq_true|by apply bool_decide_eq_false].
  - intros rest. destruct (length affix <=? length str)%nat; repeat case_decide; naive_solver.
Qed.

Lemma Ltrim_spec s :
  ∃ l, s = l ++ Ltrim s ∧ Forall (λ b, c_isspace b = true) l ∧
       (∀ b, head (Ltrim s) = Some b → c_isspace b = false).
Proof.
  unfold Ltrim. induction s as [|x s (l & E & Hl & Hh)]; [by exists []|]. cbn [span].
  destruct (c_isspace x) eqn:Hx; [|exists []; naive_solver].
  destruct (span c_isspace s) as [a b]. cbn [snd] in *. exists (x :: l). rewrite E at 1. eauto.
Qed.

Lemma Rtrim_spec s :
  ∃ r, s = Rtrim s ++ r ∧ Forall (λ b, c_isspace b = true) r ∧
       (∀ b, last (Rtrim s) = Some b → c_isspace b = false).
Proof.
  unfold Rtrim. destruct (Ltrim_spec (reverse s)) as (l & E & Hl & Hh). unfold Ltrim in *.
  exists (reverse l). split_and!.
  - by rewrite <- reverse_app, <- E, reverse_involutive.
  - by apply Forall_reverse.
  - intros b. rewrite last_reverse. apply Hh.
Qed.

(** [Trim] removes exactly the white space at both ends: the string is its
    result between two stretches of white space, and the result neither begins nor
    ends with a white-space character. *)
Lemma trim_exact (s : bytes) :
  ∃ l r, s = l ++ Trim s ++ r ∧
    Forall (λ b, c_isspace b = true) l ∧ Forall (λ b, c_isspace b = true) r ∧
    (∀ b, head (Trim s) = Some b ∨ last (Trim s) = Some b → c_isspace b = false).
Proof.
  destruct (Ltrim_spec s) as (l & E & Hl & Hh). unfold Trim.
  destruct (Rtrim_spec (Ltrim s)) as (r & E' & Hr & Ht). exists l, r. split_and!; [|done..|].
  - by rewrite <- E'.
  - intros b [Hb|Hb]; [|by apply Ht]. apply Hh. rewrite E'. by destruct (Rtrim (Ltrim s)).
Qed.

(** ** Replacement *)

(** [s'] is [s] with the occurrences of [d] found from the left replaced. *)
Inductive replaced (d r : bytes) : bytes → bytes → Prop :=
  | replaced_rest s : (∀ m, (m <= length s)%nat → ¬ stands_at d s m) → replaced d r s s
  | replaced_one p s s' :
      (∀ m, (m < length p)%nat → ¬ stands_at d (p ++ d ++ s) m) →
      replaced d r s s' → replaced d r (p ++ d ++ s) (p ++ r ++ s').

Lemma StringReplace_loop_spec fuel d r pre s :
  d ≠ [] → (length s < fuel)%nat →
  ∃ s', StringReplace_loop fuel d r pre s = Some (pre ++ s') ∧ replaced d r s s'.
Proof.
  intros Hd. revert pre s. induction fuel as [|fuel IH]; intros pre s Hf; [lia|].
  cbn [StringReplace_loop]. pose proof (find_sub_spec d s) as Hs. destruct (find_sub d s) as [n|].
  - destruct Hs as (H1 & H2 & H3). assert (E := stands_at_split d s n H1).
    assert (0 < length d)%nat by (destruct d; [done|cbn; lia]).
    destruct (IH (pre ++ take n s ++ r) (drop (n + length d) s)) as (s' & E' & Hr).
    { assert (length s = length (take n s ++ d ++ drop (n + length d) s)) as El by (by rewrite <- E).
      rewrite !length_app in El. lia. }
    exists (take n s ++ r ++ s'). split; [by rewrite E', <- !app_assoc|].
    rewrite E at 1. apply replaced_one; [|done]. rewrite <- E. intros m Hm. apply H3.
    rewrite length_take in Hm. lia.
  - exists s. split; [done|]. by constructor.
Qed.

(** Replacing the empty string never ends. *)
Lemma replace_empty_diverges fuel r pre s : StringReplace_loop fuel [] r pre s = None.
Proof.
  revert pre s. induction fuel as [|fuel IH]; intros pre s; [done|]. cbn [StringReplace_loop].
  assert (find_sub [] s = Some 0%nat) as -> by (by destruct s). apply IH.
Qed.

(** [StringReplace] terminates for every non-empty pattern and replaces the
    occurrences found from the left without looking at what it inserted; for the
    empty pattern it never ends. *)
Theorem string_replace (d r s : bytes) :
  if decide (d = []) then ∀ fuel, StringReplace fuel d r s = None
  else ∃ s', StringReplace (S (length s)) d r s = Some s' ∧ replaced d r s s'.
Proof.
  unfold StringReplace. case_decide as Hd; [subst; intros; apply replace_empty_diverges|].
  apply (StringReplace_loop_spec _ d r []); [done|lia].
Qed.

Example replace_evaluates :
  StringReplace 8 (lit "ab") (lit "cab") (lit "abxab") = Some (lit "cabxcab").
Proof. vm_compute. reflexivity. Qed.

End StringUtility.
