(* ===== verification/Atomic.v ===== *)
(** * Atomic counters ([src/common/Atomic.h])

    [AtomicIntegerT<T>] on the gcc builtins: every operation is one indivisible
    step on the cell. [wr] is the conversion to [T], so [u64] for
    [AtomicIntegerT<uint64_t>] and [s64] for [AtomicInt64]. *)

From S2P Require Import Prelude.

Section AtomicIntegerT.
Variable wr : Z → Z.

Definition get : St Z Z := λ value_, (value_, if value_ =? 0 then 0 else value_).
Definition getAndAdd (x : Z) : St Z Z := λ value_, (value_, wr (value_ + x)).
Definition addAndGet (x : Z) : St Z Z := v ← getAndAdd x; mret (wr (v + x)).
Definition incrementAndGet : St Z Z := addAndGet 1.
Definition decrementAndGet : St Z Z := addAndGet (wr (-1)).
Definition add (x : Z) : St Z () := _ ← getAndAdd x; mret ().
Definition increment : St Z () := _ ← incrementAndGet; mret ().
Definition decrement : St Z () := _ ← decrementAndGet; mret ().
Definition getAndSet (newValue : Z) : St Z Z := λ value_, (value_, newValue).

Lemma get_run v : get v = (v, v).
Proof. unfold get. destruct (Z.eqb_spec v 0); by subst. Qed.

Lemma addAndGet_run x v : addAndGet x v = (wr (v + x), wr (v + x)).
Proof. done. Qed.

Lemma incrementAndGet_run v : incrementAndGet v = (wr (v + 1), wr (v + 1)).
Proof. done. Qed.

End AtomicIntegerT.

(** A decrement is a subtraction of one whatever the representation of -1. *)
Lemma decrementAndGet_s64 v : in_s 64 (v - 1) → decrementAndGet s64 v = (v - 1, v - 1).
Proof.
  intros Hv. unfold decrementAndGet. rewrite addAndGet_run, (wrap_s_id 64 (-1)) by done.
  by rewrite wrap_s_id.
Qed.

Lemma decrementAndGet_u64 v : 1 <= v < 2 ^ 64 → decrementAndGet u64 v = (v - 1, v - 1).
Proof.
  intros Hv. unfold decrementAndGet. rewrite addAndGet_run.
  assert (E : u64 (v + u64 (-1)) = v - 1) by (unfold wrap_u; dlia).
  by rewrite E.
Qed.
