(* ===== verification/SpeedControl.v ===== *)
(** * Rate limiting and statistics ([src/speedcontrol])

    [ControlSpeed] counts calls and refuses those beyond [maxSpeed_] since the
    last reset; [SpeedData] counts events; [DataStatistics] keeps a vector of
    each, indexed by the modules of the program. The objects are used from many
    threads without locks: besides the sequential functions, their atomic steps
    are a transition system over any number of threads. *)

From S2P Require Import Prelude Atomic.

Module SpeedControl.

(** ** [ControlSpeed] *)

Record ControlSpeed := { maxSpeed_ : Z; lastCounNum_ : Z; allCountNum_ : Z }.
#[export] Instance eta_ControlSpeed : Eta ControlSpeed := λ r,
  {| maxSpeed_ := r.(maxSpeed_); lastCounNum_ := r.(lastCounNum_);
     allCountNum_ := r.(allCountNum_) |}.

Definition ControlSpeed_new (maxSpeed : Z) : ControlSpeed :=
  {| maxSpeed_ := u64 maxSpeed; lastCounNum_ := 0; allCountNum_ := 0 |}.

(** What [speedCount] answers once it has [nowCount] and has read [lastCounNum_]. *)
Definition speed_verdict (maxSpeed nowCount last : Z) : Z :=
  let nowSpeed := u64 (nowCount - last) in
  if negb (maxSpeed =? 0) && (maxSpeed <? nowSpeed) then -1 else 0.

Definition speedCount : St ControlSpeed Z := λ this,
  let '(nowCount, v) := incrementAndGet u64 this.(allCountNum_) in
  let this := this <| allCountNum_ := v |> in
  (speed_verdict this.(maxSpeed_) nowCount this.(lastCounNum_), this).

Definition everySeondReset : St ControlSpeed () := λ this,
  let '(v, c) := get this.(allCountNum_) in
  ((), this <| allCountNum_ := c |> <| lastCounNum_ := v |>).

(** ** [SpeedData] *)

Record SpeedData := { data_last : Z; data_all : Z }.
#[export] Instance eta_SpeedData : Eta SpeedData := λ r,
  {| data_last := r.(data_last); data_all := r.(data_all) |}.

Definition SpeedData_new : SpeedData := {| data_last := 0; data_all := 0 |}.

Definition data_speedCount : St SpeedData () := λ this,
  let '(_, v) := increment u64 this.(data_all) in ((), this <| data_all := v |>).

(** [everySecondSpeed]: the speed, and [*allnum]. *)
Definition everySecondSpeed : St SpeedData (Z * Z) := λ this,
  let '(all, v) := get this.(data_all) in
  let speed := s32 (all - this.(data_last)) in
  ((speed, all), this <| data_all := v |> <| data_last := all |>).

(** ** [DataStatistics]

    A vector element is a null or an owning pointer. *)
Record DataStatistics :=
  { controlSpeedVec : list (option ControlSpeed); speedDataVec : list (option SpeedData) }.
#[export] Instance eta_DataStatistics : Eta DataStatistics := λ r,
  {| controlSpeedVec := r.(controlSpeedVec); speedDataVec := r.(speedDataVec) |}.

Definition DataStatistics_new : DataStatistics :=
  {| controlSpeedVec := []; speedDataVec := [] |}.

(** The growth of both vectors; [v[index]] out of range is undefined. *)
Definition index_init {A} (v : list (option A)) (index : Z) (x : A) : option (list (option A)) :=
  let vectSize := s32 (Z.of_nat (length v)) in
  let vectSize := if vectSize <=? index then s32 (s32 (index - vectSize) + 1) else vectSize in
  let v := v ++ replicate (Z.to_nat vectSize) None in
  if decide (0 <= index < Z.of_nat (length v)) then Some (<[Z.to_nat index := Some x]> v) else None.

Definition speedControlIndexInit (index maxSpeed : Z) (this : DataStatistics) :
    option (Z * DataStatistics) :=
  v ← index_init this.(controlSpeedVec) index (ControlSpeed_new maxSpeed);
  Some (0, this <| controlSpeedVec := v |>).

Definition speedDataIndexInit (index : Z) (this : DataStatistics) : option (Z * DataStatistics) :=
  v ← index_init this.(speedDataVec) index SpeedData_new;
  Some (1, this <| speedDataVec := v |>).

(** [v.size() <= vectIndex], the [size_t] of [index]; then a null test. *)
Definition at_index {A B} (v : list (option A)) (index : Z) (dflt : B) (op : St A B) :
    B * list (option A) :=
  let vectIndex := u64 index in
  if Z.of_nat (length v) <=? vectIndex then (dflt, v)
  else
    match v !! Z.to_nat vectIndex with
    | Some (Some x) => let '(b, x) := op x in (b, <[Z.to_nat vectIndex := Some x]> v)
    | _ => (dflt, v)
    end.

Definition speedDataAdd (index : Z) : St DataStatistics () := λ this,
  let '(_, v) := at_index this.(speedDataVec) index () data_speedCount in
  ((), this <| speedDataVec := v |>).

Definition controlSpeedAdd (index : Z) : St DataStatistics Z := λ this,
  let '(r, v) := at_index this.(controlSpeedVec) index (-1) speedCount in
  (r, this <| controlSpeedVec := v |>).

(** [currentSpeed(index, &allnum)]; [allnum] is only assigned by a registered module. *)
Definition currentSpeed (index : Z) : St DataStatistics (Z * option Z) := λ this,
  let '(r, v) := at_index this.(speedDataVec) index (0, None)
    (λ d, let '((speed, all), d) := everySecondSpeed d in ((speed, Some all), d)) in
  (r, this <| speedDataVec := v |>).

(** ** Sequential behaviour *)

(** Results of [n] calls in a row. *)
Fixpoint calls (n : nat) : St ControlSpeed (list Z) :=
  match n with
  | O => mret []
  | S n' => r ← speedCount; rs ← calls n'; mret (r :: rs)
  end.

Lemma speedCount_run this :
  speedCount this =
    (speed_verdict (maxSpeed_ this) (u64 (allCountNum_ this + 1)) (lastCounNum_ this),
     this <| allCountNum_ := u64 (allCountNum_ this + 1) |>).
Proof. done. Qed.

Lemma calls_spec n this k :
  0 <= k → 0 <= lastCounNum_ this → allCountNum_ this = lastCounNum_ this + k →
  lastCounNum_ this + k + Z.of_nat n < 2 ^ 64 → 0 <= maxSpeed_ this →
  calls n this =
    (map (λ i, if negb (maxSpeed_ this =? 0) && (maxSpeed_ this <? i) then -1 else 0)
       (seqZ (k + 1) (Z.of_nat n)),
     this <| allCountNum_ := allCountNum_ this + Z.of_nat n |>).
Proof.
  revert this k. induction n as [|n IH]; intros this k Hk Hl Ha Hn Hm.
  { cbn. destruct this; cbn in *. by rewrite Z.add_0_r. }
  cbn [calls]. rewrite st_bind_run, speedCount_run. cbn beta iota.
  rewrite (wrap_u_id 64 (_ + 1)) by (unfold in_u; lia).
  rewrite st_bind_run, (IH _ (k + 1)) by (cbn; lia). st_run. cbn [set_with] in *.
  rewrite (seqZ_cons (k + 1)) by lia. cbn [map].
  unfold speed_verdict. rewrite (wrap_u_id 64) by (unfold in_u; cbn; lia). cbn.
  replace (allCountNum_ this + 1 - lastCounNum_ this) with (k + 1) by lia.
  replace (Z.succ (k + 1)) with (k + 1 + 1) by lia.
  replace (Z.pred (Z.of_nat (S n))) with (Z.of_nat n) by lia.
  unfold set_with; cbn -[Z.of_nat]. do 2 f_equal. lia.
Qed.

(** Rate limiting: after a reset, of [n] calls one after the other exactly the
    first [maxSpeed_] are let through and the rest are refused with -1; a limit of
    0 lets every call through. *)
Theorem rate_limit (this : ControlSpeed) (n : nat) :
  0 <= maxSpeed_ this → 0 <= allCountNum_ this → allCountNum_ this + Z.of_nat n < 2 ^ 64 →
  let admitted := if maxSpeed_ this =? 0 then n else min n (Z.to_nat (maxSpeed_ this)) in
  (calls n (everySeondReset this).2).1 = replicate admitted 0 ++ replicate (n - admitted) (-1).
Proof.
  intros Hm Ha Hn. cbv zeta. unfold everySeondReset. rewrite get_run. cbn [snd].
  rewrite (calls_spec n _ 0) by (cbn; lia). cbn [fst set_with].
  change (maxSpeed_ _) with (maxSpeed_ this).
  apply list_eq. intros i. change (map ?f ?l) with (f <$> l). rewrite list_lookup_fmap.
  destruct (decide (i < n)%nat) as [Hi|Hi]; cycle 1.
  { rewrite lookup_seqZ_ge by lia. symmetry. apply lookup_ge_None_2.
    rewrite length_app, !length_replicate. case_match; lia. }
  rewrite lookup_seqZ_lt by lia. cbn [fmap option_fmap option_map].
  destruct (Z.eqb_spec (maxSpeed_ this) 0) as [->|Hz]; cbn [negb andb].
  - rewrite lookup_app_l by (rewrite length_replicate; lia).
    by rewrite lookup_replicate_2 by lia.
  - destruct (Z.ltb_spec (maxSpeed_ this) (0 + 1 + Z.of_nat i)).
    + rewrite lookup_app_r; rewrite ?length_replicate; [|lia].
      by rewrite lookup_replicate_2 by lia.
    + rewrite lookup_app_l by (rewrite length_replicate; lia).
      by rewrite lookup_replicate_2 by lia.
Qed.

Lemma rate_limit_witness :
  (calls 5 (everySeondReset {| maxSpeed_ := 3; lastCounNum_ := 1; allCountNum_ := 10 |}).2).1 =
    [0; 0; 0; -1; -1].
Proof. apply (rate_limit {| maxSpeed_ := 3; lastCounNum_ := 1; allCountNum_ := 10 |} 5); done. Defined.

(** ** Modules do not disturb each other *)

Lemma lookup_index_init {A} (v v' : list (option A)) index x i y :
  index_init v index x = Some v' → Z.of_nat i ≠ index → v !! i = Some y → v' !! i = Some y.
Proof.
  unfold index_init. intros E Hi Hy. case_decide as Hr; [|done]. injection E as <-.
  rewrite list_lookup_insert_ne by lia. by apply lookup_app_l_Some.
Qed.

Lemma index_init_at {A} (v v' : list (option A)) index x :
  index_init v index x = Some v' → 0 <= index ∧ v' !! Z.to_nat index = Some (Some x).
Proof.
  unfold index_init. intros E. case_decide as Hr; [|done]. injection E as <-.
  split; [lia|]. apply list_lookup_insert_eq. lia.
Qed.

(** Registering an index that the vector already covers doubles the vector. *)
Lemma index_init_doubles {A} (v : list (option A)) index x :
  0 <= index < Z.of_nat (length v) → Z.of_nat (length v) < 2 ^ 31 →
  ∃ v', index_init v index x = Some v' ∧ length v' = (2 * length v)%nat.
Proof.
  intros Hi Hl. unfold index_init. rewrite (wrap_s_id 32) by (unfold in_s; lia).
  destruct (Z.leb_spec (Z.of_nat (length v)) index); [lia|].
  rewrite decide_True by (rewrite length_app; lia). eexists. split; [done|].
  rewrite length_insert, length_app, length_replicate. lia.
Qed.

Lemma at_index_other {A B} (v : list (option A)) index (b : B) op (i : nat) :
  u64 index ≠ Z.of_nat i → (at_index v index b op).2 !! i = v !! i.
Proof.
  intros Hi. unfold at_index. destruct (_ <=? _); [done|].
  destruct (v !! Z.to_nat (u64 index)) as [[x|]|]; [|done..].
  destruct (op x) as [c x']. cbn. apply list_lookup_insert_ne.
  pose proof (wrap_u_range 64 index ltac:(lia)) as Hr. unfold in_u in Hr. lia.
Qed.

Lemma at_index_hit {A B} (v : list (option A)) index (b : B) op x :
  in_u 64 index → v !! Z.to_nat index = Some (Some x) →
  at_index v index b op = ((op x).1, <[Z.to_nat index := Some (op x).2]> v).
Proof.
  intros Hi Hx. unfold at_index. rewrite wrap_u_id by done. unfold in_u in Hi.
  pose proof (lookup_lt_Some _ _ _ Hx). destruct (Z.leb_spec (Z.of_nat (length v)) index); [lia|].
  rewrite Hx. by destruct (op x).
Qed.

Lemma u64_index_ne i j : 0 <= i → in_s 32 i → in_s 32 j → i ≠ j → u64 j ≠ i.
Proof. unfold in_s, wrap_u. intros. dlia. Qed.

(** ** A run of the module *)

Inductive Op :=
  | InitControl (index maxSpeed : Z) | InitData (index : Z)
  | Control (index : Z) | Data (index : Z) | Speed (index : Z).
#[export] Instance Op_eq_dec : EqDecision Op.
Proof. solve_decision. Defined.

Definition op_index (o : Op) : Z :=
  match o with
  | InitControl i _ | InitData i | Control i | Data i | Speed i => i
  end.

Definition exec (o : Op) (s : DataStatistics) : option (Z * DataStatistics) :=
  match o with
  | InitControl i m => speedControlIndexInit i m s
  | InitData i => speedDataIndexInit i s
  | Control i => Some (controlSpeedAdd i s)
  | Data i => let '(_, s) := speedDataAdd i s in Some (0, s)
  | Speed i => let '((speed, _), s) := currentSpeed i s in Some (speed, s)
  end.

Fixpoint run (ops : list Op) (s : DataStatistics) : option (list (Op * Z) * DataStatistics) :=
  match ops with
  | [] => Some ([], s)
  | o :: ops' =>
      '(r, s) ← exec o s; '(rs, s) ← run ops' s; Some ((o, r) :: rs, s)
  end.

(** The sum of the speeds that [currentSpeed(i)] returned. *)
Definition speeds (i : Z) (tr : list (Op * Z)) : Z :=
  foldr (λ e acc, (if decide (e.1 = Speed i) then e.2 else 0) + acc) 0 tr.
Definition events (i : Z) (ops : list Op) : Z :=
  foldr (λ o acc, (if decide (o = Data i) then 1 else 0) + acc) 0 ops.

Definition data_at (s : DataStatistics) (i : Z) (d : SpeedData) : Prop :=
  speedDataVec s !! Z.to_nat i = Some (Some d).

Lemma exec_other o s i d r s' :
  exec o s = Some (r, s') → data_at s i d → 0 <= i → in_s 32 i → in_s 32 (op_index o) →
  op_index o ≠ i ∨ (∃ m, o = InitControl i m) ∨ o = Control i → data_at s' i d.
Proof.
  intros E Hd Hi Hs Ho Hne. unfold data_at in *.
  assert (Hu : op_index o ≠ i → u64 (op_index o) ≠ Z.of_nat (Z.to_nat i))
    by (rewrite Z2Nat.id by done; intros; by apply u64_index_ne; auto).
  destruct o as [j m|j|j|j|j]; cbn [exec op_index] in *.
  - unfold speedControlIndexInit in E. by destruct (index_init _ _ _); simplify_eq/=.
  - unfold speedDataIndexInit in E. destruct (index_init _ _ _) as [v|] eqn:Ei; simplify_eq/=.
    destruct Hne as [Hne|[[m ?]|?]]; [|done..]. eapply lookup_index_init; [done|lia|done].
  - unfold controlSpeedAdd in E. destruct (at_index _ _ _ _). by simplify_eq/=.
  - destruct Hne as [Hne|[[m ?]|?]]; [|done..]. specialize (Hu Hne). unfold speedDataAdd in E.
    pose proof (at_index_other (speedDataVec s) j () data_speedCount _ Hu) as Hx.
    destruct (at_index _ _ _ _). simplify_eq/=. by rewrite Hx.
  - destruct Hne as [Hne|[[m ?]|?]]; [|done..]. specialize (Hu Hne). unfold currentSpeed in E.
    match type of E with context [at_index _ _ ?b ?op] =>
      pose proof (at_index_other (speedDataVec s) j b op _ Hu) as Hx end.
    destruct (at_index _ _ _ _) as [[? ?] ?]. simplify_eq/=. by rewrite Hx.
Qed.

Lemma exec_data s i d :
  data_at s i d → 0 <= i → in_s 32 i →
  ∃ s', exec (Data i) s = Some (0, s') ∧ data_at s' i (d <| data_all := u64 (data_all d + 1) |>).
Proof.
  unfold data_at, in_s. intros Hd Hi Hs. cbn [exec]. unfold speedDataAdd.
  rewrite (at_index_hit _ _ _ _ d) by (unfold in_u; lia || done). eexists. split; [done|].
  cbn. apply list_lookup_insert_eq. by eapply lookup_lt_Some.
Qed.

Lemma exec_speed s i d :
  data_at s i d → 0 <= i → in_s 32 i →
  ∃ s', exec (Speed i) s = Some (s32 (data_all d - data_last d), s') ∧
    data_at s' i (d <| data_last := data_all d |>).
Proof.
  unfold data_at, in_s. intros Hd Hi Hs. cbn [exec]. unfold currentSpeed.
  rewrite (at_index_hit _ _ _ _ d) by (unfold in_u; lia || done).
  unfold everySecondSpeed. rewrite get_run. cbn. eexists. split; [done|].
  cbn. apply list_lookup_insert_eq. by eapply lookup_lt_Some.
Qed.

Lemma run_conserves ops s tr s' i d :
  run ops s = Some (tr, s') → data_at s i d → 0 <= i → in_s 32 i →
  Forall (λ o, in_s 32 (op_index o) ∧ o ≠ InitData i) ops →
  0 <= data_last d <= data_all d → data_all d + Z.of_nat (length ops) < 2 ^ 31 →
  ∃ d', data_at s' i d' ∧ data_all d' = data_all d + events i ops ∧
    speeds i tr + (data_all d' - data_last d') = events i ops + (data_all d - data_last d).
Proof.
  revert s tr d. induction ops as [|o ops IH]; intros s tr d E Hd Hi Hs Ho Hl Hb.
  { injection E as <- <-. exists d. cbn. split; [done|]. lia. }
  apply Forall_cons in Ho as [[Ho Hni] Hos]. cbn [run] in E. cbn [length] in Hb.
  destruct (exec o s) as [[r s1]|] eqn:E1; [|done]. cbn in E.
  destruct (run ops s1) as [[rs s2]|] eqn:E2; [|done]. cbn in E. injection E as <- ->.
  cbn [speeds events foldr fst snd].
  destruct (decide (o = Data i)) as [->|Hnd]; [|destruct (decide (o = Speed i)) as [->|Hns]].
  - destruct (exec_data s i d Hd Hi Hs) as (s1' & E1' & Hd1). simplify_eq.
    rewrite (wrap_u_id 64) in Hd1 by (unfold in_u; lia).
    destruct (IH _ _ _ E2 Hd1) as (d' & ? & ? & ?); cbn in *; [done..|lia|lia|].
    exists d'. split; [done|]. rewrite decide_False by done. unfold events, speeds in *. lia.
  - destruct (exec_speed s i d Hd Hi Hs) as (s1' & E1' & Hd1). simplify_eq.
    destruct (IH _ _ _ E2 Hd1) as (d' & ? & ? & ?); cbn in *; [done..|lia|lia|].
    exists d'. split; [done|]. rewrite (wrap_s_id 32) by (unfold in_s; lia).
    unfold events, speeds in *. lia.
  - assert (Hd1 : data_at s1 i d).
    { eapply exec_other; [done..|]. destruct (decide (op_index o = i)) as [<-|]; [|by left].
      right. destruct o; cbn in *; try done; eauto. }
    destruct (IH _ _ _ E2 Hd1) as (d' & ? & ? & ?); [done..|lia|].
    exists d'. split; [done|]. unfold events, speeds in *. lia.
Qed.

(** No event is lost and modules do not disturb each other: from the
    registration of module [i] on, whatever is registered, counted and measured in
    between on other indices, the speeds [currentSpeed(i)] returned and what is
    still pending add up to the number of [speedDataAdd(i)] calls. *)
Lemma statistics_complete (s0 s s' : DataStatistics) (i r : Z) (ops : list Op) tr :
  in_s 32 i → speedDataIndexInit i s0 = Some (r, s) → run ops s = Some (tr, s') →
  Forall (λ o, in_s 32 (op_index o) ∧ o ≠ InitData i) ops → Z.of_nat (length ops) < 2 ^ 31 →
  ∃ d, data_at s' i d ∧ data_all d = events i ops ∧
    speeds i tr + (data_all d - data_last d) = events i ops.
Proof.
  intros Hs E Hr Ho Hb. unfold speedDataIndexInit in E.
  destruct (index_init _ _ _) as [v|] eqn:Ei; [|done]. injection E as <- <-.
  apply index_init_at in Ei as [Hi Hv].
  destruct (run_conserves _ _ _ _ i SpeedData_new Hr) as (d & ? & ? & ?); [done..|cbn; lia|cbn; lia|].
  exists d. cbn in *. split; [done|]. lia.
Qed.

Definition stat_ops : list Op :=
  [Data 2; InitData 5; Data 2; Data 5; Speed 2; InitControl 2 1; Control 2; Control 2; Data 2; Data (-1)].

Lemma statistics_complete_witness :
  ∃ s tr s', speedDataIndexInit 2 DataStatistics_new = Some (1, s) ∧ run stat_ops s = Some (tr, s') ∧
    map snd tr = [0; 1; 0; 0; 2; 0; 0; -1; 0; 0] ∧
    ∃ d, data_at s' 2 d ∧ data_all d = 3 ∧ speeds 2 tr + (data_all d - data_last d) = 3.
Proof.
  eexists _, _, _. split; [vm_compute; reflexivity|]. split; [vm_compute; reflexivity|].
  split; [reflexivity|].
  refine (statistics_complete DataStatistics_new _ _ 2 1 stat_ops _ _ _ _ _ _);
    [decide_now|vm_compute; reflexivity..|decide_now|done].
Defined.

(** ** Threads

    [speedCount] and [everySeondReset] take no lock: each is an atomic step on
    [allCountNum_] and an access to [lastCounNum_], and other threads run in
    between. [log] records the finished [speedCount] calls: [nowCount], the value
    read from [lastCounNum_], and the result. *)

Inductive Pc := Counted (nowCount : Z) | Loaded (v : Z).

Record Machine := { obj : ControlSpeed; pcs : gmap nat Pc; log : list (Z * Z * Z) }.

Inductive step : Machine → Machine → Prop :=
  | step_increment t o o' p l nowCount :
      p !! t = None →
      incrementAndGet u64 (allCountNum_ o) = (nowCount, allCountNum_ o') →
      o' = o <| allCountNum_ := allCountNum_ o' |> →
      step {| obj := o; pcs := p; log := l |}
           {| obj := o'; pcs := <[t := Counted nowCount]> p; log := l |}
  | step_verdict t o p l nowCount :
      p !! t = Some (Counted nowCount) →
      step {| obj := o; pcs := p; log := l |}
           {| obj := o; pcs := delete t p;
              log := (nowCount, lastCounNum_ o,
                      speed_verdict (maxSpeed_ o) nowCount (lastCounNum_ o)) :: l |}
  | step_load t o p l v :
      p !! t = None → get (allCountNum_ o) = (v, allCountNum_ o) →
      step {| obj := o; pcs := p; log := l |}
           {| obj := o; pcs := <[t := Loaded v]> p; log := l |}
  | step_store t o p l v :
      p !! t = Some (Loaded v) →
      step {| obj := o; pcs := p; log := l |}
           {| obj := o <| lastCounNum_ := v |>; pcs := delete t p; log := l |}.

Definition start (o : ControlSpeed) : Machine := {| obj := o; pcs := ∅; log := [] |}.

(** A call that runs alone is [speedCount]. *)
Lemma speedCount_steps o :
  ∃ n, rtc step (start o)
    {| obj := (speedCount o).2; pcs := ∅; log := [(n, lastCounNum_ o, (speedCount o).1)] |}.
Proof.
  exists (u64 (allCountNum_ o + 1)). eapply rtc_l.
  - eapply (step_increment 0%nat o (speedCount o).2); [done..|by destruct o].
  - eapply rtc_l; [eapply step_verdict; by rewrite lookup_insert_eq|].
    rewrite delete_insert_id by done. by destruct o.
Qed.

Definition counts (m : Machine) : list Z := (λ e, e.1.1) <$> log m.

(** After [k] increments: the counts drawn, by finished and unfinished calls, are
    distinct and between 1 and [k]. *)
Record Inv (M k : Z) (m : Machine) : Prop := {
  inv_max : maxSpeed_ (obj m) = M;
  inv_count : allCountNum_ (obj m) = k;
  inv_last : 0 <= lastCounNum_ (obj m) <= k;
  inv_loaded t v : pcs m !! t = Some (Loaded v) → 0 <= v <= k;
  inv_log n l r : (n, l, r) ∈ log m → 1 <= n <= k ∧ 0 <= l <= k ∧ r = speed_verdict M n l;
  inv_pc t n : pcs m !! t = Some (Counted n) → 1 <= n <= k ∧ n ∉ counts m;
  inv_pcs t t' n : pcs m !! t = Some (Counted n) → pcs m !! t' = Some (Counted n) → t = t';
  inv_nodup : NoDup (counts m)
}.

Lemma Inv_start M : 0 <= M < 2 ^ 31 → Inv M 0 (start (ControlSpeed_new M)).
Proof.
  intros HM. split; cbn; try done.
  - apply wrap_u_id. unfold in_u. lia.
  - by intros n l r ?%elem_of_nil.
  - apply NoDup_nil_2.
Qed.

Lemma counts_log m n : n ∈ counts m → ∃ l r, (n, l, r) ∈ log m.
Proof.
  unfold counts. intros ([[n' l] r] & -> & ?)%list_elem_of_fmap. by exists l, r.
Qed.

Lemma Inv_increment M k t o p l :
  Inv M k {| obj := o; pcs := p; log := l |} → p !! t = None →
  Inv M (k + 1) {| obj := o <| allCountNum_ := k + 1 |>; pcs := <[t := Counted (k + 1)]> p; log := l |}.
Proof.
  intros [Hm Hc Hl Hv Hlog Hpc Hpp Hnd] Ht. cbn in *.
  assert (Hnew : k + 1 ∉ counts {| obj := o; pcs := p; log := l |}).
  { intros (x & r & [Hx _]%Hlog)%counts_log. lia. }
  split; cbn; [done|done|lia| | | | |done].
  - intros t' v [[? ?]|[? H]]%lookup_insert_Some; [done|]. apply Hv in H. lia.
  - intros n x r H. apply Hlog in H. destruct H as (? & ? & ->). split_and!; [lia..|done].
  - intros t' n [[-> [= <-]]|[? H]]%lookup_insert_Some; [split; [lia|done]|].
    apply Hpc in H as [??]. split; [lia|done].
  - intros t1 t2 n [[<- [= <-]]|[? H1]]%lookup_insert_Some [[<- E]|[? H2]]%lookup_insert_Some; [done| | |].
    + apply Hpc in H2 as [? _]. lia.
    + injection E as <-. apply Hpc in H1 as [? _]. lia.
    + by eapply Hpp.
Qed.

Lemma Inv_verdict M k t o p l n :
  Inv M k {| obj := o; pcs := p; log := l |} → p !! t = Some (Counted n) →
  Inv M k {| obj := o; pcs := delete t p;
             log := (n, lastCounNum_ o, speed_verdict (maxSpeed_ o) n (lastCounNum_ o)) :: l |}.
Proof.
  intros [Hm Hc Hl Hv Hlog Hpc Hpp Hnd] Ht. cbn in *. destruct (Hpc _ _ Ht) as [Hn Hfresh].
  split; cbn; try done.
  - intros t' v [_ H]%lookup_delete_Some. by eapply Hv.
  - intros n' x r [[= -> -> ->]|H]%elem_of_cons; [|by apply Hlog]. by rewrite Hm.
  - intros t' n' [Hne H]%lookup_delete_Some. destruct (Hpc _ _ H) as [? Hf]. split; [done|].
    intros [->|?]%elem_of_cons; [|done]. by apply Hne, (Hpp t t' n).
  - intros t1 t2 n' [_ H1]%lookup_delete_Some [_ H2]%lookup_delete_Some. by eapply Hpp.
  - by apply NoDup_cons.
Qed.

Lemma Inv_load M k t o p l :
  Inv M k {| obj := o; pcs := p; log := l |} → p !! t = None →
  Inv M k {| obj := o; pcs := <[t := Loaded k]> p; log := l |}.
Proof.
  intros [Hm Hc Hl Hv Hlog Hpc Hpp Hnd] Ht. cbn in *. split; cbn; try done.
  - intros t' v [[_ [= <-]]|[_ H]]%lookup_insert_Some; [lia|by eapply Hv].
  - intros t' n [[_ [=]]|[_ H]]%lookup_insert_Some. by eapply Hpc.
  - intros t1 t2 n [[_ [=]]|[_ H1]]%lookup_insert_Some [[_ [=]]|[_ H2]]%lookup_insert_Some. by eapply Hpp.
Qed.

Lemma Inv_store M k t o p l v :
  Inv M k {| obj := o; pcs := p; log := l |} → p !! t = Some (Loaded v) →
  Inv M k {| obj := o <| lastCounNum_ := v |>; pcs := delete t p; log := l |}.
Proof.
  intros [Hm Hc Hl Hv Hlog Hpc Hpp Hnd] Ht. cbn in *. split; cbn; try done.
  - by eapply Hv.
  - intros t' v' [_ H]%lookup_delete_Some. by eapply Hv.
  - intros t' n [_ H]%lookup_delete_Some. by eapply Hpc.
  - intros t1 t2 n [_ H1]%lookup_delete_Some [_ H2]%lookup_delete_Some. by eapply Hpp.
Qed.

Lemma speed_Inv_step M k m m' :
  Inv M k m → k + 1 < 2 ^ 64 → step m m' → Inv M k m' ∨ Inv M (k + 1) m'.
Proof.
  intros HI Hk Hs. pose proof (inv_count _ _ _ HI) as Hc. pose proof (inv_last _ _ _ HI) as Hl.
  destruct Hs as [t o o' p l n Ht E ->|t o p l n Ht|t o p l v Ht E|t o p l v Ht]; cbn in Hc, Hl.
  - rewrite incrementAndGet_run in E. injection E as <- <-. rewrite Hc, wrap_u_id by (unfold in_u; lia).
    right. by apply Inv_increment.
  - left. by apply Inv_verdict.
  - rewrite get_run in E. injection E as <-. rewrite Hc. left. by apply Inv_load.
  - left. by eapply Inv_store.
Qed.

Lemma speed_Inv_reachable M n m :
  0 <= M < 2 ^ 31 → nsteps step n (start (ControlSpeed_new M)) m → Z.of_nat n < 2 ^ 63 →
  ∃ k, Inv M k m ∧ 0 <= k <= Z.of_nat n.
Proof.
  intros HM. revert m. induction n as [|n IH]; intros m Hs Hn.
  { inversion Hs; subst. exists 0. split; [by apply Inv_start|lia]. }
  apply nsteps_inv_r in Hs as (m1 & Hs1 & Hs). destruct (IH m1 Hs1 ltac:(lia)) as (k & HI & Hk).
  destruct (speed_Inv_step _ _ _ _ HI ltac:(lia) Hs); [exists k|exists (k + 1)]; (split; [done|lia]).
Qed.

(** The calls let through while [lastCounNum_] was [L]. *)
Definition let_through (L : Z) (m : Machine) : list (Z * Z * Z) :=
  filter (λ e, e.1.2 = L ∧ e.2 = 0) (log m).

Lemma verdict_accepts M k n l :
  0 < M < 2 ^ 31 → 1 <= n <= k → 0 <= l <= k → k < 2 ^ 63 →
  speed_verdict M n l = 0 ↔ l <= n <= l + M.
Proof.
  intros HM Hn Hl Hk. unfold speed_verdict. rewrite (proj2 (Z.eqb_neq M 0)) by lia. cbn [negb andb].
  destruct (Z.ltb_spec M (u64 (n - l))) as [H|H]; unfold wrap_u in H; split; intros; try done; dlia.
Qed.

(** C22: Rate limiting under concurrency: whatever the interleaving of any number of
    threads calling [speedCount] and [everySeondReset], at most [maxSpeed + 1] of the
    calls that find [lastCounNum_] equal to [L] are let through (the extra one drew
    its count before the reset and looked after it), and every finished call was
    answered 0 or -1. *)
Theorem concurrent_rate_limit (maxSpeed : Z) (n : nat) (m : Machine) (L : Z) :
  0 < maxSpeed < 2 ^ 31 → Z.of_nat n < 2 ^ 63 →
  nsteps step n (start (ControlSpeed_new maxSpeed)) m →
  Z.of_nat (length (let_through L m)) <= maxSpeed + 1 ∧
  Forall (λ e, e.2 = 0 ∨ e.2 = -1) (log m).
Proof.
  intros HM Hn Hs. destruct (speed_Inv_reachable maxSpeed n m ltac:(lia) Hs Hn) as (k & HI & Hk).
  split.
  - assert (Hsub : ((λ e : Z * Z * Z, e.1.1) <$> let_through L m) ⊆+ seqZ L (maxSpeed + 1)).
    { apply NoDup_submseteq.
      - eapply sublist_NoDup; [apply (inv_nodup _ _ _ HI)|]. apply fmap_sublist, sublist_filter.
      - intros x ([[x' l] r] & -> & [[Hl Hr] Hin]%list_elem_of_filter)%list_elem_of_fmap. cbn in *.
        apply (inv_log _ _ _ HI) in Hin as (Hx & Hl' & ->). subst l.
        apply (verdict_accepts _ k) in Hr; [|lia..]. apply elem_of_seqZ. lia. }
    apply submseteq_length in Hsub. rewrite length_fmap, length_seqZ in Hsub. lia.
  - apply Forall_forall. intros [[x l] r] Hin. apply (inv_log _ _ _ HI) in Hin as (_ & _ & ->).
    cbn. unfold speed_verdict. destruct (_ && _); auto.
Qed.

(** The bound is reached: with a limit of 1, a count drawn before a reset is let
    through after it, together with one new call. *)
Definition late_call : Machine :=
  {| obj := {| maxSpeed_ := 1; lastCounNum_ := 1; allCountNum_ := 2 |}; pcs := ∅;
     log := [(2, 1, 0); (1, 1, 0)] |}.

Lemma late_call_reachable : nsteps step 6 (start (ControlSpeed_new 1)) late_call.
Proof.
  eapply nsteps_l; [by eapply (step_increment 0%nat _ {| allCountNum_ := 1 |})|].
  eapply nsteps_l; [by eapply (step_load 1%nat)|].
  eapply nsteps_l; [by eapply (step_store 1%nat)|].
  eapply nsteps_l; [by eapply (step_verdict 0%nat)|].
  eapply nsteps_l; [by eapply (step_increment 0%nat _ {| allCountNum_ := 2 |})|].
  eapply nsteps_l; [by eapply (step_verdict 0%nat)|]. apply nsteps_O.
Qed.

Lemma concurrent_rate_limit_witness :
  length (let_through 1 late_call) = 2%nat ∧ Z.of_nat (length (let_through 1 late_call)) <= 2 ∧
  Forall (λ e, e.2 = 0 ∨ e.2 = -1) (log late_call).
Proof.
  split; [done|]. apply (concurrent_rate_limit 1 6 late_call 1); [done..|].
  apply late_call_reachable.
Defined.

End SpeedControl.
