(* ===== verification/UniqueNum.v ===== *)
(** * Unique numbers ([src/libeventcpcli/src/UniqueNum.h])

    [uniqueNumId] packs the local time, a node number and a counter into 64 bits.
    [localtime_r] supplies the time: a [tm] record is an argument. *)

From S2P Require Import Prelude Atomic.

Module UniqueNum.

(** The fields of [struct tm] that are used. *)
Record tm := { tm_year : Z; tm_mon : Z; tm_mday : Z; tm_hour : Z; tm_min : Z; tm_sec : Z }.
#[export] Instance tm_eq_dec : EqDecision tm.
Proof. solve_decision. Defined.

(** [j |= static_cast<int64_t>(v & mask) << n] *)
Definition or_field (j v mask n : Z) : Z := Z.lor j (u64 (Z.shiftl (Z.land v mask) n)).

(** [uniqueNumId(uniquId)], on the counter [UniqueTail]. *)
Definition uniqueNumId (t : tm) (uniquId : Z) : St Z Z :=
  tail ← incrementAndGet u32;
  let nNodeid := uniquId mod 8191 in
  let nNo := tail mod 0x03ffff in
  let nYear := u32 (tm_year t + 1900) in
  let nYear := nYear mod 100 in
  let nMonth := u32 (tm_mon t + 1) in
  let nDay := u32 (tm_mday t) in
  let nHour := u32 (tm_hour t) in
  let nMin := u32 (tm_min t) in
  let nSec := u32 (tm_sec t) in
  let j := 0 in
  let j := or_field j nYear 0x7f 57 in
  let j := or_field j nMonth 0x0f 53 in
  let j := or_field j nDay 0x1f 48 in
  let j := or_field j nHour 0x1f 43 in
  let j := or_field j nMin 0x3f 37 in
  let j := or_field j nSec 0x3f 31 in
  let j := or_field j nNodeid 0x01fff 18 in
  let j := or_field j nNo 0x03ffff 0 in
  mret j.

(** What [localtime_r] returns: the ranges of the C standard. *)
Definition tm_ok (t : tm) : Prop :=
  0 <= tm_year t < 1000 ∧ 0 <= tm_mon t < 12 ∧ 1 <= tm_mday t <= 31 ∧
  0 <= tm_hour t < 24 ∧ 0 <= tm_min t < 60 ∧ 0 <= tm_sec t <= 60.
#[export] Instance tm_ok_dec t : Decision (tm_ok t).
Proof. unfold tm_ok. apply _. Defined.

(** The fields of an id, from the most significant on, with their widths. *)
Definition fields (t : tm) (uniquId no : Z) : list (Z * Z) :=
  [ (tm_year t mod 100, 7); (tm_mon t + 1, 4); (tm_mday t, 5); (tm_hour t, 5);
    (tm_min t, 6); (tm_sec t, 6); (uniquId mod 8191, 13); (no, 18) ].

Definition pack (l : list (Z * Z)) (acc : Z) : Z := foldl (λ acc f, acc * 2 ^ f.2 + f.1) acc l.

Definition fits (f : Z * Z) : Prop := 0 <= f.2 ∧ 0 <= f.1 < 2 ^ f.2.

Lemma or_field_add j a v mask w n :
  j = a * 2 ^ (n + w) → mask = Z.ones w → 0 <= w → 0 <= n → n + w <= 64 → 0 <= v < 2 ^ w →
  or_field j v mask n = (a * 2 ^ w + v) * 2 ^ n.
Proof.
  intros -> -> Hw Hn Hnw Hv. unfold or_field.
  rewrite Z.land_ones, (Z.mod_small v), Z.shiftl_mul_pow2 by lia.
  assert (Hlt : v * 2 ^ n < 2 ^ (n + w)) by (rewrite Z.pow_add_r by lia; nia).
  assert (Hle : 2 ^ (n + w) <= 2 ^ 64) by (apply Z.pow_le_mono_r; lia).
  rewrite wrap_u_id by (unfold in_u; nia).
  rewrite lor_add_low by nia. rewrite Z.pow_add_r by lia. ring.
Qed.

(** Packing is injective on fields that fit. *)
Lemma pack_inj l l' acc acc' :
  Forall fits l → Forall fits l' → map snd l = map snd l' →
  pack l acc = pack l' acc' → acc = acc' ∧ l = l'.
Proof.
  intros Hl. revert l' acc acc'. induction Hl as [|[v w] l [Hw Hv] Hl IH]; intros l' acc acc' Hl' Hs E.
  { destruct l'; [done|]. done. }
  destruct l' as [|[v' w'] l']; [done|]. cbn in *. injection Hs as <- Hs.
  apply Forall_cons in Hl' as [[_ Hv'] Hl']. cbn in Hv'.
  apply IH in E as [E ->]; [|done..].
  assert (acc = acc' ∧ v = v') as [-> ->]; [|done].
  apply (Z.div_mod_unique (2 ^ w)); lia.
Qed.

Lemma uniqueNumId_packed t uniquId c :
  tm_ok t → 0 <= uniquId →
  uniqueNumId t uniquId c = (pack (fields t uniquId (u32 (c + 1) mod 262143)) 0, u32 (c + 1)).
Proof.
  intros (Hy & Hmo & Hd & Hh & Hm & Hs) Hu. unfold uniqueNumId.
  rewrite st_bind_run, incrementAndGet_run, st_ret_run. cbn beta iota zeta. f_equal.
  assert (Hn : 0 <= u32 (c + 1) mod 262143 < 262143) by (apply Z.mod_pos_bound; lia).
  assert (Hnode : 0 <= uniquId mod 8191 < 8191) by (apply Z.mod_pos_bound; lia).
  revert Hn. generalize (u32 (c + 1) mod 262143) as no. intros no Hn.
  revert Hnode. unfold fields, pack. generalize (uniquId mod 8191) as node. intros node Hnode.
  rewrite !(wrap_u_id 32 (_ t)), !(wrap_u_id 32 (_ + _)) by (unfold in_u; lia).
  replace ((tm_year t + 1900) mod 100) with (tm_year t mod 100) by dlia.
  assert (Hyy : 0 <= tm_year t mod 100 < 100) by (apply Z.mod_pos_bound; lia).
  cbn [foldl fst snd].
  rewrite (or_field_add 0 0 _ 0x7f 7 57) by (done || lia).
  erewrite (or_field_add _ _ _ 0x0f 4 53) by (reflexivity || lia).
  erewrite (or_field_add _ _ _ 0x1f 5 48) by (reflexivity || lia).
  erewrite (or_field_add _ _ _ 0x1f 5 43) by (reflexivity || lia).
  erewrite (or_field_add _ _ _ 0x3f 6 37) by (reflexivity || lia).
  erewrite (or_field_add _ _ _ 0x3f 6 31) by (reflexivity || lia).
  erewrite (or_field_add _ _ _ 0x1fff 13 18) by (reflexivity || lia).
  erewrite (or_field_add _ _ _ 0x3ffff 18 0) by (reflexivity || lia).
  by rewrite Z.mul_1_r.
Qed.

Lemma fields_fit t uniquId c :
  tm_ok t → 0 <= uniquId → Forall fits (fields t uniquId (u32 (c + 1) mod 262143)).
Proof.
  intros (Hy & Hmo & Hd & Hh & Hm & Hs) Hu.
  assert (Hn : 0 <= u32 (c + 1) mod 262143 < 262143) by (apply Z.mod_pos_bound; lia).
  assert (Hnode : 0 <= uniquId mod 8191 < 8191) by (apply Z.mod_pos_bound; lia).
  assert (Hyy : 0 <= tm_year t mod 100 < 100) by (apply Z.mod_pos_bound; lia).
  repeat constructor; cbn; lia.
Qed.

(** Successive calls, at the times [ts]. *)
Fixpoint ids (ts : list tm) (uniquId : Z) : St Z (list Z) :=
  match ts with
  | [] => mret []
  | t :: ts' => j ← uniqueNumId t uniquId; js ← ids ts' uniquId; mret (j :: js)
  end.

Lemma ids_lookup ts uniquId c i t :
  Forall tm_ok ts → 0 <= uniquId → 0 <= c → c + Z.of_nat (length ts) < 2 ^ 32 → ts !! i = Some t →
  (ids ts uniquId c).1 !! i = Some (uniqueNumId t uniquId (c + Z.of_nat i)).1.
Proof.
  intros Hts Hu. revert c i. induction Hts as [|t0 ts Ht0 Hts IH]; intros c i Hc Hl Hi; [done|].
  cbn [ids length] in *. rewrite st_bind_run, uniqueNumId_packed by done.
  rewrite (wrap_u_id 32) by (unfold in_u; lia). cbn beta iota. rewrite st_bind_run.
  destruct (ids ts uniquId (c + 1)) as [js c'] eqn:E. rewrite st_ret_run. cbn [fst].
  destruct i as [|i]; cbn in Hi |- *.
  - injection Hi as <-. rewrite Z.add_0_r, uniqueNumId_packed by done. cbn [fst].
    by rewrite (wrap_u_id 32) by (unfold in_u; lia).
  - specialize (IH (c + 1) i ltac:(lia) ltac:(lia) Hi). rewrite E in IH. cbn [fst] in IH.
    replace (c + Z.of_nat (S i)) with (c + 1 + Z.of_nat i) by lia. exact IH.
Qed.

Lemma length_ids ts uniquId c : length (ids ts uniquId c).1 = length ts.
Proof.
  revert c. induction ts as [|t ts IH]; intros c; [done|]. cbn [ids].
  rewrite st_bind_run. destruct (uniqueNumId t uniquId c) as [j c1]. rewrite st_bind_run.
  specialize (IH c1). destruct (ids ts uniquId c1). rewrite st_ret_run. cbn in *. lia.
Qed.

(** C32: Unique numbers are unique: no two of the calls of one process return the
    same 64-bit number as long as fewer than 262143 calls fall into one second and
    the 32-bit counter does not wrap around; years are told apart modulo 100. *)
Theorem unique_numbers (ts : list tm) (uniquId c : Z) :
  Forall tm_ok ts → 0 <= uniquId → 0 <= c → c + Z.of_nat (length ts) < 2 ^ 32 →
  (∀ i j t t', ts !! i = Some t → ts !! j = Some t' → (i < j)%nat →
     fields t 0 0 = fields t' 0 0 → Z.of_nat j - Z.of_nat i < 262143) →
  NoDup (ids ts uniquId c).1 ∧ Forall (in_u 64) (ids ts uniquId c).1.
Proof.
  intros Hts Hu Hc Hl Hwin.
  assert (Hne : ∀ i j t t', ts !! i = Some t → ts !! j = Some t' → (i < j)%nat →
    (uniqueNumId t uniquId (c + Z.of_nat i)).1 ≠ (uniqueNumId t' uniquId (c + Z.of_nat j)).1).
  { intros i j t t' Hi Hj Hij E.
    pose proof (proj1 (Forall_lookup _ ts) Hts _ _ Hi) as Ht.
    pose proof (proj1 (Forall_lookup _ ts) Hts _ _ Hj) as Ht'.
    pose proof (lookup_lt_Some _ _ _ Hj).
    rewrite !uniqueNumId_packed in E by done. cbn [fst] in E.
    apply pack_inj in E as [_ E]; [|by apply fields_fit..|done].
    unfold fields in E. injection E as E1 E2 E3 E4 E5 E6 E7.
    specialize (Hwin i j t t' Hi Hj Hij). rewrite !(wrap_u_id 32) in E7 by (unfold in_u; lia).
    assert (Z.of_nat j - Z.of_nat i < 262143) by (apply Hwin; unfold fields; congruence). dlia. }
  split.
  - apply NoDup_alt. intros i j x Hi Hj.
    pose proof (lookup_lt_Some _ _ _ Hi) as Hli. pose proof (lookup_lt_Some _ _ _ Hj) as Hlj.
    rewrite length_ids in Hli, Hlj.
    destruct (lookup_lt_is_Some_2 _ _ Hli) as [t Ht]. destruct (lookup_lt_is_Some_2 _ _ Hlj) as [t' Ht'].
    rewrite (ids_lookup _ _ _ _ _ Hts Hu Hc Hl Ht) in Hi.
    rewrite (ids_lookup _ _ _ _ _ Hts Hu Hc Hl Ht') in Hj.
    destruct (lt_eq_lt_dec i j) as [[Hij|]|Hij]; [|done|].
    + destruct (Hne i j t t'); [done..|]. congruence.
    + destruct (Hne j i t' t); [done..|]. congruence.
  - apply Forall_lookup. intros i x Hi. pose proof (lookup_lt_Some _ _ _ Hi) as Hli.
    rewrite length_ids in Hli. destruct (lookup_lt_is_Some_2 _ _ Hli) as [t Ht].
    rewrite (ids_lookup _ _ _ _ _ Hts Hu Hc Hl Ht) in Hi.
    assert (x = (uniqueNumId t uniquId (c + Z.of_nat i)).1) as -> by congruence.
    pose proof (proj1 (Forall_lookup _ ts) Hts _ _ Ht) as Hok.
    rewrite uniqueNumId_packed by done. cbn [fst].
    pose proof (fields_fit t uniquId (c + Z.of_nat i) Hok Hu) as Hf. unfold fields in *.
    repeat (apply Forall_cons in Hf as [[_ ?] Hf]; cbn [fst snd] in *).
    unfold pack, in_u. cbn [foldl fst snd]. lia.
Qed.

Lemma unique_numbers_witness :
  let t1 := {| tm_year := 124; tm_mon := 1; tm_mday := 29; tm_hour := 23; tm_min := 59; tm_sec := 59 |} in
  let t2 := {| tm_year := 124; tm_mon := 2; tm_mday := 1; tm_hour := 0; tm_min := 0; tm_sec := 0 |} in
  NoDup (ids [t1; t1; t2] 60 262142).1 ∧ Forall (in_u 64) (ids [t1; t1; t2] 60 262142).1.
Proof.
  intros t1 t2. apply (unique_numbers [t1; t1; t2] 60 262142); [decide_now|done|done|done|].
  intros i j t t' _ Hj Hij _. apply lookup_lt_Some in Hj. cbn in Hj. lia.
Defined.

Definition width (l : list (Z * Z)) : Z := foldr (λ f acc, f.2 + acc) 0 l.

Lemma width_nonneg l : Forall fits l → 0 <= width l.
Proof. induction 1 as [|[v w] l [Hw _] _ IH]; unfold width in *; cbn in *; lia. Qed.

Lemma pack_div l acc : Forall fits l → pack l acc / 2 ^ width l = acc.
Proof.
  intros Hl. revert acc. induction Hl as [|[v w] l [Hw Hv] Hl IH]; intros acc; [apply Z.div_1_r|].
  change (width ((v, w) :: l)) with (w + width l).
  change (pack ((v, w) :: l) acc) with (pack l (acc * 2 ^ w + v)).
  cbn in Hw, Hv. pose proof (width_nonneg l Hl).
  rewrite (Z.add_comm w), Z.pow_add_r, <- Z.div_div, IH by lia.
  rewrite Z.div_add_l, Z.div_small; lia.
Qed.

(** A field is read with the shift and mask that put it there. *)
Lemma field_read l v w r n :
  Forall fits ((v, w) :: r) → width r = n →
  Z.land (Z.shiftr (pack (l ++ (v, w) :: r) 0) n) (Z.ones w) = v.
Proof.
  intros [[Hw Hv] Hr]%Forall_cons <-. cbn in Hw, Hv. pose proof (width_nonneg r Hr).
  rewrite Z.land_ones, Z.shiftr_div_pow2 by lia.
  unfold pack. rewrite foldl_app. cbn [foldl fst snd]. fold (pack r).
  change (foldl _ ?x r) with (pack r x). rewrite pack_div by done.
  rewrite Z.add_comm, Z.mod_add, Z.mod_small; lia.
Qed.

(** The fields of a number can be read back: the node, the second, the month and
    the other parts are where the shifts put them. *)
Theorem unique_number_fields (t : tm) (uniquId c : Z) :
  tm_ok t → 0 <= uniquId →
  let j := (uniqueNumId t uniquId c).1 in
  (Z.shiftr j 57, Z.land (Z.shiftr j 53) 0x0f, Z.land (Z.shiftr j 48) 0x1f) =
    (tm_year t mod 100, tm_mon t + 1, tm_mday t) ∧
  (Z.land (Z.shiftr j 43) 0x1f, Z.land (Z.shiftr j 37) 0x3f, Z.land (Z.shiftr j 31) 0x3f) =
    (tm_hour t, tm_min t, tm_sec t) ∧
  Z.land (Z.shiftr j 18) 0x1fff = uniquId mod 8191.
Proof.
  intros Ht Hu. cbv zeta. rewrite uniqueNumId_packed by done. cbn [fst].
  pose proof (fields_fit t uniquId c Ht Hu) as Hf.
  assert (Hr : ∀ k v w, fields t uniquId (u32 (c + 1) mod 262143) !! k = Some (v, w) →
    Z.land (Z.shiftr (pack (fields t uniquId (u32 (c + 1) mod 262143)) 0)
      (width (drop (S k) (fields t uniquId (u32 (c + 1) mod 262143))))) (Z.ones w) = v).
  { intros k v w Hk. rewrite <- (take_drop_middle _ _ _ Hk) at 1. apply field_read; [|done].
    apply (Forall_drop _ k) in Hf. by rewrite (drop_S _ _ _ Hk) in Hf. }
  pose proof (pack_div (drop 1 (fields t uniquId (u32 (c + 1) mod 262143))) (tm_year t mod 100)
    (Forall_drop _ 1 _ Hf)) as Hy.
  pose proof (Hr 1%nat _ 4 eq_refl) as H1. pose proof (Hr 2%nat _ 5 eq_refl) as H2.
  pose proof (Hr 3%nat _ 5 eq_refl) as H3. pose proof (Hr 4%nat _ 6 eq_refl) as H4.
  pose proof (Hr 5%nat _ 6 eq_refl) as H5. pose proof (Hr 6%nat _ 13 eq_refl) as H6.
  rewrite <- Z.shiftr_div_pow2 in Hy by (by vm_compute).
  split_and!; [f_equal; [f_equal; [exact Hy|exact H1]|exact H2]|f_equal; [f_equal; [exact H3|exact H4]|exact H5]|exact H6].
Qed.

Lemma unique_number_fields_witness :
  let t1 := {| tm_year := 124; tm_mon := 1; tm_mday := 29; tm_hour := 23; tm_min := 59; tm_sec := 59 |} in
  let j := (uniqueNumId t1 60 7).1 in
  (Z.shiftr j 57, Z.land (Z.shiftr j 53) 0x0f, Z.land (Z.shiftr j 48) 0x1f) = (24, 2, 29) ∧
  (Z.land (Z.shiftr j 43) 0x1f, Z.land (Z.shiftr j 37) 0x3f, Z.land (Z.shiftr j 31) 0x3f) = (23, 59, 59) ∧
  Z.land (Z.shiftr j 18) 0x1fff = 60.
Proof. intros t1 j. apply (unique_number_fields t1 60 7); [decide_now|done]. Defined.

End UniqueNum.
