(* ===== verification/ThreadPool.v ===== *)
(** * The pool of threads and the latch ([src/common/ThreadPool.cpp], [CountDownLatch.cpp])

    A queue of tasks under one mutex with the conditions [notEmpty_] (workers wait) and
    [notFull_] (callers of [run] wait). The same text is compiled into the Redis, HTTP
    and TCP clients. Every step is what one thread does between two points where
    others can interfere: a locked section, the read of [running_] outside of it, a call
    of a task. [Condition::wait] is two steps: going to sleep, and the section that
    follows the wake-up. *)

From S2P Require Import Prelude.

(** ** Condition variables

    The threads that may wait for a condition are a list; [asleep]: waiting and not yet
    woken, [wake]: what a signal does to such a thread. *)

Module Condition.

Class Waiter (T : Type) := { asleep : T → bool; wake : T → T }.

Section condition.
Context {T : Type} `{!Waiter T}.

(** [notify] ([pthread_cond_signal]): one sleeping thread wakes if there is one; the
    system chooses [k]. [None]: [k] is not a choice the system has. *)
Definition notify (k : nat) (l : list T) : option (list T) :=
  if existsb asleep l
  then t ← l !! k; if asleep t then Some (<[k := wake t]> l) else None
  else Some l.
(** [notifyAll] ([pthread_cond_broadcast]) *)
Definition notifyAll (l : list T) : list T := (λ t, if asleep t then wake t else t) <$> l.
(** [pthread_cond_wait] may return without a signal. *)
Definition spurious (k : nat) (l : list T) : option (list T) :=
  t ← l !! k; if asleep t then Some (<[k := wake t]> l) else None.

(** How many threads are in a state [f]. *)
Definition count (f : T → bool) (l : list T) : nat := length (filter (λ t, f t = true) l).

Lemma count_app f l1 l2 : count f (l1 ++ l2) = (count f l1 + count f l2)%nat.
Proof. unfold count. by rewrite filter_app, length_app. Qed.
Lemma count_one f t : count f [t] = if f t then 1%nat else 0%nat.
Proof. unfold count. cbn. by destruct (f t). Qed.
Lemma count_insert f l k t t' :
  l !! k = Some t →
  (count f (<[k := t']> l) + (if f t then 1 else 0) = count f l + (if f t' then 1 else 0))%nat.
Proof.
  intros Hk. rewrite <- (take_drop_middle l k t Hk) at 2.
  rewrite insert_take_drop by (by eapply lookup_lt_Some).
  change (t' :: drop (S k) l) with ([t'] ++ drop (S k) l). change (t :: drop (S k) l) with ([t] ++ drop (S k) l).
  rewrite !count_app, !count_one. destruct (f t), (f t'); lia.
Qed.
Lemma count_existsb f l : existsb f l = true ↔ (0 < count f l)%nat.
Proof.
  induction l as [|t l IH]; [by split; [|cbn; lia]|]. change (t :: l) with ([t] ++ l). rewrite existsb_app, count_app, count_one. cbn.
  destruct (f t); cbn; [split; [lia|done]|done].
Qed.
Lemma count_pos f l k t : l !! k = Some t → f t = true → (0 < count f l)%nat.
Proof. intros Hk Ht. apply count_existsb, existsb_exists. exists t. split; [by eapply list_elem_of_In, list_elem_of_lookup_2|done]. Qed.
Lemma count_witness f l : (0 < count f l)%nat → ∃ k t, l !! k = Some t ∧ f t = true.
Proof.
  intros (t & Hin & Ht)%count_existsb%existsb_exists. apply list_elem_of_In, list_elem_of_lookup in Hin as [k Hk]. eauto.
Qed.

(** A choice exists. *)
Lemma notify_total l : ∃ k l', notify k l = Some l'.
Proof.
  unfold notify. destruct (existsb asleep l) eqn:E; [|by exists O, l].
  apply count_existsb, count_witness in E as (k & t & Hk & Ht). exists k. rewrite Hk. cbn. rewrite Ht. eauto.
Qed.
Lemma notify_cases k l l' :
  notify k l = Some l' →
  (count asleep l = 0%nat ∧ l' = l) ∨ (∃ t, l !! k = Some t ∧ asleep t = true ∧ l' = <[k := wake t]> l).
Proof.
  unfold notify. destruct (existsb asleep l) eqn:E.
  - destruct (l !! k) as [t|]; [cbn|done]. destruct (asleep t) eqn:Ht; [|done]. intros [= <-]. eauto.
  - intros [= <-]. left. split; [|done]. destruct (count asleep l) eqn:Hc; [done|].
    assert (existsb asleep l = true) by (apply count_existsb; lia). congruence.
Qed.
Lemma spurious_inv k l l' :
  spurious k l = Some l' → ∃ t, l !! k = Some t ∧ asleep t = true ∧ l' = <[k := wake t]> l.
Proof. unfold spurious. destruct (l !! k) as [t|]; [cbn|done]. destruct (asleep t) eqn:E; [|done]. intros [= <-]. eauto. Qed.
End condition.
#[global] Arguments count : simpl never.
#[global] Arguments notifyAll : simpl never.
#[global] Arguments asleep {T _} !t /.
End Condition.

(** ** The pool *)

Module ThreadPool.
Import Condition.

(** A [std::function<void ()>]: empty, or a function with a name of its own. *)
Definition Task : Type := option nat.

(** Where a worker ([runInThread]) is. *)
Inductive Worker :=
  | WInit           (* has not called [threadInitCallback_] yet *)
  | WCheck          (* at [while (running_)] *)
  | WTake           (* about to enter [take] *)
  | WSleep          (* in [notEmpty_.wait()] *)
  | WWoken          (* woken, about to lock the mutex again *)
  | WHave (t : Task) (* [take] has returned [t] *)
  | WRun (n : nat)  (* in [task()] *)
  | WDone.          (* [runInThread] has returned *)
#[export] Instance Worker_dec : EqDecision Worker.
Proof. solve_decision. Defined.

(** Where a call of [run] is that found threads. *)
Inductive CallPc := CEnter | CSleep | CWoken | CReturned.
#[export] Instance CallPc_dec : EqDecision CallPc.
Proof. solve_decision. Defined.
Record Call := { c_task : Task; c_pc : CallPc }.

#[export] Instance Worker_waits : Waiter Worker := {|
  asleep w := if w is WSleep then true else false; wake _ := WWoken |}.
#[export] Instance Call_waits : Waiter Call := {|
  asleep c := if c_pc c is CSleep then true else false; wake c := {| c_task := c_task c; c_pc := CWoken |} |}.

(** Where a call of [stop] is in its loop of joins: the next thread, and whether
    [pthread_join] is waiting for it. *)
Definition Stop : Type := nat * bool.

(** The members of the pool, the calls in progress, and the history of tasks:
    [accepted] by the queue, [taken] from it (by which worker), [called] (by which
    worker; [None]: by the thread that uses the pool). *)
Record ThreadPool := {
  maxQueueSize_ : Z;
  running_ : bool;
  threadInitCallback_ : Task;
  threads_ : list Worker;
  joined_ : list nat;
  queue_ : list Task;
  calls : list Call;
  stops : list Stop;
  accepted : list Task;
  taken : list (nat * Task);
  called : list (option nat * nat);
  inits : list (option nat * nat)
}.
#[export] Instance eta_ThreadPool : Eta ThreadPool := λ r, {|
  maxQueueSize_ := maxQueueSize_ r; running_ := running_ r; threadInitCallback_ := threadInitCallback_ r;
  threads_ := threads_ r; joined_ := joined_ r; queue_ := queue_ r; calls := calls r; stops := stops r;
  accepted := accepted r; taken := taken r; called := called r; inits := inits r |}.

Definition ThreadPool_new : ThreadPool := {|
  maxQueueSize_ := 0; running_ := false; threadInitCallback_ := None; threads_ := []; joined_ := [];
  queue_ := []; calls := []; stops := []; accepted := []; taken := []; called := []; inits := [] |}.

Definition setMaxQueueSize (maxSize : Z) : Op ThreadPool () := op_mod (λ p, p <| maxQueueSize_ := u64 maxSize |>).
Definition setThreadInitCallback (cb : Task) : Op ThreadPool () := op_mod (λ p, p <| threadInitCallback_ := cb |>).

(** [if (threadInitCallback_) threadInitCallback_();] *)
Definition call_init (who : option nat) : Op ThreadPool () :=
  cb ← op_get threadInitCallback_;
  match cb with Some n => op_mod (λ p, p <| inits ::= λ l, l ++ [(who, n)] |>) | None => mret () end.

(** The value is false where [reserve] throws [std::length_error] (a negative number
    is a huge [size_t]). The threads start to run when they take their first step. *)
Definition start (numThreads : Z) : Op ThreadPool bool :=
  ts ← op_get threads_;
  match ts with
  | _ :: _ => op_undefined (* assert(threads_.empty()) *)
  | [] =>
      _ ← op_mod (λ p, p <| running_ := true |>);
      if numThreads <? 0 then mret false else
      _ ← op_mod (λ p, p <| threads_ := replicate (Z.to_nat numThreads) WInit |>);
      _ ← (if numThreads =? 0 then call_init None else mret ());
      mret true
  end.

(** The locked section of [stop]; its joins are [join_step]. *)
Definition stop_section : Op ThreadPool () :=
  op_mod (λ p, p <| running_ := false |> <| threads_ ::= notifyAll |> <| stops ::= λ l, l ++ [(O, false)] |>).
Definition set_stop (s : nat) (x : Stop) : Op ThreadPool () := op_mod (λ p, p <| stops ::= <[s := x]> |>).
(** [thr->join()] of one thread: [Thread::join] asserts that it is the first, then
    [pthread_join] waits for the end of the thread. *)
Definition join_step (s : nat) : Op ThreadPool () :=
  '(k, waiting) ← op_find (λ p, stops p !! s);
  w ← op_find (λ p, threads_ p !! k);
  if waiting : bool then
    match w with WDone => set_stop s (S k, false) | _ => op_undefined (* still waiting *) end
  else
    joined ← op_get joined_;
    if decide (k ∈ joined) then op_undefined (* assert(!joined_) *)
    else _ ← op_mod (λ p, p <| joined_ ::= cons k |>); set_stop s (k, true).
(** [~ThreadPool] up to the joins. *)
Definition ThreadPool_delete : Op ThreadPool () :=
  r ← op_get running_; if r : bool then stop_section else mret ().

Definition queueSize (p : ThreadPool) : Z := Z.of_nat (length (queue_ p)).
Definition isFull (p : ThreadPool) : bool := (0 <? maxQueueSize_ p) && (maxQueueSize_ p <=? queueSize p).

(** A task called by the thread that uses the pool. An empty one throws
    [std::bad_function_call] to the caller and leaves the pool as it is. *)
Definition call_here (task : Task) : Op ThreadPool () :=
  match task with Some n => op_mod (λ p, p <| called ::= λ l, l ++ [(None, n)] |>) | None => mret () end.
(** [queue_.push_back(task); notEmpty_.notify();] *)
Definition push_back (task : Task) (k : nat) : Op ThreadPool () :=
  _ ← op_mod (λ p, p <| queue_ ::= λ q, q ++ [task] |> <| accepted ::= λ l, l ++ [task] |>);
  ts ← op_find (λ p, notify k (threads_ p));
  op_mod (λ p, p <| threads_ := ts |>).

(** [run] up to its section. *)
Definition run (task : Task) : Op ThreadPool () :=
  ts ← op_get threads_;
  match ts with
  | [] => call_here task
  | _ :: _ => op_mod (λ p, p <| calls ::= λ l, l ++ [{| c_task := task; c_pc := CEnter |}] |>)
  end.
Definition set_call (j : nat) (c : Call) : Op ThreadPool () := op_mod (λ p, p <| calls ::= <[j := c]> |>).
(** The section of [run], entered or entered again after a wait. *)
Definition run_section (j k : nat) : Op ThreadPool () :=
  c ← op_find (λ p, calls p !! j);
  match c_pc c with
  | CEnter | CWoken =>
      full ← op_get isFull;
      if full : bool then set_call j {| c_task := c_task c; c_pc := CSleep |}
      else _ ← push_back (c_task c) k; set_call j {| c_task := c_task c; c_pc := CReturned |}
  | CSleep | CReturned => op_undefined
  end.
Definition TryRun (task : Task) (k : nat) : Op ThreadPool bool :=
  ts ← op_get threads_;
  match ts with
  | [] => _ ← call_here task; mret true
  | _ :: _ =>
      full ← op_get isFull;
      if full : bool then mret false else _ ← push_back task k; mret true
  end.

Definition set_worker (i : nat) (w : Worker) : Op ThreadPool () := op_mod (λ p, p <| threads_ ::= <[i := w]> |>).
(** The section of [take], entered or entered again after a wait. *)
Definition take_section (i k : nat) : Op ThreadPool () :=
  q ← op_get queue_;
  r ← op_get running_;
  match q with
  | [] => if r : bool then set_worker i WSleep else set_worker i (WHave None)
  | task :: q' =>
      _ ← op_mod (λ p, p <| queue_ := q' |> <| taken ::= λ l, l ++ [(i, task)] |>);
      m ← op_get maxQueueSize_;
      _ ← (if 0 <? m then cs ← op_find (λ p, notify k (calls p)); op_mod (λ p, p <| calls := cs |>) else mret ());
      set_worker i (WHave task)
  end.
(** The next step of worker [i] in [runInThread]; tasks return. *)
Definition runInThread (i k : nat) : Op ThreadPool () :=
  w ← op_find (λ p, threads_ p !! i);
  match w with
  | WInit => _ ← call_init (Some i); set_worker i WCheck
  | WCheck => r ← op_get running_; set_worker i (if r : bool then WTake else WDone)
  | WTake | WWoken => take_section i k
  | WHave (Some n) => _ ← op_mod (λ p, p <| called ::= λ l, l ++ [(Some i, n)] |>); set_worker i (WRun n)
  | WHave None | WRun _ => set_worker i WCheck
  | WSleep | WDone => op_undefined
  end.

(** *** Everything that can happen

    The maximal size is set before [start], as the header asks, and so is the callback. *)
Inductive Event :=
  | ESetMax (maxSize : Z) | ESetInit (cb : Task)
  | EStart (numThreads : Z)
  | ERun (task : Task) | ESection (j k : nat) | ETryRun (task : Task) (k : nat)
  | EWorker (i k : nat)
  | EWakeWorker (i : nat) | EWakeCall (j : nat)
  | EStop | EJoin (s : nat) | EDelete.

Definition before_start (m : Op ThreadPool ()) : Op ThreadPool () :=
  ts ← op_get threads_; match ts with [] => m | _ :: _ => op_undefined end.
Definition handle (e : Event) : Op ThreadPool () :=
  match e with
  | ESetMax m => before_start (setMaxQueueSize m)
  | ESetInit cb => before_start (setThreadInitCallback cb)
  | EStart n => _ ← start n; mret ()
  | ERun t => run t
  | ESection j k => run_section j k
  | ETryRun t k => _ ← TryRun t k; mret ()
  | EWorker i k => runInThread i k
  | EWakeWorker i => ts ← op_find (λ p, spurious i (threads_ p)); op_mod (λ p, p <| threads_ := ts |>)
  | EWakeCall j => cs ← op_find (λ p, spurious j (calls p)); op_mod (λ p, p <| calls := cs |>)
  | EStop => stop_section
  | EJoin s => join_step s
  | EDelete => ThreadPool_delete
  end.
Fixpoint run_events (l : list Event) (p : ThreadPool) : option ThreadPool :=
  match l with
  | [] => Some p
  | e :: l' => match handle e p with Some (_, p') => run_events l' p' | None => None end
  end.
Inductive reachable : ThreadPool → Prop :=
  | reach_new : reachable ThreadPool_new
  | reach_step p e p' : reachable p → handle e p = Some ((), p') → reachable p'.

(** ** The invariant *)

Definition coming (w : Worker) : bool := match w with WInit | WCheck | WTake | WWoken => true | _ => false end.
Definition finished (w : Worker) : bool := match w with WDone => true | _ => false end.
Definition arriving (c : Call) : bool := match c_pc c with CEnter | CWoken => true | _ => false end.
(** The task worker [w] has and has not called yet. *)
Definition held (w : Worker) : list nat := match w with WHave (Some n) => [n] | _ => [] end.

(** What worker [i] has taken, called and not called, in order. *)
Definition taken_by (i : nat) (p : ThreadPool) : list nat :=
  omap (λ x, if decide (x.1 = i) then x.2 else None) (taken p).
Definition called_by (i : nat) (p : ThreadPool) : list nat :=
  omap (λ x, if decide (x.1 = Some i) then Some x.2 else None) (called p).
Definition held_by (i : nat) (p : ThreadPool) : list nat := default [] (held <$> threads_ p !! i).

Record Inv (p : ThreadPool) : Prop := {
  inv_fifo : (taken p).*2 ++ queue_ p = accepted p;
  inv_bound : 0 < maxQueueSize_ p → queueSize p <= maxQueueSize_ p;
  inv_hist i : taken_by i p = called_by i p ++ held_by i p;
  inv_idle : threads_ p = [] → queue_ p = [] ∧ calls p = [];
  inv_run : (if running_ p then count finished (threads_ p) else count asleep (threads_ p)) = 0%nat;
  inv_wake : (0 < count asleep (threads_ p) → length (queue_ p) <= count coming (threads_ p))%nat;
  inv_full : (0 < count asleep (calls p))%nat →
    0 < maxQueueSize_ p <= queueSize p + Z.of_nat (count arriving (calls p))
}.

Lemma pool_Inv_new : Inv ThreadPool_new.
Proof. split; try done; cbv [count]; cbn; lia. Qed.

(** The counts after one element of a list has changed. *)
Ltac counts Hk t' :=
  repeat match goal with
  | H : context [count ?f (<[?k := t']> ?l)] |- _ => lazymatch goal with
      | _ : (count f (<[k := t']> l) + _ = _)%nat |- _ => fail
      | _ => pose proof (count_insert f l k _ t' Hk) end
  | |- context [count ?f (<[?k := t']> ?l)] => lazymatch goal with
      | _ : (count f (<[k := t']> l) + _ = _)%nat |- _ => fail
      | _ => pose proof (count_insert f l k _ t' Hk) end
  end.

Lemma held_insert i k w w' p :
  threads_ p !! k = Some w → held w' = held w →
  held_by i (p <| threads_ ::= <[k := w']> |>) = held_by i p.
Proof.
  intros Hk Hh. unfold held_by. cbn. destruct (decide (k = i)) as [->|Hi].
  - rewrite list_lookup_insert_eq by (by eapply lookup_lt_Some). rewrite Hk. cbn. done.
  - by rewrite list_lookup_insert_ne.
Qed.

(** A worker goes on. *)
Lemma Inv_worker k w w' p :
  Inv p → threads_ p !! k = Some w → held w' = held w →
  (if running_ p then finished w' = false else asleep w' = false) →
  queue_ p = [] ∨ running_ p = false ∨ asleep w' = false ∧ (coming w = true → coming w' = true) →
  Inv (p <| threads_ ::= <[k := w']> |>).
Proof.
  intros [] Hk Hh Hr Hq. split; cbn; try done.
  - intros i. rewrite (held_insert i k w w' p Hk Hh). apply inv_hist0.
  - intros E. apply (f_equal length) in E. rewrite length_insert in E. apply lookup_lt_Some in Hk. cbn in E. lia.
  - destruct (running_ p); counts Hk w'; rewrite Hr in *; lia.
  - counts Hk w'. destruct Hq as [-> |[Hq|[Hs Hc]]]; [cbn; lia| |].
    + rewrite Hq in *. rewrite Hr in *. destruct (asleep w); lia.
    + rewrite Hs in *. destruct (coming w); [rewrite (Hc eq_refl) in *|]; destruct (asleep w), (coming w'); lia.
Qed.

(** A signal moves one thread, if one sleeps, from the sleeping to the arriving ones. *)
Lemma notify_workers k ts ts' :
  notify k ts = Some ts' → ∃ c : nat, (c <= 1)%nat ∧ ((0 < count asleep ts)%nat → c = 1%nat) ∧
    (count asleep ts = count asleep ts' + c)%nat ∧ (count coming ts' = count coming ts + c)%nat ∧
    count finished ts' = count finished ts ∧ (∀ i, held <$> ts' !! i = held <$> ts !! i) ∧ length ts' = length ts.
Proof.
  intros [[H ->]|(w & Hk & Hw & ->)]%notify_cases; [exists O; repeat split; (done || lia)|].
  destruct w; try done. exists 1%nat. cbn [wake Worker_waits]. counts Hk WWoken. cbn in *.
  repeat split; try lia.
  - intros i. destruct (decide (k = i)) as [->|]; [|by rewrite list_lookup_insert_ne].
    rewrite list_lookup_insert_eq by (by eapply lookup_lt_Some). by rewrite Hk.
  - apply length_insert.
Qed.
Lemma notify_calls k cs cs' :
  notify k cs = Some cs' → ∃ c : nat, (c <= 1)%nat ∧ ((0 < count asleep cs)%nat → c = 1%nat) ∧
    (count asleep cs = count asleep cs' + c)%nat ∧ (count arriving cs' = count arriving cs + c)%nat ∧ length cs' = length cs.
Proof.
  intros [[H ->]|([t pc] & Hk & Hw & ->)]%notify_cases; [exists O; repeat split; (done || lia)|].
  destruct pc; try done. exists 1%nat. set (c' := wake _). counts Hk c'. cbn in *.
  repeat split; try lia. apply length_insert.
Qed.

(** A task enters the queue; the call that gave it (if one has been waiting) leaves. *)
Lemma Inv_push p t k ts cs :
  Inv p → threads_ p ≠ [] → isFull p = false → notify k (threads_ p) = Some ts →
  count asleep cs = count asleep (calls p) → (count arriving (calls p) <= S (count arriving cs))%nat →
  Inv (p <| queue_ ::= λ q, q ++ [t] |> <| accepted ::= λ l, l ++ [t] |> <| threads_ := ts |> <| calls := cs |>).
Proof.
  intros [] Hne Hfull (c & Hc & Hc1 & Hs & Hco & Hf & Hh & Hl)%notify_workers Ha Har.
  unfold isFull, queueSize in *. split; cbn; unfold queueSize; cbn; rewrite ?length_app; cbn [length].
  - by rewrite app_assoc, inv_fifo0.
  - lia.
  - intros i. unfold held_by. cbn. rewrite Hh. apply inv_hist0.
  - intros ->. symmetry in Hl. by apply length_zero_iff_nil in Hl.
  - destruct (running_ p); lia.
  - lia.
  - lia.
Qed.

(** A worker takes the first task of the queue and signals that there is room. *)
Lemma Inv_take p i w t q k cs :
  Inv p → threads_ p !! i = Some w → coming w = true → held w = [] → queue_ p = t :: q →
  (if 0 <? maxQueueSize_ p then notify k (calls p) else Some (calls p)) = Some cs →
  Inv (p <| queue_ := q |> <| taken ::= λ l, l ++ [(i, t)] |> <| calls := cs |> <| threads_ ::= <[i := WHave t]> |>).
Proof.
  intros [] Hi Hw Hh Hq Hcs. unfold queueSize in *. rewrite Hq in *. cbn [length] in *.
  assert (length cs = length (calls p) ∧ ((0 < count asleep cs)%nat → (0 < count asleep (calls p))%nat ∧
    count arriving cs = S (count arriving (calls p)))) as [Hl Hn].
  { destruct (Z.ltb_spec 0 (maxQueueSize_ p)); [|injection Hcs as <-; split; [done|intros; lia]].
    apply notify_calls in Hcs as (c & Hc & Hc1 & ? & ? & ?). split; [done|intros; lia]. }
  assert (asleep w = false) as Hws by (by destruct w). assert (finished w = false) as Hwf by (by destruct w).
  split; cbn; unfold queueSize; cbn.
  - rewrite fmap_app, <- app_assoc. exact inv_fifo0.
  - lia.
  - intros j. specialize (inv_hist0 j). unfold taken_by, called_by, held_by in *. cbn. rewrite omap_app. cbn.
    destruct (decide (i = j)) as [->|Hj].
    + rewrite list_lookup_insert_eq by (by eapply lookup_lt_Some). rewrite inv_hist0, Hi. cbn. rewrite Hh, app_nil_r.
      by destruct t.
    + rewrite list_lookup_insert_ne by done. by rewrite app_nil_r.
  - intros E. apply (f_equal length) in E. rewrite length_insert in E. apply lookup_lt_Some in Hi. cbn in E. lia.
  - destruct (running_ p); counts Hi (WHave t); rewrite ?Hws, ?Hwf in *; cbn in *; lia.
  - counts Hi (WHave t). rewrite Hws, Hw in *. cbn in *. lia.
  - lia.
Qed.

(** A call of [run] goes on, without the queue. *)
Lemma pool_Inv_call p j c c' :
  Inv p → calls p !! j = Some c →
  (if asleep c' then 0 < maxQueueSize_ p <= queueSize p else arriving c' = true) →
  Inv (p <| calls ::= <[j := c']> |>).
Proof.
  intros [] Hj Hc. split; cbn; unfold queueSize; cbn; try done.
  - intros E. destruct (inv_idle0 E) as [_ E']. by rewrite E' in Hj.
  - fold (queueSize p). counts Hj c'. destruct (asleep c'); [lia|]. rewrite Hc in *. destruct (asleep c), (arriving c); lia.
Qed.

(** Fields the invariant does not read. *)
Lemma pool_Inv_ext p p' :
  Inv p → maxQueueSize_ p' = maxQueueSize_ p → running_ p' = running_ p → threads_ p' = threads_ p →
  queue_ p' = queue_ p → calls p' = calls p → accepted p' = accepted p → taken p' = taken p →
  (∀ i, called_by i p' = called_by i p) → Inv p'.
Proof.
  intros [] E1 E2 E3 E4 E5 E6 E7 E8. unfold queueSize, held_by, taken_by in *.
  split; unfold queueSize, held_by, taken_by; rewrite ?E1, ?E2, ?E3, ?E4, ?E5, ?E6, ?E7; try done.
  intros i. rewrite E8. apply inv_hist0.
Qed.
Lemma Inv_call_init who p : Inv p → ∃ p', call_init who p = Some ((), p') ∧ Inv p' ∧
  threads_ p' = threads_ p ∧ running_ p' = running_ p.
Proof.
  intros HI. unfold call_init. rewrite op_bind_get. destruct (threadInitCallback_ p); eexists; (split; [done|]).
  - split; [by eapply pool_Inv_ext|done].
  - done.
Qed.
Lemma Inv_call_here t p u p' : Inv p → call_here t p = Some (u, p') → Inv p'.
Proof.
  intros HI. destruct t as [n|]; cbn; intros [= <- <-]; [|done].
  eapply pool_Inv_ext; try done. intros i. unfold called_by. cbn. rewrite omap_app. cbn. by rewrite app_nil_r.
Qed.

Lemma count_replicate (f : Worker → bool) n w : count f (replicate n w) = if f w then n else O.
Proof.
  induction n as [|n IH]; [by destruct (f w)|]. change (replicate (S n) w) with ([w] ++ replicate n w).
  rewrite count_app, count_one, IH. by destruct (f w).
Qed.
Lemma count_notifyAll (ts : list Worker) :
  count asleep (notifyAll ts) = O ∧ count finished (notifyAll ts) = count finished ts.
Proof.
  induction ts as [|w ts [IH1 IH2]]; [done|].
  change (notifyAll (w :: ts)) with ([if asleep w then wake w else w] ++ notifyAll ts). change (w :: ts) with ([w] ++ ts).
  rewrite !count_app, !count_one, IH1, IH2. by destruct w.
Qed.

Lemma Inv_threads p ts r :
  Inv p → count asleep ts = O → (r = true → count finished ts = O) →
  (∀ i, held <$> ts !! i = held <$> threads_ p !! i ∨ held_by i p = [] ∧ default [] (held <$> ts !! i) = []) →
  (ts = [] → threads_ p = []) →
  Inv (p <| running_ := r |> <| threads_ := ts |>).
Proof.
  intros [] Ha Hf Hh He. split; cbn; unfold queueSize; cbn; try done.
  - intros i. etransitivity; [apply (inv_hist0 i)|]. f_equal. unfold held_by in *. cbn. destruct (Hh i) as [->|[-> ->]]; done.
  - intros E. by apply inv_idle0, He.
  - destruct r; [by apply Hf|done].
  - rewrite Ha. lia.
Qed.
Lemma pool_Inv_start n p b p' : Inv p → start n p = Some (b, p') → Inv p'.
Proof.
  intros HI. unfold start. rewrite op_bind_get. destruct (threads_ p) eqn:Et; [|done]. rewrite op_bind_mod.
  assert (Hnone : ∀ i : nat, held_by i p = []) by (intros i; unfold held_by; by rewrite Et).
  destruct (n <? 0).
  - intros [= <- <-]. replace (p <| running_ := true |>) with (p <| running_ := true |> <| threads_ := [] |>) by (cbn; by rewrite <- Et).
    apply Inv_threads; try done. intros i. left. by rewrite Et.
  - rewrite op_bind_mod. set (p1 := _ <| threads_ := _ |>). assert (Inv p1) as H1.
    { apply Inv_threads; try done; [by rewrite count_replicate..|].
      intros i. right. split; [done|]. destruct (_ !! i) eqn:E; [|done]. by apply lookup_replicate in E as [-> _]. }
    rewrite op_bind_run. destruct (n =? 0).
    + destruct (Inv_call_init None p1 H1) as (p2 & -> & H2 & _). by intros [= <- <-].
    + by intros [= <- <-].
Qed.
Lemma held_notifyAll ts i : held <$> notifyAll ts !! i = held <$> ts !! i.
Proof. unfold notifyAll. rewrite list_lookup_fmap. destruct (ts !! i) as [[]|]; done. Qed.
Lemma Inv_stop_section p u p' : Inv p → stop_section p = Some (u, p') → Inv p'.
Proof.
  intros HI [= _ <-]. destruct (count_notifyAll (threads_ p)) as [Ha Hf].
  eapply (pool_Inv_ext (p <| running_ := false |> <| threads_ := notifyAll (threads_ p) |>)); try done.
  apply Inv_threads; try done; [intros i; left; apply held_notifyAll|]. by destruct (threads_ p).
Qed.

Lemma Inv_push_back t k p u p' cs :
  Inv p → threads_ p ≠ [] → isFull p = false → push_back t k p = Some (u, p') →
  count asleep cs = count asleep (calls p) → (count arriving (calls p) <= S (count arriving cs))%nat →
  Inv (p' <| calls := cs |>).
Proof.
  intros HI Hne Hf. unfold push_back. rewrite op_bind_mod, op_bind_find. cbn.
  destruct (notify k (threads_ p)) as [ts|] eqn:E; [|done]. intros [= _ <-]. by eapply Inv_push.
Qed.
Lemma push_back_calls t k p u p' : push_back t k p = Some (u, p') → calls p' = calls p.
Proof. unfold push_back. rewrite op_bind_mod, op_bind_find. cbn. destruct (notify k (threads_ p)); [|done]. by intros [= _ <-]. Qed.
Lemma Inv_run_section j k p u p' : Inv p → run_section j k p = Some (u, p') → Inv p'.
Proof.
  intros HI. unfold run_section. rewrite op_bind_find. destruct (calls p !! j) as [c|] eqn:Ej; [|done].
  assert (threads_ p ≠ []) by (intros E; destruct (inv_idle _ HI E) as [_ E']; by rewrite E' in Ej).
  destruct (c_pc c) eqn:Ec; try done;
    rewrite op_bind_get; destruct (isFull p) eqn:Ef;
    try (intros [= _ <-]; eapply pool_Inv_call; [done..|]; unfold isFull in Ef; cbn; lia);
    rewrite op_bind_run; destruct (push_back _ _ _) as [[u1 p1]|] eqn:E1; try done; intros [= _ <-];
    match goal with |- Inv (set_with calls ?f ?q) => change (Inv (q <| calls := f (calls q) |>)) end;
    rewrite (push_back_calls _ _ _ _ _ E1); eapply Inv_push_back; try done;
    set (c' := {| c_task := _; c_pc := _ |}); counts Ej c'; destruct c as [t pc]; cbn in *; subst pc; cbn in *; lia.
Qed.
Lemma Inv_TryRun t k p b p' : Inv p → TryRun t k p = Some (b, p') → Inv p'.
Proof.
  intros HI. unfold TryRun. rewrite op_bind_get. destruct (threads_ p) eqn:Et.
  - rewrite op_bind_run. destruct (call_here t p) as [[u1 p1]|] eqn:E; [|done]. intros [= _ <-]. by eapply Inv_call_here.
  - rewrite op_bind_get. destruct (isFull p) eqn:Ef; [by intros [= _ <-]|].
    rewrite op_bind_run. destruct (push_back t k p) as [[u1 p1]|] eqn:E; [|done]. intros [= _ <-].
    assert (Inv (p1 <| calls := calls p |>)) as H by (eapply Inv_push_back; [done|by rewrite Et|done..|lia]).
    rewrite <- (push_back_calls _ _ _ _ _ E) in H. by destruct p1.
Qed.

Lemma Inv_take_section i k w p u p' :
  Inv p → threads_ p !! i = Some w → coming w = true → held w = [] → take_section i k p = Some (u, p') → Inv p'.
Proof.
  intros HI Hi Hw Hh. unfold take_section. rewrite !op_bind_get. destruct (queue_ p) as [|t q] eqn:Eq.
  - destruct (running_ p) eqn:Er; intros [= _ <-]; (eapply Inv_worker; [done..| |by left]); by rewrite Er.
  - rewrite op_bind_mod, op_bind_get. cbn [maxQueueSize_ set_with]. rewrite op_bind_run.
    change (maxQueueSize_ (_ <| taken ::= _ |>)) with (maxQueueSize_ p).
    assert (∀ cs, (if 0 <? maxQueueSize_ p then notify k (calls p) else Some (calls p)) = Some cs →
      Inv (p <| queue_ := q |> <| taken ::= λ l, l ++ [(i, t)] |> <| calls := cs |> <| threads_ ::= <[i := WHave t]> |>))
      as H by (intros cs; by apply (Inv_take p i w t q k cs)).
    destruct (0 <? maxQueueSize_ p).
    + rewrite op_bind_find. change (calls (_ <| taken ::= _ |>)) with (calls p).
      destruct (notify k (calls p)) as [cs|]; [|done]. intros [= _ <-]. by apply H.
    + intros [= _ <-]. by apply (H (calls p)).
Qed.
Lemma Inv_runInThread i k p u p' : Inv p → runInThread i k p = Some (u, p') → Inv p'.
Proof.
  intros HI. unfold runInThread. rewrite op_bind_find. destruct (threads_ p !! i) as [w|] eqn:Ei; [|done].
  destruct w as [| | | | |[n|]|n|]; try done.
  - rewrite op_bind_run. destruct (Inv_call_init (Some i) p HI) as (p1 & -> & H1 & Ht & Hr). intros [= _ <-].
    eapply Inv_worker; [done|by rewrite Ht|done|by destruct (running_ p1)|by right; right].
  - rewrite op_bind_get. intros [= _ <-].
    eapply Inv_worker; [done..|by destruct (running_ p)|by destruct (running_ p)|]. destruct (running_ p); auto.
  - by eapply Inv_take_section.
  - by eapply Inv_take_section.
  - rewrite op_bind_mod. intros [= _ <-]. destruct HI. split; cbn; unfold queueSize in *; cbn; try done.
    + intros j. specialize (inv_hist0 j). unfold taken_by, called_by, held_by in *. cbn. rewrite omap_app. cbn.
      rewrite inv_hist0, <- app_assoc. f_equal. destruct (decide (i = j)) as [->|Hj].
      * rewrite list_lookup_insert_eq by (by eapply lookup_lt_Some). rewrite Ei. cbn. by rewrite decide_True.
      * rewrite list_lookup_insert_ne by done. by rewrite decide_False by congruence.
    + intros E. apply (f_equal length) in E. rewrite length_insert in E. apply lookup_lt_Some in Ei. cbn in E. lia.
    + destruct (running_ p); counts Ei (WRun n); cbn in *; lia.
    + counts Ei (WRun n). cbn in *. lia.
  - intros [= _ <-]. eapply Inv_worker; [done..|by destruct (running_ p)|by right; right].
  - intros [= _ <-]. eapply Inv_worker; [done..|by destruct (running_ p)|by right; right].
Qed.

Lemma Inv_join_step s p u p' : Inv p → join_step s p = Some (u, p') → Inv p'.
Proof.
  intros HI. unfold join_step. rewrite op_bind_find. destruct (stops p !! s) as [[k b]|]; [|done].
  rewrite op_bind_find. destruct (threads_ p !! k) as [w|]; [|done]. destruct b.
  - destruct w; try done. intros [= _ <-]. by eapply pool_Inv_ext.
  - rewrite op_bind_get. destruct (decide _); [done|]. intros [= _ <-]. by eapply pool_Inv_ext.
Qed.
Lemma Inv_before_start m p u p' :
  (threads_ p = [] → queue_ p = [] → calls p = [] → m p = Some (u, p') → Inv p') → Inv p →
  before_start m p = Some (u, p') → Inv p'.
Proof.
  intros Hm HI. unfold before_start. rewrite op_bind_get. destruct (threads_ p) eqn:E; [|done].
  destruct (inv_idle _ HI E). by apply Hm.
Qed.

Lemma Inv_handle e p p' : Inv p → handle e p = Some ((), p') → Inv p'.
Proof.
  intros HI. destruct e; cbn [handle].
  - apply Inv_before_start; [|done]. intros Et Eq Ec [= <-]. destruct HI.
    split; cbn; unfold queueSize; cbn; rewrite ?Eq, ?Ec, ?Et in *; try done; cbv [count]; cbn; lia.
  - apply Inv_before_start; [|done]. intros _ _ _ [= <-]. by eapply pool_Inv_ext.
  - rewrite op_bind_run. destruct (start _ p) as [[b p1]|] eqn:E; [|done]. intros [= <-]. by eapply pool_Inv_start.
  - unfold run. rewrite op_bind_get. destruct (threads_ p) eqn:Et; [by apply Inv_call_here|].
    intros [= <-]. destruct HI. split; cbn; unfold queueSize; cbn; rewrite ?Et in *; try done.
    rewrite !count_app, !count_one. cbn. intros Hs. unfold queueSize in *. lia.
  - by apply Inv_run_section.
  - rewrite op_bind_run. destruct (TryRun _ _ p) as [[b p1]|] eqn:E; [|done]. intros [= <-]. by eapply Inv_TryRun.
  - by apply Inv_runInThread.
  - rewrite op_bind_find. destruct (spurious i (threads_ p)) as [ts|] eqn:E; [|done]. intros [= <-].
    apply spurious_inv in E as (w & Hi & Hw & ->). destruct w; try done.
    eapply (Inv_worker i); [done..|by destruct (running_ p)|by right; right].
  - rewrite op_bind_find. destruct (spurious j (calls p)) as [cs|] eqn:E; [|done]. intros [= <-].
    apply spurious_inv in E as (c & Hj & Hc & ->). by eapply (pool_Inv_call p j).
  - by apply Inv_stop_section.
  - by apply Inv_join_step.
  - unfold ThreadPool_delete. rewrite op_bind_get. destruct (running_ p); [by apply Inv_stop_section|by intros [= <-]].
Qed.
Lemma pool_Inv_reachable p : reachable p → Inv p.
Proof. induction 1; [apply pool_Inv_new|by eapply Inv_handle]. Qed.

Lemma pool_reachable_run l p p' : reachable p → run_events l p = Some p' → reachable p'.
Proof.
  revert p. induction l as [|e l IH]; intros p Hp; cbn [run_events]; [by intros [= <-]|].
  destruct (handle e p) as [[[] p1]|] eqn:E; [|done]. apply IH. by eapply reach_step.
Qed.

(** ** Tasks *)

(** C28: What becomes of tasks: the workers take them in the order in which the queue
    accepted them, each once, and those that are not taken are in the queue; a worker
    calls what it takes, in that order, each task once and one at a time (empty ones
    excepted); the queue is never longer than its maximal size. *)
Theorem tasks_in_order p :
  reachable p →
  (taken p).*2 ++ queue_ p = accepted p ∧
  (∀ i, taken_by i p = called_by i p ++ held_by i p ∧ (length (held_by i p) <= 1)%nat) ∧
  (0 < maxQueueSize_ p → queueSize p <= maxQueueSize_ p).
Proof.
  intros HI%pool_Inv_reachable. split; [apply HI|]. split; [|apply HI]. intros i. split; [apply HI|].
  unfold held_by. destruct (threads_ p !! i) as [[| | | | |[]| |]|]; cbn; lia.
Qed.

(** ** No thread sleeps while there is something for it to do *)

Lemma take_section_total i p : ∃ k p', take_section i k p = Some ((), p').
Proof.
  destruct (notify_total (calls p)) as (k & cs & Hk). exists k. unfold take_section. rewrite !op_bind_get.
  destruct (queue_ p) as [|t q]; [destruct (running_ p); by eexists|].
  rewrite op_bind_mod, op_bind_get, op_bind_run. destruct (0 <? _); [|by eexists].
  rewrite op_bind_find. change (calls (_ <| taken ::= _ |>)) with (calls p). rewrite Hk. by eexists.
Qed.
Lemma active_worker_steps i w p :
  threads_ p !! i = Some w → asleep w = false → finished w = false →
  ∃ k p', handle (EWorker i k) p = Some ((), p').
Proof.
  intros Hi Hs Hf. cbn [handle]. unfold runInThread. setoid_rewrite op_bind_find. rewrite Hi.
  destruct w as [| | | | |[n|]|n|]; try done; try apply take_section_total; exists O; try by eexists.
  unfold call_init. rewrite op_bind_run, op_bind_get. destruct (threadInitCallback_ p); by eexists.
Qed.

(** C29: While the pool runs no wake-up is lost: if a worker sleeps, then for every
    waiting task another worker is on its way to the queue; if a caller of [run] sleeps,
    then the queue is full, or as many callers are on their way as it has room; and
    while tasks or callers wait, some worker or caller that is awake can go on. *)
Theorem pool_wakeups p :
  reachable p →
  (0 < count asleep (threads_ p) → length (queue_ p) <= count coming (threads_ p))%nat ∧
  ((0 < count asleep (calls p))%nat →
     0 < maxQueueSize_ p <= queueSize p + Z.of_nat (count arriving (calls p))) ∧
  (running_ p = true → threads_ p ≠ [] → queue_ p ≠ [] ∨ (0 < count asleep (calls p))%nat →
     ∃ e p', handle e p = Some ((), p') ∧
       match e with
       | EWorker i _ => ∃ w, threads_ p !! i = Some w ∧ asleep w = false
       | ESection j _ => ∃ c, calls p !! j = Some c ∧ arriving c = true
       | _ => False
       end).
Proof.
  intros HI%pool_Inv_reachable. split; [apply HI|]. split; [apply HI|]. intros Hr Hne Hw.
  pose proof (inv_run _ HI) as Hf. rewrite Hr in Hf.
  assert (queue_ p ≠ [] ∨ (0 < count arriving (calls p))%nat) as [Hq|Ha].
  { destruct Hw as [Hq|Hs]; [by left|]. apply (inv_full _ HI) in Hs. unfold queueSize in Hs.
    destruct (queue_ p); [right; cbn in Hs; lia|by left]. }
  - assert (∃ i w, threads_ p !! i = Some w ∧ asleep w = false) as (i & w & Hi & Hws).
    { destruct (decide (count asleep (threads_ p) = O)) as [H0|H0].
      - destruct (threads_ p) as [|w ts] eqn:Et; [done|]. exists O, w. split; [done|].
        destruct (asleep w) eqn:E; [|done]. by pose proof (count_pos asleep (w :: ts) O w eq_refl E); lia.
      - assert (0 < count coming (threads_ p))%nat as (i & w & Hi & Hc)%count_witness.
        { pose proof (inv_wake _ HI). destruct (queue_ p); [done|cbn in *; lia]. }
        exists i, w. split; [done|]. by destruct w. }
    destruct (active_worker_steps i w p Hi Hws) as (k & p' & Hp').
    { destruct (finished w) eqn:E; [|done]. pose proof (count_pos finished _ _ _ Hi E). lia. }
    exists (EWorker i k), p'. eauto.
  - apply count_witness in Ha as (j & c & Hj & Hc). destruct (notify_total (threads_ p)) as (k & ts & Hk).
    assert (∃ p', run_section j k p = Some ((), p')) as [p' Hp'].
    { unfold run_section, push_back. rewrite op_bind_find, Hj. unfold arriving in Hc.
      destruct (c_pc c); try done; rewrite op_bind_get; (destruct (isFull p); [by eexists|]);
        rewrite op_bind_run, op_bind_mod, op_bind_find; cbn; rewrite Hk; by eexists. }
    exists (ESection j k), p'. eauto.
Qed.

(** ** The end of the pool *)

(** How many steps of its own a worker of a stopped pool can still make. *)
Definition weight (w : Worker) : nat :=
  match w with WTake | WWoken | WSleep => 4 | WHave _ => 3 | WRun _ | WInit => 2 | WCheck => 1 | WDone => 0 end.
(** The same for a call of [stop] that waits for [n] threads. *)
Definition join_weight (n : nat) (x : Stop) : nat := 2 * (n - x.1) - (if x.2 then 1 else 0).
Definition pool_weight (p : ThreadPool) : nat :=
  sum_list_with weight (threads_ p) + sum_list_with (join_weight (length (threads_ p))) (stops p).
(** Steps of workers and of [stop]. *)
Definition ending (e : Event) : bool := match e with EWorker _ _ | EJoin _ => true | _ => false end.

Lemma sum_insert {A} (f : A → nat) l i x y :
  l !! i = Some x → (sum_list_with f (<[i := y]> l) + f x = sum_list_with f l + f y)%nat.
Proof.
  revert i. induction l as [|z l IH]; intros [|i]; [done..| |].
  - intros [= ->]. cbn. lia.
  - intros H. change (<[S i := y]> (z :: l)) with (z :: <[i := y]> l). cbn [sum_list_with]. specialize (IH i H). lia.
Qed.

(** Before and in the only call of [stop]: whom it has joined. *)
Definition Joins (p : ThreadPool) : Prop :=
  match stops p with
  | [] => joined_ p = []
  | [(k, b)] => Forall (λ x, x < k + if b then 1 else 0)%nat (joined_ p) ∧
      (k + (if b : bool then 1 else 0) <= length (threads_ p))%nat
  | _ => True
  end.

(** The fields that only [stop] and [start] change. *)
Definition same_stop (p p' : ThreadPool) : Prop :=
  stops p' = stops p ∧ joined_ p' = joined_ p ∧ (length (threads_ p) <= length (threads_ p'))%nat.
Lemma same_stop_Joins p p' : same_stop p p' → Joins p → Joins p'.
Proof.
  intros (E1 & E2 & E3). unfold Joins. rewrite E1, E2. destruct (stops p) as [|[k b] [|]]; [done| |done].
  intros [? ?]. split; [done|lia].
Qed.
Lemma notify_length {T} `{!Waiter T} k (l l' : list T) : notify k l = Some l' → length l' = length l.
Proof. intros [[_ ->]|(? & _ & _ & ->)]%notify_cases; [done|apply length_insert]. Qed.

(** What push, take and calls leave alone. *)
Definition calm (p p' : ThreadPool) : Prop :=
  stops p' = stops p ∧ joined_ p' = joined_ p ∧ running_ p' = running_ p ∧
  length (threads_ p') = length (threads_ p) ∧
  (count asleep (threads_ p) = O → threads_ p' = threads_ p).
Lemma calm_push_back t k p u p' : push_back t k p = Some (u, p') → calm p p'.
Proof.
  unfold push_back. rewrite op_bind_mod, op_bind_find. cbn. destruct (notify k (threads_ p)) as [ts|] eqn:E; [|done].
  intros [= _ <-]. repeat split; cbn; [by eapply notify_length|]. intros H.
  apply notify_cases in E as [[_ ->]|(w & Hk & Hw & _)]; [done|]. pose proof (count_pos asleep _ _ _ Hk Hw). lia.
Qed.
Lemma calm_call_here t p u p' : call_here t p = Some (u, p') → calm p p'.
Proof. destruct t; by intros [= _ <-]. Qed.
Lemma calm_run_section j k p u p' : run_section j k p = Some (u, p') → calm p p'.
Proof.
  unfold run_section. rewrite op_bind_find. destruct (calls p !! j) as [c|]; [|done].
  destruct (c_pc c); try done; rewrite op_bind_get; (destruct (isFull p); [by intros [= _ <-]|]);
    rewrite op_bind_run; destruct (push_back _ _ _) as [[u1 p1]|] eqn:E; try done; intros [= _ <-];
    by apply calm_push_back in E.
Qed.
Lemma calm_TryRun t k p b p' : TryRun t k p = Some (b, p') → calm p p'.
Proof.
  unfold TryRun. rewrite op_bind_get. destruct (threads_ p).
  - rewrite op_bind_run. destruct (call_here t p) as [[u1 p1]|] eqn:E; [|done]. intros [= _ <-]. by eapply calm_call_here.
  - rewrite op_bind_get. destruct (isFull p); [by intros [= _ <-]|].
    rewrite op_bind_run. destruct (push_back t k p) as [[u1 p1]|] eqn:E; [|done]. intros [= _ <-]. by eapply calm_push_back.
Qed.

(** A worker's step replaces this worker. *)
Lemma worker_effect i k p u p' :
  runInThread i k p = Some (u, p') → ∃ w w', threads_ p !! i = Some w ∧ threads_ p' = <[i := w']> (threads_ p) ∧
    stops p' = stops p ∧ joined_ p' = joined_ p ∧ running_ p' = running_ p ∧
    (running_ p = false → S (weight w') <= weight w)%nat.
Proof.
  unfold runInThread. rewrite op_bind_find. destruct (threads_ p !! i) as [w|]; [|done]. intros H. exists w.
  assert (∀ k, take_section i k p = Some (u, p') → ∃ w', threads_ p' = <[i := w']> (threads_ p) ∧
    stops p' = stops p ∧ joined_ p' = joined_ p ∧ running_ p' = running_ p ∧ (running_ p = false → weight w' = 3%nat)) as Ht.
  { clear. intros k. unfold take_section. rewrite !op_bind_get. destruct (queue_ p) as [|t q].
    - destruct (running_ p) eqn:E; intros [= _ <-]; eexists; repeat split; cbn; try done; by rewrite E.
    - rewrite op_bind_mod, op_bind_get, op_bind_run. destruct (0 <? _); [rewrite op_bind_find; destruct (notify _ _); [|done]|];
        intros [= _ <-]; by eexists. }
  destruct w as [| | | | |[n|]|n|]; try done;
    try (apply Ht in H as (w' & ? & ? & ? & ? & Hw'); exists w'; repeat split; try done; intros Hr; cbn; rewrite (Hw' Hr); lia).
  - revert H. unfold call_init. rewrite op_bind_run, op_bind_get. destruct (threadInitCallback_ p); intros [= _ <-]; eexists; repeat split; cbn; lia.
  - revert H. rewrite op_bind_get. intros [= _ <-]. eexists; repeat split; cbn. intros ->. done.
  - revert H. intros [= _ <-]. eexists; repeat split; cbn; lia.
  - revert H. intros [= _ <-]. eexists; repeat split; cbn; lia.
  - revert H. intros [= _ <-]. eexists; repeat split; cbn; lia.
Qed.

Lemma calm_same_stop p p' : calm p p' → same_stop p p'.
Proof. intros (? & ? & ? & ? & ?). repeat split; [done..|lia]. Qed.
Lemma join_effect s p u p' :
  join_step s p = Some (u, p') → ∃ x y, stops p !! s = Some x ∧ stops p' = <[s := y]> (stops p) ∧
    threads_ p' = threads_ p ∧ running_ p' = running_ p ∧ (x.1 < length (threads_ p))%nat ∧
    match x with
    | (k, false) => y = (k, true) ∧ joined_ p' = k :: joined_ p
    | (k, true) => y = (S k, false) ∧ joined_ p' = joined_ p
    end.
Proof.
  unfold join_step. rewrite op_bind_find. destruct (stops p !! s) as [[k b]|]; [|done].
  rewrite op_bind_find. destruct (threads_ p !! k) as [w|] eqn:Ek; [|done]. apply lookup_lt_Some in Ek. destruct b.
  - destruct w; try done. intros [= _ <-]. by exists (k, true), (S k, false).
  - rewrite op_bind_get. destruct (decide _); [done|]. intros [= _ <-]. by exists (k, false), (k, true).
Qed.
Lemma Joins_join s p u p' : Joins p → join_step s p = Some (u, p') → Joins p'.
Proof.
  intros HJ ([k b] & y & Hs & Hs' & Ht & _ & Hk & Hy)%join_effect. unfold Joins in *. rewrite Hs', Ht.
  destruct (stops p) as [|[k0 b0] [|]]; [done| |by destruct s as [|[|]], y].
  destruct s; [|done]. injection Hs as -> ->. cbn. destruct HJ as [HF Hl].
  destruct b, Hy as [-> ->]; cbn in *.
  - split; [|lia]. eapply Forall_impl; [exact HF|]. cbn. intros; lia.
  - split; [|lia]. constructor; [lia|]. eapply Forall_impl; [exact HF|]. cbn. intros; lia.
Qed.
Lemma Joins_stop_section p u p' : Joins p → stop_section p = Some (u, p') → Joins p'.
Proof.
  intros HJ [= _ <-]. unfold Joins in *. cbn. destruct (stops p) as [|x [|]]; cbn.
  - rewrite HJ. split; [done|lia].
  - by destruct x.
  - by destruct x.
Qed.
Lemma start_same_stop n p b p' : start n p = Some (b, p') → same_stop p p'.
Proof.
  unfold start. rewrite op_bind_get. destruct (threads_ p) eqn:Et; [|done]. rewrite op_bind_mod.
  unfold same_stop. rewrite Et. destruct (n <? 0); [intros [= _ <-]; cbn; rewrite Et; by split|].
  rewrite op_bind_mod, op_bind_run. unfold call_init. destruct (n =? 0); [|intros [= _ <-]; repeat split; cbn; lia].
  rewrite op_bind_get. destruct (threadInitCallback_ _); intros [= _ <-]; repeat split; cbn; lia.
Qed.
Lemma Joins_handle e p p' : Joins p → handle e p = Some ((), p') → Joins p'.
Proof.
  intros HJ. destruct e; cbn [handle].
  - unfold before_start. rewrite op_bind_get. destruct (threads_ p); [|done]. by intros [= <-].
  - unfold before_start. rewrite op_bind_get. destruct (threads_ p); [|done]. by intros [= <-].
  - rewrite op_bind_run. destruct (start _ p) as [[b p1]|] eqn:E; [|done]. intros [= <-].
    eapply same_stop_Joins; [by eapply start_same_stop|done].
  - unfold run. rewrite op_bind_get. destruct (threads_ p); [|by intros [= <-]].
    intros H%calm_call_here%calm_same_stop. by eapply same_stop_Joins.
  - intros H%calm_run_section%calm_same_stop. by eapply same_stop_Joins.
  - rewrite op_bind_run. destruct (TryRun _ _ p) as [[b p1]|] eqn:E; [|done]. intros [= <-].
    apply calm_TryRun, calm_same_stop in E. by eapply same_stop_Joins.
  - intros (w & w' & _ & Ht & Hs & Hj & _)%worker_effect. eapply same_stop_Joins; [|done].
    split; [done|]. split; [done|]. rewrite Ht, length_insert. lia.
  - rewrite op_bind_find. destruct (spurious i (threads_ p)) as [ts|] eqn:E; [|done]. intros [= <-].
    apply spurious_inv in E as (w & _ & _ & ->). eapply same_stop_Joins; [|done]. repeat split. cbn. rewrite length_insert. lia.
  - rewrite op_bind_find. destruct (spurious j (calls p)) as [cs|]; [|done]. by intros [= <-].
  - by apply Joins_stop_section.
  - by apply Joins_join.
  - unfold ThreadPool_delete. rewrite op_bind_get. destruct (running_ p); [by apply Joins_stop_section|by intros [= <-]].
Qed.
Lemma Joins_reachable p : reachable p → Joins p.
Proof. induction 1; [done|by eapply Joins_handle]. Qed.

(** A step of a stopped pool. *)
Lemma stopped_step e p p' :
  Inv p → running_ p = false → threads_ p ≠ [] → e ≠ EStop → handle e p = Some ((), p') →
  running_ p' = false ∧ length (threads_ p') = length (threads_ p) ∧ length (stops p') = length (stops p) ∧
  (pool_weight p' + (if ending e then 1 else 0) <= pool_weight p)%nat.
Proof.
  intros HI Hr Hne He H. pose proof (inv_run _ HI) as Hs. rewrite Hr in Hs.
  assert (calm p p' → ending e = false → running_ p' = false ∧ length (threads_ p') = length (threads_ p) ∧
    length (stops p') = length (stops p) ∧ (pool_weight p' + (if ending e then 1 else 0) <= pool_weight p)%nat) as Hcalm.
  { intros (E1 & E2 & E3 & E4 & E5) ->. unfold pool_weight. rewrite E1, (E5 Hs), E3. repeat split; [done|lia]. }
  destruct e; cbn [handle] in H; cbn [ending]; try done.
  - revert H. unfold before_start. rewrite op_bind_get. by destruct (threads_ p).
  - revert H. unfold before_start. rewrite op_bind_get. by destruct (threads_ p).
  - revert H. rewrite op_bind_run. unfold start. rewrite op_bind_get. by destruct (threads_ p).
  - apply Hcalm; [|done]. revert H. unfold run. rewrite op_bind_get. destruct (threads_ p); [done|]. by intros [= <-].
  - apply Hcalm; [|done]. by eapply calm_run_section.
  - apply Hcalm; [|done]. revert H. rewrite op_bind_run. destruct (TryRun _ _ p) as [[b p1]|] eqn:E; [|done]. intros [= <-].
    by eapply calm_TryRun.
  - apply worker_effect in H as (w & w' & Hi & Ht & Es & _ & Er & Hw). unfold pool_weight. rewrite Er, Es, Ht, length_insert.
    pose proof (sum_insert weight _ i w w' Hi). specialize (Hw Hr). repeat split; [done|lia].
  - revert H. rewrite op_bind_find. destruct (spurious i (threads_ p)) as [ts|] eqn:E; [|done].
    apply spurious_inv in E as (w & Hi & Hw & _). pose proof (count_pos asleep _ _ _ Hi Hw). lia.
  - apply Hcalm; [|done]. revert H. rewrite op_bind_find. destruct (spurious j (calls p)) as [cs|]; [|done]. by intros [= <-].
  - apply join_effect in H as ([k b] & y & Hx & Es & Et & Er & Hk & Hy). unfold pool_weight. cbn in Hk.
    assert (sum_list_with (join_weight (length (threads_ p))) (stops p') + join_weight (length (threads_ p)) (k, b) =
      sum_list_with (join_weight (length (threads_ p))) (stops p) + join_weight (length (threads_ p)) y)%nat as HS
      by (rewrite Es; by apply sum_insert).
    assert (join_weight (length (threads_ p)) (k, b) = S (join_weight (length (threads_ p)) y)) as Hjw
      by (destruct b, Hy as [-> _]; unfold join_weight; cbn; lia).
    rewrite Et, Er. repeat split; [done| |lia]. rewrite Es. apply length_insert.
  - revert H. unfold ThreadPool_delete. rewrite op_bind_get, Hr. intros [= <-]. repeat split; [done|lia].
Qed.

Lemma pool_weight_bound p : length (stops p) = 1%nat → (pool_weight p <= 6 * length (threads_ p))%nat.
Proof.
  intros Hs. unfold pool_weight.
  assert (∀ ts : list Worker, sum_list_with weight ts <= 4 * length ts)%nat as Hw.
  { induction ts as [|[] ts IH]; cbn in *; lia. }
  specialize (Hw (threads_ p)). destruct (stops p) as [|[k b] [|]]; try done. cbn. unfold join_weight. destruct b; cbn; lia.
Qed.
(** While [stop] has not returned, a worker or the join can go on. *)
Lemma stopped_progress p :
  Inv p → Joins p → running_ p = false → length (stops p) = 1%nat → stops p ≠ [(length (threads_ p), false)] →
  ∃ e p', ending e = true ∧ handle e p = Some ((), p').
Proof.
  intros HI HJ Hr H1 Hn. pose proof (inv_run _ HI) as Hs. rewrite Hr in Hs. unfold Joins in HJ.
  destruct (stops p) as [|[k b] [|]] eqn:Es; try done. destruct HJ as [HF Hk].
  assert (k < length (threads_ p))%nat as [w Hw]%lookup_lt_is_Some_2.
  { destruct b; [lia|]. destruct (decide (k = length (threads_ p))) as [->|]; [done|lia]. }
  destruct b.
  - destruct (finished w) eqn:Ef.
    + exists (EJoin 0). cbn [handle]. unfold join_step. setoid_rewrite op_bind_find. rewrite Es. cbn [lookup list_lookup].
      setoid_rewrite op_bind_find. rewrite Hw. destruct w; try done. by eexists.
    + destruct (active_worker_steps k w p Hw) as (c & p' & Hp'); [|done|by exists (EWorker k c), p'].
      destruct (asleep w) eqn:E; [|done]. pose proof (count_pos asleep _ _ _ Hw E). lia.
  - exists (EJoin 0). cbn [handle]. unfold join_step. setoid_rewrite op_bind_find. rewrite Es. cbn [lookup list_lookup].
    setoid_rewrite op_bind_find. rewrite Hw. setoid_rewrite op_bind_get. destruct (decide _) as [Hin|]; [|by eexists].
    rewrite Forall_forall in HF. specialize (HF k Hin). lia.
Qed.

(** How many steps of workers and of [stop] a run has. *)
Definition ending_steps (l : list Event) : nat := length (filter (λ e, ending e = true) l).
Lemma stopped_run l p p' :
  reachable p → running_ p = false → threads_ p ≠ [] → EStop ∉ l → run_events l p = Some p' →
  running_ p' = false ∧ length (threads_ p') = length (threads_ p) ∧ length (stops p') = length (stops p) ∧
  (ending_steps l + pool_weight p' <= pool_weight p)%nat.
Proof.
  revert p. induction l as [|e l IH]; intros p Hp Hr Hne Hl; cbn [run_events].
  - intros [= <-]. repeat split; [done|]. unfold ending_steps. cbn. lia.
  - destruct (handle e p) as [[[] p1]|] eqn:E; [|done]. apply not_elem_of_cons in Hl as [He Hl].
    destruct (stopped_step e p p1) as (H1 & H2 & H3 & H4); try done; [by apply pool_Inv_reachable|].
    intros Hrun. destruct (IH p1) as (H5 & H6 & H7 & H8); try done.
    + by eapply reach_step.
    + intros H0. rewrite H0 in H2. destruct (threads_ p); done.
    + rewrite H6, H7. repeat split; [done..|]. unfold ending_steps in *. rewrite filter_cons. case_decide; destruct (ending e); try done; cbn in *; lia.
Qed.

(** C30: [stop] returns: once it has cleared [running_], the workers and the joins make
    together at most six steps for each thread, whatever the callers of [run] do
    meanwhile, and as long as [stop] has not returned one of these steps can be made
    (tasks are taken to return, and [stop] to be called once). *)
Theorem stop_returns p l p' :
  reachable p → running_ p = false → threads_ p ≠ [] → length (stops p) = 1%nat →
  EStop ∉ l → run_events l p = Some p' →
  (ending_steps l <= 6 * length (threads_ p))%nat ∧
  (stops p' ≠ [(length (threads_ p'), false)] → ∃ e p'', ending e = true ∧ handle e p' = Some ((), p'')).
Proof.
  intros Hp Hr Hne H1 Hl Hrun. destruct (stopped_run l p p' Hp Hr Hne Hl Hrun) as (H2 & H3 & H4 & H5).
  split; [pose proof (pool_weight_bound p H1); lia|]. intros Hn.
  pose proof (pool_reachable_run _ _ _ Hp Hrun) as Hp'.
  apply stopped_progress; [by apply pool_Inv_reachable|by apply Joins_reachable|done|congruence|done].
Qed.

(** ** Runs *)

Definition pool_after (l : list Event) : ThreadPool := default ThreadPool_new (run_events l ThreadPool_new).
Definition defined (l : list Event) : bool := if run_events l ThreadPool_new is Some _ then true else false.
Lemma pool_reachable_after l : defined l = true → reachable (pool_after l).
Proof.
  unfold defined, pool_after. destruct (run_events l _) as [p|] eqn:E; [intros _|done].
  by eapply pool_reachable_run; [apply reach_new|].
Qed.
(** Two workers, room for one task, and four tasks of which the second waits for room. *)
Definition pool_begin : list Event := [ESetMax 1; EStart 2; EWorker 0 0; EWorker 0 0; EWorker 0 0; ERun (Some 1%nat); ESection 0 0;
  ERun (Some 2%nat); ESection 1 0].
Definition pool_work : list Event := pool_begin ++ [EWorker 0 1; ESection 1 0; EWorker 0 0; EWorker 0 0; EWorker 0 0; EWorker 0 0;
  EWorker 0 0; ETryRun (Some 3%nat) 0].
Definition pool_stop : list Event := pool_work ++ [ERun (Some 4%nat); ESection 2 0; EStop; EWorker 0 0].

Lemma tasks_in_order_witness :
  reachable (pool_after pool_work) ∧
  ((taken (pool_after pool_work)).*2 ++ queue_ (pool_after pool_work) = accepted (pool_after pool_work) ∧
   (∀ i, taken_by i (pool_after pool_work) = called_by i (pool_after pool_work) ++ held_by i (pool_after pool_work) ∧
     (length (held_by i (pool_after pool_work)) <= 1)%nat) ∧
   (0 < maxQueueSize_ (pool_after pool_work) → queueSize (pool_after pool_work) <= maxQueueSize_ (pool_after pool_work))).
Proof.
  assert (reachable (pool_after pool_work)) as H by (apply pool_reachable_after; vm_compute; reflexivity).
  split; [exact H|]. exact (tasks_in_order (pool_after pool_work) H).
Defined.
Lemma pool_wakeups_witness :
  (0 < count asleep (calls (pool_after pool_begin)))%nat ∧
  ∃ e p', handle e (pool_after pool_begin) = Some ((), p').
Proof.
  assert (reachable (pool_after pool_begin)) as H by (apply pool_reachable_after; vm_compute; reflexivity).
  assert (0 < count asleep (calls (pool_after pool_begin)))%nat as Hs by (vm_compute; lia). split; [exact Hs|].
  destruct (pool_wakeups (pool_after pool_begin) H) as (_ & _ & H3).
  destruct H3 as (e & p' & E & _); [vm_compute; reflexivity|vm_compute; discriminate|right; exact Hs|]. by exists e, p'.
Defined.
Lemma stop_returns_witness :
  (ending_steps [EWorker 0 0; EJoin 0; EWorker 1 0] <= 12)%nat ∧
  ∃ e p'', ending e = true ∧ handle e (pool_after (pool_stop ++ [EWorker 0 0; EJoin 0; EWorker 1 0])) = Some ((), p'').
Proof.
  assert (reachable (pool_after pool_stop)) as H by (apply pool_reachable_after; vm_compute; reflexivity).
  destruct (stop_returns (pool_after pool_stop) [EWorker 0 0; EJoin 0; EWorker 1 0]
    (pool_after (pool_stop ++ [EWorker 0 0; EJoin 0; EWorker 1 0])) H) as [H1 H2].
  - vm_compute. reflexivity.
  - vm_compute. discriminate.
  - vm_compute. reflexivity.
  - intros Hin. repeat (apply elem_of_cons in Hin as [E|Hin]; [discriminate E|]). by apply elem_of_nil in Hin.
  - vm_compute. reflexivity.
  - split; [exact H1|]. apply H2. vm_compute. discriminate.
Defined.

(** What [stop] leaves: no task of the queue is called any more, and who sleeps in [run]
    sleeps on, unless the system wakes it without a reason. *)
Lemma stop_abandons e p p' j c :
  count finished (threads_ p) = length (threads_ p) → threads_ p ≠ [] → handle e p = Some ((), p') →
  calls p !! j = Some c → asleep c = true → e ≠ EWakeCall j →
  taken p' = taken p ∧ called p' = called p ∧ calls p' !! j = Some c.
Proof.
  intros Hf Hne H Hj Hc He.
  assert (∀ i w, threads_ p !! i = Some w → finished w = true) as Hall.
  { intros i w Hi. destruct (finished w) eqn:E; [done|]. pose proof (count_insert finished _ i w WDone Hi) as HC. rewrite E in HC.
    pose proof (length_filter (λ t, finished t = true) (<[i := WDone]> (threads_ p))) as HL. rewrite length_insert in HL.
    unfold count in *. cbn in HC. lia. }
  assert (∀ t k u p1, push_back t k p = Some (u, p1) → taken p1 = taken p ∧ called p1 = called p ∧ calls p1 = calls p) as Hpush.
  { intros t k u p1. unfold push_back. rewrite op_bind_mod, op_bind_find. cbn. destruct (notify k _); [|done]. by intros [= _ <-]. }
  destruct e; cbn [handle] in H.
  - revert H. unfold before_start. rewrite op_bind_get. by destruct (threads_ p).
  - revert H. unfold before_start. rewrite op_bind_get. by destruct (threads_ p).
  - revert H. rewrite op_bind_run. unfold start. rewrite op_bind_get. by destruct (threads_ p).
  - revert H. unfold run. rewrite op_bind_get. destruct (threads_ p); [done|]. intros [= <-]. cbn. by rewrite (lookup_app_l_Some _ _ _ _ Hj).
  - revert H. unfold run_section. rewrite op_bind_find. destruct (calls p !! j0) as [c0|] eqn:Ej; [|done].
    destruct (decide (j0 = j)) as [->|Hjj]; [rewrite Hj in Ej; injection Ej as <-; by destruct c as [t []]|].
    destruct (c_pc c0); try done; rewrite op_bind_get; destruct (isFull p);
      try (intros [= <-]; cbn; by rewrite list_lookup_insert_ne);
      rewrite op_bind_run; destruct (push_back _ _ _) as [[u p1]|] eqn:E; try done;
      apply Hpush in E as (E1 & E2 & E3); intros [= <-]; cbn; rewrite E1, E2, E3, list_lookup_insert_ne by done; done.
  - revert H. rewrite op_bind_run. unfold TryRun. rewrite op_bind_get. destruct (threads_ p); [done|]. rewrite op_bind_get.
    destruct (isFull p); [by intros [= <-]|]. rewrite op_bind_run. destruct (push_back _ _ _) as [[u p1]|] eqn:E; [|done].
    apply Hpush in E as (E1 & E2 & E3). intros [= <-]. by rewrite E1, E2, E3.
  - revert H. unfold runInThread. rewrite op_bind_find. destruct (threads_ p !! i) as [w|] eqn:Ei; [|done].
    by destruct w; try (pose proof (Hall i _ Ei); done).
  - revert H. rewrite op_bind_find. destruct (spurious i _); [|done]. by intros [= <-].
  - revert H. rewrite op_bind_find. destruct (spurious j0 _) as [cs|] eqn:E; [|done]. intros [= <-].
    apply spurious_inv in E as (c0 & Hj0 & _ & ->). cbn. rewrite list_lookup_insert_ne; [done|congruence].
  - by injection H as <-.
  - revert H. unfold join_step. rewrite op_bind_find. destruct (stops p !! s) as [[k b]|]; [|done]. rewrite op_bind_find.
    destruct (threads_ p !! k) as [w|]; [|done]. destruct b; [destruct w; try done; by intros [= <-]|].
    rewrite op_bind_get. destruct (decide _); [done|]. by intros [= <-].
  - revert H. unfold ThreadPool_delete. rewrite op_bind_get. destruct (running_ p); by intros [= <-].
Qed.
(** It happens: both workers have ended, task 3 is in the queue, the caller with task 4 sleeps. *)
Lemma stop_leaves :
  let p := pool_after (pool_stop ++ [EWorker 0 0; EJoin 0; EWorker 1 0; EWorker 1 0; EJoin 0; EJoin 0; EJoin 0]) in
  stops p = [(2%nat, false)] ∧ queue_ p = [Some 3%nat] ∧ calls p !! 2%nat = Some {| c_task := Some 4%nat; c_pc := CSleep |}.
Proof. vm_compute. done. Qed.
End ThreadPool.

(** ** The latch *)

Module CountDownLatch.
Import Condition ThreadPool.

#[export] Instance CallPc_waits : Waiter CallPc := {|
  asleep c := if c is CSleep then true else false; wake _ := CWoken |}.

(** [count_] and the calls of [wait]. *)
Record CountDownLatch := { count_ : Z; waits : list CallPc }.
#[export] Instance eta_CountDownLatch : Eta CountDownLatch := λ r, {| count_ := count_ r; waits := waits r |}.
Definition CountDownLatch_new (count : Z) : CountDownLatch := {| count_ := count; waits := [] |}.

Definition wait : Op CountDownLatch () := op_mod (λ l, l <| waits ::= λ ws, ws ++ [CEnter] |>).
(** The section of [wait], entered or entered again after a wait. *)
Definition wait_section (j : nat) : Op CountDownLatch () :=
  c ← op_find (λ l, waits l !! j);
  match c with
  | CEnter | CWoken =>
      n ← op_get count_;
      op_mod (λ l, l <| waits ::= <[j := if 0 <? n then CSleep else CReturned]> |>)
  | CSleep | CReturned => op_undefined
  end.
Definition countDown : Op CountDownLatch () :=
  n ← op_get count_;
  if n =? - 2 ^ 31 then op_undefined else
  _ ← op_mod (λ l, l <| count_ := n - 1 |>);
  if n - 1 =? 0 then op_mod (λ l, l <| waits ::= notifyAll |>) else mret ().
Definition getCount (l : CountDownLatch) : Z := count_ l.

Inductive latch_event := LWait | LSection (j : nat) | LCount | LWake (j : nat).
Definition latch_handle (e : latch_event) : Op CountDownLatch () :=
  match e with
  | LWait => wait
  | LSection j => wait_section j
  | LCount => countDown
  | LWake j => ws ← op_find (λ l, spurious j (waits l)); op_mod (λ l, l <| waits := ws |>)
  end.
Inductive latch_reachable (n : Z) : CountDownLatch → Prop :=
  | latch_new : latch_reachable n (CountDownLatch_new n)
  | latch_step l e l' : latch_reachable n l → latch_handle e l = Some ((), l') → latch_reachable n l'.

Lemma notifyAll_none (ws : list CallPc) : count asleep (notifyAll ws) = O.
Proof.
  induction ws as [|w ws IH]; [done|].
  change (notifyAll (w :: ws)) with ([if asleep w then wake w else w] ++ notifyAll ws).
  rewrite count_app, count_one, IH. by destruct w.
Qed.

(** Nobody sleeps at an open latch. *)
Lemma latch_sound n l :
  latch_reachable n l → (0 < count asleep (waits l))%nat → 0 < count_ l.
Proof.
  induction 1 as [|l e l' Hl IH H]; [cbv [count]; cbn; lia|].
  destruct e; cbn [latch_handle] in H; revert H.
  - intros [= <-]. cbn. rewrite count_app, count_one. cbn. rewrite Nat.add_0_r. done.
  - unfold wait_section. rewrite op_bind_find. destruct (waits l !! j) as [c|] eqn:Ej; [|done].
    destruct c; try done; rewrite op_bind_get; intros [= <-]; cbn; destruct (Z.ltb_spec 0 (count_ l));
      try done; counts Ej CReturned; cbn in *; intros ?; apply IH; lia.
  - unfold countDown. rewrite op_bind_get. destruct (_ =? - 2 ^ 31); [done|]. rewrite op_bind_mod.
    destruct (Z.eqb_spec (count_ l - 1) 0).
    + intros [= <-]. cbn. rewrite notifyAll_none. lia.
    + intros [= <-]. cbn. intros ?%IH. lia.
  - rewrite op_bind_find. destruct (spurious j _) as [ws|] eqn:E; [|done]. intros [= <-].
    apply spurious_inv in E as (c & Hj & Hc & ->). destruct c; try done. cbn. counts Hj CWoken. cbn in *. intros ?. apply IH. lia.
Qed.
End CountDownLatch.
