(* ===== verification/FileSys.v ===== *)
(** * Files and directories as the remain-file code sees them

    The POSIX and stdio calls of [src/remainFile/src]: names and inodes, streams
    with their buffers, and calls that may fail. An environment decides which call
    fails, what the clock shows and in which order a directory is listed; every
    call that can fail consumes one tick. A write through a stream reaches the
    file when the stream is flushed or closed. What C leaves undefined (a stream
    used after it was closed, a buffer overrun) sets a flag.

    The second part holds the path helpers of [Incommon.h]. *)

From S2P Require Import Prelude CLib Incommon UniqueNum.
Import UniqueNum(tm, Build_tm, tm_year, tm_mon, tm_mday, tm_hour, tm_min, tm_sec).

Module FileSys.

(** ** State *)

(** The calls that can fail. *)
Inductive Call := Access | Mkdir | Rename | Remove | Stat | Opendir | Fopen | Fwrite | Fflush | Fclose | Fread | Malloc.

#[export] Instance Call_eq_dec : EqDecision Call.
Proof. solve_decision. Defined.

(** [fault c n = Some k]: a call of [c] at tick [n] fails after transferring [k]
    bytes where it transfers bytes. [listing n] is the order of a directory listing;
    [exe] is the target of ["/proc/self/exe"]. *)
Class Env := {
  fault : Call → nat → option nat;
  clock : nat → Z * Z;
  localtime : Z → tm;
  listing : nat → list bytes → list bytes;
  exe : option bytes }.

(** A resolved path: absolute or not, and its components. *)
Definition path : Type := bool * list bytes.

Record Stream := { s_ino : nat; s_buf : bytes; s_pos : nat }.
#[export] Instance eta_Stream : Eta Stream := λ r,
  {| s_ino := s_ino r; s_buf := s_buf r; s_pos := s_pos r |}.

(** [data !! i] is the content of inode [i]; a [FILE *] is an index into
    [streams], [None] there once it is closed. *)
Record Fs := {
  tick : nat; names : gmap path nat; dirs : gset path; data : list bytes;
  streams : list (option Stream); undefined : bool }.
#[export] Instance eta_Fs : Eta Fs := λ r,
  {| tick := tick r; names := names r; dirs := dirs r; data := data r;
     streams := streams r; undefined := undefined r |}.

Definition slash : byte := "/"%byte.

(** The components of a path; adjacent slashes count as one. *)
Fixpoint components (cur s : bytes) : list bytes :=
  match s with
  | [] => match cur with [] => [] | _ => [cur] end
  | x :: s' =>
      if decide (x = slash) then
        match cur with [] => components [] s' | _ => cur :: components [] s' end
      else components (cur ++ [x]) s'
  end.
Definition resolve (p : bytes) : path :=
  (bool_decide (head p = Some slash), components [] p).
Definition parent (q : path) : path := (q.1, removelast q.2).

(** A C string: what stands before the first NUL. *)
Definition cstr (s : bytes) : bytes := take (strIntLen (Some s)) s.
#[global] Arguments cstr : simpl never.
#[global] Arguments resolve : simpl never.

Definition is_dir (q : path) (fs : Fs) : bool := bool_decide (q.2 = [] ∨ q ∈ dirs fs).
Definition is_there (p : bytes) (fs : Fs) : bool :=
  bool_decide (p ≠ []) && (is_dir (resolve p) fs || bool_decide (is_Some (names fs !! resolve p))).

Section calls.
Context `{Env}.

(** The outcome the environment chose for the next call. *)
Definition next (c : Call) : St Fs (option nat) := λ fs, (fault c (tick fs), fs <| tick ::= S |>).
Definition undefined_behaviour : St Fs () := st_mod (λ fs, fs <| undefined := true |>).

(** [access(p, F_OK)] *)
Definition access (p : bytes) : St Fs Z :=
  f ← next Access; there ← st_gets (is_there p);
  mret (match f with None => if there : bool then 0 else -1 | Some _ => -1 end).

Definition mkdir (p : bytes) : St Fs Z :=
  f ← next Mkdir; fs ← st_get;
  if bool_decide (f = None) && negb (is_there p fs) && bool_decide (p ≠ []) &&
     is_dir (parent (resolve p)) fs
  then _ ← st_mod (λ fs, fs <| dirs ::= λ d, {[resolve p]} ∪ d |>); mret 0
  else mret (-1).

(** [rename] of a file; an existing target is replaced. *)
Definition rename (a b : bytes) : St Fs Z :=
  f ← next Rename; fs ← st_get;
  match f, names fs !! resolve a with
  | None, Some i =>
      if is_dir (parent (resolve b)) fs && negb (is_dir (resolve b) fs) then
        _ ← st_mod (λ fs, fs <| names ::= λ m, <[resolve b := i]> (delete (resolve a) m) |>); mret 0
      else mret (-1)
  | _, _ => mret (-1)
  end.

Definition remove (p : bytes) : St Fs Z :=
  f ← next Remove; fs ← st_get;
  match f, names fs !! resolve p with
  | None, Some _ => _ ← st_mod (λ fs, fs <| names ::= delete (resolve p) |>); mret 0
  | _, _ => mret (-1)
  end.

(** [stat]: whether it is a directory, and the size. *)
Definition stat (p : bytes) : St Fs (option (bool * nat)) :=
  f ← next Stat; fs ← st_get;
  mret (match f with
  | Some _ => None
  | None =>
      if bool_decide (p = []) then None
      else if is_dir (resolve p) fs then Some (true, 0%nat)
      else i ← names fs !! resolve p; mret (false, length (default [] (data fs !! i)))
  end).

Definition new_stream (i : nat) : St Fs nat := λ fs,
  (length (streams fs), fs <| streams ::= (.++ [Some {| s_ino := i; s_buf := []; s_pos := 0 |}]) |>).

(** [fopen(p, "ab+")] *)
Definition fopen_append (p : bytes) : St Fs (option nat) :=
  f ← next Fopen; fs ← st_get;
  if bool_decide (f = None) && bool_decide (p ≠ []) && negb (is_dir (resolve p) fs) &&
     is_dir (parent (resolve p)) fs
  then
    match names fs !! resolve p with
    | Some i => Some <$> new_stream i
    | None =>
        _ ← st_mod (λ fs, fs <| names ::= <[resolve p := length (data fs)]> |> <| data ::= (.++ [[]]) |>);
        Some <$> new_stream (length (data fs))
    end
  else mret None.

(** [fopen(p, "rb")] *)
Definition fopen_read (p : bytes) : St Fs (option nat) :=
  f ← next Fopen; fs ← st_get;
  match f, names fs !! resolve p with
  | None, Some i => Some <$> new_stream i
  | _, _ => mret None
  end.

Definition with_stream {A} (f : nat) (bad : A) (k : Stream → St Fs A) : St Fs A :=
  fs ← st_get;
  match streams fs !! f with
  | Some (Some s) => k s
  | _ => _ ← undefined_behaviour; mret bad
  end.
Definition set_stream (f : nat) (s : option Stream) : St Fs () :=
  st_mod (λ fs, fs <| streams ::= <[f := s]> |>).

(** [fwrite(content, 1, length content, f)]: the number of bytes taken. *)
Definition fwrite (f : nat) (content : bytes) : St Fs nat :=
  with_stream f 0%nat (λ s,
    r ← next Fwrite;
    let taken := match r with None => content | Some k => take k content end in
    _ ← set_stream f (Some (s <| s_buf ::= (.++ taken) |>));
    mret (length taken)).

(** The part of the buffer that reaches the file, and the part that does not. *)
Definition drain (s : Stream) (r : option nat) : St Fs Stream :=
  let out := match r with None => s_buf s | Some k => take k (s_buf s) end in
  let s' := s <| s_buf := drop (length out) (s_buf s) |> in
  _ ← st_mod (λ fs, fs <| data ::= alter (.++ out) (s_ino s) |>);
  mret s'.
Definition fflush (f : nat) : St Fs Z :=
  with_stream f (-1) (λ s,
    r ← next Fflush; s' ← drain s r; _ ← set_stream f (Some s');
    mret (match r with None => 0 | Some _ => -1 end)).

(** The stream is gone also when [fclose] reports a failure. *)
Definition fclose (f : nat) : St Fs Z :=
  with_stream f (-1) (λ s,
    r ← next Fclose; _ ← drain s r; _ ← set_stream f None;
    mret (match r with None => 0 | Some _ => -1 end)).

(** [fread] of up to [n] bytes. *)
Definition fread (f n : nat) : St Fs bytes :=
  with_stream f [] (λ s,
    r ← next Fread; fs ← st_get;
    let rest := drop (s_pos s) (default [] (data fs !! s_ino s)) in
    let got := take (match r with None => n | Some k => Nat.min k n end) rest in
    _ ← set_stream f (Some (s <| s_pos ::= Nat.add (length got) |>));
    mret got).

(** The entries of a directory other than ["."] and [".."], which are directories. *)
Definition entries (q : path) (fs : Fs) : list bytes :=
  omap (λ e : path, if decide (parent e = q ∧ e.2 ≠ []) then last e.2 else None)
    (elements (dom (names fs) ∪ dirs fs)).
Definition opendir (p : bytes) : St Fs (option (list bytes)) :=
  f ← next Opendir; fs ← st_get;
  mret (if bool_decide (f = None) && bool_decide (p ≠ []) && is_dir (resolve p) fs
        then Some (listing (tick fs) (entries (resolve p) fs)) else None).

(** [malloc]: whether it gives memory. *)
Definition malloc : St Fs bool := f ← next Malloc; mret (bool_decide (f = None)).

(** [gettimeofday] *)
Definition gettimeofday : St Fs (Z * Z) := st_gets (λ fs, clock (tick fs)).

(** ** [Incommon.h] *)

(** The paths are copied into arrays of 1024 bytes with [strncpy], which leaves
    longer ones without terminator. *)
Definition accessPath (muldir : bytes) : St Fs Z :=
  let str := cstr muldir in
  if decide (1024 <= length str)%nat then _ ← undefined_behaviour; mret (-1)
  else match str with
  | [] => mret 0
  | _ => r ← access str; mret (if r =? 0 then 0 else -1)
  end.

Definition renameFile : bytes → bytes → St Fs Z := λ oldName newName, rename (cstr oldName) (cstr newName).

(** Create a directory that is not there; [false]: return -1. *)
Definition ensure_dir (str : bytes) : St Fs bool :=
  r ← access str;
  if negb (r =? 0) then m ← mkdir str; mret (m =? 0) else mret true.

(** The loop of [mkdirs] at index [length done]. *)
Fixpoint mkdirs_loop (done rest : bytes) : St Fs bool :=
  match rest with
  | [] => mret true
  | c :: rest' =>
      if bool_decide (c = slash) && bool_decide (done ≠ []) then
        ok ← ensure_dir done;
        if ok : bool then mkdirs_loop (done ++ [c]) rest' else mret false
      else mkdirs_loop (done ++ [c]) rest'
  end.
Definition mkdirs (muldir : bytes) : St Fs Z :=
  let str := cstr muldir in
  if decide (1024 <= length str)%nat then _ ← undefined_behaviour; mret (-1)
  else
    ok ← mkdirs_loop [] str;
    if ok : bool then
      match str with
      | [] => mret 0
      | _ => ok ← ensure_dir str; mret (if ok : bool then 0 else -1)
      end
    else mret (-1).

Definition secondSinceEpoch : St Fs Z := '(s, _) ← gettimeofday; mret s.
Definition microSecondSinceEpoch : St Fs (Z * Z) := '(s, u) ← gettimeofday; mret (s64 (s * 1000000 + u), s).
End calls.

Definition Fs_new : Fs :=
  {| tick := 0; names := ∅; dirs := ∅; data := []; streams := []; undefined := false |}.

(** ** Facts about the calls *)

(** Inodes in use exist. *)
Record fs_ok (fs : Fs) : Prop := {
  ok_names q i : names fs !! q = Some i → (i < length (data fs))%nat;
  ok_streams f s : streams fs !! f = Some (Some s) → (s_ino s < length (data fs))%nat }.

Lemma fs_ok_new : fs_ok Fs_new.
Proof. split; cbn; [intros q i; by rewrite lookup_empty|done]. Qed.

(** Neither contents nor streams change, and no inode gets its first name. *)
Record quiet (fs fs' : Fs) : Prop := {
  q_data : data fs' = data fs;
  q_streams : streams fs' = streams fs;
  q_undefined : undefined fs' = undefined fs;
  q_names q i : names fs' !! q = Some i → ∃ q', names fs !! q' = Some i }.

#[export] Instance quiet_preorder : PreOrder quiet.
Proof.
  split; [by intros fs; split; eauto|].
  intros a b c [H1 H2 H3 H4] [K1 K2 K3 K4]. split; [congruence..|].
  intros q i (q' & Hq)%K4. eauto.
Qed.

Lemma quiet_ok fs fs' : quiet fs fs' → fs_ok fs → fs_ok fs'.
Proof.
  intros [H1 H2 _ H4] [O1 O2]. split; rewrite H1; [|rewrite H2; apply O2].
  intros q i (q' & Hq)%H4. eauto.
Qed.

Create HintDb quiet.
Ltac st_cbn := cbv [mbind mret fmap St_bind St_ret St_fmap st_get st_gets st_mod next undefined_behaviour set_stream]; cbn.

Section specs.
Context `{Env}.

Definition is_quiet {A} (m : St Fs A) : Prop := ∀ fs, quiet fs (m fs).2.

Lemma quiet_ret {A} (a : A) : is_quiet (mret a).
Proof. by intros fs. Qed.
Lemma quiet_bind {A B} (m : St Fs A) (k : A → St Fs B) :
  is_quiet m → (∀ a, is_quiet (k a)) → is_quiet (m ≫= k).
Proof.
  intros Hm Hk fs. rewrite st_bind_run. specialize (Hm fs). destruct (m fs) as [a fs1]. cbn in Hm.
  etrans; [done|apply Hk].
Qed.
Lemma quiet_gets {A} (f : Fs → A) : is_quiet (st_gets f).
Proof. by intros fs. Qed.
Lemma quiet_get : is_quiet st_get.
Proof. by intros fs. Qed.
Lemma quiet_next c : is_quiet (next c).
Proof. intros fs. split; cbn; eauto. Qed.
Lemma quiet_time : is_quiet gettimeofday.
Proof. by intros fs. Qed.

Lemma wp_quiet {A} (m : St Fs A) Q fs :
  is_quiet m → (∀ a fs', quiet fs fs' → Q a fs') → wp m Q fs.
Proof. intros Hm HQ. apply HQ, Hm. Qed.

Hint Resolve quiet_ret quiet_gets quiet_get quiet_next quiet_time : quiet.
Ltac quiet_tac :=
  repeat first [ progress eauto with quiet | apply quiet_bind; [|intros ?] | case_match ].

Lemma quiet_access p : is_quiet (access p).
Proof. unfold access. quiet_tac. Qed.
Hint Resolve quiet_access : quiet.
Lemma quiet_mkdir p : is_quiet (mkdir p).
Proof. unfold mkdir. quiet_tac. intros fs. split; cbn; eauto. Qed.
Hint Resolve quiet_mkdir : quiet.
Lemma quiet_stat p : is_quiet (stat p).
Proof. unfold stat. quiet_tac. Qed.
Lemma quiet_opendir p : is_quiet (opendir p).
Proof. unfold opendir. quiet_tac. Qed.
Lemma quiet_malloc : is_quiet malloc.
Proof. unfold malloc. quiet_tac. Qed.
Lemma quiet_rename a b : is_quiet (rename a b).
Proof.
  intros fs. unfold rename. st_cbn. case_match; [by split; cbn; eauto|].
  case_match eqn:E; [|by split; cbn; eauto]. case_match; [|by split; cbn; eauto].
  split; [done..|]. cbn. intros q i. rewrite lookup_insert_Some, lookup_delete_Some. naive_solver.
Qed.
Lemma quiet_remove p : is_quiet (remove p).
Proof.
  intros fs. unfold remove. st_cbn. case_match; [by split; cbn; eauto|].
  case_match eqn:E; [|by split; cbn; eauto]. split; [done..|]. cbn. intros q i. rewrite lookup_delete_Some. naive_solver.
Qed.
Hint Resolve quiet_stat quiet_opendir quiet_malloc quiet_rename quiet_remove : quiet.
Lemma quiet_renameFile a b : is_quiet (renameFile a b).
Proof. apply quiet_rename. Qed.
Lemma quiet_ensure_dir p : is_quiet (ensure_dir p).
Proof. unfold ensure_dir. quiet_tac. Qed.
Hint Resolve quiet_renameFile quiet_ensure_dir : quiet.
Lemma quiet_mkdirs_loop d r : is_quiet (mkdirs_loop d r).
Proof. revert d. induction r as [|c r IH]; intros d; cbn [mkdirs_loop]; quiet_tac. Qed.
Hint Resolve quiet_mkdirs_loop : quiet.
Lemma quiet_accessPath p : (length (cstr p) < 1024)%nat → is_quiet (accessPath p).
Proof. intros Hp. unfold accessPath. rewrite decide_False by lia. quiet_tac. Qed.
Lemma quiet_mkdirs p : (length (cstr p) < 1024)%nat → is_quiet (mkdirs p).
Proof. intros Hp. unfold mkdirs. rewrite decide_False by lia. quiet_tac. Qed.

(** Contents only grow, by appending, and open streams stay open unless closed. *)
Definition grows (fs fs' : Fs) : Prop :=
  ∀ i d, data fs !! i = Some d → ∃ e, data fs' !! i = Some (d ++ e).
End specs.

#[export] Instance grows_preorder : PreOrder grows.
Proof.
  split; [intros fs i d Hd; exists []; by rewrite app_nil_r|].
  intros a b c H1 H2 i d Hd. destruct (H1 i d Hd) as (e & He). destruct (H2 _ _ He) as (e' & He').
  exists (e ++ e'). by rewrite app_assoc.
Qed.
Lemma quiet_grows fs fs' : quiet fs fs' → grows fs fs'.
Proof. intros Hq i d Hd. exists []. by rewrite (q_data _ _ Hq), app_nil_r. Qed.

#[export] Hint Resolve quiet_ret quiet_gets quiet_get quiet_next quiet_time quiet_access quiet_mkdir
  quiet_stat quiet_opendir quiet_malloc quiet_rename quiet_remove quiet_renameFile quiet_mkdirs
  quiet_accessPath : quiet.
#[export] Hint Resolve quiet_grows quiet_ok : cframe.

Section streams.
Context `{Env}.

(** A stream that can be used. *)
Definition open_stream (f : nat) (s : Stream) (fs : Fs) : Prop := streams fs !! f = Some (Some s).

Lemma fwrite_wp f content s Q fs :
  open_stream f s fs →
  (∀ taken fs', taken `prefix_of` content → data fs' = data fs → names fs' = names fs →
     undefined fs' = undefined fs →
     streams fs' = <[f := Some (s <| s_buf ::= (.++ taken) |>)]> (streams fs) →
     Q (length taken) fs') →
  wp (fwrite f content) Q fs.
Proof.
  intros Hs HQ. unfold wp, fwrite, with_stream. st_cbn. rewrite Hs. cbn.
  apply HQ; [|done..]. case_match; [|done]. apply prefix_take.
Qed.

(** What flushing does to the file of a stream. *)
Definition flushed (s : Stream) (out : bytes) (fs fs' : Fs) : Prop :=
  out `prefix_of` s_buf s ∧ data fs' = alter (.++ out) (s_ino s) (data fs) ∧ names fs' = names fs ∧
  undefined fs' = undefined fs.

Lemma fflush_wp f s Q fs :
  open_stream f s fs →
  (∀ r out fs', flushed s out fs fs' → (r = 0 ∧ out = s_buf s) ∨ r = -1 →
     streams fs' = <[f := Some (s <| s_buf := drop (length out) (s_buf s) |>)]> (streams fs) → Q r fs') →
  wp (fflush f) Q fs.
Proof.
  intros Hs HQ. unfold wp, fflush, drain, with_stream. st_cbn. rewrite Hs. cbn.
  destruct (fault Fflush (tick fs)) as [k|]; cbn.
  - apply (HQ _ (take k (s_buf s))); [split_and!; [apply prefix_take|done..]|by right|done].
  - apply (HQ _ (s_buf s)); [by split_and!|by left|done].
Qed.

Lemma fclose_wp f s Q fs :
  open_stream f s fs →
  (∀ r out fs', flushed s out fs fs' → (r = 0 ∧ out = s_buf s) ∨ (r = -1 ∧ ∃ n, is_Some (fault Fclose n)) →
     streams fs' = <[f := None]> (streams fs) → Q r fs') →
  wp (fclose f) Q fs.
Proof.
  intros Hs HQ. unfold wp, fclose, drain, with_stream. st_cbn. rewrite Hs. cbn.
  destruct (fault Fclose (tick fs)) as [k|] eqn:E; cbn.
  - apply (HQ _ (take k (s_buf s))); [split_and!; [apply prefix_take|done..]|right; eauto|done].
  - apply (HQ _ (s_buf s)); [by split_and!|by left|done].
Qed.

Lemma flushed_grows s out fs fs' : flushed s out fs fs' → grows fs fs'.
Proof.
  intros (_ & Hd & _) i d Hi. rewrite Hd. destruct (decide (i = s_ino s)) as [->|Hne].
  - exists out. by rewrite list_lookup_alter_eq, Hi.
  - exists []. by rewrite list_lookup_alter_ne, app_nil_r by done.
Qed.
Lemma flushed_length s out fs fs' : flushed s out fs fs' → length (data fs') = length (data fs).
Proof. intros (_ & -> & _). by rewrite length_alter. Qed.

Lemma fopen_append_wp p Q fs :
  fs_ok fs →
  (∀ r fs', fs_ok fs' → grows fs fs' → undefined fs' = undefined fs →
     match r with
     | None => streams fs' = streams fs
     | Some f => f = length (streams fs) ∧
         ∃ i, streams fs' = streams fs ++ [Some {| s_ino := i; s_buf := []; s_pos := 0 |}]
     end → Q r fs') →
  wp (fopen_append p) Q fs.
Proof.
  intros [O1 O2] HQ. unfold wp, fopen_append, new_stream. st_cbn.
  case_match; [|apply HQ; [by split|by intros i d ?; exists []; rewrite app_nil_r|done..]].
  case_match eqn:E; cbn.
  - apply HQ; [split; [done|]|by intros i d ?; exists []; rewrite app_nil_r|done|eauto].
    cbn. intros f s [Hs|[Hl Hs]]%lookup_app_Some; [eauto|].
    apply list_lookup_singleton_Some in Hs as [_ [= <-]]. eauto.
  - apply HQ; [split| |done|eauto]; cbn.
    + intros q i. rewrite length_app, lookup_insert_Some. intros [[_ <-]|[_ Hq]]; cbn; [lia|].
      specialize (O1 _ _ Hq). lia.
    + intros f s. rewrite length_app. cbn. intros [Hs|[Hl Hs]]%lookup_app_Some; [specialize (O2 _ _ Hs); lia|].
      apply list_lookup_singleton_Some in Hs as [_ [= <-]]. cbn. lia.
    + intros i d Hi. exists []. rewrite app_nil_r. by apply lookup_app_l_Some.
Qed.

Lemma fopen_read_wp p Q fs :
  (∀ r fs', names fs' = names fs → data fs' = data fs → undefined fs' = undefined fs →
     match r with
     | None => streams fs' = streams fs
     | Some f => ∃ i, names fs !! resolve p = Some i ∧
         open_stream f {| s_ino := i; s_buf := []; s_pos := 0 |} fs'
     end → Q r fs') →
  wp (fopen_read p) Q fs.
Proof.
  intros HQ. unfold wp, fopen_read, new_stream. st_cbn.
  case_match; [by apply HQ|]. case_match eqn:E; [|by apply HQ]. cbn. apply HQ; [done..|].
  eexists. split; [done|]. unfold open_stream. cbn. by apply list_lookup_middle.
Qed.

Lemma take_length_take {A} k (l : list A) : take (length (take k l)) l = take k l.
Proof.
  rewrite length_take. destruct (decide (k <= length l)%nat); [by rewrite Nat.min_l|].
  by rewrite Nat.min_r, !take_ge by lia.
Qed.

Lemma fread_wp f n s Q fs :
  open_stream f s fs →
  (∀ got fs', (length got <= n)%nat →
     got = take (length got) (drop (s_pos s) (default [] (data fs !! s_ino s))) →
     names fs' = names fs → data fs' = data fs → undefined fs' = undefined fs →
     open_stream f (s <| s_pos ::= Nat.add (length got) |>) fs' → Q got fs') →
  wp (fread f n) Q fs.
Proof.
  intros Hs HQ. unfold wp, fread, with_stream. st_cbn. rewrite Hs. cbn.
  apply HQ; [| |done..|].
  - rewrite length_take. case_match; lia.
  - by rewrite take_length_take.
  - unfold open_stream. cbn. apply list_lookup_insert_eq. by eapply lookup_lt_Some.
Qed.

Lemma rename_wp a b Q fs :
  (∀ r fs', data fs' = data fs → streams fs' = streams fs → undefined fs' = undefined fs →
     (r = -1 ∧ names fs' = names fs) ∨
     (r = 0 ∧ ∃ i, names fs !! resolve (cstr a) = Some i ∧
        names fs' = <[resolve (cstr b) := i]> (delete (resolve (cstr a)) (names fs))) → Q r fs') →
  wp (renameFile a b) Q fs.
Proof.
  intros HQ. unfold wp, renameFile, rename. st_cbn.
  case_match; [by apply HQ; auto|]. case_match eqn:E; [|by apply HQ; auto].
  case_match; [|by apply HQ; auto]. cbn. apply HQ; [done..|]. right. eauto.
Qed.

Lemma remove_wp p Q fs :
  (∀ r fs', data fs' = data fs → streams fs' = streams fs → undefined fs' = undefined fs →
     names fs' = names fs ∨ names fs' = delete (resolve p) (names fs) → Q r fs') →
  wp (remove p) Q fs.
Proof.
  intros HQ. unfold wp, remove. st_cbn. case_match; [by apply HQ; auto|].
  case_match eqn:E; [|by apply HQ; auto]. apply HQ; auto.
Qed.
End streams.

(** ** Paths *)

(** What follows the last slash of a path is the end of its last component. *)
Lemma components_tail cur s :
  ∃ l b, ∀ x, x ≠ [] → slash ∉ x → components cur (s ++ x) = l ++ [b ++ x].
Proof.
  revert cur. induction s as [|c s IH]; intros cur.
  - exists [], cur. intros x. revert cur. cbn [app].
    assert (Hx : ∀ cur y, slash ∉ y → cur ++ y ≠ [] → components cur y = [cur ++ y]).
    { intros cur y. revert cur. induction y as [|z y IHy]; intros cur Hy Hne; cbn.
      - rewrite app_nil_r in *. by destruct cur.
      - apply not_elem_of_cons in Hy as [Hz Hy]. rewrite decide_False by done.
        rewrite IHy; [by rewrite <- app_assoc|done|by destruct cur]. }
    intros cur Hne Hs. apply Hx; [done|by destruct cur, x].
  - cbn [app components]. case_decide.
    + destruct (IH []) as (l & b & Hl). destruct cur as [|y cur]; [by exists l, b|].
      exists ((y :: cur) :: l), b. intros x Hx Hs. by rewrite Hl.
    + apply IH.
Qed.

Lemma resolve_tail s :
  ∃ a l b, ∀ x, x ≠ [] → slash ∉ x → resolve (s ++ x) = (a, l ++ [b ++ x]).
Proof.
  destruct (components_tail [] s) as (l & b & Hl). exists (bool_decide (head s = Some slash)), l, b.
  intros x Hx Hs. unfold resolve. rewrite Hl by done. f_equal. apply bool_decide_ext.
  destruct s as [|c s]; [|done]. destruct x as [|c x]; [done|]. cbn. apply not_elem_of_cons in Hs. naive_solver.
Qed.

Lemma resolve_tail_inj s x y :
  x ≠ [] → y ≠ [] → slash ∉ x → slash ∉ y → resolve (s ++ x) = resolve (s ++ y) → x = y.
Proof.
  intros Hx Hy Sx Sy. destruct (resolve_tail s) as (a & l & b & Hr). rewrite !Hr by done.
  intros [= E]. by simplify_list_eq.
Qed.

(** A C string has no NUL. *)
Lemma strIntLen_loop_add s n : (strIntLen_loop s n = n + strIntLen_loop s 0)%nat.
Proof.
  revert n. induction s as [|x s IH]; intros n; cbn; [lia|]. case_decide; [lia|]. rewrite (IH (S n)), (IH 1%nat). lia.
Qed.
Lemma no_nul_cstr s : no_nul (cstr s).
Proof.
  unfold cstr, strIntLen, no_nul. induction s as [|x s IH]; cbn; [by intros ?%elem_of_nil|].
  case_decide; cbn; [by intros ?%elem_of_nil|]. rewrite strIntLen_loop_add. cbn.
  by intros [|]%elem_of_cons.
Qed.

(** ** Calls that change no file and no name *)

Create HintDb still.
Section still.
Context `{Env}.

Definition still (fs fs' : Fs) : Prop := quiet fs fs' ∧ names fs' = names fs.
#[export] Instance still_preorder : PreOrder still.
Proof. split; [intros fs; split; [reflexivity|done]|]. intros a b c [Q1 N1] [Q2 N2]. split; [by etrans|congruence]. Qed.
Definition is_still {A} (m : St Fs A) : Prop := ∀ fs, still fs (m fs).2.
Lemma still_of {A} (m : St Fs A) : is_quiet m → (∀ fs, names (m fs).2 = names fs) → is_still m.
Proof. intros Hq Hn fs. split; [apply Hq|apply Hn]. Qed.
Lemma still_ret {A} (a : A) : is_still (mret a).
Proof. by apply still_of; [apply quiet_ret|]. Qed.
Lemma still_bind {A B} (m : St Fs A) (k : A → St Fs B) : is_still m → (∀ a, is_still (k a)) → is_still (m ≫= k).
Proof.
  intros Hm Hk fs. rewrite st_bind_run. specialize (Hm fs). destruct (m fs) as [a fs1]. cbn in Hm. etrans; [done|apply Hk].
Qed.
Lemma still_access p : is_still (access p).
Proof. by apply still_of; [apply quiet_access|]. Qed.
Lemma still_mkdir p : is_still (mkdir p).
Proof. apply still_of; [apply quiet_mkdir|]. intros fs. unfold mkdir. st_cbn. by case_match. Qed.
Lemma wp_still {A} (m : St Fs A) Q fs : is_still m → (∀ a fs', still fs fs' → Q a fs') → wp m Q fs.
Proof. intros Hm HQ. apply HQ, Hm. Qed.
Ltac still_tac := repeat first [ progress eauto with still | apply still_bind; [|intros ?] | case_match ].
Hint Resolve still_ret still_access still_mkdir : still.
Lemma still_gets {A} (f : Fs → A) : is_still (st_gets f).
Proof. by apply still_of; [apply quiet_gets|]. Qed.
Lemma still_ensure_dir p : is_still (ensure_dir p).
Proof. unfold ensure_dir. still_tac. Qed.
Hint Resolve still_ensure_dir : still.
Lemma still_mkdirs_loop d r : is_still (mkdirs_loop d r).
Proof. revert d. induction r as [|c r IH]; intros d; cbn [mkdirs_loop]; still_tac. Qed.
Hint Resolve still_mkdirs_loop : still.
Lemma still_mkdirs p : (length (cstr p) < 1024)%nat → is_still (mkdirs p).
Proof. intros Hp. unfold mkdirs. rewrite decide_False by lia. still_tac. Qed.
Lemma still_accessPath p : (length (cstr p) < 1024)%nat → is_still (accessPath p).
Proof. intros Hp. unfold accessPath. rewrite decide_False by lia. still_tac. Qed.
End still.
Ltac still_tac := repeat first [ progress eauto with still | apply still_bind; [|intros ?] | case_match ].
#[export] Hint Resolve still_ret still_access still_mkdir : still.

(** ** Concrete environments *)

(** The call of kind [c] at tick [t] fails after [k] bytes; nothing else does. *)
Definition env_with (bad : option (Call * nat * nat)) : Env := {|
  fault := λ c n, '(c', t, k) ← bad; if decide (c = c' ∧ n = t) then Some k else None;
  clock := λ n, (1000 + Z.of_nat n mod 1000, 123456);
  localtime := λ _, {| tm_year := 120; tm_mon := 4; tm_mday := 17; tm_hour := 13; tm_min := 5; tm_sec := 9 |};
  listing := λ _ l, l; exe := None |}.
Definition calm_env : Env := env_with None.

End FileSys.
