(* ===== verification/WriteFile.v ===== *)
(** * Writing remain files ([src/remainFile/src/WriteFileMgr.cpp])

    [ShareWriteFileMgr] and [localWriteFileMgr] append records to a [.tmp] file and
    rename it to [.ok] when it is full or old; [WriteFileMgr] writes to the shared
    directory and falls back to the local one. Both classes have the same members,
    [path_] is [sharePath_] or [localPath_]. The code locks a mutex in every
    operation, so operations are atomic. [new] does not return a null pointer. *)

From S2P Require Import Prelude CLib Incommon UniqueNum FileSys.
Import UniqueNum(tm, Build_tm, tm_year, tm_mon, tm_mday, tm_hour, tm_min, tm_sec).
Import FileSys.

Definition RE_REMAIN_FLAG : Z := 1.
Definition RE_REMAIN_BAK_FLAG : Z := 2.
Definition MO_REMAIN_FLAG : Z := 3.
Definition MO_REMAIN_BAK_FLAG : Z := 4.
Definition MT_REMAIN_FLAG : Z := 5.
Definition MT_REMAIN_BAK_FLAG : Z := 6.
Definition reportDir : bytes := lit "RemainRe".
Definition reportBakDir : bytes := lit "RemainReBak".
Definition moDir : bytes := lit "RemainMo".
Definition moBakDir : bytes := lit "RemainMoBak".
Definition mtDir : bytes := lit "RemainMt".
Definition mtBak : bytes := lit "RemainMtBak".

(** [snprintf] into an array of 1024 bytes. *)
Definition snprintf (s : bytes) : bytes := take 1023 s.
(** ["%0wd"] *)
Definition fmt_0d (w : nat) (z : Z) : bytes :=
  let sign := if z <? 0 then lit "-" else [] in
  let ds := fmt_u (Z.abs z) in
  sign ++ replicate (w - length sign - length ds) "0"%byte ++ ds.

Module WriteFile.

Record WriteFile := {
  isExit_ : Z; gateNo_ : Z; seqId_ : Z; millSecond_ : Z; outSecond_ : Z; maxCount_ : Z;
  curCount_ : Z; creatSecond_ : Z; pFile_ : option nat;
  rootPath_ : bytes; path_ : bytes; fragFolder_ : bytes }.
#[export] Instance eta_WriteFile : Eta WriteFile := λ r, {|
  isExit_ := isExit_ r; gateNo_ := gateNo_ r; seqId_ := seqId_ r; millSecond_ := millSecond_ r;
  outSecond_ := outSecond_ r; maxCount_ := maxCount_ r; curCount_ := curCount_ r;
  creatSecond_ := creatSecond_ r; pFile_ := pFile_ r; rootPath_ := rootPath_ r;
  path_ := path_ r; fragFolder_ := fragFolder_ r |}.

(** The directory of a kind of records, as the [switch (flag)] chooses it. *)
Definition dir_of (flag : Z) : option bytes :=
  if decide (flag = RE_REMAIN_FLAG) then Some reportDir
  else if decide (flag = RE_REMAIN_BAK_FLAG) then Some reportBakDir
  else if decide (flag = MO_REMAIN_FLAG) then Some moDir
  else if decide (flag = MO_REMAIN_BAK_FLAG) then Some moBakDir
  else if decide (flag = MT_REMAIN_FLAG) then Some mtDir
  else if decide (flag = MT_REMAIN_BAK_FLAG) then Some mtBak
  else None.
Definition dir_path (flag : Z) (root frag : bytes) : bytes :=
  match dir_of flag with
  | Some dir => snprintf (cstr root ++ [slash] ++ dir ++ [slash] ++ cstr frag)
  | None => []
  end.

Definition WriteFile_new (gateNo maxCout outSecond : Z) (root p frag : bytes) : WriteFile := {|
  isExit_ := 0; gateNo_ := gateNo; seqId_ := 0; millSecond_ := 0; outSecond_ := outSecond;
  maxCount_ := maxCout; curCount_ := 0; creatSecond_ := 0; pFile_ := None;
  rootPath_ := root; path_ := p; fragFolder_ := frag |}.
Definition ShareWriteFileMgr_new (gateNo maxCout outSecond flag : Z) (root frag : bytes) : WriteFile :=
  WriteFile_new gateNo maxCout outSecond root
    (match root with [] => [] | _ => dir_path flag root frag end) frag.
Definition localWriteFileMgr_new (gateNo maxCout outSecond flag : Z) (root frag : bytes) : WriteFile :=
  WriteFile_new gateNo maxCout outSecond root (dir_path flag root frag) frag.

(** ["%s/%d_%d_%02d%02d%02d%02d%02d%03d%05d"] and the extension. *)
Definition file_name (p : bytes) (gateNo count : Z) (t : tm) (ms seq : Z) (ext : bytes) : bytes :=
  cstr p ++ [slash] ++ fmt_ld gateNo ++ lit "_" ++ fmt_ld count ++ lit "_" ++
  fmt_0d 2 (tm_mon t + 1) ++ fmt_0d 2 (tm_mday t) ++ fmt_0d 2 (tm_hour t) ++
  fmt_0d 2 (tm_min t) ++ fmt_0d 2 (tm_sec t) ++ fmt_0d 3 ms ++ fmt_0d 5 seq ++ ext.

Section operations.
Context `{Env}.

(** The name of the current file while it is written, and when it is complete. *)
Definition tmp_name (self : WriteFile) : bytes :=
  file_name (path_ self) (gateNo_ self) 0 (localtime (s64 (creatSecond_ self))) (millSecond_ self)
    (seqId_ self) (lit ".tmp").
Definition ok_name (self : WriteFile) : bytes :=
  file_name (path_ self) (gateNo_ self) (curCount_ self) (localtime (s64 (creatSecond_ self)))
    (millSecond_ self) (seqId_ self) (lit ".ok").
Definition closed (self : WriteFile) : WriteFile :=
  self <| creatSecond_ := 0 |> <| millSecond_ := 0 |> <| curCount_ := 0 |>.

Definition Share_CloseCurFile (self : WriteFile) : St Fs (Z * WriteFile) :=
  match pFile_ self with
  | None => mret (0, self)
  | Some f =>
      a ← accessPath (rootPath_ self);
      if a <? 0 then mret (-102, self)
      else
        let szCurName := snprintf (tmp_name self) in
        let szOkName := snprintf (ok_name self) in
        r ← fflush f;
        if r <? 0 then mret (-109, self)
        else
          r ← fclose f;
          if r <? 0 then mret (-1010, self)
          else
            let self := self <| pFile_ := None |> in
            r ← renameFile szCurName szOkName;
            mret (if r =? 0 then 0 else -1011, closed self)
  end.

Definition local_CloseCurFile (self : WriteFile) : St Fs (Z * WriteFile) :=
  match pFile_ self with
  | None => mret (0, self)
  | Some f =>
      let szCurName := snprintf (tmp_name self) in
      let szOkName := snprintf (ok_name self) in
      _ ← fflush f;
      _ ← fclose f;
      let self := self <| pFile_ := None |> in
      r ← renameFile szCurName szOkName;
      mret (if r =? 0 then 0 else -1022, closed self)
  end.

(** [switchToNewFile] after [CloseCurFile]; the codes are those of the class. *)
Definition open_next (e_long e_mkdirs e_path e_open : Z) (self : WriteFile) : St Fs (Z * WriteFile) :=
  if decide (1024 <= length (cstr (path_ self)))%nat then mret (e_long, self)
  else
    m ← mkdirs (path_ self);
    if m =? -1 then mret (e_mkdirs, self)
    else
      let seqId := s32 (seqId_ self + 1) in
      let self := self <| seqId_ := if (seqId <? 1) || (99999 <? seqId) then 1 else seqId |> in
      '(tv_sec, tv_usec) ← gettimeofday;
      let self := self <| creatSecond_ := u64 tv_sec |> <| millSecond_ := s32 (tv_usec ÷ 1000) |> in
      let filePath := file_name (path_ self) (gateNo_ self) 0 (localtime tv_sec) (millSecond_ self)
                        (seqId_ self) (lit ".tmp") in
      if decide (1024 <= length filePath)%nat then mret (e_path, self)
      else
        p ← fopen_append filePath;
        let self := self <| pFile_ := p |> in
        match p with
        | Some _ => mret (0, self <| curCount_ := 0 |>)
        | None => mret (e_open, self)
        end.

Definition Share_switchToNewFile (self : WriteFile) : St Fs (Z * WriteFile) :=
  '(ret, self) ← Share_CloseCurFile self;
  if ret <? 0 then mret (ret, self) else open_next (-105) (-106) (-107) (-108) self.
Definition local_switchToNewFile (self : WriteFile) : St Fs (Z * WriteFile) :=
  '(ret, self) ← local_CloseCurFile self;
  if ret <? 0 then mret (ret, self) else open_next (-1016) (-1017) (-1018) (-1019) self.

(** The [do ... while (size > 0)] loop: what is left after at most [tries] rounds. *)
Fixpoint write_loop (tries : nat) (f : nat) (content : bytes) : St Fs bytes :=
  match tries with
  | O => mret content
  | S tries' =>
      n ← fwrite f content;
      match drop n content with [] => mret [] | rest => write_loop tries' f rest end
  end.

(** The rest of [writeToFile] once a file is open. *)
Definition put_record (e_write : Z) (switch : WriteFile → St Fs (Z * WriteFile)) (self : WriteFile)
    (f : nat) (content : bytes) : St Fs (Z * WriteFile) :=
  rest ← write_loop 3 f content;
  match rest with
  | _ :: _ => mret (e_write, self)
  | [] =>
      r ← fflush f;
      if r =? -1 then
        '(ret, self) ← switch self;
        if ret <? 0 then mret (ret, self) else mret (-1036, self <| pFile_ := None |>)
      else mret (0, self <| curCount_ ::= λ n, s32 (n + 1) |>)
  end.

Definition full (self : WriteFile) : bool :=
  bool_decide (pFile_ self = None) || (maxCount_ self <=? curCount_ self).

Definition Share_writeToFile (content : bytes) (self : WriteFile) : St Fs (Z * WriteFile) :=
  if decide (rootPath_ self = [] ∨ path_ self = []) then mret (-1050, self)
  else if negb (isExit_ self =? 0) then mret (-101, self)
  else
    '(ret, self) ←
      (if full self then Share_switchToNewFile self
       else a ← accessPath (rootPath_ self); mret (if a <? 0 then -102 else 0, self));
    if ret <? 0 then mret (ret, self)
    else match pFile_ self with
    | None => mret (-103, self)
    | Some f => put_record (-104) Share_switchToNewFile self f content
    end.

Definition local_writeToFile (content : bytes) (self : WriteFile) : St Fs (Z * WriteFile) :=
  if negb (isExit_ self =? 0) then mret (-1012, self)
  else
    '(ret, self) ← (if full self then local_switchToNewFile self else mret (0, self));
    if ret <? 0 then mret (ret, self)
    else match pFile_ self with
    | None => mret (-1014, self)
    | Some f => put_record (-1015) local_switchToNewFile self f content
    end.

Definition expired (second : Z) (self : WriteFile) : bool :=
  let tmpSecond := s32 (u64 (second - creatSecond_ self)) in
  bool_decide (is_Some (pFile_ self)) && (0 <? creatSecond_ self) && (outSecond_ self <? tmpSecond).
Definition Share_everySecondCheck (second : Z) (self : WriteFile) : St Fs WriteFile :=
  if negb (isExit_ self =? 0) then mret self
  else if expired second self then '(_, self) ← Share_CloseCurFile self; mret self else mret self.
Definition local_everySecondCheck (second : Z) (self : WriteFile) : St Fs WriteFile :=
  if negb (isExit_ self =? 0) then mret self
  else if expired second self then '(_, self) ← local_CloseCurFile self; mret self else mret self.

Definition Share_exitClose (self : WriteFile) : St Fs WriteFile :=
  let self := self <| isExit_ := 1 |> in
  match pFile_ self with
  | None => mret self
  | Some _ => '(_, self) ← Share_CloseCurFile self; mret (self <| pFile_ := None |>)
  end.
Definition local_exitClose (self : WriteFile) : St Fs WriteFile :=
  let self := self <| isExit_ := 1 |> in
  match pFile_ self with
  | None => mret self
  | Some _ => '(_, self) ← local_CloseCurFile self; mret (self <| pFile_ := None |>)
  end.

(** The same in both classes. *)
Definition updateGenFreq (second : Z) (self : WriteFile) : WriteFile :=
  let second := if second <? 1 then 60 else second in
  let second := if 1800 <? second then 60 else second in
  self <| outSecond_ := second |>.
Definition updateMaxFileSize (size : Z) (self : WriteFile) : WriteFile :=
  let size := if size <? 1 then 20 else size in
  let size := if 1000 <? size then 20 else size in
  self <| maxCount_ := size |>.
End operations.

(** ** What every operation keeps *)

Lemma length_cstr s : (length (cstr s) <= length s)%nat.
Proof. unfold cstr. rewrite length_take. lia. Qed.

(** The stream of a writer can be used, and its paths fit their arrays. *)
Record writer_ok (self : WriteFile) (fs : Fs) : Prop := {
  w_fs : fs_ok fs;
  w_defined : undefined fs = false;
  w_path : (length (path_ self) < 1024)%nat;
  w_root : (length (rootPath_ self) < 1024)%nat;
  w_open f : pFile_ self = Some f → ∃ s, open_stream f s fs }.

(** From [fs] and [self] an operation has come to [fs'] and [self']. *)
Definition kept (fs : Fs) (self' : WriteFile) (fs' : Fs) : Prop := writer_ok self' fs' ∧ grows fs fs'.

(** The record stands at the end of the current file, behind what the file held
    before, and nothing of it is left in a buffer. *)
Definition durable (content : bytes) (fs : Fs) (self' : WriteFile) (fs' : Fs) : Prop :=
  ∃ f s d, pFile_ self' = Some f ∧ open_stream f s fs' ∧ s_buf s = [] ∧
    data fs' !! s_ino s = Some (d ++ content) ∧ ∀ d0, data fs !! s_ino s = Some d0 → d0 `prefix_of` d.

Section proofs.
Context `{Env}.

Lemma writer_quiet self fs fs' : quiet fs fs' → writer_ok self fs → writer_ok self fs'.
Proof.
  intros Hq [W1 W2 W3 W4 W5]. split; eauto using quiet_ok.
  - by rewrite (q_undefined _ _ Hq).
  - unfold open_stream. by rewrite (q_streams _ _ Hq).
Qed.

Lemma writer_closed self fs :
  writer_ok self fs → pFile_ self = None → ∀ self', path_ self' = path_ self → rootPath_ self' = rootPath_ self →
  pFile_ self' = None → writer_ok self' fs.
Proof. intros [W1 W2 W3 W4 W5] Hp self' E1 E2 E3. split; [done..|by rewrite E1|by rewrite E2|]. by rewrite E3. Qed.

Lemma fs_ok_streams fs fs' :
  fs_ok fs → names fs' = names fs → length (data fs') = length (data fs) →
  (∀ f s, open_stream f s fs' → ∃ f' s', open_stream f' s' fs ∧ s_ino s = s_ino s') → fs_ok fs'.
Proof.
  intros [O1 O2] Hn Hl Hs. split; rewrite Hl; [by rewrite Hn|].
  intros f s (f' & s' & H1 & ->)%Hs. eauto.
Qed.

Lemma open_insert f f' s s' fs fs' (o : option Stream) :
  streams fs' = <[f := o]> (streams fs) → open_stream f s fs → (∀ t, o = Some t → s_ino t = s_ino s) →
  open_stream f' s' fs' → ∃ f0 s0, open_stream f0 s0 fs ∧ s_ino s' = s_ino s0.
Proof.
  intros Hs Ho Hi. unfold open_stream in *. rewrite Hs.
  intros [(_ & -> & _)|[_ Hf]]%list_lookup_insert_Some; eauto.
Qed.

Lemma buf_nil s : s <| s_buf ::= (.++ []) |> = s.
Proof. destruct s. unfold set_with. cbn. by rewrite app_nil_r. Qed.
Lemma buf_app s a b : s <| s_buf ::= (.++ a) |> <| s_buf ::= (.++ b) |> = s <| s_buf ::= (.++ (a ++ b)) |>.
Proof. destruct s. unfold set_with. cbn. by rewrite app_assoc. Qed.

Lemma write_loop_wp tries f content s Q fs :
  open_stream f s fs →
  (∀ out rest fs', content = out ++ rest → data fs' = data fs → names fs' = names fs →
     undefined fs' = undefined fs →
     streams fs' = <[f := Some (s <| s_buf ::= (.++ out) |>)]> (streams fs) → Q rest fs') →
  wp (write_loop tries f content) Q fs.
Proof.
  revert content s fs. induction tries as [|n IH]; intros content s fs Hs HQ; cbn [write_loop].
  - apply wp_ret, (HQ []); [done..|]. by rewrite buf_nil, list_insert_id.
  - apply wp_bind, (fwrite_wp _ _ s); [done|]. intros taken fs1 [rest ->] E1 E2 E3 E4.
    rewrite drop_app_length. assert (Hf : (f < length (streams fs))%nat) by (by eapply lookup_lt_Some).
    destruct rest as [|x rest]; [apply wp_ret, (HQ taken); [done..|]; by rewrite E4|].
    apply (IH _ (s <| s_buf ::= (.++ taken) |>)).
    { unfold open_stream. by rewrite E4, list_lookup_insert_eq. }
    intros out rest' fs' E5 E6 E7 E8 E9. apply (HQ (taken ++ out)); [by rewrite E5, app_assoc|congruence..|].
    by rewrite E9, E4, list_insert_insert_eq, buf_app.
Qed.

(** A call on a stream that keeps its inode leaves the state in order. *)
Lemma fs_ok_insert f s (o : option Stream) fs fs' :
  fs_ok fs → open_stream f s fs → names fs' = names fs → length (data fs') = length (data fs) →
  streams fs' = <[f := o]> (streams fs) → (∀ t, o = Some t → s_ino t = s_ino s) → fs_ok fs'.
Proof. intros. eapply fs_ok_streams; eauto using open_insert. Qed.

Lemma open_inserted f (s : Stream) t fs fs' :
  open_stream f s fs → streams fs' = <[f := Some t]> (streams fs) → open_stream f t fs'.
Proof. intros Hs Ht. unfold open_stream. rewrite Ht. apply list_lookup_insert_eq. by eapply lookup_lt_Some. Qed.

(** Closing: flush, close and rename. *)
Lemma flush_wp self f Q fs :
  writer_ok self fs → pFile_ self = Some f →
  (∀ r fs', kept fs self fs' → Q r fs') → wp (fflush f) Q fs.
Proof.
  intros Hw Hf HQ. destruct (w_open _ _ Hw f Hf) as (s & Hs).
  apply (fflush_wp f s); [done|]. intros r out fs' Hfl _ Est. apply HQ.
  split; [|by eapply flushed_grows]. pose proof Hfl as (_ & _ & En & Eu). split.
  - eapply fs_ok_insert; [apply Hw|done..|by eapply flushed_length|done|by intros ? [= <-]].
  - rewrite Eu. apply Hw.
  - apply Hw.
  - apply Hw.
  - intros f'. rewrite Hf. intros [= <-]. eexists. by eapply open_inserted.
Qed.

Lemma fclose_ok_wp self f Q fs :
  writer_ok self fs → pFile_ self = Some f →
  (∀ r fs', writer_ok (self <| pFile_ := None |>) fs' → grows fs fs' →
     r = 0 ∨ (∃ n, is_Some (fault Fclose n)) → Q r fs') →
  wp (fclose f) Q fs.
Proof.
  intros Hw Hf HQ. destruct (w_open _ _ Hw f Hf) as (s & Hs).
  apply (fclose_wp f s); [done|]. intros r out fs' Hfl Hr Est.
  apply HQ; [|by eapply flushed_grows|naive_solver]. pose proof Hfl as (_ & _ & En & Eu). split; [..|done].
  - eapply fs_ok_insert; [apply Hw|done..|by eapply flushed_length|done|done].
  - rewrite Eu. apply Hw.
  - apply Hw.
  - apply Hw.
Qed.

Lemma local_close_wp self Q fs :
  writer_ok self fs →
  (∀ r self' fs', kept fs self' fs' → pFile_ self' = None → Q (r, self') fs') →
  wp (local_CloseCurFile self) Q fs.
Proof.
  intros Hw HQ. unfold local_CloseCurFile. destruct (pFile_ self) as [f|] eqn:Hf; [|by apply wp_ret, HQ].
  apply wp_bind, (flush_wp self); [done..|]. intros _ fs1 [Hw1 Hg1].
  apply wp_bind, (fclose_ok_wp self); [done..|]. intros _ fs2 Hw2 Hg2 _.
  apply wp_bind, wp_quiet; [eauto with quiet|]. intros r fs3 Hq. apply wp_ret, HQ; [|done]. split.
  - eapply writer_closed; [by eapply writer_quiet|done..].
  - by rewrite Hg1, Hg2, (quiet_grows _ _ Hq).
Qed.

Lemma Share_close_wp self Q fs :
  (∀ n, fault Fclose n = None) → writer_ok self fs →
  (∀ r self' fs', kept fs self' fs' → r < 0 ∨ pFile_ self' = None → Q (r, self') fs') →
  wp (Share_CloseCurFile self) Q fs.
Proof.
  intros Hnf Hw HQ. unfold Share_CloseCurFile. destruct (pFile_ self) as [f|] eqn:Hf; [|apply wp_ret, HQ; [by split|by right]].
  apply wp_bind, wp_quiet.
  { apply quiet_accessPath. pose proof (length_cstr (rootPath_ self)). pose proof (w_root _ _ Hw). lia. }
  intros a fs1 Hq1. assert (Hw1 := writer_quiet _ _ _ Hq1 Hw). apply quiet_grows in Hq1.
  destruct (a <? 0); [apply wp_ret, HQ; [by split|by left]|].
  apply wp_bind, (flush_wp self); [done..|]. intros r fs2 [Hw2 Hg2].
  destruct (r <? 0); [apply wp_ret, HQ; [split; [done|by etrans]|by left]|].
  apply wp_bind, (fclose_ok_wp self); [done..|]. intros r' fs3 Hw3 Hg3 [->|[n [? Hn]]]; [|by rewrite Hnf in Hn].
  apply wp_bind, wp_quiet; [eauto with quiet|]. intros r' fs4 Hq. apply wp_ret, HQ; [|by right]. split.
  - eapply writer_closed; [by eapply writer_quiet|done..].
  - by rewrite Hq1, Hg2, Hg3, (quiet_grows _ _ Hq).
Qed.

Lemma open_next_wp e1 e2 e3 e4 self Q fs :
  e1 < 0 → e2 < 0 → e3 < 0 → e4 < 0 → writer_ok self fs → pFile_ self = None →
  (∀ r self' fs', kept fs self' fs' → r < 0 ∨ r = 0 → Q (r, self') fs') →
  wp (open_next e1 e2 e3 e4 self) Q fs.
Proof.
  intros H1 H2 H3 H4 Hw Hp HQ. unfold open_next. case_decide as Hl; [apply wp_ret, HQ; [by split|by left]|].
  apply wp_bind, wp_quiet; [apply quiet_mkdirs; lia|]. intros m fs1 Hq1.
  assert (Hw1 := writer_quiet _ _ _ Hq1 Hw). apply quiet_grows in Hq1.
  destruct (m =? -1); [apply wp_ret, HQ; [by split|by left]|].
  apply wp_bind, wp_quiet; [eauto with quiet|]. intros [sec usec] fs2 Hq2.
  assert (Hw2 := writer_quiet _ _ _ Hq2 Hw1). apply quiet_grows in Hq2.
  assert (Hg : grows fs fs2) by (by etrans).
  case_decide; [apply wp_ret, HQ; [split; [by eapply (writer_closed self)|done]|by left]|].
  apply wp_bind, fopen_append_wp; [apply Hw2|]. intros p fs3 Hok Hg3 Hu Hst.
  destruct p as [f|]; apply wp_ret, HQ; auto.
  - destruct Hst as (-> & i & Hst). split; [|by etrans]. split; [done|by rewrite Hu; apply Hw2|apply Hw|apply Hw|].
    intros f [= <-]. eexists. unfold open_stream. rewrite Hst. by apply list_lookup_middle.
  - split; [|by etrans]. split; [done|by rewrite Hu; apply Hw2|apply Hw|apply Hw|done].
Qed.

(** What a switch to a new file promises. *)
Definition switch_ok (switch : WriteFile → St Fs (Z * WriteFile)) : Prop :=
  ∀ self Q fs, writer_ok self fs → (∀ r self' fs', kept fs self' fs' → Q (r, self') fs') →
  wp (switch self) Q fs.

Lemma local_switch_ok : switch_ok local_switchToNewFile.
Proof.
  intros self Q fs Hw HQ. apply wp_bind, local_close_wp; [done|]. intros r self1 fs1 [Hw1 Hg1] Hp.
  destruct (r <? 0); [by apply wp_ret, HQ|]. apply open_next_wp; [done..|].
  intros r' self2 fs2 [Hw2 Hg2] _. apply HQ. split; [done|by etrans].
Qed.

Lemma Share_switch_ok : (∀ n, fault Fclose n = None) → switch_ok Share_switchToNewFile.
Proof.
  intros Hnf self Q fs Hw HQ. apply wp_bind, Share_close_wp; [done..|]. intros r self1 fs1 [Hw1 Hg1] Hp.
  destruct (Z.ltb_spec r 0); [by apply wp_ret, HQ|]. apply open_next_wp; [done..|naive_solver lia|].
  intros r' self2 fs2 [Hw2 Hg2] _. apply HQ. split; [done|by etrans].
Qed.

Lemma put_record_wp e switch self f content Q fs :
  e < 0 → switch_ok switch → writer_ok self fs → pFile_ self = Some f →
  (∀ r self' fs', kept fs self' fs' → (r = 0 → durable content fs self' fs') → Q (r, self') fs') →
  wp (put_record e switch self f content) Q fs.
Proof.
  intros He Hsw Hw Hf HQ. destruct (w_open _ _ Hw f Hf) as (s & Hs).
  apply wp_bind, (write_loop_wp _ _ _ s); [done|]. intros out rest fs1 -> E1 E2 E3 E4.
  set (s1 := s <| s_buf ::= (.++ out) |>). assert (Hs1 : open_stream f s1 fs1) by (by eapply open_inserted).
  assert (Hg1 : grows fs fs1) by (intros i d ?; exists []; by rewrite E1, app_nil_r).
  assert (Hw1 : writer_ok self fs1).
  { split; [|by rewrite E3; apply Hw|apply Hw|apply Hw|].
    - eapply fs_ok_insert; [apply Hw|done..|by rewrite E1|done|by intros ? [= <-]].
    - rewrite Hf. intros ? [= <-]. eauto. }
  destruct rest as [|x rest]; [|apply wp_ret, HQ; [by split|lia]]. rewrite app_nil_r in HQ.
  apply wp_bind, (fflush_wp f s1); [done|]. intros r out' fs2 Hfl Hr Est.
  assert (Hg2 : grows fs fs2) by (etrans; [done|by eapply flushed_grows]).
  pose proof Hfl as (_ & Ed & En & Eu). assert (Hs2 := open_inserted _ _ _ _ _ Hs1 Est).
  assert (Hw2 : writer_ok self fs2).
  { split; [|by rewrite Eu; apply Hw1|apply Hw|apply Hw|].
    - eapply fs_ok_insert; [apply Hw1|done..|by eapply flushed_length|done|by intros ? [= <-]].
    - rewrite Hf. intros ? [= <-]. eauto. }
  destruct (Z.eqb_spec r (-1)) as [->|Hne].
  - apply wp_bind, Hsw; [done|]. intros r self3 fs3 [Hw3 Hg3].
    assert (grows fs fs3) by (by etrans).
    destruct (Z.ltb_spec r 0); apply wp_ret, HQ; [by split|lia| |done].
    split; [|done]. destruct Hw3. by split.
  - destruct Hr as [[-> ->]|]; [|done]. apply wp_ret, HQ; [split; [|done]; destruct Hw2; by split|].
    destruct (lookup_lt_is_Some_2 (data fs) (s_ino s)) as [d Hd]; [by eapply ok_streams; [apply Hw|]|].
    intros _. eexists f, _, (d ++ s_buf s). split; [done|]. split; [exact Hs2|]. cbn. split.
    { apply drop_all. }
    rewrite Ed, E1. split.
    + unfold set_with. cbn. rewrite list_lookup_alter_eq, Hd. cbn. by rewrite app_assoc.
    + unfold set_with. cbn. intros d0. rewrite Hd. intros [= <-]. by apply prefix_app_r.
Qed.

Definition write_spec (write : bytes → WriteFile → St Fs (Z * WriteFile)) : Prop :=
  ∀ content self Q fs, writer_ok self fs →
  (∀ r self' fs', kept fs self' fs' → (r = 0 → durable content fs self' fs') → Q (r, self') fs') →
  wp (write content self) Q fs.

Lemma durable_grows content fs fs1 self' fs' :
  grows fs fs1 → durable content fs1 self' fs' → durable content fs self' fs'.
Proof.
  intros Hg (f & s & d & H1 & H2 & H3 & H4 & H5). exists f, s, d. split_and!; [done..|].
  intros d0 (e & He)%Hg. etrans; [|by apply H5]. by apply prefix_app_r.
Qed.

Lemma then_put_wp e_null e switch content fs r self1 fs1 Q :
  e_null < 0 → e < 0 → switch_ok switch → kept fs self1 fs1 →
  (∀ r self' fs', kept fs self' fs' → (r = 0 → durable content fs self' fs') → Q (r, self') fs') →
  wp (if r <? 0 then mret (r, self1) else match pFile_ self1 with
      | None => mret (e_null, self1) | Some f => put_record e switch self1 f content end) Q fs1.
Proof.
  intros He1 He2 Hsw [Hw1 Hg1] HQ. destruct (Z.ltb_spec r 0); [apply wp_ret, HQ; [by split|lia]|].
  destruct (pFile_ self1) as [f|] eqn:Hf; [|apply wp_ret, HQ; [by split|lia]].
  apply put_record_wp; [done..|]. intros r' self2 fs2 [Hw2 Hg2] Hd.
  apply HQ; [split; [done|by etrans]|]. intros. eapply durable_grows; eauto.
Qed.

Lemma local_write_spec : write_spec local_writeToFile.
Proof.
  intros content self Q fs Hw HQ. unfold local_writeToFile.
  destruct (negb _); [by apply wp_ret, HQ; [split|]|]. apply wp_bind.
  pose proof local_switch_ok as Hsw. destruct (full self).
  - apply Hsw; [done|]. intros. by eapply then_put_wp.
  - apply wp_ret. by eapply then_put_wp.
Qed.

Lemma Share_write_spec : (∀ n, fault Fclose n = None) → write_spec Share_writeToFile.
Proof.
  intros Hnf content self Q fs Hw HQ. unfold Share_writeToFile.
  case_decide; [by apply wp_ret, HQ; [split|]|].
  destruct (negb _); [by apply wp_ret, HQ; [split|]|]. apply wp_bind.
  pose proof (Share_switch_ok Hnf) as Hsw. destruct (full self).
  - apply Hsw; [done|]. intros. by eapply then_put_wp.
  - apply wp_bind, wp_quiet.
    { apply quiet_accessPath. pose proof (length_cstr (rootPath_ self)). pose proof (w_root _ _ Hw). lia. }
    intros a fs1 Hq. apply wp_ret. eapply then_put_wp; [done..| |done].
    split; [by eapply writer_quiet|by apply quiet_grows].
Qed.

(** ** Sequences of operations *)

Inductive Op := OpWrite (content : bytes) | OpCheck (second : Z) | OpExit | OpGenFreq (second : Z) | OpMaxSize (size : Z).

Definition new_writer (shared : bool) := if shared then ShareWriteFileMgr_new else localWriteFileMgr_new.
Definition write (shared : bool) := if shared then Share_writeToFile else local_writeToFile.
Definition apply_op (shared : bool) (op : Op) (self : WriteFile) : St Fs WriteFile :=
  match op with
  | OpWrite content => '(_, self) ← write shared content self; mret self
  | OpCheck second => (if shared then Share_everySecondCheck else local_everySecondCheck) second self
  | OpExit => (if shared then Share_exitClose else local_exitClose) self
  | OpGenFreq second => mret (updateGenFreq second self)
  | OpMaxSize size => mret (updateMaxFileSize size self)
  end.
Fixpoint run_ops (shared : bool) (ops : list Op) (self : WriteFile) : St Fs WriteFile :=
  match ops with
  | [] => mret self
  | op :: ops' => self ← apply_op shared op self; run_ops shared ops' self
  end.

(** [fclose] does not fail; needed for the shared directory only. *)
Definition closes (shared : bool) : Prop := shared = true → ∀ n, fault Fclose n = None.

Lemma write_ok shared : closes shared → write_spec (write shared).
Proof. intros Hc. destruct shared; [by apply Share_write_spec, Hc|apply local_write_spec]. Qed.

Lemma apply_op_wp shared op self Q fs :
  closes shared → writer_ok self fs → (∀ self' fs', kept fs self' fs' → Q self' fs') →
  wp (apply_op shared op self) Q fs.
Proof.
  intros Hc Hw HQ.
  assert (Hclose : ∀ self (k : WriteFile → WriteFile), writer_ok self fs →
    (∀ s fs', writer_ok s fs' → writer_ok (k s) fs') →
    wp ('(_, s) ← (if shared then Share_CloseCurFile else local_CloseCurFile) self; mret (k s)) Q fs).
  { clear self Hw. intros self k Hw Hk. destruct shared; apply wp_bind.
    - apply Share_close_wp; [by apply Hc|done|]. intros r s fs' [? ?] _. apply wp_ret, HQ. split; [by apply Hk|done].
    - apply local_close_wp; [done|]. intros r s fs' [? ?] _. apply wp_ret, HQ. split; [by apply Hk|done]. }
  destruct op as [content|second| |second|size]; cbn [apply_op].
  - apply wp_bind, write_ok; [done..|]. intros r self' fs' Hk _. by apply wp_ret, HQ.
  - assert (Hid := Hclose self id Hw (λ s fs' h, h)). destruct shared;
      [unfold Share_everySecondCheck|unfold local_everySecondCheck];
      (destruct (negb _); [by apply wp_ret, HQ|]; destruct (expired second self); [apply Hid|by apply wp_ret, HQ]).
  - assert (Hw' : writer_ok (self <| isExit_ := 1 |>) fs) by (destruct Hw; by split).
    assert (Hk : ∀ s fs', writer_ok s fs' → writer_ok (s <| pFile_ := None |>) fs') by (intros s fs' []; by split).
    assert (Hex := Hclose _ _ Hw' Hk). destruct shared; [unfold Share_exitClose|unfold local_exitClose];
      (destruct (pFile_ _); [apply Hex|by apply wp_ret, HQ]).
  - apply wp_ret, HQ. split; [|done]. destruct Hw. by split.
  - apply wp_ret, HQ. split; [|done]. destruct Hw. by split.
Qed.

Lemma run_ops_wp shared ops self Q fs :
  closes shared → writer_ok self fs → (∀ self' fs', kept fs self' fs' → Q self' fs') →
  wp (run_ops shared ops self) Q fs.
Proof.
  intros Hc. revert self Q fs. induction ops as [|op ops IH]; intros self Q fs Hw HQ; cbn [run_ops].
  - by apply wp_ret, HQ.
  - apply wp_bind, apply_op_wp; [done..|]. intros self1 fs1 [Hw1 Hg1]. apply IH; [done|].
    intros self2 fs2 [Hw2 Hg2]. apply HQ. split; [done|by etrans].
Qed.

Lemma new_writer_ok shared gateNo maxCout outSecond flag root frag fs :
  fs_ok fs → undefined fs = false → (length root < 1024)%nat →
  writer_ok (new_writer shared gateNo maxCout outSecond flag root frag) fs.
Proof.
  intros Hf Hu Hr. assert (Hd : (length (dir_path flag root frag) < 1024)%nat).
  { unfold dir_path, snprintf. case_match; [rewrite length_take|cbn]; lia. }
  destruct shared; split; try done. cbn. destruct root; [cbn; lia|done].
Qed.

End proofs.

(** When [fclose] fails once on the shared directory, the writer keeps the closed
    stream, and the next record is written through it. *)
Lemma failed_close_reused :
  let run := run_ops (H := env_with (Some (Fclose, 9, 0)%nat)) true in
  let w := new_writer true 1 1 60 RE_REMAIN_FLAG (lit "/data") [] in
  let fs := Fs_new <| dirs := {[ resolve (lit "/data") ]} |> in
  let '(self1, fs1) := run [OpWrite (lit "one"); OpWrite (lit "two")] w fs in
  let '(_, fs2) := run [OpWrite (lit "three")] self1 fs1 in
  undefined fs1 = false ∧ undefined fs2 = true.
Proof. by vm_compute. Qed.

(** A record that could be written only in part, so that the caller is told of the
    failure, stays in the file, and the next record follows it on the same line. *)
Lemma partial_record_stays :
  let full_disk := {| fault := λ c n, match c with Fwrite => if (n <? 20)%nat then Some 1%nat else None | _ => None end;
    clock := @clock calm_env; localtime := @localtime calm_env; listing := @listing calm_env; exe := None |} in
  let w := new_writer false 1 9 60 RE_REMAIN_FLAG (lit "/data") [] in
  let '((r1, self1), fs1) := write (H := full_disk) false (lit "first") w Fs_new in
  let '((r2, self2), fs2) := write (H := calm_env) false (lit "second") self1 fs1 in
  r1 = -1015 ∧ r2 = 0 ∧ data fs2 = [lit "firsecond"].
Proof. by vm_compute. Qed.

End WriteFile.
