(* ===== verification/ReadFile.v ===== *)
(** * Reading remain files ([ReadFileMgr.cpp], [ReadDirMgr.cpp])

    A reader takes a [.ok] file by renaming it, reads it whole and deletes it;
    [readFileFromDir] does so for the first file of a directory that can be read,
    and [readReaminData] tries the local directory before the shared one. *)

From S2P Require Import Prelude CLib Incommon UniqueNum FileSys WriteFile.
Import FileSys WriteFile.

Definition tailOkFile : bytes := lit ".ok".
Definition TAIL_OKFILE_STRLEN : nat := 3.

Module ReadFile.

Record ReadFileMgr := { r_gateNo_ : Z; fileName_ : bytes; bakFileName_ : bytes; errFileName : bytes }.

Section reader.
Context `{Env}.

(** [sprintf] into an array of 1024 bytes. *)
Definition sprintf (s : bytes) : St Fs bytes :=
  if decide (1024 <= length s)%nat then _ ← undefined_behaviour; mret s else mret s.

(** The name with [.ok] replaced. *)
Definition with_tail (gateNo : Z) (fileName tail : bytes) : St Fs bytes :=
  readName ← sprintf (cstr fileName);
  sprintf (take (length readName - TAIL_OKFILE_STRLEN) readName ++ lit "_" ++ fmt_ld gateNo ++ tail).

Definition ReadFileMgr_new (gateNo : Z) (fileName : bytes) : St Fs ReadFileMgr :=
  bak ← with_tail gateNo fileName (lit ".bak");
  err ← with_tail gateNo fileName (lit ".err");
  mret {| r_gateNo_ := gateNo; fileName_ := fileName; bakFileName_ := bak; errFileName := err |}.

Definition readFileLen (self : ReadFileMgr) : St Fs nat :=
  st ← stat (cstr (bakFileName_ self));
  mret (match st with Some (_, size) => size | None => 0%nat end).

Definition deleteReadFile (self : ReadFileMgr) : St Fs () :=
  if decide (1024 <= length (bakFileName_ self))%nat then undefined_behaviour
  else
    let filePath := cstr (bakFileName_ self) in
    a ← access filePath;
    if a =? 0 then _ ← remove filePath; mret () else mret ().

Definition renameErrorFile (self : ReadFileMgr) : St Fs () :=
  _ ← renameFile (snprintf (cstr (bakFileName_ self))) (snprintf (cstr (errFileName self))); mret ().

(** The [do ... while (fileLen > 0)] loop: what was read, and how much is missing. *)
Fixpoint read_loop (tries : nat) (f fileLen : nat) (buf : bytes) : St Fs (bytes * nat) :=
  match tries with
  | O => mret (buf, fileLen)
  | S tries' =>
      got ← fread f fileLen;
      match (fileLen - length got)%nat with
      | O => mret (buf ++ got, O)
      | rest => read_loop tries' f rest (buf ++ got)
      end
  end.

(** [readFromFile] behind the first [renameFile], on the file now called [.bak]. *)
Definition read_taken (self : ReadFileMgr) : St Fs (Z * option bytes) :=
  let szCurName := snprintf (cstr (fileName_ self)) in
  let szBakName := snprintf (cstr (bakFileName_ self)) in
  fileLen ← readFileLen self;
  if decide (fileLen = O) then _ ← renameErrorFile self; mret (-112, None)
  else
    p ← fopen_read szBakName;
    match p with
    | None => _ ← renameFile szBakName szCurName; mret (-113, None)
    | Some f =>
        m ← malloc;
        if negb m then _ ← fclose f; _ ← renameFile szBakName szCurName; mret (-114, None)
        else
          '(buf, missing) ← read_loop 3 f fileLen [];
          if decide (missing ≠ O) then _ ← fclose f; _ ← renameErrorFile self; mret (-114, None)
          else _ ← fclose f; _ ← deleteReadFile self; mret (0, Some buf)
    end.

(** The code, and the text when it is 0. *)
Definition readFromFile (self : ReadFileMgr) : St Fs (Z * option bytes) :=
  ret ← renameFile (snprintf (cstr (fileName_ self))) (snprintf (cstr (bakFileName_ self)));
  if negb (ret =? 0) then mret (-111, None) else read_taken self.

(** ** Reading loses nothing *)

Lemma cstr_id s : no_nul s → cstr s = s.
Proof. intros Hs. unfold cstr. rewrite strIntLen_no_nul by done. by apply take_ge. Qed.

Lemma snprintf_id s : (length s < 1024)%nat → snprintf s = s.
Proof. intros Hs. unfold snprintf. apply take_ge. lia. Qed.

Lemma fclose_read_wp f s Q fs :
  open_stream f s fs → s_buf s = [] →
  (∀ r fs', data fs' = data fs → names fs' = names fs → undefined fs' = undefined fs → Q r fs') →
  wp (fclose f) Q fs.
Proof.
  intros Hs Hb HQ. apply (fclose_wp f s); [done|]. intros r out fs' (Hp & Hd & Hn & Hu) _ _.
  apply HQ; [|done..]. rewrite Hb in Hp. apply prefix_nil_inv in Hp as ->. rewrite Hd.
  apply list_alter_id. intros x. apply app_nil_r.
Qed.

Lemma read_loop_wp tries f n buf i d Q fs s :
  open_stream f s fs → s_ino s = i → s_buf s = [] → data fs !! i = Some d →
  buf = take (s_pos s) d → (n + s_pos s = length d)%nat → (s_pos s <= length d)%nat →
  (∀ buf' missing s' fs', names fs' = names fs → data fs' = data fs → undefined fs' = undefined fs →
     open_stream f s' fs' → s_buf s' = [] → (missing = O → buf' = d) → Q (buf', missing) fs') →
  wp (read_loop tries f n buf) Q fs.
Proof.
  revert n buf fs s. induction tries as [|tries IH]; intros n buf fs s Hs Hi Hsb Hd Hb Hn Hp HQ; cbn [read_loop].
  - apply wp_ret, (HQ _ _ s); [done..|]. intros ->. rewrite Hb. apply take_ge. lia.
  - apply wp_bind, (fread_wp f n s); [done|]. intros got fs' Hl Hg E1 E2 E3 Hs'. rewrite Hi, Hd in Hg. cbn in Hg.
    set (s' := s <| s_pos ::= Nat.add (length got) |>) in *.
    assert (Hb' : buf ++ got = take (s_pos s') d).
    { rewrite Hg, Hb at 1. unfold s', set_with. cbn. by rewrite take_take_drop, Nat.add_comm. }
    destruct (n - length got)%nat as [|m] eqn:Em.
    + apply wp_ret, (HQ _ _ s'); [done..|]. intros _. rewrite Hb'. apply take_ge.
      unfold s', set_with. cbn. lia.
    + apply (IH _ _ fs' s'); [done|done|done|by rewrite E2|done|unfold s', set_with; cbn; lia..|].
      intros buf' missing s2 fs2 F1 F2 F3 F4 F5 F6. eapply HQ; [congruence..|exact F4|done|done].
Qed.

Lemma sprintf_wp s Q fs : (length s < 1024)%nat → Q s fs → wp (sprintf s) Q fs.
Proof. intros Hs HQ. unfold sprintf. by rewrite decide_False by lia. Qed.

Lemma stat_wp p i d Q fs :
  names fs !! resolve p = Some i → data fs !! i = Some d →
  (∀ st fs', names fs' = names fs → data fs' = data fs → undefined fs' = undefined fs →
     match st with Some (_, size) => size | None => O end = O ∨
     match st with Some (_, size) => size | None => O end = length d → Q st fs') →
  wp (stat p) Q fs.
Proof.
  intros Hn Hd HQ. unfold wp, stat. st_cbn. apply HQ; [done..|].
  destruct (fault Stat (tick fs)); [by left|]. destruct (bool_decide _); [by left|].
  destruct (is_dir _ _); [by left|]. right. rewrite Hn. cbn. by rewrite Hd.
Qed.

Lemma access_wp p Q fs :
  (∀ r fs', names fs' = names fs → data fs' = data fs → undefined fs' = undefined fs → Q r fs') →
  wp (access p) Q fs.
Proof. intros HQ. by apply HQ. Qed.

Lemma malloc_wp Q fs f s :
  open_stream f s fs →
  (∀ m fs', names fs' = names fs → data fs' = data fs → undefined fs' = undefined fs → open_stream f s fs' → Q m fs') →
  wp malloc Q fs.
Proof. intros Hs HQ. by apply HQ. Qed.

Section taken.
Context (gateNo : Z) (stem : bytes) (Hnul : no_nul stem)
  (Hlen : (length stem + length (fmt_ld gateNo) + 5 < 1024)%nat).

Definition ok_file : bytes := stem ++ lit ".ok".
Definition bak_file : bytes := stem ++ lit "_" ++ fmt_ld gateNo ++ lit ".bak".
Definition err_file : bytes := stem ++ lit "_" ++ fmt_ld gateNo ++ lit ".err".
Definition mgr : ReadFileMgr :=
  {| r_gateNo_ := gateNo; fileName_ := ok_file; bakFileName_ := bak_file; errFileName := err_file |}.

Lemma fmt_ld_free c : is_digit c = false → c ≠ "-"%byte → c ∉ fmt_ld gateNo.
Proof. intros H1 H2 [Hc|Hc]%fmt_ld_chars; congruence. Qed.

(** The three names in use: the array holds them, and they differ. *)
Lemma names_fit x :
  x ∈ [lit ".ok"; lit "_" ++ fmt_ld gateNo ++ lit ".bak"; lit "_" ++ fmt_ld gateNo ++ lit ".err"] →
  cstr (stem ++ x) = stem ++ x ∧ (length (stem ++ x) < 1024)%nat ∧ x ≠ [] ∧ slash ∉ x.
Proof.
  assert (Hn : NUL ∉ fmt_ld gateNo) by (by apply fmt_ld_free).
  assert (Hs : slash ∉ fmt_ld gateNo) by (by apply fmt_ld_free).
  assert (Hc : ∀ t, no_nul t → cstr (stem ++ t) = stem ++ t).
  { intros t Ht. apply cstr_id, no_nul_app. by split. }
  rewrite !elem_of_cons, elem_of_nil. intros [->|[->|[->|[]]]];
    (split_and!; [apply Hc|rewrite !length_app; cbn; lia|done|]); unfold no_nul;
    rewrite ?not_elem_of_app; repeat split; try done; apply (bool_decide_unpack _); by vm_compute.
Qed.

Lemma names_differ :
  resolve ok_file ≠ resolve bak_file ∧ resolve ok_file ≠ resolve err_file ∧ resolve bak_file ≠ resolve err_file.
Proof.
  pose proof (names_fit (lit ".ok") ltac:(set_solver)) as (_ & _ & N1 & S1).
  pose proof (names_fit (lit "_" ++ fmt_ld gateNo ++ lit ".bak") ltac:(set_solver)) as (_ & _ & N2 & S2).
  pose proof (names_fit (lit "_" ++ fmt_ld gateNo ++ lit ".err") ltac:(set_solver)) as (_ & _ & N3 & S3).
  split_and!; intros E; apply resolve_tail_inj in E; try done. by simplify_list_eq.
Qed.

Lemma ReadFileMgr_new_wp Q fs : Q mgr fs → wp (ReadFileMgr_new gateNo ok_file) Q fs.
Proof.
  intros HQ.
  pose proof (names_fit (lit ".ok") ltac:(set_solver)) as (C1 & L1 & _).
  pose proof (names_fit (lit "_" ++ fmt_ld gateNo ++ lit ".bak") ltac:(set_solver)) as (C2 & L2 & _).
  pose proof (names_fit (lit "_" ++ fmt_ld gateNo ++ lit ".err") ltac:(set_solver)) as (C3 & L3 & _).
  assert (Ht : take (length ok_file - TAIL_OKFILE_STRLEN) ok_file = stem).
  { apply take_app_length'. unfold ok_file, TAIL_OKFILE_STRLEN. rewrite length_app.
    change (length (lit ".ok")) with 3%nat. lia. }
  unfold ReadFileMgr_new, with_tail. fold ok_file in C1, L1. rewrite C1.
  apply wp_bind, wp_bind, sprintf_wp; [done|]. rewrite Ht. apply sprintf_wp; [done|].
  apply wp_bind, wp_bind, sprintf_wp; [done|]. rewrite Ht. apply sprintf_wp; [done|]. by apply wp_ret.
Qed.

(** The outcomes of a read, from a state in which the file is called [.bak]: the
    whole text, or the file under one of its names. *)
Definition outcome (i : nat) (d : bytes) (fs : Fs) (r : Z * option bytes) (fs' : Fs) : Prop :=
  data fs' = data fs ∧ undefined fs' = undefined fs ∧
  ((r = (0, Some d) ∧ (names fs' = names fs ∨ names fs' = delete (resolve bak_file) (names fs))) ∨
   (r.1 < 0 ∧ r.2 = None ∧ ∃ q, q ∈ [resolve ok_file; resolve bak_file; resolve err_file] ∧
      names fs' = <[q := i]> (delete (resolve bak_file) (names fs)))).

Lemma read_taken_wp i d Q fs :
  names fs !! resolve bak_file = Some i → data fs !! i = Some d →
  (∀ r fs', outcome i d fs r fs' → Q r fs') → wp (read_taken mgr) Q fs.
Proof.
  intros Hb Hd HQ.
  pose proof (names_fit (lit ".ok") ltac:(set_solver)) as (C1 & L1 & _).
  pose proof (names_fit (lit "_" ++ fmt_ld gateNo ++ lit ".bak") ltac:(set_solver)) as (C2 & L2 & _).
  pose proof (names_fit (lit "_" ++ fmt_ld gateNo ++ lit ".err") ltac:(set_solver)) as (C3 & L3 & _).
  fold ok_file in C1, L1. fold bak_file in C2, L2. fold err_file in C3, L3.
  (* the file is renamed to [b], or keeps its name *)
  assert (Hren : ∀ b e fs1, b ∈ [ok_file; err_file] → cstr b = b → names fs1 = names fs → data fs1 = data fs →
    undefined fs1 = undefined fs → e < 0 → wp (renameFile bak_file b) (λ _, Q (e, None)) fs1).
  { intros b e fs1 Hin Hcb E1 E2 E3 He. apply rename_wp. intros r fs' F1 F2 F3 Hr. rewrite C2, Hcb, E1 in Hr.
    apply HQ. split; [congruence|]. split; [congruence|]. right. split_and!; [done..|].
    destruct Hr as [[_ Hn]|(_ & i' & Hi & Hn)].
    - exists (resolve bak_file). split; [set_solver|]. rewrite Hn. by rewrite insert_delete_eq, insert_id.
    - rewrite Hb in Hi. injection Hi as <-. exists (resolve b). split; [|done].
      rewrite !elem_of_cons in Hin. set_solver. }
  unfold read_taken, readFileLen, renameErrorFile. cbn [fileName_ bakFileName_ errFileName mgr].
  rewrite C1, C2, C3, !snprintf_id by done.
  apply wp_bind, wp_bind, (stat_wp _ i d); [done..|]. intros st fs1 E1 E2 E3 Hst. apply wp_ret.
  case_decide as Hz; [apply wp_bind, wp_bind; apply (Hren err_file); [set_solver|done..]|].
  assert (Hn : match st with Some (_, size) => size | None => O end = length d) by (by destruct Hst).
  rewrite Hn in Hz |- *. clear Hst Hn st.
  apply wp_bind, fopen_read_wp. intros p fs2 F1 F2 F3 Hp.
  destruct p as [f|]; [|apply wp_bind, (Hren ok_file); [set_solver|congruence..|done]].
  destruct Hp as (i' & Hi & Hs). rewrite E1, Hb in Hi. injection Hi as <-.
  apply wp_bind. apply (malloc_wp _ _ f _ Hs). intros m fs3 G1 G2 G3 Hs3.
  destruct m; cbn [negb].
  - apply wp_bind. eapply (read_loop_wp _ _ _ _ i d); [exact Hs3|done|done|congruence|done|cbn; lia|cbn; lia|].
    intros buf missing s' fs4 K1 K2 K3 Hs4 Hb4 Hm. cbn beta iota. case_decide as Hmi.
    + apply wp_bind, (fclose_read_wp _ _ _ _ Hs4 Hb4). intros ? fs5 ? ? ?.
      apply wp_bind, wp_bind. apply (Hren err_file); [set_solver|congruence..|done].
    + apply wp_bind, (fclose_read_wp _ _ _ _ Hs4 Hb4). intros ? fs5 ? ? ?. apply wp_bind.
      unfold deleteReadFile. cbn [bakFileName_ mgr]. rewrite decide_False by lia. rewrite C2.
      rewrite Hm by (by destruct missing). 
      assert (Hfin : ∀ fs6, data fs6 = data fs → undefined fs6 = undefined fs →
        names fs6 = names fs ∨ names fs6 = delete (resolve bak_file) (names fs) → Q (0, Some d) fs6).
      { intros fs6 ? ? ?. apply HQ. split; [done|]. split; [done|]. by left. }
      apply wp_bind, access_wp. intros a fs6 ? ? ?. destruct (a =? 0).
      * apply wp_bind, remove_wp. intros ? fs7 M1 _ M3 M2. apply (Hfin fs7); [congruence..|].
        replace (names fs6) with (names fs) in M2 by congruence. done.
      * apply (Hfin fs6); [congruence..|left; congruence].
  - apply wp_bind. eapply fclose_read_wp; [exact Hs3|done|]. intros ? fs4 ? ? ?.
    apply wp_bind, (Hren ok_file); [set_solver|congruence..|done].
Qed.

Lemma readFromFile_wp i d Q fs :
  names fs !! resolve ok_file = Some i → data fs !! i = Some d →
  names fs !! resolve bak_file = None → names fs !! resolve err_file = None →
  (∀ r fs', data fs' = data fs → undefined fs' = undefined fs →
     (∀ q, q ∉ [resolve ok_file; resolve bak_file; resolve err_file] → names fs' !! q = names fs !! q) →
     (r = (0, Some d) ∧ names fs' !! resolve ok_file = None ∨
      r.1 < 0 ∧ r.2 = None ∧ ∃ q, q ∈ [resolve ok_file; resolve bak_file; resolve err_file] ∧
        names fs' !! q = Some i) → Q r fs') →
  wp (self ← ReadFileMgr_new gateNo ok_file; readFromFile self) Q fs.
Proof.
  intros Ho Hd Hb He HQ. destruct names_differ as (D1 & D2 & D3).
  pose proof (names_fit (lit ".ok") ltac:(set_solver)) as (C1 & L1 & _).
  pose proof (names_fit (lit "_" ++ fmt_ld gateNo ++ lit ".bak") ltac:(set_solver)) as (C2 & L2 & _).
  fold ok_file in C1, L1. fold bak_file in C2, L2.
  apply wp_bind, ReadFileMgr_new_wp. unfold readFromFile. cbn [fileName_ bakFileName_ mgr].
  rewrite C1, C2, !snprintf_id by done. apply wp_bind, rename_wp. rewrite C1, C2.
  intros r fs1 E1 E2 E3 [[-> En]|(-> & i' & Hi & En)]; cbn [Z.eqb negb].
  - apply wp_ret, HQ; [done..|by rewrite En|]. right. split_and!; [done..|].
    exists (resolve ok_file). rewrite En. set_solver.
  - rewrite Ho in Hi. injection Hi as <-.
    apply (read_taken_wp i d); [by rewrite En, lookup_insert_eq|by rewrite E1|].
    intros r fs' (F1 & F2 & F3). apply HQ; [congruence..| |].
    + intros q Hq. rewrite !not_elem_of_cons in Hq. destruct Hq as (? & ? & ? & _).
      destruct F3 as [(_ & [-> | ->])|(_ & _ & q' & Hq' & ->)]; rewrite ?En.
      * by rewrite lookup_insert_ne, lookup_delete_ne by congruence.
      * by rewrite lookup_delete_ne, lookup_insert_ne, lookup_delete_ne by congruence.
      * rewrite !elem_of_cons, elem_of_nil in Hq'.
        by rewrite lookup_insert_ne, lookup_delete_ne, lookup_insert_ne, lookup_delete_ne by naive_solver congruence.
    + destruct F3 as [(-> & Hn)|(? & ? & q' & Hq' & ->)]; [left|right].
      * split; [done|]. destruct Hn as [-> | ->]; rewrite ?lookup_delete_ne, En by done;
          by rewrite lookup_insert_ne, lookup_delete_eq.
      * split_and!; [done..|]. exists q'. by rewrite lookup_insert_eq.
Qed.

(** C11: Reading a remain file loses nothing, whichever calls fail: a read that
    returns 0 gives the whole text and the [.ok] name is gone, so that no other
    reader takes the file; a read that fails leaves the file with its content
    under its [.ok], [.bak] or [.err] name; other files are not touched. *)
Theorem reading_loses_nothing i d fs :
  names fs !! resolve ok_file = Some i → data fs !! i = Some d →
  names fs !! resolve bak_file = None → names fs !! resolve err_file = None →
  let '((r, text), fs') := (self ← ReadFileMgr_new gateNo ok_file; readFromFile self) fs in
  data fs' = data fs ∧ undefined fs' = undefined fs ∧
  (∀ q, q ∉ [resolve ok_file; resolve bak_file; resolve err_file] → names fs' !! q = names fs !! q) ∧
  (r = 0 ∧ text = Some d ∧ names fs' !! resolve ok_file = None ∨
   r < 0 ∧ text = None ∧
   ∃ q, q ∈ [resolve ok_file; resolve bak_file; resolve err_file] ∧ names fs' !! q = Some i).
Proof.
  intros Ho Hd Hb He. destruct ((self ← _; readFromFile self) fs) as [[r text] fs'] eqn:E.
  eapply (wp_run _ (λ rt fs', data fs' = data fs ∧ undefined fs' = undefined fs ∧
    (∀ q, q ∉ [resolve ok_file; resolve bak_file; resolve err_file] → names fs' !! q = names fs !! q) ∧
    (rt.1 = 0 ∧ rt.2 = Some d ∧ names fs' !! resolve ok_file = None ∨
     rt.1 < 0 ∧ rt.2 = None ∧
     ∃ q, q ∈ [resolve ok_file; resolve bak_file; resolve err_file] ∧ names fs' !! q = Some i))) in E; [done|].
  apply (readFromFile_wp i d); [done..|]. intros rt fs2 H1 H2 H3 H4. split_and!; [done..|].
  destruct H4 as [[-> H4]|H4]; [by left|by right].
Qed.
End taken.
End reader.

(** The file cannot be opened after it was taken: the reader gives it back. *)
Definition no_open : Env := env_with (Some (Fopen, 2, 0)%nat).
Definition one_file : Fs := {|
  tick := 0; names := {[ resolve (lit "/d/1_2.ok") := 0%nat ]}; dirs := {[ resolve (lit "/d") ]};
  data := [lit "records"]; streams := []; undefined := false |}.

Lemma reading_loses_nothing_witness :
  let p s := resolve (lit "/d/1_2" ++ s) in
  let '((r, text), fs') :=
    (self ← ReadFileMgr_new 7 (lit "/d/1_2.ok"); readFromFile (H := no_open) self) one_file in
  data fs' = data one_file ∧ undefined fs' = undefined one_file ∧
  (∀ q, q ∉ [p (lit ".ok"); p (lit "_7.bak"); p (lit "_7.err")] → names fs' !! q = names one_file !! q) ∧
  (r = 0 ∧ text = Some (lit "records") ∧ names fs' !! p (lit ".ok") = None ∨
   r < 0 ∧ text = None ∧
   ∃ q, q ∈ [p (lit ".ok"); p (lit "_7.bak"); p (lit "_7.err")] ∧ names fs' !! q = Some 0%nat).
Proof.
  apply (reading_loses_nothing (H := no_open) 7 (lit "/d/1_2") ltac:(decide_now) ltac:(vm_compute; lia)
    0 (lit "records") one_file); vm_compute; reflexivity.
Defined.
End ReadFile.

Module ReadDir.
Import ReadFile.

Record ReadDirMgr := { bitFlag_ : Z; d_gateNo_ : Z; shareRootPath_ : bytes; sharePath_ : bytes;
                       localPath_ : bytes; d_fragFolder_ : bytes }.

Section directory.
Context `{Env}.

Definition ReadDirMgr_new (flag gateNo : Z) (fragFolder sharePath localPath : bytes) : St Fs ReadDirMgr :=
  let mk root share loc := {| bitFlag_ := flag; d_gateNo_ := gateNo; shareRootPath_ := root;
    sharePath_ := share; localPath_ := loc; d_fragFolder_ := fragFolder |} in
  let dir := if decide (flag = RE_REMAIN_FLAG) then Some reportDir
             else if decide (flag = MO_REMAIN_FLAG) then Some moDir
             else if decide (flag = MT_REMAIN_FLAG) then Some mtDir else None in
  match dir with
  | Some dir =>
      let full root := sprintf (cstr root ++ [slash] ++ dir ++ [slash] ++ cstr fragFolder) in
      share ← match sharePath with [] => mret [] | _ => full sharePath end;
      loc ← full localPath;
      mret (mk sharePath share loc)
  | None => mret (mk [] [] [])
  end.

(** [strcmp(end - 3, ".ok")]; for a name of one or two characters the three bytes
    begin in the type and length fields before the name, which hold no dot. *)
Definition is_ok_name (name : bytes) : bool :=
  bool_decide (3 <= length name)%nat && bool_decide (drop (length name - TAIL_OKFILE_STRLEN) name = tailOkFile).

(** The loop over the entries of the directory. *)
Fixpoint entries_loop (gateNo : Z) (path : bytes) (es : list bytes) : St Fs (Z * option bytes) :=
  match es with
  | [] => mret (-122, None)
  | e :: es' =>
      let strFilename := path ++ [slash] ++ e in
      st ← stat (cstr strFilename);
      match st with
      | Some (false, _) =>
          if is_ok_name e then
            readFile ← ReadFileMgr_new gateNo strFilename;
            '(ret, text) ← readFromFile readFile;
            if ret =? 0 then mret (ret, text) else entries_loop gateNo path es'
          else entries_loop gateNo path es'
      | _ => entries_loop gateNo path es'
      end
  end.

Definition readFileFromDir (self : ReadDirMgr) (path : bytes) : St Fs (Z * option bytes) :=
  if decide (1024 <= length path)%nat then _ ← undefined_behaviour; mret (-121, None)
  else
    dir ← opendir (cstr path);
    match dir with
    | None => mret (-121, None)
    | Some es => entries_loop (d_gateNo_ self) path es
    end.

Definition readReaminData (self : ReadDirMgr) : St Fs (Z * option bytes) :=
  '(ret, text) ← readFileFromDir self (localPath_ self);
  if ret =? 0 then mret (ret, text)
  else
    a ← accessPath (shareRootPath_ self);
    if a <? 0 then mret (-123, None) else readFileFromDir self (sharePath_ self).
End directory.
End ReadDir.
