(* ===== verification/CalmFs.v ===== *)
(** * File-system calls that do not fail

    Exact effects of the calls of [FileSys] in an environment without failures, and
    what [mkdirs] creates there; the numbered file names of the writers. *)

From S2P Require Import Prelude CLib Incommon UniqueNum FileSys WriteFile.
Import UniqueNum(tm, Build_tm, tm_year, tm_mon, tm_mday, tm_hour, tm_min, tm_sec).
Import FileSys.

(** No call fails, a listing is a permutation of the directory, and the clock and
    the calendar keep their documented ranges. *)
Class Calm (env : Env) : Prop := {
  no_fault c n : fault c n = None;
  listing_perm n l : listing n l ≡ₚ l;
  clock_ok n : 0 < (clock n).1 < 2 ^ 62 ∧ 0 <= (clock n).2 < 1000000;
  localtime_ok s : UniqueNum.tm_ok (localtime s) }.

#[export] Instance calm_env_calm : Calm calm_env.
Proof.
  split; cbn; [done|done| |intros _; decide_now].
  intros n. pose proof (Z.mod_pos_bound (Z.of_nat n) 1000). lia.
Qed.

Module CalmFs.

Section calls.
Context {env : Env} `{!Calm env}.

Notation "fs ⊙ t" := (set_with tick (λ _, t) fs) (at level 1, t at level 0, left associativity).

Lemma access_calm p Q fs :
  (∀ t, Q (if is_there p fs then 0 else -1) (fs ⊙ t)) → wp (access p) Q fs.
Proof. intros HQ. unfold wp, access. st_cbn. rewrite no_fault. apply HQ. Qed.

Lemma mkdir_calm p Q fs :
  is_there p fs = false → p ≠ [] → is_dir (parent (resolve p)) fs = true →
  (∀ t, Q 0 (fs ⊙ t <| dirs ::= λ d, {[resolve p]} ∪ d |>)) → wp (mkdir p) Q fs.
Proof.
  intros Ht Hp Hd HQ. unfold wp, mkdir. st_cbn. rewrite no_fault.
  rewrite (bool_decide_true (p ≠ [])) by done.
  change (is_there p _) with (is_there p fs). change (is_dir (parent (resolve p)) _) with (is_dir (parent (resolve p)) fs).
  rewrite Ht, Hd. apply HQ.
Qed.

Lemma rename_calm a b i Q fs :
  names fs !! resolve (cstr a) = Some i → is_dir (parent (resolve (cstr b))) fs = true →
  is_dir (resolve (cstr b)) fs = false →
  (∀ t, Q 0 (fs ⊙ t <| names ::= λ m, <[resolve (cstr b) := i]> (delete (resolve (cstr a)) m) |>)) →
  wp (renameFile a b) Q fs.
Proof.
  intros Hn Hp Hd HQ. unfold wp, renameFile, rename. st_cbn. rewrite no_fault. cbn. rewrite Hn.
  change (is_dir ?q _) with (is_dir q fs). rewrite Hp, Hd. apply HQ.
Qed.

Lemma remove_calm p i Q fs :
  names fs !! resolve p = Some i → (∀ t, Q 0 (fs ⊙ t <| names ::= delete (resolve p) |>)) → wp (remove p) Q fs.
Proof. intros Hn HQ. unfold wp, remove. st_cbn. rewrite no_fault. cbn. rewrite Hn. apply HQ. Qed.

Lemma stat_calm p i d Q fs :
  p ≠ [] → names fs !! resolve p = Some i → data fs !! i = Some d → is_dir (resolve p) fs = false →
  (∀ t, Q (Some (false, length d)) (fs ⊙ t)) → wp (stat p) Q fs.
Proof.
  intros Hp Hn Hd Hdir HQ. unfold wp, stat. st_cbn. rewrite no_fault, bool_decide_false by done.
  change (is_dir ?q _) with (is_dir q fs). rewrite Hdir, Hn. cbn. rewrite Hd. apply HQ.
Qed.

Lemma fopen_append_calm p Q fs :
  p ≠ [] → is_dir (resolve p) fs = false → is_dir (parent (resolve p)) fs = true →
  names fs !! resolve p = None →
  (∀ t, Q (Some (length (streams fs)))
     (fs ⊙ t <| names ::= <[resolve p := length (data fs)]> |> <| data ::= (.++ [[]]) |>
        <| streams ::= (.++ [Some {| s_ino := length (data fs); s_buf := []; s_pos := 0 |}]) |>)) →
  wp (fopen_append p) Q fs.
Proof.
  intros Hp Hd Hpd Hn HQ. unfold wp, fopen_append, new_stream. st_cbn. rewrite no_fault.
  rewrite (bool_decide_true (p ≠ [])) by done.
  change (is_dir ?q _) with (is_dir q fs). rewrite Hd, Hpd. cbn. rewrite Hn. apply HQ.
Qed.

Lemma fopen_read_calm p i Q fs :
  names fs !! resolve p = Some i →
  (∀ t, Q (Some (length (streams fs)))
     (fs ⊙ t <| streams ::= (.++ [Some {| s_ino := i; s_buf := []; s_pos := 0 |}]) |>)) →
  wp (fopen_read p) Q fs.
Proof. intros Hn HQ. unfold wp, fopen_read, new_stream. st_cbn. rewrite no_fault. cbn. rewrite Hn. apply HQ. Qed.

Lemma fwrite_calm f content s Q fs :
  open_stream f s fs →
  (∀ t, Q (length content) (fs ⊙ t <| streams ::= <[f := Some (s <| s_buf ::= (.++ content) |>)]> |>)) →
  wp (fwrite f content) Q fs.
Proof. intros Hs HQ. unfold wp, fwrite, with_stream. st_cbn. rewrite Hs. cbn. rewrite no_fault. apply HQ. Qed.

Lemma fflush_calm f s Q fs :
  open_stream f s fs →
  (∀ t, Q 0 (fs ⊙ t <| data ::= alter (.++ s_buf s) (s_ino s) |>
               <| streams ::= <[f := Some (s <| s_buf := [] |>)]> |>)) →
  wp (fflush f) Q fs.
Proof.
  intros Hs HQ. unfold wp, fflush, drain, with_stream. st_cbn. rewrite Hs. cbn. rewrite no_fault.
  rewrite drop_all. apply HQ.
Qed.

Lemma fclose_calm f s Q fs :
  open_stream f s fs → s_buf s = [] →
  (∀ t, Q 0 (fs ⊙ t <| streams ::= <[f := None]> |>)) → wp (fclose f) Q fs.
Proof.
  intros Hs Hb HQ. unfold wp, fclose, drain, with_stream. st_cbn. rewrite Hs. cbn. rewrite no_fault, Hb.
  specialize (HQ (S (tick fs))). revert HQ. unfold set_with. cbn.
  rewrite (list_alter_id (.++ [])); [done|]. intros x. apply app_nil_r.
Qed.

Lemma fread_calm f n s Q fs :
  open_stream f s fs →
  (∀ t, let got := take n (drop (s_pos s) (default [] (data fs !! s_ino s))) in
     Q got (fs ⊙ t <| streams ::= <[f := Some (s <| s_pos ::= Nat.add (length got) |>)]> |>)) →
  wp (fread f n) Q fs.
Proof. intros Hs HQ. unfold wp, fread, with_stream. st_cbn. rewrite Hs. cbn. rewrite no_fault. apply HQ. Qed.

Lemma opendir_calm p Q fs :
  p ≠ [] → is_dir (resolve p) fs = true →
  (∀ t es, es ≡ₚ entries (resolve p) fs → Q (Some es) (fs ⊙ t)) → wp (opendir p) Q fs.
Proof.
  intros Hp Hd HQ. unfold wp, opendir. st_cbn. rewrite no_fault.
  rewrite (bool_decide_true (p ≠ [])) by done. change (is_dir ?q _) with (is_dir q fs). rewrite Hd. cbn.
  apply HQ, listing_perm.
Qed.

Lemma opendir_missing p Q fs :
  p = [] ∨ is_dir (resolve p) fs = false → (∀ t, Q None (fs ⊙ t)) → wp (opendir p) Q fs.
Proof.
  intros Hd HQ. unfold wp, opendir. st_cbn. rewrite no_fault. change (is_dir ?q _) with (is_dir q fs).
  destruct Hd as [->|Hd]; [apply HQ|]. rewrite Hd, andb_false_r. apply HQ.
Qed.

Lemma malloc_calm Q fs : (∀ t, Q true (fs ⊙ t)) → wp malloc Q fs.
Proof. intros HQ. unfold wp, malloc. st_cbn. rewrite no_fault. apply HQ. Qed.

(** ** [mkdirs] *)

Lemma components_nil_slash s t : components [] (s ++ slash :: t) = components [] s ++ components [] t.
Proof.
  assert (Hc : ∀ cur, components cur (s ++ slash :: t) = components cur s ++ components [] t).
  { induction s as [|c s IH]; intros cur; cbn [app components].
    - rewrite decide_True by done. by destruct cur.
    - case_decide; [destruct cur; cbn; by rewrite IH|apply IH]. }
  apply Hc.
Qed.

Lemma components_flat s : slash ∉ s → components [] s = match s with [] => [] | _ => [s] end.
Proof.
  intros Hs. assert (Hc : ∀ cur, components cur s = match cur ++ s with [] => [] | _ => [cur ++ s] end).
  { induction s as [|c s IH]; intros cur; cbn [components]; [rewrite app_nil_r; by destruct cur|].
    apply not_elem_of_cons in Hs as [Hc Hs]. rewrite decide_False, IH by done.
    rewrite <- app_assoc. by destruct cur. }
  apply Hc.
Qed.

Lemma resolve_slash s t :
  s ≠ [] → resolve (s ++ slash :: t) = ((resolve s).1, (resolve s).2 ++ components [] t).
Proof. intros Hs. unfold resolve. cbn. rewrite components_nil_slash. by destruct s. Qed.

(** A file [n] of the directory [d]. *)
Definition in_dir (d : path) (n : bytes) : path := (d.1, d.2 ++ [n]).

Lemma resolve_in_dir s n : s ≠ [] → n ≠ [] → slash ∉ n → resolve (s ++ [slash] ++ n) = in_dir (resolve s) n.
Proof. intros Hs Hn Hf. cbn [app]. rewrite resolve_slash, components_flat by done. by destruct n. Qed.

Lemma parent_in_dir d n : parent (in_dir d n) = d.
Proof. unfold parent, in_dir. cbn. rewrite removelast_last. by destruct d. Qed.

(** Every part of [s] before a slash is a directory. *)
Definition prepared (s : bytes) (fs : Fs) : Prop :=
  ∀ b c, s = b ++ slash :: c → b ≠ [] → is_dir (resolve b) fs = true.

Lemma is_dir_root b fs : is_dir (b, []) fs = true.
Proof. by apply bool_decide_true; left. Qed.

(** The last slash. *)
Lemma last_slash s : slash ∈ s → ∃ b c, s = b ++ slash :: c ∧ slash ∉ c.
Proof. intros (b & c & E & Hc)%list_elem_of_split_r. eauto. Qed.

Lemma prepared_parent s fs :
  prepared s fs → is_dir (resolve s) fs = true ∨ is_dir (parent (resolve s)) fs = true.
Proof.
  intros Hp. destruct (decide (slash ∈ s)) as [(b & c & -> & Hc)%last_slash|Hs].
  - destruct b as [|x b].
    + right. unfold resolve, parent. cbn [app].
      assert (components [] (slash :: c) = components [] c) as -> by done.
      rewrite components_flat by done. destruct c; apply is_dir_root.
    + specialize (Hp (x :: b) c eq_refl ltac:(done)). rewrite resolve_slash, components_flat by done.
      destruct c as [|y c]; cbn [snd]; [left; by rewrite app_nil_r; destruct (resolve (x :: b))|right].
      unfold parent. cbn [fst snd]. rewrite removelast_last. by destruct (resolve (x :: b)).
  - right. unfold resolve, parent. rewrite components_flat by done. destruct s; apply is_dir_root.
Qed.

(** Only the directories of [ok] were added; nothing else changed. *)
Record more_dirs (ok : path → Prop) (fs fs' : Fs) : Prop := {
  m_names : names fs' = names fs; m_data : data fs' = data fs; m_streams : streams fs' = streams fs;
  m_undefined : undefined fs' = undefined fs; m_dirs : dirs fs ⊆ dirs fs';
  m_new q : q ∈ dirs fs' → q ∈ dirs fs ∨ ok q }.
#[export] Instance more_dirs_preorder ok : PreOrder (more_dirs ok).
Proof.
  split; [intros fs; split; auto|]. intros x y z [] []. split; [congruence..|set_solver|].
  intros q [?|?]%m_new1; eauto.
Qed.

Lemma more_dirs_is_dir ok fs fs' q : more_dirs ok fs fs' → is_dir q fs = true → is_dir q fs' = true.
Proof.
  intros Hm Hd%bool_decide_eq_true. apply bool_decide_true. destruct Hd; [by left|right].
  by apply (m_dirs _ _ _ Hm).
Qed.

Lemma ensure_dir_calm p ok Q fs :
  p ≠ [] → prepared p fs → names fs !! resolve p = None → ok (resolve p) →
  (∀ fs', more_dirs ok fs fs' → is_dir (resolve p) fs' = true → Q true fs') → wp (ensure_dir p) Q fs.
Proof.
  intros Hp Hpre Hn Hok HQ. apply wp_bind, access_calm. intros t.
  assert (Ht : is_there p fs = is_dir (resolve p) fs).
  { unfold is_there. rewrite bool_decide_true, Hn by done. cbn. by rewrite orb_false_r. }
  rewrite Ht. destruct (is_dir (resolve p) fs) eqn:Hd; cbn [Z.eqb negb].
  - apply wp_ret, HQ; [|done]. split; cbn; auto.
  - apply wp_bind, mkdir_calm; [exact Ht|done| |].
    { destruct (prepared_parent p fs Hpre) as [E|E]; [congruence|done]. }
    intros t'. apply wp_ret, HQ.
    + split; cbn; [done..|set_solver|]. intros q. rewrite elem_of_union, elem_of_singleton. naive_solver.
    + apply bool_decide_true. right. cbn. set_solver.
Qed.

Lemma mkdirs_loop_calm ok d rest Q fs :
  prepared d fs →
  (∀ b c, d ++ rest = b ++ slash :: c → b ≠ [] → names fs !! resolve b = None ∧ ok (resolve b)) →
  (∀ fs', more_dirs ok fs fs' → prepared (d ++ rest) fs' → Q true fs') →
  wp (mkdirs_loop d rest) Q fs.
Proof.
  revert d fs. induction rest as [|c rest IH]; intros d fs Hp Hok HQ; cbn [mkdirs_loop].
  { apply wp_ret, HQ; [done|by rewrite app_nil_r]. }
  assert (Hnext : ∀ fs1, more_dirs ok fs fs1 → prepared (d ++ [c]) fs1 → wp (mkdirs_loop (d ++ [c]) rest) Q fs1).
  { intros fs1 Hm Hp1. apply IH; [done| |].
    - intros b k E. rewrite (m_names _ _ _ Hm). apply Hok with k. by rewrite <- E, <- app_assoc.
    - intros fs2 Hm2 Hp2. apply HQ; [by etrans|]. by rewrite <- app_assoc in Hp2. }
  assert (Hcons : ∀ fs1, more_dirs ok fs fs1 → (c = slash → d ≠ [] → is_dir (resolve d) fs1 = true) →
    prepared (d ++ [c]) fs1).
  { intros fs1 Hm Hd b k E Hb. destruct k as [|y k _] using rev_ind.
    - apply app_inj_tail in E as [-> ->]. by apply Hd.
    - assert (E' : d ++ [c] = (b ++ slash :: k) ++ [y]) by (by rewrite E, <- app_assoc).
      apply app_inj_tail in E' as [-> _]. eapply more_dirs_is_dir; [done|]. by eapply Hp. }
  case_match eqn:E.
  - apply andb_true_iff in E as [Ec%bool_decide_eq_true Hd%bool_decide_eq_true]. subst c.
    destruct (Hok d rest eq_refl Hd) as [Hn Hk].
    apply wp_bind, (ensure_dir_calm _ ok); [done..|]. intros fs1 Hm1 Hd1. apply Hnext; [done|].
    by apply Hcons.
  - apply Hnext; [done|]. apply Hcons; [done|]. intros -> Hd.
    apply andb_false_iff in E as [E%bool_decide_eq_false|E%bool_decide_eq_false]; done.
Qed.

Lemma mkdirs_calm p ok Q fs :
  p ≠ [] → cstr p = p → (length p < 1024)%nat →
  (∀ b c, p = b ++ c → b ≠ [] → names fs !! resolve b = None ∧ ok (resolve b)) →
  (∀ fs', more_dirs ok fs fs' → is_dir (resolve p) fs' = true → Q 0 fs') → wp (mkdirs p) Q fs.
Proof.
  intros Hp Hc Hl Hok HQ. unfold mkdirs. rewrite Hc, decide_False by lia.
  apply wp_bind, (mkdirs_loop_calm ok).
  - intros b c E. by destruct b.
  - intros b c E Hb. by eapply (Hok b (slash :: c)).
  - intros fs1 Hm Hpre. destruct p as [|x p]; [done|].
    destruct (Hok (x :: p) [] ltac:(by rewrite app_nil_r) ltac:(done)) as [Hn Hk].
    apply wp_bind, (ensure_dir_calm _ ok); [done|done|by rewrite (m_names _ _ _ Hm)|done|].
    intros fs2 Hm2 Hd. apply wp_ret, HQ; [by etrans|done].
Qed.
End calls.

End CalmFs.
