(* ===== verification/Journal.v ===== *)
(** * What the local writer keeps on disk

    Without failures a local writer and a reader implement a journal: the records
    written are the concatenation of the published files, in order, and the current
    file; a file holds at most [maxCount_] records; reading takes one published
    file. [represents] ties the writer and the file system to the journal. *)

From S2P Require Import Prelude CLib Incommon UniqueNum FileSys WriteFile ReadFile CalmFs.
Import UniqueNum(tm, Build_tm, tm_year, tm_mon, tm_mday, tm_hour, tm_min, tm_sec).
Import FileSys WriteFile CalmFs.

Module Journal.

(** ** File names *)

(** The part of [file_name] behind the directory. *)
Definition base_name (gateNo count : Z) (t : tm) (ms seq : Z) (ext : bytes) : bytes :=
  fmt_ld gateNo ++ lit "_" ++ fmt_ld count ++ lit "_" ++
  fmt_0d 2 (tm_mon t + 1) ++ fmt_0d 2 (tm_mday t) ++ fmt_0d 2 (tm_hour t) ++
  fmt_0d 2 (tm_min t) ++ fmt_0d 2 (tm_sec t) ++ fmt_0d 3 ms ++ fmt_0d 5 seq ++ ext.

Lemma fmt_u_length w z : 0 <= z < 10 ^ Z.of_nat w → (0 < w)%nat → (length (fmt_u z) <= w)%nat.
Proof.
  intros Hz Hw. unfold fmt_u. generalize (S (Z.to_nat (Z.log2 z))). intros n.
  assert (Hd : ∀ n z acc w, 0 <= z < 10 ^ Z.of_nat w → (0 < w)%nat →
    (length (dec_digits n z acc) <= w + length acc)%nat).
  { clear. induction n as [|n IH]; intros z acc w Hz Hw; cbn [dec_digits]; [lia|].
    case_match; cbn [length]; [lia|]. destruct w as [|[|w]]; [lia|cbn in Hz; lia|].
    etrans; [apply (IH _ _ (S w)); [|lia]|cbn [length]; lia].
    rewrite Nat2Z.inj_succ, Z.pow_succ_r in Hz by lia.
    split; [apply Z.div_pos; lia|apply Z.div_lt_upper_bound; lia]. }
  specialize (Hd n z [] w Hz Hw). cbn in Hd. lia.
Qed.

Lemma fmt_0d_length w z : 0 <= z < 10 ^ Z.of_nat w → (0 < w)%nat → length (fmt_0d w z) = w.
Proof.
  intros Hz Hw. unfold fmt_0d. destruct (Z.ltb_spec z 0); [lia|]. rewrite Z.abs_eq by lia.
  pose proof (fmt_u_length w z Hz Hw). rewrite !length_app, length_replicate. cbn [length]. lia.
Qed.

Lemma fmt_0d_val w z : 0 <= z → digits_val (fmt_0d w z) = z.
Proof.
  intros Hz. unfold fmt_0d. destruct (Z.ltb_spec z 0); [lia|]. rewrite Z.abs_eq by lia. cbn [app].
  generalize (w - length (@nil byte) - length (fmt_u z))%nat. intros n.
  rewrite <- (fmt_u_val z) at 2 by done. induction n as [|n IH]; [done|]. exact IH.
Qed.

Lemma fmt_ld_length z : in_s 32 z → (length (fmt_ld z) <= 11)%nat.
Proof.
  intros Hz. unfold in_s in Hz. cbn in Hz. unfold fmt_ld. case_match; cbn [length].
  - pose proof (fmt_u_length 10 (- z) ltac:(cbn; lia)). lia.
  - pose proof (fmt_u_length 10 z ltac:(cbn; lia)). lia.
Qed.

Definition name_char (b : byte) : bool := is_digit b || bool_decide (b ∈ lit "-_.tmpok").

Lemma fmt_chars z b : b ∈ fmt_ld z → name_char b = true.
Proof. intros [Hb| ->]%fmt_ld_chars; unfold name_char; [by rewrite Hb|done]. Qed.

Lemma fmt_0d_chars w z b : b ∈ fmt_0d w z → name_char b = true.
Proof.
  unfold fmt_0d. rewrite !elem_of_app. intros [Hb|[Hb|Hb]].
  - destruct (z <? 0); [|by apply elem_of_nil in Hb]. apply list_elem_of_singleton in Hb as ->. done.
  - apply elem_of_replicate in Hb as [-> _]. done.
  - pose proof (fmt_u_digits (Z.abs z) ltac:(lia)) as Hd. rewrite Forall_forall in Hd.
    unfold name_char. by rewrite (Hd b Hb).
Qed.

Section names.
Context (gateNo count : Z) (t : tm) (ms seq : Z) (ext : bytes) (Hext : ext ∈ [lit ".tmp"; lit ".ok"]).

Lemma base_chars b : b ∈ base_name gateNo count t ms seq ext → name_char b = true.
Proof.
  unfold base_name. rewrite !elem_of_app.
  assert (Hu : b ∈ lit "_" → name_char b = true) by (intros ->%list_elem_of_singleton; done).
  assert (He : b ∈ ext → name_char b = true).
  { intros Hb. rewrite !elem_of_cons, elem_of_nil in Hext. apply orb_true_iff. right. apply bool_decide_true.
    destruct Hext as [->|[->|[]]]; revert Hb; cbv [lit]; cbn; set_solver. }
  intros Hb. destruct_or! Hb; eauto using fmt_chars, fmt_0d_chars.
Qed.

Lemma base_free : slash ∉ base_name gateNo count t ms seq ext ∧ no_nul (base_name gateNo count t ms seq ext).
Proof. split; intros Hb%base_chars; by vm_compute in Hb. Qed.

Lemma base_ne : base_name gateNo count t ms seq ext ≠ [].
Proof. unfold base_name. intros [_ [=]]%app_eq_nil. Qed.

Lemma base_length :
  in_s 32 gateNo → in_s 32 count → UniqueNum.tm_ok t → 0 <= ms < 1000 → 0 <= seq <= 99999 →
  (length (base_name gateNo count t ms seq ext) <= 46)%nat.
Proof.
  intros Hg Hc (_ & T2 & T3 & T4 & T5 & T6) Hm Hs. unfold base_name.
  pose proof (fmt_ld_length _ Hg). pose proof (fmt_ld_length _ Hc).
  rewrite !length_app. rewrite !fmt_0d_length by (cbn; lia).
  rewrite !elem_of_cons, elem_of_nil in Hext. destruct Hext as [->|[->|[]]]; cbn [length lit String.list_byte_of_string String.list_ascii_of_string map]; lia.
Qed.
End names.

(** The number in a name, by its place before the extension. *)
Lemma base_seq_inj g c t ms k g' c' t' ms' k' ext :
  base_name g c t ms k ext = base_name g' c' t' ms' k' ext →
  0 <= k <= 99999 → 0 <= k' <= 99999 → k = k'.
Proof.
  unfold base_name. rewrite !app_assoc. intros E Hk Hk'.
  apply app_inj_2 in E as [E _]; [|done]. apply app_inj_2 in E as [_ E].
  - rewrite <- (fmt_0d_val 5 k), <- (fmt_0d_val 5 k') by lia. by rewrite E.
  - by rewrite !fmt_0d_length by (cbn; lia).
Qed.

Lemma ext_differ g c t ms k g' c' t' ms' k' :
  base_name g c t ms k (lit ".tmp") ≠ base_name g' c' t' ms' k' (lit ".ok").
Proof.
  unfold base_name. rewrite !app_assoc. intros E. apply (f_equal last) in E. by rewrite !last_app in E.
Qed.

Lemma in_dir_inj d n n' : in_dir d n = in_dir d n' → n = n'.
Proof. intros [= E]. by simplify_list_eq. Qed.

Lemma components_length cur s t : (length (components cur s) <= length (components cur (s ++ t)))%nat.
Proof.
  revert cur. induction s as [|c s IH]; intros cur; cbn [app components].
  - destruct cur as [|x cur]; cbn [length]; [lia|]. revert x cur.
    induction t as [|y t IHt]; intros x cur; cbn [components]; [done|]. case_decide; [cbn; lia|apply IHt].
  - case_decide; [|apply IH]. destruct cur; cbn [length]; [apply IH|]. specialize (IH []). lia.
Qed.

(** A part of a path is not a file inside it. *)
Lemma prefix_not_inside p b c n : p = b ++ c → resolve b ≠ in_dir (resolve p) n.
Proof.
  intros -> E. apply (f_equal (length ∘ snd)) in E. cbn in E. rewrite length_app in E. cbn in E.
  pose proof (components_length [] b c). unfold resolve in E. cbn in E. lia.
Qed.

(** ** The journal *)

Section journal.
Context {env : Env} `{!Calm env}.

Definition dir (self : WriteFile) : path := resolve (path_ self).
Definition tmp_base (self : WriteFile) : bytes :=
  base_name (gateNo_ self) 0 (localtime (s64 (creatSecond_ self))) (millSecond_ self) (seqId_ self) (lit ".tmp").
Definition ok_base (self : WriteFile) : bytes :=
  base_name (gateNo_ self) (curCount_ self) (localtime (s64 (creatSecond_ self))) (millSecond_ self)
    (seqId_ self) (lit ".ok").

(** A writer that is set up and has not been closed. *)
Record config_ok (self : WriteFile) : Prop := {
  c_exit : isExit_ self = 0;
  c_path : path_ self ≠ [];
  c_nul : no_nul (path_ self);
  c_length : (length (path_ self) <= 900)%nat;
  c_gate : in_s 32 (gateNo_ self);
  c_max : 1 <= maxCount_ self < 2 ^ 31;
  c_seq : 0 <= seqId_ self <= 99999 }.

(** A published name: the number is below [bound]. *)
Definition ok_name_below (gateNo bound : Z) (n : bytes) : Prop :=
  ∃ count t ms k, n = base_name gateNo count t ms k (lit ".ok") ∧ in_s 32 count ∧ UniqueNum.tm_ok t ∧
    0 <= ms < 1000 ∧ 1 <= k < bound.

(** The file of the current records. *)
Record current_ok (self : WriteFile) (c : list bytes) (fs : Fs) : Prop := {
  cu_count : curCount_ self = Z.of_nat (length c);
  cu_max : curCount_ self <= maxCount_ self;
  cu_seq : 1 <= seqId_ self;
  cu_time : (∃ n, creatSecond_ self = (clock n).1) ∧ 0 <= millSecond_ self < 1000;
  cu_file : ∃ f i, pFile_ self = Some f ∧ open_stream f {| s_ino := i; s_buf := []; s_pos := 0 |} fs ∧
    names fs !! in_dir (dir self) (tmp_base self) = Some i ∧ data fs !! i = Some (concat c) ∧
    ∀ q, names fs !! q = Some i → q = in_dir (dir self) (tmp_base self) }.

(** The writer and the file system hold the published files [pubs], each with its
    name, and the current file [cur]. *)
Record represents (self : WriteFile) (pubs : list (bytes * list bytes)) (cur : option (list bytes)) (fs : Fs) : Prop := {
  rp_config : config_ok self;
  rp_fs : fs_ok fs;
  rp_defined : undefined fs = false;
  rp_paths b c : path_ self = b ++ c → b ≠ [] → names fs !! resolve b = None;
  rp_dirs n : in_dir (dir self) n ∉ dirs fs;
  rp_there : pubs ≠ [] ∨ cur ≠ None → is_dir (dir self) fs = true;
  rp_pub n c : (n, c) ∈ pubs →
    (∃ i, names fs !! in_dir (dir self) n = Some i ∧ data fs !! i = Some (concat c)) ∧
    c ≠ [] ∧ Z.of_nat (length c) <= maxCount_ self ∧
    ok_name_below (gateNo_ self) (seqId_ self + match cur with None => 1 | Some _ => 0 end) n;
  rp_nodup : NoDup pubs.*1;
  rp_names n i : names fs !! in_dir (dir self) n = Some i →
    n ∈ pubs.*1 ∨ (cur ≠ None ∧ n = tmp_base self);
  rp_current : match cur with None => pFile_ self = None | Some c => current_ok self c fs end }.

Lemma cstr_path self : config_ok self → cstr (path_ self) = path_ self.
Proof. intros Hc. apply ReadFile.cstr_id, Hc. Qed.

(** The full name of a file of the writer, where [n] is one of its names. *)
Lemma full_name self n :
  config_ok self → n ≠ [] → slash ∉ n → no_nul n → (length n <= 46)%nat →
  let p := cstr (path_ self) ++ [slash] ++ n in
  snprintf p = p ∧ cstr p = p ∧ resolve p = in_dir (dir self) n ∧ (length p < 1024)%nat ∧ p ≠ [].
Proof.
  intros Hc Hn Hs Hnul Hl p. subst p. rewrite cstr_path by done.
  pose proof (c_length _ Hc). assert (Hlen : (length (path_ self ++ [slash] ++ n) < 1024)%nat).
  { rewrite !length_app. cbn. lia. }
  split_and!; [by apply ReadFile.snprintf_id| |apply resolve_in_dir; [apply Hc|done..]|done|].
  - apply ReadFile.cstr_id. rewrite !no_nul_app. split_and!; [apply Hc|decide_now|done].
  - pose proof (c_path _ Hc). by destruct (path_ self).
Qed.

(** The two names of the current file. *)
Lemma tmp_full self count :
  config_ok self → 0 <= millSecond_ self < 1000 → in_s 32 count → ∀ ext t, ext ∈ [lit ".tmp"; lit ".ok"] →
  UniqueNum.tm_ok t →
  let n := base_name (gateNo_ self) count t (millSecond_ self) (seqId_ self) ext in
  let p := cstr (path_ self) ++ [slash] ++ n in
  snprintf p = p ∧ cstr p = p ∧ resolve p = in_dir (dir self) n ∧ (length p < 1024)%nat ∧ p ≠ [].
Proof.
  intros Hc Hm Hco ext t He Ht n. apply full_name; [done|apply base_ne|..]; try by apply base_free.
  apply base_length; [done|apply Hc|done..|]. apply (c_seq _ Hc).
Qed.

Lemma in_dir_not_dir self pubs cur fs n : represents self pubs cur fs → is_dir (in_dir (dir self) n) fs = false.
Proof.
  intros Hr. apply bool_decide_false. intros [E|E]; [|by eapply rp_dirs].
  unfold in_dir in E. cbn in E. by apply app_nil in E as [_ [=]].
Qed.

Lemma fflush_empty f s Q fs :
  open_stream f s fs → s_buf s = [] → (∀ t, Q 0 (fs <| tick := t |>)) → wp (fflush f) Q fs.
Proof.
  intros Hs Hb HQ. apply (fflush_calm f s); [done|]. intros t. specialize (HQ t). revert HQ.
  unfold open_stream in Hs. destruct s as [i b p]. cbn in Hb. subst b. unfold set_with. cbn.
  rewrite list_alter_id by (intros; apply app_nil_r). by rewrite list_insert_id.
Qed.

(** The names of the current file are not published names. *)
Lemma current_names_new self pubs c fs :
  represents self pubs (Some c) fs → ok_base self ∉ pubs.*1 ∧ tmp_base self ∉ pubs.*1.
Proof.
  intros Hr. pose proof (rp_current _ _ _ _ Hr) as Hcu. cbn in Hcu.
  pose proof (cu_seq _ _ _ Hcu). pose proof (c_seq _ (rp_config _ _ _ _ Hr)).
  split; intros ([n c'] & E & Hin)%list_elem_of_fmap; cbn in E; subst n;
    destruct (rp_pub _ _ _ _ Hr _ _ Hin) as (_ & _ & _ & (c0 & t0 & m0 & k & E & _ & _ & _ & Hk)).
  - apply base_seq_inj in E; lia.
  - by apply ext_differ in E.
Qed.

Lemma published_step self pubs c fs f i fs' :
  represents self pubs (Some c) fs → c ≠ [] → current_ok self c fs →
  names fs !! in_dir (dir self) (tmp_base self) = Some i → data fs !! i = Some (concat c) →
  names fs' = <[in_dir (dir self) (ok_base self) := i]> (delete (in_dir (dir self) (tmp_base self)) (names fs)) →
  data fs' = data fs → dirs fs' = dirs fs → undefined fs' = undefined fs →
  streams fs' = <[f := None]> (streams fs) →
  represents (closed (self <| pFile_ := None |>)) (pubs ++ [(ok_base self, c)]) None fs'.
Proof.
  intros Hr Hc Hcu Hn Hd En Ed Edir Eu Est. destruct (current_names_new _ _ _ _ Hr) as [Hok Htmp].
  pose proof (rp_config _ _ _ _ Hr) as Hcfg. pose proof (rp_fs _ _ _ _ Hr) as [O1 O2].
  pose proof (c_max _ Hcfg). pose proof (cu_max _ _ _ Hcu). pose proof (cu_count _ _ _ Hcu).
  split; try change (dir (closed _)) with (dir self).
  - destruct Hcfg. by split.
  - split; rewrite Ed.
    + intros q i'. rewrite En. intros [[_ <-]|[_ [_ Hq]%lookup_delete_Some]]%lookup_insert_Some; eauto.
    + intros f' s. rewrite Est. intros [(_ & [=] & _)|[_ Hf]]%list_lookup_insert_Some. by eapply O2.
  - by rewrite Eu, (rp_defined _ _ _ _ Hr).
  - intros b k E Hb. change (path_ self = b ++ k) in E. rewrite En.
    pose proof (prefix_not_inside _ b k (ok_base self) E).
    rewrite lookup_insert_ne by done. apply lookup_delete_None. right. by eapply rp_paths.
  - intros n. rewrite Edir. apply (rp_dirs _ _ _ _ Hr).
  - intros _. unfold is_dir. rewrite Edir. apply (rp_there _ _ _ _ Hr). by right.
  - intros n c' [Hin|Hin%list_elem_of_singleton]%elem_of_app.
    + destruct (rp_pub _ _ _ _ Hr _ _ Hin) as ((i' & Hi & Hdi) & H2 & H3 & (c0 & t0 & m0 & k & E & H4 & H5 & H6 & H7)).
      split_and!; [|done..|exists c0, t0, m0, k; split_and!; try done; cbn; lia].
      exists i'. rewrite Ed, En. split; [|done].
      assert (n ∈ pubs.*1) by (by apply list_elem_of_fmap; exists (n, c')).
      rewrite lookup_insert_ne, lookup_delete_ne; [done| |]; intros Hq%in_dir_inj; congruence.
    + injection Hin as -> ->. split_and!; [|done|cbn; lia|].
      * exists i. by rewrite Ed, En, lookup_insert_eq.
      * exists (curCount_ self), (localtime (s64 (creatSecond_ self))), (millSecond_ self), (seqId_ self).
        split_and!; [done|unfold in_s; lia|apply localtime_ok|..];
          pose proof (cu_time _ _ _ Hcu); pose proof (cu_seq _ _ _ Hcu); cbn; lia.
  - rewrite fmap_app. apply NoDup_app. split; [apply (rp_nodup _ _ _ _ Hr)|]. cbn.
    split; [|apply NoDup_singleton]. intros n Hn' ->%list_elem_of_singleton. done.
  - intros n i'. rewrite En, fmap_app, elem_of_app. cbn. intros [[Hq _]|[_ [Hne Hq]%lookup_delete_Some]]%lookup_insert_Some.
    + apply in_dir_inj in Hq as ->. left. right. set_solver.
    + destruct (rp_names _ _ _ _ Hr _ _ Hq) as [|[_ ->]]; [by left; left|done].
  - done.
Qed.

(** Closing publishes the current file. *)
Lemma close_represents self pubs c Q fs :
  represents self pubs (Some c) fs → c ≠ [] →
  (∀ self' fs', represents self' (pubs ++ [(ok_base self, c)]) None fs' → seqId_ self' = seqId_ self →
     path_ self' = path_ self → maxCount_ self' = maxCount_ self → outSecond_ self' = outSecond_ self → Q (0, self') fs') →
  wp (local_CloseCurFile self) Q fs.
Proof.
  intros Hr Hc HQ. pose proof (rp_config _ _ _ _ Hr) as Hcfg. pose proof (rp_current _ _ _ _ Hr) as Hcu.
  cbn in Hcu. destruct (cu_file _ _ _ Hcu) as (f & i & Hf & Hs & Hn & Hd & Hi).
  destruct (cu_time _ _ _ Hcu) as [Ht Hms]. pose proof (c_max _ Hcfg). pose proof (cu_max _ _ _ Hcu).
  pose proof (cu_count _ _ _ Hcu) as Hco. pose proof (cu_seq _ _ _ Hcu) as Hsq. pose proof (c_seq _ Hcfg).
  assert (Hcnt : in_s 32 (curCount_ self)) by (unfold in_s; lia).
  assert (Htm : UniqueNum.tm_ok (localtime (s64 (creatSecond_ self)))) by apply localtime_ok.
  destruct (tmp_full self 0 Hcfg Hms ltac:(decide_now) (lit ".tmp") _ ltac:(set_solver) Htm) as (T1 & T2 & T3 & _).
  destruct (tmp_full self _ Hcfg Hms Hcnt (lit ".ok") _ ltac:(set_solver) Htm) as (O1 & O2 & O3 & _).
  unfold local_CloseCurFile. rewrite Hf. unfold tmp_name, ok_name, file_name.
  fold (tmp_base self) in T1, T2, T3. fold (ok_base self) in O1, O2, O3.
  change (fmt_ld (gateNo_ self) ++ lit "_" ++ fmt_ld 0 ++ _) with (tmp_base self).
  change (fmt_ld (gateNo_ self) ++ _) with (ok_base self).
  rewrite T1, O1.
  apply wp_bind, (fflush_empty _ _ _ _ Hs); [done|]. intros t1.
  apply wp_bind, (fclose_calm _ {| s_ino := i; s_buf := []; s_pos := 0 |}); [done..|]. intros t2.
  apply wp_bind. apply (rename_calm _ _ i).
  { by rewrite T2, T3. }
  { rewrite O2, O3, parent_in_dir. exact (rp_there _ _ _ _ Hr ltac:(by right)). }
  { rewrite O2, O3. exact (in_dir_not_dir _ _ _ _ _ Hr). }
  intros t3. rewrite T2, T3, O2, O3. apply wp_ret, HQ; [|done..].
  by eapply published_step.
Qed.

(** Directories that [mkdirs] may add. *)
Definition part_of (self : WriteFile) (q : path) : Prop := ∃ b c, path_ self = b ++ c ∧ b ≠ [] ∧ q = resolve b.

Lemma represents_dirs self pubs cur fs fs' :
  represents self pubs cur fs → more_dirs (part_of self) fs fs' → represents self pubs cur fs'.
Proof.
  intros [R1 R2 R3 R4 R5 R6 R7 R8 R9 R10] Hm. pose proof Hm as [M1 M2 M3 M4 M5 M6]. split.
  - done.
  - destruct R2 as [O1 O2]. split; rewrite M2; [by rewrite M1|by rewrite M3].
  - by rewrite M4.
  - by rewrite M1.
  - intros n [Hq|(b & c & E & Hb & Hq)]%M6; [by eapply R5|].
    symmetry in Hq. revert Hq. by eapply prefix_not_inside.
  - intros H. eapply more_dirs_is_dir; eauto.
  - rewrite M1, M2. done.
  - done.
  - by rewrite M1.
  - destruct cur as [c|]; [|done]. destruct R10 as [U1 U2 U3 U4 (f & i & U5)]. split; try done.
    exists f, i. unfold open_stream in *. by rewrite M1, M2, M3.
Qed.

Lemma opened_step self pubs fs s' fs' :
  represents self pubs None fs → is_dir (dir self) fs = true → seqId_ self < 99999 →
  names fs !! in_dir (dir self) (tmp_base s') = None →
  config_ok s' → path_ s' = path_ self → gateNo_ s' = gateNo_ self → maxCount_ s' = maxCount_ self →
  seqId_ s' = seqId_ self + 1 → curCount_ s' = 0 → pFile_ s' = Some (length (streams fs)) →
  (∃ n, creatSecond_ s' = (clock n).1) ∧ 0 <= millSecond_ s' < 1000 →
  names fs' = <[in_dir (dir self) (tmp_base s') := length (data fs)]> (names fs) →
  data fs' = data fs ++ [[]] → dirs fs' = dirs fs → undefined fs' = undefined fs →
  streams fs' = streams fs ++ [Some {| s_ino := length (data fs); s_buf := []; s_pos := 0 |}] →
  represents s' pubs (Some []) fs'.
Proof.
  intros Hr Hdir Hseq Hfree Hcfg Ep Eg Em Es Ec Ef Et En Ed Edir Eu Est.
  pose proof (rp_fs _ _ _ _ Hr) as [O1 O2]. pose proof (c_seq _ (rp_config _ _ _ _ Hr)).
  assert (ED : dir s' = dir self) by (unfold dir; by rewrite Ep).
  split; rewrite ?ED; try done.
  - split; rewrite Ed, length_app; cbn.
    + intros q i. rewrite En. intros [[_ <-]|[_ Hq]]%lookup_insert_Some; [lia|]. specialize (O1 _ _ Hq). lia.
    + intros f s. rewrite Est. intros [Hs|[_ Hs]]%lookup_app_Some; [specialize (O2 _ _ Hs); lia|].
      apply list_lookup_singleton_Some in Hs as [_ [= <-]]. cbn. lia.
  - by rewrite Eu, (rp_defined _ _ _ _ Hr).
  - intros b k E Hb. rewrite Ep in E. rewrite En.
    pose proof (prefix_not_inside _ b k (tmp_base s') E). rewrite lookup_insert_ne by done. by eapply rp_paths.
  - intros n. rewrite Edir. apply (rp_dirs _ _ _ _ Hr).
  - intros _. unfold is_dir. by rewrite Edir.
  - intros n c Hin. destruct (rp_pub _ _ _ _ Hr _ _ Hin) as ((i & Hi & Hdi) & H2 & H3 & (c0 & t0 & m0 & k & E & H4 & H5 & H6 & H7)).
    split_and!; [|done|by rewrite Em|exists c0, t0, m0, k; split_and!; try done; [by rewrite Eg|lia..]].
    exists i. rewrite En, Ed. split; [|by apply lookup_app_l_Some]. rewrite lookup_insert_ne; [done|].
    intros <-%in_dir_inj. congruence.
  - apply (rp_nodup _ _ _ _ Hr).
  - intros n i. rewrite En. intros [[<-%in_dir_inj _]|[_ Hq]]%lookup_insert_Some; [by right|left].
    by destruct (rp_names _ _ _ _ Hr _ _ Hq) as [|[? _]].
  - split; [by rewrite Ec|rewrite Ec; pose proof (c_max _ Hcfg); lia|lia|done|].
    exists (length (streams fs)), (length (data fs)). rewrite ED. split_and!; [done|..].
    + unfold open_stream. rewrite Est. by apply list_lookup_middle.
    + by rewrite En, lookup_insert_eq.
    + rewrite Ed. by apply list_lookup_middle.
    + intros q. rewrite En. intros [[<- _]|[_ Hq]]%lookup_insert_Some; [done|]. specialize (O1 _ _ Hq). lia.
Qed.

(** A new file is opened when there is none. *)
Lemma open_represents e1 e2 e3 e4 self pubs Q fs :
  represents self pubs None fs → seqId_ self < 99999 →
  (∀ self' fs', represents self' pubs (Some []) fs' → seqId_ self' = seqId_ self + 1 →
     path_ self' = path_ self → maxCount_ self' = maxCount_ self → outSecond_ self' = outSecond_ self → Q (0, self') fs') →
  wp (open_next e1 e2 e3 e4 self) Q fs.
Proof.
  intros Hr Hseq HQ. pose proof (rp_config _ _ _ _ Hr) as Hcfg. pose proof (c_length _ Hcfg).
  pose proof (c_seq _ Hcfg) as Hsq. pose proof (c_max _ Hcfg).
  unfold open_next. rewrite decide_False by (rewrite cstr_path by done; lia).
  apply wp_bind, (mkdirs_calm _ (part_of self)); [apply Hcfg|by apply cstr_path|lia| |].
  { intros b c E Hb. split; [by eapply rp_paths|by exists b, c]. }
  intros fs1 Hm Hd. apply (represents_dirs _ _ _ _ _ Hr) in Hm as Hr1. clear Hr Hm fs. cbn [Z.eqb].
  apply wp_bind. apply wp_gets. destruct (clock (tick fs1)) as [sec usec] eqn:Eclk.
  pose proof (clock_ok (tick fs1)) as [Hsec Husec]. rewrite Eclk in Hsec, Husec. cbn in Hsec, Husec.
  rewrite (wrap_s_id 32 (seqId_ self + 1)) by (unfold in_s; lia).
  destruct (Z.ltb_spec (seqId_ self + 1) 1); [lia|]. destruct (Z.ltb_spec 99999 (seqId_ self + 1)); [lia|].
  cbn [orb].
  set (ms := s32 (usec ÷ 1000)).
  assert (Hms : 0 <= ms < 1000).
  { unfold ms. rewrite wrap_s_id; [|lia|]; unfold in_s; rewrite Z.quot_div_nonneg by lia; dlia. }
  set (s1 := self <| seqId_ := seqId_ self + 1 |>).
  set (s2 := s1 <| creatSecond_ := u64 sec |> <| millSecond_ := ms |>).
  assert (Hcfg2 : config_ok s2).
  { destruct Hcfg as [C1 C2 C3 C4 C5 C6 C7]. split; cbn; try done. lia. }
  assert (Esec : s64 (creatSecond_ s2) = sec).
  { cbn. rewrite wrap_s_u, wrap_s_id by (unfold in_s; lia). done. }
  destruct (tmp_full s2 0 Hcfg2 Hms ltac:(decide_now) (lit ".tmp") (localtime sec) ltac:(set_solver)
              (localtime_ok sec)) as (_ & _ & T3 & T4 & T5).
  assert (Htmp : base_name (gateNo_ s2) 0 (localtime sec) (millSecond_ s2) (seqId_ s2) (lit ".tmp") = tmp_base s2).
  { unfold tmp_base. by rewrite Esec. }
  rewrite Htmp in T3, T4, T5.
  change (file_name (path_ s2) (gateNo_ s2) 0 (localtime sec) (millSecond_ s2) (seqId_ s2) (lit ".tmp"))
    with (cstr (path_ s2) ++ [slash] ++
      base_name (gateNo_ s2) 0 (localtime sec) (millSecond_ s2) (seqId_ s2) (lit ".tmp")).
  rewrite Htmp, decide_False by lia. change (dir s2) with (dir self) in T3.
  assert (Hfree : names fs1 !! in_dir (dir self) (tmp_base s2) = None).
  { apply eq_None_not_Some. intros [i Hi]. destruct (rp_names _ _ _ _ Hr1 _ _ Hi) as [Hin|[? _]]; [|done].
    apply list_elem_of_fmap in Hin as ([n c] & E & Hin). cbn in E. subst n.
    destruct (rp_pub _ _ _ _ Hr1 _ _ Hin) as (_ & _ & _ & (c0 & t0 & m0 & k & E & _)).
    by apply ext_differ in E. }
  apply wp_bind, fopen_append_calm; [done|rewrite T3; by eapply in_dir_not_dir| | |].
  { rewrite T3, parent_in_dir. done. }
  { by rewrite T3. }
  intros t. rewrite T3. apply wp_ret, HQ; [|done..].
  eapply (opened_step self pubs fs1); try done; [by destruct Hcfg2|].
  split; [|done]. exists (tick fs1). rewrite Eclk. cbn. apply wrap_u_id. unfold in_u. lia.
Qed.

(** A record is appended to the current file. *)
Lemma put_represents e switch self pubs c content f Q fs :
  represents self pubs (Some c) fs → Z.of_nat (length c) < maxCount_ self → pFile_ self = Some f →
  (∀ fs', let self' := self <| curCount_ ::= λ n, s32 (n + 1) |> in
     represents self' pubs (Some (c ++ [content])) fs' → Q (0, self') fs') →
  wp (put_record e switch self f content) Q fs.
Proof.
  intros Hr Hlen Hf HQ. pose proof (rp_current _ _ _ _ Hr) as Hcu. cbn in Hcu.
  destruct (cu_file _ _ _ Hcu) as (f' & i & Hf' & Hs & Hn & Hd & Hi). rewrite Hf in Hf'. injection Hf' as <-.
  apply wp_bind. change 3%nat with (S 2). cbn [write_loop]. apply wp_bind, (fwrite_calm _ _ _ _ _ Hs). intros t1.
  rewrite drop_all. apply wp_ret. apply wp_bind.
  set (s1 := {| s_ino := i; s_buf := []; s_pos := 0 |} <| s_buf ::= (.++ content) |>).
  apply (fflush_calm _ s1).
  { unfold open_stream. cbn. apply list_lookup_insert_eq. by eapply lookup_lt_Some. }
  intros t2. cbn [Z.eqb]. apply wp_ret, HQ.
  destruct Hr as [R1 R2 R3 R4 R5 R6 R7 R8 R9 _]. destruct Hcu as [U1 U2 U3 U4 _].
  pose proof (c_max _ R1).
  assert (Ec : s32 (curCount_ self + 1) = Z.of_nat (length (c ++ [content]))).
  { rewrite wrap_s_id by (unfold in_s; lia). rewrite length_app. cbn. lia. }
  split; try done.
  - by destruct R1.
  - destruct R2 as [O1 O2]. split; cbn; rewrite length_alter; [done|]. intros g s.
    rewrite list_insert_insert_eq. intros [(_ & [= <-] & _)|[_ Hg]]%list_lookup_insert_Some; [|by eapply O2].
    cbn. by eapply (O1 (in_dir (dir self) (tmp_base self))).
  - intros _. apply R6. by right.
  - intros n c' Hin. destruct (R7 _ _ Hin) as ((i' & Hi' & Hdi) & Hrest). split; [|done].
    exists i'. split; [done|]. cbn. rewrite list_lookup_alter_ne; [done|]. intros <-.
    specialize (Hi _ Hi'). apply in_dir_inj in Hi as ->.
    destruct Hrest as (_ & _ & (c0 & t0 & m0 & k & E & _)). by apply ext_differ in E.
  - intros n i' Hq. destruct (R9 n i' Hq) as [|[_ ->]]; [by left|by right].
  - split; try done; [cbn; rewrite Ec, length_app; cbn; lia|].
    exists f, i. split_and!; [done| | |..|done].
    + unfold open_stream. cbn. rewrite list_insert_insert_eq. apply list_lookup_insert_eq. by eapply lookup_lt_Some.
    + done.
    + cbn. rewrite list_lookup_alter_eq, Hd. rewrite concat_app. cbn. by rewrite app_nil_r.
Qed.

(** What the journal holds, in the order of writing. *)
Definition records (pubs : list (bytes * list bytes)) (cur : option (list bytes)) : list bytes :=
  concat pubs.*2 ++ default [] cur.

Lemma write_represents self pubs cur content Q fs :
  represents self pubs cur fs → cur ≠ Some [] → seqId_ self < 99999 →
  (∀ self' fs' pubs' c, represents self' pubs' (Some c) fs' → c ≠ [] →
     records pubs' (Some c) = records pubs cur ++ [content] → seqId_ self' <= seqId_ self + 1 →
     path_ self' = path_ self → maxCount_ self' = maxCount_ self → outSecond_ self' = outSecond_ self → Q (0, self') fs') →
  wp (local_writeToFile content self) Q fs.
Proof.
  intros Hr Hne Hseq HQ. unfold local_writeToFile. pose proof (rp_config _ _ _ _ Hr) as Hcfg.
  pose proof (c_max _ Hcfg) as Hmax.
  rewrite (c_exit _ Hcfg). cbn [Z.eqb negb]. apply wp_bind.
  (* with an open file that has room *)
  assert (Hput : ∀ self1 fs1 pubs1 c1, represents self1 pubs1 (Some c1) fs1 → Z.of_nat (length c1) < maxCount_ self1 →
    records pubs1 (Some c1) = records pubs cur → seqId_ self1 <= seqId_ self + 1 →
    path_ self1 = path_ self → maxCount_ self1 = maxCount_ self → outSecond_ self1 = outSecond_ self →
    wp (if 0 <? 0 then mret (0, self1) else match pFile_ self1 with
        | None => mret (-1014, self1)
        | Some f => put_record (-1015) local_switchToNewFile self1 f content end) Q fs1).
  { intros self1 fs1 pubs1 c1 Hr1 Hl1 Hrec Hs1 Hp1 Hm1 Ho1. cbn [Z.ltb Z.compare].
    pose proof (rp_current _ _ _ _ Hr1) as Hcu. cbn in Hcu. destruct (cu_file _ _ _ Hcu) as (f & i & Hf & _).
    rewrite Hf. eapply put_represents; [done..|]. intros fs' self' Hr'.
    eapply HQ; [done|by destruct c1| |done..]. rewrite <- Hrec. unfold records. cbn. by rewrite app_assoc. }
  (* opening a new file *)
  assert (Hopen : ∀ self1 fs1 pubs1, represents self1 pubs1 None fs1 → seqId_ self1 = seqId_ self →
    records pubs1 None = records pubs cur → path_ self1 = path_ self → maxCount_ self1 = maxCount_ self → outSecond_ self1 = outSecond_ self →
    wp (open_next (-1016) (-1017) (-1018) (-1019) self1) (λ a, wp (let '(ret, self) := a in
      if ret <? 0 then mret (ret, self) else match pFile_ self with
        | None => mret (-1014, self)
        | Some f => put_record (-1015) local_switchToNewFile self f content end) Q) fs1).
  { intros self1 fs1 pubs1 Hr1 Hs1 Hrec Hp1 Hm1 Ho1. apply (open_represents _ _ _ _ _ pubs1); [done|lia|].
    intros self2 fs2 Hr2 Hs2 Hp2 Hm2 Ho2. apply (Hput _ _ pubs1 []); [done|cbn; lia|done|lia|congruence..]. }
  pose proof (rp_current _ _ _ _ Hr) as Hcu. destruct cur as [c|].
  - destruct (cu_file _ _ _ Hcu) as (f & i & Hf & _). unfold full. rewrite Hf. rewrite bool_decide_false by done. cbn [orb].
    pose proof (cu_count _ _ _ Hcu). destruct (Z.leb_spec (maxCount_ self) (curCount_ self)).
    + apply wp_bind, (close_represents _ pubs c); [done|congruence|]. intros self1 fs1 Hr1 Hs1 Hp1 Hm1 Ho1.
      cbn [Z.ltb Z.compare]. eapply Hopen; [done..| |done|done|done].
      unfold records. cbn. rewrite fmap_app, concat_app. cbn. by rewrite !app_nil_r.
    + apply wp_ret. eapply Hput; [done|lia|done|lia|done..].
  - unfold full. rewrite Hcu. cbn [bool_decide orb].
    rewrite bool_decide_true by done. cbn [orb]. apply wp_bind. unfold local_CloseCurFile. rewrite Hcu.
    apply wp_ret. cbn [Z.ltb Z.compare]. by eapply Hopen.
Qed.

(** ** Checking and reading *)

Lemma check_represents second self pubs cur Q fs :
  represents self pubs cur fs → cur ≠ Some [] →
  (∀ n, outSecond_ self < second - (clock n).1 ∧ 0 <= second - (clock n).1 < 2 ^ 31) →
  (∀ self' fs' pubs', represents self' pubs' None fs' → records pubs' None = records pubs cur →
     seqId_ self' = seqId_ self → path_ self' = path_ self → maxCount_ self' = maxCount_ self → outSecond_ self' = outSecond_ self → Q self' fs') →
  wp (local_everySecondCheck second self) Q fs.
Proof.
  intros Hr Hne Hout HQ. unfold local_everySecondCheck. pose proof (rp_config _ _ _ _ Hr) as Hcfg.
  rewrite (c_exit _ Hcfg). cbn [Z.eqb negb]. pose proof (rp_current _ _ _ _ Hr) as Hcu. unfold expired.
  destruct cur as [c|].
  - destruct (cu_file _ _ _ Hcu) as (f & i & Hf & _). destruct (cu_time _ _ _ Hcu) as [[n Hn] _].
    pose proof (clock_ok n) as [Hclk _]. specialize (Hout n) as Ho. rewrite Hf, Hn. rewrite bool_decide_true by done.
    rewrite wrap_s_u_small by lia. destruct (Z.ltb_spec 0 (clock n).1); [|lia].
    destruct (Z.ltb_spec (outSecond_ self) (second - (clock n).1)); [|lia]. cbn [andb].
    apply wp_bind, (close_represents _ pubs c); [done|congruence|]. intros self1 fs1 Hr1 Hs1 Hp1 Hm1 Ho1.
    apply wp_ret. eapply HQ; [done| |done..]. unfold records. cbn.
    rewrite fmap_app, concat_app. cbn. by rewrite !app_nil_r.
  - rewrite Hcu, bool_decide_false by (by intros [? ?]). cbn [andb]. apply wp_ret. by eapply HQ.
Qed.

(** The stem of a published file. *)
Definition stem_of (self : WriteFile) (n : bytes) : bytes := path_ self ++ [slash] ++ take (length n - 3) n.

Lemma removed_step self pubs1 n c pubs2 cur fs fs' :
  represents self (pubs1 ++ (n, c) :: pubs2) cur fs →
  names fs' = delete (in_dir (dir self) n) (names fs) → data fs' = data fs → dirs fs' = dirs fs →
  undefined fs' = undefined fs → (∀ f s, open_stream f s fs' ↔ open_stream f s fs) →
  represents self (pubs1 ++ pubs2) cur fs'.
Proof.
  intros Hr En Ed Edir Eu Est. pose proof (rp_nodup _ _ _ _ Hr) as Hnd.
  assert (Hin : (n, c) ∈ pubs1 ++ (n, c) :: pubs2) by set_solver.
  assert (Hsub : ∀ x, x ∈ pubs1 ++ pubs2 → x ∈ pubs1 ++ (n, c) :: pubs2).
  { intros x. rewrite !elem_of_app, elem_of_cons. tauto. }
  assert (Hnd' : n ∉ (pubs1 ++ pubs2).*1 ∧ NoDup (pubs1 ++ pubs2).*1).
  { rewrite fmap_app in Hnd |- *. cbn in Hnd. apply NoDup_app in Hnd as (N1 & N2 & [N3 N4]%NoDup_cons).
    split; [|apply NoDup_app; set_solver]. rewrite elem_of_app. intros [H|H]; [|done].
    apply (N2 _ H). by left. }
  destruct Hnd' as [Hn' Hnd']. destruct (rp_pub _ _ _ _ Hr _ _ Hin) as (_ & _ & _ & (c0 & t0 & m0 & k0 & E0 & _)).
  split; try apply Hr; try done.
  - destruct (rp_fs _ _ _ _ Hr) as [O1 O2]. split; rewrite Ed.
    + intros q i. rewrite En. intros [_ Hq]%lookup_delete_Some. eauto.
    + intros f s Hs%Est. eauto.
  - by rewrite Eu, (rp_defined _ _ _ _ Hr).
  - intros b k E Hb. rewrite En. apply lookup_delete_None. right. by eapply rp_paths.
  - rewrite Edir. apply Hr.
  - unfold is_dir. rewrite Edir. intros H. apply (rp_there _ _ _ _ Hr).
    destruct H; [left; by destruct pubs1|by right].
  - intros m d Hm. destruct (rp_pub _ _ _ _ Hr _ _ (Hsub _ Hm)) as ((i & Hi & Hdi) & Hrest). split; [|done].
    exists i. rewrite Ed, En. split; [|done]. rewrite lookup_delete_ne; [done|].
    intros <-%in_dir_inj. apply Hn', list_elem_of_fmap. by exists (n, d).
  - intros m i. rewrite En. intros [Hne Hq]%lookup_delete_Some.
    destruct (rp_names _ _ _ _ Hr _ _ Hq) as [Hm|Hm]; [left|by right].
    rewrite fmap_app in Hm |- *. cbn in Hm. set_solver.
  - pose proof (rp_current _ _ _ _ Hr) as Hcu. destruct cur as [c'|]; [|done].
    destruct Hcu as [U1 U2 U3 U4 (f & i & F1 & F2 & F3 & F4 & F5)]. split; try done.
    exists f, i. rewrite Ed, En. split_and!; [done|by apply Est| |done|].
    + rewrite lookup_delete_ne; [done|]. intros Eq%in_dir_inj. rewrite E0 in Eq. symmetry in Eq. by apply ext_differ in Eq.
    + intros q [_ Hq]%lookup_delete_Some. by apply F5.
Qed.

(** A published name and the names the reader derives from it. *)
Lemma published_names self gateNo bound n :
  config_ok self → in_s 32 gateNo → ok_name_below (gateNo_ self) bound n → bound <= 100000 →
  let stem := stem_of self n in
  no_nul stem ∧ (length stem + length (fmt_ld gateNo) + 5 < 1024)%nat ∧
  ReadFile.ok_file stem = path_ self ++ [slash] ++ n ∧
  resolve (ReadFile.ok_file stem) = in_dir (dir self) n ∧
  ∃ bak, resolve (ReadFile.bak_file gateNo stem) = in_dir (dir self) bak ∧ "b"%byte ∈ bak.
Proof.
  intros Hc Hg (count & t & ms & k & -> & Hco & Ht & Hms & Hk) Hb stem.
  set (n := base_name (gateNo_ self) count t ms k (lit ".ok")) in *.
  assert (Hlen : (length n <= 46)%nat).
  { apply base_length; [set_solver|apply Hc|done..|lia]. }
  destruct (base_free (gateNo_ self) count t ms k (lit ".ok") ltac:(set_solver)) as [Hs Hn]. fold n in Hs, Hn.
  assert (E : ∃ pre, n = pre ++ lit ".ok").
  { unfold n, base_name. rewrite !app_assoc. eauto. }
  destruct E as [pre E].
  assert (Epre : take (length n - 3) n = pre).
  { rewrite E. apply take_app_length'. rewrite length_app. change (length (lit ".ok")) with 3%nat. lia. }
  unfold stem, stem_of. rewrite Epre. rewrite E in Hs, Hn, Hlen.
  rewrite not_elem_of_app in Hs. apply no_nul_app in Hn as [Hn _]. rewrite length_app in Hlen.
  pose proof (c_length _ Hc). pose proof (fmt_ld_length _ Hg).
  split_and!.
  - rewrite !no_nul_app. split_and!; [apply Hc|decide_now|done].
  - rewrite !length_app. cbn [length]. lia.
  - unfold ReadFile.ok_file. by rewrite E, <- !app_assoc.
  - unfold ReadFile.ok_file. rewrite <- !app_assoc. rewrite <- E. apply resolve_in_dir; [apply Hc|apply base_ne|].
    apply base_free. set_solver.
  - exists (pre ++ lit "_" ++ fmt_ld gateNo ++ lit ".bak"). split; [|rewrite !elem_of_app; right; right; right; decide_now].
    unfold ReadFile.bak_file. rewrite <- !app_assoc. apply resolve_in_dir; [apply Hc|by destruct pre|].
    rewrite !not_elem_of_app. split_and!; [apply Hs|decide_now| |decide_now].
    intros Hf%fmt_chars. by vm_compute in Hf.
Qed.

Lemma no_b_in_names self pubs cur fs bak :
  represents self pubs cur fs → "b"%byte ∈ bak → names fs !! in_dir (dir self) bak = None.
Proof.
  intros Hr Hb. apply eq_None_not_Some. intros [i Hi]. destruct (rp_names _ _ _ _ Hr _ _ Hi) as [Hin|[_ ->]].
  - apply list_elem_of_fmap in Hin as ([n c] & -> & Hin). 
    destruct (rp_pub _ _ _ _ Hr _ _ Hin) as (_ & _ & _ & (c0 & t0 & m0 & k & -> & _)).
    apply base_chars in Hb; [by vm_compute in Hb|set_solver].
  - apply base_chars in Hb; [by vm_compute in Hb|set_solver].
Qed.

Lemma read_file_calm gateNo self pubs1 n c pubs2 cur Q fs :
  in_s 32 gateNo → represents self (pubs1 ++ (n, c) :: pubs2) cur fs → concat c ≠ [] →
  (∀ fs', represents self (pubs1 ++ pubs2) cur fs' → Q (0, Some (concat c)) fs') →
  wp (readFile ← ReadFile.ReadFileMgr_new gateNo (path_ self ++ [slash] ++ n); ReadFile.readFromFile readFile) Q fs.
Proof.
  intros Hg Hr Hc HQ. pose proof (rp_config _ _ _ _ Hr) as Hcfg.
  destruct (rp_pub _ _ _ _ Hr n c ltac:(set_solver)) as ((i & Hi & Hd) & _ & _ & Hname).
  destruct (published_names _ gateNo _ n Hcfg Hg Hname) as (Hnul & Hlen & <- & Eok & bak & Ebak & Hb).
  { pose proof (c_seq _ Hcfg). destruct cur; lia. }
  set (stem := stem_of self n) in *.
  pose proof (no_b_in_names _ _ _ _ _ Hr Hb) as Hfree.
  pose proof (in_dir_not_dir _ _ _ _ bak Hr) as Hnd.
  assert (Hdir : is_dir (dir self) fs = true) by (apply (rp_there _ _ _ _ Hr); left; by destruct pubs1).
  destruct (ReadFile.names_fit gateNo stem Hnul Hlen (lit ".ok") ltac:(set_solver)) as (C1 & L1 & _).
  destruct (ReadFile.names_fit gateNo stem Hnul Hlen (lit "_" ++ fmt_ld gateNo ++ lit ".bak") ltac:(set_solver)) as (C2 & L2 & _).
  fold (ReadFile.ok_file stem) in C1, L1. fold (ReadFile.bak_file gateNo stem) in C2, L2.
  assert (Hbne : ReadFile.bak_file gateNo stem ≠ []) by (intros E; apply (f_equal length) in E; unfold ReadFile.bak_file in E; rewrite !length_app in E; cbn in E; lia).
  apply wp_bind, ReadFile.ReadFileMgr_new_wp; [done..|]. unfold ReadFile.readFromFile.
  cbn [ReadFile.fileName_ ReadFile.bakFileName_ ReadFile.mgr]. rewrite C1, C2, !ReadFile.snprintf_id by done.
  apply wp_bind, (rename_calm _ _ i).
  { by rewrite C1, Eok. }
  { rewrite C2, Ebak, parent_in_dir. done. }
  { by rewrite C2, Ebak. }
  rewrite C1, C2, Eok, Ebak. intros t1. cbn [Z.eqb negb]. unfold ReadFile.read_taken, ReadFile.readFileLen.
  cbn [ReadFile.fileName_ ReadFile.bakFileName_ ReadFile.mgr]. rewrite C1, C2, !ReadFile.snprintf_id by done.
  apply wp_bind, wp_bind, (stat_calm _ i (concat c)); [done|cbn; rewrite Ebak; by rewrite lookup_insert_eq|done|by rewrite Ebak|].
  intros t2. apply wp_ret. assert (Hl : length (concat c) ≠ 0%nat) by (by destruct (concat c)).
  rewrite decide_False by done.
  apply wp_bind, (fopen_read_calm _ i); [cbn; rewrite Ebak; by rewrite lookup_insert_eq|]. intros t3.
  apply wp_bind, malloc_calm. intros t4. cbn [negb].
  set (s0 := {| s_ino := i; s_buf := []; s_pos := 0 |}).
  apply wp_bind. change 3%nat with (S 2). cbn [ReadFile.read_loop].
  apply wp_bind, (fread_calm _ _ s0).
  { unfold open_stream. cbn. by apply list_lookup_middle. }
  intros t5. cbv zeta.
  match goal with |- context [take (length (concat c)) ?l] =>
    assert (take (length (concat c)) l = concat c) as ->
      by (cbn; rewrite Hd; cbn; by rewrite drop_0, firstn_all) end.
  rewrite Nat.sub_diag. cbn [app]. apply wp_ret. cbn beta iota. rewrite decide_False by lia.
  apply wp_bind, (fclose_calm _ (s0 <| s_pos ::= Nat.add (length (concat c)) |>)); [|done|].
  { unfold open_stream. cbn. apply list_lookup_insert_eq. rewrite length_app. cbn. lia. }
  intros t6. apply wp_bind. unfold ReadFile.deleteReadFile. cbn [ReadFile.bakFileName_ ReadFile.mgr].
  rewrite decide_False, C2 by lia. apply wp_bind, access_calm. intros t7.
  unfold is_there at 1. cbn [names set_with]. rewrite (bool_decide_true (_ ≠ [])) by done.
  match goal with |- context [bool_decide (is_Some ?x)] =>
    assert (x = Some i) as -> by (cbn; rewrite Ebak; by rewrite lookup_insert_eq) end.
  rewrite (bool_decide_true (is_Some _)) by done. rewrite orb_true_r. cbn [andb Z.eqb].
  apply wp_bind, (remove_calm _ i); [cbn; rewrite Ebak; by rewrite lookup_insert_eq|]. intros t8.
  apply wp_ret. apply wp_ret, HQ. eapply (removed_step _ _ n c _ _ fs); try done.
  - cbn. rewrite Ebak, delete_insert_id; [done|]. apply lookup_delete_None. by right.
  - intros f s. unfold open_stream. cbn. 
    rewrite list_insert_insert_eq, insert_app_r_alt, Nat.sub_diag by done. cbn.
    split; [|intros Hf; by apply lookup_app_l_Some].
    intros [Hf|[_ Hf]]%lookup_app_Some; [done|]. by apply list_lookup_singleton_Some in Hf as [_ [=]].
Qed.

Lemma represents_tick self pubs cur fs t : represents self pubs cur fs → represents self pubs cur (fs <| tick := t |>).
Proof. intros Hr. eapply represents_dirs; [done|]. split; cbn; auto. Qed.

Lemma entries_spec self pubs cur fs e :
  represents self pubs cur fs →
  e ∈ entries (dir self) fs ↔ is_Some (names fs !! in_dir (dir self) e).
Proof.
  intros Hr. unfold entries. rewrite list_elem_of_omap. split.
  - intros (q & Hq & Hl). case_decide as Hp; [|done]. destruct Hp as [Hp Hne].
    assert (q = in_dir (dir self) e) as ->.
    { destruct q as [b l]. cbn in *. apply last_Some in Hl as [l' ->]. unfold parent in Hp. cbn in Hp.
      rewrite removelast_last in Hp. by rewrite <- Hp. }
    apply elem_of_elements, elem_of_union in Hq as [Hq|Hq]; [by apply elem_of_dom in Hq|].
    by apply (rp_dirs _ _ _ _ Hr) in Hq.
  - intros Hs. exists (in_dir (dir self) e). split.
    + apply elem_of_elements, elem_of_union. left. by apply elem_of_dom.
    + rewrite decide_True; [cbn; by rewrite last_snoc|]. split; [apply parent_in_dir|]. cbn.
      intros E. by apply app_nil in E as [_ [=]].
Qed.

(** The extension of a name. *)
Lemma ext_test pre ext : length ext = 3%nat → ReadDir.is_ok_name (pre ++ ext) = bool_decide (ext = lit ".ok").
Proof.
  intros Hl. unfold ReadDir.is_ok_name, TAIL_OKFILE_STRLEN. rewrite length_app, Hl, bool_decide_true by lia.
  cbn [andb]. by rewrite drop_app_length' by lia.
Qed.

Lemma entries_loop_calm gateNo self pubs cur es Q fs :
  in_s 32 gateNo → represents self pubs cur fs → Forall (.≠ []) (records pubs None) →
  (∀ e, e ∈ es → is_Some (names fs !! in_dir (dir self) e)) →
  (∀ fs' pubs1 n c pubs2, pubs = pubs1 ++ (n, c) :: pubs2 → represents self (pubs1 ++ pubs2) cur fs' →
     Q (0, Some (concat c)) fs') →
  ((∀ e, e ∈ es → e ∉ pubs.*1) → ∀ fs', represents self pubs cur fs' → Q (-122, None) fs') →
  wp (ReadDir.entries_loop gateNo (path_ self) es) Q fs.
Proof.
  intros Hg. revert fs. induction es as [|e es IH]; intros fs Hr Hrec Hes HQ1 HQ2; cbn [ReadDir.entries_loop].
  { apply wp_ret, HQ2; [set_solver|done]. }
  pose proof (rp_config _ _ _ _ Hr) as Hcfg. destruct (Hes e ltac:(by left)) as [i Hi].
  assert (Hskip : e ∉ pubs.*1 → ∀ t, wp (ReadDir.entries_loop gateNo (path_ self) es) Q (fs <| tick := t |>)).
  { intros He t. apply IH; [by apply represents_tick|done| |done|].
    - intros e' Hin. apply Hes. by right.
    - intros Hall. apply HQ2. intros e'. rewrite elem_of_cons. intros [->|]; eauto. }
  destruct (lookup_lt_is_Some_2 (data fs) i) as [d Hd]; [by eapply (ok_names _ (rp_fs _ _ _ _ Hr))|].
  destruct (rp_names _ _ _ _ Hr _ _ Hi) as [Hin|[Hcur ->]].
  - (* a published file: it is read *)
    apply list_elem_of_fmap in Hin as ([n c] & -> & Hin). cbn [fst] in *.
    destruct (rp_pub _ _ _ _ Hr _ _ Hin) as (_ & _ & _ & Hname).
    destruct (published_names _ gateNo _ n Hcfg Hg Hname) as (_ & _ & Ef & Er & _).
    { pose proof (c_seq _ Hcfg). destruct cur; lia. }
    destruct Hname as (c0 & t0 & m0 & k & En & Hco & Htm & Hms & Hk).
    assert (Hb : slash ∉ n ∧ no_nul n) by (rewrite En; apply base_free; set_solver).
    assert (Hl : (length n <= 46)%nat).
    { rewrite En. apply base_length; [set_solver|apply Hcfg|done..|]. pose proof (c_seq _ Hcfg). destruct cur; lia. }
    destruct (full_name self n Hcfg) as (_ & F2 & F3 & _ & F5); [rewrite En; apply base_ne|apply Hb|apply Hb|done|].
    rewrite cstr_path in F2, F3, F5 by done. rewrite F2.
    apply wp_bind, (stat_calm _ i d); [done|by rewrite F3|done|rewrite F3; by eapply in_dir_not_dir|]. intros t.
    assert (Hok : ReadDir.is_ok_name n = true).
    { rewrite En. unfold base_name. rewrite !app_assoc. by rewrite ext_test. }
    rewrite Hok. apply list_elem_of_split in Hin as (p1 & p2 & E).
    pose proof (represents_tick _ _ _ _ t Hr) as Hr'. rewrite E in Hr'.
    assert (Hne : concat c ≠ []).
    { destruct (rp_pub _ _ _ _ Hr n c) as (_ & Hc & _); [rewrite E; set_solver|].
      destruct c as [|r c]; [done|]. rewrite Forall_forall in Hrec. intros [Hr0 _]%app_eq_nil.
      apply (Hrec r); [|done]. unfold records. rewrite E, fmap_app, concat_app. cbn. set_solver. }
    assert (Hread := read_file_calm gateNo self p1 n c p2 cur (λ rt, wp
      (let '(ret, text) := rt in if ret =? 0 then mret (ret, text)
       else ReadDir.entries_loop gateNo (path_ self) es) Q) _ Hg Hr' Hne
      (λ fs' Hr2, HQ1 fs' p1 n c p2 E Hr2)).
    apply wp_bind_inv in Hread. apply wp_bind. eapply wp_mono; [exact Hread|].
    intros rf fs' Hrf. by apply wp_bind.
  - (* the current file: it is passed over *)
    destruct cur as [c|]; [|done]. pose proof (rp_current _ _ _ _ Hr) as Hcu. cbn in Hcu.
    destruct (cu_time _ _ _ Hcu) as [_ Hms].
    destruct (tmp_full self 0 Hcfg Hms ltac:(decide_now) (lit ".tmp") _ ltac:(set_solver)
                (localtime_ok (s64 (creatSecond_ self)))) as (_ & T2 & T3 & _ & T5).
    fold (tmp_base self) in T2, T3, T5. rewrite cstr_path in T2, T3, T5 by done. rewrite T2.
    apply wp_bind, (stat_calm _ i d); [done|by rewrite T3|done|rewrite T3; by eapply in_dir_not_dir|]. intros t.
    assert (Hno : ReadDir.is_ok_name (tmp_base self) = false).
    { unfold tmp_base, base_name. rewrite !app_assoc. change (lit ".tmp") with (lit "." ++ lit "tmp").
      by rewrite app_assoc, ext_test. }
    rewrite Hno. apply Hskip. by destruct (current_names_new _ _ _ _ Hr).
Qed.

(** Reading a directory takes one published file, or reports that there is none. *)
Lemma read_dir_calm rd self pubs cur Q fs :
  in_s 32 (ReadDir.d_gateNo_ rd) → represents self pubs cur fs → Forall (.≠ []) (records pubs None) →
  (∀ fs' pubs1 n c pubs2, pubs = pubs1 ++ (n, c) :: pubs2 → represents self (pubs1 ++ pubs2) cur fs' →
     Q (0, Some (concat c)) fs') →
  (pubs = [] → ∀ r fs', r < 0 → represents self pubs cur fs' → Q (r, None) fs') →
  wp (ReadDir.readFileFromDir rd (path_ self)) Q fs.
Proof.
  intros Hg Hr Hrec HQ1 HQ2. pose proof (rp_config _ _ _ _ Hr) as Hcfg. pose proof (c_length _ Hcfg).
  unfold ReadDir.readFileFromDir. rewrite decide_False, cstr_path by (done || lia). apply wp_bind.
  destruct (is_dir (dir self) fs) eqn:Hd.
  - apply opendir_calm; [apply Hcfg|done|]. intros t es Hes.
    assert (He : ∀ e, e ∈ es ↔ is_Some (names fs !! in_dir (dir self) e)).
    { intros e. rewrite Hes. by eapply entries_spec. }
    apply (entries_loop_calm _ self pubs cur); [done|by apply represents_tick|done|by intros e ?%He|done|].
    intros Hall fs' Hr'. apply HQ2; [|lia|done]. destruct pubs as [|[n c] pubs]; [done|]. exfalso.
    destruct (rp_pub _ _ _ _ Hr n c ltac:(by left)) as ((i & Hi & _) & _).
    apply (Hall n); [apply He; eauto|by left].
  - apply opendir_missing; [by right|]. intros t. apply wp_ret, HQ2; [|lia|by apply represents_tick].
    destruct pubs; [done|]. rewrite (rp_there _ _ _ _ Hr) in Hd; [done|by left].
Qed.
End journal.

End Journal.
