(* ===== verification/Durable.v ===== *)
(** * What a writer has written stays and keeps a name

    Both writers of [WriteFile.v], whatever calls fail: the file of a record is found under
    its [.tmp] or [.ok] name after every later operation. The names end with the serial
    number of the file, which comes again after 99999 files. *)

From S2P Require Import Prelude CLib Incommon UniqueNum FileSys WriteFile ReadFile Journal.
Import UniqueNum(tm, Build_tm, tm_year, tm_mon, tm_mday, tm_hour, tm_min, tm_sec).
Import FileSys WriteFile Journal.

Module Durable.

(** The clock and the calendar keep their documented ranges. *)
Class Dated (env : Env) : Prop := {
  dated_clock n : 0 < (clock n).1 < 2 ^ 62 ∧ 0 <= (clock n).2 < 1000000;
  dated_localtime s : UniqueNum.tm_ok (localtime s) }.
#[export] Instance env_with_dated bad : Dated (env_with bad).
Proof.
  split; cbn; [|intros _; decide_now].
  intros n. pose proof (Z.mod_pos_bound (Z.of_nat n) 1000). lia.
Qed.

Section writer.
Context {env : Env} `{!Dated env}.
Variables (p : bytes) (Hp : (length (cstr p) <= 900)%nat).

(** ** Names *)

Definition at_ (n : bytes) : path := resolve (cstr p ++ [slash] ++ n).
(** [q] is a name of the file number [k]. *)
Definition numbered (k : Z) (q : path) : Prop :=
  ∃ g c t ms ext, ext ∈ [lit ".tmp"; lit ".ok"] ∧ q = at_ (base_name g c t ms k ext).

Lemma at_name_inj n n' : n ≠ [] → n' ≠ [] → slash ∉ n → slash ∉ n' → at_ n = at_ n' → n = n'.
Proof. intros. unfold at_ in *. rewrite !app_assoc in *. by eapply resolve_tail_inj. Qed.
Lemma numbered_inj k k' q : numbered k q → numbered k' q → 0 <= k <= 99999 → 0 <= k' <= 99999 → k = k'.
Proof.
  intros (g & c & t & ms & ext & He & ->) (g' & c' & t' & ms' & ext' & He' & E) Hk Hk'.
  apply at_name_inj in E; try apply base_ne; try by apply base_free. rewrite !elem_of_cons, elem_of_nil in He, He'.
  destruct He as [->|[->|[]]], He' as [->|[->|[]]]; [by eapply base_seq_inj| | |by eapply base_seq_inj].
  - by apply ext_differ in E.
  - symmetry in E. by apply ext_differ in E.
Qed.
(** A name of a writer is not cut. *)
Lemma full_at g c t ms k ext :
  ext ∈ [lit ".tmp"; lit ".ok"] → in_s 32 g → in_s 32 c → UniqueNum.tm_ok t → 0 <= ms < 1000 → 0 <= k <= 99999 →
  resolve (cstr (snprintf (cstr p ++ [slash] ++ base_name g c t ms k ext))) = at_ (base_name g c t ms k ext).
Proof.
  intros He Hg Hc Ht Hm Hk. pose proof (base_length g c t ms k ext He Hg Hc Ht Hm Hk) as Hl.
  rewrite ReadFile.snprintf_id by (rewrite !length_app; cbn; lia). rewrite ReadFile.cstr_id; [done|].
  rewrite !no_nul_app. split_and!; [apply no_nul_cstr|decide_now|by apply base_free].
Qed.

(** ** The state of a writer *)

(** The current file has its [.tmp] name. *)
Record Own (self : WriteFile) (fs : Fs) : Prop := {
  o_path : path_ self = p;
  o_root : (length (rootPath_ self) < 1024)%nat;
  o_gate : in_s 32 (gateNo_ self);
  o_count : in_s 32 (curCount_ self);
  o_ms : 0 <= millSecond_ self < 1000;
  o_seq : 0 <= seqId_ self <= 99999;
  o_cur f : pFile_ self = Some f → 1 <= seqId_ self ∧
    ∃ s, open_stream f s fs ∧ names fs !! at_ (tmp_base self) = Some (s_ino s) }.
(** File [i] is the current one. *)
Definition Current (i : nat) (self : WriteFile) (fs : Fs) : Prop :=
  ∃ f s, pFile_ self = Some f ∧ open_stream f s fs ∧ s_ino s = i.
(** File [i] has a name, and at most [n] files were begun after it. *)
Definition Past (i : nat) (n : Z) (self : WriteFile) (fs : Fs) : Prop :=
  ∃ k q m, 1 <= k <= 99999 ∧ numbered k q ∧ names fs !! q = Some i ∧ seqId_ self = 1 + (k - 1 + m) mod 99999 ∧
    0 <= m <= n ∧ (m = 0 → pFile_ self = None).
(** [o] is a file to look after. *)
Definition Tracked (o : option nat) (n : Z) (self : WriteFile) (fs : Fs) : Prop :=
  Own self fs ∧ 0 <= n ∧ ∀ i, o = Some i → Current i self fs ∨ Past i n self fs.
(** The numbers have not come again. *)
Definition fits (o : option nat) (n : Z) : Prop := is_Some o → n < 99999.

Lemma tracked_later o n n' self fs : Tracked o n self fs → n <= n' → Tracked o n' self fs.
Proof.
  intros (HO & Hn & Ht) Hle. split_and!; [done|lia|]. intros i Hi. destruct (Ht i Hi) as [|(k & q & m & ?)]; [by left|right].
  exists k, q, m. naive_solver lia.
Qed.
(** Names stay, and the stream of the writer keeps its file. *)
Lemma tracked_frame o n self fs fs' :
  Tracked o n self fs → names fs' = names fs →
  (∀ f s, pFile_ self = Some f → open_stream f s fs → ∃ s', open_stream f s' fs' ∧ s_ino s' = s_ino s) → Tracked o n self fs'.
Proof.
  intros ([] & Hn & Ht) En Hs. split_and!; [split; try done| done |].
  - intros f Hf. destruct (o_cur0 f Hf) as (Hq & s & Ho & Hi). split; [done|]. destruct (Hs f s Hf Ho) as (s' & Ho' & E).
    exists s'. by rewrite En, E.
  - intros i Hi. destruct (Ht i Hi) as [(f & s & Hf & Ho & <-)|(k & q & m & ?)]; [left|right].
    + destruct (Hs f s Hf Ho) as (s' & Ho' & E). by exists f, s'.
    + exists k, q, m. by rewrite En.
Qed.
Lemma tracked_still o n self fs fs' : still fs fs' → Tracked o n self fs → Tracked o n self fs'.
Proof.
  intros [Hq En] Ht. eapply tracked_frame; [done..|]. intros f s _ Ho. exists s. split; [|done].
  unfold open_stream. by rewrite (q_streams _ _ Hq).
Qed.
(** The stream of the writer is used. *)
Lemma tracked_stream o n self fs fs' f s s' :
  Tracked o n self fs → pFile_ self = Some f → open_stream f s fs → names fs' = names fs →
  streams fs' = <[f := Some s']> (streams fs) → s_ino s' = s_ino s → Tracked o n self fs'.
Proof.
  intros Ht Hf Hs En Es Ei. eapply tracked_frame; [done..|]. intros f' s1 Hf' H1. rewrite Hf in Hf'. injection Hf' as <-.
  exists s'. split; [by eapply open_inserted|]. unfold open_stream in *. congruence.
Qed.

(** What may change in the object while it has no file. *)
Record like (self self' : WriteFile) : Prop := {
  l_none : pFile_ self' = None;
  l_path : path_ self' = path_ self; l_root : rootPath_ self' = rootPath_ self; l_gate : gateNo_ self' = gateNo_ self;
  l_seq : seqId_ self' = seqId_ self; l_count : in_s 32 (curCount_ self'); l_ms : 0 <= millSecond_ self' < 1000 }.
Lemma own_like self self' fs fs' : Own self fs → like self self' → Own self' fs'.
Proof.
  intros [] []. split; [congruence|by rewrite l_root0|by rewrite l_gate0|done|done|by rewrite l_seq0|]. rewrite l_none0. done.
Qed.
Lemma tracked_idle o n self self' fs :
  Tracked o n self fs → pFile_ self = None → like self self' → Tracked o n self' fs.
Proof.
  intros (HO & Hn & Ht) Hf Hl. split_and!; [by eapply own_like|done|]. intros i Hi.
  destruct (Ht i Hi) as [(f & s & Hf' & _)|(k & q & m & ? & ? & ? & ? & ? & _)]; [congruence|right].
  exists k, q, m. rewrite (l_seq _ _ Hl). split_and!; try done; try lia. intros _. apply Hl.
Qed.

(** ** Closing *)

(** What a rename, or none, does to the names. *)
Definition renamed (self : WriteFile) (fs fs' : Fs) : Prop :=
  names fs' = names fs ∨
  ∃ i, names fs !! at_ (tmp_base self) = Some i ∧
    names fs' = <[at_ (ok_base self) := i]> (delete (at_ (tmp_base self)) (names fs)).
Lemma numbered_tmp self : numbered (seqId_ self) (at_ (tmp_base self)).
Proof. unfold tmp_base. do 5 eexists. split; [|done]. set_solver. Qed.
Lemma numbered_ok self : numbered (seqId_ self) (at_ (ok_base self)).
Proof. unfold ok_base. do 5 eexists. split; [|done]. set_solver. Qed.
Lemma seq_passed k m : 1 <= k <= 99999 → 0 < m < 99999 → k ≠ 1 + (k - 1 + m) mod 99999.
Proof. intros Hk Hm E. dlia. Qed.

Lemma tracked_closed o n self self' f fs fs' :
  Tracked o n self fs → fits o n → pFile_ self = Some f → like self self' → renamed self fs fs' → Tracked o n self' fs'.
Proof.
  intros (HO & Hn & Ht) Hfit Hf Hl Hr. destruct (o_cur _ _ HO f Hf) as (Hq & s & Hs & Htmp). pose proof (o_seq _ _ HO) as Hseq.
  split_and!; [by eapply own_like|done|]. intros i ->. right. unfold Past. rewrite (l_seq _ _ Hl), (l_none _ _ Hl).
  destruct (Ht i eq_refl) as [(f' & s' & Hf' & Hs' & <-)|(k & q & m & Hk & Hq' & Hi & Em & Hm & Hz)].
  - assert (s' = s) as -> by (unfold open_stream in *; congruence).
    assert (∃ q, numbered (seqId_ self) q ∧ names fs' !! q = Some (s_ino s)) as (q & Hnum & Hname).
    { destruct Hr as [En|(j & Hj & En)]; rewrite En; [by eexists; split; [apply numbered_tmp|]|].
      eexists. split; [apply numbered_ok|]. rewrite Htmp in Hj. injection Hj as <-. by rewrite lookup_insert_eq. }
    exists (seqId_ self), q, 0. split_and!; try done; try lia. rewrite Z.add_0_r, Z.mod_small by lia. lia.
  - assert (0 < m < 99999). { specialize (Hfit ltac:(eauto)). destruct (decide (m = 0)) as [E|]; [rewrite (Hz E) in Hf; done|lia]. }
    assert (Hne : ∀ q', numbered (seqId_ self) q' → q' ≠ q).
    { intros q' Hq1 ->. apply (seq_passed k m); [done..|]. rewrite <- Em. by eapply numbered_inj; [..|lia|]. }
    exists k, q, m. split_and!; try done; try lia. destruct Hr as [En|(j & _ & En)]; rewrite En; [done|].
    rewrite lookup_insert_ne by apply Hne, numbered_ok. by rewrite lookup_delete_ne by apply Hne, numbered_tmp.
Qed.
(** The object forgets its file. *)
Lemma tracked_dropped o n self fs : Tracked o n self fs → fits o n → Tracked o n (self <| pFile_ := None |>) fs.
Proof.
  intros Ht Hfit. pose proof Ht as ([] & _). destruct (pFile_ self) as [f|] eqn:Hf.
  - eapply tracked_closed; [done..| |by left]. by split.
  - eapply tracked_idle; [done..|]. by split.
Qed.

(** The two names of the current file in the calls. *)
Lemma close_names fs0 self Q fs :
  Own self fs0 → (∀ r fs', renamed self fs fs' → Q r fs') →
  wp (renameFile (snprintf (tmp_name self)) (snprintf (ok_name self))) Q fs.
Proof.
  intros [] HQ. unfold tmp_name, ok_name, file_name. rewrite o_path0.
  change (cstr p ++ [slash] ++ _ ++ _ ++ fmt_ld 0 ++ _) with (cstr p ++ [slash] ++ tmp_base self).
  change (cstr p ++ [slash] ++ fmt_ld (gateNo_ self) ++ _) with (cstr p ++ [slash] ++ ok_base self).
  assert (T : resolve (cstr (snprintf (cstr p ++ [slash] ++ tmp_base self))) = at_ (tmp_base self)).
  { apply full_at; [set_solver|done|decide_now|apply dated_localtime|done..]. }
  assert (K : resolve (cstr (snprintf (cstr p ++ [slash] ++ ok_base self))) = at_ (ok_base self)).
  { apply full_at; [set_solver|done|done|apply dated_localtime|done..]. }
  apply rename_wp. rewrite T, K. intros r fs' _ _ _ [[_ En]|(_ & i & Hi & En)]; apply HQ; [by left|right; eauto].
Qed.

Lemma flush_tracked o n self f Q fs :
  Tracked o n self fs → pFile_ self = Some f → (∀ r fs', Tracked o n self fs' → Q r fs') → wp (fflush f) Q fs.
Proof.
  intros Ht Hf HQ. destruct (o_cur _ _ (proj1 Ht) f Hf) as (_ & s & Hs & _). apply (fflush_wp f s); [done|].
  intros r out fs' (_ & _ & En & _) _ Es. by eapply HQ, tracked_stream.
Qed.
Lemma rename_tracked o n self self' f fs fs1 Q :
  Tracked o n self fs → fits o n → pFile_ self = Some f → names fs1 = names fs → like self self' →
  (∀ r fs', Tracked o n self' fs' → Q r fs') →
  wp (renameFile (snprintf (tmp_name self)) (snprintf (ok_name self))) Q fs1.
Proof.
  intros Ht Hfit Hf En Hl HQ. apply (close_names fs); [apply Ht|]. intros r fs' Hr. apply HQ. eapply tracked_closed; [done..|].
  unfold renamed in *. by rewrite En in Hr.
Qed.
Lemma like_closed self fs : Own self fs → like self (closed (self <| pFile_ := None |>)).
Proof. intros []. by split. Qed.

Lemma local_close_tracked o n self Q fs :
  Tracked o n self fs → fits o n → (∀ r self' fs', Tracked o n self' fs' → pFile_ self' = None → Q (r, self') fs') →
  wp (local_CloseCurFile self) Q fs.
Proof.
  intros Ht Hfit HQ. unfold local_CloseCurFile. destruct (pFile_ self) as [f|] eqn:Hf; [|by apply wp_ret, HQ].
  apply wp_bind, (flush_tracked o n self f); [done..|]. intros _ fs1 H1. destruct (o_cur _ _ (proj1 H1) f Hf) as (_ & s & Hs & _).
  apply wp_bind, (fclose_wp f s); [done|]. intros _ out fs2 (_ & _ & En & _) _ _.
  apply wp_bind, (rename_tracked o n self (closed (self <| pFile_ := None |>)) f fs1); [done..|by eapply like_closed, H1|].
  intros r fs3 H3. by apply wp_ret, HQ.
Qed.
Lemma Share_close_tracked o n self Q fs :
  (∀ n, fault Fclose n = None) → Tracked o n self fs → fits o n →
  (∀ r self' fs', Tracked o n self' fs' → r < 0 ∨ pFile_ self' = None → Q (r, self') fs') →
  wp (Share_CloseCurFile self) Q fs.
Proof.
  intros Hnf Ht Hfit HQ. unfold Share_CloseCurFile. destruct (pFile_ self) as [f|] eqn:Hf; [|apply wp_ret, HQ; [done|by right]].
  apply wp_bind, wp_still.
  { apply still_accessPath. pose proof (length_cstr (rootPath_ self)). pose proof (o_root _ _ (proj1 Ht)). lia. }
  intros a fs1 S1. apply (tracked_still _ _ _ _ _ S1) in Ht. destruct (a <? 0); [apply wp_ret, HQ; [done|by left]|].
  apply wp_bind, (flush_tracked o n self f); [done..|]. intros r fs2 H2. destruct (r <? 0); [apply wp_ret, HQ; [done|by left]|].
  destruct (o_cur _ _ (proj1 H2) f Hf) as (_ & s & Hs & _). apply wp_bind, (fclose_wp f s); [done|].
  intros r' out fs3 (_ & _ & En & _) [[-> _]|(_ & n0 & [? Hn])] _; [|by rewrite Hnf in Hn].
  apply wp_bind, (rename_tracked o n self (closed (self <| pFile_ := None |>)) f fs2); [done..|by eapply like_closed, H2|].
  intros r0 fs4 H4. apply wp_ret, HQ; [done|by right].
Qed.

(** ** Opening *)

Lemma fopen_names_wp q Q fs :
  (∀ r fs', (∀ a i, names fs !! a = Some i → names fs' !! a = Some i) →
     match r with
     | None => names fs' = names fs ∧ streams fs' = streams fs
     | Some f => ∃ s, open_stream f s fs' ∧ names fs' !! resolve q = Some (s_ino s)
     end → Q r fs') →
  wp (fopen_append q) Q fs.
Proof.
  intros HQ. unfold wp, fopen_append, new_stream. st_cbn. case_match; [|by apply HQ].
  case_match eqn:E; apply HQ; cbn.
  - done.
  - eexists. split; [by apply list_lookup_middle|done].
  - intros a i Ha. rewrite lookup_insert_ne; [done|congruence].
  - eexists. split; [by apply list_lookup_middle|]. by rewrite lookup_insert_eq.
Qed.
(** One more file was begun. *)
Lemma tracked_next o n self self' fs fs' :
  Tracked o n self fs → pFile_ self = None → seqId_ self' = 1 + seqId_ self mod 99999 → Own self' fs' →
  (∀ a i, names fs !! a = Some i → names fs' !! a = Some i) → Tracked o (n + 1) self' fs'.
Proof.
  intros (HO & Hn & Ht) Hf Hseq HO' Hkeep. split_and!; [done|lia|]. intros i Hi. right.
  destruct (Ht i Hi) as [(f & s & Hf' & _)|(k & q & m & Hk & Hq & Hname & Em & Hm & _)]; [congruence|].
  exists k, q, (m + 1). split_and!; try done; try lia; [by apply Hkeep|]. rewrite Hseq, Em. dlia.
Qed.
Lemma next_number self fs :
  Own self fs → let seq := s32 (seqId_ self + 1) in
  (if (seq <? 1) || (99999 <? seq) then 1 else seq) = 1 + seqId_ self mod 99999.
Proof.
  intros []. cbv zeta. rewrite wrap_s_id by (unfold in_s; lia). destruct (Z.ltb_spec (seqId_ self + 1) 1); [lia|]. cbn [orb].
  destruct (Z.ltb_spec 99999 (seqId_ self + 1)); [by assert (seqId_ self = 99999) as -> by lia|]. rewrite Z.mod_small; lia.
Qed.
Lemma open_next_tracked e1 e2 e3 e4 o n self Q fs :
  Tracked o n self fs → pFile_ self = None → (∀ r self' fs', Tracked o (n + 1) self' fs' → Q (r, self') fs') →
  wp (open_next e1 e2 e3 e4 self) Q fs.
Proof.
  intros Ht Hf HQ. assert (Hsame : ∀ fs', still fs fs' → Tracked o (n + 1) self fs').
  { intros fs' S. eapply tracked_later; [by eapply tracked_still|lia]. }
  unfold open_next. case_decide as Hl; [apply wp_ret, HQ, Hsame; reflexivity|].
  apply wp_bind, wp_still; [apply still_mkdirs; lia|]. intros m fs1 S1. destruct (m =? -1); [by apply wp_ret, HQ, Hsame|].
  apply (tracked_still _ _ _ _ _ S1) in Ht. clear Hsame S1. pose proof Ht as (HO & _). rewrite (next_number _ _ HO). cbv zeta.
  pose proof (Z.mod_pos_bound (seqId_ self) 99999 ltac:(lia)) as Hseq. pose proof HO as [].
  apply wp_bind. unfold gettimeofday. apply wp_gets. pose proof (dated_clock (tick fs1)) as Hclock.
  destruct (clock (tick fs1)) as [sec usec]. cbn [fst snd] in Hclock.
  assert (Hms : 0 <= s32 (usec ÷ 1000) < 1000).
  { rewrite Z.quot_div_nonneg by lia. pose proof (Z.div_pos usec 1000). pose proof (Z.div_lt_upper_bound usec 1000 1000).
    rewrite wrap_s_id by (unfold in_s; lia). lia. }
  set (self1 := _ <| creatSecond_ := _ |> <| millSecond_ := _ |>).
  case_decide as Hlen; [apply wp_ret, HQ; eapply (tracked_next _ _ self); [done..| |done]; split; try done; [cbn; lia|cbn; congruence]|].
  apply wp_bind, fopen_names_wp. intros r fs2 Hkeep Hr.
  assert (Hpath : resolve (file_name (path_ self1) (gateNo_ self1) 0 (localtime sec) (millSecond_ self1) (seqId_ self1) (lit ".tmp")) =
    at_ (tmp_base self1)).
  { change (path_ self1) with (path_ self). unfold file_name, at_, tmp_base. rewrite o_path0.
    change (creatSecond_ self1) with (u64 sec). rewrite wrap_s_u, wrap_s_id by (unfold in_s; lia). done. }
  rewrite Hpath in Hr. destruct r as [f|]; apply wp_ret, HQ; (eapply (tracked_next _ _ self); [done..| |done]).
  - split; try done; [cbn; lia|]. intros f' [= <-]. split; [cbn; lia|]. exact Hr.
  - split; try done. cbn. lia.
Qed.

(** ** Operations *)

Lemma tracked_same o n self self' fs :
  Tracked o n self fs → pFile_ self' = pFile_ self → path_ self' = path_ self → rootPath_ self' = rootPath_ self →
  gateNo_ self' = gateNo_ self → seqId_ self' = seqId_ self → millSecond_ self' = millSecond_ self →
  creatSecond_ self' = creatSecond_ self → in_s 32 (curCount_ self') → Tracked o n self' fs.
Proof.
  intros ([] & Hn & Ht) E1 E2 E3 E4 E5 E6 E7 Hc. assert (Et : tmp_base self' = tmp_base self) by (unfold tmp_base; congruence).
  split_and!; [split; rewrite ?E1, ?E2, ?E3, ?E4, ?E5, ?E6, ?Et; done|done|]. unfold Current, Past. by rewrite E1, E5.
Qed.

(** What a switch to a new file keeps. *)
Definition switch_keeps (switch : WriteFile → St Fs (Z * WriteFile)) : Prop :=
  ∀ o n self Q fs, Tracked o n self fs → fits o n → (∀ r self' fs', Tracked o (n + 1) self' fs' → Q (r, self') fs') →
  wp (switch self) Q fs.
Lemma local_switch_keeps : switch_keeps local_switchToNewFile.
Proof.
  intros o n self Q fs Ht Hfit HQ. apply wp_bind, (local_close_tracked o n); [done..|]. intros r self1 fs1 H1 Hf.
  destruct (r <? 0); [|by eapply open_next_tracked]. apply wp_ret, HQ. eapply tracked_later; [done|lia].
Qed.
Lemma Share_switch_keeps : (∀ n, fault Fclose n = None) → switch_keeps Share_switchToNewFile.
Proof.
  intros Hnf o n self Q fs Ht Hfit HQ. apply wp_bind, (Share_close_tracked o n); [done..|]. intros r self1 fs1 H1 Hf.
  destruct (Z.ltb_spec r 0); [|by eapply open_next_tracked; [done|naive_solver lia|]]. apply wp_ret, HQ. eapply tracked_later; [done|lia].
Qed.

Lemma put_record_tracked e switch o n self f content Q fs :
  switch_keeps switch → Tracked o n self fs → fits o (n + 1) → pFile_ self = Some f →
  (∀ r self' fs', Tracked o (n + 1) self' fs' → Q (r, self') fs') → wp (put_record e switch self f content) Q fs.
Proof.
  intros Hsw Ht Hfit Hf HQ. assert (Hlater : ∀ self' fs', Tracked o n self' fs' → Tracked o (n + 1) self' fs').
  { intros. eapply tracked_later; [done|lia]. }
  destruct (o_cur _ _ (proj1 Ht) f Hf) as (_ & s & Hs & _). apply wp_bind, (write_loop_wp _ _ _ s); [done|].
  intros out rest fs1 _ _ E2 _ E4. assert (H1 : Tracked o n self fs1) by (by eapply tracked_stream).
  destruct rest; [|by apply wp_ret, HQ, Hlater].
  apply wp_bind, (flush_tracked o n self f); [done..|]. intros r fs2 H2. destruct (r =? -1).
  - apply wp_bind, (Hsw o n); [done|intros Hi; specialize (Hfit Hi); lia|]. intros r' self3 fs3 H3.
    destruct (r' <? 0); apply wp_ret, HQ; [done|by apply tracked_dropped].
  - apply wp_ret, HQ, Hlater. eapply tracked_same; [done..|]. cbn. by apply wrap_s_range.
Qed.
Lemma then_put_tracked e_null e switch o n r self content Q fs :
  switch_keeps switch → Tracked o n self fs → fits o (n + 1) →
  (∀ r self' fs', Tracked o (n + 1) self' fs' → Q (r, self') fs') →
  wp (if r <? 0 then mret (r, self) else match pFile_ self with
      | None => mret (e_null, self) | Some f => put_record e switch self f content end) Q fs.
Proof.
  intros Hsw Ht Hfit HQ. assert (Tracked o (n + 1) self fs) by (eapply tracked_later; [done|lia]).
  destruct (r <? 0); [by apply wp_ret, HQ|]. destruct (pFile_ self) as [f|] eqn:Hf; [|by apply wp_ret, HQ]. by apply (put_record_tracked _ _ o n).
Qed.
Lemma write_tracked shared content o n self Q fs :
  closes shared → Tracked o n self fs → fits o (n + 2) → (∀ r self' fs', Tracked o (n + 2) self' fs' → Q (r, self') fs') →
  wp (write shared content self) Q fs.
Proof.
  intros Hc Ht Hfit HQ. assert (Hfit1 : fits o (n + 1)) by (intros Hi; specialize (Hfit Hi); lia).
  assert (Hfit0 : fits o n) by (intros Hi; specialize (Hfit Hi); lia).
  assert (Hidle : ∀ r fs', still fs fs' → Q (r, self) fs').
  { intros r fs' S. eapply HQ, tracked_later; [by eapply tracked_still|lia]. }
  assert (Hput : ∀ e1 e2 sw r self1 fs1, switch_keeps sw → Tracked o (n + 1) self1 fs1 → wp (if r <? 0 then mret (r, self1)
    else match pFile_ self1 with None => mret (e1, self1) | Some f => put_record e2 sw self1 f content end) Q fs1).
  { intros e1 e2 sw r self1 fs1 Hsw H1. eapply then_put_tracked; [done..| |]; rewrite <- Z.add_assoc; done. }
  destruct shared; [unfold write, Share_writeToFile|unfold write, local_writeToFile].
  - case_decide; [by apply wp_ret, Hidle|]. destruct (negb _); [by apply wp_ret, Hidle|].
    pose proof (Share_switch_keeps (Hc eq_refl)) as Hsw. apply wp_bind. destruct (full self).
    + apply (Hsw o n); [done..|]. intros. by apply Hput.
    + apply wp_bind, wp_still.
      { apply still_accessPath. pose proof (length_cstr (rootPath_ self)). pose proof (o_root _ _ (proj1 Ht)). lia. }
      intros a fs1 S1. apply wp_ret, Hput; [done|]. eapply tracked_later; [by eapply tracked_still|lia].
  - destruct (negb _); [by apply wp_ret, Hidle|]. pose proof local_switch_keeps as Hsw. apply wp_bind. destruct (full self).
    + apply (Hsw o n); [done..|]. intros. by apply Hput.
    + apply wp_ret, Hput; [done|]. eapply tracked_later; [done|lia].
Qed.
Lemma close_kept shared o n self Q fs :
  closes shared → Tracked o n self fs → fits o n → (∀ r self' fs', Tracked o n self' fs' → Q (r, self') fs') →
  wp ((if shared then Share_CloseCurFile else local_CloseCurFile) self) Q fs.
Proof.
  intros Hc Ht Hfit HQ. destruct shared; [apply (Share_close_tracked o n)|apply (local_close_tracked o n)]; auto.
Qed.
Lemma apply_op_tracked shared op o n self Q fs :
  closes shared → Tracked o n self fs → fits o (n + 2) → (∀ self' fs', Tracked o (n + 2) self' fs' → Q self' fs') →
  wp (apply_op shared op self) Q fs.
Proof.
  intros Hc Ht Hfit HQ. assert (Hfit0 : fits o n) by (intros Hi; specialize (Hfit Hi); lia).
  assert (Hlater : ∀ self' fs', Tracked o n self' fs' → Q self' fs') by (intros; eapply HQ, tracked_later; [done|lia]).
  destruct op as [content|second| |second|size]; cbn [apply_op].
  - apply wp_bind, (write_tracked shared content o n); [done..|]. intros r self' fs' H'. by apply wp_ret, HQ.
  - pose proof (close_kept shared o n self (λ rs fs', Q rs.2 fs') fs Hc Ht Hfit0) as Hclose.
    destruct shared; [unfold Share_everySecondCheck|unfold local_everySecondCheck];
      (destruct (negb _); [by apply wp_ret, Hlater|]; destruct (expired second self); [|by apply wp_ret, Hlater]);
      apply wp_bind; (eapply wp_mono; [apply Hclose; intros; by apply Hlater|]); intros [r s] fs' H'; by apply wp_ret.
  - assert (H1 : Tracked o n (self <| isExit_ := 1 |>) fs) by (eapply tracked_same; [done..|exact (o_count _ _ (proj1 Ht))]).
    pose proof (close_kept shared o n _ (λ rs fs', Q (rs.2 <| pFile_ := None |>) fs') fs Hc H1 Hfit0) as Hclose.
    destruct shared; [unfold Share_exitClose|unfold local_exitClose]; (destruct (pFile_ _); [|by apply wp_ret, Hlater]);
      apply wp_bind; (eapply wp_mono; [apply Hclose; intros; by apply Hlater, tracked_dropped|]); intros [r s] fs' H'; by apply wp_ret.
  - apply wp_ret, Hlater. eapply tracked_same; [done..|exact (o_count _ _ (proj1 Ht))].
  - apply wp_ret, Hlater. eapply tracked_same; [done..|exact (o_count _ _ (proj1 Ht))].
Qed.
Lemma run_ops_tracked shared ops o n self Q fs :
  closes shared → Tracked o n self fs → fits o (n + 2 * Z.of_nat (length ops)) →
  (∀ self' fs', Tracked o (n + 2 * Z.of_nat (length ops)) self' fs' → Q self' fs') → wp (run_ops shared ops self) Q fs.
Proof.
  intros Hc. revert n self fs. induction ops as [|op ops IH]; intros n self fs Ht Hfit HQ; cbn [run_ops length] in *.
  - apply wp_ret, HQ. eapply tracked_later; [done|lia].
  - apply wp_bind, (apply_op_tracked shared op o n); [done..|intros Hi; specialize (Hfit Hi); lia|]. intros self1 fs1 H1.
    assert (E : n + 2 + 2 * Z.of_nat (length ops) = n + 2 * Z.of_nat (S (length ops))) by lia.
    apply (IH (n + 2)); [done|..]; by rewrite E.
Qed.
End writer.

(** ** The whole *)

Lemma new_writer_path shared gateNo maxCout outSecond flag root frag :
  (length root + length frag <= 880)%nat →
  (length (cstr (path_ (new_writer shared gateNo maxCout outSecond flag root frag))) <= 900)%nat.
Proof.
  intros Hl. assert (Hd : (length (dir_path flag root frag) <= 893)%nat).
  { unfold dir_path, snprintf. destruct (dir_of flag) as [d|] eqn:E; [|cbn; lia].
    assert (length d <= 11)%nat by (unfold dir_of in E; repeat case_decide; simplify_eq; by apply Nat.leb_le).
    pose proof (length_cstr root). pose proof (length_cstr frag). rewrite length_take, !length_app. change (length [slash]) with 1%nat. lia. }
  pose proof (length_cstr (path_ (new_writer shared gateNo maxCout outSecond flag root frag))) as Hc.
  destruct shared; cbn in *; [destruct root; cbn in *|]; lia.
Qed.
Lemma new_writer_tracked {env : Env} shared gateNo maxCout outSecond flag root frag fs :
  in_s 32 gateNo → (length root < 1024)%nat →
  let w := new_writer shared gateNo maxCout outSecond flag root frag in Tracked (path_ w) None 0 w fs.
Proof.
  intros Hg Hr w. split_and!; [|done|done]. destruct shared; split; cbn; try done; try lia; unfold in_s; cbn; lia.
Qed.

Section theorem.
Context {env : Env} `{!Dated env}.

(** C6: A record whose write returned 0 stays: after any operations on a writer, a
    successful write puts the record, flushed, behind what its file held, and after any
    later operations (fewer than 50000, since the numbers of the files come again after
    99999) its file is found under one of the writer's names, [.tmp] or [.ok] in the
    writer's directory, with the record at its place; and no operation uses a closed stream or
    overruns an array. For any failures of the system, except that [fclose] must not
    fail on the shared directory; for paths of at most 880 bytes. *)
Theorem records_durable shared gateNo maxCout outSecond flag root frag fs ops1 content ops2 :
  closes shared → fs_ok fs → undefined fs = false → in_s 32 gateNo → (length root + length frag <= 880)%nat →
  Z.of_nat (length ops2) < 50000 →
  let w := new_writer shared gateNo maxCout outSecond flag root frag in
  let '(self1, fs1) := run_ops shared ops1 w fs in
  let '((r, self2), fs2) := write shared content self1 fs1 in
  let '(self3, fs3) := run_ops shared ops2 self2 fs2 in
  undefined fs3 = false ∧
  (r = 0 → ∃ q k i d e, numbered (path_ w) k q ∧ names fs3 !! q = Some i ∧ data fs3 !! i = Some (d ++ content ++ e) ∧
                        ∀ d0, data fs1 !! i = Some d0 → d0 `prefix_of` d).
Proof.
  intros Hc Hf Hu Hg Hl Hn w. assert (Hr : (length root < 1024)%nat) by lia.
  pose proof (new_writer_path shared gateNo maxCout outSecond flag root frag Hl) as Hp.
  pose proof (new_writer_tracked shared gateNo maxCout outSecond flag root frag fs Hg Hr) as Ht.
  pose proof (new_writer_ok shared gateNo maxCout outSecond flag root frag fs Hf Hu Hr) as Hw.
  fold w in Hp, Ht, Hw. cbv zeta in Ht. assert (Hnone : ∀ n, fits None n) by (intros n [? [=]]).
  destruct (run_ops shared ops1 w fs) as [self1 fs1] eqn:E1.
  pose proof (wp_run _ _ _ _ _ E1 (run_ops_wp shared ops1 w _ fs Hc Hw (λ s' fs' Hk, Hk))) as [Hw1 _].
  pose proof (wp_run _ _ _ _ _ E1 (run_ops_tracked _ Hp shared ops1 None 0 w _ fs Hc Ht (Hnone _) (λ s' fs' Hk, Hk))) as Ht1.
  destruct (write shared content self1 fs1) as [[r self2] fs2] eqn:E2.
  pose proof (wp_run _ (λ rs fs', kept fs1 rs.2 fs' ∧ (rs.1 = 0 → durable content fs1 rs.2 fs')) _ _ _ E2) as H2.
  destruct H2 as [[Hw2 _] Hd]; [by apply write_ok|]. cbn [fst snd] in Hw2, Hd.
  pose proof (wp_run _ (λ rs fs', Tracked (path_ w) None _ rs.2 fs') _ _ _ E2 (write_tracked _ Hp shared content None _ _ _ _ Hc Ht1 (Hnone _) (λ r s' fs' Hk, Hk))) as Ht2.
  destruct (run_ops shared ops2 self2 fs2) as [self3 fs3] eqn:E3.
  pose proof (wp_run _ _ _ _ _ E3 (run_ops_wp shared ops2 self2 _ fs2 Hc Hw2 (λ s' fs' Hk, Hk))) as [Hw3 Hg3].
  split; [apply Hw3|]. intros Hr0. destruct (Hd Hr0) as (f & s & d & Hf2 & Hs & _ & Hi & Hpre).
  destruct (Hg3 _ _ Hi) as (e & He).
  assert (Ht2' : Tracked (path_ w) (Some (s_ino s)) 0 self2 fs2).
  { split_and!; [apply Ht2|done|]. intros i [= <-]. left. by exists f, s. }
  assert (Hfit : fits (Some (s_ino s)) (0 + 2 * Z.of_nat (length ops2))) by (intros _; lia).
  pose proof (wp_run _ _ _ _ _ E3 (run_ops_tracked _ Hp shared ops2 _ 0 self2 _ fs2 Hc Ht2' Hfit (λ s' fs' Hk, Hk))) as (HO3 & _ & Ht3).
  assert (∃ k q, numbered (path_ w) k q ∧ names fs3 !! q = Some (s_ino s)) as (k & q & Hq & Hname).
  { destruct (Ht3 _ eq_refl) as [(f3 & s3 & Hf3 & Hs3 & <-)|(k & q & m & _ & Hq & Hname & _)]; [|by exists k, q].
    destruct (o_cur _ _ _ HO3 f3 Hf3) as (_ & s' & Hs' & Hname). assert (s' = s3) as -> by (unfold open_stream in *; congruence).
    exists (seqId_ self3), (at_ (path_ w) (tmp_base self3)). split; [by apply numbered_tmp|done]. }
  exists q, k, (s_ino s), d, e. split_and!; [done..|by rewrite app_assoc|done].
Qed.
End theorem.

(** A disk that writes two bytes of the third record before it fails once. *)
Definition short_write : Env := env_with (Some (Fwrite, 17, 2)%nat).

Lemma records_durable_witness :
  let run := run_ops (H := short_write) false in
  let w := new_writer false 1 2 60 RE_REMAIN_FLAG (lit "/data") [] in
  let '(self1, fs1) := run [OpWrite (lit "one")] w Fs_new in
  let '((r, self2), fs2) := write (H := short_write) false (lit "two") self1 fs1 in
  let '(self3, fs3) := run [OpWrite (lit "three"); OpExit] self2 fs2 in
  undefined fs3 = false ∧
  (r = 0 → ∃ q k i d e, numbered (path_ w) k q ∧ names fs3 !! q = Some i ∧ data fs3 !! i = Some (d ++ lit "two" ++ e) ∧
                        ∀ d0, data fs1 !! i = Some d0 → d0 `prefix_of` d).
Proof.
  apply (records_durable (env := short_write) false 1 2 60 RE_REMAIN_FLAG (lit "/data") [] Fs_new
    [OpWrite (lit "one")] (lit "two") [OpWrite (lit "three"); OpExit]).
  - discriminate.
  - apply fs_ok_new.
  - reflexivity.
  - split; cbn; lia.
  - cbn. lia.
  - cbn. lia.
Defined.
(** What the run of the witness leaves: the second record is in the finished file. *)
Lemma durable_run :
  let run := run_ops (H := short_write) false in
  let '(self1, fs1) := run [OpWrite (lit "one"); OpWrite (lit "two"); OpWrite (lit "three"); OpExit]
    (new_writer false 1 2 60 RE_REMAIN_FLAG (lit "/data") []) Fs_new in
  data fs1 = [lit "onetwo"; lit "three"] ∧ map (λ q, last q.1.2) (map_to_list (names fs1)) =
    [Some (lit "1_2_051713050912300001.ok"); Some (lit "1_1_051713050912300002.ok")].
Proof. by vm_compute. Qed.
End Durable.
