(* ===== verification/MsgFile.v ===== *)
(** * One file of message details ([src/msgFile/FileMgr.cpp])

    [FileMgr] appends records to [<path>/YYYY/MM/DD/HH/<id>.txt], whose id is the time of
    day in milliseconds, and changes to a new file every hour, when the file is large
    or old and after a failure; the finished one gets the suffix ["_ok"]. Over the
    calls of [FileSys.v], of which any may fail; a public function holds a mutex. *)

From S2P Require Import Prelude CLib Incommon FileSys UniqueNum WriteFile Journal.
Import FileSys UniqueNum(tm, Build_tm, tm_year, tm_mon, tm_mday, tm_hour, tm_min, tm_sec, tm_ok).

Module MsgFile.

(** ** [src/common/DirUtil.cpp] *)

Section dirutil.
Context `{Env}.

Definition make_missing (str : bytes) : St Fs () :=
  r ← access str; if negb (r =? 0) then _ ← mkdir str; mret () else mret ().
(** The loop of [mkdirs] at index [length done]. *)
Fixpoint mkdirs_loop (done rest : bytes) : St Fs () :=
  match rest with
  | [] => mret ()
  | c :: rest' => _ ← (if decide (c = slash) then make_missing done else mret ()); mkdirs_loop (done ++ [c]) rest'
  end.
(** An array of 1024 bytes without terminator for longer paths. Failures are printed only. *)
Definition mkdirs (muldir : bytes) : St Fs () :=
  let str := cstr muldir in
  if decide (1024 <= length str)%nat then undefined_behaviour
  else _ ← mkdirs_loop [] str; match str with [] => mret () | _ => make_missing str end.
Definition MakeDir (path : bytes) : St Fs Z :=
  match path with
  | [] => mret (-1)
  | _ => r ← access (cstr path); if r =? 0 then mret 0 else _ ← mkdirs path; mret 0
  end.
(** The loop of [MakeDirP] at index [length done]. *)
Fixpoint each_prefix (done rest : bytes) : St Fs Z :=
  match rest with
  | [] => mret 0
  | c :: rest' =>
      if decide (c = slash) then
        r ← MakeDir done; if negb (r =? 0) then mret (-1) else each_prefix (done ++ [c]) rest'
      else each_prefix (done ++ [c]) rest'
  end.
Definition PATH_MAX : nat := 4096.
Definition MakeDirP (path : bytes) : St Fs Z :=
  match path with
  | [] => mret (-1)
  | c :: path' =>
      if decide (PATH_MAX < length path)%nat then mret (-1)
      else
        let tmp := take (PATH_MAX - 1) (cstr path) in
        r ← (if decide (c = slash) then each_prefix [c] (drop 1 tmp) else each_prefix [] tmp);
        if negb (r =? 0) then mret (-1) else MakeDir path
  end.
End dirutil.

(** ** The object *)

Record FileMgr := {
  path_ : bytes; fp_ : option nat; maxFileSize_ : Z; genFreq_ : Z; yyyymmdd_ : Z; hour_ : Z;
  fileId_ : Z; curPos_ : Z; lastSwitch_ : Z; bApply_ : bool }.
#[export] Instance eta_FileMgr : Eta FileMgr := λ r, {|
  path_ := path_ r; fp_ := fp_ r; maxFileSize_ := maxFileSize_ r; genFreq_ := genFreq_ r;
  yyyymmdd_ := yyyymmdd_ r; hour_ := hour_ r; fileId_ := fileId_ r; curPos_ := curPos_ r;
  lastSwitch_ := lastSwitch_ r; bApply_ := bApply_ r |}.

(** [fileDir/YYYY], [/MM], [/DD], [/HH], and the file. *)
Definition dir_y (fileDir : bytes) (yyyymmdd : Z) : bytes := cstr fileDir ++ [slash] ++ fmt_0d 4 (yyyymmdd ÷ 10000).
Definition dir_m fileDir yyyymmdd := dir_y fileDir yyyymmdd ++ [slash] ++ fmt_0d 2 (Z.rem yyyymmdd 10000 ÷ 100).
Definition dir_d fileDir yyyymmdd := dir_m fileDir yyyymmdd ++ [slash] ++ fmt_0d 2 (Z.rem (Z.rem yyyymmdd 10000) 100).
Definition dir_h fileDir yyyymmdd hour := dir_d fileDir yyyymmdd ++ [slash] ++ fmt_0d 2 hour.
Definition base_name (fileId : Z) (ext : bytes) : bytes := fmt_0d 9 fileId ++ ext.
Definition file_path (fileDir : bytes) (yyyymmdd hour fileId : Z) (ext : bytes) : bytes :=
  dir_h fileDir yyyymmdd hour ++ [slash] ++ base_name fileId ext.
Definition TXT : bytes := lit ".txt".
Definition OK_TXT : bytes := lit "_ok.txt".
Definition BAK_TXT : bytes := lit "_bak.txt".

Section operations.
Context `{Env}.

(** Every look at the clock may show another time. *)
Definition now : St Fs (Z * Z) := t ← gettimeofday; _ ← st_mod (λ fs, fs <| tick ::= S |>); mret t.
Definition time : St Fs Z := '(s, _) ← now; mret s.
Definition file_id (t : tm) (usec : Z) : Z :=
  s32 (tm_hour t * 10000000 + tm_min t * 100000 + tm_sec t * 1000 + usec ÷ 1000).
Definition GenFileId : St Fs Z := '(sec, usec) ← now; mret (file_id (localtime sec) usec).
Definition GenDirId : St Fs (Z * Z) :=
  seconds ← time;
  let t := localtime seconds in
  mret (s32 ((tm_year t + 1900) * 10000 + (tm_mon t + 1) * 100 + tm_mday t), tm_hour t).

(** [filePath] has 256 bytes; [snprintf] gives the length it wanted, so that a long path
    makes the next one write behind the array. *)
Definition GetFilePtr (fileDir : bytes) (yyyymmdd hour fileId : Z) : St Fs (option nat) :=
  if decide (256 < length (dir_h fileDir yyyymmdd hour))%nat then _ ← undefined_behaviour; mret None
  else
    r ← MakeDir (take 255 (dir_y fileDir yyyymmdd));
    if r =? -1 then mret None else
    r ← MakeDir (take 255 (dir_m fileDir yyyymmdd));
    if r =? -1 then mret None else
    r ← MakeDir (take 255 (dir_d fileDir yyyymmdd));
    if r =? -1 then mret None else
    r ← MakeDir (take 255 (dir_h fileDir yyyymmdd hour));
    if r =? -1 then mret None else
    fopen_append (take 255 (file_path fileDir yyyymmdd hour fileId TXT)).

Definition FileMgr_new : St Fs FileMgr :=
  '(yyyymmdd, hour) ← GenDirId;
  fileId ← GenFileId;
  mret {| path_ := []; fp_ := None; maxFileSize_ := 20; genFreq_ := 60; yyyymmdd_ := yyyymmdd; hour_ := hour;
          fileId_ := fileId; curPos_ := 0; lastSwitch_ := 0; bApply_ := false |}.

Definition clamp_size (maxFileSize : Z) : Z :=
  let maxFileSize := if maxFileSize <? 1 then 20 else maxFileSize in if 1000 <? maxFileSize then 20 else maxFileSize.
Definition clamp_freq (genFreq : Z) : Z :=
  let genFreq := if genFreq <? 1 then 60 else genFreq in if 1800 <? genFreq then 60 else genFreq.

Definition ApplyFileInfo (szMainPath : bytes) (maxFileSize genFreq : Z) (self : FileMgr) : St Fs (Z * FileMgr) :=
  if bApply_ self then mret (0, self)
  else
    let self := self <| maxFileSize_ := clamp_size maxFileSize |> <| genFreq_ := clamp_freq genFreq |> <| path_ := szMainPath |> in
    '(yyyymmdd, hour) ← GenDirId;
    fileId ← GenFileId;
    let self := self <| yyyymmdd_ := yyyymmdd |> <| hour_ := hour |> <| fileId_ := fileId |> in
    fp ← GetFilePtr (path_ self) yyyymmdd hour fileId;
    last ← time;
    let self := self <| fp_ := fp |> <| lastSwitch_ := last |> in
    match fp with
    | Some _ => mret (0, self <| bApply_ := true |>)
    | None => mret (-1, self)
    end.

Definition updateGenFreq (freq : Z) (self : FileMgr) : FileMgr := self <| genFreq_ := clamp_freq freq |>.
(** Other bounds than elsewhere. *)
Definition updateMaxFileSize (size : Z) (self : FileMgr) : FileMgr :=
  let size := if size <? 1 then 20 else size in
  self <| maxFileSize_ := if 1024 <? size then 1024 else size |>.

(** The file is closed and renamed; what fails is not looked at. *)
Definition finish_file (self : FileMgr) : St Fs FileMgr :=
  let szCurName := snprintf (file_path (path_ self) (yyyymmdd_ self) (hour_ self) (fileId_ self) TXT) in
  let szOkName := snprintf (file_path (path_ self) (yyyymmdd_ self) (hour_ self) (fileId_ self) OK_TXT) in
  _ ← match fp_ self with Some f => _ ← fflush f; _ ← fclose f; mret () | None => mret () end;
  _ ← renameFile szCurName szOkName;
  mret (self <| fp_ := None |>).

Definition must_switch (force : bool) (yyyymmdd hour : Z) (self : FileMgr) : St Fs bool :=
  if force || negb (yyyymmdd =? yyyymmdd_ self) || ((yyyymmdd =? yyyymmdd_ self) && negb (hour =? hour_ self)) ||
     (s32 (maxFileSize_ self * 1024 * 1024) <=? curPos_ self) then mret true
  else t ← time; mret (genFreq_ self <? t - lastSwitch_ self).
Definition SwitchFile (force : bool) (self : FileMgr) : St Fs FileMgr :=
  if negb (bApply_ self) then mret self
  else
    '(yyyymmdd, hour) ← GenDirId;
    b ← must_switch force yyyymmdd hour self;
    if b : bool then
      fileId ← GenFileId;
      self ← finish_file self;
      fp ← GetFilePtr (path_ self) yyyymmdd hour fileId;
      last ← time;
      mret (self <| fp_ := fp |> <| lastSwitch_ := last |> <| yyyymmdd_ := yyyymmdd |> <| hour_ := hour |>
                 <| fileId_ := fileId |> <| curPos_ := 0 |>)
    else mret self.

Definition CloseCurFile (self : FileMgr) : St Fs FileMgr :=
  if negb (bApply_ self) then mret self
  else
    '(yyyymmdd, hour) ← GenDirId;
    fileId ← GenFileId;
    self ← finish_file self;
    last ← time;
    mret (self <| lastSwitch_ := last |> <| yyyymmdd_ := yyyymmdd |> <| hour_ := hour |> <| fileId_ := fileId |> <| curPos_ := 0 |>).

Definition FileMgr_delete : FileMgr → St Fs FileMgr := CloseCurFile.

Definition WriteToFile (content : bytes) (self : FileMgr) : St Fs (Z * FileMgr) :=
  if negb (bApply_ self) then mret (-1, self)
  else
    self ← SwitchFile false self;
    match fp_ self with
    | Some f =>
        n ← fwrite f content;
        if decide (n = length content) then
          r ← fflush f;
          if r =? -1 then self ← SwitchFile true self; mret (-1, self)
          else mret (0, self <| curPos_ ::= λ p, s32 (p + s32 (Z.of_nat (length content))) |>)
        else self ← SwitchFile true self; mret (-1, self)
    | None => self ← SwitchFile true self; mret (-1, self)
    end.

Definition SwitchToNewFile (self : FileMgr) : St Fs FileMgr := if bApply_ self then SwitchFile false self else mret self.
Definition Close (self : FileMgr) : St Fs FileMgr := self ← CloseCurFile self; mret (self <| bApply_ := false |>).

(** ** Reading back

    [size == static_cast<int>(fread(...) && size > 0)]: the cast is of a truth value. *)
Definition fseek (f : nat) (offset : Z) : St Fs Z :=
  r ← fflush f;
  if (r =? -1) || (offset <? 0) then mret (-1)
  else with_stream f (-1) (λ s, _ ← set_stream f (Some (s <| s_pos := Z.to_nat offset |>)); mret 0).
Definition seek_end (f : nat) : St Fs () :=
  with_stream f () (λ s, fs ← st_get; set_stream f (Some (s <| s_pos := length (default [] (data fs !! s_ino s)) |>))).
(** What was read, if the test succeeds. [fread] of a negative size overruns every buffer. *)
Definition read_at (f : nat) (offset size : Z) : St Fs (option bytes) :=
  r ← fseek f offset;
  if negb (r =? 0) then mret None
  else if size <? 0 then _ ← undefined_behaviour; mret None
  else
    got ← fread f (Z.to_nat size);
    mret (if size =? (if negb (Z.of_nat (length got) =? 0) && (0 <? size) then 1 else 0) then Some got else None).
Definition SearchCurrentFile (yyyymmdd hour fileId offset size : Z) (self : FileMgr) : St Fs (option bytes) :=
  if (yyyymmdd =? yyyymmdd_ self) && (hour =? hour_ self) && (fileId =? fileId_ self) then
    match fp_ self with
    | None => _ ← undefined_behaviour; mret None
    | Some f =>
        r ← read_at f offset size;
        match r with Some got => _ ← seek_end f; mret (Some got) | None => mret None end
    end
  else mret None.
(** [SearchOkFile] and [SearchBakFile] *)
Definition search_file (ext : bytes) (yyyymmdd hour fileId offset size : Z) (self : FileMgr) : St Fs (option bytes) :=
  fp ← fopen_read (snprintf (file_path (path_ self) yyyymmdd hour fileId ext));
  match fp with
  | None => mret None
  | Some f => r ← read_at f offset size; _ ← fclose f; mret r
  end.
Definition SearchOkFile := search_file OK_TXT.
Definition SearchBakFile := search_file BAK_TXT.
Definition ReadFromFile (yyyymmdd hour fileId offset size : Z) (self : FileMgr) : St Fs (Z * option bytes) :=
  if negb (bApply_ self) then mret (0, None)
  else
    r ← SearchCurrentFile yyyymmdd hour fileId offset size self;
    match r with
    | Some got => mret (0, Some got)
    | None =>
        r ← SearchOkFile yyyymmdd hour fileId offset size self;
        match r with
        | Some got => mret (0, Some got)
        | None =>
            r ← SearchBakFile yyyymmdd hour fileId offset size self;
            match r with Some got => mret (0, Some got) | None => mret (-1, None) end
        end
    end.
End operations.

(** ** Sequences of operations *)

Inductive Op :=
  | OpApply (szMainPath : bytes) (maxFileSize genFreq : Z) | OpWrite (content : bytes)
  | OpSwitch | OpClose | OpGenFreq (freq : Z) | OpMaxSize (size : Z).
Section runs.
Context `{Env}.
Definition apply_op (op : Op) (self : FileMgr) : St Fs FileMgr :=
  match op with
  | OpApply p size freq => '(_, self) ← ApplyFileInfo p size freq self; mret self
  | OpWrite content => '(_, self) ← WriteToFile content self; mret self
  | OpSwitch => SwitchToNewFile self
  | OpClose => Close self
  | OpGenFreq freq => mret (updateGenFreq freq self)
  | OpMaxSize size => mret (updateMaxFileSize size self)
  end.
Fixpoint run_ops (ops : list Op) (self : FileMgr) : St Fs FileMgr :=
  match ops with
  | [] => mret self
  | op :: ops' => self ← apply_op op self; run_ops ops' self
  end.
End runs.
End MsgFile.
