(* ===== verification/MsgFileProofs.v ===== *)
(** * What [FileMgr] keeps

    A record that was written stays in a file that has a name, whatever calls fail, as
    long as no two files are begun in the same millisecond of a day. *)

From S2P Require Import Prelude CLib Incommon FileSys UniqueNum WriteFile ReadFile CalmFs Journal MsgFile.
Import FileSys UniqueNum(tm, Build_tm, tm_year, tm_mon, tm_mday, tm_hour, tm_min, tm_sec, tm_ok) WriteFile ReadFile CalmFs Journal MsgFile.

Module MsgFileProofs.

(** ** Names *)

Definition date_ok (yyyymmdd hour : Z) : Prop := 0 <= yyyymmdd < 10 ^ 8 ∧ 0 <= hour < 100.
Definition id_ok (fileId : Z) : Prop := 0 <= fileId < 10 ^ 9.
(** The extensions that the writer uses. *)
Definition is_ext (ext : bytes) : Prop := ext = TXT ∨ ext = OK_TXT.

Lemma plain_0d w z : (slash ∉ fmt_0d w z) ∧ no_nul (fmt_0d w z).
Proof. split; [intros H%fmt_0d_chars; done|]. intros H%fmt_0d_chars. done. Qed.
Lemma plain_ext ext : is_ext ext → (slash ∉ ext) ∧ no_nul ext.
Proof. intros [-> | ->]; split; decide_now. Qed.
Lemma digits_0d w z : 0 <= z → Forall (λ b, is_digit b = true) (fmt_0d w z).
Proof.
  intros Hz. unfold fmt_0d. destruct (Z.ltb_spec z 0); [lia|]. cbn [app]. apply Forall_app. split; [|apply fmt_u_digits; lia].
  apply Forall_replicate. done.
Qed.
Lemma base_name_inj id id' ext ext' :
  0 <= id → 0 <= id' → is_ext ext → is_ext ext' → base_name id ext = base_name id' ext' → id = id' ∧ ext = ext'.
Proof.
  intros Hi Hi' He He' E. unfold base_name in E.
  assert (Hd : ∀ a b c, fmt_0d 9 a = fmt_0d 9 b ++ lit "_" → 0 <= a → c = 0 → False).
  { intros a b c Ea Ha _. pose proof (digits_0d 9 a Ha) as Hd. rewrite Ea in Hd. apply Forall_app in Hd as [_ Hd].
    by apply Forall_cons in Hd as [? _]. }
  assert (Hs : ∀ a b, fmt_0d 9 a ++ TXT = fmt_0d 9 b ++ OK_TXT → 0 <= a → False).
  { intros a b Ea Ha. unfold OK_TXT, TXT in Ea. change (lit "_ok.txt") with (lit "_ok" ++ lit ".txt") in Ea.
    rewrite app_assoc in Ea. apply app_inv_tail in Ea. pose proof (digits_0d 9 a Ha) as Hd'. rewrite Ea in Hd'.
    apply Forall_app in Hd' as [_ Hd']. by apply Forall_cons in Hd' as [? _]. }
  destruct He as [-> | ->], He' as [-> | ->].
  - apply app_inv_tail in E. split; [|done]. rewrite <- (fmt_0d_val 9 id), E by done. by apply fmt_0d_val.
  - by destruct (Hs _ _ E).
  - by destruct (Hs _ _ (eq_sym E)).
  - apply app_inv_tail in E. split; [|done]. rewrite <- (fmt_0d_val 9 id), E by done. by apply fmt_0d_val.
Qed.

(** The last component of a path. *)
Definition last_name (q : path) : option bytes := last q.2.
Lemma last_name_file p ymd hour id ext : is_ext ext →
  last_name (resolve (file_path p ymd hour id ext)) = Some (base_name id ext).
Proof.
  intros He. unfold file_path. destruct (plain_ext ext He) as [Hs _]. destruct (plain_0d 9 id) as [Hs' _].
  rewrite resolve_in_dir.
  - unfold last_name, in_dir. cbn. by rewrite last_snoc.
  - unfold dir_h, dir_d, dir_m, dir_y. intros E. apply (f_equal length) in E. rewrite !length_app in E. cbn in E. lia.
  - unfold base_name. intros E. apply (f_equal length) in E. rewrite length_app in E. destruct He as [-> | ->]; cbn in E; lia.
  - unfold base_name. rewrite elem_of_app. tauto.
Qed.
Lemma dir_h_length p ymd hour : date_ok ymd hour → length (dir_h p ymd hour) = (length (cstr p) + 14)%nat.
Proof.
  intros [Hy Hh]. unfold dir_h, dir_d, dir_m, dir_y. rewrite !length_app.
  rewrite (fmt_0d_length 4), !(fmt_0d_length 2) by (cbn; lia || dlia). cbn. lia.
Qed.
Lemma file_path_length p ymd hour id ext : date_ok ymd hour → id_ok id → is_ext ext →
  (length (file_path p ymd hour id ext) <= length (cstr p) + 31)%nat.
Proof.
  intros Hd Hi He. unfold file_path, base_name. rewrite !length_app, dir_h_length, (fmt_0d_length 9) by (done || lia).
  destruct He as [-> | ->]; cbn; lia.
Qed.
Lemma file_path_no_nul p ymd hour id ext : is_ext ext → no_nul (file_path p ymd hour id ext).
Proof.
  intros He. unfold file_path, base_name, dir_h, dir_d, dir_m, dir_y. rewrite !no_nul_app.
  split_and!; first [apply no_nul_cstr | apply plain_0d | apply (plain_ext ext He) | decide_now].
Qed.

(** The name under which a file is opened or renamed. *)
Definition file_of (self : FileMgr) (ext : bytes) : path :=
  resolve (file_path (path_ self) (yyyymmdd_ self) (hour_ self) (fileId_ self) ext).
Lemma renamed_name p ymd hour id ext :
  (length (cstr p) <= 227)%nat → date_ok ymd hour → id_ok id → is_ext ext →
  cstr (snprintf (file_path p ymd hour id ext)) = file_path p ymd hour id ext.
Proof.
  intros Hp Hd Hi He. pose proof (file_path_length p ymd hour id ext Hd Hi He).
  rewrite snprintf_id by lia. by apply cstr_id, file_path_no_nul.
Qed.

(** ** Calls that change no file and no name *)

Section still.
Context `{Env}.

Lemma still_now : is_still now.
Proof. apply still_of; [|done]. intros fs. split; cbn; eauto. Qed.
Hint Resolve still_now : still.
Lemma still_time : is_still time.
Proof. unfold time. still_tac. Qed.
Hint Resolve still_time : still.
Lemma still_GenFileId : is_still GenFileId.
Proof. unfold GenFileId. still_tac. Qed.
Lemma still_GenDirId : is_still GenDirId.
Proof. unfold GenDirId. still_tac. Qed.
Lemma still_must_switch force ymd hour self : is_still (must_switch force ymd hour self).
Proof. unfold must_switch. still_tac. Qed.
Lemma still_make_missing p : is_still (make_missing p).
Proof. unfold make_missing. still_tac. Qed.
Hint Resolve still_make_missing : still.
Lemma still_msg_mkdirs d r : is_still (MsgFile.mkdirs_loop d r).
Proof. revert d. induction r as [|c r IH]; intros d; cbn [MsgFile.mkdirs_loop]; still_tac. Qed.
Hint Resolve still_msg_mkdirs : still.
Lemma still_MakeDir p : (length (cstr p) < 1024)%nat → is_still (MakeDir p).
Proof. intros Hp. unfold MakeDir, MsgFile.mkdirs. rewrite decide_False by lia. still_tac. Qed.

(** The date is one that fits the names, the id too. *)
Definition good_clock : Prop := (∀ s, tm_ok (localtime s)) ∧ ∀ n, 0 <= (clock n).2 < 1000000.
Lemma GenDirId_wp Q fs : good_clock →
  (∀ ymd hour fs', still fs fs' → date_ok ymd hour → Q (ymd, hour) fs') → wp GenDirId Q fs.
Proof.
  intros [Hc _] HQ. unfold wp, GenDirId, time, now, gettimeofday. st_cbn. destruct (clock (tick fs)) as [s u]. cbn.
  destruct (Hc s) as (? & ? & ? & ? & _).
  apply HQ; [split; [split; cbn; eauto|done]|]. split; [|lia]. rewrite wrap_s_id by (unfold in_s; cbn; lia). cbn. lia.
Qed.
Lemma GenFileId_wp Q fs : good_clock →
  (∀ id fs', still fs fs' → id_ok id → Q id fs') → wp GenFileId Q fs.
Proof.
  intros [Hc Hu] HQ. unfold wp, GenFileId, now, gettimeofday. st_cbn. specialize (Hu (tick fs)).
  destruct (clock (tick fs)) as [s u]. cbn in *. destruct (Hc s) as (_ & _ & _ & ? & ? & ?).
  apply HQ; [split; [split; cbn; eauto|done]|]. unfold id_ok, file_id. rewrite wrap_s_id; [dlia|lia|unfold in_s; cbn; dlia].
Qed.

(** ** Opening and finishing files *)

Lemma wp_and {A} (m : St Fs A) (P Q : A → Fs → Prop) fs : wp m P fs → wp m Q fs → wp m (λ a fs', P a fs' ∧ Q a fs') fs.
Proof. by split. Qed.
Definition named (fs : Fs) (i : nat) : Prop := ∃ q, names fs !! q = Some i.
Lemma fopen_append_names p fs : wp (fopen_append p) (λ r fs',
  (names fs' = names fs ∨ (names fs !! resolve p = None ∧ ∃ i, names fs' = <[resolve p := i]> (names fs))) ∧
  ∀ f, r = Some f → ∃ s, open_stream f s fs' ∧ named fs' (s_ino s)) fs.
Proof.
  unfold wp, fopen_append, new_stream, named, open_stream. st_cbn. case_match; [|by split; [left|]].
  case_match eqn:E; cbn; (split; [by eauto|]); intros f [= <-]; eexists; (split; [by apply list_lookup_middle|]); exists (resolve p); cbn; [done|].
  by rewrite lookup_insert_eq.
Qed.
(** [r] is what opening [q] gave. *)
Record opened (q : path) (fs : Fs) (r : option nat) (fs' : Fs) : Prop := {
  op_ok : fs_ok fs';
  op_grows : grows fs fs';
  op_undefined : undefined fs' = undefined fs;
  op_stream f : r = Some f → ∃ s, open_stream f s fs' ∧ named fs' (s_ino s);
  op_names : names fs' = names fs ∨ (names fs !! q = None ∧ ∃ i, names fs' = <[q := i]> (names fs))
}.
Lemma still_opened q fs fs1 r fs' : still fs fs1 → opened q fs1 r fs' → opened q fs r fs'.
Proof.
  intros [Hq Hn] []. split; [done|by rewrite (quiet_grows _ _ Hq)|by rewrite op_undefined0; apply q_undefined|done|by rewrite <- Hn].
Qed.
Lemma GetFilePtr_wp p ymd hour id Q fs :
  fs_ok fs → (length (cstr p) <= 227)%nat → date_ok ymd hour → id_ok id →
  (∀ r fs', opened (resolve (file_path p ymd hour id TXT)) fs r fs' ∨ (r = None ∧ still fs fs') → Q r fs') →
  wp (GetFilePtr p ymd hour id) Q fs.
Proof.
  intros Hf Hp Hd Hi HQ. unfold GetFilePtr. rewrite decide_False by (rewrite dir_h_length by done; lia).
  assert (Hlen : (length (file_path p ymd hour id TXT) <= 255)%nat).
  { unfold file_path, base_name. rewrite !length_app, dir_h_length, (fmt_0d_length 9) by (done || lia). cbn. lia. }
  rewrite (take_ge (file_path p ymd hour id TXT)) by done.
  assert (Hshort : ∀ d, (length (cstr (take 255 d)) < 1024)%nat).
  { intros d. pose proof (length_cstr (take 255 d)). rewrite length_take in *. lia. }
  assert (Hstep : ∀ d (k : Z → St Fs (option nat)) fs0, still fs fs0 →
    (∀ r fs1, still fs fs1 → wp (k r) Q fs1) → wp (MakeDir (take 255 d) ≫= k) Q fs0).
  { intros d k fs0 H0 Hk. apply wp_bind, wp_still; [apply still_MakeDir, Hshort|]. intros r fs1 H1. apply Hk. by etrans. }
  assert (Hnone : ∀ fs1, still fs fs1 → wp (mret None) Q fs1) by (intros fs1 H1; apply wp_ret, HQ; by right).
  apply Hstep; [done|]. intros r1 fs1 H1. destruct (r1 =? -1); [by apply Hnone|].
  apply Hstep; [done|]. intros r2 fs2 H2. destruct (r2 =? -1); [by apply Hnone|].
  apply Hstep; [done|]. intros r3 fs3 H3. destruct (r3 =? -1); [by apply Hnone|].
  apply Hstep; [done|]. intros r4 fs4 H4. destruct (r4 =? -1); [by apply Hnone|].
  assert (Hok : fs_ok fs4) by (by eapply quiet_ok; [apply H4|]).
  eapply wp_mono; [apply wp_and; [apply (fopen_append_wp _ (λ r fs', fs_ok fs' ∧ grows fs4 fs' ∧ undefined fs' = undefined fs4) fs4 Hok)|apply fopen_append_names]|].
  - by intros r fs' ? ? ? _.
  - cbn beta. intros r fs' [(? & ? & ?) [? ?]]. apply HQ. left. eapply still_opened; [exact H4|by split].
Qed.

(** What finishing a file does to the names. *)
Definition renamed (a b : path) (m m' : gmap path nat) : Prop :=
  m' = m ∨ ∃ i, m !! a = Some i ∧ m' = <[b := i]> (delete a m).
Definition usable_fp (fp : option nat) (fs : Fs) : Prop := ∀ f, fp = Some f → ∃ s, open_stream f s fs ∧ named fs (s_ino s).
Lemma usable_still fp fs fs' : still fs fs' → usable_fp fp fs → usable_fp fp fs'.
Proof. intros [Hq Hn] Ho f Hf. unfold open_stream, named. rewrite (q_streams _ _ Hq), Hn. by apply Ho. Qed.

Lemma close_wp fp Q fs :
  fs_ok fs → usable_fp fp fs →
  (∀ fs', fs_ok fs' → grows fs fs' → names fs' = names fs → undefined fs' = undefined fs → Q () fs') →
  wp (match fp with Some f => _ ← fflush f; _ ← fclose f; mret () | None => mret () end) Q fs.
Proof.
  intros Hf Ho HQ. destruct fp as [f|]; [|by apply wp_ret, HQ]. destruct (Ho f eq_refl) as (s & Hs & _).
  apply wp_bind, (fflush_wp f s); [done|]. intros _ out fs1 Hfl _ Est.
  pose proof Hfl as (_ & _ & En & Eu). assert (Hs1 := open_inserted _ _ _ _ _ Hs Est).
  assert (Hf1 : fs_ok fs1) by (eapply fs_ok_insert; [done|done..|by eapply flushed_length|done|by intros ? [= <-]]).
  apply wp_bind, (fclose_wp f (s <| s_buf := drop (length out) (s_buf s) |>)); [done|]. intros _ out2 fs2 Hfl2 _ Est2.
  pose proof Hfl2 as (_ & _ & En2 & Eu2). apply wp_ret, HQ; [|by etrans; eapply flushed_grows|congruence..].
  eapply fs_ok_insert; [exact Hf1|done..|by eapply flushed_length|done|done].
Qed.
Lemma finish_wp self Q fs :
  fs_ok fs → usable_fp (fp_ self) fs → (length (cstr (path_ self)) <= 227)%nat → date_ok (yyyymmdd_ self) (hour_ self) → id_ok (fileId_ self) →
  (∀ fs', fs_ok fs' → grows fs fs' → undefined fs' = undefined fs →
     renamed (file_of self TXT) (file_of self OK_TXT) (names fs) (names fs') → Q (self <| fp_ := None |>) fs') →
  wp (finish_file self) Q fs.
Proof.
  intros Hf Ho Hp Hd Hi HQ. unfold finish_file. apply wp_bind, close_wp; [done..|]. intros fs1 Hf1 G1 N1 U1.
  apply wp_bind, rename_wp. rewrite !renamed_name by (done || (by left) || by right). intros r fs2 E1 E2 E3 Hr.
  assert (G2 : grows fs1 fs2) by (intros i d Hd'; exists []; by rewrite E1, app_nil_r).
  apply wp_ret, HQ; [|by etrans|congruence|].
  - destruct Hf1 as [O1 O2]. split; [|by rewrite E1, E2]. rewrite E1. intros q i. destruct Hr as [[_ ->]|(_ & j & Hj & ->)]; [apply O1|].
    rewrite lookup_insert_Some, lookup_delete_Some. intros [[_ <-]|(_ & _ & Hq)]; [by eapply O1|by eapply O1].
  - destruct Hr as [[_ ->]|(_ & j & Hj & ->)]; [by left|right]. exists j. rewrite <- N1. done.
Qed.

(** ** The invariant *)

(** The ids of the files that an operation begins. *)
Definition switch_ids (force : bool) (self : FileMgr) (fs : Fs) : list Z :=
  if bApply_ self then
    let '((ymd, hour), fs1) := GenDirId fs in
    let '(b, fs2) := must_switch force ymd hour self fs1 in
    if b : bool then [(GenFileId fs2).1] else []
  else [].
Definition write_ids (content : bytes) (self : FileMgr) (fs : Fs) : list Z :=
  if bApply_ self then
    switch_ids false self fs ++
    (let '(self1, fs1) := SwitchFile false self fs in
     match fp_ self1 with
     | Some f =>
         let '(n, fs2) := fwrite f content fs1 in
         if decide (n = length content) then
           let '(r, fs3) := fflush f fs2 in if r =? -1 then switch_ids true self1 fs3 else []
         else switch_ids true self1 fs2
     | None => switch_ids true self1 fs1
     end)
  else [].
Definition apply_ids (self : FileMgr) (fs : Fs) : list Z :=
  if bApply_ self then [] else let '(_, fs1) := GenDirId fs in [(GenFileId fs1).1].
Definition op_ids (op : MsgFile.Op) (self : FileMgr) (fs : Fs) : list Z :=
  match op with
  | OpApply _ _ _ => apply_ids self fs
  | OpWrite content => write_ids content self fs
  | OpSwitch => switch_ids false self fs
  | _ => []
  end.
Fixpoint run_ids (ops : list MsgFile.Op) (self : FileMgr) (fs : Fs) : list Z :=
  match ops with
  | [] => []
  | op :: ops' => op_ids op self fs ++ let '(self', fs') := MsgFile.apply_op op self fs in run_ids ops' self' fs'
  end.

(** No file has a name that a file of id [id] can have. *)
Definition free_id (m : gmap path nat) (id : Z) : Prop :=
  ∀ q ext, is_Some (m !! q) → is_ext ext → last_name q ≠ Some (base_name id ext).
(** Files with the ids [S] are still to come. *)
Record minv (S : list Z) (self : FileMgr) (fs : Fs) : Prop := {
  m_fs : fs_ok fs;
  m_defined : undefined fs = false;
  m_path : (length (cstr (path_ self)) <= 227)%nat;
  m_open : usable_fp (fp_ self) fs;
  m_nodup : NoDup S;
  m_ids : Forall (λ id, 0 <= id) S;
  m_free : Forall (free_id (names fs)) S;
  m_cur : bApply_ self = true → date_ok (yyyymmdd_ self) (hour_ self) ∧ id_ok (fileId_ self) ∧ (fileId_ self ∉ S) ∧
    ∀ q, is_Some (names fs !! q) → last_name q ≠ Some (base_name (fileId_ self) OK_TXT)
}.
(** Contents grow, and a file that has a name keeps one. *)
Definition mkept (fs fs' : Fs) : Prop := grows fs fs' ∧ ∀ i, named fs i → named fs' i.
#[export] Instance mkept_preorder : PreOrder mkept.
Proof. split; [by split|]. intros a b c [G1 N1] [G2 N2]. split; [by etrans|auto]. Qed.
Lemma still_mkept fs fs' : still fs fs' → mkept fs fs'.
Proof. intros [Hq Hn]. split; [by apply quiet_grows|]. unfold named. by rewrite Hn. Qed.
Lemma still_minv S self fs fs' : still fs fs' → minv S self fs → minv S self fs'.
Proof.
  intros Hs []. pose proof Hs as [Hq Hn]. split; rewrite ?Hn; try done; [by eapply quiet_ok|by rewrite (q_undefined _ _ Hq)|].
  by eapply usable_still.
Qed.
Lemma minv_weaken S1 S2 self fs : minv (S1 ++ S2) self fs → minv S2 self fs.
Proof.
  intros []. split; try done; [by apply NoDup_app in m_nodup0 as (_ & _ & ?)|by apply Forall_app in m_ids0 as [_ ?]|by apply Forall_app in m_free0 as [_ ?]|].
  intros Hb. destruct (m_cur0 Hb) as (? & ? & Hc & ?). split_and!; [done..| |done]. intros Hi. apply Hc. apply elem_of_app. by right.
Qed.

(** The names after the current file was finished. *)
Lemma names_finish S self fs fs1 :
  minv S self fs → bApply_ self = true → renamed (file_of self TXT) (file_of self OK_TXT) (names fs) (names fs1) →
  Forall (free_id (names fs1)) S ∧ ∀ i, named fs i → named fs1 i.
Proof.
  intros HI Hb Hren. destruct (m_cur _ _ _ HI Hb) as (_ & [Hold _] & Hni & Hok).
  pose proof (m_free _ _ _ HI) as Hfree. pose proof (m_ids _ _ _ HI) as Hids.
  destruct Hren as [E|(j & Hj & E)]; [by rewrite E; unfold named; rewrite E|]. split.
  - rewrite Forall_forall in Hfree, Hids |- *. intros id Hid q ext [i Hq] Hext Hl. rewrite E in Hq.
    apply lookup_insert_Some in Hq as [[<- _]|[_ [_ Hq]%lookup_delete_Some]]; [|by eapply (Hfree id Hid q)].
    unfold file_of in Hl. rewrite last_name_file in Hl by by right. injection Hl as Hl.
    apply base_name_inj in Hl as [E' _]; [|done|by apply Hids|by right|done]. apply Hni. by rewrite E'.
  - intros i [q Hq]. destruct (decide (q = file_of self TXT)) as [->|Hne].
    + exists (file_of self OK_TXT). rewrite E, lookup_insert_eq. congruence.
    + exists q. rewrite E, lookup_insert_ne, lookup_delete_ne; [done|done|].
      intros <-. apply (Hok (file_of self OK_TXT)); [eauto|apply last_name_file; by right].
Qed.
(** The names after a new file of id [id] was begun. *)
Lemma names_begin S id p ymd hour self fs fs1 r fs2 :
  minv (id :: S) self fs → id_ok id →
  names fs1 = names fs ∨ (bApply_ self = true ∧ renamed (file_of self TXT) (file_of self OK_TXT) (names fs) (names fs1)) →
  opened (resolve (file_path p ymd hour id TXT)) fs1 r fs2 ∨ (r = None ∧ still fs1 fs2) →
  Forall (free_id (names fs2)) S ∧ (∀ q, is_Some (names fs2 !! q) → last_name q ≠ Some (base_name id OK_TXT)) ∧
  ∀ i, named fs i → named fs2 i.
Proof.
  intros HI Hid Hren Hop.
  assert (Hkeys1 : ∀ q, is_Some (names fs1 !! q) → is_Some (names fs !! q) ∨
    (bApply_ self = true ∧ last_name q = Some (base_name (fileId_ self) OK_TXT))).
  { intros q Hq. destruct Hren as [E|[Hb [E|(j & Hj & E)]]]; rewrite E in Hq; [by left|by left|].
    destruct Hq as [i Hq]. apply lookup_insert_Some in Hq as [[<- _]|[_ Hq]].
    - right. split; [done|]. apply last_name_file. by right.
    - apply lookup_delete_Some in Hq as [_ Hq]. eauto. }
  assert (Hkeys : ∀ q, is_Some (names fs2 !! q) → is_Some (names fs !! q) ∨
    (bApply_ self = true ∧ last_name q = Some (base_name (fileId_ self) OK_TXT)) ∨ last_name q = Some (base_name id TXT)).
  { intros q Hq. assert (names fs2 = names fs1 ∨ ∃ i, names fs2 = <[resolve (file_path p ymd hour id TXT) := i]> (names fs1)) as [E|[i E]].
    { destruct Hop as [[]|[_ [_ ->]]]; [|by left]. destruct op_names0 as [->|[_ ?]]; [by left|by right]. }
    - rewrite E in Hq. apply Hkeys1 in Hq. tauto.
    - rewrite E in Hq. destruct Hq as [j Hq]. apply lookup_insert_Some in Hq as [[<- _]|[_ Hq]].
      + right; right. apply last_name_file. by left.
      + destruct (Hkeys1 q); [eauto|tauto..]. }
  pose proof (m_free _ _ _ HI) as Hfree. apply Forall_cons in Hfree as [Hfid Hfree].
  pose proof (m_ids _ _ _ HI) as Hids. apply Forall_cons in Hids as [_ Hids].
  pose proof (m_nodup _ _ _ HI) as Hnd. apply NoDup_cons in Hnd as [Hnid _].
  destruct Hid as [Hid _].
  split_and!.
  - apply Forall_forall. intros id' Hid' q ext Hq Hext Hl. rewrite Forall_forall in Hfree, Hids.
    destruct (Hkeys q Hq) as [Hq'|[[Hb Hq']|Hq']]; [by apply (Hfree id' Hid' q ext)|..]; rewrite Hq' in Hl; injection Hl as Hl.
    + destruct (m_cur _ _ _ HI Hb) as (_ & [Hold _] & Hni & _).
      apply base_name_inj in Hl as [E _]; [|done|by apply Hids|by right|done]. apply Hni. rewrite E. by right.
    + apply base_name_inj in Hl as [-> _]; [done|done|by apply Hids|by left|done].
  - intros q Hq Hl. destruct (Hkeys q Hq) as [Hq'|[[Hb Hq']|Hq']]; [by apply (Hfid q OK_TXT Hq'); [right|]|..]; rewrite Hq' in Hl; injection Hl as Hl.
    + destruct (m_cur _ _ _ HI Hb) as (_ & [Hold _] & Hni & _).
      apply base_name_inj in Hl as [E _]; [|done|done|by right|by right]. apply Hni. rewrite E. by left.
    + apply base_name_inj in Hl as [_ Hl]; [done|done|done|by left|by right].
  - intros i [q Hq]. assert (named fs1 i) as [q1 Hq1].
    { destruct Hren as [E|[Hb Hren]]; [by exists q; rewrite E|].
      destruct (names_finish _ _ _ _ HI Hb Hren) as [_ Hn]. apply Hn. by exists q. }
    destruct Hop as [[]|[_ [_ E]]]; [|by exists q1; rewrite E]. destruct op_names0 as [E|[Hn [j E]]]; exists q1; rewrite E; [done|].
    rewrite lookup_insert_ne; [done|]. by intros <-; rewrite Hn in Hq1.
Qed.

(** ** The operations *)

Lemma wp_bind_eq {A B} (m : St Fs A) (k : A → St Fs B) a Q fs fs1 : m fs = (a, fs1) → wp (k a) Q fs1 → wp (m ≫= k) Q fs.
Proof. intros E Hk. unfold wp. by rewrite st_bind_run, E. Qed.
Lemma still_eq {A} (m : St Fs A) a fs fs' : is_still m → m fs = (a, fs') → still fs fs'.
Proof. intros Hm E. specialize (Hm fs). by rewrite E in Hm. Qed.
Lemma grows_kept fs fs' : names fs' = names fs → data fs' = data fs → mkept fs fs'.
Proof. intros En Ed. split; [intros i d Hi; exists []; by rewrite Ed, app_nil_r|]. unfold named. by rewrite En. Qed.

Lemma switch_wp force self S Q fs :
  good_clock → minv (switch_ids force self fs ++ S) self fs →
  (∀ self' fs', minv S self' fs' → mkept fs fs' → Q self' fs') →
  wp (SwitchFile force self) Q fs.
Proof.
  intros Hc HI HQ. unfold SwitchFile. destruct (bApply_ self) eqn:Hb; cbn [negb]; [|apply wp_ret, HQ; [by eapply minv_weaken|done]].
  unfold switch_ids in HI. rewrite Hb in HI.
  destruct (GenDirId fs) as [[ymd hour] fs1] eqn:E1. eapply wp_bind_eq; [exact E1|].
  destruct (wp_run _ (λ r fs', still fs fs' ∧ date_ok r.1 r.2) _ _ _ E1) as [S1 Hd]; [by apply GenDirId_wp|].
  destruct (must_switch force ymd hour self fs1) as [b fs2] eqn:E2. eapply wp_bind_eq; [exact E2|].
  pose proof (still_eq _ _ _ _ (still_must_switch _ _ _ _) E2) as S2. assert (S02 : still fs fs2) by (by etrans).
  destruct b; [|apply wp_ret, HQ; [by eapply still_minv|by apply still_mkept]].
  destruct (GenFileId fs2) as [id fs3] eqn:E3. eapply wp_bind_eq; [exact E3|].
  destruct (wp_run _ (λ r fs', still fs2 fs' ∧ id_ok r) _ _ _ E3) as [S3 Hid]; [by apply GenFileId_wp|]. cbn [fst app] in HI, Hd.
  assert (S03 : still fs fs3) by (by etrans). pose proof (still_minv _ _ _ _ S03 HI) as HI3.
  destruct (m_cur _ _ _ HI3 Hb) as (Hd0 & Hi0 & _ & _).
  apply wp_bind, finish_wp; [apply HI3|apply HI3|apply HI3|done|done|]. intros fs4 O4 G4 U4 Hren.
  apply wp_bind, GetFilePtr_wp; [done|apply HI3|done|done|]. intros fp fs5 Hop.
  apply wp_bind, wp_still; [apply still_time|]. intros last fs6 S6. apply wp_ret.
  destruct (names_begin _ _ _ _ _ _ _ _ _ _ HI3 Hid (or_intror (conj Hb Hren)) Hop) as (F1 & F2 & F3).
  pose proof (m_nodup _ _ _ HI3) as Hnd. apply NoDup_cons in Hnd as [Hni Hnd].
  pose proof (m_ids _ _ _ HI3) as Hids. apply Forall_cons in Hids as [_ Hids].
  assert (Hrest : fs_ok fs5 ∧ grows fs4 fs5 ∧ undefined fs5 = undefined fs4 ∧ usable_fp fp fs5).
  { destruct Hop as [Hop|[-> S5]]; [destruct Hop; by split_and!|]. destruct S5 as [Q5 _].
    split_and!; [by eapply quiet_ok|by apply quiet_grows|by apply q_undefined|done]. }
  destruct Hrest as (O5 & G5 & U5 & P5). apply HQ.
  - apply (still_minv _ _ fs5); [done|]. split; cbn; [done|rewrite U5, U4; apply HI3|apply HI3|done|done|done|done|]. intros _. cbn in Hd. by split_and!.
  - etrans; [by apply still_mkept|]. etrans; [|by apply still_mkept]. split; [by etrans|exact F3].
Qed.

Lemma fwrite_minv S self f content Q fs :
  minv S self fs → fp_ self = Some f →
  (∀ taken fs' s0, minv S self fs' → mkept fs fs' → taken `prefix_of` content → open_stream f s0 fs →
     open_stream f (s0 <| s_buf ::= (.++ taken) |>) fs' → data fs' = data fs → Q (length taken) fs') →
  wp (fwrite f content) Q fs.
Proof.
  intros HI Hf HQ. destruct (m_open _ _ _ HI f Hf) as (s & Hs & Hn). apply (fwrite_wp f content s); [done|].
  intros taken fs' Ht E1 E2 E3 E4. assert (Hs' := open_inserted _ _ _ _ _ Hs E4).
  apply (HQ taken fs' s); [|by apply grows_kept|done|done|done|done].
  destruct HI. split; rewrite ?E2, ?E3; try done; [eapply fs_ok_insert; [done|exact Hs|done|by rewrite E1|exact E4|by intros ? [= <-]]|].
  intros f'. rewrite Hf. intros [= <-]. eexists. split; [exact Hs'|]. unfold named. by rewrite E2.
Qed.
(** Flushing, with what reached the file. *)
Lemma fflush_minv S self f s Q fs :
  minv S self fs → fp_ self = Some f → open_stream f s fs →
  (∀ r fs', minv S self fs' → mkept fs fs' → (r = -1 ∨ r = 0 ∧ data fs' = alter (.++ s_buf s) (s_ino s) (data fs) ∧
     open_stream f (s <| s_buf := [] |>) fs') → Q r fs') →
  wp (fflush f) Q fs.
Proof.
  intros HI Hf Hs HQ. apply (fflush_wp f s); [done|]. intros r out fs' Hfl Hr Est.
  pose proof Hfl as (_ & Ed & En & Eu). assert (Hs' := open_inserted _ _ _ _ _ Hs Est). apply HQ.
  - destruct HI. split; rewrite ?En, ?Eu; try done; [eapply fs_ok_insert; [done|exact Hs|done|by eapply flushed_length|exact Est|by intros ? [= <-]]|].
    intros f'. rewrite Hf. intros [= <-]. destruct (m_open0 f Hf) as (s1 & Hs1 & Hn1). eexists. split; [exact Hs'|].
    assert (s1 = s) as -> by (unfold open_stream in *; congruence). unfold named. by rewrite En.
  - split; [by eapply flushed_grows|]. unfold named. by rewrite En.
  - destruct Hr as [[-> ->]| ->]; [right|by left]. split_and!; [done|done|]. by rewrite drop_all in Hs'.
Qed.

(** The record stands in the current file, which has a name if the file had one before. *)
Definition written (content : bytes) (fs : Fs) (fs' : Fs) : Prop := ∃ i d, named fs' i ∧
  data fs' !! i = Some (d ++ content) ∧ ∀ d0, data fs !! i = Some d0 → d0 `prefix_of` d.

Lemma write_wp content self S Q fs :
  good_clock → minv (write_ids content self fs ++ S) self fs →
  (∀ r self' fs', minv S self' fs' → mkept fs fs' → (r = 0 → written content fs fs') → Q (r, self') fs') →
  wp (WriteToFile content self) Q fs.
Proof.
  intros Hc HI HQ. unfold WriteToFile. unfold write_ids in HI.
  destruct (bApply_ self) eqn:Hb; cbn [negb]; [|by apply wp_ret, HQ].
  rewrite <- app_assoc in HI. destruct (SwitchFile false self fs) as [self1 fs1] eqn:E1.
  eapply wp_bind_eq; [exact E1|].
  match type of HI with minv (_ ++ ?X) _ _ =>
    destruct (wp_run _ (λ s' fs', minv X s' fs' ∧ mkept fs fs') _ _ _ E1) as [I1 K1] end.
  { apply (switch_wp _ _ _ _ _ Hc HI). by intros. }
  assert (Hforce : ∀ fs2, mkept fs fs2 → minv (switch_ids true self1 fs2 ++ S) self1 fs2 →
    wp (self2 ← SwitchFile true self1; mret (-1, self2)) Q fs2).
  { intros fs2 K2 I2. apply wp_bind, (switch_wp true self1 S); [done|done|]. intros self2 fs3 I3 K3.
    apply wp_ret, HQ; [done|by etrans|done]. }
  destruct (fp_ self1) as [f|] eqn:Hf; [|by apply Hforce].
  destruct (fwrite f content fs1) as [n fs2] eqn:E2. eapply wp_bind_eq; [exact E2|].
  match type of I1 with minv ?X _ _ =>
    destruct (wp_run _ (λ n fs', ∃ taken s0, n = length taken ∧ minv X self1 fs' ∧ mkept fs1 fs' ∧ taken `prefix_of` content ∧
      open_stream f s0 fs1 ∧ open_stream f (s0 <| s_buf ::= (.++ taken) |>) fs' ∧ data fs' = data fs1) _ _ _ E2)
      as (taken & s0 & -> & I2 & K2 & Ht & Hs0 & Hs & Ed) end.
  { apply (fwrite_minv _ _ _ _ _ _ I1 Hf). intros taken fs' s0 ? ? ? ? ? ?. by exists taken, s0. }
  assert (K02 : mkept fs fs2) by (by etrans). clear E2.
  case_decide as Hn; [|by apply Hforce].
  assert (taken = content) as -> by (destruct Ht as [rest ->]; rewrite length_app in Hn; destruct rest; [by rewrite app_nil_r|cbn in Hn; lia]).
  destruct (fflush f fs2) as [r fs3] eqn:E3. eapply wp_bind_eq; [exact E3|].
  match type of I2 with minv ?X _ _ =>
    destruct (wp_run _ (λ r fs', minv X self1 fs' ∧ mkept fs2 fs' ∧ (r = -1 ∨ r = 0 ∧ data fs' = alter (.++ (s_buf s0 ++ content)) (s_ino s0) (data fs2) ∧
      open_stream f (s0 <| s_buf := [] |>) fs')) _ _ _ E3) as (I3 & K3 & Hr) end.
  { apply (fflush_minv _ _ _ _ _ _ I2 Hf Hs). intros r' fs' ? ? Hr'. split_and!; [done|done|]. destruct Hr' as [|(? & ? & ?)]; [by left|by right]. }
  assert (K03 : mkept fs fs3) by (by etrans).
  destruct (Z.eqb_spec r (-1)) as [->|Hne]; [by apply Hforce|]. destruct Hr as [|(-> & Ed3 & Hs3)]; [done|].
  apply wp_ret, HQ; [|done|].
  - apply minv_weaken in I3. destruct I3. by split.
  - intros _. destruct (lookup_lt_is_Some_2 (data fs1) (s_ino s0)) as [d Hd]; [by eapply ok_streams; [apply I1|]|].
    exists (s_ino s0), (d ++ s_buf s0). split_and!.
    + destruct (m_open _ _ _ I3 f Hf) as (s3 & Hs3' & Hn3). assert (s3 = s0 <| s_buf := [] |>) as -> by (unfold open_stream in *; congruence).
      exact Hn3.
    + rewrite Ed3, Ed, list_lookup_alter_eq, Hd. cbn. by rewrite app_assoc.
    + intros d0 Hd0. destruct K1 as [G1 _]. destruct (G1 _ _ Hd0) as (e & He). rewrite He in Hd. injection Hd as <-.
      rewrite <- app_assoc. by apply prefix_app_r.
Qed.

Lemma apply_wp p size freq self S Q fs :
  good_clock → (length (cstr p) <= 227)%nat → minv (apply_ids self fs ++ S) self fs →
  (∀ r self' fs', minv S self' fs' → mkept fs fs' → Q (r, self') fs') → wp (ApplyFileInfo p size freq self) Q fs.
Proof.
  intros Hc Hp HI HQ. unfold ApplyFileInfo. unfold apply_ids in HI. destruct (bApply_ self) eqn:Hb; [by apply wp_ret, HQ|].
  destruct (GenDirId fs) as [[ymd hour] fs1] eqn:E1. eapply wp_bind_eq; [exact E1|].
  destruct (wp_run _ (λ r fs', still fs fs' ∧ date_ok r.1 r.2) _ _ _ E1) as [S1 Hd]; [by apply GenDirId_wp|].
  destruct (GenFileId fs1) as [id fs2] eqn:E2. eapply wp_bind_eq; [exact E2|].
  destruct (wp_run _ (λ r fs', still fs1 fs' ∧ id_ok r) _ _ _ E2) as [S2 Hid]; [by apply GenFileId_wp|]. cbn [fst app] in HI, Hd.
  assert (S02 : still fs fs2) by (by etrans). pose proof (still_minv _ _ _ _ S02 HI) as HI2.
  apply wp_bind, GetFilePtr_wp; [apply HI2|done|done|done|]. cbn [path_]. intros fp fs3 Hop.
  apply wp_bind, wp_still; [apply still_time|]. intros last fs4 S4.
  pose proof (m_nodup _ _ _ HI2) as Hnd. apply NoDup_cons in Hnd as [Hni Hnd].
  pose proof (m_ids _ _ _ HI2) as Hids. apply Forall_cons in Hids as [_ Hids].
  destruct (names_begin _ _ _ _ _ _ _ _ _ _ HI2 Hid (or_introl eq_refl) Hop) as (F1 & F2 & F3).
  assert (Hrest : fs_ok fs3 ∧ mkept fs2 fs3 ∧ undefined fs3 = undefined fs2 ∧ usable_fp fp fs3).
  { destruct Hop as [Hop|[-> S3]].
    - destruct Hop. by split_and!.
    - split_and!; [eapply quiet_ok; [apply S3|apply HI2]|by apply still_mkept|apply q_undefined, S3|done]. }
  destruct Hrest as (O3 & K3 & U3 & P3).
  assert (K04 : mkept fs fs4) by (etrans; [by apply still_mkept|]; etrans; [exact K3|by apply still_mkept]).
  destruct fp as [f|]; apply wp_ret, HQ; try done; apply (still_minv _ _ fs3); try done.
  - split; cbn; [done|rewrite U3; apply HI2|done|done|done|done|done|]. intros _. cbn in Hd. split_and!; done.
  - split; cbn; [done|rewrite U3; apply HI2|done|done|done|done|done|]. by rewrite Hb.
Qed.

Lemma Close_wp self S Q fs :
  good_clock → minv S self fs → (∀ self' fs', minv S self' fs' → mkept fs fs' → Q self' fs') → wp (Close self) Q fs.
Proof.
  intros Hc HI HQ. unfold Close, CloseCurFile. apply wp_bind. destruct (bApply_ self) eqn:Hb; cbn [negb].
  - apply wp_bind, GenDirId_wp; [done|]. intros ymd hour fs1 S1 _. apply wp_bind, GenFileId_wp; [done|]. intros id fs2 S2 _.
    assert (S02 : still fs fs2) by (by etrans). pose proof (still_minv _ _ _ _ S02 HI) as HI2.
    destruct (m_cur _ _ _ HI2 Hb) as (Hd0 & Hi0 & _ & _).
    apply wp_bind, finish_wp; [apply HI2|apply HI2|apply HI2|done|done|]. intros fs3 O3 G3 U3 Hren.
    destruct (names_finish _ _ _ _ HI2 Hb Hren) as [F1 F2].
    apply wp_bind, wp_still; [apply still_time|]. intros last fs4 S4. apply wp_ret, wp_ret, HQ.
    + apply (still_minv _ _ fs3); [done|]. destruct HI2. split; cbn; try done. by rewrite U3.
    + etrans; [by apply still_mkept|]. etrans; [|by apply still_mkept]. by split.
  - apply wp_ret, wp_ret, HQ; [|done]. destruct HI. by split.
Qed.

(** Paths are short enough for the array of [GetFilePtr]. *)
Definition op_fits (op : MsgFile.Op) : Prop := match op with OpApply p _ _ => (length (cstr p) <= 227)%nat | _ => True end.
Lemma op_wp op self S Q fs :
  good_clock → op_fits op → minv (op_ids op self fs ++ S) self fs →
  (∀ self' fs', minv S self' fs' → mkept fs fs' → Q self' fs') → wp (MsgFile.apply_op op self) Q fs.
Proof.
  intros Hc Hf HI HQ. destruct op as [p size freq|content| | |freq|size]; cbn [MsgFile.apply_op op_ids app] in *.
  - apply wp_bind, (apply_wp _ _ _ _ S); [done|done|done|]. intros r self' fs' ? ?. by apply wp_ret, HQ.
  - apply wp_bind, (write_wp _ _ S); [done|done|]. intros r self' fs' ? ? _. by apply wp_ret, HQ.
  - unfold SwitchToNewFile. destruct (bApply_ self) eqn:Hb; [by apply (switch_wp false self S)|].
    apply wp_ret, HQ; [|done]. by eapply minv_weaken.
  - by apply (Close_wp self S).
  - apply wp_ret, HQ; [|done]. destruct HI. by split.
  - apply wp_ret, HQ; [|done]. destruct HI. by split.
Qed.
Lemma run_wp ops self S Q fs :
  good_clock → Forall op_fits ops → minv (run_ids ops self fs ++ S) self fs →
  (∀ self' fs', minv S self' fs' → mkept fs fs' → Q self' fs') → wp (MsgFile.run_ops ops self) Q fs.
Proof.
  intros Hc. revert self Q fs. induction ops as [|op ops IH]; intros self Q fs Hf HI HQ; cbn [MsgFile.run_ops run_ids] in *; [by apply wp_ret, HQ|].
  apply Forall_cons in Hf as [Hop Hf]. rewrite <- app_assoc in HI.
  destruct (MsgFile.apply_op op self fs) as [self1 fs1] eqn:E. eapply wp_bind_eq; [exact E|].
  destruct (wp_run _ (λ s' fs', minv (run_ids ops self1 fs1 ++ S) s' fs' ∧ mkept fs fs') _ _ _ E) as [I1 K1].
  { eapply op_wp; [done|done|exact HI|]. by split. }
  apply IH; [done|done|]. intros self' fs' ? K2. apply HQ; [done|by etrans].
Qed.

Lemma run_ids_app ops1 ops2 self fs :
  run_ids (ops1 ++ ops2) self fs =
  run_ids ops1 self fs ++ let '(self', fs') := MsgFile.run_ops ops1 self fs in run_ids ops2 self' fs'.
Proof.
  revert self fs. induction ops1 as [|op ops IH]; intros self fs; [done|]. cbn [app run_ids MsgFile.run_ops].
  rewrite st_bind_run. destruct (MsgFile.apply_op op self fs) as [self1 fs1]. by rewrite IH, app_assoc.
Qed.
Lemma run_ids_write content ops self fs :
  run_ids (OpWrite content :: ops) self fs =
  write_ids content self fs ++ let '((_, self'), fs') := WriteToFile content self fs in run_ids ops self' fs'.
Proof. cbn [run_ids op_ids MsgFile.apply_op]. rewrite st_bind_run. by destruct (WriteToFile content self fs) as [[r self'] fs']. Qed.
Lemma new_minv S fs :
  fs_ok fs → undefined fs = false → NoDup S → Forall (λ id, 0 <= id ∧ free_id (names fs) id) S →
  wp FileMgr_new (λ self0 fs0, minv S self0 fs0) fs.
Proof.
  intros Hf Hu Hnd Hids. apply Forall_and in Hids as [Hids Hfree]. unfold FileMgr_new.
  apply wp_bind, wp_still; [apply still_GenDirId|]. intros [ymd hour] fs1 S1. apply wp_bind, wp_still; [apply still_GenFileId|].
  intros id fs2 S2. apply wp_ret, (still_minv _ _ fs); [by etrans|]. split; try done. apply Nat.le_0_l.
Qed.

(** C7: A record that [WriteToFile] has accepted is not lost: after any operations on a
    [FileMgr] a write that returns 0 puts the record, flushed, behind what its file held;
    the file has a name then and after any further operations, and the record is still in
    it; no operation uses a closed stream or overruns an array. For any failures of the
    system, paths of at most 227 bytes, and if no two files are begun in the same
    millisecond of a day nor named as a file that was there before. *)
Theorem messages_durable ops1 content ops2 fs :
  good_clock → fs_ok fs → undefined fs = false → Forall op_fits (ops1 ++ ops2) →
  let '(self0, fs0) := FileMgr_new fs in
  let ids := run_ids (ops1 ++ OpWrite content :: ops2) self0 fs0 in
  NoDup ids → Forall (λ id, 0 <= id ∧ free_id (names fs) id) ids →
  let '(self1, fs1) := MsgFile.run_ops ops1 self0 fs0 in
  let '((r, self2), fs2) := WriteToFile content self1 fs1 in
  let '(self3, fs3) := MsgFile.run_ops ops2 self2 fs2 in
  undefined fs3 = false ∧
  (r = 0 → ∃ q i d e, names fs3 !! q = Some i ∧ data fs3 !! i = Some (d ++ content ++ e) ∧
                      ∀ d0, data fs1 !! i = Some d0 → d0 `prefix_of` d).
Proof.
  intros Hc Hok Hu Hfit. destruct (FileMgr_new fs) as [self0 fs0] eqn:E0. intros ids Hnd Hfree. subst ids.
  pose proof (wp_run _ _ _ _ _ E0 (new_minv _ fs Hok Hu Hnd Hfree)) as I0. apply Forall_app in Hfit as [Hf1 Hf2].
  rewrite run_ids_app in I0. destruct (MsgFile.run_ops ops1 self0 fs0) as [self1 fs1] eqn:E1.
  match type of I0 with minv (_ ++ ?X) _ _ => destruct (wp_run _ (λ s' fs', minv X s' fs' ∧ mkept fs0 fs') _ _ _ E1) as [I1 K1] end.
  { by apply (run_wp _ _ _ _ _ Hc Hf1 I0). }
  rewrite run_ids_write in I1. destruct (WriteToFile content self1 fs1) as [[r self2] fs2] eqn:E2.
  match type of I1 with minv (_ ++ ?X) _ _ =>
    destruct (wp_run _ (λ p fs', minv X p.2 fs' ∧ (p.1 = 0 → written content fs1 fs')) _ _ _ E2) as [I2 Hw] end.
  { apply (write_wp _ _ _ _ _ Hc I1). by intros. }
  cbn [fst snd] in I2, Hw. rewrite <- (app_nil_r (run_ids _ _ _)) in I2.
  destruct (MsgFile.run_ops ops2 self2 fs2) as [self3 fs3] eqn:E3.
  destruct (wp_run _ (λ s' fs', minv [] s' fs' ∧ mkept fs2 fs') _ _ _ E3) as [I3 [G3 N3]].
  { by apply (run_wp _ _ _ _ _ Hc Hf2 I2). }
  split; [apply I3|]. intros Hr. destruct (Hw Hr) as (i & d & Hn & Hd & Hp). destruct (N3 i Hn) as [q Hq].
  destruct (G3 _ _ Hd) as [e He]. exists q, i, d, e. split; [done|]. split; [by rewrite He, <- app_assoc|done].
Qed.
End still.

(** ** Samples *)

(** The clock advances by a millisecond with every look at it, and the writes after [bad]
    calls fail when [bad] is set. *)
Definition ms_clock (bad : option (Call * nat * nat)) : Env := {|
  fault := @fault (env_with bad); clock := λ n, (1000, (Z.of_nat n mod 1000) * 1000);
  localtime := @localtime calm_env; listing := @listing calm_env; exe := None |}.
Lemma ms_clock_good bad : good_clock (H := ms_clock bad).
Proof. split; [intros s; cbn; decide_now|]. intros n. cbn. pose proof (Z.mod_pos_bound (Z.of_nat n) 1000). lia. Qed.

Definition failing_write : Env := ms_clock (Some (Fwrite, 47, 1)%nat).
Lemma messages_durable_witness :
  let '(self0, fs0) := FileMgr_new (H := failing_write) Fs_new in
  let '(self1, fs1) := MsgFile.run_ops (H := failing_write) [OpApply (lit "/data") 20 60; OpWrite (lit "one")] self0 fs0 in
  let '((r, self2), fs2) := WriteToFile (H := failing_write) (lit "two") self1 fs1 in
  let '(self3, fs3) := MsgFile.run_ops (H := failing_write) [OpWrite (lit "three"); OpWrite (lit "four"); OpClose] self2 fs2 in
  undefined fs3 = false ∧
  (r = 0 → ∃ q i d e, names fs3 !! q = Some i ∧ data fs3 !! i = Some (d ++ lit "two" ++ e) ∧
                      ∀ d0, data fs1 !! i = Some d0 → d0 `prefix_of` d).
Proof.
  apply (messages_durable (H := failing_write) [OpApply (lit "/data") 20 60; OpWrite (lit "one")] (lit "two")
    [OpWrite (lit "three"); OpWrite (lit "four"); OpClose] Fs_new).
  - apply ms_clock_good.
  - apply fs_ok_new.
  - reflexivity.
  - repeat first [apply Nat.leb_le; reflexivity | constructor].
  - apply (bool_decide_unpack _). vm_compute. exact I.
  - apply Forall_forall. intros id Hid. split; [|intros q ext [i Hi]; discriminate Hi]. revert id Hid.
    apply Forall_forall. vm_compute. repeat constructor; discriminate.
Defined.
(** The writes of that run: the third fails after one byte, and a second file holds the fourth. *)
Lemma failing_write_run :
  let '(self0, fs0) := FileMgr_new (H := failing_write) Fs_new in
  let '(self1, fs1) := MsgFile.run_ops (H := failing_write)
    [OpApply (lit "/data") 20 60; OpWrite (lit "one"); OpWrite (lit "two"); OpWrite (lit "three"); OpWrite (lit "four"); OpClose] self0 fs0 in
  data fs1 = [lit "onetwot"; lit "four"] ∧
  names fs1 !! resolve (lit "/data/2020/05/17/13/130509003_ok.txt") = Some 0%nat ∧
  names fs1 !! resolve (lit "/data/2020/05/17/13/130509049_ok.txt") = Some 1%nat.
Proof. by vm_compute. Qed.

(** When a write fails in the millisecond in which its file was begun, the next file has
    the same name, and finishing that one removes the accepted record of the first. *)
Lemma same_millisecond_loses :
  let env := env_with (Some (Fwrite, 43, 1)%nat) in
  let '(self0, fs0) := FileMgr_new (H := env) Fs_new in
  let '(self1, fs1) := MsgFile.run_ops (H := env) [OpApply (lit "/data") 20 60] self0 fs0 in
  let '((r, self2), fs2) := WriteToFile (H := env) (lit "one") self1 fs1 in
  let '(self3, fs3) := MsgFile.run_ops (H := env) [OpWrite (lit "two"); OpWrite (lit "three"); OpClose] self2 fs2 in
  r = 0 ∧ data fs3 = [lit "onet"; lit "three"] ∧ map_to_list (names fs3) = [(resolve (lit "/data/2020/05/17/13/130509123_ok.txt"), 1%nat)].
Proof. by vm_compute. Qed.

(** A record that was written is not read back: [size == static_cast<int>(fread(...) && size > 0)]
    holds for one byte only. *)
Lemma read_back_fails :
  let '(self0, fs0) := FileMgr_new (H := calm_env) Fs_new in
  let '(self1, fs1) := MsgFile.run_ops (H := calm_env) [OpApply (lit "/data") 20 60; OpWrite (lit "one")] self0 fs0 in
  let read size := (ReadFromFile (H := calm_env) (yyyymmdd_ self1) (hour_ self1) (fileId_ self1) 0 size self1 fs1).1 in
  read 3 = (-1, None) ∧ read 1 = (0, Some (lit "o")).
Proof. by vm_compute. Qed.

(** [updateMaxFileSize] accepts what [ApplyFileInfo] refuses. *)
Lemma two_bounds self : maxFileSize_ (updateMaxFileSize 1010 self) = 1010 ∧ clamp_size 1010 = 20.
Proof. done. Qed.

End MsgFileProofs.
