(* ===== verification/MsgFiles.v ===== *)
(** * The files of all kinds of details ([src/msgFile/MessageFilesImpl.cpp])

    One [FileMgr] per kind of detail, kept in a map, and the walks over the directory
    tree: at start every file that is not finished is renamed to an ["_ok.txt"] file. *)

From S2P Require Import Prelude CLib Incommon FileSys UniqueNum WriteFile Journal MsgFile.
Import FileSys UniqueNum(tm, Build_tm, tm_year, tm_mon, tm_mday, tm_hour, tm_min, tm_sec, tm_ok).
Import MsgFile(FileMgr, clamp_size, clamp_freq, FileMgr_new, ApplyFileInfo, WriteToFile, SwitchToNewFile, now, time, MakeDirP).

Module MsgFiles.

Definition MSGFILES_FOLDER_NAME : bytes := lit "MsgFiles".
Definition FILE_EXNAME : bytes := lit ".txt".
Definition kExeNameOk : bytes := lit "_ok.txt".
Definition kExeNameBak : bytes := lit "_bak.txt".
Definition kExeNameBakZip : bytes := lit "_bak.zip".

(** ** [std::map<std::string, FileMgr *>]

    The entries in the order of their keys. No two of them share a [FileMgr]. *)

Fixpoint str_lt (a b : bytes) : bool :=
  match a, b with
  | _, [] => false
  | [], _ :: _ => true
  | x :: a', y :: b' => (uchar x <? uchar y) || ((uchar x =? uchar y) && str_lt a' b')
  end.
Fixpoint map_find {A} (k : bytes) (l : list (bytes * A)) : option A :=
  match l with
  | [] => None
  | (k', a) :: l' => if decide (k = k') then Some a else map_find k l'
  end.
(** Nothing is inserted for a key that is there. *)
Fixpoint map_insert {A} (k : bytes) (a : A) (l : list (bytes * A)) : list (bytes * A) :=
  match l with
  | [] => [(k, a)]
  | (k', a') :: l' =>
      if decide (k = k') then l else if str_lt k k' then (k, a) :: l else (k', a') :: map_insert k a l'
  end.
Definition map_update {A} (k : bytes) (a : A) (l : list (bytes * A)) : list (bytes * A) :=
  map (λ e, if decide (e.1 = k) then (e.1, a) else e) l.

Record MessageFilesImpl := {
  bDldFileInit_ : bool; szMainPath_ : bytes; gateNo_ : Z; szPtCode_ : bytes; details_ : list (bytes * FileMgr) }.
#[export] Instance eta_MessageFilesImpl : Eta MessageFilesImpl := λ r, {|
  bDldFileInit_ := bDldFileInit_ r; szMainPath_ := szMainPath_ r; gateNo_ := gateNo_ r;
  szPtCode_ := szPtCode_ r; details_ := details_ r |}.

(** ** Walks over the tree *)

(** The end of a walk: what it collected, an uncaught [std::out_of_range], or fuel that
    did not suffice. *)
Inductive Walk (A : Type) := Found (a : A) | OutOfRange | OutOfFuel.
#[global] Arguments Found {A} a.
#[global] Arguments OutOfRange {A}.
#[global] Arguments OutOfFuel {A}.

(** [str.compare(pos, n, t) == 0]; [None]: [pos] is behind the string. *)
Definition compare_at (str : bytes) (pos n : nat) (t : bytes) : option bool :=
  if decide (length str < pos)%nat then None else Some (bool_decide (take n (drop pos str) = t)).
Inductive Kind := Skipped | Finished | Unfinished | Thrown.
(** The tests of [EnumTmpFile]. Without a dot [pos] is [npos], which is not below 4. *)
Definition tmp_kind (str : bytes) : Kind :=
  match find_last_of "."%byte str with
  | None => Thrown
  | Some pos =>
      if decide (pos < 4)%nat then Skipped
      else
        match compare_at str (pos - 3) 7 kExeNameOk, compare_at str (pos - 4) 8 kExeNameBak, compare_at str (pos - 4) 8 kExeNameBakZip with
        | Some a, Some b, Some c => if negb a && negb b && negb c then Unfinished else Finished
        | _, _, _ => Thrown
        end
  end.
(** [EnumNoUploadFiles] looks for the ok files only. *)
Definition ok_kind (str : bytes) : Kind :=
  match find_last_of "."%byte str with
  | None => Thrown
  | Some pos =>
      if decide (pos < 4)%nat then Skipped
      else match compare_at str (pos - 3) 7 kExeNameOk with
           | Some true => Finished | Some false => Unfinished | None => Thrown end
  end.

Section walks.
Context `{Env}.

(** One walk serves both functions: [leaf] is what is done with a file. *)
Section walk.
Context {A : Type} (leaf : bytes → A → St Fs (Walk A)).
(** The entries of a directory, but ["."] and [".."]; [sub] walks a subdirectory. *)
Fixpoint each_entry (sub : bytes → A → St Fs (Walk A)) (szFolderName : bytes) (es : list bytes) (acc : A) : St Fs (Walk A) :=
  match es with
  | [] => mret (Found acc)
  | d_name :: es' =>
      let str := szFolderName ++ [slash] ++ d_name in
      st ← stat (cstr str);
      r ← match st with
          | Some (true, _) => sub str acc
          | Some (false, _) => leaf str acc
          | None => mret (Found acc)
          end;
      match r with Found acc' => each_entry sub szFolderName es' acc' | _ => mret r end
  end.
Fixpoint walk (fuel : nat) (szFolderName : bytes) (acc : A) : St Fs (Walk A) :=
  match fuel with
  | O => mret OutOfFuel
  | S fuel' =>
      pDir ← opendir (cstr szFolderName);
      match pDir with
      | None => mret (Found acc)
      | Some es => each_entry (walk fuel') szFolderName es acc
      end
  end.
End walk.

Definition tmp_leaf (str : bytes) (vFileName : list bytes) : St Fs (Walk (list bytes)) :=
  mret (match tmp_kind str with
        | Skipped | Finished => Found vFileName
        | Unfinished => Found (vFileName ++ [str])
        | Thrown => OutOfRange
        end).
Definition EnumTmpFile := walk tmp_leaf.

(** A walk goes down into a directory only. *)
Definition depth_fuel : St Fs nat := fs ← st_get; mret (2 + size (dirs fs))%nat.

(** The new name is made in an array of 1024 bytes. *)
Fixpoint rename_each (tmpFiles : list bytes) : St Fs () :=
  match tmpFiles with
  | [] => mret ()
  | it :: tmpFiles' =>
      _ ← (if decide (1024 < length it - length FILE_EXNAME + length kExeNameOk + 1)%nat then undefined_behaviour
           else _ ← rename (cstr it) (cstr (take (length it - length FILE_EXNAME) it ++ kExeNameOk)); mret ());
      rename_each tmpFiles'
  end.
(** Whether the walk ended without an exception. *)
Definition ScanfAndRenameTmpFile (self : MessageFilesImpl) : St Fs bool :=
  fuel ← depth_fuel;
  r ← EnumTmpFile fuel (cstr (szMainPath_ self ++ MSGFILES_FOLDER_NAME)) [];
  match r with
  | Found tmpFiles => _ ← rename_each tmpFiles; mret true
  | _ => mret false
  end.

(** [DirUtil::GetExePath] *)
Definition GetExePath (link : option bytes) : bytes :=
  match link with
  | None => []
  | Some target =>
      let result := take 1024 target in
      match find_last_of slash result with Some pos => take (S pos) result | None => result end
  end.
(** [None]: the constructor throws. *)
Definition MessageFilesImpl_new : St Fs (option MessageFilesImpl) :=
  let self := {| bDldFileInit_ := false; szMainPath_ := GetExePath exe; gateNo_ := 0; szPtCode_ := []; details_ := [] |} in
  ok ← ScanfAndRenameTmpFile self;
  mret (if ok : bool then Some self else None).

(** ** Operations *)

Definition InitParams (szPtCode : bytes) (gateNo : Z) (self : MessageFilesImpl) : bool * MessageFilesImpl :=
  match szPtCode with
  | [] => (false, self)
  | _ => (true, self <| szPtCode_ := szPtCode |> <| gateNo_ := gateNo |>)
  end.
Definition updateGenFreq (freq : Z) (self : MessageFilesImpl) : MessageFilesImpl :=
  self <| details_ ::= map (λ e, (e.1, MsgFile.updateGenFreq (clamp_freq freq) e.2)) |>.
Definition updateMaxFileSize (size : Z) (self : MessageFilesImpl) : MessageFilesImpl :=
  self <| details_ ::= map (λ e, (e.1, MsgFile.updateMaxFileSize (clamp_size size) e.2)) |>.

(** [szMainPath_ MsgFiles/<code>/<type>/<gate>], if there is a code. *)
Definition details_path (szPtCode : bytes) (gateNo : Z) (fileType : bytes) (self : MessageFilesImpl) : option bytes :=
  let code := match szPtCode with [] => szPtCode_ self | _ => szPtCode end in
  match code with
  | [] => None
  | _ => Some (szMainPath_ self ++ MSGFILES_FOLDER_NAME ++ [slash] ++ code ++ [slash] ++ fileType ++ [slash] ++ fmt_ld gateNo)
  end.
Definition InitMtDetailsFile (szPtCode : bytes) (gateNo : Z) (fileType : bytes) (maxFileSize genFreq : Z)
    (self : MessageFilesImpl) : St Fs (Z * MessageFilesImpl) :=
  match details_path szPtCode gateNo fileType self with
  | None => mret (-1, self)
  | Some pathTmp =>
      r ← MakeDirP pathTmp;
      if r =? -1 then mret (-1, self)
      else
        match map_find fileType (details_ self) with
        | Some _ => mret (0, self)
        | None =>
            file ← FileMgr_new;
            '(nRet, file) ← ApplyFileInfo pathTmp (clamp_size maxFileSize) (clamp_freq genFreq) file;
            mret (nRet, if nRet =? 0 then self <| details_ ::= map_insert fileType file |> else self)
        end
  end.
(** The other five have the same body. *)
Definition InitMtOkDetailsFile := InitMtDetailsFile.
Definition InitReDetailsFile := InitMtDetailsFile.
Definition InitReOkDetailsFile := InitMtDetailsFile.
Definition InitMoDetailsFile := InitMtDetailsFile.
Definition InitMoOkDetailsFile := InitMtDetailsFile.

Definition bExistFile (fileType : bytes) (self : MessageFilesImpl) : bool :=
  match fileType with
  | [] => false
  | _ => match map_find fileType (details_ self) with Some _ => true | None => false end
  end.
Definition WriteFile (fileType data : bytes) (self : MessageFilesImpl) : St Fs (Z * MessageFilesImpl) :=
  match map_find fileType (details_ self) with
  | None => mret (-1, self)
  | Some file =>
      '(r, file) ← WriteToFile data file;
      mret (r, self <| details_ ::= map_update fileType file |>)
  end.
Fixpoint each_file (f : FileMgr → St Fs FileMgr) (l : list (bytes * FileMgr)) : St Fs (list (bytes * FileMgr)) :=
  match l with
  | [] => mret []
  | (k, file) :: l' => file' ← f file; l'' ← each_file f l'; mret ((k, file') :: l'')
  end.
Definition SwitchMessageFiles (self : MessageFilesImpl) : St Fs MessageFilesImpl :=
  l ← each_file SwitchToNewFile (details_ self); mret (self <| details_ := l |>).
(** The objects are closed, and never deleted. *)
Definition CloseAll (self : MessageFilesImpl) : St Fs MessageFilesImpl :=
  _ ← each_file MsgFile.Close (details_ self); mret (self <| details_ := [] |>).

(** ** Counting what was not uploaded

    [mtime] is the time of the last change that the system reports for a file. *)
Section upload.
Variable mtime : Fs → path → Z.

Definition old_leaf (nMin : Z) (str : bytes) (nCount : Z) : St Fs (Walk Z) :=
  match ok_kind str with
  | Thrown => mret OutOfRange
  | Finished =>
      m ← st_gets (λ fs, mtime fs (resolve (cstr str)));
      t ← time;
      mret (Found (if nMin * 60 <? t - m then nCount + 1 else nCount))
  | _ => mret (Found nCount)
  end.
Definition EnumNoUploadFiles_in (nMin : Z) := walk (old_leaf nMin).
Definition day_folder (buffer fileType : bytes) (self : MessageFilesImpl) : bytes :=
  szMainPath_ self ++ MSGFILES_FOLDER_NAME ++ [slash] ++ szPtCode_ self ++ [slash] ++ fileType ++ [slash] ++
  fmt_ld (gateNo_ self) ++ [slash] ++ buffer.
Fixpoint count_each (nMin : Z) (buffer : bytes) (types : list bytes) (self : MessageFilesImpl) (count : Z) : St Fs (Walk Z) :=
  match types with
  | [] => mret (Found count)
  | k :: types' =>
      fuel ← depth_fuel;
      r ← EnumNoUploadFiles_in nMin fuel (cstr (day_folder buffer k self)) count;
      match r with Found count' => count_each nMin buffer types' self count' | _ => mret r end
  end.
(** [buffer] has 16 bytes. *)
Definition day_name (t : tm) : bytes :=
  take 15 (fmt_0d 4 (tm_year t + 1900) ++ [slash] ++ fmt_0d 2 (tm_mon t + 1) ++ [slash] ++ fmt_0d 2 (tm_mday t)).
Definition EnumNoUploadFiles (nDaySpan nMin : Z) (self : MessageFilesImpl) : St Fs (Walk Z) :=
  t ← time;
  count_each nMin (day_name (localtime (t - nDaySpan * 24 * 3600))) (map fst (details_ self)) self 0.
Definition GetLongTimeNoUploadFilesCnt (min : Z) (self : MessageFilesImpl) : St Fs (Walk Z) :=
  r0 ← EnumNoUploadFiles 0 min self;
  match r0 with
  | Found n0 =>
      r1 ← EnumNoUploadFiles 1 min self;
      match r1 with Found n1 => mret (Found (n0 + n1)) | _ => mret r1 end
  | _ => mret r0
  end.
End upload.
End walks.
End MsgFiles.
