(* ===== verification/MsgRestart.v ===== *)
(** * Files left unfinished are finished at the next start

    [MessageFilesImpl] walks over its folder when it is made, and renames what is not
    finished. Without failures of the system the walk meets every file, and each
    unfinished one gets its final name with its content. *)

From S2P Require Import Prelude CLib Incommon FileSys UniqueNum WriteFile ReadFile CalmFs Journal MsgFile MsgFiles.
Import FileSys UniqueNum(tm, Build_tm, tm_year, tm_mon, tm_mday, tm_hour, tm_min, tm_sec, tm_ok) CalmFs MsgFiles.

Module MsgRestart.

(** ** The suffix tests *)

Lemma find_last_of_last (c : byte) a b : c ∉ b → find_last_of c (a ++ c :: b) = Some (length a).
Proof.
  intros Hb. assert (Hn : find_last_of c b = None).
  { induction b as [|x b IH]; [done|]. apply not_elem_of_cons in Hb as [Hx Hb]. cbn. rewrite IH by done. by rewrite decide_False. }
  induction a as [|x a IH]; cbn; [by rewrite Hn, decide_True|by rewrite IH].
Qed.
Lemma compare_suffix a t u t' : length t = length t' → (length u <= length a)%nat →
  compare_at (a ++ t) (length a - length u) (length u + length t) (u ++ t') =
  Some (bool_decide (u `suffix_of` a ∧ t = t')).
Proof.
  intros Ht Hu. unfold compare_at. rewrite decide_False by (rewrite length_app; lia). f_equal.
  rewrite drop_app_le by lia. rewrite take_ge by (rewrite length_app, length_drop; lia).
  apply bool_decide_ext. split.
  - intros E. apply app_inj_2 in E as [E ->]; [|done]. split; [|done]. rewrite <- E. apply suffix_drop.
  - intros [[z ->] ->]. f_equal. rewrite length_app. rewrite drop_app_length'; [done|lia].
Qed.
Lemma suffix_name X n (k : bytes) : slash ∉ k → k `suffix_of` X ++ slash :: n ↔ k `suffix_of` n.
Proof.
  intros Hk. split.
  - intros [z E]. apply app_eq_inv in E as [(k' & -> & E)|(k' & -> & E)].
    + destruct Hk. rewrite E. set_solver.
    + destruct k' as [|x k']; [destruct Hk; cbn in E; rewrite <- E; set_solver|]. injection E as <- ->. by exists k'.
  - intros [z ->]. exists (X ++ slash :: z). by rewrite <- app_assoc.
Qed.

(** A file name [stem.txt] that is not finished. *)
Definition is_tmp (n : bytes) : bool :=
  bool_decide (FILE_EXNAME `suffix_of` n) && bool_decide (¬ kExeNameOk `suffix_of` n) && bool_decide (¬ kExeNameBak `suffix_of` n).
Definition ok_name (n : bytes) : bytes := take (length n - length FILE_EXNAME) n ++ kExeNameOk.

Lemma tmp_kind_txt X n : (4 <= length X)%nat → FILE_EXNAME `suffix_of` n →
  tmp_kind (X ++ slash :: n) = if is_tmp n then Unfinished else Finished.
Proof.
  intros HX [stem ->]. unfold is_tmp. rewrite (bool_decide_true (_ `suffix_of` stem ++ _)) by (by eexists). cbn [andb].
  assert (E : X ++ slash :: stem ++ FILE_EXNAME = (X ++ slash :: stem) ++ "."%byte :: lit "txt") by (by rewrite <- app_assoc).
  unfold tmp_kind. rewrite E, find_last_of_last by decide_now.
  assert (Hl : (5 <= length (X ++ slash :: stem))%nat) by (rewrite length_app; cbn; lia).
  rewrite decide_False by lia. change ("."%byte :: lit "txt") with FILE_EXNAME.
  rewrite (compare_suffix _ FILE_EXNAME (lit "_ok") FILE_EXNAME), (compare_suffix _ FILE_EXNAME (lit "_bak") FILE_EXNAME),
    (compare_suffix _ FILE_EXNAME (lit "_bak") (lit ".zip")) by (cbn; lia).
  rewrite (bool_decide_false (_ ∧ FILE_EXNAME = lit ".zip")) by (intros [_ [=]]).
  assert (Hs : ∀ u, slash ∉ u → bool_decide (u `suffix_of` X ++ slash :: stem ∧ FILE_EXNAME = FILE_EXNAME) =
    bool_decide (u ++ FILE_EXNAME `suffix_of` stem ++ FILE_EXNAME)).
  { intros u Hu. apply bool_decide_ext. rewrite suffix_name by done. split; [intros [? _]; by apply suffix_app|].
    intros ?%suffix_app_inv. done. }
  rewrite !Hs by decide_now. change (lit "_ok" ++ FILE_EXNAME) with kExeNameOk. change (lit "_bak" ++ FILE_EXNAME) with kExeNameBak.
  rewrite !bool_decide_not. by destruct (bool_decide (kExeNameOk `suffix_of` _)), (bool_decide (kExeNameBak `suffix_of` _)).
Qed.

Lemma ok_name_suffix n : kExeNameOk `suffix_of` ok_name n.
Proof. by eexists. Qed.
Lemma ok_name_inj n n' : FILE_EXNAME `suffix_of` n → FILE_EXNAME `suffix_of` n' → ok_name n = ok_name n' → n = n'.
Proof.
  intros [s ->] [s' ->]. unfold ok_name. rewrite !length_app, !Nat.add_sub, !take_app_length. by intros ->%app_inv_tail.
Qed.

(** ** Trees *)

Definition good_name (e : bytes) : Prop := e ≠ [] ∧ (slash ∉ e) ∧ no_nul e.
(** The tree of the file system: the parent of what exists is a directory. *)
Record tree (fs : Fs) : Prop := {
  t_file q : is_Some (names fs !! q) → q.2 ≠ [] ∧ q ∉ dirs fs;
  t_parent q : q ∈ dom (names fs) ∪ dirs fs → q.2 ≠ [] → is_dir (parent q) fs = true;
  t_names q : q ∈ dom (names fs) ∪ dirs fs → Forall good_name q.2 }.

(** Nothing but the ticks has changed. *)
Definition same (fs fs' : Fs) : Prop :=
  names fs' = names fs ∧ dirs fs' = dirs fs ∧ data fs' = data fs ∧ streams fs' = streams fs ∧ undefined fs' = undefined fs.
#[export] Instance same_preorder : PreOrder same.
Proof. split; [by intros ?|]. intros a b c (?&?&?&?&?) (?&?&?&?&?). split_and!; congruence. Qed.
Lemma same_is_dir fs fs' q : same fs fs' → is_dir q fs' = is_dir q fs.
Proof. intros (_ & E & _). unfold is_dir. by rewrite E. Qed.

Lemma elem_of_entries q e fs : e ∈ entries q fs ↔ in_dir q e ∈ dom (names fs) ∪ dirs fs.
Proof.
  unfold entries. rewrite list_elem_of_omap. setoid_rewrite elem_of_elements. split.
  - intros (x & Hx & E). case_decide as Hp; [|done]. destruct Hp as [Hp Hn], x as [b l]. cbn in *.
    destruct l as [|y l _] using rev_ind; [done|]. rewrite last_snoc in E. injection E as <-.
    revert Hp. unfold parent. cbn. rewrite removelast_last. by intros <-.
  - intros He. exists (in_dir q e). split; [done|]. rewrite parent_in_dir, decide_True; [apply last_snoc|].
    split; [done|]. unfold in_dir. cbn. by destruct q.2.
Qed.

Section walk.
Context {env : Env} `{!Calm env}.
Context (folder : bytes) (fs0 : Fs).
Context (Hf : folder ≠ []) (Hnul : no_nul folder) (Htree : tree fs0).

Definition path_str (l : list bytes) : bytes := folder ++ concat (map (cons slash) l).
Definition at_ (l : list bytes) : path := ((resolve folder).1, (resolve folder).2 ++ l).
Lemma path_str_snoc l e : path_str (l ++ [e]) = path_str l ++ [slash] ++ e.
Proof. unfold path_str. rewrite map_app, concat_app. cbn. by rewrite app_nil_r, <- app_assoc. Qed.
Lemma at_snoc l e : at_ (l ++ [e]) = in_dir (at_ l) e.
Proof. unfold at_, in_dir. cbn. by rewrite app_assoc. Qed.
Lemma path_str_ne l : path_str l ≠ [].
Proof. unfold path_str. by destruct folder. Qed.
Lemma resolve_path_str l : Forall good_name l → resolve (path_str l) = at_ l.
Proof.
  induction l as [|e l IH] using rev_ind; intros Hl.
  - unfold path_str, at_. cbn. rewrite !app_nil_r. by destruct (resolve folder).
  - apply Forall_app in Hl as [Hl (Hne & Hs & _)%Forall_singleton].
    rewrite path_str_snoc, resolve_in_dir, IH, at_snoc by (done || apply path_str_ne). done.
Qed.
Lemma cstr_path_str l : Forall good_name l → cstr (path_str l) = path_str l.
Proof.
  intros Hl. apply ReadFile.cstr_id. unfold path_str. apply no_nul_app. split; [done|].
  intros Hn. apply list_elem_of_In, in_concat in Hn as (x & (e & <- & He)%in_map_iff & Hx).
  apply list_elem_of_In in He, Hx. rewrite Forall_forall in Hl. destruct (Hl e He) as (_ & _ & He').
  apply elem_of_cons in Hx as [?|?]; [done|]. by destruct He'.
Qed.
Lemma at_good l : at_ l ∈ dom (names fs0) ∪ dirs fs0 → Forall good_name l.
Proof. intros Hl%t_names; [|done]. by apply Forall_app in Hl as [_ ?]. Qed.

(** What is above something is a directory. *)
Lemma above_dir l l' : l ≠ [] → l' ≠ [] → at_ (l ++ l') ∈ dom (names fs0) ∪ dirs fs0 → at_ l ∈ dirs fs0.
Proof.
  intros Hl. induction l' as [|e l' IH] using rev_ind; [done|]. intros _ Hq.
  apply t_parent in Hq; [|done|by unfold at_; cbn; destruct (resolve folder).2, l, l'].
  rewrite app_assoc, at_snoc, parent_in_dir in Hq. apply bool_decide_eq_true in Hq as [E|Hd].
  - unfold at_ in E. cbn in E. by destruct (resolve folder).2, l, l'.
  - destruct l' as [|e' l']; [by rewrite app_nil_r in Hd|]. apply IH; [done|]. set_solver.
Qed.

Definition dirs_below (q : path) : gset path :=
  filter (λ d, d.1 = q.1 ∧ (length q.2 < length d.2)%nat ∧ take (length q.2) d.2 = q.2) (dirs fs0).
Lemma dirs_below_lt l e : at_ (l ++ [e]) ∈ dirs fs0 → (size (dirs_below (at_ (l ++ [e]))) < size (dirs_below (at_ l)))%nat.
Proof.
  intros Hd. apply subset_size. split.
  - intros d. unfold dirs_below. rewrite !elem_of_filter. unfold at_. cbn. rewrite !length_app. cbn.
    intros [(H1 & H2 & H3) H4]. split_and!; [done|lia| |done].
    rewrite app_assoc in H3. apply (f_equal (take (length (resolve folder).2 + length l))) in H3. rewrite take_take in H3.
    rewrite (Nat.min_l (length (resolve folder).2 + length l)) in H3 by lia.
    rewrite H3. by rewrite take_app_length' by (by rewrite length_app).
  - intros Hsub. specialize (Hsub (at_ (l ++ [e]))). unfold dirs_below in Hsub. rewrite !elem_of_filter in Hsub.
    unfold at_ in Hsub, Hd. cbn in Hsub. rewrite !length_app in Hsub. cbn in Hsub. destruct Hsub as [(_ & ? & _) _]; [|lia].
    split_and!; [done|lia| |done]. rewrite (app_assoc _ l). by rewrite take_app_length' by (by rewrite length_app).
Qed.

Lemma stat_dir p Q fs : p ≠ [] → is_dir (resolve p) fs = true → (∀ n fs', same fs fs' → Q (Some (true, n)) fs') → wp (stat p) Q fs.
Proof.
  intros Hp Hd HQ. unfold wp, stat. st_cbn. rewrite no_fault, bool_decide_false by done.
  change (is_dir ?q _) with (is_dir q fs). rewrite Hd. apply HQ. by split_and!.
Qed.

(** The files below the folder are text files. *)
Context (Hlen : (4 <= length folder)%nat).
Context (Htxt : ∀ l e, is_Some (names fs0 !! at_ (l ++ [e])) → FILE_EXNAME `suffix_of` e).

(** [s] is an unfinished file below [l]. *)
Definition below (l : list bytes) (s : bytes) : Prop :=
  ∃ l' e, s = path_str (l ++ l' ++ [e]) ∧ is_Some (names fs0 !! at_ (l ++ l' ++ [e])) ∧ is_tmp e = true.
Lemma kind_of l e : is_Some (names fs0 !! at_ (l ++ [e])) →
  tmp_kind (path_str (l ++ [e])) = if is_tmp e then Unfinished else Finished.
Proof.
  intros He. rewrite path_str_snoc. apply tmp_kind_txt; [|by eapply Htxt]. unfold path_str. rewrite length_app. lia.
Qed.
Definition walks_to (l : list bytes) (m : St Fs (Walk (list bytes))) (acc : list bytes) : Prop :=
  ∀ fs Q, same fs0 fs → (∀ found fs', same fs0 fs' → (∀ s, s ∈ found ↔ below l s) → Q (Found (acc ++ found)) fs') → wp m Q fs.

Lemma each_entry_calm l fuel es acc Q fs :
  same fs0 fs → (∀ e, e ∈ es → at_ (l ++ [e]) ∈ dom (names fs0) ∪ dirs fs0) →
  (∀ e acc, at_ (l ++ [e]) ∈ dirs fs0 → walks_to (l ++ [e]) (EnumTmpFile fuel (path_str (l ++ [e])) acc) acc) →
  (∀ found fs', same fs0 fs' →
     (∀ s, s ∈ found ↔ ∃ e, e ∈ es ∧ (below (l ++ [e]) s ∨ s = path_str (l ++ [e]) ∧ is_Some (names fs0 !! at_ (l ++ [e])) ∧ is_tmp e = true)) →
     Q (Found (acc ++ found)) fs') →
  wp (each_entry tmp_leaf (EnumTmpFile fuel) (path_str l) es acc) Q fs.
Proof.
  intros Hs Hes Hsub HQ. revert acc fs Hs HQ. induction es as [|e es IH]; intros acc fs Hs HQ; cbn [each_entry].
  { apply wp_ret. rewrite <- (app_nil_r acc). apply HQ; [done|]. intros s. split; [by intros ?%elem_of_nil|]. by intros (? & ?%elem_of_nil & _). }
  rewrite <- path_str_snoc. assert (He := Hes e ltac:(set_solver)). pose proof (at_good _ He) as Hgood.
  rewrite cstr_path_str by done.
  (* what one entry gives, and the rest *)
  assert (Hgo : ∀ found fs1, same fs0 fs1 →
    (∀ s, s ∈ found ↔ below (l ++ [e]) s ∨ s = path_str (l ++ [e]) ∧ is_Some (names fs0 !! at_ (l ++ [e])) ∧ is_tmp e = true) →
    wp (each_entry tmp_leaf (EnumTmpFile fuel) (path_str l) es (acc ++ found)) Q fs1).
  { intros found fs1 H1 Hfound. apply IH; [intros e' He'; apply Hes, elem_of_cons; by right|done|]. intros found' fs2 H2 Hfound'.
    rewrite <- app_assoc. apply HQ; [done|]. intros s. rewrite elem_of_app, Hfound, Hfound'. setoid_rewrite elem_of_cons. clear.
    split; [intros [?|(e' & ? & ?)]; [exists e|exists e']; auto|]. intros (e' & [->|?] & ?); [by left|right; by exists e']. }
  destruct (decide (at_ (l ++ [e]) ∈ dirs fs0)) as [Hd|Hd].
  - apply wp_bind, stat_dir; [apply path_str_ne| |].
    { rewrite resolve_path_str, (same_is_dir _ _ _ Hs) by done. by apply bool_decide_true; right. }
    intros n fs1 H1. apply wp_bind, (Hsub e acc Hd); [by etrans|]. intros found fs2 H2 Hfound. apply Hgo; [done|].
    intros s. rewrite Hfound. split; [by left|]. intros [?|(_ & Hn & _)]; [done|]. by destruct (t_file _ Htree _ Hn) as [_ ?].
  - assert (Hi : is_Some (names fs0 !! at_ (l ++ [e]))) by (apply elem_of_union in He as [?%elem_of_dom|?]; done).
    pose proof Hi as [i Hn]. pose proof Hs as (En & Ed & Eda & _).
    assert (Hdir : is_dir (at_ (l ++ [e])) fs = false).
    { unfold is_dir. rewrite Ed. apply bool_decide_false. intros [E|?]; [by destruct (proj1 (t_file _ Htree _ Hi))|done]. }
    assert (Hstat : wp (stat (path_str (l ++ [e]))) (λ r fs', (∃ n, r = Some (false, n)) ∧ same fs0 fs') fs).
    { unfold wp, stat. st_cbn. rewrite no_fault, (bool_decide_false (_ = [])) by apply path_str_ne. rewrite resolve_path_str by done.
      change (is_dir ?q _) with (is_dir q fs). rewrite Hdir. cbn. rewrite En, Hn. cbn. split; [by eexists|]. etrans; [exact Hs|]. by split_and!. }
    apply wp_bind. eapply wp_mono; [exact Hstat|]. intros r fs1 [[n ->] H1].
    assert (Hno : ∀ s, ¬ below (l ++ [e]) s).
    { intros s (l' & e' & _ & Hs' & _). apply Hd. apply (above_dir (l ++ [e]) (l' ++ [e'])); [by destruct l|by destruct l'|].
      apply elem_of_union. left. by apply elem_of_dom. }
    unfold tmp_leaf. rewrite kind_of by done. destruct (is_tmp e) eqn:Et; apply wp_bind, wp_ret.
    + apply Hgo; [done|]. intros s. rewrite list_elem_of_singleton. split; [by right|]. by intros [?%Hno|(-> & _)].
    + specialize (Hgo [] fs1 H1). rewrite app_nil_r in Hgo. apply Hgo. intros s. split; [by intros ?%elem_of_nil|]. by intros [?%Hno|(_ & _ & ?)].
Qed.

Lemma walk_calm fuel l acc : (size (dirs_below (at_ l)) < fuel)%nat → is_dir (at_ l) fs0 = true → Forall good_name l →
  walks_to l (EnumTmpFile fuel (path_str l) acc) acc.
Proof.
  revert l acc. induction fuel as [|fuel IH]; intros l acc Hfuel Hd Hl fs Q Hs HQ; [lia|].
  unfold EnumTmpFile. cbn [walk]. rewrite cstr_path_str by done.
  apply wp_bind, opendir_calm; [apply path_str_ne|by rewrite resolve_path_str, (same_is_dir _ _ _ Hs)|].
  rewrite resolve_path_str by done. intros t es Hes. pose proof Hs as (En & Ed & _).
  assert (Hin : ∀ e, e ∈ es ↔ at_ (l ++ [e]) ∈ dom (names fs0) ∪ dirs fs0).
  { intros e. rewrite Hes, elem_of_entries, En, Ed, at_snoc. done. }
  apply (each_entry_calm l fuel); [etrans; [exact Hs|by split_and!]|by intros; apply Hin| |].
  - intros e acc' Hde. apply IH; [pose proof (dirs_below_lt l e Hde); lia|by apply bool_decide_true; right|].
    apply at_good, elem_of_union. by right.
  - intros found fs' Hs' Hfound. apply HQ; [done|]. intros s. rewrite Hfound. split.
    + intros (e & _ & [(l' & e' & -> & ? & ?)|(-> & ? & ?)]).
      * exists (e :: l'), e'. rewrite <- app_assoc in *. done.
      * by exists [], e.
    + intros (l' & e' & -> & Hi & Ht). destruct l' as [|e l'].
      * exists e'. split; [apply Hin, elem_of_union; left; by apply elem_of_dom|]. by right.
      * exists e. split; [|left; exists l', e'; by rewrite <- app_assoc].
        apply Hin, elem_of_union. right. apply (above_dir (l ++ [e]) (l' ++ [e'])); [by destruct l|by destruct l'|].
        rewrite <- app_assoc. apply elem_of_union. left. by apply elem_of_dom.
Qed.

(** ** Renaming *)

(** Every unfinished file has room for its final name. *)
Context (Hshort : ∀ l e, is_Some (names fs0 !! at_ (l ++ [e])) → is_tmp e = true → (length (path_str (l ++ [e])) <= 1020)%nat).
Context (Hfree : ∀ l e, is_Some (names fs0 !! at_ (l ++ [e])) → is_tmp e = true → at_ (l ++ [ok_name e]) ∉ dom (names fs0) ∪ dirs fs0).

Definition leftover (q : path) (l : list bytes) (e : bytes) : Prop :=
  q = at_ (l ++ [e]) ∧ is_Some (names fs0 !! q) ∧ is_tmp e = true.
Definition final_name (q : path) : path :=
  match last q.2 with Some e => (q.1, removelast q.2 ++ [ok_name e]) | None => q end.
Lemma final_name_at l e : final_name (at_ (l ++ [e])) = at_ (l ++ [ok_name e]).
Proof. rewrite !at_snoc. unfold final_name, in_dir. cbn. rewrite last_snoc. cbn. by rewrite removelast_last. Qed.
Lemma at_inj l l' : at_ l = at_ l' → l = l'.
Proof. by intros [= ?%app_inv_head]. Qed.
Lemma is_tmp_txt e : is_tmp e = true → FILE_EXNAME `suffix_of` e ∧ ¬ kExeNameOk `suffix_of` e.
Proof. unfold is_tmp. rewrite !andb_true_iff, !bool_decide_eq_true. tauto. Qed.
Lemma final_name_inj q1 l1 e1 q2 l2 e2 : leftover q1 l1 e1 → leftover q2 l2 e2 → final_name q1 = final_name q2 → q1 = q2.
Proof.
  intros (-> & _ & [T1 _]%is_tmp_txt) (-> & _ & [T2 _]%is_tmp_txt). rewrite !final_name_at.
  intros [-> E]%at_inj%app_inj_tail. by apply ok_name_inj in E as ->.
Qed.
Lemma ok_path l e : FILE_EXNAME `suffix_of` e →
  take (length (path_str (l ++ [e])) - length FILE_EXNAME) (path_str (l ++ [e])) ++ kExeNameOk = path_str (l ++ [ok_name e]).
Proof.
  intros [stem ->]. rewrite !path_str_snoc. unfold ok_name. rewrite (length_app stem), Nat.add_sub, take_app_length.
  replace (path_str l ++ [slash] ++ stem ++ FILE_EXNAME) with ((path_str l ++ [slash] ++ stem) ++ FILE_EXNAME) by (by rewrite <- !app_assoc).
  rewrite length_app, Nat.add_sub, take_app_length. by rewrite <- !app_assoc.
Qed.
Lemma list_elem_of_take (x : byte) n e : x ∈ take n e → x ∈ e.
Proof. intros Hx. rewrite <- (take_drop n e). apply elem_of_app. by left. Qed.
Lemma good_ok_name e : good_name e → good_name (ok_name e).
Proof.
  intros (? & Hs & Hn). unfold ok_name. split_and!.
  - intros E%(f_equal length). rewrite length_app in E. cbn in E. lia.
  - assert (slash ∉ kExeNameOk) by decide_now. intros [Hin|?]%elem_of_app; [|done]. apply Hs. by apply list_elem_of_take in Hin.
  - apply no_nul_app. split; [|decide_now]. intros Hin. apply Hn. by apply list_elem_of_take in Hin.
Qed.

(** The files of [P] have their final names. *)
Definition progress (P : list path) (q : path) : path := if decide (q ∈ P) then final_name q else q.
Definition renamed_to (g : path → path) (fs : Fs) : Prop :=
  (∀ q i, names fs !! q = Some i ↔ ∃ q0, names fs0 !! q0 = Some i ∧ g q0 = q) ∧
  dirs fs = dirs fs0 ∧ data fs = data fs0 ∧ streams fs = streams fs0 ∧ undefined fs = undefined fs0.
Definition leftovers (P : list path) : Prop := ∀ q, q ∈ P → ∃ l e, leftover q l e.

Lemma progress_new P q : progress (P ++ [q]) q = final_name q.
Proof. unfold progress. rewrite decide_True; [done|]. apply elem_of_app. right. by apply list_elem_of_singleton. Qed.
Lemma progress_other P q x : x ≠ q ∨ q ∈ P → progress (P ++ [q]) x = progress P x.
Proof.
  intros Hx. unfold progress. apply decide_ext. rewrite elem_of_app, list_elem_of_singleton.
  split; [|tauto]. intros [?| ->]; [done|]. by destruct Hx.
Qed.
Lemma progress_again P q fs : q ∈ P → renamed_to (progress P) fs → renamed_to (progress (P ++ [q])) fs.
Proof.
  intros Hq [H1 H2]. split; [|done]. intros x i. rewrite H1. f_equiv. intros q0. rewrite progress_other; auto.
Qed.

Lemma source_gone P q l e fs : leftovers P → q ∈ P → leftover q l e → renamed_to (progress P) fs → names fs !! q = None.
Proof.
  intros HP Hq Hl [H1 _]. apply eq_None_not_Some. intros [i (q0 & H0 & Hp)%H1]. unfold progress in Hp.
  case_decide as Hin; [|by subst]. destruct (HP q0 Hin) as (l0 & e0 & -> & _). destruct Hl as (-> & _ & Ht).
  rewrite final_name_at in Hp. apply at_inj, app_inj_tail in Hp as [_ <-]. apply is_tmp_txt in Ht as [_ Ht].
  apply Ht, ok_name_suffix.
Qed.
Lemma progress_step P q l e i fs fs' :
  leftovers P → q ∉ P → leftover q l e → names fs0 !! q = Some i → renamed_to (progress P) fs →
  names fs' = <[final_name q := i]> (delete q (names fs)) → dirs fs' = dirs fs → data fs' = data fs → streams fs' = streams fs →
  undefined fs' = undefined fs → renamed_to (progress (P ++ [q])) fs'.
Proof.
  intros HP Hq Hl Hi [H1 H2] E1 E2 E3 E4 E5. split; [|rewrite E2, E3, E4, E5; done]. intros x j. rewrite E1.
  assert (Hfin : ∀ y, final_name q = progress P y → is_Some (names fs0 !! y) → False).
  { intros y Hy Hsy. unfold progress in Hy. case_decide as Hin.
    - destruct (HP y Hin) as (l' & e' & Hl'). by rewrite (final_name_inj _ _ _ _ _ _ Hl Hl' Hy) in Hq.
    - destruct Hl as (-> & Hs & Ht). rewrite final_name_at in Hy. subst y.
      apply (Hfree l e); [done..|]. apply elem_of_union. left. by apply elem_of_dom. }
  assert (Hne : final_name q ≠ q) by (intros E; apply (Hfin q); [unfold progress; by rewrite decide_False|by eexists]).
  rewrite lookup_insert_Some, lookup_delete_Some, H1. split.
  - intros [[<- <-]|(Hx & Hx' & q0 & H0 & Hp)]; [exists q; by rewrite progress_new|]. exists q0. split; [done|].
    rewrite progress_other; [done|]. left. intros ->. unfold progress in Hp. by rewrite decide_False in Hp.
  - intros (q0 & H0 & Hp). destruct (decide (q0 = q)) as [->|Hqq]; [left; rewrite progress_new in Hp; split; congruence|].
    rewrite progress_other in Hp by auto. right.
    split_and!; [intros E; apply (Hfin q0); [congruence|by eexists]| |by exists q0].
    intros <-. unfold progress in Hp. case_decide as Hin; [|done].
    destruct (HP q0 Hin) as (l' & e' & -> & _ & Ht'). destruct Hl as (-> & _ & Ht). rewrite final_name_at in Hp.
    apply at_inj, app_inj_tail in Hp as [_ <-]. apply is_tmp_txt in Ht as [_ Ht]. apply Ht, ok_name_suffix.
Qed.

Lemma rename_missing a b Q fs : names fs !! resolve a = None → (∀ fs', same fs fs' → Q (-1) fs') → wp (rename a b) Q fs.
Proof. intros Hn HQ. unfold wp, rename. st_cbn. rewrite no_fault. cbn. rewrite Hn. apply HQ. by split_and!. Qed.

Lemma rename_each_calm found P fs Q :
  (∀ s, s ∈ found → below [] s) → leftovers P → renamed_to (progress P) fs →
  (∀ P' fs', (∀ q, q ∈ P' ↔ q ∈ P ∨ ∃ s, s ∈ found ∧ q = resolve s) → leftovers P' → renamed_to (progress P') fs' → Q () fs') →
  wp (rename_each found) Q fs.
Proof.
  revert P fs. induction found as [|s found IH]; intros P fs Hs HP Hren HQ; cbn [rename_each].
  { apply wp_ret, (HQ P); [|done|done]. intros q. split; [by left|]. by intros [?|(s & ?%elem_of_nil & _)]. }
  destruct (Hs s ltac:(apply elem_of_cons; by left)) as (l & e & -> & Hi & Ht). cbn [app] in *. pose proof Hi as [i Hn].
  assert (Hgood : Forall good_name (l ++ [e])) by (apply at_good, elem_of_union; left; by apply elem_of_dom).
  assert (Hgood' : Forall good_name (l ++ [ok_name e])).
  { apply Forall_app in Hgood as [Hg1 Hg2]. apply Forall_app. split; [done|]. rewrite Forall_singleton in Hg2 |- *.
    by apply good_ok_name. }
  pose proof (Hshort _ _ Hi Ht) as Hsh. pose proof (is_tmp_txt _ Ht) as [Htx _].
  assert (Hl : (length FILE_EXNAME <= length (path_str (l ++ [e])))%nat).
  { destruct Htx as [z ->]. rewrite path_str_snoc, !length_app. cbn. lia. }
  rewrite decide_False by (change (length FILE_EXNAME) with 4%nat in *; change (length kExeNameOk) with 7%nat; lia).
  rewrite ok_path, !cstr_path_str by done.
  assert (Hlo : leftover (at_ (l ++ [e])) l e) by done.
  (* the rest of the files *)
  assert (Hgo : ∀ fs1, renamed_to (progress (P ++ [at_ (l ++ [e])])) fs1 → wp (rename_each found) Q fs1).
  { intros fs1 H1. apply (IH (P ++ [at_ (l ++ [e])])); [intros s Hin; apply Hs, elem_of_cons; by right| |done|].
    - intros q [?| ->%list_elem_of_singleton]%elem_of_app; [by apply HP|by exists l, e].
    - intros P' fs' HP' HL H'. apply (HQ P'); [|done|done]. intros q. rewrite HP', elem_of_app, list_elem_of_singleton. split.
      + intros [[?| ->]|(s & ? & ->)]; [by left| |]; right; [exists (path_str (l ++ [e]))|exists s].
        * rewrite resolve_path_str by done. split; [apply elem_of_cons; by left|done].
        * split; [apply elem_of_cons; by right|done].
      + intros [?|(s & [->|?]%elem_of_cons & ->)]; [by left; left| |by right; exists s].
        left. right. by rewrite resolve_path_str. }
  apply wp_bind. destruct (decide (at_ (l ++ [e]) ∈ P)) as [Hin|Hin].
  - apply wp_bind, rename_missing; [rewrite resolve_path_str by done; by eapply source_gone|].
    intros fs1 (E1 & E2 & E3 & E4 & E5). apply wp_ret, Hgo. apply (progress_again _ _ fs1 Hin).
    destruct Hren as (R1 & R2 & R3 & R4 & R5). split; [by rewrite E1|]. split_and!; congruence.
  - assert (Hni : names fs !! at_ (l ++ [e]) = Some i).
    { apply Hren. exists (at_ (l ++ [e])). split; [done|]. unfold progress. by rewrite decide_False. }
    pose proof Hren as (_ & Rd & _).
    pose proof (rename_calm (path_str (l ++ [e])) (path_str (l ++ [ok_name e])) i) as Hr. unfold renameFile in Hr.
    rewrite !cstr_path_str, !resolve_path_str in Hr by done. apply wp_bind, Hr; [done| | |].
    + rewrite at_snoc, parent_in_dir. unfold is_dir. rewrite Rd. change (is_dir (at_ l) fs0 = true).
      rewrite <- (parent_in_dir (at_ l) e), <- at_snoc. apply (t_parent _ Htree); [apply elem_of_union; left; by apply elem_of_dom|].
      by apply (t_file _ Htree).
    + unfold is_dir. rewrite Rd. apply bool_decide_false. intros [E|Hd].
      * rewrite at_snoc in E. unfold in_dir in E. cbn in E. by destruct (resolve folder).2, l.
      * apply (Hfree l e Hi Ht). apply elem_of_union. by right.
    + intros t. apply wp_ret, Hgo. apply (progress_step P _ l e i fs); try done; cbn. by rewrite final_name_at.
Qed.

(** Where the directories stand, also when the folder is not there. *)
Lemma folder_there l : l ≠ [] → (resolve folder).2 ≠ [] → at_ l ∈ dom (names fs0) ∪ dirs fs0 → is_dir (at_ []) fs0 = true.
Proof.
  intros Hl Hr Hin. destruct l as [|e l]; [done|].
  assert (He : at_ ([] ++ [e]) ∈ dom (names fs0) ∪ dirs fs0).
  { destruct l as [|e' l]; [done|]. apply elem_of_union. right. by apply (above_dir [e] (e' :: l)). }
  rewrite at_snoc in He. apply (t_parent _ Htree) in He; [by rewrite parent_in_dir in He|].
  unfold in_dir. cbn [snd]. intros E%(f_equal length). rewrite length_app in E. cbn in E. lia.
Qed.
End walk.

(** The folder [folder] is part of a tree, its files are text files whose path and final
    name have room, and no unfinished one has a finished one besides it. *)
Record ready (folder : bytes) (fs : Fs) : Prop := {
  r_tree : tree fs;
  r_folder : no_nul folder ∧ (4 <= length folder)%nat ∧ (resolve folder).2 ≠ [];
  r_txt l e : is_Some (names fs !! at_ folder (l ++ [e])) → FILE_EXNAME `suffix_of` e;
  r_short l e : is_Some (names fs !! at_ folder (l ++ [e])) → is_tmp e = true → (length (path_str folder (l ++ [e])) <= 1020)%nat;
  r_free l e : is_Some (names fs !! at_ folder (l ++ [e])) → is_tmp e = true → at_ folder (l ++ [ok_name e]) ∉ dom (names fs) ∪ dirs fs }.

(** The name of a file after the start. *)
Definition restarted (folder : bytes) (q : path) : path :=
  match last q.2 with
  | Some e => if bool_decide (q.1 = (resolve folder).1 ∧ (length (resolve folder).2 < length q.2)%nat ∧
                              take (length (resolve folder).2) q.2 = (resolve folder).2) && is_tmp e
              then (q.1, removelast q.2 ++ [ok_name e]) else q
  | None => q
  end.
Lemma restarted_at folder l e : restarted folder (at_ folder (l ++ [e])) = if is_tmp e then at_ folder (l ++ [ok_name e]) else at_ folder (l ++ [e]).
Proof.
  unfold restarted. rewrite !at_snoc. unfold in_dir, at_. cbn. rewrite last_snoc, bool_decide_true.
  - cbn. by rewrite removelast_last.
  - split_and!; [done|rewrite !length_app; cbn; lia|]. rewrite <- app_assoc. by rewrite take_app_length.
Qed.
Lemma restarted_cases folder q : (∃ l e, q = at_ folder (l ++ [e])) ∨ ((∀ l e, q ≠ at_ folder (l ++ [e])) ∧ restarted folder q = q).
Proof.
  destruct (decide (q.1 = (resolve folder).1 ∧ (length (resolve folder).2 < length q.2)%nat ∧
                    take (length (resolve folder).2) q.2 = (resolve folder).2)) as [(E1 & E2 & E3)|Hno].
  - left. destruct q as [b c]. cbn in *. rewrite <- (take_drop (length (resolve folder).2) c), E3.
    destruct (drop (length (resolve folder).2) c) as [|e l _] eqn:Ed using rev_ind.
    { apply (f_equal length) in Ed. rewrite length_drop in Ed. cbn in Ed. lia. }
    exists l, e. unfold at_. by rewrite E1.
  - right. split.
    + intros l e ->. apply Hno. unfold at_. cbn. split_and!; [done|rewrite !length_app; cbn; lia|by rewrite take_app_length].
    + unfold restarted. destruct (last q.2); [|done]. by rewrite bool_decide_false.
Qed.

(** C19: What a stopped process left is finished at the next start: without failures of the
    system, when all files below the folder end in [.txt], the paths of the unfinished ones
    fit their arrays and their ["_ok.txt"] names are free ([ready]; [dotless_throws],
    [other_files_renamed] and [finished_file_replaced] are runs without these):
    [MessageFilesImpl] can be made, and afterwards every file below the folder
    that was neither an ["_ok.txt"] nor a ["_bak.txt"] file has its ["_ok.txt"] name, every other
    file of the system keeps its name, and no content is changed; the walk over the tree
    needs no more fuel than the directories give. *)
Theorem restart_finishes `{!Env, !Calm _} fs :
  let folder := GetExePath exe ++ MSGFILES_FOLDER_NAME in
  ready folder fs →
  let '(r, fs') := MessageFilesImpl_new fs in
  (∃ self, r = Some self ∧ details_ self = [] ∧ szMainPath_ self = GetExePath exe) ∧
  (∀ q i, names fs' !! q = Some i ↔ ∃ q0, names fs !! q0 = Some i ∧ restarted folder q0 = q) ∧
  dirs fs' = dirs fs ∧ data fs' = data fs ∧ streams fs' = streams fs ∧ undefined fs' = undefined fs.
Proof.
  intros folder []. destruct r_folder0 as (Hnul & Hlen & Hroot).
  assert (Hf : folder ≠ []) by (intros E; rewrite E in Hlen; cbn in Hlen; lia).
  assert (Hscan : wp (ScanfAndRenameTmpFile {| bDldFileInit_ := false; szMainPath_ := GetExePath exe; gateNo_ := 0; szPtCode_ := []; details_ := [] |})
    (λ ok fs', ok = true ∧ ∃ P, (∀ q, q ∈ P ↔ ∃ l e, leftover folder fs q l e) ∧ renamed_to fs (progress P) fs') fs).
  { unfold ScanfAndRenameTmpFile. apply wp_bind. cbn [szMainPath_]. fold folder. unfold depth_fuel. apply wp_bind, wp_get, wp_ret.
    rewrite (ReadFile.cstr_id folder) by done. replace folder with (path_str folder []) at 1 by (unfold path_str; cbn; apply app_nil_r).
    assert (Hwalk : wp (EnumTmpFile (2 + size (dirs fs)) (path_str folder []) []) (λ r fs', ∃ found, r = Found found ∧ same fs fs' ∧
      ∀ s, s ∈ found ↔ below folder fs [] s) fs).
    { destruct (is_dir (at_ folder []) fs) eqn:Hd.
      - apply (walk_calm folder fs Hf Hnul r_tree0 Hlen r_txt0 (2 + size (dirs fs)) [] []); [|done|done|done|].
        + assert (dirs_below fs (at_ folder []) ⊆ dirs fs) as Hsub%subseteq_size by (intros q; unfold dirs_below; by intros [_ ?]%elem_of_filter). lia.
        + intros found fs' H1 H2. by exists found.
      - unfold EnumTmpFile. cbn [walk Nat.add]. rewrite (cstr_path_str folder Hnul) by done.
        apply wp_bind, opendir_missing; [right; by rewrite resolve_path_str|]. intros t. apply wp_ret. exists [].
        split_and!; [done|by split_and!|]. intros s. split; [by intros ?%elem_of_nil|]. intros (l' & e & _ & Hs & _).
        assert (Hd' : is_dir (at_ folder []) fs = true); [|congruence].
        eapply (folder_there folder fs) with (l' ++ [e]); [done..|by destruct l'|done|].
        apply elem_of_union. left. by apply elem_of_dom. }
    apply wp_bind. eapply wp_mono; [exact Hwalk|]. intros r fs1 (found & -> & Hs & Hfound).
    apply wp_bind, (rename_each_calm folder fs Hf Hnul r_tree0 Hlen r_short0 r_free0 found []).
    - intros s. by apply Hfound.
    - by intros q ?%elem_of_nil.
    - destruct Hs as (E1 & Hs). split; [|done]. intros q i. rewrite E1. split; [intros Hq; by exists q|].
      by intros (q0 & Hq & <-).
    - intros P fs' HP HL HR. apply wp_ret. split; [done|]. exists P. split; [|done]. intros q. split; [apply HL|].
      intros (l & e & -> & Hi & Ht). apply HP. right. exists (path_str folder (l ++ [e])). split.
      + apply Hfound. by exists l, e.
      + rewrite resolve_path_str; [done..|]. eapply (at_good folder fs); [done..|]. apply elem_of_union. left. by apply elem_of_dom. }
  unfold MessageFilesImpl_new. rewrite st_bind_run. unfold wp in Hscan.
  destruct (ScanfAndRenameTmpFile _ fs) as [ok fs']. cbn [fst snd] in Hscan. destruct Hscan as (-> & P & HP & H1 & Hrest).
  split; [by eexists|]. split; [|exact Hrest]. intros q i. rewrite H1. f_equiv. intros q0.
  assert (E : is_Some (names fs !! q0) → progress P q0 = restarted folder q0).
  { intros Hs. unfold progress. case_decide as Hin.
    - apply HP in Hin as (l & e & -> & _ & Ht). by rewrite restarted_at, final_name_at, Ht.
    - destruct (restarted_cases folder q0) as [(l & e & ->)|[_ ->]]; [|done]. rewrite restarted_at.
      destruct (is_tmp e) eqn:Ht; [|done]. destruct Hin. apply HP. by exists l, e. }
  split; intros [Hq Hp]; (split; [exact Hq|]); [rewrite <- E|rewrite E]; by eauto.
Qed.

(** ** A sample *)

(** The conditions on a tree and on the files below a folder, for each path that exists. *)
Definition in_tree (fs : Fs) (q : path) : Prop :=
  (q.2 ≠ [] → is_dir (parent q) fs = true) ∧ Forall (λ e, e ≠ [] ∧ (slash ∉ e) ∧ NUL ∉ e) q.2.
#[export] Instance in_tree_dec fs q : Decision (in_tree fs q) := ltac:(unfold in_tree; apply _).
Definition file_ready (folder : bytes) (fs : Fs) (q : path) : Prop :=
  let l := drop (length (resolve folder).2) q.2 in let e := default [] (last l) in
  q.2 ≠ [] ∧ (q ∉ dirs fs) ∧ FILE_EXNAME `suffix_of` e ∧ (length (path_str folder l) <= 1020)%nat ∧
  (at_ folder (removelast l ++ [ok_name e]) ∉ dom (names fs) ∪ dirs fs ∨ is_tmp e = false).
#[export] Instance file_ready_dec folder fs q : Decision (file_ready folder fs q) := ltac:(unfold file_ready; apply _).
Lemma ready_check folder fs :
  no_nul folder → (4 <= length folder)%nat → (resolve folder).2 ≠ [] →
  set_Forall (in_tree fs) (dom (names fs) ∪ dirs fs) → set_Forall (file_ready folder fs) (dom (names fs)) → ready folder fs.
Proof.
  intros H1 H2 H3 HT HF.
  assert (Hat : ∀ l e, is_Some (names fs !! at_ folder (l ++ [e])) →
    FILE_EXNAME `suffix_of` e ∧ (length (path_str folder (l ++ [e])) <= 1020)%nat ∧
    (at_ folder (l ++ [ok_name e]) ∉ dom (names fs) ∪ dirs fs ∨ is_tmp e = false)).
  { intros l e Hi%elem_of_dom. destruct (HF _ Hi) as (_ & _ & Hf). unfold at_ at 1 2 3 4 5 in Hf. cbn in Hf.
    rewrite drop_app_length, last_snoc, removelast_last in Hf. exact Hf. }
  split; [split| |intros l e Hi; by destruct (Hat l e Hi) as (? & _)|intros l e Hi _; by destruct (Hat l e Hi) as (_ & ? & _)|].
  - intros q Hi%elem_of_dom. by destruct (HF _ Hi) as (? & ? & _).
  - intros q Hq. apply HT, Hq.
  - intros q Hq. apply HT, Hq.
  - done.
  - intros l e Hi Ht. destruct (Hat l e Hi) as (_ & _ & [?|?]); [done|congruence].
Qed.

Definition crashed : Fs := {|
  tick := 0;
  names := list_to_map [(resolve (lit "MsgFiles/MT/0/130509003.txt"), 0%nat); (resolve (lit "MsgFiles/MT/0/130501000_ok.txt"), 1%nat);
    (resolve (lit "MsgFiles/RE/130509004.txt"), 2%nat); (resolve (lit "log/now.txt"), 3%nat)];
  dirs := list_to_set (map (λ s, resolve (lit s)) ["MsgFiles"; "MsgFiles/MT"; "MsgFiles/MT/0"; "MsgFiles/RE"; "log"]%string);
  data := [lit "one"; lit "two"; lit "three"; lit "four"]; streams := []; undefined := false |}.
Lemma restart_finishes_witness :
  let '(r, fs') := MessageFilesImpl_new (H := calm_env) crashed in
  (∃ self, r = Some self ∧ details_ self = [] ∧ szMainPath_ self = GetExePath (@exe calm_env)) ∧
  (∀ q i, names fs' !! q = Some i ↔ ∃ q0, names crashed !! q0 = Some i ∧ restarted (GetExePath (@exe calm_env) ++ MSGFILES_FOLDER_NAME) q0 = q) ∧
  dirs fs' = dirs crashed ∧ data fs' = data crashed ∧ streams fs' = streams crashed ∧ undefined fs' = undefined crashed.
Proof.
  apply (@restart_finishes calm_env calm_env_calm crashed). apply ready_check.
  - decide_now.
  - cbn. lia.
  - discriminate.
  - decide_now.
  - decide_now.
Defined.
(** What the names are then. *)
Lemma crashed_restarted :
  names (MessageFilesImpl_new (H := calm_env) crashed).2 = list_to_map [(resolve (lit "MsgFiles/MT/0/130509003_ok.txt"), 0%nat); (resolve (lit "MsgFiles/MT/0/130501000_ok.txt"), 1%nat);
    (resolve (lit "MsgFiles/RE/130509004_ok.txt"), 2%nat); (resolve (lit "log/now.txt"), 3%nat)].
Proof. decide_now. Qed.

(** ** What goes wrong otherwise *)

Definition with_files (l : list (string * nat)) : Fs :=
  crashed <| names := list_to_map (map (λ e, (resolve (lit e.1), e.2)) l) |>.
(** A file without a dot in its path: [find_last_of] gives [npos], and the constructor throws. *)
Lemma dotless_throws : (MessageFilesImpl_new (H := calm_env) (with_files [("MsgFiles/MT/core", 0%nat)])).1 = None.
Proof. by vm_compute. Qed.
(** A file of any other kind is renamed too, without its last four bytes. *)
Lemma other_files_renamed :
  names (MessageFilesImpl_new (H := calm_env) (with_files [("MsgFiles/MT/state.json", 0%nat)])).2 =
  {[ resolve (lit "MsgFiles/MT/state._ok.txt") := 0%nat ]}.
Proof. decide_now. Qed.
(** A finished file of the same number is replaced: its records are lost. *)
Lemma finished_file_replaced :
  names (MessageFilesImpl_new (H := calm_env) (with_files [("MsgFiles/MT/1.txt", 0%nat); ("MsgFiles/MT/1_ok.txt", 1%nat)])).2 =
  {[ resolve (lit "MsgFiles/MT/1_ok.txt") := 0%nat ]}.
Proof. decide_now. Qed.

End MsgRestart.
