(* ===== verification/RemainMgr.v ===== *)
(** * The remain-file manager ([RemainMgr.cpp] and [WriteFileMgr] of [WriteFileMgr.cpp])

    [RemainMgr] keeps a [WriteFileMgr] for each folder, which holds a shared and a
    local writer for each of the six kinds of files; reading creates a
    [ReadDirMgr]. The manager implements the interface [RemainMgrOps] the object
    layer is written against. Calls are sequential. *)

From S2P Require Import Prelude CLib Incommon UniqueNum FileSys WriteFile ReadFile RemainObjMgr.
Import FileSys.
Import WriteFile(WriteFile, ShareWriteFileMgr_new, localWriteFileMgr_new, Share_writeToFile,
  local_writeToFile, Share_everySecondCheck, local_everySecondCheck, Share_exitClose, local_exitClose).

Module WriteFileMgr.

Record WriteFileMgr := {
  isExit_ : Z; gateNo_ : Z; maxCount_ : Z; outSecond_ : Z;
  localPath_ : bytes; sharePath_ : bytes; fragFolder_ : bytes;
  shareReFile : option WriteFile; shareReBakFile : option WriteFile;
  shareMoFile : option WriteFile; shareMoBakFile : option WriteFile;
  shareMtFile : option WriteFile; shareMtBakFile : option WriteFile;
  localReFile : option WriteFile; localReBakFile : option WriteFile;
  localMoFile : option WriteFile; localMoBakFile : option WriteFile;
  localMtFile : option WriteFile; localMtBakFile : option WriteFile }.
#[export] Instance eta_WriteFileMgr : Eta WriteFileMgr := λ r, {|
  isExit_ := isExit_ r; gateNo_ := gateNo_ r; maxCount_ := maxCount_ r; outSecond_ := outSecond_ r;
  localPath_ := localPath_ r; sharePath_ := sharePath_ r; fragFolder_ := fragFolder_ r;
  shareReFile := shareReFile r; shareReBakFile := shareReBakFile r;
  shareMoFile := shareMoFile r; shareMoBakFile := shareMoBakFile r;
  shareMtFile := shareMtFile r; shareMtBakFile := shareMtBakFile r;
  localReFile := localReFile r; localReBakFile := localReBakFile r;
  localMoFile := localMoFile r; localMoBakFile := localMoBakFile r;
  localMtFile := localMtFile r; localMtBakFile := localMtBakFile r |}.

Definition WriteFileMgr_new (gateNo maxCout outSecond : Z) (sharePath localPath fragFolder : bytes) : WriteFileMgr := {|
  isExit_ := 0; gateNo_ := gateNo; maxCount_ := maxCout; outSecond_ := outSecond;
  localPath_ := localPath; sharePath_ := sharePath; fragFolder_ := fragFolder;
  shareReFile := None; shareReBakFile := None; shareMoFile := None; shareMoBakFile := None;
  shareMtFile := None; shareMtBakFile := None; localReFile := None; localReBakFile := None;
  localMoFile := None; localMoBakFile := None; localMtFile := None; localMtBakFile := None |}.

Section operations.
Context `{Env}.

(** One case of the [switch] of [writeToFile]: the shared file, and the local one
    when that fails; the writers are created when they are first needed. *)
Definition write_case (self : WriteFileMgr) (flag : Z) (share loc : option WriteFile) (content : bytes) :
    St Fs (Z * (option WriteFile * option WriteFile)) :=
  let s := match share with
           | Some s => s
           | None => ShareWriteFileMgr_new (gateNo_ self) (maxCount_ self) (outSecond_ self) flag
                       (sharePath_ self) (fragFolder_ self)
           end in
  '(ret, s) ← Share_writeToFile content s;
  if ret <? 0 then
    let l := match loc with
             | Some l => l
             | None => localWriteFileMgr_new (gateNo_ self) (maxCount_ self) (outSecond_ self) flag
                         (localPath_ self) (fragFolder_ self)
             end in
    '(ret, l) ← local_writeToFile content l;
    mret (ret, (Some s, Some l))
  else mret (ret, (Some s, loc)).

Definition writeToFile (flag : Z) (content : bytes) (self : WriteFileMgr) : St Fs (Z * WriteFileMgr) :=
  if decide (flag = RE_REMAIN_FLAG) then
    '(ret, (s, l)) ← write_case self flag (shareReFile self) (localReFile self) content;
    mret (ret, self <| shareReFile := s |> <| localReFile := l |>)
  else if decide (flag = RE_REMAIN_BAK_FLAG) then
    '(ret, (s, l)) ← write_case self flag (shareReBakFile self) (localReBakFile self) content;
    mret (ret, self <| shareReBakFile := s |> <| localReBakFile := l |>)
  else if decide (flag = MO_REMAIN_FLAG) then
    '(ret, (s, l)) ← write_case self flag (shareMoFile self) (localMoFile self) content;
    mret (ret, self <| shareMoFile := s |> <| localMoFile := l |>)
  else if decide (flag = MO_REMAIN_BAK_FLAG) then
    '(ret, (s, l)) ← write_case self flag (shareMoBakFile self) (localMoBakFile self) content;
    mret (ret, self <| shareMoBakFile := s |> <| localMoBakFile := l |>)
  else if decide (flag = MT_REMAIN_FLAG) then
    '(ret, (s, l)) ← write_case self flag (shareMtFile self) (localMtFile self) content;
    mret (ret, self <| shareMtFile := s |> <| localMtFile := l |>)
  else if decide (flag = MT_REMAIN_BAK_FLAG) then
    '(ret, (s, l)) ← write_case self flag (shareMtBakFile self) (localMtBakFile self) content;
    mret (ret, self <| shareMtBakFile := s |> <| localMtBakFile := l |>)
  else mret (-1035, self).

(** An operation on a writer that may not exist. *)
Definition on_file (f : WriteFile → St Fs WriteFile) (o : option WriteFile) : St Fs (option WriteFile) :=
  match o with None => mret None | Some w => w ← f w; mret (Some w) end.

(** The writers in the order the code visits them. *)
Definition for_each (fs fl : WriteFile → St Fs WriteFile) (self : WriteFileMgr) : St Fs WriteFileMgr :=
  a ← on_file fs (shareReFile self); let self := self <| shareReFile := a |> in
  a ← on_file fs (shareReBakFile self); let self := self <| shareReBakFile := a |> in
  a ← on_file fs (shareMoFile self); let self := self <| shareMoFile := a |> in
  a ← on_file fs (shareMoBakFile self); let self := self <| shareMoBakFile := a |> in
  a ← on_file fs (shareMtFile self); let self := self <| shareMtFile := a |> in
  a ← on_file fs (shareMtBakFile self); let self := self <| shareMtBakFile := a |> in
  a ← on_file fl (localReFile self); let self := self <| localReFile := a |> in
  a ← on_file fl (localReBakFile self); let self := self <| localReBakFile := a |> in
  a ← on_file fl (localMoFile self); let self := self <| localMoFile := a |> in
  a ← on_file fl (localMoBakFile self); let self := self <| localMoBakFile := a |> in
  a ← on_file fl (localMtFile self); let self := self <| localMtFile := a |> in
  a ← on_file fl (localMtBakFile self); mret (self <| localMtBakFile := a |>).

(** [reset()] runs the destructor, which calls [exitClose]. *)
Definition exitClose (self : WriteFileMgr) : St Fs WriteFileMgr :=
  _ ← for_each Share_exitClose local_exitClose self;
  mret ((WriteFileMgr_new (gateNo_ self) (maxCount_ self) (outSecond_ self) (sharePath_ self)
           (localPath_ self) (fragFolder_ self)) <| isExit_ := isExit_ self |>).

Definition everySecondCheck (second : Z) : WriteFileMgr → St Fs WriteFileMgr :=
  for_each (Share_everySecondCheck second) (local_everySecondCheck second).
Definition updateGenFreq (second : Z) : WriteFileMgr → St Fs WriteFileMgr :=
  for_each (λ w, mret (WriteFile.updateGenFreq second w)) (λ w, mret (WriteFile.updateGenFreq second w)).
Definition updateMaxFileSize (size : Z) : WriteFileMgr → St Fs WriteFileMgr :=
  for_each (λ w, mret (WriteFile.updateMaxFileSize size w)) (λ w, mret (WriteFile.updateMaxFileSize size w)).
End operations.

(** When [fflush] fails once, [ShareWriteFileMgr] closes and publishes the file with
    the record and reports -1036, so the record goes to the local file, too. *)
Lemma flush_failure_writes_twice :
  let fs := Fs_new <| dirs := {[ resolve (lit "/share") ]} |> in
  let w := WriteFileMgr_new 1 9 60 (lit "/share") (lit "/local") [] in
  let '((r, _), fs) := writeToFile (H := env_with (Some (Fflush, 6, 0)%nat)) RE_REMAIN_FLAG (lit "record") w fs in
  r = 0 ∧ data fs = [lit "record"; []; lit "record"].
Proof. by vm_compute. Qed.
End WriteFileMgr.

Module RemainMgr.
Import WriteFileMgr(WriteFileMgr, WriteFileMgr_new).

Definition REMAIN_MGR_RE_FLAG : Z := 1.
Definition REMAIN_MGR_MO_FLAG : Z := 2.
Definition REMAIN_MGR_MT_FLAG : Z := 3.

(** The members of [RemainMgr], the map of the file and the file system. The map
    is a list in the order of its keys. *)
Record Mgr := {
  isExit_ : Z; isInit_ : Z; gateNo_ : Z; maxCount_ : Z; outSecond_ : Z;
  sharePath_ : bytes; localPath_ : bytes;
  userFileMgrMap_ : list (bytes * WriteFileMgr); files : Fs }.
#[export] Instance eta_Mgr : Eta Mgr := λ r, {|
  isExit_ := isExit_ r; isInit_ := isInit_ r; gateNo_ := gateNo_ r; maxCount_ := maxCount_ r;
  outSecond_ := outSecond_ r; sharePath_ := sharePath_ r; localPath_ := localPath_ r;
  userFileMgrMap_ := userFileMgrMap_ r; files := files r |}.

Definition RemainMgr_new (fs : Fs) : Mgr := {|
  isExit_ := 0; isInit_ := 0; gateNo_ := 0; maxCount_ := 0; outSecond_ := 0; sharePath_ := [];
  localPath_ := []; userFileMgrMap_ := []; files := fs |}.

(** [std::string::compare] *)
Fixpoint str_lt (a b : bytes) : bool :=
  match a, b with
  | [], [] => false
  | [], _ => true
  | _, [] => false
  | x :: a', y :: b' => if decide (x = y) then str_lt a' b' else uchar x <? uchar y
  end.
Fixpoint map_find (k : bytes) (m : list (bytes * WriteFileMgr)) : option WriteFileMgr :=
  match m with
  | [] => None
  | (k', v) :: m' => if decide (k = k') then Some v else map_find k m'
  end.
Fixpoint map_set (k : bytes) (v : WriteFileMgr) (m : list (bytes * WriteFileMgr)) : list (bytes * WriteFileMgr) :=
  match m with
  | [] => [(k, v)]
  | (k', v') :: m' =>
      if decide (k = k') then (k, v) :: m'
      else if str_lt k k' then (k, v) :: m else (k', v') :: map_set k v m'
  end.

Section manager.
Context `{Env}.

(** A file-system computation as one of the manager. *)
Definition on_fs {A} (m : St Fs A) : St Mgr A := λ w,
  let '(a, fs) := m (files w) in (a, w <| files := fs |>).

(** The loops over the map. *)
Fixpoint each_manager (f : WriteFileMgr → St Fs WriteFileMgr) (m : list (bytes * WriteFileMgr)) :
    St Fs (list (bytes * WriteFileMgr)) :=
  match m with
  | [] => mret []
  | (k, v) :: m' => v ← f v; m' ← each_manager f m'; mret ((k, v) :: m')
  end.
Definition for_managers (f : WriteFileMgr → St Fs WriteFileMgr) : St Mgr () :=
  w ← st_get;
  m ← on_fs (each_manager f (userFileMgrMap_ w));
  st_mod (λ w, w <| userFileMgrMap_ := m |>).

(** The destructors behind the [swap] call [exitClose] again. *)
Definition remainMgrExit : St Mgr () :=
  _ ← st_mod (λ w, w <| isExit_ := 1 |>);
  _ ← for_managers WriteFileMgr.exitClose;
  _ ← for_managers WriteFileMgr.exitClose;
  st_mod (λ w, w <| userFileMgrMap_ := [] |>).

Definition remainMgrInit (gateNo maxCount outSeconds : Z) (sharePath localPath : bytes) : St Mgr Z :=
  _ ← st_mod (λ w, w <| gateNo_ := s32 gateNo |> <| maxCount_ := maxCount |> <| outSecond_ := outSeconds |>
       <| sharePath_ := sharePath |>
       <| localPath_ := match localPath with [] => locakExePath exe | _ => localPath end |>
       <| isInit_ := 1 |>);
  mret 0.

(** [writeRemainFile] and [writeRemainFileBak]: the flags of the three kinds of
    files and the code for any other kind. *)
Definition write_remain (re mo mt e_kind : Z) (bitFlag : Z) (fragFolder data : bytes) : St Mgr Z :=
  w ← st_get;
  if decide (isInit_ w = 0) then mret (-1314)
  else if decide (isExit_ w ≠ 0) then mret (-131)
  else
    let fileMgrP := default (WriteFileMgr_new (gateNo_ w) (maxCount_ w) (outSecond_ w) (sharePath_ w)
                               (localPath_ w) fragFolder) (map_find fragFolder (userFileMgrMap_ w)) in
    _ ← st_mod (λ w, w <| userFileMgrMap_ ::= map_set fragFolder fileMgrP |>);
    let flag := if decide (bitFlag = REMAIN_MGR_RE_FLAG) then Some re
                else if decide (bitFlag = REMAIN_MGR_MO_FLAG) then Some mo
                else if decide (bitFlag = REMAIN_MGR_MT_FLAG) then Some mt else None in
    match flag with
    | Some flag =>
        '(ret, fileMgrP) ← on_fs (WriteFileMgr.writeToFile flag data fileMgrP);
        _ ← st_mod (λ w, w <| userFileMgrMap_ ::= map_set fragFolder fileMgrP |>);
        mret ret
    | None => mret e_kind
    end.
Definition writeRemainFile : Z → bytes → bytes → St Mgr Z :=
  write_remain RE_REMAIN_FLAG MO_REMAIN_FLAG MT_REMAIN_FLAG (-133).
Definition writeRemainFileBak : Z → bytes → bytes → St Mgr Z :=
  write_remain RE_REMAIN_BAK_FLAG MO_REMAIN_BAK_FLAG MT_REMAIN_BAK_FLAG (-136).

(** [remainData], empty in the caller, is assigned on success only. *)
Definition readRemainFile (bitFlag : Z) (fragFolder : bytes) : St Mgr (Z * bytes) :=
  w ← st_get;
  if decide (isInit_ w = 0) then mret (-1314, [])
  else if decide (isExit_ w ≠ 0) then mret (-131, [])
  else
    let read flag :=
      dirRead ← on_fs (ReadDir.ReadDirMgr_new flag (gateNo_ w) fragFolder (sharePath_ w) (localPath_ w));
      '(ret, text) ← on_fs (ReadDir.readReaminData dirRead);
      mret (ret, default [] text) in
    if decide (bitFlag = REMAIN_MGR_RE_FLAG) then read RE_REMAIN_FLAG
    else if decide (bitFlag = REMAIN_MGR_MO_FLAG) then read MO_REMAIN_FLAG
    else if decide (bitFlag = REMAIN_MGR_MT_FLAG) then read MT_REMAIN_FLAG
    else mret (-1311, []).

Definition statisticsRemainCount (bitFlag : Z) (fragFolder : bytes) : St Mgr (Z * (Z * Z)) :=
  w ← st_get;
  if decide (isInit_ w = 0) then mret (-1314, (0, 0))
  else if decide (isExit_ w ≠ 0) then mret (-131, (0, 0))
  else mret (0, (0, 0)).

Definition unless_exit (m : St Mgr ()) : St Mgr () :=
  w ← st_get; if decide (isExit_ w ≠ 0) then mret () else m.
Definition everySecondCheck (second : Z) : St Mgr () :=
  second ← (if decide (second = 0) then now ← on_fs secondSinceEpoch; mret (u64 now) else mret second);
  unless_exit (for_managers (WriteFileMgr.everySecondCheck second)).
Definition updateGenFreq (freq : Z) : St Mgr () := unless_exit (for_managers (WriteFileMgr.updateGenFreq freq)).
Definition updateMaxFileSize (size : Z) : St Mgr () := unless_exit (for_managers (WriteFileMgr.updateMaxFileSize size)).

(** What the object layer calls. *)
#[export] Instance remain_mgr_ops : RemainMgrOps Mgr := {|
  RemainObjMgr.remainMgrInit := remainMgrInit;
  RemainObjMgr.remainMgrExit := remainMgrExit;
  RemainObjMgr.writeRemainFile := writeRemainFile;
  RemainObjMgr.writeRemainFileBak := writeRemainFileBak;
  RemainObjMgr.readRemainFile := readRemainFile;
  RemainObjMgr.remainMgrStatistics := statisticsRemainCount;
  RemainObjMgr.remainMgrCheck := everySecondCheck;
  RemainObjMgr.remainMgrGenFreq := updateGenFreq;
  RemainObjMgr.remainMgrMaxFileSize := updateMaxFileSize |}.
End manager.
End RemainMgr.
