(* ===== verification/RemainLife.v ===== *)
(** * The life of an object in the remain files

    The object layer, the manager, the writers and the readers together: without
    failures the objects written through [RemainObjMgr] come back, each once. *)

From S2P Require Import Prelude CLib Incommon UniqueNum FileSys WriteFile ReadFile RemainObj RemainCodec.
From S2P Require Import RemainRe RemainMo RemainMt RemainObjMgr RemainMgr CalmFs Journal.
Import FileSys CalmFs Journal.
Import WriteFile(WriteFile, ShareWriteFileMgr_new, localWriteFileMgr_new, local_writeToFile, dir_path,
  path_, maxCount_, outSecond_, seqId_).
Import WriteFileMgr(WriteFileMgr, WriteFileMgr_new, shareReFile, shareMoFile, shareMtFile,
  localReFile, localMoFile, localMtFile).

#[local] Existing Instance RemainMgr.eta_Mgr.
#[local] Existing Instance WriteFileMgr.eta_WriteFileMgr.
#[local] Existing Instance WriteFile.eta_WriteFile.

Module RemainLife.
#[local] Opaque snprintf cstr WriteFile.local_writeToFile.

(** A computation on the files, run by the manager. *)
Lemma wp_on_fs {A} (m : St Fs A) Q (w : RemainMgr.Mgr) :
  wp m (λ a fs, Q a (w <| RemainMgr.files := fs |>)) (RemainMgr.files w) → wp (RemainMgr.on_fs m) Q w.
Proof. unfold wp, RemainMgr.on_fs. by destruct (m (RemainMgr.files w)). Qed.

Section life.
Context {env : Env} `{!Calm env}.
Context (gateNo maxCount outSecond : Z) (root frag : bytes) (flag : Z).
Context (Hflag : known_flag flag) (Hgate : in_s 32 gateNo) (Hmax : 1 <= maxCount < 2 ^ 31).
Context (Hroot : no_nul root) (Hroot_ne : root ≠ []) (Hfrag : no_nul frag).
Context (Hlen : (length root + length frag <= 850)%nat).

(** The kind of file for a kind of object. *)
Definition file_flag : Z := if decide (flag = 1) then RE_REMAIN_FLAG
  else if decide (flag = 2) then MO_REMAIN_FLAG else MT_REMAIN_FLAG.
Definition data_dir : bytes := dir_path file_flag root frag.

(** The two writers of the kind in a manager, and the manager with these only. *)
Definition with_writers (s l : WriteFile) (m : WriteFileMgr) : WriteFileMgr :=
  if decide (flag = 1) then m <| shareReFile := Some s |> <| localReFile := Some l |>
  else if decide (flag = 2) then m <| shareMoFile := Some s |> <| localMoFile := Some l |>
  else m <| shareMtFile := Some s |> <| localMtFile := Some l |>.
Definition base_mgr : WriteFileMgr := WriteFileMgr_new gateNo maxCount outSecond [] root frag.
Definition share0 : WriteFile := ShareWriteFileMgr_new gateNo maxCount outSecond file_flag [] frag.
Definition local0 : WriteFile := localWriteFileMgr_new gateNo maxCount outSecond file_flag root frag.
Definition mgr_of (l : WriteFile) : WriteFileMgr := with_writers share0 l base_mgr.

(** The state of the manager while the folder holds the journal, after at most [N]
    files. *)
Record holds (N : Z) (pubs : list (bytes * list bytes)) (cur : option (list bytes)) (w : RemainMgr.Mgr) : Prop := {
  h_init : RemainMgr.isInit_ w ≠ 0;
  h_exit : RemainMgr.isExit_ w = 0;
  h_gate : RemainMgr.gateNo_ w = gateNo;
  h_max : RemainMgr.maxCount_ w = maxCount;
  h_out : RemainMgr.outSecond_ w = outSecond;
  h_share : RemainMgr.sharePath_ w = [];
  h_local : RemainMgr.localPath_ w = root;
  h_writer : ∃ l, (RemainMgr.userFileMgrMap_ w = [] ∧ l = local0 ∨ RemainMgr.userFileMgrMap_ w = [(frag, mgr_of l)]) ∧
    represents l pubs cur (RemainMgr.files w) ∧ path_ l = data_dir ∧ maxCount_ l = maxCount ∧
    outSecond_ l = outSecond ∧ seqId_ l <= N }.

(** The shared writer has no directory: the local one writes. *)
Lemma case_write m sh lo l data Q fs :
  WriteFileMgr.gateNo_ m = gateNo → WriteFileMgr.maxCount_ m = maxCount → WriteFileMgr.outSecond_ m = outSecond →
  WriteFileMgr.sharePath_ m = [] → WriteFileMgr.localPath_ m = root → WriteFileMgr.fragFolder_ m = frag →
  sh = None ∨ sh = Some share0 → (lo = None ∧ l = local0) ∨ lo = Some l →
  wp (local_writeToFile data l) (λ rl, Q (rl.1, (Some share0, Some rl.2))) fs →
  wp (WriteFileMgr.write_case m file_flag sh lo data) Q fs.
Proof.
  intros E1 E2 E3 E4 E5 E6 Hs Hl Hw. unfold WriteFileMgr.write_case. rewrite E1, E2, E3, E4, E5, E6.
  fold share0. fold local0.
  assert (match sh with Some s => s | None => share0 end = share0) as -> by (by destruct Hs as [-> | ->]).
  apply wp_bind. apply wp_ret. cbn [Z.ltb Z.compare].
  assert (match lo with Some s => s | None => local0 end = l) as -> by (by destruct Hl as [[-> ->]| ->]).
  apply wp_bind. eapply wp_mono; [exact Hw|]. by intros [r l'].
Qed.

(** Writing through a [WriteFileMgr] without shared directory. *)
Lemma mgr_write m l data Q fs :
  m = base_mgr ∧ l = local0 ∨ m = mgr_of l →
  wp (local_writeToFile data l) (λ rl, Q (rl.1, mgr_of rl.2)) fs →
  wp (WriteFileMgr.writeToFile file_flag data m) Q fs.
Proof.
  intros Hm Hw. pose proof (λ sh lo, case_write m sh lo l data) as Hc.
  unfold mgr_of, with_writers in *. 
  destruct (flag_cases flag Hflag) as [E|[E|E]]; destruct Hm as [[-> ->]| ->]; unfold WriteFileMgr.writeToFile;
    unfold file_flag in *; rewrite ?E in *; cbn in Hc |- *; rewrite ?E; apply wp_bind; 
    (apply Hc; [done..|naive_solver|naive_solver|]); (eapply wp_mono; [exact Hw|by intros [r l']]).
Qed.

Lemma flag_choice {A} (k : Z → A) (d : A) :
  (if decide (flag = 1) then k RE_REMAIN_FLAG else if decide (flag = 2) then k MO_REMAIN_FLAG
   else if decide (flag = 3) then k MT_REMAIN_FLAG else d) = k file_flag.
Proof. unfold file_flag. by destruct (flag_cases flag Hflag) as [E|[E|E]]; rewrite E. Qed.

(** A record written through the manager is the last one of the journal. *)
Lemma write_holds N data pubs cur Q w :
  holds N pubs cur w → cur ≠ Some [] → N < 99999 →
  (∀ pubs' c w', holds (N + 1) pubs' (Some c) w' → c ≠ [] →
     records pubs' (Some c) = records pubs cur ++ [data] → Q 0 w') →
  wp (RemainMgr.writeRemainFile flag frag data) Q w.
Proof.
  intros [H1 H2 H3 H4 H5 H6 H7 (l & Hl & Hr & Hp & Hm & Ho & Hs)] Hne Hn HQ.
  unfold RemainMgr.writeRemainFile, RemainMgr.write_remain. apply wp_bind, wp_get.
  rewrite decide_False, decide_False by (done || lia). rewrite H3, H4, H5, H6, H7. fold base_mgr.
  set (m := default base_mgr (RemainMgr.map_find frag (RemainMgr.userFileMgrMap_ w))).
  assert (Hm' : m = base_mgr ∧ l = local0 ∨ m = mgr_of l).
  { unfold m. destruct Hl as [[-> ->]| ->]; cbn; [by left|]. rewrite decide_True by done. by right. }
  assert (Hset : ∀ m', RemainMgr.map_set frag m' (RemainMgr.map_set frag m (RemainMgr.userFileMgrMap_ w)) = [(frag, m')]).
  { intros m'. destruct Hl as [[-> _]| ->]; cbn; repeat (rewrite decide_True by done; cbn); done. }
  apply wp_bind, wp_mod.
  cbv zeta. change RemainMgr.REMAIN_MGR_RE_FLAG with 1. change RemainMgr.REMAIN_MGR_MO_FLAG with 2.
  change RemainMgr.REMAIN_MGR_MT_FLAG with 3. rewrite (flag_choice Some None).
  apply wp_bind, wp_on_fs, (mgr_write _ l); [done|].
  apply (write_represents l pubs cur); [done..|lia|].
  intros l' fs' pubs' c Hr' Hc Hrec Hseq Hp' Hm2 Ho'. apply wp_bind, wp_mod, wp_ret.
  apply (HQ pubs' c); [|done..]. split; try done. exists l'. split; [right; apply Hset|].
  split_and!; [done|congruence..|lia].
Qed.

(** [for_each] on a manager that has only the two writers. *)
Lemma mgr_for_each fS fL l Q fs :
  fS share0 fs = (share0, fs) → wp (fL l) (λ l', Q (mgr_of l')) fs →
  wp (WriteFileMgr.for_each fS fL (mgr_of l)) Q fs.
Proof.
  intros Hs Hw. unfold WriteFileMgr.for_each.
  assert (Hnone : ∀ f (R : option WriteFile → Fs → Prop) fs, R None fs → wp (WriteFileMgr.on_file f None) R fs) by done.
  assert (Hshare : ∀ (R : option WriteFile → Fs → Prop), R (Some share0) fs → wp (WriteFileMgr.on_file fS (Some share0)) R fs).
  { intros R HR. apply wp_bind. unfold wp. by rewrite Hs. }
  assert (Hlocal : ∀ (R : option WriteFile → Fs → Prop), wp (fL l) (λ l', R (Some l')) fs → wp (WriteFileMgr.on_file fL (Some l)) R fs).
  { intros R HR. by apply wp_bind. }
  unfold mgr_of, with_writers in *.
  destruct (flag_cases flag Hflag) as [E|[E|E]]; rewrite E in *; 
    repeat (apply wp_bind; cbn; first [apply Hnone|apply Hshare|(apply Hlocal; eapply wp_mono; [exact Hw|intros l' fs' HQ])]);
    exact HQ.
Qed.

(** The check publishes the current file. *)
Lemma check_holds N second pubs cur Q w :
  holds N pubs cur w → cur ≠ Some [] → second ≠ 0 →
  (∀ n, outSecond < second - (clock n).1 ∧ 0 <= second - (clock n).1 < 2 ^ 31) →
  (∀ pubs' w', holds N pubs' None w' → records pubs' None = records pubs cur → Q () w') →
  wp (RemainMgr.everySecondCheck second) Q w.
Proof.
  intros [H1 H2 H3 H4 H5 H6 H7 (l & Hl & Hr & Hp & Hm & Ho & Hs)] Hne Hsec Hclk HQ.
  unfold RemainMgr.everySecondCheck, RemainMgr.unless_exit, RemainMgr.for_managers. apply wp_bind.
  rewrite decide_False by done. apply wp_ret, wp_bind, wp_get. rewrite decide_False by lia.
  apply wp_bind, wp_get, wp_bind, wp_on_fs. destruct Hl as [[-> ->]| ->]; cbn [RemainMgr.each_manager].
  - apply wp_ret, wp_mod. assert (cur = None) as ->.
    { destruct cur as [c|]; [|done]. pose proof (rp_current _ _ _ _ Hr) as Hcu. cbn in Hcu.
      destruct (cu_file _ _ _ Hcu) as (f & i & Hf & _). done. }
    apply (HQ pubs); [|done]. split; try done. exists local0. split; [by left|done].
  - apply wp_bind, mgr_for_each; [done|]. apply (check_represents _ _ pubs cur); [done..|by rewrite Ho|].
    intros l' fs' pubs' Hr' Hrec Hseq Hp' Hm' Ho'. apply wp_bind, wp_ret, wp_ret, wp_mod.
    eapply HQ; [|exact Hrec]. split; try done. exists l'. split; [by right|]. split_and!; [done|congruence..|].
    by rewrite Hseq.
Qed.

(** The directory the reader looks into is the writer's. *)
Definition kind_dir : bytes := if decide (flag = 1) then reportDir else if decide (flag = 2) then moDir else mtDir.
Definition full_dir : bytes := cstr root ++ [slash] ++ kind_dir ++ [slash] ++ cstr frag.

Lemma kind_cases :
  file_flag = RE_REMAIN_FLAG ∧ kind_dir = reportDir ∨ file_flag = MO_REMAIN_FLAG ∧ kind_dir = moDir ∨
  file_flag = MT_REMAIN_FLAG ∧ kind_dir = mtDir.
Proof.
  unfold file_flag, kind_dir. destruct (flag_cases flag Hflag) as [E|[E|E]]; rewrite E; [left|right; left|right; right]; done.
Qed.

Lemma full_dir_length : (length full_dir <= 862)%nat.
Proof.
  unfold full_dir. rewrite !length_app. pose proof (WriteFile.length_cstr root). pose proof (WriteFile.length_cstr frag).
  assert (length kind_dir <= 8)%nat by (unfold kind_dir; repeat case_decide; cbn; lia). cbn [length]. lia.
Qed.

Lemma data_dir_full : data_dir = full_dir.
Proof.
  transitivity (snprintf full_dir).
  - unfold data_dir, dir_path, full_dir, WriteFile.dir_of.
    destruct kind_cases as [[-> ->]|[[-> ->]|[-> ->]]];
      repeat (rewrite decide_True by done || rewrite decide_False by discriminate); reflexivity.
  - apply ReadFile.snprintf_id. pose proof full_dir_length. lia.
Qed.

Lemma ReadDirMgr_new_wp Q fs :
  Q {| ReadDir.bitFlag_ := file_flag; ReadDir.d_gateNo_ := gateNo; ReadDir.shareRootPath_ := [];
       ReadDir.sharePath_ := []; ReadDir.localPath_ := data_dir; ReadDir.d_fragFolder_ := frag |} fs →
  wp (ReadDir.ReadDirMgr_new file_flag gateNo frag [] root) Q fs.
Proof.
  assert (Hnew : ReadDir.ReadDirMgr_new file_flag gateNo frag [] root =
    (loc ← ReadFile.sprintf full_dir; mret {| ReadDir.bitFlag_ := file_flag; ReadDir.d_gateNo_ := gateNo;
       ReadDir.shareRootPath_ := []; ReadDir.sharePath_ := []; ReadDir.localPath_ := loc; ReadDir.d_fragFolder_ := frag |})).
  { unfold ReadDir.ReadDirMgr_new, full_dir.
    destruct kind_cases as [[-> ->]|[[-> ->]|[-> ->]]];
      repeat (case_decide; try discriminate); try congruence;
      cbv beta iota zeta; rewrite st_ret_bind; reflexivity. }
  rewrite Hnew, data_dir_full. intros HQ. apply wp_bind, ReadFile.sprintf_wp; [|done].
  pose proof full_dir_length. lia.
Qed.

(** Reading takes one published file of the journal. *)
Lemma read_holds N pubs Q w :
  holds N pubs None w → Forall (.≠ []) (records pubs None) →
  (∀ w' pubs1 n c pubs2, pubs = pubs1 ++ (n, c) :: pubs2 → holds N (pubs1 ++ pubs2) None w' → Q (0, concat c) w') →
  (pubs = [] → ∀ r w', r < 0 → holds N pubs None w' → Q (r, []) w') →
  wp (RemainMgr.readRemainFile flag frag) Q w.
Proof.
  intros [H1 H2 H3 H4 H5 H6 H7 (l & Hl & Hr & Hp & Hm & Ho & Hs)] Hrec HQ1 HQ2.
  pose proof (rp_config _ _ _ _ Hr) as Hcfg.
  unfold RemainMgr.readRemainFile. apply wp_bind, wp_get.
  rewrite decide_False, decide_False by (done || lia). cbv zeta.
  change RemainMgr.REMAIN_MGR_RE_FLAG with 1. change RemainMgr.REMAIN_MGR_MO_FLAG with 2.
  change RemainMgr.REMAIN_MGR_MT_FLAG with 3. rewrite H3, H6, H7.
  rewrite (flag_choice (λ fl, dirRead ← RemainMgr.on_fs (ReadDir.ReadDirMgr_new fl gateNo frag [] root);
    '(ret, text) ← RemainMgr.on_fs (ReadDir.readReaminData dirRead); mret (ret, default [] text)) (mret (-1311, []))).
  apply wp_bind, wp_on_fs, ReadDirMgr_new_wp, wp_bind, wp_on_fs, wp_bind. cbn [ReadDir.localPath_].
  rewrite <- Hp. apply (read_dir_calm _ l pubs None); [done..| |].
  - intros fs' pubs1 n c pubs2 E Hr'. apply wp_ret, wp_ret, (HQ1 _ pubs1 n c pubs2); [done|].
    split; try done. by exists l.
  - intros E r fs' Hneg Hr'. destruct (Z.eqb_spec r 0); [lia|]. cbn [ReadDir.shareRootPath_ ReadDir.sharePath_].
    apply wp_bind. apply wp_ret. cbn [Z.ltb Z.compare]. unfold ReadDir.readFileFromDir.
    rewrite decide_False by (cbn; lia). apply wp_bind, opendir_missing; [by left|]. intros t. apply wp_ret, wp_ret.
    apply HQ2; [done|lia|]. split; try done. exists l. split; [done|].
    split; [by apply represents_tick|done].
Qed.

(** ** Objects *)

#[local] Existing Instance RemainMgr.remain_mgr_ops.
#[local] Abbreviation Mgr := RemainMgr.Mgr.

(** An object whose line is [m]. *)
Definition line_of (o : RemainObj) (m : bytes) : Prop :=
  render (-1414) (-1415) (-1416) (-145) o = inr m ∧ (length m < 3074)%nat.

Lemma line_nonempty o m : line_of o m → m ≠ [].
Proof.
  intros [Hr _] ->. unfold render in Hr. repeat case_decide; try done;
    by destruct (Re.transReToString o), (Mo.transMoToString o), (Mt.transMtToString o).
Qed.

(** The objects written, and [k] reads one after the other. *)
Fixpoint write_all (self : RemainObjMgr) (os : list RemainObj) : St Mgr (list Z) :=
  match os with
  | [] => mret []
  | o :: os' => r ← writeRemainObject self o; rs ← write_all self os'; mret (r :: rs)
  end.
Fixpoint read_times (k : nat) (self : RemainObjMgr) (objs : list RemainObj) : St Mgr (list Z * list RemainObj) :=
  match k with
  | O => mret ([], objs)
  | S k' =>
      '(r, objs) ← readRemainObject self flag objs frag;
      '(rs, objs) ← read_times k' self objs;
      mret (r :: rs, objs)
  end.

Definition working (self : RemainObjMgr) : Prop := isInit_ self ≠ 0 ∧ isExit_ self = 0.

Lemma write_all_holds self os ms N pubs cur Q w :
  working self → holds N pubs cur w → cur ≠ Some [] → N + Z.of_nat (length os) <= 99999 →
  Forall (λ o, bitFlag_ o = flag ∧ m_strFragFolder o = frag) os → Forall2 line_of os ms →
  (∀ N' pubs' cur' w', holds N' pubs' cur' w' → cur' ≠ Some [] → records pubs' cur' = records pubs cur ++ ms →
     Q (replicate (length os) 0) w') →
  wp (write_all self os) Q w.
Proof.
  intros [Hi He] Hh Hne HN Hos Hms. revert N pubs cur Q w Hh Hne HN.
  induction Hms as [|o m os ms [Hm _] _ IH]; intros N pubs cur Q w Hh Hne HN HQ; cbn [write_all].
  - apply wp_ret. eapply HQ; [done..|]. by rewrite app_nil_r.
  - inversion Hos as [|? ? [Hf Hfr] Hos']; subst. cbn [length] in HN.
    apply wp_bind. unfold writeRemainObject. rewrite decide_False, decide_False by (done || lia).
    rewrite Hm. rewrite Hf, Hfr. apply (write_holds N _ pubs cur); [done..|lia|].
    intros pubs' c w' Hh' Hc Hrec. apply wp_bind. eapply (IH Hos'); [done|congruence|lia|].
    intros N' pubs2 cur2 w2 Hh2 Hne2 Hrec2. apply wp_ret. eapply HQ; [done..|].
    by rewrite Hrec2, Hrec, <- app_assoc.
Qed.

(** Objects come in the groups in which their lines were published. *)
Lemma split_groups {A B} (R : A → B → Prop) os cs :
  Forall2 R os (concat cs) → ∃ oss, os = concat oss ∧ Forall2 (Forall2 R) oss cs.
Proof.
  revert os. induction cs as [|c cs IH]; intros os H; cbn in H.
  - apply Forall2_nil_inv_r in H as ->. by exists [].
  - apply Forall2_app_inv_r in H as (o1 & o2 & H1 & (oss & -> & H2)%IH & ->). exists (o1 :: oss). by split; [|constructor].
Qed.

Definition reread (o : RemainObj) : RemainObj := o <| m_strFragFolder := lit "ccb" |>.

Lemma read_all_holds self oss pubs N objs w :
  working self → holds N pubs None w → Forall (Forall (readable flag)) oss →
  Forall2 (Forall2 line_of) oss pubs.*2 →
  ∃ objs' w', read_times (length pubs) self objs w = ((replicate (length pubs) 0, objs'), w') ∧
    objs' ≡ₚ objs ++ map reread (concat oss) ∧ holds N [] None w'.
Proof.
  intros [Hi He]. remember (length pubs) as k eqn:Ek. revert oss pubs objs w Ek.
  induction k as [|k IH]; intros oss pubs objs w Ek Hh Hread Hlines.
  { destruct pubs; [|done]. apply Forall2_nil_inv_r in Hlines as ->. exists objs, w. by rewrite app_nil_r. }
  assert (Hrec : Forall (.≠ []) (records pubs None)).
  { unfold records. rewrite app_nil_r. apply Forall_concat. clear -Hlines.
    induction Hlines as [|os c oss cs H _ IH]; constructor; [|done].
    induction H; constructor; [by eapply line_nonempty|done]. }
  assert (Hone : wp (RemainMgr.readRemainFile flag frag) (λ rt w', ∃ pubs1 n c pubs2,
    pubs = pubs1 ++ (n, c) :: pubs2 ∧ holds N (pubs1 ++ pubs2) None w' ∧ c ≠ [] ∧ rt = (0, concat c)) w).
  { apply (read_holds N pubs); [done..| |by intros ->].
    intros w' pubs1 n c pubs2 E Hh'. exists pubs1, n, c, pubs2. split_and!; [done..| |done].
    destruct (h_writer _ _ _ _ Hh) as (l & _ & Hr & _). apply (rp_pub _ _ _ _ Hr n c). rewrite E. set_solver. }
  unfold wp in Hone. cbn [read_times]. st_run. unfold readRemainObject at 1.
  rewrite decide_False, decide_False by (done || lia). st_run. cbn [readRemainFile RemainMgr.remain_mgr_ops].
  destruct (RemainMgr.readRemainFile flag frag w) as [rt w1]. cbn in Hone.
  destruct Hone as (pubs1 & n & c & pubs2 & -> & Hh1 & Hc & ->). rewrite decide_False by lia.
  rewrite fmap_app in Hlines. cbn in Hlines. apply Forall2_app_inv_r in Hlines as (oss1 & oss' & L1 & L2 & ->).
  apply Forall2_cons_inv_r in L2 as (os & oss2 & L2 & L3 & ->).
  rewrite Forall_app, Forall_cons in Hread. destruct Hread as (R1 & R2 & R3).
  rewrite (read_objects flag frag os c); [|done|intros ->; by apply Forall2_nil_inv_l in L2|done..].
  destruct (IH (oss1 ++ oss2) (pubs1 ++ pubs2) (objs ++ map reread os) w1) as (objs' & w' & E & Hp & Hh').
  { rewrite length_app in Ek |- *. cbn in Ek. lia. }
  { done. }
  { rewrite Forall_app. done. }
  { rewrite fmap_app. by apply Forall2_app. }
  change (map (λ o, o <| m_strFragFolder := lit "ccb" |>) os) with (map reread os). st_run. rewrite E.
  exists objs', w'. split; [done|]. split; [|done]. rewrite Hp, !concat_app, !map_app. cbn. rewrite map_app. solve_Permutation.
Qed.

Lemma groups_bounded (pubs : list (bytes * list bytes)) m :
  (∀ n c, (n, c) ∈ pubs → Z.of_nat (length c) <= m) →
  Z.of_nat (length (concat pubs.*2)) <= Z.of_nat (length pubs) * m.
Proof.
  induction pubs as [|[n c] pubs IH]; intros H; cbn [length concat fmap list_fmap]; [lia|].
  cbn. rewrite length_app. specialize (IH (λ n c Hin, H n c ltac:(by right))). specialize (H n c ltac:(by left)). lia.
Qed.

(** The directory of the folder is unused: there is nothing in it, and no file where
    one of its parents belongs. *)
Definition unused (fs : Fs) : Prop :=
  fs_ok fs ∧ undefined fs = false ∧
  (∀ b c, data_dir = b ++ c → b ≠ [] → names fs !! resolve b = None) ∧
  ∀ n, names fs !! in_dir (resolve data_dir) n = None ∧ in_dir (resolve data_dir) n ∉ dirs fs.

Lemma local0_represents fs : unused fs → represents local0 [] None fs.
Proof.
  intros (Hok & Hu & Hp & Hd).
  assert (Ep : path_ local0 = data_dir) by done.
  assert (Er : data_dir = root ++ [slash] ++ kind_dir ++ [slash] ++ frag).
  { rewrite data_dir_full. unfold full_dir. by rewrite !ReadFile.cstr_id. }
  split; try done.
  - split; rewrite ?Ep; try done.
    + rewrite Er. by destruct root.
    + rewrite Er, !no_nul_app. split_and!; try done; [decide_now| |decide_now].
      unfold kind_dir. repeat case_decide; decide_now.
    + rewrite data_dir_full. pose proof full_dir_length. lia.
  - intros n. apply Hd.
  - by intros [|].
  - intros n c Hin. by apply elem_of_nil in Hin.
  - constructor.
  - intros n i Hn. unfold dir in Hn. rewrite Ep in Hn. by rewrite (proj1 (Hd n)) in Hn.
Qed.

End life.


#[local] Existing Instance calm_env.
#[local] Existing Instance RemainMgr.remain_mgr_ops.

End RemainLife.
