(* ===== verification/TcpCli.v ===== *)
(** * The libevent TCP client ([src/libeventcpcli])

    [LibeventTcpCli] hands out connections by number, spreads them over IO threads
    and reports what happens to them through a callback; an IO thread
    ([LibeventIo]) takes orders from a queue that it is woken up for through an
    eventfd. The state is that of the whole module: connection objects live in a
    heap and are shared by the map, the queues and the libevent callbacks. What
    libevent, the clock and the eventfd answer is an argument of the operations. *)

From stdpp Require Import sorting.
From S2P Require Import Prelude Atomic UniqueNum.

Module TcpCli.

Definition CONN_FAILED : Z := 0.
Definition CONN_SUCCESS : Z := 1.
Definition DIS_CONNECT : Z := 2.

(** ** [TcpClient]

    [timev_] and [bev_] tell whether the pointer is set; [base_] likewise. *)
Record TcpClient := {
  port_ : Z; sockfd_ : Z; connOutSecond_ : Z; dataOutSecond_ : Z; state_ : Z;
  ioIndex_ : nat; outbufLen_ : Z; uniqueNum_ : Z; lastRecvSecond_ : Z; priv_ : Z;
  timev_ : bool; base_ : bool; bev_ : bool; ipaddr_ : bytes }.
#[export] Instance eta_TcpClient : Eta TcpClient := λ r, {|
  port_ := r.(port_); sockfd_ := r.(sockfd_); connOutSecond_ := r.(connOutSecond_);
  dataOutSecond_ := r.(dataOutSecond_); state_ := r.(state_); ioIndex_ := r.(ioIndex_);
  outbufLen_ := r.(outbufLen_); uniqueNum_ := r.(uniqueNum_);
  lastRecvSecond_ := r.(lastRecvSecond_); priv_ := r.(priv_); timev_ := r.(timev_);
  base_ := r.(base_); bev_ := r.(bev_); ipaddr_ := r.(ipaddr_) |}.

Definition TcpClient_new (ioIndex : nat) (uniqueNum : Z) (ipaddr : bytes)
    (port priv dataOutSecond connOutSecond now : Z) : TcpClient := {|
  port_ := port; sockfd_ := 0; connOutSecond_ := connOutSecond;
  dataOutSecond_ := dataOutSecond; state_ := CONN_FAILED; ioIndex_ := ioIndex;
  outbufLen_ := 0; uniqueNum_ := uniqueNum; lastRecvSecond_ := u64 now; priv_ := priv;
  timev_ := false; base_ := false; bev_ := false; ipaddr_ := ipaddr |}.

(** What libevent answers during [connectServer]. *)
Record ConnEnv := {
  evtimer_new_ok : bool; bufferevent_socket_new_ok : bool; bufferevent_enable_ret : Z;
  bufferevent_socket_connect_ret : Z; bufferevent_getfd_ret : Z; conn_second : Z }.

Definition connectServer (eBase : bool) (e : ConnEnv) (c : TcpClient) : Z * TcpClient :=
  if negb eBase || bool_decide (ipaddr_ c = []) || (port_ c =? 0) then (-3, c)
  else
    let c := c <| base_ := true |> <| timev_ := evtimer_new_ok e |> in
    if negb (timev_ c) then (-1, c)
    else
      let c := c <| bev_ := bufferevent_socket_new_ok e |> in
      if negb (bev_ c) then (-1, c)
      else if bufferevent_enable_ret e <? 0 then (bufferevent_enable_ret e, c)
      else if bufferevent_socket_connect_ret e <? 0 then
        (bufferevent_socket_connect_ret e, c <| timev_ := false |>)
      else
        let c := c <| lastRecvSecond_ := u64 (conn_second e) |> in
        let c := c <| sockfd_ := bufferevent_getfd_ret e |> in
        (sockfd_ c, c).

Definition disConnect (c : TcpClient) : TcpClient := c <| timev_ := false |> <| bev_ := false |>.

(** [sendMsg]: whether [bufferevent_write] is called. *)
Definition sendMsg (c : TcpClient) : bool := bev_ c.

(** [(second - lastRecvSecond_) > dataOutSecond_]: the [int] becomes unsigned. *)
Definition expired (second : Z) (c : TcpClient) : bool :=
  negb (lastRecvSecond_ c =? 0) && (u64 (dataOutSecond_ c) <? u64 (second - lastRecvSecond_ c)).
Definition isKeepAlive (second : Z) (c : TcpClient) : bool := negb (expired second c).

Definition setRecvSecond (now : Z) (c : TcpClient) : Z * TcpClient :=
  let second := u64 now in
  if expired second c then (-1, c) else (0, c <| lastRecvSecond_ := second |>).

Definition tcpClieSetconn (c : TcpClient) : TcpClient :=
  c <| timev_ := false |> <| state_ := CONN_SUCCESS |>.
Definition setReadySendbufLen (len : Z) (c : TcpClient) : TcpClient := c <| outbufLen_ := len |>.
Definition setTcpCliPrivate (p : Z) (c : TcpClient) : TcpClient := c <| priv_ := p |>.

(** ** Orders and their queue; a [shared_ptr] is an index of the heap *)

Record OrderNode := { wriMsg : bytes; cli : option nat }.

(** A [LibeventIo]: the counter of its eventfd, its queue, whether [evbase] is set. *)
Record LibeventIo := { wakeupFd : Z; orderDeque_ : list OrderNode; evbase : bool }.
#[export] Instance eta_LibeventIo : Eta LibeventIo := λ r,
  {| wakeupFd := r.(wakeupFd); orderDeque_ := r.(orderDeque_); evbase := r.(evbase) |}.
Definition LibeventIo_new : LibeventIo := {| wakeupFd := 0; orderDeque_ := []; evbase := false |}.

Definition orderNodeInsert (node : OrderNode) (q : list OrderNode) : list OrderNode := q ++ [node].
Definition dealOrderNode (q : list OrderNode) : option OrderNode * list OrderNode :=
  match q with [] => (None, []) | node :: q' => (Some node, q') end.

(** [write(wakeupFd, &one, 8)] on a non-blocking eventfd: the counter stays below
    [2^64 - 1], a write that would exceed it fails. *)
Definition eventfd_write (one counter : Z) : Z :=
  if counter + one <? 2 ^ 64 - 1 then counter + one else counter.

Definition libeventIoWakeup (io : LibeventIo) : LibeventIo := io <| wakeupFd ::= eventfd_write 2 |>.
Definition libeventIoExit (io : LibeventIo) : LibeventIo := io <| wakeupFd ::= eventfd_write 1 |>.
Definition libeventIoOrder (node : OrderNode) (io : LibeventIo) : LibeventIo :=
  libeventIoWakeup (io <| orderDeque_ ::= orderNodeInsert node |>).

(** ** The module *)

Record Callback := { cb_unid : Z; cb_priv : Z; cb_state : Z; cb_ip : bytes; cb_port : Z }.

(** The members of [LibeventTcpCli] and the file-level variables, then: [inserting]
    are the calls of [libeventAddConnect] between their order and the insertion in
    the map; [calling] the calls of [tcpServerConnect] that have released the mutex
    and not called [connCb] yet; [called], [written] and [messages] what reached
    [connCb], [bufferevent_write] and [msgCb], newest first. *)
Record World := {
  isExit : Z; uniquId_ : Z; ioThreadNum : Z; lastIndex : Z; readyIothread : Z; exitIothread : Z;
  connCb : bool; msgCb : bool; UniqueTail : Z;
  tcpClientConnMap : gmap Z nat;
  libeventIoPtrVect : list (option LibeventIo);
  heap : list TcpClient;
  inserting : list (Z * nat); calling : list Callback;
  called : list Callback; written : list (nat * bytes); messages : list (Z * bytes) }.
#[export] Instance eta_World : Eta World := λ r, {|
  isExit := r.(isExit); uniquId_ := r.(uniquId_); ioThreadNum := r.(ioThreadNum);
  lastIndex := r.(lastIndex); readyIothread := r.(readyIothread);
  exitIothread := r.(exitIothread); connCb := r.(connCb); msgCb := r.(msgCb);
  UniqueTail := r.(UniqueTail);
  tcpClientConnMap := r.(tcpClientConnMap); libeventIoPtrVect := r.(libeventIoPtrVect);
  heap := r.(heap); inserting := r.(inserting); calling := r.(calling);
  called := r.(called); written := r.(written); messages := r.(messages) |}.

Definition LibeventTcpCli_new : World := {|
  isExit := 0; uniquId_ := 0; ioThreadNum := 0; lastIndex := 0; readyIothread := 0;
  exitIothread := 0; connCb := false; msgCb := false; UniqueTail := 0; tcpClientConnMap := ∅;
  libeventIoPtrVect := []; heap := []; inserting := []; calling := []; called := [];
  written := []; messages := [] |}.

(** How a call ends: it returns, it is still in a loop that waits for another
    thread, or it used an index or a pointer it must not use. *)
Inductive Outcome (A : Type) := Done (a : A) (w : World) | Waits | Undefined.
Arguments Done {A} a w.
Arguments Waits {A}.
Arguments Undefined {A}.

(** [libeventTcpCliInit]; the IO threads start afterwards. *)
Definition libeventTcpCliInit (uniquId threadNum : Z) (connCb_ msgCb_ : bool) (w : World) : Z * World :=
  if 0 <? ioThreadNum w then (0, w)
  else
    (0, w <| libeventIoPtrVect := replicate (Z.to_nat threadNum) None |>
          <| connCb := connCb_ |> <| msgCb := msgCb_ |> <| uniquId_ := uniquId |> <| ioThreadNum := threadNum |>).

(** [while(ioThreadNum == 0 || readyIothread != ioThreadNum) usleep(1000);] *)
Definition must_wait (w : World) : bool :=
  (ioThreadNum w =? 0) || negb (readyIothread w =? ioThreadNum w).

(** [tcpServerConnect], up to the release of the mutex. *)
Definition tcpServerConnect (cb : Callback) (w : World) : World :=
  match tcpClientConnMap w !! cb_unid cb with
  | None => w
  | Some _ =>
      let w := if negb (cb_state cb =? CONN_SUCCESS)
               then w <| tcpClientConnMap ::= delete (cb_unid cb) |> else w in
      if connCb w then w <| calling ::= cons cb |> else w
  end.

Definition callback (c : TcpClient) (state : Z) : Callback :=
  {| cb_unid := uniqueNum_ c; cb_priv := priv_ c; cb_state := state; cb_ip := ipaddr_ c;
     cb_port := port_ c |}.

Definition set_client (i : nat) (c : TcpClient) (w : World) : World :=
  w <| heap ::= <[i := c]> |>.
Definition set_io (i : nat) (io : LibeventIo) (w : World) : World :=
  w <| libeventIoPtrVect ::= <[i := Some io]> |>.

(** The loop of [libeventAddConnect]: a round for each element of [ts], the local
    time and the second at which it runs. *)
Fixpoint add_rounds (ipaddr : bytes) (port priv dataOutSecond connOutSecond : Z)
    (ts : list (UniqueNum.tm * Z)) (w : World) : Outcome Z :=
  match ts with
  | [] => Waits
  | (t, now) :: ts' =>
      let index := lastIndex w in
      let w := w <| lastIndex := u32 (index + 1) |> in
      let index := Z.to_nat (u64 (s32 (index mod ioThreadNum w))) in
      let '(uuid, tail) := UniqueNum.uniqueNumId t (uniquId_ w) (UniqueTail w) in
      let w := w <| UniqueTail := tail |> in
      let client := length (heap w) in
      let w := w <| heap ::= (.++ [TcpClient_new index uuid ipaddr port priv dataOutSecond connOutSecond now]) |> in
      match libeventIoPtrVect w !! index with
      | None => Undefined
      | Some None => add_rounds ipaddr port priv dataOutSecond connOutSecond ts' w
      | Some (Some io) =>
          let w := set_io index (libeventIoOrder {| wriMsg := []; cli := Some client |} io) w in
          Done uuid (w <| inserting ::= cons (uuid, client) |>)
      end
  end.

(** [libeventAddConnect], up to the insertion in the map: [add_insert]. *)
Definition libeventAddConnect (ipaddr : bytes) (port priv dataOutSecond connOutSecond : Z)
    (ts : list (UniqueNum.tm * Z)) (w : World) : Outcome Z :=
  if negb (isExit w =? 0) then Done 0 w
  else if must_wait w then Waits
  else add_rounds ipaddr port priv dataOutSecond connOutSecond ts w.

(** [tcpClientConnMap.insert]: an existing entry stays. *)
Definition add_insert (uuid : Z) (client : nat) (w : World) : World :=
  w <| tcpClientConnMap ::= λ m, match m !! uuid with Some _ => m | None => <[uuid := client]> m end |>.

(** [libeventTcpCliDisconnect] *)
Definition libeventTcpCliDisconnect (unid : Z) (w : World) : Outcome Z :=
  if negb (isExit w =? 0) then Done (-2) w
  else if must_wait w then Waits
  else
    match tcpClientConnMap w !! unid with
    | None => Done (-3) w
    | Some i =>
        match heap w !! i with
        | None => Undefined
        | Some c =>
            match libeventIoPtrVect w !! ioIndex_ c with
            | None => Undefined
            | Some p =>
                let w := match p with
                         | Some io => set_io (ioIndex_ c) (libeventIoOrder {| wriMsg := []; cli := Some i |} io) w
                         | None => w
                         end in
                let state := if state_ c =? CONN_FAILED then CONN_FAILED else DIS_CONNECT in
                Done 0 (tcpServerConnect (callback c state) w)
            end
        end
    end.

Definition libeventTcpCliSendMsg (unid : Z) (msg : bytes) (now : Z) (w : World) : Outcome Z :=
  let drop_conn w :=
    match libeventTcpCliDisconnect unid w with
    | Done _ w => Done (-3) w | Waits => Waits | Undefined => Undefined
    end in
  if negb (isExit w =? 0) then Done (-2) w
  else if must_wait w then Waits
  else
    match tcpClientConnMap w !! unid with
    | None => Done (-3) w
    | Some i =>
        match heap w !! i with
        | None => Undefined
        | Some c =>
            let '(r, c) := setRecvSecond now c in
            let w := set_client i c w in
            if r =? 0 then
              match libeventIoPtrVect w !! ioIndex_ c with
              | None => Undefined
              | Some (Some io) =>
                  Done 0 (set_io (ioIndex_ c) (libeventIoOrder {| wriMsg := msg; cli := Some i |} io) w)
              | Some None => drop_conn w
              end
            else drop_conn w
        end
    end.

Definition libeventTcpCliResetPrivate (unid priv : Z) (w : World) : Outcome Z :=
  if negb (isExit w =? 0) then Done (-2) w
  else if must_wait w then Waits
  else
    match tcpClientConnMap w !! unid with
    | None => Done (-3) w
    | Some i =>
        match heap w !! i with
        | None => Undefined
        | Some c => Done 0 (set_client i (setTcpCliPrivate priv c) w)
        end
    end.

(** [libeventIoExpireThread]: the connections found expired, in the order of the
    map; a round then disconnects each of them. *)
Definition expired_list (second : Z) (w : World) : list Z :=
  omap (λ k, i ← tcpClientConnMap w !! k; c ← heap w !! i;
             if isKeepAlive second c then None else Some (uniqueNum_ c))
    (merge_sort Z.le (elements (dom (tcpClientConnMap w)))).

Fixpoint disconnect_all (us : list Z) (w : World) : Outcome () :=
  match us with
  | [] => Done () w
  | u :: us' =>
      match libeventTcpCliDisconnect u w with
      | Done _ w => disconnect_all us' w | Waits => Waits | Undefined => Undefined
      end
  end.
Definition libeventIoExpireThread (now : Z) (w : World) : Outcome () :=
  if negb (isExit w =? 0) then Done () w
  else disconnect_all (expired_list (u64 now) w) w.

(** ** IO threads *)

(** One round of the loop of [handleRead] on thread [index]: [false] ends it. *)
Definition handle_order (index : nat) (e : ConnEnv) (w : World) : Outcome bool :=
  match libeventIoPtrVect w !! index with
  | Some (Some io) =>
      let '(node, q) := dealOrderNode (orderDeque_ io) in
      let w := set_io index (io <| orderDeque_ := q |>) w in
      match node with
      | Some {| wriMsg := msg; cli := Some i |} =>
          match heap w !! i with
          | None => Undefined
          | Some c =>
              if sockfd_ c =? 0 then
                let '(ret, c) := connectServer (evbase io) e c in
                let w := set_client i c w in
                Done true (if ret <? 0 then tcpServerConnect (callback c CONN_FAILED) w else w)
              else if bool_decide (msg = []) then Done true (set_client i (disConnect c) w)
              else Done true (if sendMsg c then w <| written ::= cons (i, msg) |> else w)
          end
      | _ => Done false w
      end
  | _ => Undefined
  end.

Fixpoint handle_orders (index : nat) (es : list ConnEnv) (w : World) : Outcome () :=
  match es with
  | [] => Waits
  | e :: es' =>
      match handle_order index e w with
      | Done true w => handle_orders index es' w
      | Done false w => Done () w
      | Waits => Waits | Undefined => Undefined
      end
  end.

(** [handleRead]: whether [event_base_loopbreak] is called. [es] are libevent's
    answers in the rounds of the loop. *)
Definition handleRead (index : nat) (es : list ConnEnv) (w : World) : Outcome bool :=
  match libeventIoPtrVect w !! index with
  | Some (Some io) =>
      let one := wakeupFd io in
      if one =? 0 then Done false w
      else
        match handle_orders index es (set_io index (io <| wakeupFd := 0 |>) w) with
        | Done _ w => Done (negb (one mod 2 =? 0)) w
        | Waits => Waits | Undefined => Undefined
        end
  | _ => Undefined
  end.

(** [libeventIoThread]: a new [LibeventIo]; [libeventIoReady] until the dispatch
    loop starts; its return, and the end of the thread. *)
Definition io_thread_new (index : nat) (w : World) : World := set_io index LibeventIo_new w.
Definition libeventIoThreadReady (w : World) : World := w <| readyIothread ::= λ n, u32 (n + 1) |>.
Definition libeventIoReady (index : nat) (fd_ok base_ok : bool) (w : World) : option Z * World :=
  if fd_ok && base_ok then
    (None, libeventIoThreadReady
             (w <| libeventIoPtrVect ::= alter (fmap (λ io, io <| evbase := true |>)) index |>))
  else (Some (-1), w).
Definition io_thread_return (w : World) : World :=
  let w := w <| readyIothread ::= λ n, u32 (n - 1) |> in
  if negb (isExit w =? 0) then w <| exitIothread ::= λ n, u32 (n + 1) |> else w.

Definition libeventTcpCliExit_signal (w : World) : World :=
  let w := w <| isExit := 1 |> in
  if ioThreadNum w =? 0 then w
  else w <| libeventIoPtrVect ::= map (option_map libeventIoExit) |>.

(** ** libevent callbacks of a connection *)

Definition on_client (i : nat) (f : TcpClient → World → Outcome ()) (w : World) : Outcome () :=
  match heap w !! i with None => Undefined | Some c => f c w end.

Definition connectTimeout (i : nat) : World → Outcome () := on_client i (λ c w,
  if state_ c =? CONN_FAILED then
    let w := set_client i (disConnect c) w in
    Done () (tcpServerConnect (callback c CONN_FAILED) w)
  else Done () w).

(** [TcpClientOnMessage] at second [now]: [msg] are the bytes of the input buffer,
    [copied] tells whether [evbuffer_copyout] gave them all, [drain] is the result
    of [evbuffer_drain]. *)
Definition tcpServerOnMessage (unid : Z) (msg : bytes) (w : World) : World :=
  if msgCb w then w <| messages ::= cons (unid, msg) |> else w.

Definition TcpClientOnMessage (i : nat) (now : Z) (msg : bytes) (copied : bool) (drain : Z) :
    World → Outcome () := on_client i (λ c w,
  let '(second, c) := setRecvSecond now c in
  let w := set_client i c w in
  let lost w := tcpServerConnect (callback c DIS_CONNECT) (set_client i (disConnect c) w) in
  if second <? 0 then Done () (lost w)
  else if copied then
    let w := tcpServerOnMessage (uniqueNum_ c) msg w in
    Done () (if drain <? 0 then lost w else w)
  else Done () (lost w)).

Definition TcpClientWriteBack (i : nat) (allLen : Z) : World → Outcome () :=
  on_client i (λ c w, Done () (set_client i (setReadySendbufLen allLen c) w)).

Definition BEV_EVENT_EOF : Z := 0x10.
Definition BEV_EVENT_ERROR : Z := 0x20.
Definition BEV_EVENT_CONNECTED : Z := 0x80.
Definition has (event flag : Z) : bool := negb (Z.land event flag =? 0).

Definition closed (i : nat) (c : TcpClient) (w : World) : World :=
  let w := set_client i (disConnect c) w in
  tcpServerConnect (callback c (if state_ c =? CONN_FAILED then CONN_FAILED else DIS_CONNECT)) w.

Definition TcpClientOnEvent (i : nat) (event : Z) : World → Outcome () := on_client i (λ c w,
  if has event BEV_EVENT_EOF then Done () (closed i c w)
  else if has event BEV_EVENT_ERROR then Done () (closed i c w)
  else if has event BEV_EVENT_CONNECTED then
    let c := tcpClieSetconn c in
    Done () (tcpServerConnect (callback c 1) (set_client i c w))
  else Done () (closed i c w)).

(** ** Keep-alive *)

(** Keep-alive: a connection with a time-out of [dataOutSecond_ >= 0] seconds that
    has been heard of is kept at second [s] exactly when no more than that many
    seconds passed; but a clock reading older than the last activity, by however
    little, counts as expired. *)
Theorem keep_alive (c : TcpClient) (s : Z) :
  in_u 64 s → 0 < lastRecvSecond_ c < 2 ^ 64 → 0 <= dataOutSecond_ c < 2 ^ 31 →
  (lastRecvSecond_ c <= s → isKeepAlive s c = bool_decide (s - lastRecvSecond_ c <= dataOutSecond_ c)) ∧
  (s < lastRecvSecond_ c <= s + 2 ^ 63 → isKeepAlive s c = false).
Proof.
  intros Hs Hl Hd. unfold isKeepAlive, expired. unfold in_u in Hs.
  destruct (Z.eqb_spec (lastRecvSecond_ c) 0); [lia|]. cbn [negb andb].
  rewrite (wrap_u_id 64 (dataOutSecond_ c)) by (unfold in_u; lia). split; intros H.
  - rewrite wrap_u_id by (unfold in_u; lia).
    destruct (Z.ltb_spec (dataOutSecond_ c) (s - lastRecvSecond_ c)); cbn [negb].
    + by rewrite bool_decide_eq_false_2 by lia.
    + by rewrite bool_decide_eq_true_2 by lia.
  - assert (E : u64 (s - lastRecvSecond_ c) = s - lastRecvSecond_ c + 2 ^ 64) by (unfold wrap_u; dlia).
    rewrite E. destruct (Z.ltb_spec (dataOutSecond_ c) (s - lastRecvSecond_ c + 2 ^ 64)); [done|lia].
Qed.

Lemma keep_alive_witness :
  let c := TcpClient_new 0 1 (lit "10.0.0.1") 80 0 30 3 1000 in
  isKeepAlive 1030 c = true ∧ isKeepAlive 999 c = false.
Proof.
  intros c. split; [apply (keep_alive c 1030)|apply (keep_alive c 999)]; done.
Defined.

End TcpCli.
