(* ===== verification/TcpCliProofs.v ===== *)
(** * Correctness of the TCP client ([TcpCli])

    The module as a transition system over all its threads, its invariant, and
    what follows for callers: indices and pointers stay valid, a connection ends
    with at most one report, orders are carried out in the order they were given,
    no order is left behind without a wake-up. *)

From S2P Require Import Prelude Atomic UniqueNum TcpCli.

Module TcpCliProofs.
Import TcpCli.

(** ** The transition system *)

(** What a thread can do next; every locked section and every libevent callback
    is one step, and [connCb] is called some time after its section. *)
Inductive step : World → World → Prop :=
  | step_init u n cb mcb w :
      0 <= n < 2 ^ 31 → step w (libeventTcpCliInit u n cb mcb w).2
  | step_add ip port priv dout cout ts uuid w w' :
      libeventAddConnect ip port priv dout cout ts w = Done uuid w' → step w w'
  | step_insert u i l1 l2 w :
      inserting w = l1 ++ (u, i) :: l2 → step w ((add_insert u i w) <| inserting := l1 ++ l2 |>)
  | step_send u msg now r w w' : libeventTcpCliSendMsg u msg now w = Done r w' → step w w'
  | step_disconnect u r w w' : libeventTcpCliDisconnect u w = Done r w' → step w w'
  | step_private u p r w w' : libeventTcpCliResetPrivate u p w = Done r w' → step w w'
  | step_deliver cb l1 l2 w :
      calling w = l1 ++ cb :: l2 → step w (w <| calling := l1 ++ l2 |> <| called ::= cons cb |>)
  | step_order index e b w w' : handle_order index e w = Done b w' → step w w'
  | step_read index io w :
      libeventIoPtrVect w !! index = Some (Some io) →
      step w (set_io index (io <| wakeupFd := 0 |>) w)
  | step_thread index w : (index < length (libeventIoPtrVect w))%nat → step w (io_thread_new index w)
  | step_ready index fd_ok base_ok w : step w (libeventIoReady index fd_ok base_ok w).2
  | step_return w : step w (io_thread_return w)
  | step_exit w : step w (libeventTcpCliExit_signal w)
  | step_timeout i w w' : connectTimeout i w = Done () w' → step w w'
  | step_message i now msg copied drain w w' :
      TcpClientOnMessage i now msg copied drain w = Done () w' → step w w'
  | step_write i len w w' : TcpClientWriteBack i len w = Done () w' → step w w'
  | step_event i ev w w' : TcpClientOnEvent i ev w = Done () w' → step w w'.

Definition reachable (w : World) : Prop := rtc step LibeventTcpCli_new w.

(** ** The invariant *)

(** The part of the heap that never changes: number and IO thread of an object. *)
Definition sigs (w : World) : list (Z * nat) := (λ c, (uniqueNum_ c, ioIndex_ c)) <$> heap w.

Definition node_ok (S : list (Z * nat)) (index : nat) (nd : OrderNode) : Prop :=
  ∃ i u, cli nd = Some i ∧ S !! i = Some (u, index).

(** Reports that end connection [u], made or about to be made. *)
Definition ends (u : Z) (l : list Callback) : nat :=
  length (filter (λ cb, cb_unid cb = u ∧ cb_state cb ≠ CONN_SUCCESS) l).
Definition named (u : Z) (l : list (Z * nat)) : nat := length (filter (λ p, p.1 = u) l).
Definition mapped (u : Z) (m : gmap Z nat) : nat := if decide (is_Some (m !! u)) then 1 else 0.

Record Inv (w : World) : Prop := {
  inv_vect : Z.of_nat (length (libeventIoPtrVect w)) = ioThreadNum w;
  inv_num : ioThreadNum w < 2 ^ 31;
  inv_index : Forall (λ s, (s.2 < length (libeventIoPtrVect w))%nat) (sigs w);
  inv_map u i : tcpClientConnMap w !! u = Some i → ∃ k, sigs w !! i = Some (u, k);
  inv_ins u i : (u, i) ∈ inserting w → ∃ k, sigs w !! i = Some (u, k);
  inv_queue k io : libeventIoPtrVect w !! k = Some (Some io) → Forall (node_ok (sigs w) k) (orderDeque_ io);
  inv_ends u : (ends u (calling w) + ends u (called w) + mapped u (tcpClientConnMap w) +
                named u (inserting w) <= named u (sigs w))%nat
}.

(** The objects are those of [w]. *)
Ltac sigs_of w := repeat match goal with |- context [sigs ?x] =>
  lazymatch x with w => fail | _ => progress change (sigs x) with (sigs w) end end.

Lemma Inv_new : Inv LibeventTcpCli_new.
Proof. by split; cbn -[ends mapped named sigs]; try done; intros ?? ?%elem_of_nil. Qed.

(** Fields an operation does not touch. *)
Lemma Inv_ext w w' :
  Inv w → ioThreadNum w' = ioThreadNum w → tcpClientConnMap w' = tcpClientConnMap w →
  libeventIoPtrVect w' = libeventIoPtrVect w → sigs w' = sigs w → inserting w' = inserting w →
  calling w' = calling w → called w' = called w → Inv w'.
Proof.
  intros [] E1 E2 E3 E4 E5 E6 E7. split; rewrite ?E1, ?E2, ?E3, ?E4, ?E5, ?E6, ?E7; done.
Qed.

Lemma sigs_set_client i c c0 w :
  heap w !! i = Some c0 → uniqueNum_ c = uniqueNum_ c0 → ioIndex_ c = ioIndex_ c0 →
  sigs (set_client i c w) = sigs w.
Proof.
  intros Hi Hu Hx. unfold sigs. cbn. rewrite list_fmap_insert. apply list_insert_id.
  rewrite list_lookup_fmap, Hi. cbn. by rewrite Hu, Hx.
Qed.

Lemma Inv_set_client i c c0 w :
  Inv w → heap w !! i = Some c0 → uniqueNum_ c = uniqueNum_ c0 → ioIndex_ c = ioIndex_ c0 →
  Inv (set_client i c w).
Proof. intros HI Hi Hu Hx. eapply Inv_ext; eauto using sigs_set_client. Qed.

Lemma Inv_set_io k io w :
  Inv w → (k < length (libeventIoPtrVect w))%nat → Forall (node_ok (sigs w) k) (orderDeque_ io) →
  Inv (set_io k io w).
Proof.
  intros [Hv Hn Hx Hm Hi Hq He] Hk Hio. split; cbn -[ends mapped named sigs]; rewrite ?length_insert; try done.
  intros k' io' Hl. apply list_lookup_insert_Some in Hl as [(<- & [= <-] & _)|[_ Hl]]; [done|].
  by eapply Hq.
Qed.

Lemma Inv_order k io nd w :
  Inv w → libeventIoPtrVect w !! k = Some (Some io) → node_ok (sigs w) k nd →
  Inv (set_io k (libeventIoOrder nd io) w).
Proof.
  intros HI Hk Hnd. apply Inv_set_io; [done|by eapply lookup_lt_Some|].
  apply Forall_app. split; [by eapply inv_queue|by repeat constructor].
Qed.

Lemma Inv_tcpServerConnect cb w : Inv w → Inv (tcpServerConnect cb w).
Proof.
  intros HI. unfold tcpServerConnect.
  destruct (tcpClientConnMap w !! cb_unid cb) as [i|] eqn:E; [|done].
  destruct HI as [Hv Hn Hx Hm Hi Hq He].
  destruct (Z.eqb_spec (cb_state cb) CONN_SUCCESS) as [Hs|Hs]; cbn [negb].
  - destruct (connCb w); [|done]. split; cbn -[ends mapped named sigs]; try done.
    intros u. unfold ends at 1. rewrite filter_cons_False by tauto. apply He.
  - assert (Hd : ∀ u, (mapped u (delete (cb_unid cb) (tcpClientConnMap w)) +
      (if decide (cb_unid cb = u) then 1 else 0) <= mapped u (tcpClientConnMap w))%nat).
    { intros u. unfold mapped. destruct (decide (cb_unid cb = u)) as [<-|Hne].
      - rewrite lookup_delete_eq, E. rewrite decide_False by (by intros [? ?]). by rewrite decide_True by eauto.
      - rewrite lookup_delete_ne by done. lia. }
    assert (Hm' : ∀ u i, delete (cb_unid cb) (tcpClientConnMap w) !! u = Some i →
      ∃ k, sigs w !! i = Some (u, k)) by (intros u j [_ Hj]%lookup_delete_Some; by apply Hm).
    cbn [connCb set_with]. change (connCb (_ <| tcpClientConnMap ::= _ |>)) with (connCb w).
    destruct (connCb w); split; cbn -[ends mapped named sigs]; try done; intros u; specialize (He u); specialize (Hd u); revert Hd; sigs_of w.
    + unfold ends at 1. destruct (decide (cb_unid cb = u)) as [Hu|Hu].
      * rewrite filter_cons_True by done. cbn [length]. fold (ends u (calling w)). intros; lia.
      * rewrite filter_cons_False by tauto. fold (ends u (calling w)). intros; lia.
    + intros; lia.
Qed.

Lemma named_app u l1 l2 : named u (l1 ++ l2) = (named u l1 + named u l2)%nat.
Proof. unfold named. by rewrite filter_app, length_app. Qed.
Lemma named_cons u v k l : named u ((v, k) :: l) = ((if decide (v = u) then 1 else 0) + named u l)%nat.
Proof. unfold named. rewrite filter_cons. cbn. by case_decide. Qed.
Lemma ends_app u l1 l2 : ends u (l1 ++ l2) = (ends u l1 + ends u l2)%nat.
Proof. unfold ends. by rewrite filter_app, length_app. Qed.
Lemma ends_cons u cb l : ends u (cb :: l) = (ends u [cb] + ends u l)%nat.
Proof. apply (ends_app u [cb]). Qed.

(** A new object for [uuid], its connect order and the pending insertion. *)
Lemma Inv_add w k uuid c io :
  Inv w → libeventIoPtrVect w !! k = Some (Some io) → uniqueNum_ c = uuid → ioIndex_ c = k →
  let w1 := w <| heap ::= (.++ [c]) |> in
  Inv ((set_io k (libeventIoOrder {| wriMsg := []; cli := Some (length (heap w)) |} io) w1)
         <| inserting ::= cons (uuid, length (heap w)) |>).
Proof.
  intros [Hv Hn Hx Hm Hi Hq He] Hk Hu Hc. cbv zeta.
  set (w' := set_with inserting _ _).
  assert (ES : sigs w' = sigs w ++ [(uuid, k)]) by (unfold sigs; cbn; by rewrite fmap_app, <- Hu, <- Hc).
  assert (Hnew : sigs w' !! length (heap w) = Some (uuid, k)).
  { rewrite ES. apply list_lookup_middle. unfold sigs. by rewrite length_fmap. }
  assert (Hmono : ∀ i s, sigs w !! i = Some s → sigs w' !! i = Some s).
  { intros i s Hs. rewrite ES. by apply lookup_app_l_Some. }
  assert (Hnode : ∀ k' nd, node_ok (sigs w) k' nd → node_ok (sigs w') k' nd).
  { intros k' nd (i & u & ? & ?). exists i, u. auto. }
  assert (Hlen : length (libeventIoPtrVect w') = length (libeventIoPtrVect w)) by apply length_insert.
  split; rewrite ?Hlen; try done.
  - rewrite ES. apply Forall_app. split; [done|]. repeat constructor. by eapply lookup_lt_Some.
  - intros u i H. destruct (Hm u i H) as [k' ?]. eauto.
  - intros u i [[= -> ->]|H]%elem_of_cons; [eauto|]. destruct (Hi u i H) as [k' ?]. eauto.
  - intros k' io' H. cbn in H. apply list_lookup_insert_Some in H as [(<- & [= <-] & _)|[_ H]].
    + cbn. apply Forall_app. split; [|repeat constructor; by exists (length (heap w)), uuid].
      eapply Forall_impl; [by eapply Hq|]. apply Hnode.
    + eapply Forall_impl; [by eapply Hq|]. apply Hnode.
  - intros u. specialize (He u). rewrite ES, named_app, named_cons. cbn -[ends mapped named].
    rewrite named_cons. change (named u []) with 0%nat. cbn -[ends mapped named] in *. lia.
Qed.

(** A round of [libeventAddConnect] that finds no IO thread leaves an unused object. *)
Lemma Inv_lost w c :
  Inv w → (ioIndex_ c < length (libeventIoPtrVect w))%nat → Inv (w <| heap ::= (.++ [c]) |>).
Proof.
  intros [Hv Hn Hx Hm Hi Hq He] Hc. set (w' := set_with heap _ _).
  assert (ES : sigs w' = sigs w ++ [(uniqueNum_ c, ioIndex_ c)]) by (unfold sigs; cbn; by rewrite fmap_app).
  assert (Hmono : ∀ i s, sigs w !! i = Some s → sigs w' !! i = Some s).
  { intros i s Hs. rewrite ES. by apply lookup_app_l_Some. }
  split; try done.
  - rewrite ES. apply Forall_app. split; [done|]. by repeat constructor.
  - intros u i H. destruct (Hm u i H) as [k' ?]. eauto.
  - intros u i H. destruct (Hi u i H) as [k' ?]. eauto.
  - intros k io H. eapply Forall_impl; [by eapply Hq|]. intros nd (i & u & ? & ?). exists i, u. auto.
  - intros u. specialize (He u). rewrite ES, named_app. cbn -[ends mapped named] in *. lia.
Qed.

Lemma round_index w :
  Inv w → must_wait w = false → ∀ j,
  (Z.to_nat (u64 (s32 (j mod ioThreadNum w))) < length (libeventIoPtrVect w))%nat.
Proof.
  intros HI Hw j. destruct HI as [Hv Hn _ _ _ _ _]. unfold must_wait in Hw.
  apply orb_false_iff in Hw as [Hz%Z.eqb_neq _].
  assert (0 <= j mod ioThreadNum w < ioThreadNum w) by (apply Z.mod_pos_bound; lia).
  rewrite wrap_s_id, wrap_u_id by (unfold in_s, in_u; lia). lia.
Qed.

Lemma Inv_add_rounds ip port priv dout cout ts w uuid w' :
  Inv w → must_wait w = false →
  add_rounds ip port priv dout cout ts w = Done uuid w' → Inv w'.
Proof.
  revert w. induction ts as [|[t now] ts IH]; intros w HI Hw E; [done|]. cbn [add_rounds] in E.
  pose proof (round_index w HI Hw (lastIndex w)) as Hk.
  change (ioThreadNum (w <| lastIndex := _ |>)) with (ioThreadNum w) in E.
  change (uniquId_ (w <| lastIndex := _ |>)) with (uniquId_ w) in E.
  change (UniqueTail (w <| lastIndex := _ |>)) with (UniqueTail w) in E.
  revert Hk E. generalize (Z.to_nat (u64 (s32 (lastIndex w mod ioThreadNum w)))) as k. intros k Hk E.
  destruct (UniqueNum.uniqueNumId t (uniquId_ w) (UniqueTail w)) as [uu tail].
  set (w1 := w <| lastIndex := u32 (lastIndex w + 1) |> <| UniqueTail := tail |>) in *.
  assert (HI1 : Inv w1) by (eapply Inv_ext; eauto).
  change (libeventIoPtrVect (_ <| heap ::= _ |>)) with (libeventIoPtrVect w) in E.
  destruct (libeventIoPtrVect w !! k) as [[io|]|] eqn:Ek; [|..].
  - injection E as <- <-. by apply (Inv_add w1).
  - eapply IH; [| |exact E]; [by apply Inv_lost|done].
  - by apply lookup_ge_None_1 in Ek; lia.
Qed.

Lemma Inv_insert u i l1 l2 w :
  Inv w → inserting w = l1 ++ (u, i) :: l2 → Inv ((add_insert u i w) <| inserting := l1 ++ l2 |>).
Proof.
  intros [Hv Hn Hx Hm Hi Hq He] Hl. split; try done.
  - intros u' i' H. cbn in H. destruct (tcpClientConnMap w !! u) eqn:E; [by apply Hm|].
    apply lookup_insert_Some in H as [[<- <-]|[_ H]]; [|by apply Hm].
    apply (Hi u i). rewrite Hl. set_solver.
  - intros u' i' Hin. cbn in Hin. apply (Hi u' i'). rewrite Hl. rewrite elem_of_app in *.
    rewrite elem_of_cons. tauto.
  - intros u'. specialize (He u'). rewrite Hl, named_app, named_cons in He.
    cbn -[ends mapped named sigs]. sigs_of w. rewrite named_app.
    assert ((mapped u' (match tcpClientConnMap w !! u with Some _ => tcpClientConnMap w
      | None => <[u := i]> (tcpClientConnMap w) end) <=
      mapped u' (tcpClientConnMap w) + if decide (u = u') then 1 else 0)%nat); [|lia].
    unfold mapped. destruct (tcpClientConnMap w !! u) eqn:E; [lia|].
    destruct (decide (u = u')) as [<-|Hne]; [destruct (decide _), (decide _); lia|]. rewrite lookup_insert_ne by done. lia.
Qed.

Lemma Inv_deliver cb l1 l2 w :
  Inv w → calling w = l1 ++ cb :: l2 → Inv (w <| calling := l1 ++ l2 |> <| called ::= cons cb |>).
Proof.
  intros [Hv Hn Hx Hm Hi Hq He] Hl. split; try done.
  intros u. specialize (He u). rewrite Hl in He. cbn -[ends mapped named sigs]. sigs_of w.
  rewrite ends_app, ends_cons in He. rewrite (ends_app u l1 l2), (ends_cons u cb (called w)). lia.
Qed.

Lemma Inv_init u n cb mcb w : Inv w → 0 <= n < 2 ^ 31 → Inv (libeventTcpCliInit u n cb mcb w).2.
Proof.
  intros HI Hn. unfold libeventTcpCliInit. destruct (Z.ltb_spec 0 (ioThreadNum w)); [done|].
  destruct HI as [Hv Hn' Hx Hm Hi Hq He]. cbn [snd]. split; try done.
  - cbn. rewrite length_replicate. lia.
  - cbn. lia.
  - sigs_of w. destruct (sigs w) as [|s l]; [by constructor|]. apply Forall_cons in Hx as [Hs _]. lia.
  - intros k io [Hk _]%lookup_replicate. done.
Qed.

Lemma Inv_map_io f w :
  Inv w → (∀ io, orderDeque_ (f io) = orderDeque_ io) →
  Inv (w <| libeventIoPtrVect ::= map (option_map f) |>).
Proof.
  intros [Hv Hn Hx Hm Hi Hq He] Hf.
  split; cbn -[ends mapped named sigs]; rewrite ?length_map; try done.
  intros k io H. change (map ?g ?l) with (g <$> l) in H. rewrite list_lookup_fmap in H.
  destruct (libeventIoPtrVect w !! k) as [[io0|]|] eqn:E; [|done..]. injection H as <-.
  rewrite Hf. by eapply Hq.
Qed.

Lemma Inv_alter_io f k w :
  Inv w → (∀ io, orderDeque_ (f io) = orderDeque_ io) →
  Inv (w <| libeventIoPtrVect ::= alter (fmap f) k |>).
Proof.
  intros [Hv Hn Hx Hm Hi Hq He] Hf.
  split; cbn -[ends mapped named sigs]; rewrite ?length_alter; try done.
  intros k' io H. destruct (decide (k = k')) as [<-|Hne].
  - rewrite list_lookup_alter_eq in H.
    destruct (libeventIoPtrVect w !! k) as [[io0|]|] eqn:E; [|done..]. injection H as <-.
    rewrite Hf. by eapply Hq.
  - rewrite list_lookup_alter_ne in H by done. by eapply Hq.
Qed.

(** Client objects behind valid references. *)
Lemma sigs_lookup w i u k :
  sigs w !! i = Some (u, k) → ∃ c, heap w !! i = Some c ∧ uniqueNum_ c = u ∧ ioIndex_ c = k.
Proof.
  unfold sigs. rewrite list_lookup_fmap. destruct (heap w !! i) as [c|]; [|done].
  intros [= <- <-]. eauto.
Qed.

Lemma heap_sigs w i c : heap w !! i = Some c → sigs w !! i = Some (uniqueNum_ c, ioIndex_ c).
Proof. intros Hc. unfold sigs. by rewrite list_lookup_fmap, Hc. Qed.

Lemma client_index w i c :
  Inv w → heap w !! i = Some c → ∃ p, libeventIoPtrVect w !! ioIndex_ c = Some p.
Proof.
  intros HI Hc%heap_sigs. apply lookup_lt_is_Some_2.
  exact (proj1 (Forall_lookup _ _) (inv_index _ HI) _ _ Hc).
Qed.

Lemma Inv_disconnect u r w w' : Inv w → libeventTcpCliDisconnect u w = Done r w' → Inv w'.
Proof.
  intros HI E. unfold libeventTcpCliDisconnect in E.
  destruct (negb _); [by simplify_eq|]. destruct (must_wait w); [done|].
  destruct (tcpClientConnMap w !! u) as [i|] eqn:Em; [|by simplify_eq].
  destruct (heap w !! i) as [c|] eqn:Ec; [|done].
  destruct (libeventIoPtrVect w !! ioIndex_ c) as [[io|]|] eqn:Ei; [| |done];
    simplify_eq; apply Inv_tcpServerConnect; [|done].
  apply Inv_order; [done..|]. exists i, (uniqueNum_ c). split; [done|by apply heap_sigs].
Qed.

Lemma setRecvSecond_sig now c r c' :
  setRecvSecond now c = (r, c') → uniqueNum_ c' = uniqueNum_ c ∧ ioIndex_ c' = ioIndex_ c.
Proof. unfold setRecvSecond. destruct (expired _ _); intros [= <- <-]; done. Qed.

Lemma connectServer_sig b e c r c' :
  connectServer b e c = (r, c') → uniqueNum_ c' = uniqueNum_ c ∧ ioIndex_ c' = ioIndex_ c.
Proof. unfold connectServer. repeat case_match; intros; by simplify_eq. Qed.

Lemma Inv_send u msg now r w w' : Inv w → libeventTcpCliSendMsg u msg now w = Done r w' → Inv w'.
Proof.
  intros HI E. unfold libeventTcpCliSendMsg in E.
  destruct (negb _); [by simplify_eq|]. destruct (must_wait w); [done|].
  destruct (tcpClientConnMap w !! u) as [i|] eqn:Em; [|by simplify_eq].
  destruct (heap w !! i) as [c|] eqn:Ec; [|done].
  destruct (setRecvSecond now c) as [r0 c'] eqn:Er. apply setRecvSecond_sig in Er as [Hu Hx].
  assert (HI1 : Inv (set_client i c' w)) by (by eapply Inv_set_client).
  assert (Hd : ∀ w1, Inv w1 → match libeventTcpCliDisconnect u w1 with
    | Done _ w => Done (-3) w | Waits => Waits | Undefined => Undefined end = Done r w' → Inv w').
  { intros w1 HI' Hw. destruct (libeventTcpCliDisconnect u w1) eqn:Ed; [|done..].
    injection Hw as <- <-. by eapply Inv_disconnect. }
  destruct (r0 =? 0); [|by apply Hd in E].
  change (libeventIoPtrVect (set_client i c' w)) with (libeventIoPtrVect w) in E.
  destruct (libeventIoPtrVect w !! ioIndex_ c') as [[io|]|] eqn:Ei; [|by apply Hd in E|done].
  injection E as <- <-. apply Inv_order; [done..|]. exists i, (uniqueNum_ c). split; [done|].
  erewrite sigs_set_client by done. rewrite Hx. by apply heap_sigs.
Qed.

Lemma Inv_handle_order k e b w w' : Inv w → handle_order k e w = Done b w' → Inv w'.
Proof.
  intros HI E. unfold handle_order in E.
  destruct (libeventIoPtrVect w !! k) as [[io|]|] eqn:Ek; [|done..].
  pose proof (inv_queue _ HI k io Ek) as Hq. pose proof (lookup_lt_Some _ _ _ Ek) as Hlt.
  destruct (orderDeque_ io) as [|nd q]; cbn [dealOrderNode] in E.
  { injection E as <- <-. by apply Inv_set_io. }
  apply Forall_cons in Hq as [_ Hq].
  assert (HI1 : Inv (set_io k (io <| orderDeque_ := q |>) w)) by (by apply Inv_set_io).
  revert HI1 E. generalize (set_io k (io <| orderDeque_ := q |>) w) as w1. intros w1 HI1 E.
  destruct nd as [msg [i|]]; [|by simplify_eq].
  destruct (heap w1 !! i) as [c|] eqn:Ec; [|done]. destruct (sockfd_ c =? 0).
  - destruct (connectServer (evbase io) e c) as [ret c'] eqn:Es.
    apply connectServer_sig in Es as [Hu Hx]. injection E as <- <-.
    assert (Inv (set_client i c' w1)) by (by eapply Inv_set_client).
    destruct (ret <? 0); [by apply Inv_tcpServerConnect|done].
  - destruct (bool_decide _); injection E as <- <-; [by eapply Inv_set_client|].
    destruct (sendMsg c); [by eapply Inv_ext; eauto|done].
Qed.

Lemma Inv_on_client i f w w' :
  Inv w → on_client i f w = Done () w' →
  (∀ c, heap w !! i = Some c → f c w = Done () w' → Inv w') → Inv w'.
Proof. unfold on_client. intros HI E Hf. destruct (heap w !! i) eqn:Ec; [|done]. by eapply Hf. Qed.

Lemma Inv_closed i c w : Inv w → heap w !! i = Some c → Inv (closed i c w).
Proof. intros HI Hc. apply Inv_tcpServerConnect. by eapply Inv_set_client. Qed.

Lemma Inv_message i now msg copied drain w w' :
  Inv w → TcpClientOnMessage i now msg copied drain w = Done () w' → Inv w'.
Proof.
  intros HI E. eapply Inv_on_client; [done..|]. intros c Hc. cbn beta.
  destruct (setRecvSecond now c) as [r c'] eqn:Er. apply setRecvSecond_sig in Er as [Hu Hx].
  assert (HI1 : Inv (set_client i c' w)) by (by eapply Inv_set_client).
  assert (Hc1 : heap (set_client i c' w) !! i = Some c')
    by (cbn; apply list_lookup_insert_eq; by eapply lookup_lt_Some).
  assert (Hlost : ∀ w1, Inv w1 → heap w1 !! i = Some c' →
    Inv (tcpServerConnect (callback c' DIS_CONNECT) (set_client i (disConnect c') w1))).
  { intros w1 HI' Hc'. apply Inv_tcpServerConnect. by eapply Inv_set_client. }
  assert (HI2 : Inv (tcpServerOnMessage (uniqueNum_ c') msg (set_client i c' w))).
  { unfold tcpServerOnMessage. destruct (msgCb _); [by eapply Inv_ext; eauto|done]. }
  assert (Hc2 : heap (tcpServerOnMessage (uniqueNum_ c') msg (set_client i c' w)) !! i = Some c').
  { unfold tcpServerOnMessage. by destruct (msgCb _). }
  destruct (r <? 0); [intros [= <-]; auto|]. destruct copied; [|intros [= <-]; auto].
  destruct (drain <? 0); intros [= <-]; auto.
Qed.

Lemma Inv_event i ev w w' : Inv w → TcpClientOnEvent i ev w = Done () w' → Inv w'.
Proof.
  intros HI E. eapply Inv_on_client; [done..|]. intros c Hc. cbn beta.
  destruct (has ev BEV_EVENT_EOF); [intros [= <-]; by apply Inv_closed|].
  destruct (has ev BEV_EVENT_ERROR); [intros [= <-]; by apply Inv_closed|].
  destruct (has ev BEV_EVENT_CONNECTED); intros [= <-]; [|by apply Inv_closed].
  apply Inv_tcpServerConnect. by eapply Inv_set_client.
Qed.

Lemma Inv_step w w' : Inv w → step w w' → Inv w'.
Proof.
  intros HI Hs. destruct Hs as [| ? ? ? ? ? ? ? w w' E| | | |u p r w w' E| | |k io w Hk| |k fd b w|w|w|i w w' E| |i len w w' E|].
  - by apply Inv_init.
  - unfold libeventAddConnect in E. destruct (negb _); [by simplify_eq|].
    destruct (must_wait w) eqn:Hw; [done|]. by eapply Inv_add_rounds.
  - by apply Inv_insert.
  - by eapply Inv_send.
  - by eapply Inv_disconnect.
  - unfold libeventTcpCliResetPrivate in E. destruct (negb _); [by simplify_eq|].
    destruct (must_wait w); [done|]. destruct (tcpClientConnMap w !! u) as [i|]; [|by simplify_eq].
    destruct (heap w !! i) eqn:Ec; [|done]. injection E as <- <-. by eapply Inv_set_client.
  - by apply Inv_deliver.
  - by eapply Inv_handle_order.
  - apply Inv_set_io; [done|by eapply lookup_lt_Some|]. exact (inv_queue _ HI k io Hk).
  - by apply Inv_set_io; [..|constructor].
  - unfold libeventIoReady. destruct (fd && b); [|done].
    eapply (Inv_ext (w <| libeventIoPtrVect ::= alter (fmap (λ io, io <| evbase := true |>)) k |>)); [by apply Inv_alter_io|done..].
  - unfold io_thread_return. destruct (negb _); by apply (Inv_ext w).
  - unfold libeventTcpCliExit_signal. destruct (_ =? 0); [by apply (Inv_ext w)|].
    eapply (Inv_ext (w <| libeventIoPtrVect ::= map (option_map libeventIoExit) |>)); [by apply Inv_map_io|done..].
  - eapply Inv_on_client; [done..|]. intros c Hc. cbn beta.
    destruct (state_ c =? _); intros [= <-]; [|done].
    apply Inv_tcpServerConnect. by eapply Inv_set_client.
  - by eapply Inv_message.
  - eapply Inv_on_client; [done..|]. intros c Hc [= <-]. by eapply Inv_set_client.
  - by eapply Inv_event.
Qed.

Lemma Inv_reachable w : reachable w → Inv w.
Proof.
  intros Hr. unfold reachable in Hr. remember LibeventTcpCli_new as w0 eqn:E.
  assert (HI : Inv w0) by (subst; apply Inv_new). clear E.
  induction Hr as [|? ? ? Hs _ IH]; [done|]. apply IH. by eapply Inv_step.
Qed.

(** ** A run of the module, for examples *)

Definition world_of {A} (o : Outcome A) : World :=
  match o with Done _ w => w | _ => LibeventTcpCli_new end.

Definition noon : UniqueNum.tm :=
  {| UniqueNum.tm_year := 124; UniqueNum.tm_mon := 4; UniqueNum.tm_mday := 6; UniqueNum.tm_hour := 12;
     UniqueNum.tm_min := 0; UniqueNum.tm_sec := 0 |}.
Definition noon_id : Z := 3505594913072611329.
Definition accepts : ConnEnv :=
  {| evtimer_new_ok := true; bufferevent_socket_new_ok := true; bufferevent_enable_ret := 0;
     bufferevent_socket_connect_ret := 0; bufferevent_getfd_ret := 5; conn_second := 1000 |}.

(** One IO thread; a connection added, connected, and disconnected by the user
    while the report of its success is still on its way. *)
Definition demo_ready : World :=
  (libeventIoReady 0 true true (io_thread_new 0 (libeventTcpCliInit 7 1 true true LibeventTcpCli_new).2)).2.
Definition demo_added : World :=
  world_of (libeventAddConnect (lit "10.0.0.1") 80 0 30 3 [(noon, 1000)] demo_ready).
Definition demo_mapped : World := (add_insert noon_id 0 demo_added) <| inserting := [] |>.
Definition demo_connected : World :=
  world_of (TcpClientOnEvent 0 BEV_EVENT_CONNECTED (world_of (handle_order 0 accepts demo_mapped))).
Definition demo_dropped : World := world_of (libeventTcpCliDisconnect noon_id demo_connected).

Ltac eval_eq := vm_compute; reflexivity.

Lemma demo_ready_reachable : reachable demo_ready.
Proof.
  eapply rtc_l; [apply (step_init 7 1 true true); lia|].
  eapply rtc_l; [apply (step_thread 0); vm_compute; lia|].
  apply rtc_once. apply (step_ready 0 true true).
Qed.

Lemma demo_mapped_reachable : reachable demo_mapped.
Proof.
  unfold reachable. etransitivity; [apply demo_ready_reachable|].
  eapply rtc_l; [apply (step_add (lit "10.0.0.1") 80 0 30 3 [(noon, 1000)] noon_id _ demo_added); eval_eq|].
  apply rtc_once, (step_insert noon_id 0 [] []). eval_eq.
Qed.

Lemma demo_connected_reachable : reachable demo_connected.
Proof.
  unfold reachable. etransitivity; [apply demo_mapped_reachable|].
  eapply rtc_l; [apply (step_order 0 accepts true _ (world_of (handle_order 0 accepts demo_mapped))); eval_eq|].
  apply rtc_once. apply (step_event 0 BEV_EVENT_CONNECTED). eval_eq.
Qed.

(** Deliver the reports in the opposite order of the locked sections. *)
Definition report (state : Z) : Callback :=
  {| cb_unid := noon_id; cb_priv := 0; cb_state := state; cb_ip := lit "10.0.0.1"; cb_port := 80 |}.
Definition deliver (cb : Callback) (rest : list Callback) (w : World) : World :=
  w <| calling := rest |> <| called ::= cons cb |>.
Definition demo_late : World :=
  deliver (report CONN_SUCCESS) [] (deliver (report DIS_CONNECT) [report CONN_SUCCESS] demo_dropped).

Lemma demo_late_reachable : reachable demo_late.
Proof.
  unfold reachable. etransitivity; [apply demo_connected_reachable|].
  eapply rtc_l; [apply (step_disconnect noon_id 0 _ demo_dropped); eval_eq|].
  eapply rtc_l; [apply (step_deliver (report DIS_CONNECT) [] [report CONN_SUCCESS]); eval_eq|].
  apply rtc_once. apply (step_deliver (report CONN_SUCCESS) [] []). reflexivity.
Qed.

(** ** Reports *)

Lemma named_absent u l : u ∉ (fst <$> l) → named u l = 0%nat.
Proof.
  induction l as [|[v k] l IH]; intros Hu; [done|]. rewrite named_cons.
  apply not_elem_of_cons in Hu as [Hv Hu]. cbn in Hv. rewrite decide_False by congruence. by apply IH.
Qed.

Lemma named_nodup u l : NoDup (fst <$> l) → (named u l <= 1)%nat.
Proof.
  induction l as [|[v k] l IH]; [unfold named; cbn; lia|].
  intros [Hv Hl]%NoDup_cons. rewrite named_cons. case_decide as Hu; [|by apply IH].
  subst v. rewrite named_absent by done. lia.
Qed.

(** C5: A connection ends once: whatever the threads do, [connCb] is told the end
    of connection [u] (failed or disconnected) at most as often as [u] was handed
    out, so at most once when the numbers are distinct, and once it has been told
    the number is out of the map. *)
Theorem ends_once (w : World) (u : Z) :
  reachable w →
  (ends u (called w) <= named u (sigs w))%nat ∧
  (NoDup (uniqueNum_ <$> heap w) →
   (ends u (called w) <= 1)%nat ∧ (ends u (called w) = 1%nat → tcpClientConnMap w !! u = None)).
Proof.
  intros HI%Inv_reachable. pose proof (inv_ends w HI u) as He. split; [lia|].
  intros Hnd. assert (Hn : (named u (sigs w) <= 1)%nat).
  { apply named_nodup. unfold sigs. by rewrite <- list_fmap_compose. }
  split; [lia|]. intros H1. unfold mapped in He. case_decide as Hm; [lia|].
  by apply eq_None_not_Some.
Qed.

Lemma ends_once_witness :
  ends noon_id (called demo_late) = 1%nat ∧
  (ends noon_id (called demo_late) <= named noon_id (sigs demo_late))%nat ∧
  (NoDup (uniqueNum_ <$> heap demo_late) →
   (ends noon_id (called demo_late) <= 1)%nat ∧
   (ends noon_id (called demo_late) = 1%nat → tcpClientConnMap demo_late !! noon_id = None)).
Proof. split; [eval_eq|]. apply (ends_once demo_late noon_id), demo_late_reachable. Defined.

(** The reports of one connection may overtake each other: the user can be told
    of the success of a connection after its end. *)
Lemma late_success : map cb_state (called demo_late) = [CONN_SUCCESS; DIS_CONNECT].
Proof. eval_eq. Qed.

(** ** References stay valid *)

Section references.
Context (w : World) (HI : Inv w).

Lemma mapped_client u i : tcpClientConnMap w !! u = Some i → ∃ c, heap w !! i = Some c ∧ uniqueNum_ c = u.
Proof. intros Hm. destruct (inv_map _ HI _ _ Hm) as [k (c & ? & ? & _)%sigs_lookup]. by exists c. Qed.
Lemma queued_client k io nd : libeventIoPtrVect w !! k = Some (Some io) → nd ∈ orderDeque_ io →
  ∃ i c, cli nd = Some i ∧ heap w !! i = Some c ∧ ioIndex_ c = k.
Proof.
  intros Hk Hnd. pose proof (proj1 (Forall_forall _ _) (inv_queue _ HI k io Hk) _ Hnd) as (i & u & Hi & (c & ? & _ & ?)%sigs_lookup).
  by exists i, c.
Qed.
Lemma disconnect_defined u : libeventTcpCliDisconnect u w ≠ Undefined.
Proof.
  unfold libeventTcpCliDisconnect. destruct (negb _); [done|]. destruct (must_wait w); [done|].
  destruct (tcpClientConnMap w !! u) as [i|] eqn:Em; [|done]. destruct (mapped_client u i Em) as (c & Hc & _). rewrite Hc.
  by destruct (client_index w i c HI Hc) as [q ->].
Qed.
Lemma private_defined u p : libeventTcpCliResetPrivate u p w ≠ Undefined.
Proof.
  unfold libeventTcpCliResetPrivate. destruct (negb _); [done|]. destruct (must_wait w); [done|].
  destruct (tcpClientConnMap w !! u) as [i|] eqn:Em; [|done]. by destruct (mapped_client u i Em) as (c & -> & _).
Qed.
Lemma order_defined k io e : libeventIoPtrVect w !! k = Some (Some io) → handle_order k e w ≠ Undefined.
Proof.
  intros Hk. unfold handle_order. rewrite Hk. pose proof (queued_client k io) as Hq.
  destruct (orderDeque_ io) as [|[m q] nds]; [done|].
  destruct (Hq _ Hk (list_elem_of_here _ _)) as (i & c & Hi & Hc & _). cbn in Hi. subst q.
  cbn [dealOrderNode]. change (heap (set_io _ _ w)) with (heap w). rewrite Hc.
  destruct (sockfd_ c =? 0); [by destruct (connectServer _ _ _)|]. by destruct (bool_decide _).
Qed.
End references.

Lemma send_defined w u msg now : Inv w → libeventTcpCliSendMsg u msg now w ≠ Undefined.
Proof.
  intros HI. unfold libeventTcpCliSendMsg. destruct (negb _); [done|]. destruct (must_wait w); [done|].
  destruct (tcpClientConnMap w !! u) as [i|] eqn:Em; [|done]. destruct (mapped_client w HI u i Em) as (c & Hc & _). rewrite Hc.
  destruct (setRecvSecond now c) as [r c'] eqn:Er. apply setRecvSecond_sig in Er as [Hu Hx].
  pose proof (disconnect_defined (set_client i c' w) (Inv_set_client i c' c w HI Hc Hu Hx) u) as Hd.
  change (libeventIoPtrVect (set_client i c' w)) with (libeventIoPtrVect w).
  destruct (client_index w i c HI Hc) as [q Hq]. rewrite Hx, Hq.
  destruct (r =? 0); [destruct q|]; [done|..]; by destruct (libeventTcpCliDisconnect _ _).
Qed.
Lemma disconnect_all_defined us w : Inv w → disconnect_all us w ≠ Undefined.
Proof.
  revert w. induction us as [|u us IH]; intros w HI; [done|]. cbn [disconnect_all]. pose proof (disconnect_defined w HI u) as Hd.
  destruct (libeventTcpCliDisconnect u w) as [r w1| |] eqn:E; [|done..]. by apply IH, (Inv_disconnect u r w).
Qed.
Lemma add_rounds_defined ip port priv dout cout ts w :
  Inv w → must_wait w = false → add_rounds ip port priv dout cout ts w ≠ Undefined.
Proof.
  revert w. induction ts as [|[t now] ts IH]; intros w HI Hw; [done|]. cbn [add_rounds].
  pose proof (round_index w HI Hw (lastIndex w)) as Hk.
  change (ioThreadNum (w <| lastIndex := _ |>)) with (ioThreadNum w).
  change (uniquId_ (w <| lastIndex := _ |>)) with (uniquId_ w).
  change (UniqueTail (w <| lastIndex := _ |>)) with (UniqueTail w).
  revert Hk. generalize (Z.to_nat (u64 (s32 (lastIndex w mod ioThreadNum w)))) as k. intros k Hk.
  destruct (UniqueNum.uniqueNumId t (uniquId_ w) (UniqueTail w)) as [uu tail].
  set (w1 := w <| lastIndex := u32 (lastIndex w + 1) |> <| UniqueTail := tail |>).
  assert (HI1 : Inv w1) by (eapply Inv_ext; eauto).
  change (libeventIoPtrVect (_ <| heap ::= _ |>)) with (libeventIoPtrVect w).
  destruct (libeventIoPtrVect w !! k) as [[io|]|] eqn:Ek; [done| |by apply lookup_ge_None_1 in Ek; lia].
  apply IH; [by apply (Inv_lost w1)|exact Hw].
Qed.
(** The thread goes on with its own [LibeventIo]. *)
Lemma order_keeps_thread k e b w w1 : handle_order k e w = Done b w1 → ∃ io, libeventIoPtrVect w1 !! k = Some (Some io).
Proof.
  unfold handle_order. destruct (libeventIoPtrVect w !! k) as [[io|]|] eqn:Ek; [|done..].
  destruct (dealOrderNode (orderDeque_ io)) as [node q].
  assert (H1 : libeventIoPtrVect (set_io k (io <| orderDeque_ := q |>) w) !! k = Some (Some (io <| orderDeque_ := q |>))).
  { cbn. apply list_lookup_insert_eq. by eapply lookup_lt_Some. }
  assert (Hserver : ∀ cb w2, libeventIoPtrVect (tcpServerConnect cb w2) = libeventIoPtrVect w2).
  { intros cb w2. unfold tcpServerConnect. by repeat case_match. }
  destruct node as [[m [i|]]|]; [|intros [= _ <-]; eauto..].
  destruct (heap _ !! i) as [c|]; [|done]. destruct (sockfd_ c =? 0).
  - destruct (connectServer _ _ _) as [ret c']. intros [= _ <-]. destruct (ret <? 0); rewrite ?Hserver; eauto.
  - destruct (bool_decide _); [intros [= _ <-]; eauto|]. destruct (sendMsg c); intros [= _ <-]; eauto.
Qed.
Lemma orders_defined k es io w : Inv w → libeventIoPtrVect w !! k = Some (Some io) → handle_orders k es w ≠ Undefined.
Proof.
  revert io w. induction es as [|e es IH]; intros io w HI Hk; [done|]. cbn [handle_orders].
  pose proof (order_defined w HI k io e Hk) as Hd. destruct (handle_order k e w) as [[] w1| |] eqn:E; [|done..].
  destruct (order_keeps_thread _ _ _ _ _ E) as [io1 H1]. eapply IH; [|exact H1]. by eapply Inv_handle_order.
Qed.

(** C23: A connection belongs to one IO thread, and the indices stay valid. In every
    reachable state the map gives for a number the object that was made with it, the
    object's IO thread is in the vector, and the orders in the queue of a thread are for
    objects of this thread alone. So no call of [libeventAddConnect], [libeventTcpCliSendMsg],
    [libeventTcpCliDisconnect] and [libeventTcpCliResetPrivate], no round of the expiry thread,
    and no [handleRead] of an IO thread that has made its [LibeventIo] indexes outside the
    vector or meets an order without object. (Objects of the model are never freed: when
    the last [shared_ptr] of one goes is not part of this.) *)
Theorem references_valid (w : World) :
  reachable w →
  (∀ u i, tcpClientConnMap w !! u = Some i →
    ∃ c, heap w !! i = Some c ∧ uniqueNum_ c = u ∧ (ioIndex_ c < length (libeventIoPtrVect w))%nat) ∧
  (∀ k io nd, libeventIoPtrVect w !! k = Some (Some io) → nd ∈ orderDeque_ io →
    ∃ i c, cli nd = Some i ∧ heap w !! i = Some c ∧ ioIndex_ c = k) ∧
  (∀ ip port priv dout cout ts, libeventAddConnect ip port priv dout cout ts w ≠ Undefined) ∧
  (∀ u msg now, libeventTcpCliSendMsg u msg now w ≠ Undefined) ∧
  (∀ u, libeventTcpCliDisconnect u w ≠ Undefined) ∧
  (∀ u p, libeventTcpCliResetPrivate u p w ≠ Undefined) ∧
  (∀ now, libeventIoExpireThread now w ≠ Undefined) ∧
  (∀ k io es, libeventIoPtrVect w !! k = Some (Some io) → handleRead k es w ≠ Undefined).
Proof.
  intros HI%Inv_reachable. split_and!.
  - intros u i Hm. destruct (mapped_client w HI u i Hm) as (c & Hc & Hu). exists c. split_and!; [done..|].
    destruct (client_index w i c HI Hc) as [q Hq]. by eapply lookup_lt_Some.
  - intros k io nd. by apply queued_client.
  - intros. unfold libeventAddConnect. destruct (negb _); [done|]. destruct (must_wait w) eqn:Hw; [done|]. by apply add_rounds_defined.
  - intros. by apply send_defined.
  - intros. by apply disconnect_defined.
  - intros. by apply private_defined.
  - intros now. unfold libeventIoExpireThread. destruct (negb _); [done|]. by apply disconnect_all_defined.
  - intros k io es Hk. unfold handleRead. rewrite Hk. destruct (_ =? 0); [done|].
    assert (H1 : Inv (set_io k (io <| wakeupFd := 0 |>) w)).
    { apply Inv_set_io; [done|by eapply lookup_lt_Some|]. exact (inv_queue _ HI k io Hk). }
    pose proof (orders_defined k es (io <| wakeupFd := 0 |>) _ H1) as Hd. destruct (handle_orders _ _ _); [done..|].
    exfalso. apply Hd; [|done]. cbn. apply list_lookup_insert_eq. by eapply lookup_lt_Some.
Qed.

Lemma references_valid_witness :
  (∀ u i, tcpClientConnMap demo_connected !! u = Some i →
    ∃ c, heap demo_connected !! i = Some c ∧ uniqueNum_ c = u ∧ (ioIndex_ c < length (libeventIoPtrVect demo_connected))%nat) ∧
  libeventTcpCliSendMsg noon_id (lit "hi") 1001 demo_connected ≠ Undefined ∧
  handleRead 0 [accepts] demo_connected ≠ Undefined.
Proof.
  destruct (references_valid demo_connected demo_connected_reachable) as (H1 & _ & _ & H2 & _ & _ & _ & H3).
  split_and!; [exact H1|apply H2|]. apply (H3 0%nat {| wakeupFd := 2; orderDeque_ := []; evbase := true |}). eval_eq.
Defined.

(** ** Orders are carried out in order *)

(** The orders of thread [k] are messages for connections that are up. *)
Definition sends (w : World) (q : list OrderNode) (l : list (nat * bytes)) : Prop :=
  Forall2 (λ nd p, nd = {| wriMsg := p.2; cli := Some p.1 |} ∧ p.2 ≠ [] ∧
    ∃ c, heap w !! p.1 = Some c ∧ sockfd_ c ≠ 0 ∧ bev_ c = true) q l.

Lemma handle_orders_sends k es io l w :
  libeventIoPtrVect w !! k = Some (Some io) → sends w (orderDeque_ io) l →
  (length l < length es)%nat →
  ∃ w', handle_orders k es w = Done () w' ∧ written w' = reverse l ++ written w ∧
    heap w' = heap w ∧ tcpClientConnMap w' = tcpClientConnMap w ∧
    libeventIoPtrVect w' !! k = Some (Some (io <| orderDeque_ := [] |>)).
Proof.
  revert es io w. induction l as [|[i msg] l IH]; intros es io w Hk Hs Hl.
  - destruct es as [|e es]; [cbn in Hl; lia|]. apply Forall2_nil_inv_r in Hs.
    cbn [handle_orders]. unfold handle_order. rewrite Hk, Hs. cbn [dealOrderNode].
    eexists. split; [done|]. cbn. split_and!; try done. rewrite list_lookup_insert_eq; [done|].
    by eapply lookup_lt_Some.
  - destruct es as [|e es]; [cbn in Hl; lia|].
    apply Forall2_cons_inv_r in Hs as (nd & q & (-> & Hm & c & Hc & Hf & Hb) & Hq & Eq). cbn [fst snd] in *.
    cbn [handle_orders]. unfold handle_order. rewrite Hk, Eq. cbn [dealOrderNode].
    change (heap (set_io _ _ w)) with (heap w). rewrite Hc.
    destruct (Z.eqb_spec (sockfd_ c) 0); [done|]. rewrite bool_decide_eq_false_2 by done.
    unfold sendMsg. rewrite Hb.
    set (w1 := set_with written _ _).
    destruct (IH es (io <| orderDeque_ := q |>) w1) as (w' & E & Ew & Eh & Em & Ek);
      [|done|cbn in Hl; lia|].
    { cbn. apply list_lookup_insert_eq. by eapply lookup_lt_Some. }
    exists w'. rewrite Ew, Eh, Em, Ek, reverse_cons, <- app_assoc. by split_and!.
Qed.

Lemma handleRead_sends w k es io l :
  libeventIoPtrVect w !! k = Some (Some io) → sends w (orderDeque_ io) l → wakeupFd io ≠ 0 →
  (length l < length es)%nat →
  ∃ w', handleRead k es w = Done (negb (wakeupFd io mod 2 =? 0)) w' ∧
    written w' = reverse l ++ written w ∧ heap w' = heap w ∧
    libeventIoPtrVect w' !! k = Some (Some {| wakeupFd := 0; orderDeque_ := []; evbase := evbase io |}).
Proof.
  intros Hk Hs Hw Hl. unfold handleRead. rewrite Hk.
  destruct (Z.eqb_spec (wakeupFd io) 0); [done|].
  destruct (handle_orders_sends k es (io <| wakeupFd := 0 |>) l (set_io k (io <| wakeupFd := 0 |>) w))
    as (w' & -> & Ew & Eh & _ & Ek); [| |done|].
  - cbn. apply list_lookup_insert_eq. by eapply lookup_lt_Some.
  - exact Hs.
  - exists w'. split_and!; try done.
Qed.

(** C38: Messages go out in the order they were given: when an IO thread is woken up
    and its orders are messages for connections that are up, [handleRead] writes
    exactly those messages, in their order, and leaves the queue empty. *)
Theorem messages_in_order (w : World) (k : nat) (es : list ConnEnv) (io : LibeventIo) (l : list (nat * bytes)) :
  libeventIoPtrVect w !! k = Some (Some io) → sends w (orderDeque_ io) l → wakeupFd io ≠ 0 →
  (length l < length es)%nat →
  ∃ w', handleRead k es w = Done (negb (wakeupFd io mod 2 =? 0)) w' ∧
    written w' = reverse l ++ written w ∧ heap w' = heap w ∧
    libeventIoPtrVect w' !! k = Some (Some {| wakeupFd := 0; orderDeque_ := []; evbase := evbase io |}).
Proof. apply handleRead_sends. Qed.

Definition demo_sent : World :=
  world_of (libeventTcpCliSendMsg noon_id (lit "b") 1001
    (world_of (libeventTcpCliSendMsg noon_id (lit "a") 1001 demo_connected))).

Lemma messages_in_order_witness :
  ∃ w', handleRead 0 [accepts; accepts; accepts] demo_sent = Done false w' ∧
    written w' = [(0%nat, lit "b"); (0%nat, lit "a")] ∧ heap w' = heap demo_sent ∧
    libeventIoPtrVect w' !! 0%nat = Some (Some {| wakeupFd := 0; orderDeque_ := []; evbase := true |}).
Proof.
  apply (messages_in_order demo_sent 0 [accepts; accepts; accepts]
    {| wakeupFd := 6; orderDeque_ := [{| wriMsg := lit "a"; cli := Some 0%nat |};
         {| wriMsg := lit "b"; cli := Some 0%nat |}]; evbase := true |}
    [(0%nat, lit "a"); (0%nat, lit "b")]); [eval_eq| |done|cbn; lia].
  repeat constructor; try done; eexists; split; [eval_eq|done|eval_eq|done].
Defined.

(** ** Wake-ups

    The queue and the eventfd of one IO thread at the grain of their atomic steps:
    [libeventIoOrder] pushes under the queue's lock and writes the eventfd later;
    the IO thread reads the eventfd when it is readable and then takes orders until
    it finds the queue empty. [pushers] counts the calls between push and write. *)

Record Wake := { io_ : LibeventIo; pushers : nat; draining : bool }.

Inductive wake_step : Wake → Wake → Prop :=
  | wake_push nd io n d :
      wake_step {| io_ := io; pushers := n; draining := d |}
        {| io_ := io <| orderDeque_ ::= orderNodeInsert nd |>; pushers := S n; draining := d |}
  | wake_write io n d :
      wake_step {| io_ := io; pushers := S n; draining := d |}
        {| io_ := libeventIoWakeup io; pushers := n; draining := d |}
  | wake_exit io n d :
      wake_step {| io_ := io; pushers := n; draining := d |}
        {| io_ := libeventIoExit io; pushers := n; draining := d |}
  | wake_read io n :
      wakeupFd io ≠ 0 →
      wake_step {| io_ := io; pushers := n; draining := false |}
        {| io_ := io <| wakeupFd := 0 |>; pushers := n; draining := true |}
  | wake_take io n nd q :
      dealOrderNode (orderDeque_ io) = (Some nd, q) →
      wake_step {| io_ := io; pushers := n; draining := true |}
        {| io_ := io <| orderDeque_ := q |>; pushers := n; draining := true |}
  | wake_stop io n q :
      dealOrderNode (orderDeque_ io) = (None, q) →
      wake_step {| io_ := io; pushers := n; draining := true |}
        {| io_ := io <| orderDeque_ := q |>; pushers := n; draining := false |}.

Definition wake_start : Wake := {| io_ := LibeventIo_new; pushers := 0; draining := false |}.

Definition wake_inv (s : Wake) : Prop :=
  0 <= wakeupFd (io_ s) ∧
  (orderDeque_ (io_ s) ≠ [] → draining s = true ∨ (0 < pushers s)%nat ∨ wakeupFd (io_ s) ≠ 0).

Lemma eventfd_write_pos one c : 0 <= c → 0 < one <= 2 → 0 < eventfd_write one c.
Proof. intros Hc Ho. unfold eventfd_write. destruct (Z.ltb_spec (c + one) (2 ^ 64 - 1)); lia. Qed.

Lemma wake_inv_step s s' : wake_inv s → wake_step s s' → wake_inv s'.
Proof.
  unfold wake_inv. intros [Hc Hq] Hs.
  destruct Hs as [nd io n d|io n d|io n d|io n Hr|io n nd q Hd|io n q Hd]; cbn in *.
  - split; [done|]. intros _. right. left. lia.
  - pose proof (eventfd_write_pos 2 _ Hc ltac:(lia)). split; [lia|]. intros _. right. right. lia.
  - pose proof (eventfd_write_pos 1 _ Hc ltac:(lia)). split; [lia|]. intros _. right. right. lia.
  - split; [done|]. auto.
  - split; [done|]. auto.
  - split; [done|]. destruct (orderDeque_ io); [|done]. injection Hd as <-. done.
Qed.

(** C36: No order is left behind: in every interleaving of the threads that place
    orders with the IO thread, when nobody is between an order and its wake-up and
    the IO thread is not taking orders, a non-empty queue means that the eventfd
    is readable. *)
Theorem no_lost_wakeup (s : Wake) :
  rtc wake_step wake_start s → pushers s = 0%nat → draining s = false →
  orderDeque_ (io_ s) ≠ [] → 0 < wakeupFd (io_ s).
Proof.
  intros Hr Hp Hd Hq. assert (Hi : wake_inv s).
  { remember wake_start as s0 eqn:E. assert (H0 : wake_inv s0) by (subst; split; done).
    clear E Hp Hd Hq. induction Hr as [|? ? ? Hs _ IH]; [done|]. by eapply IH, wake_inv_step. }
  destruct Hi as [Hc Hi]. destruct (Hi Hq) as [Hx|[Hx|Hx]]; [congruence|lia|lia].
Qed.

(** An order placed just after the IO thread found the queue empty. *)
Definition late_order : OrderNode := {| wriMsg := lit "x"; cli := Some 0%nat |}.
Lemma no_lost_wakeup_witness :
  0 < wakeupFd (io_ {| io_ := {| wakeupFd := 2; orderDeque_ := [late_order]; evbase := false |};
                       pushers := 0; draining := false |}).
Proof.
  apply (no_lost_wakeup {| io_ := {| wakeupFd := 2; orderDeque_ := [late_order]; evbase := false |};
                           pushers := 0; draining := false |}); [|done..].
  eapply rtc_l; [apply wake_exit|]. eapply rtc_l; [by apply wake_read|].
  eapply rtc_l; [by eapply wake_stop|]. eapply rtc_l; [apply (wake_push late_order)|].
  eapply rtc_l; [apply wake_write|]. apply rtc_refl.
Defined.

(** *** The exit signal *)

(** The writes to the eventfd since it was last read: [true] for [libeventIoExit]. *)
Definition signal (l : list bool) (io : LibeventIo) : LibeventIo :=
  foldl (λ io (b : bool), if b then libeventIoExit io else libeventIoWakeup io) io l.
Fixpoint exits (l : list bool) : nat :=
  match l with [] => 0 | b :: l' => (if b then 1 else 0) + exits l' end.

Lemma exits_le l : (exits l <= length l)%nat.
Proof. induction l as [|[] l IH]; cbn; lia. Qed.

Lemma signal_counter l io :
  0 <= wakeupFd io → wakeupFd io + 2 * Z.of_nat (length l) < 2 ^ 64 - 1 →
  signal l io = io <| wakeupFd := wakeupFd io + 2 * Z.of_nat (length l) - Z.of_nat (exits l) |>.
Proof.
  revert io. induction l as [|b l IH]; intros io H0 Hl; cbn [length] in *.
  { destruct io; cbn. unfold set_with; cbn. f_equal. lia. }
  cbn [exits]. change (signal (b :: l) io) with (signal l (if b then libeventIoExit io else libeventIoWakeup io)).
  assert (Hw : ∀ one, 0 < one <= 2 → eventfd_write one (wakeupFd io) = wakeupFd io + one).
  { intros one Ho. unfold eventfd_write. destruct (Z.ltb_spec (wakeupFd io + one) (2 ^ 64 - 1)); lia. }
  destruct b; rewrite IH; unfold libeventIoExit, libeventIoWakeup; cbn -[eventfd_write Z.of_nat];
    rewrite ?Hw by lia; try lia; destruct io; unfold set_with; cbn -[Z.of_nat] in *; f_equal; lia.
Qed.

(** The exit signal: [handleRead] ends the dispatch loop exactly when the number
    of [libeventIoExit] calls since the eventfd was last read is odd, however many
    orders were signalled in between; so a second exit signal that arrives before
    the first is read cancels it. *)
Theorem exit_signal_parity (w : World) (k : nat) (e : ConnEnv) (io : LibeventIo) (l : list bool) :
  libeventIoPtrVect w !! k = Some (Some (signal l io)) → wakeupFd io = 0 → orderDeque_ io = [] →
  l ≠ [] → Z.of_nat (length l) < 2 ^ 32 →
  ∃ w', handleRead k [e] w = Done (Nat.odd (exits l)) w'.
Proof.
  intros Hk H0 Hq Hl Hb. rewrite signal_counter in Hk by lia.
  pose proof (exits_le l) as Hf.
  assert (0 < length l)%nat by (destruct l; [done|cbn; lia]).
  match type of Hk with _ = Some (Some ?x) => set (io' := x) in * end.
  assert (Ew : wakeupFd io' = 2 * Z.of_nat (length l) - Z.of_nat (exits l)) by (cbn; lia).
  destruct (handleRead_sends w k [e] io' []) as (w' & E & _); [done| |lia|cbn; lia|].
  - change (orderDeque_ io') with (orderDeque_ io). rewrite Hq. constructor.
  - exists w'. rewrite E, Ew. f_equal. rewrite <- Nat.negb_even. f_equal.
    assert (He : Nat.even (exits l) = (exits l mod 2 =? 0)%nat).
    { destruct (Nat.even (exits l)) eqn:Ev; symmetry; [apply Nat.eqb_eq|apply Nat.eqb_neq].
      - apply Nat.even_spec in Ev as [j ->]. dlia.
      - rewrite <- Nat.negb_odd, negb_false_iff in Ev. apply Nat.odd_spec in Ev as [j ->]. dlia. }
    rewrite He. destruct (Nat.eqb_spec (exits l mod 2) 0), (Z.eqb_spec ((2 * Z.of_nat (length l) - Z.of_nat (exits l)) mod 2) 0);
      [done|dlia|dlia|done].
Qed.

Definition demo_signalled (l : list bool) : World := set_io 0 (signal l LibeventIo_new) demo_ready.

Lemma exit_signal_parity_witness :
  (∃ w', handleRead 0 [accepts] (demo_signalled [false; true]) = Done true w') ∧
  (∃ w', handleRead 0 [accepts] (demo_signalled [true; false; true]) = Done false w').
Proof.
  split; [apply (exit_signal_parity (demo_signalled [false; true]) 0 accepts LibeventIo_new [false; true])
         |apply (exit_signal_parity (demo_signalled [true; false; true]) 0 accepts LibeventIo_new [true; false; true])];
    done || eval_eq.
Defined.

(** *** Start-up *)

(** An IO thread whose first [libeventIoReady] fails and whose second succeeds
    leaves the count of ready threads one short: every call of the user waits. *)
Definition demo_restarted : World :=
  (libeventIoReady 0 true true (io_thread_new 0
    (io_thread_return (libeventIoReady 0 false true
      (io_thread_new 0 (libeventTcpCliInit 7 1 true true LibeventTcpCli_new).2)).2))).2.

Lemma failed_start_blocks (u now : Z) (msg : bytes) :
  readyIothread demo_restarted = 0 ∧ libeventTcpCliSendMsg u msg now demo_restarted = Waits.
Proof. split; eval_eq. Qed.

(** An empty message is an order to disconnect. *)
Lemma empty_message_disconnects :
  libeventTcpCliSendMsg noon_id [] 1001 demo_connected = Done 0
    (world_of (libeventTcpCliSendMsg noon_id [] 1001 demo_connected)) ∧
  (bev_ <$> heap (world_of (handle_order 0 accepts
     (world_of (libeventTcpCliSendMsg noon_id [] 1001 demo_connected)))) !! 0%nat) = Some false.
Proof. split; eval_eq. Qed.

End TcpCliProofs.
