(* ===== verification/RedisTopo.v ===== *)
(** * Redis topologies ([src/redisAsyn/v1.0/src/PartRedisAsync.cpp])

    The replies to CLUSTER NODES and INFO REPLICATION become the tables that
    commands are routed by: the masters with their slots and slaves, and the map
    from slots to connections. Connections ([RedisClient]) are shared between the
    tables; they live in a heap and a [shared_ptr] is an index of it, [None] the
    null pointer. Elements that the code creates itself just before and tests for
    null are values here: [new] does not return null. *)

From S2P Require Import Prelude CLib Incommon Atomic HashSlot.
Import RedisTools.

Module RedisTopo.

(** ** Data ([RedisClient.h], [RedisClientMgr.h]) *)

Record RedisSvrInfo := { port_ : Z; ipAddr_ : bytes }.
#[export] Instance RedisSvrInfo_eq_dec : EqDecision RedisSvrInfo.
Proof. solve_decision. Defined.

Definition REDIS_CLIENT_STATE_INIT : Z := 0.
Definition REDIS_CLIENT_STATE_CONN : Z := 1.
Definition RESOURCES_FREE_ALREADY : Z := 0.
Definition RESOURCES_NEED_FREE : Z := 1.

(** [timev_], [base_] and [client_] tell whether the pointer is set; the map from
    sequence numbers to orders is a list in the order of its keys. *)
Record RedisClient := {
  state_ : Z; connOutSecond_ : Z; keepAliveSecond_ : Z; releaseState_ : Z; freeState_ : Z;
  ioIndex_ : nat; mgrFd_ : nat; lastSecond_ : Z; timev_ : bool; base_ : bool; client_ : bool;
  svrInfo_ : RedisSvrInfo; cmdSeq_ : Z; cmdSeqOrderMap_ : list (Z * nat) }.
#[export] Instance eta_RedisClient : Eta RedisClient := λ r, {|
  state_ := state_ r; connOutSecond_ := connOutSecond_ r; keepAliveSecond_ := keepAliveSecond_ r;
  releaseState_ := releaseState_ r; freeState_ := freeState_ r; ioIndex_ := ioIndex_ r;
  mgrFd_ := mgrFd_ r; lastSecond_ := lastSecond_ r; timev_ := timev_ r; base_ := base_ r;
  client_ := client_ r; svrInfo_ := svrInfo_ r; cmdSeq_ := cmdSeq_ r;
  cmdSeqOrderMap_ := cmdSeqOrderMap_ r |}.

Definition RedisClient_new (ioIndex fd : nat) (svrInfo : RedisSvrInfo) (keepAliveSecond connOutSecond : Z) :
    RedisClient := {|
  state_ := REDIS_CLIENT_STATE_INIT; connOutSecond_ := connOutSecond; keepAliveSecond_ := keepAliveSecond;
  releaseState_ := 0; freeState_ := RESOURCES_FREE_ALREADY; ioIndex_ := ioIndex; mgrFd_ := fd;
  lastSecond_ := 0; timev_ := false; base_ := false; client_ := false; svrInfo_ := svrInfo;
  cmdSeq_ := 0; cmdSeqOrderMap_ := [] |}.

Record SlotsInfo := { slotStart_ : Z; slotEnd_ : Z }.
Record RedisMasterSlave := { master_ : option nat; slave_ : list (option nat) }.
Record RedisClusterNode := {
  nodeIds_ : bytes; vectSlotInfo_ : list SlotsInfo; clusterNode_ : RedisMasterSlave }.
Record RedisClusterInfo := {
  clusterSlotMap_ : gmap Z nat; clusterVectInfo_ : list RedisClusterNode }.
#[export] Instance eta_RedisClusterInfo : Eta RedisClusterInfo := λ r,
  {| clusterSlotMap_ := clusterSlotMap_ r; clusterVectInfo_ := clusterVectInfo_ r |}.

Record RedisClientMgr := {
  svrType_ : Z; initState_ : Z; initSvrIndex_ : nat; m_mgrFd_ : nat; masterConn_ : Z; slaveConn_ : Z;
  inSvrInfoStr_ : bytes; auth_ : bytes; initSvrInfo_ : list RedisSvrInfo;
  nodeCli_ : option nat; mSlaveCli_ : option RedisMasterSlave; cluterCli_ : option RedisClusterInfo }.
#[export] Instance eta_RedisClientMgr : Eta RedisClientMgr := λ r, {|
  svrType_ := svrType_ r; initState_ := initState_ r; initSvrIndex_ := initSvrIndex_ r;
  m_mgrFd_ := m_mgrFd_ r; masterConn_ := masterConn_ r; slaveConn_ := slaveConn_ r;
  inSvrInfoStr_ := inSvrInfoStr_ r; auth_ := auth_ r; initSvrInfo_ := initSvrInfo_ r;
  nodeCli_ := nodeCli_ r; mSlaveCli_ := mSlaveCli_ r; cluterCli_ := cluterCli_ r |}.

Definition RedisClientMgr_new : RedisClientMgr := {|
  svrType_ := 0; initState_ := 0; initSvrIndex_ := 0; m_mgrFd_ := 0; masterConn_ := 0; slaveConn_ := 0;
  inSvrInfoStr_ := []; auth_ := []; initSvrInfo_ := []; nodeCli_ := None; mSlaveCli_ := None;
  cluterCli_ := None |}.

(** ** Strings *)

(** [std::string::find] of a character, from [pos] on; [substr(b, e - b)] with
    unsigned lengths. *)
Definition find_char (c : byte) (s : bytes) : option nat :=
  let i := index_of c 0 s in if decide (i < length s)%nat then Some i else None.
Definition find_from (c : byte) (pos : nat) (s : bytes) : option nat :=
  Nat.add pos <$> find_char c (drop pos s).
Definition substr_to (b e : nat) (s : bytes) : bytes :=
  if decide (b <= e)%nat then take (e - b) (drop b s) else drop b s.
Definition newline : bytes := ["010"%byte].
(** [strstr(s.c_str(), t)] *)
Definition strstr (s t : bytes) : bool :=
  bool_decide (is_Some (find_sub t (take (strIntLen (Some s)) s))).

Definition analysisSvrInfo (svrInfoStr : bytes) : option RedisSvrInfo :=
  match svrInfoStr with
  | [] => None
  | _ =>
      pos ← find_char ":" svrInfoStr;
      Some {| port_ := atoi (drop (pos + 1) svrInfoStr); ipAddr_ := take pos svrInfoStr |}
  end.

(** ** Looking for a connection *)

Section lookup.
Variable clients : list RedisClient.

(** The four [isSelfSvrInfo] compare addresses. *)
Definition isSelfSvrInfo (cli : option nat) (ipaddr : bytes) (port : Z) : bool :=
  match cli ≫= (clients !!.) with
  | Some c => bool_decide (ipAddr_ (svrInfo_ c) = ipaddr) && (port_ (svrInfo_ c) =? port)
  | None => false
  end.
Definition tcpCliState (cli : option nat) : Z :=
  match cli ≫= (clients !!.) with Some c => state_ c | None => REDIS_CLIENT_STATE_INIT end.
Definition connected (cli : option nat) : bool :=
  bool_decide (is_Some cli) && (tcpCliState cli =? REDIS_CLIENT_STATE_CONN).

Fixpoint getRedisClient_slaves (slaveInfo : list (option nat)) (ipaddr : bytes) (port : Z) : option nat :=
  match slaveInfo with
  | [] => None
  | cli :: slaveInfo' =>
      if isSelfSvrInfo cli ipaddr port then cli else getRedisClient_slaves slaveInfo' ipaddr port
  end.
Definition getRedisClient_ms (mSlaveInfo : option RedisMasterSlave) (ipaddr : bytes) (port : Z) : option nat :=
  match mSlaveInfo with
  | None => None
  | Some ms =>
      if isSelfSvrInfo (master_ ms) ipaddr port then master_ ms
      else getRedisClient_slaves (slave_ ms) ipaddr port
  end.
Fixpoint getRedisClient_nodes (nodes : list RedisClusterNode) (ipaddr : bytes) (port : Z) : option nat :=
  match nodes with
  | [] => None
  | nd :: nodes' =>
      match getRedisClient_ms (Some (clusterNode_ nd)) ipaddr port with
      | Some i => Some i
      | None => getRedisClient_nodes nodes' ipaddr port
      end
  end.
Definition getRedisClient_cluster (info : option RedisClusterInfo) (ipaddr : bytes) (port : Z) : option nat :=
  match info with
  | None => None
  | Some info => getRedisClient_nodes (clusterVectInfo_ info) ipaddr port
  end.

(** A connected slave of the node that has [slot]. *)
Definition covers (slot : Z) (r : SlotsInfo) : bool := (slotStart_ r <=? slot) && (slot <=? slotEnd_ r).
Fixpoint slave_for_slot (nodes : list RedisClusterNode) (slot : Z) : option nat :=
  match nodes with
  | [] => None
  | nd :: nodes' =>
      if existsb (covers slot) (vectSlotInfo_ nd)
      then default None (head (filter (λ c, connected c = true) (slave_ (clusterNode_ nd))))
      else slave_for_slot nodes' slot
  end.
Definition getRedisClient_slot (mgr : RedisClientMgr) (slot : Z) : option nat :=
  match cluterCli_ mgr with
  | None => None
  | Some info => slave_for_slot (clusterVectInfo_ info) slot
  end.
End lookup.

(** ** Reading a reply

    The heap, the counter that spreads connections over IO threads, and the new
    connections; a computation may leave the function with a code, do something
    undefined, or loop forever. *)

Record Scan := { heap : list RedisClient; ioIndex : Z; addRedisCli : list nat }.
#[export] Instance eta_Scan : Eta Scan := λ r,
  {| heap := heap r; ioIndex := ioIndex r; addRedisCli := addRedisCli r |}.

Inductive Stop := Return (code : Z) | Undefined | Forever.
Definition An (A : Type) : Type := Scan → (Stop + A) * Scan.
#[export] Instance An_ret : MRet An := λ A a s, (inr a, s).
#[export] Instance An_bind : MBind An := λ A B k m s,
  match m s with (inr a, s') => k a s' | (inl e, s') => (inl e, s') end.
Definition stop {A} (e : Stop) : An A := λ s, (inl e, s).
Definition scan {A} (f : Scan → A) : An A := λ s, (inr (f s), s).
(** [if(!found) return code;] *)
Definition need {A} (code : Z) (o : option A) : An A :=
  match o with Some a => mret a | None => stop (Return code) end.
(** [v[i]] *)
Definition at_ {A} (v : list A) (i : nat) : An A :=
  match v !! i with Some a => mret a | None => stop Undefined end.

Definition ANALYSIS_STRING_FORMATE_ERROR : Z := -1.
Definition ANALYSIS_MALLOC_NULLPTR_ERROR : Z := -2.

(** The parameters of the two functions that do not change. *)
Record Par := { ioThreadNum : Z; keepSecond : Z; connOutSecond : Z }.

Section analysis.
Variables (clusterMgr : RedisClientMgr) (par : Par).

(** The connection found, or a new one. *)
Definition find_or_new (found : option nat) (svrInfo : RedisSvrInfo) : An nat :=
  match found with
  | Some i => mret i
  | None => λ s,
      let tmpIoIndex := u32 (ioIndex s + 1) in
      let tmpCli := length (heap s) in
      (inr tmpCli, s <| ioIndex := tmpIoIndex |>
        <| heap ::= (.++ [RedisClient_new (Z.to_nat (tmpIoIndex mod ioThreadNum par)) (m_mgrFd_ clusterMgr)
                            svrInfo (keepSecond par) (connOutSecond par)]) |>
        <| addRedisCli ::= (.++ [tmpCli]) |>)
  end.

(** [if(tmpCli->tcpCliState() == REDIS_CLIENT_STATE_CONN) n++;] *)
Definition count_conn (cli : nat) (n : Z) : An Z :=
  c ← scan (λ s, connected (heap s) (Some cli)); mret (if c : bool then u64 (n + 1) else n).

(** What is known of an address: the nodes of the present topology, or the first
    connection when there is none. *)
Definition known_client (heap : list RedisClient) (info : RedisSvrInfo) : option nat :=
  match cluterCli_ clusterMgr with
  | Some ci => getRedisClient_cluster heap (Some ci) (ipAddr_ info) (port_ info)
  | None =>
      if isSelfSvrInfo heap (nodeCli_ clusterMgr) (ipAddr_ info) (port_ info)
      then nodeCli_ clusterMgr else None
  end.

Definition parse_slots (s : bytes) : SlotsInfo :=
  match find_char "-" s with
  | None => {| slotStart_ := u16 (atoi s); slotEnd_ := u16 (atoi s) |}
  | Some pos => {| slotStart_ := u16 (atoi (take pos s)); slotEnd_ := u16 (atoi (drop (pos + 1) s)) |}
  end.

(** [map.insert]: an existing entry stays. *)
Definition map_insert (k : Z) (v : nat) (m : gmap Z nat) : gmap Z nat :=
  match m !! k with Some _ => m | None => <[k := v]> m end.

(** [for(uint16_t jj = first; jj <= last; jj++) insert]: [None] when the loop has
    not ended after [fuel] rounds. *)
Fixpoint fill_slots (fuel : nat) (cli : nat) (jj last : Z) (m : gmap Z nat) : option (gmap Z nat) :=
  match fuel with
  | O => None
  | S fuel' =>
      if jj <=? last then fill_slots fuel' cli (u16 (jj + 1)) last (map_insert jj cli m) else Some m
  end.
(** More rounds than there are slot numbers. *)
Definition SLOT_ROUNDS : nat := Z.to_nat 65537.
Fixpoint fill_ranges (cli : nat) (ranges : list SlotsInfo) (m : gmap Z nat) : option (gmap Z nat) :=
  match ranges with
  | [] => Some m
  | r :: ranges' =>
      m ← fill_slots SLOT_ROUNDS cli (slotStart_ r) (slotEnd_ r) m; fill_ranges cli ranges' m
  end.

(** The loop over all lines for the slaves of node [id]. *)
Fixpoint slaves_loop (id : bytes) (lines : list bytes) (slaves : list (option nat)) (slaveConn : Z) :
    An (list (option nat) * Z) :=
  match lines with
  | [] => mret (slaves, slaveConn)
  | line :: lines' =>
      let tmpSalveInfo := split line (lit " ") [] in
      if decide (length tmpSalveInfo < 8)%nat then stop (Return ANALYSIS_STRING_FORMATE_ERROR)
      else if decide (id = nth 3 tmpSalveInfo []) then
        slaveInfo ← need ANALYSIS_STRING_FORMATE_ERROR (analysisSvrInfo (nth 1 tmpSalveInfo []));
        found ← scan (λ s, known_client (heap s) slaveInfo);
        tmpCli ← find_or_new found slaveInfo;
        slaveConn ← count_conn tmpCli slaveConn;
        slaves_loop id lines' (slaves ++ [Some tmpCli]) slaveConn
      else slaves_loop id lines' slaves slaveConn
  end.

(** [tmpClusterInfo], [masterConn] and [slaveConn]. *)
Definition Acc : Type := option RedisClusterInfo * Z * Z.

Definition master_line (vLines nodeInfo : list bytes) (acc : Acc) : An Acc :=
  let '(tmpClusterInfo, masterConn, slaveConn) := acc in
  if decide (length nodeInfo < 9)%nat then stop (Return ANALYSIS_STRING_FORMATE_ERROR)
  else
    masterInfo ← need ANALYSIS_STRING_FORMATE_ERROR (analysisSvrInfo (nth 1 nodeInfo []));
    found ← scan (λ s, known_client (heap s) masterInfo);
    tmpCli ← find_or_new found masterInfo;
    masterConn ← count_conn tmpCli masterConn;
    let ranges := parse_slots <$> drop 8 nodeInfo in
    let info := default {| clusterSlotMap_ := ∅; clusterVectInfo_ := [] |} tmpClusterInfo in
    match fill_ranges tmpCli ranges (clusterSlotMap_ info) with
    | None => stop Forever
    | Some m =>
        '(slaves, slaveConn) ← slaves_loop (nth 0 nodeInfo []) vLines [] slaveConn;
        let tmpClusNode := {| nodeIds_ := nth 0 nodeInfo []; vectSlotInfo_ := ranges;
          clusterNode_ := {| master_ := Some tmpCli; slave_ := slaves |} |} in
        mret (Some {| clusterSlotMap_ := m; clusterVectInfo_ := clusterVectInfo_ info ++ [tmpClusNode] |},
              masterConn, slaveConn)
    end.

Fixpoint lines_scan (vLines lines : list bytes) (acc : Acc) : An Acc :=
  match lines with
  | [] => mret acc
  | line :: lines' =>
      let nodeInfo := split line (lit " ") [] in
      if decide (length nodeInfo < 8)%nat then stop (Return ANALYSIS_STRING_FORMATE_ERROR)
      else if strstr (nth 2 nodeInfo []) (lit "master") then
        acc ← master_line vLines nodeInfo acc; lines_scan vLines lines' acc
      else lines_scan vLines lines' acc
  end.

(** The code returned and the manager afterwards. *)
Definition analysisClusterNodes (clusterNodes : bytes) : An (Z * RedisClientMgr) :=
  match clusterNodes with
  | [] => stop (Return ANALYSIS_STRING_FORMATE_ERROR)
  | _ =>
      let vLines := split clusterNodes (newline) [] in
      '(tmpClusterInfo, masterConn, slaveConn) ← lines_scan vLines vLines (None, 0, 0);
      mret (0, clusterMgr <| cluterCli_ := tmpClusterInfo |> <| masterConn_ := masterConn |>
                          <| slaveConn_ := slaveConn |>)
  end.

(** ** INFO REPLICATION *)

(** The address of a slave, ["slave0:ip=...,port=...,..."], or of the master. *)
Definition slave_addr (line : bytes) : An RedisSvrInfo :=
  beginPos ← need ANALYSIS_STRING_FORMATE_ERROR (find_char "=" line);
  endPos ← need ANALYSIS_STRING_FORMATE_ERROR (find_char "," line);
  let ipaddr := substr_to (beginPos + 1) endPos line in
  beginPos ← need ANALYSIS_STRING_FORMATE_ERROR (find_from "=" endPos line);
  endPos ← need ANALYSIS_STRING_FORMATE_ERROR (find_from "," beginPos line);
  mret {| port_ := atoi (substr_to (beginPos + 1) endPos line); ipAddr_ := ipaddr |}.
Definition after_colon (line : bytes) : An bytes :=
  pos ← need ANALYSIS_STRING_FORMATE_ERROR (find_char ":" line); mret (drop (pos + 1) line).

(** A connection to [info] of the present master and slaves, or a new one. *)
Definition replication_client (info : RedisSvrInfo) : An nat :=
  found ← scan (λ s, getRedisClient_ms (heap s) (mSlaveCli_ clusterMgr) (ipAddr_ info) (port_ info));
  find_or_new found info.

(** [for(int i = 0; i < slaveNum; i++)], from line [index] on. *)
Fixpoint replication_slaves (slaveNum : nat) (vLines : list bytes) (index : nat)
    (slaves : list (option nat)) (slaveConn : Z) : An (list (option nat) * Z) :=
  match slaveNum with
  | O => mret (slaves, slaveConn)
  | S slaveNum' =>
      line ← at_ vLines index;
      info ← slave_addr line;
      tmpCli ← replication_client info;
      slaveConn ← count_conn tmpCli slaveConn;
      replication_slaves slaveNum' vLines (S index) (slaves ++ [Some tmpCli]) slaveConn
  end.

(** [clusterMgr.nodeCli_->tcpCliState() == REDIS_CLIENT_STATE_CONN] *)
Definition node_connected : An bool :=
  match nodeCli_ clusterMgr with
  | None => stop Undefined
  | Some i => scan (λ s, connected (heap s) (Some i))
  end.

Definition analysisSlaveNodes (clusterNodes : bytes) : An (Z * RedisClientMgr) :=
  match clusterNodes with
  | [] => stop (Return ANALYSIS_STRING_FORMATE_ERROR)
  | _ =>
      let vLines := split clusterNodes (newline) [] in
      role ← at_ vLines 1;
      if bool_decide (is_Some (find_sub (lit "role:master") role)) then
        up ← node_connected;
        line ← at_ vLines 2;
        num ← after_colon line;
        '(slaves, slaveConn) ← replication_slaves (Z.to_nat (atoi num)) vLines 3 [] 0;
        mret (0, clusterMgr <| mSlaveCli_ := Some {| master_ := nodeCli_ clusterMgr; slave_ := slaves |} |>
                            <| masterConn_ := if up : bool then 1 else 0 |> <| slaveConn_ := slaveConn |>)
      else
        up ← node_connected;
        line ← at_ vLines 2; ipaddr ← after_colon line;
        line ← at_ vLines 3; portStr ← after_colon line;
        tmpCli ← replication_client {| port_ := atoi portStr; ipAddr_ := ipaddr |};
        conn ← scan (λ s, connected (heap s) (Some tmpCli));
        mret (1, clusterMgr <| nodeCli_ ::= λ n, if conn : bool then Some tmpCli else n |>
                 <| mSlaveCli_ := Some {| master_ := Some tmpCli; slave_ := [nodeCli_ clusterMgr] |} |>
                 <| masterConn_ := if conn : bool then 1 else 0 |> <| slaveConn_ := if up : bool then 1 else 0 |>)
  end.
End analysis.

(** ** Counting connections *)

Definition NO_IN_CLUSTER_ADDRINFO : Z := 0.
Definition MASTER_CLUSTER_ADDRINFO : Z := 1.
Definition SALVE_CLUSTER_ADDRINFO : Z := 2.

Definition count_master (onConned onCount : bool) (mgr : RedisClientMgr) : RedisClientMgr :=
  if onCount then mgr <| masterConn_ ::= λ n, u64 (if onConned then n + 1 else n - 1) |> else mgr.
Definition count_slave (onConned onCount : bool) (mgr : RedisClientMgr) : RedisClientMgr :=
  if onCount then mgr <| slaveConn_ ::= λ n, u64 (if onConned then n + 1 else n - 1) |> else mgr.

(** The node at an address: whether it is the master, or a slave. *)
Definition place_in (clients : list RedisClient) (ms : RedisMasterSlave) (ipaddr : bytes) (port : Z) : Z :=
  if isSelfSvrInfo clients (master_ ms) ipaddr port then MASTER_CLUSTER_ADDRINFO
  else if existsb (λ c, isSelfSvrInfo clients c ipaddr port) (slave_ ms) then SALVE_CLUSTER_ADDRINFO
  else NO_IN_CLUSTER_ADDRINFO.
Definition count_at (place : Z) (onConned onCount : bool) (mgr : RedisClientMgr) : Z * RedisClientMgr :=
  (place, if place =? MASTER_CLUSTER_ADDRINFO then count_master onConned onCount mgr
          else if place =? SALVE_CLUSTER_ADDRINFO then count_slave onConned onCount mgr else mgr).

Fixpoint place_in_nodes (clients : list RedisClient) (nodes : list RedisClusterNode) (ipaddr : bytes) (port : Z) : Z :=
  match nodes with
  | [] => NO_IN_CLUSTER_ADDRINFO
  | nd :: nodes' =>
      let p := place_in clients (clusterNode_ nd) ipaddr port in
      if p =? NO_IN_CLUSTER_ADDRINFO then place_in_nodes clients nodes' ipaddr port else p
  end.
Definition clusterRedisConnsUpdate (clients : list RedisClient) (mgr : RedisClientMgr) (ipaddr : bytes)
    (port : Z) (onConned onCount : bool) : Z * RedisClientMgr :=
  match cluterCli_ mgr with
  | None => (NO_IN_CLUSTER_ADDRINFO, mgr)
  | Some info => count_at (place_in_nodes clients (clusterVectInfo_ info) ipaddr port) onConned onCount mgr
  end.
Definition infoReplicConnsUpdate (clients : list RedisClient) (mgr : RedisClientMgr) (ipaddr : bytes)
    (port : Z) (onConned onCount : bool) : Z * RedisClientMgr :=
  match mSlaveCli_ mgr with
  | None => (NO_IN_CLUSTER_ADDRINFO, mgr)
  | Some ms => count_at (place_in clients ms ipaddr port) onConned onCount mgr
  end.

(** ** What a reply to CLUSTER NODES means *)

(** The master of the first node that has [slot]. *)
Fixpoint owner (nodes : list RedisClusterNode) (slot : Z) : option nat :=
  match nodes with
  | [] => None
  | nd :: nodes' =>
      if existsb (covers slot) (vectSlotInfo_ nd) then master_ (clusterNode_ nd) else owner nodes' slot
  end.

Lemma owner_app nodes1 nodes2 slot :
  owner (nodes1 ++ nodes2) slot =
  if existsb (λ nd, existsb (covers slot) (vectSlotInfo_ nd)) nodes1 then owner nodes1 slot
  else owner nodes2 slot.
Proof.
  induction nodes1 as [|nd nodes1 IH]; [done|]. cbn [app owner existsb].
  by destruct (existsb (covers slot) (vectSlotInfo_ nd)).
Qed.

(** The [uint16_t] loop over a range that ends below 65535. *)
Lemma fill_slots_spec fuel cli jj last m :
  0 <= jj → last < 65535 → Z.max 0 (last - jj + 1) < Z.of_nat fuel →
  ∃ m', fill_slots fuel cli jj last m = Some m' ∧
    ∀ k, m' !! k = match m !! k with
                   | Some c => Some c
                   | None => if (jj <=? k) && (k <=? last) then Some cli else None
                   end.
Proof.
  revert jj m. induction fuel as [|fuel IH]; intros jj m Hj Hl Hf; cbn [fill_slots].
  { lia. }
  destruct (Z.leb_spec jj last) as [Hle|Hgt].
  - assert (E : u16 (jj + 1) = jj + 1) by (apply wrap_u_id; unfold in_u; lia). rewrite E.
    destruct (IH (jj + 1) (map_insert jj cli m)) as (m' & Hm & Hk); [lia..|].
    exists m'. split; [done|]. intros k. rewrite Hk. unfold map_insert.
    destruct (decide (k = jj)) as [->|Hne].
    + destruct (m !! jj) eqn:Em; [by rewrite Em|]. rewrite lookup_insert_eq.
      by rewrite Z.leb_refl, (proj2 (Z.leb_le _ _) Hle).
    + assert (El : (if m !! jj is Some _ then m else <[jj:=cli]> m) !! k = m !! k)
        by (destruct (m !! jj); [done|by rewrite lookup_insert_ne]).
      destruct (m !! jj); rewrite ?lookup_insert_ne by done;
        (destruct (m !! k); [done|]); by replace (jj + 1 <=? k) with (jj <=? k) by lia.
  - exists m. split; [done|]. intros k. destruct (m !! k); [done|].
    by destruct (Z.leb_spec jj k), (Z.leb_spec k last); try lia.
Qed.

(** A range that ends at 65535 never ends: [jj <= 65535] holds of every [uint16_t]. *)
Lemma fill_slots_forever fuel cli jj m : 0 <= jj → fill_slots fuel cli (u16 jj) 65535 m = None.
Proof.
  revert jj m. induction fuel as [|fuel IH]; intros jj m Hj; [done|]. cbn [fill_slots].
  pose proof (wrap_u_range 16 jj ltac:(lia)) as Hr. unfold in_u in Hr.
  destruct (Z.leb_spec (u16 jj) 65535) as [_|]; [apply IH; lia|lia].
Qed.

Definition range_ok (r : SlotsInfo) : Prop := 0 <= slotStart_ r ∧ slotEnd_ r < 65535.

Lemma fill_ranges_spec cli ranges m :
  Forall range_ok ranges →
  ∃ m', fill_ranges cli ranges m = Some m' ∧
    ∀ k, m' !! k = match m !! k with
                   | Some c => Some c
                   | None => if existsb (covers k) ranges then Some cli else None
                   end.
Proof.
  intros Hr. revert m. induction Hr as [|r ranges [H1 H2] _ IH]; intros m; cbn [fill_ranges].
  { exists m. split; [done|]. intros k. by destruct (m !! k). }
  destruct (fill_slots_spec SLOT_ROUNDS cli (slotStart_ r) (slotEnd_ r) m) as (m1 & E1 & Hm1); [lia..|unfold SLOT_ROUNDS; lia|].
  rewrite E1. cbn [mbind option_bind]. destruct (IH m1) as (m2 & E2 & Hm2). exists m2. split; [done|].
  intros k. rewrite Hm2, Hm1. cbn [existsb]. unfold covers at 2.
  destruct (m !! k); [done|]. by destruct (_ && _).
Qed.

Lemma parse_slots_start s : 0 <= slotStart_ (parse_slots s).
Proof. unfold parse_slots. case_match; cbn; apply wrap_u_range; lia. Qed.
Lemma parse_slots_end s : slotEnd_ (parse_slots s) <= 65535.
Proof.
  assert (H : ∀ z, u16 z <= 65535) by (intros z; pose proof (wrap_u_range 16 z ltac:(lia)); unfold in_u in *; lia).
  unfold parse_slots. case_match; cbn; apply H.
Qed.

(** A computation comes to its end with [Q], or it leaves the function with the code
    for a malformed reply; with rules. *)
Definition returns {A} (m : An A) (Q : A → Scan → Prop) (s : Scan) : Prop :=
  match m s with
  | (inr a, s') => Q a s'
  | (inl (Return code), _) => code = ANALYSIS_STRING_FORMATE_ERROR
  | (inl _, _) => False
  end.
Lemma returns_ret {A} (a : A) (Q : A → Scan → Prop) s : Q a s → returns (mret a) Q s.
Proof. done. Qed.
Lemma returns_bind {A B} (m : An A) (k : A → An B) Q s :
  returns m (λ a, returns (k a) Q) s → returns (m ≫= k) Q s.
Proof. unfold returns, mbind, An_bind. by destruct (m s) as [[[]|a] s']. Qed.
Lemma returns_mono {A} (m : An A) (Q Q' : A → Scan → Prop) s :
  returns m Q s → (∀ a s', Q a s' → Q' a s') → returns m Q' s.
Proof. unfold returns. destruct (m s) as [[[]|a] s']; auto. Qed.
Lemma returns_need {A} (o : option A) Q s :
  (∀ a, o = Some a → Q a s) → returns (need ANALYSIS_STRING_FORMATE_ERROR o) Q s.
Proof. unfold returns. destruct o; cbn; auto. Qed.
Lemma returns_scan {A} (f : Scan → A) (Q : A → Scan → Prop) s : Q (f s) s → returns (scan f) Q s.
Proof. done. Qed.

Section nodes.
Variables (mgr : RedisClientMgr) (par : Par) (s0 : Scan).

(** The connections of the present topology exist. *)
Definition refs_below (n : nat) (nodes : list RedisClusterNode) : Prop :=
  Forall (λ nd, Forall (λ o, ∀ i, o = Some i → (i < n)%nat)
                  (master_ (clusterNode_ nd) :: slave_ (clusterNode_ nd))) nodes.
Definition mgr_refs (n : nat) : Prop :=
  (∀ i, nodeCli_ mgr = Some i → (i < n)%nat) ∧
  ∀ info, cluterCli_ mgr = Some info → refs_below n (clusterVectInfo_ info).

(** [s] comes after [s0]: connections were only added, each new one noted. *)
Record later (s : Scan) : Prop := {
  later_heap : heap s0 `prefix_of` heap s;
  later_added : addRedisCli s = addRedisCli s0 ++ seq (length (heap s0)) (length (heap s) - length (heap s0)) }.

(** Connection [c] is to the address [addr]: the one already known, or a new one. *)
Definition client_for (hp : list RedisClient) (addr : bytes) (c : nat) : Prop :=
  ∃ info, analysisSvrInfo addr = Some info ∧ svrInfo_ <$> hp !! c = Some info ∧
    match known_client mgr (heap s0) info with Some i => c = i | None => (length (heap s0) <= c)%nat end.

(** A node of the table against the fields of its line and of all lines. *)
Record node_of (hp : list RedisClient) (all : list (list bytes)) (fields : list bytes)
    (nd : RedisClusterNode) : Prop := {
  node_id : nodeIds_ nd = nth 0 fields [];
  node_slots : vectSlotInfo_ nd = parse_slots <$> drop 8 fields;
  node_master : ∃ c, master_ (clusterNode_ nd) = Some c ∧ client_for hp (nth 1 fields []) c;
  node_slaves : Forall2 (λ o fs, ∃ c, o = Some c ∧ client_for hp (nth 1 fs []) c)
    (slave_ (clusterNode_ nd)) (filter (λ fs, nth 0 fields [] = nth 3 fs []) all) }.

Definition ups (hp : list RedisClient) (l : list (option nat)) : Z :=
  u64 (Z.of_nat (length (filter (λ o, connected hp o = true) l))).
Definition masters (nodes : list RedisClusterNode) : list (option nat) := (master_ ∘ clusterNode_) <$> nodes.
Definition slaves (nodes : list RedisClusterNode) : list (option nat) :=
  concat ((slave_ ∘ clusterNode_) <$> nodes).

Definition is_master (fields : list bytes) : Prop := strstr (nth 2 fields []) (lit "master") = true.
#[export] Instance is_master_dec fields : Decision (is_master fields).
Proof. unfold is_master. apply _. Defined.

Lemma later_refl : later s0.
Proof. split; [done|]. by rewrite Nat.sub_diag, app_nil_r. Qed.

Lemma later_length s : later s → (length (heap s0) <= length (heap s))%nat.
Proof. intros [H _]. by apply prefix_length. Qed.

(** Old connections are found again whatever was added. *)
Lemma isSelf_later hp1 hp2 o ip port :
  (∀ i, o = Some i → (i < length hp1)%nat) → hp1 `prefix_of` hp2 →
  isSelfSvrInfo hp2 o ip port = isSelfSvrInfo hp1 o ip port.
Proof.
  intros Ho [k ->]. destruct o as [i|]; [|done]. unfold isSelfSvrInfo. cbn [mbind option_bind].
  by rewrite lookup_app_l by auto.
Qed.

Lemma slaves_later hp1 hp2 l ip port :
  Forall (λ o, ∀ i, o = Some i → (i < length hp1)%nat) l → hp1 `prefix_of` hp2 →
  getRedisClient_slaves hp2 l ip port = getRedisClient_slaves hp1 l ip port.
Proof.
  intros Hl Hp. induction Hl as [|o l Ho _ IH]; [done|]. cbn [getRedisClient_slaves].
  by rewrite IH, (isSelf_later hp1 hp2).
Qed.

Lemma nodes_later hp1 hp2 nodes ip port :
  refs_below (length hp1) nodes → hp1 `prefix_of` hp2 →
  getRedisClient_nodes hp2 nodes ip port = getRedisClient_nodes hp1 nodes ip port.
Proof.
  intros Hn Hp. induction Hn as [|nd nodes Hnd _ IH]; [done|]. apply Forall_cons in Hnd as [Hm Hs].
  cbn [getRedisClient_nodes getRedisClient_ms]. by rewrite IH, (isSelf_later hp1 hp2), (slaves_later hp1 hp2).
Qed.

Lemma known_later s info :
  mgr_refs (length (heap s0)) → later s → known_client mgr (heap s) info = known_client mgr (heap s0) info.
Proof.
  intros [H1 H2] [Hp _]. unfold known_client. destruct (cluterCli_ mgr) as [ci|] eqn:Ec.
  - cbn [getRedisClient_cluster]. apply nodes_later; [by apply H2|done].
  - by rewrite (isSelf_later (heap s0) (heap s)).
Qed.

(** What is found has the address that was asked for. *)
Lemma isSelf_spec hp o ip port :
  isSelfSvrInfo hp o ip port = true →
  ∃ i, o = Some i ∧ svrInfo_ <$> hp !! i = Some {| port_ := port; ipAddr_ := ip |}.
Proof.
  unfold isSelfSvrInfo. destruct o as [i|]; [|done]. cbn [mbind option_bind].
  destruct (hp !! i) as [c|] eqn:Ei; [|done]. intros [H1 H2]%andb_true_iff.
  apply bool_decide_eq_true in H1. apply Z.eqb_eq in H2. exists i. split; [done|].
  rewrite Ei. cbn. destruct (svrInfo_ c). cbn in *. by subst.
Qed.

Lemma getRedisClient_slaves_spec hp l ip port i :
  getRedisClient_slaves hp l ip port = Some i →
  svrInfo_ <$> hp !! i = Some {| port_ := port; ipAddr_ := ip |}.
Proof.
  induction l as [|o l IH]; [done|]. cbn [getRedisClient_slaves].
  destruct (isSelfSvrInfo hp o ip port) eqn:E; [|done]. intros ->.
  apply isSelf_spec in E as (j & [= <-] & Hj). done.
Qed.

Lemma getRedisClient_ms_spec hp o ip port i :
  getRedisClient_ms hp o ip port = Some i → svrInfo_ <$> hp !! i = Some {| port_ := port; ipAddr_ := ip |}.
Proof.
  destruct o as [ms|]; [|done]. cbn [getRedisClient_ms].
  destruct (isSelfSvrInfo hp (master_ ms) ip port) eqn:E; [|by apply getRedisClient_slaves_spec].
  intros Hi. apply isSelf_spec in E as (j & Ej & Hj). congruence.
Qed.

Lemma getRedisClient_nodes_spec hp nodes ip port i :
  getRedisClient_nodes hp nodes ip port = Some i → svrInfo_ <$> hp !! i = Some {| port_ := port; ipAddr_ := ip |}.
Proof.
  induction nodes as [|nd nodes IH]; [done|]. cbn [getRedisClient_nodes].
  destruct (getRedisClient_ms hp _ ip port) eqn:E; [|done]. intros [= <-]. by apply getRedisClient_ms_spec in E.
Qed.

Lemma known_spec hp info i : known_client mgr hp info = Some i → svrInfo_ <$> hp !! i = Some info.
Proof.
  unfold known_client. destruct info as [port ip]. cbn [ipAddr_ port_].
  destruct (cluterCli_ mgr) as [ci|]; [by apply getRedisClient_nodes_spec|].
  destruct (isSelfSvrInfo hp _ ip port) eqn:E; [|done]. intros Hi.
  apply isSelf_spec in E as (j & Ej & Hj). congruence.
Qed.

Lemma known_below s info i :
  mgr_refs (length (heap s0)) → later s → known_client mgr (heap s) info = Some i → (i < length (heap s))%nat.
Proof.
  intros Hm Hs Hk. apply known_spec in Hk. destruct (heap s !! i) eqn:E; [|done]. by eapply lookup_lt_Some.
Qed.

Lemma client_for_later hp1 hp2 addr c : hp1 `prefix_of` hp2 → client_for hp1 addr c → client_for hp2 addr c.
Proof.
  intros Hp (info & H1 & H2 & H3). exists info. split_and!; [done| |done].
  destruct (hp1 !! c) eqn:E; [|done]. by rewrite (prefix_lookup_Some _ _ _ _ E Hp).
Qed.

(** Getting a connection for an address. *)
Lemma client_step {A} addr (k : nat → An A) Q s :
  mgr_refs (length (heap s0)) → later s →
  (∀ c s', later s' → heap s `prefix_of` heap s' → client_for (heap s') addr c → returns (k c) Q s') →
  returns (info ← need ANALYSIS_STRING_FORMATE_ERROR (analysisSvrInfo addr); found ← scan (λ s, known_client mgr (heap s) info);
           c ← find_or_new mgr par found info; k c) Q s.
Proof.
  intros Hm Hs HQ. apply returns_bind, returns_need. intros info Hi. apply returns_bind, returns_scan, returns_bind.
  destruct (known_client mgr (heap s) info) as [i|] eqn:Ek; unfold returns at 1; cbn; apply HQ.
  - done.
  - done.
  - exists info. split_and!; [done|by eapply known_spec|]. rewrite <-(known_later s), Ek by done. done.
  - destruct Hs as [Hp Ha]. split; cbn; [by apply prefix_app_r|].
    pose proof (prefix_length _ _ Hp). rewrite Ha, length_app. cbn [length].
    replace (length (heap s) + 1 - length (heap s0))%nat with (S (length (heap s) - length (heap s0))) by lia.
    rewrite seq_S, <- app_assoc. repeat f_equal. lia.
  - by apply prefix_app_r.
  - exists info. split_and!; [done|cbn; by rewrite list_lookup_middle|].
    rewrite <-(known_later s), Ek by done. by apply later_length.
Qed.

Definition live (hp : list RedisClient) (o : option nat) : Prop := ∃ i, o = Some i ∧ (i < length hp)%nat.

Lemma client_for_live hp addr c : client_for hp addr c → live hp (Some c).
Proof. intros (info & _ & H & _). exists c. split; [done|]. destruct (hp !! c) eqn:E; [|done]. by eapply lookup_lt_Some. Qed.

Lemma ups_later hp1 hp2 l : Forall (live hp1) l → hp1 `prefix_of` hp2 → ups hp2 l = ups hp1 l.
Proof.
  intros Hl [k ->]. unfold ups. do 3 f_equal. induction Hl as [|o l (i & -> & Hi) _ IH]; [done|].
  rewrite !filter_cons, IH.
  assert (E : connected (hp1 ++ k) (Some i) = connected hp1 (Some i))
    by (unfold connected, tcpCliState; cbn [mbind option_bind]; by rewrite lookup_app_l).
  by rewrite E.
Qed.

Lemma ups_app hp l1 l2 : ups hp (l1 ++ l2) = u64 (ups hp l1 + ups hp l2).
Proof. unfold ups, wrap_u. rewrite filter_app, length_app. rewrite <- Zplus_mod. f_equal. lia. Qed.

Lemma count_step c n hp l s :
  heap s = hp → n = ups hp l → returns (count_conn c n) (λ n' s', s' = s ∧ n' = ups hp (l ++ [Some c])) s.
Proof.
  intros Hh ->. unfold count_conn. apply returns_bind, returns_scan, returns_ret. split; [done|].
  rewrite Hh. unfold ups. rewrite filter_app, length_app, filter_cons. cbn [filter list_filter].
  destruct (connected hp (Some c)); cbn [decide]; case_decide; try done; cbn [length].
  - unfold wrap_u. rewrite Zplus_mod_idemp_l. f_equal. lia.
  - by rewrite Nat.add_0_r.
Qed.

Definition fields_of (line : bytes) : list bytes := split line (lit " ") [].
Definition slave_of (hp : list RedisClient) (o : option nat) (fs : list bytes) : Prop :=
  ∃ c, o = Some c ∧ client_for hp (nth 1 fs []) c.

Lemma slaves_live hp l fs : Forall2 (slave_of hp) l fs → Forall (live hp) l.
Proof. induction 1 as [|o f l fs (c & -> & Hc) _ IH]; constructor; [by eapply client_for_live|done]. Qed.
Lemma slaves_of_later hp1 hp2 l fs :
  hp1 `prefix_of` hp2 → Forall2 (slave_of hp1) l fs → Forall2 (slave_of hp2) l fs.
Proof.
  intros Hp Hl. eapply Forall2_impl; [exact Hl|]. intros o f (c & -> & Hc). exists c. split; [done|].
  by eapply client_for_later.
Qed.

(** [n] counts the connections that are up in [base] and in the slaves so far. *)
Lemma slaves_loop_spec id lines base done sl n s Q :
  mgr_refs (length (heap s0)) → later s → Forall (live (heap s)) base →
  Forall2 (slave_of (heap s)) sl done → n = ups (heap s) (base ++ sl) →
  (∀ sl' s', later s' → heap s `prefix_of` heap s' →
     Forall2 (slave_of (heap s')) sl' (done ++ filter (λ fs, id = nth 3 fs []) (fields_of <$> lines)) →
     Q (sl', ups (heap s') (base ++ sl')) s') →
  returns (slaves_loop mgr par id lines sl n) Q s.
Proof.
  intros Hm. revert done sl n s.
  induction lines as [|line lines IH]; intros done sl n s Hs Hb Hsl Hn HQ; cbn [slaves_loop fmap list_fmap].
  { apply returns_ret. subst n. apply HQ; [done..|]. by rewrite app_nil_r. }
  fold (fields_of line). case_decide; [done|]. case_decide as Hid.
  - apply client_step; [done..|]. intros c s1 Hs1 Hp1 Hc. apply returns_bind.
    assert (Hsl1 : Forall2 (slave_of (heap s1)) sl done) by (by eapply slaves_of_later).
    assert (Hb1 : Forall (live (heap s1)) base).
    { eapply Forall_impl; [exact Hb|]. intros o (i & -> & Hi). exists i. split; [done|].
      pose proof (prefix_length _ _ Hp1). lia. }
    eapply returns_mono; [apply (count_step c n (heap s1) (base ++ sl)); [done|]|].
    { rewrite Hn. symmetry. apply ups_later; [|done]. apply Forall_app. split; [done|by eapply slaves_live]. }
    intros n' s' [-> ->]. rewrite <- app_assoc.
    apply (IH (done ++ [fields_of line]) (sl ++ [Some c])); [done|done| |done|].
    { apply Forall2_app; [done|]. constructor; [by exists c|done]. }
    intros sl' s' H1 H2 H3. apply HQ; [done|by etrans|]. rewrite fmap_cons, filter_cons_True by done.
    by rewrite <- app_assoc in H3.
  - apply (IH done sl); [done..|]. intros sl' s' H1 H2 H3. apply HQ; [done..|].
    by rewrite fmap_cons, filter_cons_False by done.
Qed.

(** The table after the lines [done], of all lines [all]. *)
Record table (hp : list RedisClient) (all done : list (list bytes)) (acc : Acc) : Prop := {
  table_nodes : Forall2 (node_of hp all) (filter is_master done) (default [] (clusterVectInfo_ <$> acc.1.1));
  table_slots k : default ∅ (clusterSlotMap_ <$> acc.1.1) !! k =
                  owner (default [] (clusterVectInfo_ <$> acc.1.1)) k;
  table_masters : acc.1.2 = ups hp (masters (default [] (clusterVectInfo_ <$> acc.1.1)));
  table_slaves : acc.2 = ups hp (slaves (default [] (clusterVectInfo_ <$> acc.1.1)))
}.

Lemma nodes_live hp all fs nodes :
  Forall2 (node_of hp all) fs nodes → Forall (live hp) (masters nodes) ∧ Forall (live hp) (slaves nodes).
Proof.
  induction 1 as [|f nd fs nodes [_ _ (c & Em & Hc) Hs] _ [IH1 IH2]]; [by split; constructor|].
  split; unfold masters, slaves; rewrite fmap_cons.
  - constructor; [|done]. cbn. rewrite Em. by eapply client_for_live.
  - cbn [concat]. apply Forall_app. split; [by eapply slaves_live|done].
Qed.

Lemma table_later hp1 hp2 all done acc : hp1 `prefix_of` hp2 → table hp1 all done acc → table hp2 all done acc.
Proof.
  intros Hp [H1 H2 H3 H4]. destruct (nodes_live _ _ _ _ H1) as [L1 L2]. split; [|done|..].
  - eapply Forall2_impl; [exact H1|]. intros f nd [N1 N2 (c & N3 & N4) N5]. split; [done..| |].
    + exists c. split; [done|by eapply client_for_later].
    + by eapply slaves_of_later.
  - rewrite H3. symmetry. by apply ups_later.
  - rewrite H4. symmetry. by apply ups_later.
Qed.

(** The slots of a node appended to a table. *)
Lemma owner_snoc nodes nd k :
  owner (nodes ++ [nd]) k =
  match owner nodes k with
  | Some c => Some c
  | None => if existsb (λ nd, existsb (covers k) (vectSlotInfo_ nd)) nodes then None
            else if existsb (covers k) (vectSlotInfo_ nd) then master_ (clusterNode_ nd) else None
  end.
Proof.
  rewrite owner_app. induction nodes as [|n nodes IH]; [done|]. cbn [owner existsb].
  destruct (existsb (covers k) (vectSlotInfo_ n)); cbn [orb]; [by destruct (master_ (clusterNode_ n))|exact IH].
Qed.
Lemma owner_covered hp all fs nodes k :
  Forall2 (node_of hp all) fs nodes → owner nodes k = None →
  existsb (λ nd, existsb (covers k) (vectSlotInfo_ nd)) nodes = false.
Proof.
  induction 1 as [|f nd fs nodes [_ _ (c & Em & Hc) _] _ IH]; [done|]. cbn [owner existsb].
  destruct (existsb (covers k) (vectSlotInfo_ nd)); [by rewrite Em|done].
Qed.

(** No slot range of the line ends at 65535. *)
Definition slots_ok (fs : list bytes) : Prop := Forall (λ f, slotEnd_ (parse_slots f) < 65535) (drop 8 fs).

Lemma master_line_spec all vLines fs done acc s Q :
  mgr_refs (length (heap s0)) → later s → all = fields_of <$> vLines → is_master fs → slots_ok fs →
  table (heap s) all done acc →
  (∀ acc' s', later s' → table (heap s') all (done ++ [fs]) acc' → acc'.1.1 ≠ None → Q acc' s') →
  returns (master_line mgr par vLines fs acc) Q s.
Proof.
  intros Hm Hs -> Hf Hr HT HQ. unfold master_line. destruct acc as [[ci mc] sc]. case_decide; [done|].
  apply client_step; [done..|]. intros c s1 Hs1 Hp1 Hc.
  apply (table_later _ _ _ _ _ Hp1) in HT as [T1 T2 T3 T4]. cbn [fst snd] in *.
  set (nodes := default [] (clusterVectInfo_ <$> ci)) in *.
  destruct (nodes_live _ _ _ _ T1) as [L1 L2].
  apply returns_bind. eapply returns_mono; [by apply (count_step c mc (heap s1) (masters nodes))|].
  intros mc' s' [-> ->].
  set (info := default {| clusterSlotMap_ := ∅; clusterVectInfo_ := [] |} ci).
  assert (Ev : clusterVectInfo_ info = nodes) by (unfold info, nodes; by destruct ci).
  assert (Em : clusterSlotMap_ info = default ∅ (clusterSlotMap_ <$> ci)) by (unfold info; by destruct ci).
  rewrite Ev, Em. clear info Ev Em.
  destruct (fill_ranges_spec c (parse_slots <$> drop 8 fs) (default ∅ (clusterSlotMap_ <$> ci))) as (m & Em & Hk).
  { apply Forall_fmap. eapply Forall_impl; [exact Hr|]. intros f Hf8. split; [apply parse_slots_start|exact Hf8]. }
  rewrite Em.
  apply returns_bind. eapply (slaves_loop_spec _ _ (slaves nodes) [] []); [done..|by rewrite app_nil_r|].
  intros sl' s2 Hs2 Hp2 Hsl. apply returns_ret, HQ; [done| |done].
  rewrite app_nil_l in Hsl. set (nd := Build_RedisClusterNode _ _ _).
  assert (Hnodes : Forall2 (node_of (heap s2) (fields_of <$> vLines)) (filter is_master (done ++ [fs])) (nodes ++ [nd])).
  { rewrite filter_app, (filter_cons_True _ fs) by done. apply Forall2_app.
    - eapply Forall2_impl; [exact T1|]. intros f nd' [N1 N2 (c' & N3 & N4) N5]. split; [done..| |].
      + exists c'. split; [done|by eapply client_for_later].
      + by eapply slaves_of_later.
    - constructor; [|constructor]. split; [done..| |done]. exists c. split; [done|by eapply client_for_later]. }
  split; cbn [fst snd from_option id fmap option_fmap option_map clusterVectInfo_ clusterSlotMap_].
  - done.
  - intros k. rewrite Hk, T2, owner_snoc.
    destruct (owner nodes k) eqn:Eo; [done|]. by rewrite (owner_covered _ _ _ _ _ T1 Eo).
  - unfold masters. rewrite fmap_app. symmetry. apply ups_later; [|done].
    apply Forall_app. split; [done|]. constructor; [by eapply client_for_live|constructor].
  - unfold slaves. rewrite fmap_app, concat_app. cbn [fmap list_fmap concat]. by rewrite app_nil_r.
Qed.

Lemma lines_scan_spec all vLines lines done acc s Q :
  mgr_refs (length (heap s0)) → later s → all = fields_of <$> vLines → Forall slots_ok (fields_of <$> lines) →
  table (heap s) all done acc →
  (∀ acc' s', later s' → table (heap s') all (done ++ (fields_of <$> lines)) acc' → Q acc' s') →
  returns (lines_scan mgr par vLines lines acc) Q s.
Proof.
  intros Hm Hs Ha. revert done acc s Hs.
  induction lines as [|line lines IH]; intros done acc s Hs Hr HT HQ; cbn [lines_scan].
  { apply returns_ret, HQ; [done|]. by rewrite app_nil_r. }
  rewrite fmap_cons in Hr. apply Forall_cons in Hr as [Hr1 Hr]. fold (fields_of line). case_decide; [done|].
  assert (E : ∀ l : list (list bytes), (done ++ [fields_of line]) ++ l = done ++ fields_of line :: l)
    by (intros l; by rewrite <- app_assoc).
  destruct (strstr (nth 2 (fields_of line) []) (lit "master")) eqn:Es.
  - apply returns_bind. eapply master_line_spec; [done..|]. intros acc' s' H1 H2 _.
    apply (IH (done ++ [fields_of line])); [done..|]. intros acc2 s2 H3 H4. apply HQ; [done|]. by rewrite E in H4.
  - apply (IH (done ++ [fields_of line])); [done|done| |].
    + destruct HT as [T1 T2 T3 T4]. split; [|done..]. rewrite filter_app, (filter_cons_False _ (fields_of line)).
      * by rewrite app_nil_r.
      * unfold is_master. by rewrite Es.
    + intros acc2 s2 H3 H4. apply HQ; [done|]. by rewrite E in H4.
Qed.
End nodes.

(** C8: What a reply to CLUSTER NODES becomes: unless the reply is malformed (then
    nothing changes but -1 is returned), the topology has one node for each master
    line, in order, with the name, slots and slaves of the reply; every slot is
    routed to the master of the first line that has it, other slots to none; an
    address that was connected before keeps its connection, and the others get new
    ones, which are handed out to be connected; the counts are those of the
    connections that are up. Slot ranges must not end at 65535. *)
Theorem cluster_nodes_table mgr par text s :
  let all := fields_of <$> split text newline [] in
  mgr_refs mgr (length (heap s)) → Forall slots_ok all →
  match analysisClusterNodes mgr par text s with
  | (inr (code, mgr'), s') =>
      let nodes := default [] (clusterVectInfo_ <$> cluterCli_ mgr') in
      code = 0 ∧ later s s' ∧
      Forall2 (node_of mgr s (heap s') all) (filter is_master all) nodes ∧
      (∀ slot, default ∅ (clusterSlotMap_ <$> cluterCli_ mgr') !! slot = owner nodes slot) ∧
      masterConn_ mgr' = ups (heap s') (masters nodes) ∧ slaveConn_ mgr' = ups (heap s') (slaves nodes)
  | (inl (Return code), _) => code = ANALYSIS_STRING_FORMATE_ERROR
  | (inl _, _) => False
  end.
Proof.
  intros all Hm Hr.
  assert (H : returns (analysisClusterNodes mgr par text) (λ r s',
    let nodes := default [] (clusterVectInfo_ <$> cluterCli_ r.2) in
    r.1 = 0 ∧ later s s' ∧ Forall2 (node_of mgr s (heap s') all) (filter is_master all) nodes ∧
    (∀ slot, default ∅ (clusterSlotMap_ <$> cluterCli_ r.2) !! slot = owner nodes slot) ∧
    masterConn_ r.2 = ups (heap s') (masters nodes) ∧ slaveConn_ r.2 = ups (heap s') (slaves nodes)) s).
  { unfold analysisClusterNodes. destruct text as [|x text]; [done|]. apply returns_bind.
    eapply (lines_scan_spec mgr par s all _ _ []); [done|apply later_refl|done|done| |].
    { split; [constructor|done..]. }
    intros [[ci mc] sc] s' Hs [T1 T2 T3 T4]. by apply returns_ret. }
  unfold returns in H. by destruct (analysisClusterNodes mgr par text s) as [[[]|[code mgr']] s'].
Qed.

(** A cluster of three masters, known through its first node. *)
Definition sample_reply : bytes :=
  lit "9be7 192.169.6.211:6790@16790 master - 0 1557940444069 5 connected 10923-16383" ++ newline ++
  lit "af80 192.169.6.234:6791@16791 slave a489 0 1557940443067 3 connected" ++ newline ++
  lit "1adf 192.169.6.234:6790@16790 myself,slave 19b1 0 1557940442000 1 connected" ++ newline ++
  lit "37e4 192.169.6.211:6791@16791 slave 9be7 0 1557940446071 6 connected" ++ newline ++
  lit "a489 192.169.6.233:6790@16790 master - 0 1557940441000 3 connected 5461-10922" ++ newline ++
  lit "19b1 192.169.6.233:6791@16791 master - 0 1557940445070 7 connected 0-5460" ++ newline.
Definition sample_par : Par := {| ioThreadNum := 2; keepSecond := 10; connOutSecond := 3 |}.
Definition sample_client : RedisClient :=
  (RedisClient_new 1 0 {| port_ := 6790; ipAddr_ := lit "192.169.6.211" |} 10 3) <| state_ := REDIS_CLIENT_STATE_CONN |>.
Definition sample_scan : Scan := {| heap := [sample_client]; ioIndex := 1; addRedisCli := [] |}.
Definition sample_mgr : RedisClientMgr := RedisClientMgr_new <| svrType_ := 3 |> <| nodeCli_ := Some 0%nat |>.

Lemma cluster_nodes_table_witness :
  match analysisClusterNodes sample_mgr sample_par sample_reply sample_scan with
  | (inr (code, mgr'), s') =>
      code = 0 ∧ later sample_scan s' ∧
      Forall2 (node_of sample_mgr sample_scan (heap s') (fields_of <$> split sample_reply newline []))
        (filter is_master (fields_of <$> split sample_reply newline []))
        (default [] (clusterVectInfo_ <$> cluterCli_ mgr')) ∧
      (∀ slot, default ∅ (clusterSlotMap_ <$> cluterCli_ mgr') !! slot =
               owner (default [] (clusterVectInfo_ <$> cluterCli_ mgr')) slot) ∧
      masterConn_ mgr' = ups (heap s') (masters (default [] (clusterVectInfo_ <$> cluterCli_ mgr'))) ∧
      slaveConn_ mgr' = ups (heap s') (slaves (default [] (clusterVectInfo_ <$> cluterCli_ mgr')))
  | (inl (Return code), _) => code = ANALYSIS_STRING_FORMATE_ERROR
  | (inl _, _) => False
  end.
Proof.
  apply (cluster_nodes_table sample_mgr sample_par sample_reply sample_scan).
  - split; [intros i [= <-]; cbn; lia|done].
  - unfold slots_ok. decide_now.
Defined.

(** What a test of a reply looks at: the slots of interest, the counts of
    connections up, and the connections to open. *)
Definition outcome (mgr : RedisClientMgr) (reply : bytes) (sc : Scan) (ks : list Z) : option (list (option nat) * Z * Z * list nat) :=
  let '(r, s) := analysisClusterNodes mgr sample_par reply sc in
  match r with
  | inr (_, mgr') =>
      let table := default ∅ (clusterSlotMap_ <$> cluterCli_ mgr') in
      Some ((λ k, table !! k) <$> ks, masterConn_ mgr', slaveConn_ mgr', addRedisCli s)
  | _ => None
  end.
Definition no_scan : Scan := {| heap := []; ioIndex := 0; addRedisCli := [] |}.

(** That reply is understood: one connection is kept, five are new. *)
Example sample_topology :
  outcome sample_mgr sample_reply sample_scan [0; 5460; 5461; 10923; 16383; 16384] =
  Some ([Some 4; Some 4; Some 2; Some 0; Some 0; None]%nat, 1, 0, [1; 2; 3; 4; 5]%nat).
Proof. vm_compute. reflexivity. Qed.

(** A node that moves a slot lists it as ["[93->-id]"]: the code reads slot 0. *)
Lemma moving_slot_misrouted :
  outcome RedisClientMgr_new
    (lit "aa 10.0.0.1:6379@1 master - 0 1 1 connected 1-80 [93->-bb]" ++ newline ++
     lit "bb 10.0.0.2:6379@1 master - 0 1 1 connected 0 81-163" ++ newline) no_scan [0; 1; 81] =
  Some ([Some 0; Some 0; Some 1]%nat, 0, 0, [0; 1]%nat).
Proof. vm_compute. reflexivity. Qed.

(** A master without slots, as every new node and every replaced master is, makes
    the code refuse the whole reply. *)
Lemma empty_master_refused :
  outcome RedisClientMgr_new
    (lit "aa 10.0.0.1:6379@1 master - 0 1 1 connected 0-163" ++ newline ++
     lit "bb 10.0.0.2:6379@1 master - 0 1 1 connected" ++ newline) no_scan [] = None.
Proof. vm_compute. reflexivity. Qed.

(** Lines of INFO end in a carriage return, which becomes part of the address. *)
Lemma master_address_with_return :
  let line s := lit s ++ ["013"%byte] ++ newline in
  let reply := line "# Replication" ++ line "role:slave" ++ line "master_host:10.0.0.1" ++ line "master_port:6379" in
  let '(r, s) := analysisSlaveNodes sample_mgr sample_par reply sample_scan in
  (ipAddr_ ∘ svrInfo_) <$> heap s !! 1%nat = Some (lit "10.0.0.1" ++ ["013"%byte]).
Proof. vm_compute. reflexivity. Qed.

End RedisTopo.
