(* ===== verification/RedisWorld.v ===== *)
(** * The state of the asynchronous Redis client ([src/redisAsyn/v1.0/src/])

    Orders, the queues they travel through ([OrderInfo.h], [LibeventIo.h]), the
    thread pool of the callbacks, and the variables of [RedisAsync.cpp]. Orders and
    connections are shared: they live in heaps, a [shared_ptr] is an index. An
    access to null or outside a vector has no result ([None]). *)

From S2P Require Import Prelude CLib Incommon Atomic HashSlot RedisTopo TcpCli.
Import RedisTools RedisTopo.

Module RedisWorld.

(** ** Codes ([RedisAsync.h], [Incommon.h]) *)

Definition EXCE_MALLOC_NULL : Z := -1.
Definition SVR_CONNECT_RESET : Z := -2.
Definition SVR_CONECT_DISCONNECT : Z := -3.
Definition CLUSTER_NODES_CHANGE : Z := -4.
Definition UNKOWN_REDIS_SVR_TYPE : Z := -5.
Definition MASTER_SLAVE_NODES_CHANGE : Z := -6.
Definition CLUSTER_INITSTR_FORMATE : Z := -7.
Definition CLUSTER_INITSTR_UNKNOWN : Z := -8.
Definition INIT_SUCCESS_CODE : Z := 0.
Definition INIT_PARAMETER_ERROR : Z := -1.
Definition INIT_NO_INIT_ERROR : Z := -3.
Definition CMD_SUCCESS_CODE : Z := 0.
Definition CMD_PARAMETER_ERROR_CODE : Z := -1.
Definition CMD_SVR_STATE_ERROR_CODE : Z := -2.
Definition CMD_SVR_INVALID_CODE : Z := -4.
Definition CMD_SLOTS_CALCUL_ERROR_CODE : Z := -6.
Definition CMD_SVR_NODES_DOWN : Z := -7.
Definition CMD_OUTTIME_CODE : Z := -8.
Definition CMD_REPLY_EMPTY_CODE : Z := -9.
Definition CMD_EMPTY_RESULT_CODE : Z := -10.
Definition CMD_REDIS_ERROR_CODE : Z := -11.
Definition CMD_REDIS_UNKNOWN_CODE : Z := -12.
Definition CMD_SVR_CLOSER_CODE : Z := -13.
Definition REDIS_SVR_INIT_STATE : Z := 0.
Definition REDIS_SVR_RUNING_STATE : Z := 1.
Definition REDIS_EXCEPTION_STATE : Z := 2.
Definition REDIS_SVR_ERROR_STATE : Z := 3.
Definition REDIS_SVR_INVALID_STATE : Z := 4.
Definition DEFAULT_CMD_OUTSECOND : Z := 3.
Definition DEFAULT_DELAY_CMD_SECOND : Z := 3.
Definition REDIS_CLUSTER_MAX_SLOT : Z := 16383.
Definition CONNECT_REDISVR_SUCCESS : Z := 0.
Definition CONNECT_REDISVR_RESET : Z := 1.
Definition REDISVR_CONNECT_DISCONN : Z := 2.
Definition REDIS_UNKNOWN_SERVER : Z := 0.
Definition REDIS_SINGLE_SERVER : Z := 1.
Definition REDIS_MASTER_SLAVE_SERVER : Z := 2.
Definition REDIS_CLUSTER_SERVER : Z := 3.
Definition MAX_IP_ADDR_LEN : Z := 15.
Definition MAX_PORT_NUM_LEN : Z := 5.

(** ** Orders *)

(** Whose callback an order has: the caller's, or a member of [RedisAsync]. *)
Inductive Callback := user_cb (id : nat) | clusterInfo_cb | clusterNodes_cb | clusterInit_cb | infoReplication_cb.

(** [cmdPri_] is the caller's, or the manager for the internal callbacks. *)
Record OrderNode := {
  cmdRet_ : Z; outSecond_ : Z; cmdOutSecond_ : Z; cmdQuerySecond_ : Z; cmdPri_ : option nat;
  cmdMsg_ : bytes; resultCb_ : option Callback; cmdResult_ : list bytes }.
#[export] Instance eta_OrderNode : Eta OrderNode := λ r, {|
  cmdRet_ := cmdRet_ r; outSecond_ := outSecond_ r; cmdOutSecond_ := cmdOutSecond_ r;
  cmdQuerySecond_ := cmdQuerySecond_ r; cmdPri_ := cmdPri_ r; cmdMsg_ := cmdMsg_ r;
  resultCb_ := resultCb_ r; cmdResult_ := cmdResult_ r |}.
Definition OrderNode_new (msg : bytes) (cb : option Callback) (pri : option nat) : OrderNode := {|
  cmdRet_ := 0; outSecond_ := 0; cmdOutSecond_ := 0; cmdQuerySecond_ := 0; cmdPri_ := pri;
  cmdMsg_ := msg; resultCb_ := cb; cmdResult_ := [] |}.

(** An order for a connection; without [n_cmdOrd_], to connect or disconnect it. *)
Record RedisCliOrderNode := { n_outSecond_ : Z; n_cli_ : option nat; n_cmdOrd_ : option nat }.

(** ** [TimerOrderDeque] *)

Fixpoint insert_before (node : RedisCliOrderNode) (l : list RedisCliOrderNode) : list RedisCliOrderNode :=
  match l with
  | [] => [node]
  | x :: l' => if n_outSecond_ node <=? n_outSecond_ x then node :: l else x :: insert_before node l'
  end.
Definition insertTimerOrder (node : RedisCliOrderNode) (list_ : list RedisCliOrderNode) : list RedisCliOrderNode :=
  match list_ with
  | [] => [node]
  | _ => if n_outSecond_ node =? 0 then node :: list_ else insert_before node list_
  end.
Definition dealTimerOrder (nowSecond : Z) (list_ : list RedisCliOrderNode) :
    option RedisCliOrderNode * list RedisCliOrderNode :=
  match list_ with
  | [] => (None, [])
  | x :: l =>
      if (n_outSecond_ x =? 0) || (n_outSecond_ x <=? nowSecond) then (Some x, l) else (None, list_)
  end.

(** ** [LibeventIo] *)

(** Where the thread is: before the event loop, waiting in it, in the loop of
    [handleRead] (with the number read), or after the loop was broken. *)
Inductive IoPc := NotReady | Waiting | Draining (one : Z) | Broken.

Record LibeventIo := {
  wakeupFd : Z; evbase : bool; io_nowSecond_ : Z; lastSecond_io : Z;
  orderDeque_ : list RedisCliOrderNode; ioRedisClients_ : list (option nat); pc : IoPc }.
#[export] Instance eta_LibeventIo : Eta LibeventIo := λ r, {|
  wakeupFd := wakeupFd r; evbase := evbase r; io_nowSecond_ := io_nowSecond_ r;
  lastSecond_io := lastSecond_io r; orderDeque_ := orderDeque_ r; ioRedisClients_ := ioRedisClients_ r;
  pc := pc r |}.
Definition LibeventIo_new : LibeventIo := {|
  wakeupFd := 0; evbase := false; io_nowSecond_ := 0; lastSecond_io := 0; orderDeque_ := [];
  ioRedisClients_ := []; pc := NotReady |}.

Definition orderNodeInsert (node : RedisCliOrderNode) (io : LibeventIo) : LibeventIo :=
  io <| orderDeque_ ::= (.++ [node]) |>.
Definition dealOrderNode (io : LibeventIo) : option (RedisCliOrderNode * LibeventIo) :=
  match orderDeque_ io with [] => None | node :: l => Some (node, io <| orderDeque_ := l |>) end.
Definition libeventIoWakeup (nowsecond : Z) (io : LibeventIo) : LibeventIo :=
  io <| io_nowSecond_ := nowsecond |> <| wakeupFd ::= TcpCli.eventfd_write 2 |>.
Definition libeventIoExit (io : LibeventIo) : LibeventIo := io <| wakeupFd ::= TcpCli.eventfd_write 1 |>.

(** ** Everything *)

(** What the callback pool is asked to run, with the arguments bound to it. (The
    code binds some texts by a pointer to a local array, which is gone when the task
    runs; here the text is what the array held.) *)
Inductive Task :=
  | cmdReplyCallPool_task
  | asyncStateCallBack_task (asyFd : nat) (stateCode : Z) (stateMsg : bytes)
  | asyncExceCallBack_task (asyFd : nat) (exceCode : Z) (exceMsg : bytes)
  | redisSvrMgrInvalid_task (asyFd : nat)
  | clusterNodesUpdate_task (asyFd : nat) (isDelay isInit : bool)
  | infoReplicNodesUpdate_task (asyFd : nat) (isDelay : bool).

(** What others get to see: commands written to a connection, callbacks. *)
Inductive Out :=
  | Sent (cli : nat) (msg : bytes)
  | Called (order : nat) (cb : Callback) (ret : Z) (result : list bytes)
  | StateChange (asyFd : nat) (code : Z) (msg : bytes)
  | Exception (asyFd : nat) (code : Z) (msg : bytes).

(** [callBackPoolPtr] is [None] while it is a null pointer. *)
Record World := {
  callBackNum_ : Z; ioThreadNum_ : Z; keepSecond_ : Z; a_connOutSecond_ : Z; isExit_ : bool; timerExit_ : bool;
  nowSecond_ : Z; stateCb_ : bool; exceCb_ : bool;
  callBackPoolPtr : option (list Task); libeventIoPtrVect : list LibeventIo; initIoIndex : Z;
  asyncCmdNum : Z; vectRedisCliMgr : list RedisClientMgr;
  clients : list RedisClient; orders : list OrderNode; timerOrders : list RedisCliOrderNode; dealing : bool;
  cmdResults : list nat; outs : list Out }.
#[export] Instance eta_World : Eta World := λ r, {|
  callBackNum_ := callBackNum_ r; ioThreadNum_ := ioThreadNum_ r; keepSecond_ := keepSecond_ r;
  a_connOutSecond_ := a_connOutSecond_ r; isExit_ := isExit_ r; timerExit_ := timerExit_ r;
  nowSecond_ := nowSecond_ r; stateCb_ := stateCb_ r; exceCb_ := exceCb_ r;
  callBackPoolPtr := callBackPoolPtr r; libeventIoPtrVect := libeventIoPtrVect r; initIoIndex := initIoIndex r;
  asyncCmdNum := asyncCmdNum r; vectRedisCliMgr := vectRedisCliMgr r; clients := clients r; orders := orders r;
  timerOrders := timerOrders r; dealing := dealing r; cmdResults := cmdResults r; outs := outs r |}.
Definition RedisAsync_new : World := {|
  callBackNum_ := 0; ioThreadNum_ := 0; keepSecond_ := 0; a_connOutSecond_ := 0; isExit_ := false;
  timerExit_ := false; nowSecond_ := 0; stateCb_ := false; exceCb_ := false; callBackPoolPtr := None;
  libeventIoPtrVect := []; initIoIndex := 0; asyncCmdNum := 0; vectRedisCliMgr := []; clients := []; orders := [];
  timerOrders := []; dealing := false; cmdResults := []; outs := [] |}.

Abbreviation M := (Op World).

(** ** Steps the operations are made of *)

Definition get_mgr (fd : nat) : M RedisClientMgr := op_find (λ w, vectRedisCliMgr w !! fd).
Definition set_mgr (fd : nat) (f : RedisClientMgr → RedisClientMgr) : M () :=
  op_mod (λ w, w <| vectRedisCliMgr ::= alter f fd |>).
Definition set_state (fd : nat) (s : Z) : M () := set_mgr fd (λ m, m <| initState_ := s |>).
Definition get_cli (c : nat) : M RedisClient := op_find (λ w, clients w !! c).
Definition set_cli (c : nat) (f : RedisClient → RedisClient) : M () := op_mod (λ w, w <| clients ::= alter f c |>).
Definition get_order (o : nat) : M OrderNode := op_find (λ w, orders w !! o).
Definition set_order (o : nat) (f : OrderNode → OrderNode) : M () := op_mod (λ w, w <| orders ::= alter f o |>).
Definition get_io (i : nat) : M LibeventIo := op_find (λ w, libeventIoPtrVect w !! i).
Definition set_io (i : nat) (f : LibeventIo → LibeventIo) : M () :=
  op_mod (λ w, w <| libeventIoPtrVect ::= alter f i |>).
Definition emit (x : Out) : M () := op_mod (λ w, w <| outs ::= (.++ [x]) |>).

(** [new common::OrderNode(...)] *)
Definition new_order (ord : OrderNode) : M nat := λ w,
  Some (length (orders w), w <| orders ::= (.++ [ord]) |>).
(** [callBackPoolPtr->run(...)]; the pool's queue is unbounded and has threads. *)
Definition run (t : Task) : M () := λ w,
  match callBackPoolPtr w with
  | Some q => Some ((), w <| callBackPoolPtr := Some (q ++ [t]) |>)
  | None => None
  end.
Definition asyncCmdResultCallBack : M () := run cmdReplyCallPool_task.
Definition insertCmdResult (o : nat) : M () :=
  _ ← op_mod (λ w, w <| cmdResults ::= (.++ [o]) |>); asyncCmdResultCallBack.
Definition insert_timer (node : RedisCliOrderNode) : M () :=
  op_mod (λ w, w <| timerOrders ::= insertTimerOrder node |>).
Definition asyncRequestCmdAdd : M () := op_mod (λ w, w <| asyncCmdNum ::= λ n, (increment s32 n).2 |>).

(** [cmdOrd_ && cmdOrd_->resultCb_] *)
Definition has_callback (o : option nat) : M bool :=
  match o with
  | None => mret false
  | Some o => ord ← get_order o; mret (bool_decide (is_Some (resultCb_ ord)))
  end.
Definition push_order (i : nat) (node : RedisCliOrderNode) : M () :=
  _ ← get_io i; set_io i (orderNodeInsert node).
Definition libeventIoOrder (i : nat) (node : RedisCliOrderNode) (nowsecond : Z) : M () :=
  counted ← has_callback (n_cmdOrd_ node);
  _ ← (if counted : bool then asyncRequestCmdAdd else mret ());
  _ ← push_order i node;
  set_io i (libeventIoWakeup nowsecond).

(** [cli->redisCliIoIndex()] of a pointer that may be null. *)
Definition io_of (cli : option nat) : M nat := c ← op_some cli; k ← get_cli c; mret (ioIndex_ k).

(** ** Strings *)

(** [s.c_str()] as a C string: up to the first NUL. *)
Definition c_str (s : bytes) : bytes := (span (λ b, negb (bool_decide (b = NUL))) s).1.
Definition utilFristConstchar (p : bytes) (c : Byte.byte) : option nat := find_char c (c_str p).
(** [sprintf] of a text into [char buf[1024]], as a string. *)
Definition sprintf1024 (s : bytes) : M bytes :=
  if bool_decide (length s < 1024)%nat then mret s else op_undefined.
(** ["%s::%d %s"] *)
Definition exceMsgBuf (ipaddr : bytes) (port : Z) (errMsg : bytes) : M bytes :=
  sprintf1024 (c_str ipaddr ++ lit "::" ++ fmt_ld port ++ lit " " ++ c_str errMsg).

End RedisWorld.
