(* ===== verification/RedisConn.v ===== *)
(** * Connections of the asynchronous Redis client

    What the IO threads run: the state machine of a group of servers when a
    connection comes up or goes down ([redisSvrOnConnect] and the reconnections of
    [RedisAsync.cpp]), [RedisClient.cpp] and [LibeventIo.cpp]. What hiredis and
    libevent answer is an argument. *)

From S2P Require Import Prelude CLib Incommon Atomic HashSlot RedisTopo TcpCli RedisWorld.
Import RedisTools RedisTopo RedisWorld.

Module RedisConn.

(** ** Connecting again *)

(** The connection to an address that the two functions look for. *)
Definition self_client (m : RedisClientMgr) (clients : list RedisClient) (ipaddr : bytes) (port : Z) : option nat :=
  if isSelfSvrInfo clients (nodeCli_ m) ipaddr port then nodeCli_ m
  else match getRedisClient_ms clients (mSlaveCli_ m) ipaddr port with
       | Some c => Some c
       | None => getRedisClient_cluster clients (cluterCli_ m) ipaddr port
       end.
Definition reconnect (asyFd : nat) (ipaddr : bytes) (port : Z) (outSecond : M Z) : M () :=
  m ← get_mgr asyFd;
  client ← op_get (λ w, self_client m (clients w) ipaddr port);
  match client with
  | None => mret ()
  | Some c =>
      t ← outSecond;
      insert_timer {| n_outSecond_ := t; n_cli_ := Some c; n_cmdOrd_ := None |}
  end.
Definition delay_time : M Z := op_get (λ w, u64 (nowSecond_ w + DEFAULT_DELAY_CMD_SECOND)).
Definition reconnectAtOnece (asyFd : nat) (ipaddr : bytes) (port : Z) : M () :=
  reconnect asyFd ipaddr port (mret 0).
Definition delayReconnect (asyFd : nat) (ipaddr : bytes) (port : Z) : M () :=
  reconnect asyFd ipaddr port delay_time.

(** ** [redisSvrOnConnect] *)

(** [infoReplicConnsUpdate] and [clusterRedisConnsUpdate] on the manager [asyFd]. *)
Definition ms_conns (asyFd : nat) (ipaddr : bytes) (port : Z) (onConned : bool) : M Z :=
  m ← get_mgr asyFd;
  '(place, m') ← op_get (λ w, infoReplicConnsUpdate (clients w) m ipaddr port onConned true);
  _ ← set_mgr asyFd (λ _, m'); mret place.
Definition cluster_conns (asyFd : nat) (ipaddr : bytes) (port : Z) (onConned onCount : bool) : M Z :=
  m ← get_mgr asyFd;
  '(place, m') ← op_get (λ w, clusterRedisConnsUpdate (clients w) m ipaddr port onConned onCount);
  _ ← set_mgr asyFd (λ _, m'); mret place.

Section onConnect.
Variables (asyFd : nat) (state : Z) (ipaddr : bytes) (port : Z) (errMsg : bytes).

Definition notify_state (code : Z) : M () :=
  m ← get_mgr asyFd; run (asyncStateCallBack_task asyFd code (inSvrInfoStr_ m)).
Definition enter_state (code : Z) : M () := _ ← set_state asyFd code; notify_state code.
(** The exception callback with the address and the error. *)
Definition report (code : Z) : M () :=
  buf ← exceMsgBuf ipaddr port errMsg; run (asyncExceCallBack_task asyFd code buf).

Definition onConnect_single : M () :=
  m ← get_mgr asyFd;
  if (initState_ m =? REDIS_SVR_INIT_STATE) || (initState_ m =? REDIS_SVR_ERROR_STATE) then
    if state =? CONNECT_REDISVR_SUCCESS then enter_state REDIS_SVR_RUNING_STATE
    else if state =? CONNECT_REDISVR_RESET then
      _ ← report SVR_CONNECT_RESET; delayReconnect asyFd ipaddr port
    else mret ()
  else if initState_ m =? REDIS_SVR_RUNING_STATE then
    if state =? REDISVR_CONNECT_DISCONN then
      _ ← set_state asyFd REDIS_SVR_ERROR_STATE;
      _ ← report SVR_CONECT_DISCONNECT;
      _ ← notify_state REDIS_SVR_ERROR_STATE;
      reconnectAtOnece asyFd ipaddr port
    else mret ()
  else mret ().

Definition onConnect_ms : M () :=
  m ← get_mgr asyFd;
  if initState_ m =? REDIS_SVR_INIT_STATE then
    if state =? CONNECT_REDISVR_SUCCESS then
      match mSlaveCli_ m with
      | None => run (infoReplicNodesUpdate_task asyFd false)
      | Some _ =>
          _ ← ms_conns asyFd ipaddr port true;
          m ← get_mgr asyFd;
          if masterConn_ m =? 0 then mret () else enter_state REDIS_SVR_RUNING_STATE
      end
    else if state =? CONNECT_REDISVR_RESET then
      _ ← report SVR_CONNECT_RESET; delayReconnect asyFd ipaddr port
    else if state =? REDISVR_CONNECT_DISCONN then
      _ ← report SVR_CONECT_DISCONNECT;
      _ ← ms_conns asyFd ipaddr port true;
      reconnectAtOnece asyFd ipaddr port
    else mret ()
  else if initState_ m =? REDIS_SVR_RUNING_STATE then
    if state =? CONNECT_REDISVR_SUCCESS then _ ← ms_conns asyFd ipaddr port true; mret ()
    else if state =? CONNECT_REDISVR_RESET then
      _ ← report SVR_CONNECT_RESET; delayReconnect asyFd ipaddr port
    else if state =? REDISVR_CONNECT_DISCONN then
      _ ← report SVR_CONECT_DISCONNECT;
      _ ← reconnectAtOnece asyFd ipaddr port;
      isNodes ← ms_conns asyFd ipaddr port true;
      if isNodes =? MASTER_CLUSTER_ADDRINFO then run (infoReplicNodesUpdate_task asyFd true) else mret ()
    else mret ()
  else mret ().

(** [cluterCli_->clusterVectInfo_.size() == masterConn_] *)
Definition all_masters_up (m : RedisClientMgr) : option bool :=
  (λ info, Z.of_nat (length (clusterVectInfo_ info)) =? masterConn_ m) <$> cluterCli_ m.
(** A master of the cluster is gone. *)
Definition master_lost : M () :=
  buf ← exceMsgBuf ipaddr port errMsg;
  _ ← set_state asyFd REDIS_EXCEPTION_STATE;
  _ ← run (asyncStateCallBack_task asyFd REDIS_EXCEPTION_STATE buf);
  run (clusterNodesUpdate_task asyFd true false).
Definition run_when_all_up : M () :=
  m ← get_mgr asyFd;
  up ← op_some (all_masters_up m);
  if up : bool then enter_state REDIS_SVR_RUNING_STATE else mret ().
(** A disconnection: counted, and reconnected when it is a node of the cluster. *)
Definition cluster_disconnected : M Z :=
  _ ← report SVR_CONECT_DISCONNECT;
  isClusterInfo ← cluster_conns asyFd ipaddr port false true;
  _ ← (if isClusterInfo =? NO_IN_CLUSTER_ADDRINFO then mret () else reconnectAtOnece asyFd ipaddr port);
  mret isClusterInfo.

Definition onConnect_cluster : M () :=
  m ← get_mgr asyFd;
  if initState_ m =? REDIS_SVR_INIT_STATE then
    if state =? CONNECT_REDISVR_SUCCESS then
      if bool_decide (default [] (clusterVectInfo_ <$> cluterCli_ m) = []) then
        run (clusterNodesUpdate_task asyFd false true)
      else
        _ ← cluster_conns asyFd ipaddr port true true;
        run_when_all_up
    else if state =? CONNECT_REDISVR_RESET then
      _ ← report SVR_CONNECT_RESET;
      isClusterInfo ← cluster_conns asyFd ipaddr port false false;
      if isClusterInfo =? NO_IN_CLUSTER_ADDRINFO then mret ()
      else
        _ ← delayReconnect asyFd ipaddr port;
        if isClusterInfo =? MASTER_CLUSTER_ADDRINFO then master_lost else mret ()
    else if state =? REDISVR_CONNECT_DISCONN then
      isClusterInfo ← cluster_disconnected;
      if isClusterInfo =? MASTER_CLUSTER_ADDRINFO then master_lost else mret ()
    else mret ()
  else if initState_ m =? REDIS_SVR_RUNING_STATE then
    if state =? CONNECT_REDISVR_SUCCESS then _ ← cluster_conns asyFd ipaddr port true true; mret ()
    else if state =? CONNECT_REDISVR_RESET then
      _ ← report SVR_CONNECT_RESET; delayReconnect asyFd ipaddr port
    else if state =? REDISVR_CONNECT_DISCONN then
      isClusterInfo ← cluster_disconnected;
      if isClusterInfo =? MASTER_CLUSTER_ADDRINFO then master_lost else mret ()
    else mret ()
  else if initState_ m =? REDIS_EXCEPTION_STATE then
    if state =? CONNECT_REDISVR_SUCCESS then
      _ ← cluster_conns asyFd ipaddr port true true;
      run_when_all_up
    else if state =? CONNECT_REDISVR_RESET then
      _ ← report SVR_CONNECT_RESET; delayReconnect asyFd ipaddr port
    else if state =? REDISVR_CONNECT_DISCONN then _ ← cluster_disconnected; mret ()
    else mret ()
  else if initState_ m =? REDIS_SVR_ERROR_STATE then
    if state =? CONNECT_REDISVR_SUCCESS then _ ← cluster_conns asyFd ipaddr port true true; mret ()
    else if state =? CONNECT_REDISVR_RESET then
      _ ← report SVR_CONNECT_RESET; delayReconnect asyFd ipaddr port
    else if state =? REDISVR_CONNECT_DISCONN then _ ← cluster_disconnected; mret ()
    else mret ()
  else mret ().

Definition redisSvrOnConnect : M () :=
  m ← op_get (λ w, vectRedisCliMgr w !! asyFd);
  match m with
  | None => mret ()
  | Some m =>
      if svrType_ m =? REDIS_UNKNOWN_SERVER then
        _ ← run (asyncExceCallBack_task asyFd UNKOWN_REDIS_SVR_TYPE (inSvrInfoStr_ m));
        run (redisSvrMgrInvalid_task asyFd)
      else if svrType_ m =? REDIS_SINGLE_SERVER then onConnect_single
      else if svrType_ m =? REDIS_MASTER_SLAVE_SERVER then onConnect_ms
      else if svrType_ m =? REDIS_CLUSTER_SERVER then onConnect_cluster
      else mret ()
  end.
End onConnect.

(** ** [RedisClient.cpp] *)

(** The connection's manager and address, with what happened to it. *)
Definition on_connect (c : nat) (state : Z) (errMsg : bytes) : M () :=
  k ← get_cli c;
  redisSvrOnConnect (mgrFd_ k) state (ipAddr_ (svrInfo_ k)) (port_ (svrInfo_ k)) errMsg.

(** [redisAsyncConnect] gives null, a context with an error, or a context; then
    [evtimer_new] gives a timer or null. *)
Inductive Connecting := ConnNull | ConnErr | ConnOk (timer : bool).
Definition connectServer (c : nat) (eBase : bool) (ans : Connecting) : M Z :=
  k ← get_cli c;
  if negb eBase || bool_decide (ipAddr_ (svrInfo_ k) = []) || (port_ (svrInfo_ k) =? 0) then mret (-1)
  else
    _ ← set_cli c (λ k, k <| base_ := true |>);
    match ans with
    | ConnNull => _ ← set_cli c (λ k, k <| client_ := false |>); mret (-1)
    | ConnErr => _ ← set_cli c (λ k, k <| client_ := true |>); mret (-1)
    | ConnOk false => _ ← set_cli c (λ k, k <| client_ := true |> <| timev_ := false |>); mret (-1)
    | ConnOk true =>
        _ ← set_cli c (λ k, k <| client_ := true |> <| timev_ := true |> <| freeState_ := RESOURCES_NEED_FREE |>);
        mret 0
    end.

Definition freeTimeEvent (c : nat) : M () := set_cli c (λ k, k <| timev_ := false |>).
Definition setStateConnected (c : nat) (now : Z) : M () :=
  _ ← freeTimeEvent c;
  set_cli c (λ k, k <| state_ := REDIS_CLIENT_STATE_CONN |> <| lastSecond_ := now |>).

(** An order whose result is [code], when somebody waits for it. *)
Definition finish_order (o : nat) (f : OrderNode → OrderNode) : M () :=
  waits ← has_callback (Some o);
  if waits : bool then _ ← set_order o f; insertCmdResult o else mret ().
Definition clearCmdReqBuf (c : nat) : M () :=
  k ← get_cli c;
  op_each (λ p, finish_order p.2 (λ ord, ord <| cmdRet_ := CMD_SVR_CLOSER_CODE |>)) (cmdSeqOrderMap_ k).

(** [disConnect]; [disconnected] is what [redisAsyncDisconnect] runs before it
    returns. *)
Definition disConnect_with (c : nat) (isFree : bool) (disconnected : M ()) : M () :=
  k ← get_cli c;
  if freeState_ k =? RESOURCES_FREE_ALREADY then mret ()
  else
    _ ← set_cli c (λ k, k <| freeState_ := RESOURCES_FREE_ALREADY |>);
    _ ← freeTimeEvent c;
    _ ← (if client_ k && isFree then
           _ ← disconnected; set_cli c (λ k, k <| client_ := false |>)
         else mret ());
    _ ← clearCmdReqBuf c;
    set_cli c (λ k, k <| state_ := REDIS_CLIENT_STATE_INIT |>).
Definition disconnectCallback (c : nat) (errstr : bytes) : M () :=
  k ← get_cli c;
  _ ← disConnect_with c false (mret ());
  on_connect c (if state_ k =? REDIS_CLIENT_STATE_INIT then CONNECT_REDISVR_RESET else REDISVR_CONNECT_DISCONN) errstr.
(** [sync]: the error text, when hiredis runs the callback at once. *)
Definition disConnect (c : nat) (isFree : bool) (sync : option bytes) : M () :=
  disConnect_with c isFree (match sync with Some err => disconnectCallback c err | None => mret () end).

Definition connectTimeout (c : nat) (sync : option bytes) : M () :=
  k ← get_cli c;
  if state_ k =? REDIS_CLIENT_STATE_INIT then
    _ ← disConnect c true sync; on_connect c CONNECT_REDISVR_RESET []
  else mret ().
(** [failed]: the error text when [status != REDIS_OK]. *)
Definition connectCallback (c : nat) (failed : option bytes) (now : Z) : M () :=
  match failed with
  | Some err =>
      k ← get_cli c;
      _ ← disConnect c false None;
      on_connect c (if state_ k =? REDIS_CLIENT_STATE_INIT then CONNECT_REDISVR_RESET else REDISVR_CONNECT_DISCONN) err
  | None => _ ← setStateConnected c now; on_connect c CONNECT_REDISVR_SUCCESS []
  end.

(** [std::map::insert] keeps the keys in order and an existing entry. *)
Fixpoint seq_insert (k : Z) (v : nat) (m : list (Z * nat)) : list (Z * nat) :=
  match m with
  | [] => [(k, v)]
  | (k', v') :: m' =>
      if k <? k' then (k, v) :: m else if k =? k' then m else (k', v') :: seq_insert k v m'
  end.
(** The text is the format argument of [redisAsyncCommand]: what a per cent sign
    does there is left undefined. *)
Definition format_plain (msg : bytes) : bool := bool_decide ("%"%byte ∉ msg).
Definition requestCmd (c o : nat) (nowSecond ret : Z) : M () :=
  k ← get_cli c;
  ord ← get_order o;
  let '(seq, next) := getAndAdd u32 1 (cmdSeq_ k) in
  _ ← set_cli c (λ k, k <| cmdSeq_ := next |>);
  if negb (client_ k) || negb (format_plain (c_str (cmdMsg_ ord))) then op_undefined
  else
    _ ← emit (Sent c (c_str (cmdMsg_ ord)));
    if negb (ret =? 0) then
      _ ← set_order o (λ ord, ord <| cmdResult_ ::= (.++ [lit "redisAsyncCommand ret " ++ fmt_ld ret]) |>
                                  <| cmdRet_ := ret |>);
      insertCmdResult o
    else
      _ ← set_order o (λ ord, ord <| cmdQuerySecond_ := nowSecond |>);
      set_cli c (λ k, k <| lastSecond_ := nowSecond |> <| cmdSeqOrderMap_ ::= seq_insert seq o |>).

(** The orders whose time is over leave the map. *)
Definition expired (nowSecond : Z) (ord : OrderNode) : bool :=
  negb (outSecond_ ord =? 0) && (cmdOutSecond_ ord <? nowSecond).
Fixpoint expire_orders (c : nat) (nowSecond : Z) (m : list (Z * nat)) : M (list (Z * nat)) :=
  match m with
  | [] => mret []
  | (seq, o) :: m' =>
      ord ← get_order o;
      if expired nowSecond ord then
        _ ← finish_order o (λ ord, ord <| cmdRet_ := CMD_OUTTIME_CODE |>);
        expire_orders c nowSecond m'
      else rest ← expire_orders c nowSecond m'; mret ((seq, o) :: rest)
  end.
Definition checkOutSecondCmd (c : nat) (nowSecond clock : Z) : M () :=
  let nowSecond := if nowSecond =? 0 then clock else nowSecond in
  k ← get_cli c;
  _ ← (if (state_ k =? REDIS_CLIENT_STATE_CONN) && (keepAliveSecond_ k <? s32 (u64 (nowSecond - lastSecond_ k))) then
         if client_ k then
           _ ← emit (Sent c (lit "PING")); set_cli c (λ k, k <| lastSecond_ := nowSecond |>)
         else op_undefined
       else mret ());
  rest ← expire_orders c nowSecond (cmdSeqOrderMap_ k);
  set_cli c (λ k, k <| cmdSeqOrderMap_ := rest |>).

(** ** Replies *)

Definition REDIS_REPLY_STRING : Z := 1.
Definition REDIS_REPLY_ARRAY : Z := 2.
Definition REDIS_REPLY_INTEGER : Z := 3.
Definition REDIS_REPLY_NIL : Z := 4.
Definition REDIS_REPLY_STATUS : Z := 5.
Definition REDIS_REPLY_ERROR : Z := 6.
(** A [redisReply] of hiredis; of nested replies, the texts. *)
Record redisReply := { type : Z; integer : Z; str : bytes; elements : list bytes }.
(** What a reply gives the caller. *)
Definition reply_result (r : redisReply) : Z * list bytes :=
  if type r =? REDIS_REPLY_STRING then (CMD_SUCCESS_CODE, [str r])
  else if type r =? REDIS_REPLY_ARRAY then (CMD_SUCCESS_CODE, elements r)
  else if type r =? REDIS_REPLY_INTEGER then (CMD_SUCCESS_CODE, [fmt_ld (integer r)])
  else if type r =? REDIS_REPLY_NIL then (CMD_EMPTY_RESULT_CODE, [])
  else if type r =? REDIS_REPLY_STATUS then (CMD_SUCCESS_CODE, [fmt_ld (integer r)])
  else if type r =? REDIS_REPLY_ERROR then (CMD_REDIS_ERROR_CODE, [str r])
  else (CMD_REDIS_UNKNOWN_CODE, elements r).
Definition requestCallBack (c : nat) (seq : Z) (reply : option redisReply) : M () :=
  k ← get_cli c;
  match list_find (λ p, p.1 = seq) (cmdSeqOrderMap_ k) with
  | None => mret ()
  | Some (i, (_, o)) =>
      let '(code, result) := match reply with Some r => reply_result r | None => (CMD_REPLY_EMPTY_CODE, []) end in
      _ ← finish_order o (λ ord, ord <| cmdRet_ := code |> <| cmdResult_ ::= (.++ result) |>);
      set_cli c (λ k, k <| cmdSeqOrderMap_ ::= delete i |>)
  end.
(** A null reply is not passed on. *)
Definition cmdCallback (c : nat) (seq : Z) (reply : option redisReply) : M () :=
  match reply with None => mret () | Some _ => requestCallBack c seq reply end.

(** ** [LibeventIo.cpp] *)

Definition ioDisRedisClient (cli : option nat) (l : list (option nat)) : list (option nat) :=
  (λ x, if decide (x = cli) then None else x) <$> l.
Definition ioAddRedisClient (cli : nat) (l : list (option nat)) : list (option nat) :=
  if decide (Some cli ∈ l) then l
  else ((λ x, match x with None => Some cli | _ => x end) <$> l) ++ [Some cli].

(** Before the event loop; [ok]: [eventfd] and [event_base_new] worked. Without
    the exit flag the thread goes on with a new object. *)
Definition io_restart (i : nat) : M () :=
  exit ← op_get isExit_; if exit : bool then set_io i (λ io, io <| pc := Broken |>) else set_io i (λ _, LibeventIo_new).
Definition libeventIoReady (i : nat) (ok : bool) : M () :=
  io ← get_io i;
  match pc io with
  | NotReady => if ok then set_io i (λ io, io <| evbase := true |> <| pc := Waiting |>) else io_restart i
  | _ => op_undefined
  end.

(** The eventfd is readable: [handleRead] starts. *)
Definition handleRead_begin (i : nat) : M () :=
  io ← get_io i;
  match pc io with
  | Waiting =>
      if wakeupFd io =? 0 then mret ()
      else set_io i (λ io, io <| wakeupFd := 0 |> <| pc := Draining (wakeupFd io) |>)
  | _ => op_undefined
  end.

(** What the libraries answer during one round of the loop. *)
Record IoAns := { a_conn : Connecting; a_ret : Z; a_sync : nat → option bytes; a_clock : Z }.

Definition expire_request (o : nat) (code : Z) : M () :=
  _ ← get_order o; _ ← set_order o (λ ord, ord <| cmdRet_ := code |>); insertCmdResult o.
Definition handle_order (i : nat) (node : RedisCliOrderNode) (ans : IoAns) : M () :=
  io ← get_io i;
  if negb (n_outSecond_ node =? 0) && (n_outSecond_ node <? io_nowSecond_ io) then
    o ← op_some (n_cmdOrd_ node); expire_request o CMD_OUTTIME_CODE
  else
    match n_cli_ node with
    | None => mret ()
    | Some c =>
        k ← get_cli c;
        match n_cmdOrd_ node with
        | None =>
            if state_ k =? REDIS_CLIENT_STATE_INIT then
              _ ← set_io i (λ io, io <| ioRedisClients_ ::= ioAddRedisClient c |>);
              ret ← connectServer c (evbase io) (a_conn ans);
              if ret =? 0 then mret () else on_connect c CONNECT_REDISVR_RESET []
            else disConnect c true (a_sync ans c)
        | Some o =>
            if state_ k =? REDIS_CLIENT_STATE_INIT then expire_request o CMD_SVR_CLOSER_CODE
            else requestCmd c o (io_nowSecond_ io) (a_ret ans)
        end
    end.
(** The check of one connection, once a second. *)
Definition check_client (i : nat) (ans : IoAns) (j : nat) : M () :=
  io ← get_io i;
  match ioRedisClients_ io !! j with
  | Some (Some c) =>
      k ← get_cli c;
      if negb (releaseState_ k =? 0) then
        _ ← disConnect c true (a_sync ans c);
        set_io i (λ io, io <| ioRedisClients_ ::= ioDisRedisClient (Some c) |>)
      else checkOutSecondCmd c (io_nowSecond_ io) (a_clock ans)
  | _ => mret ()
  end.
Definition handleRead_end (i : nat) (one : Z) (ans : IoAns) : M () :=
  io ← get_io i;
  if negb (one mod 2 =? 0) then set_io i (λ io, io <| pc := Broken |>)
  else
    _ ← set_io i (λ io, io <| pc := Waiting |>);
    if lastSecond_io io =? 0 then set_io i (λ io, io <| lastSecond_io := io_nowSecond_ io |>)
    else if io_nowSecond_ io =? lastSecond_io io then mret ()
    else
      _ ← op_each (check_client i ans) (seq 0 (length (ioRedisClients_ io)));
      set_io i (λ io, io <| lastSecond_io := io_nowSecond_ io |>).
(** One round: an order, or what follows the loop. *)
Definition handleRead_round (i : nat) (ans : IoAns) : M () :=
  io ← get_io i;
  match pc io with
  | Draining one =>
      match dealOrderNode io with
      | Some (node, io') => _ ← set_io i (λ _, io'); handle_order i node ans
      | None => handleRead_end i one ans
      end
  | _ => op_undefined
  end.
(** [event_base_dispatch] returned: the thread ends, or begins again. *)
Definition io_return (i : nat) : M () :=
  io ← get_io i;
  match pc io with Broken => io_restart i | _ => op_undefined end.

End RedisConn.
