(* ===== verification/RedisAsync.v ===== *)
(** * The asynchronous Redis client ([src/redisAsyn/v1.0/src/RedisAsync.cpp])

    Initialisation, the groups of servers and their topology updates, commands, the
    timer thread, the tasks of the callback pool, exit; and the steps of the whole
    module. Every thread's work is cut where another thread can come in between. *)

From S2P Require Import Prelude CLib Incommon Atomic HashSlot RedisTopo RedisWorld RedisConn.
Import RedisTools RedisTopo RedisWorld RedisConn.

Module RedisAsync.

(** ** Initialisation and exit *)

Definition redisAsyncInit (threadNum callbackNum connOutSecond keepSecond : Z) (statecb excecb : bool)
    (now : Z) : M Z :=
  done ← op_get (λ w, negb (callBackNum_ w =? 0) && negb (ioThreadNum_ w =? 0) &&
                      negb (keepSecond_ w =? 0) && negb (a_connOutSecond_ w =? 0));
  if done : bool then mret INIT_SUCCESS_CODE
  else if (threadNum <? 1) || (callbackNum <? 1) || (connOutSecond <? 1) || (keepSecond <? 1) then
    mret INIT_PARAMETER_ERROR
  else
    _ ← op_mod (λ w, w <| callBackPoolPtr := Some [] |> <| ioThreadNum_ := threadNum |>
      <| callBackNum_ := callbackNum |> <| a_connOutSecond_ := connOutSecond |> <| keepSecond_ := keepSecond |>
      <| stateCb_ := statecb |> <| exceCb_ := excecb |> <| nowSecond_ := now |>
      <| libeventIoPtrVect ::= (.++ replicate (Z.to_nat threadNum) LibeventIo_new) |>);
    mret INIT_SUCCESS_CODE.

(** [redisAsyncExit] sets the flag and waits until no command is counted; then the
    pool goes, the timer ends and the IO threads are told to. *)
Definition exit_begin : M () := op_mod (λ w, w <| isExit_ := true |>).
Definition exit_end : M () :=
  ready ← op_get (λ w, isExit_ w && (asyncCmdNum w =? 0));
  if ready : bool then
    op_mod (λ w, w <| callBackPoolPtr := None |> <| timerExit_ := true |>
                   <| libeventIoPtrVect ::= fmap libeventIoExit |>)
  else op_undefined.

(** ** Orders for the servers *)

(** [new RedisCliOrderNode(cli, cmdnode, ...)] into the timer's list, or to the
    thread of the connection. *)
Definition order_later (cli : option nat) (cmdnode : nat) : M () :=
  t ← delay_time;
  insert_timer {| n_outSecond_ := t; n_cli_ := cli; n_cmdOrd_ := Some cmdnode |}.
Definition order_now (cli : option nat) (cmdnode : option nat) (outSecond : Z) : M () :=
  i ← io_of cli;
  now ← op_get nowSecond_;
  libeventIoOrder i {| n_outSecond_ := outSecond; n_cli_ := cli; n_cmdOrd_ := cmdnode |} now.
(** [cmdOutSecond_ = nowSecond_ + outSecond] *)
Definition time_limit (outSecond : Z) : M Z := op_get (λ w, u64 (nowSecond_ w + outSecond)).
Definition with_limit (out limit : Z) (ord : OrderNode) : OrderNode :=
  ord <| outSecond_ := out |> <| cmdOutSecond_ := limit |>.

Definition clusterNodesUpdate (asyFd : nat) (isDelay isInit : bool) : M () :=
  m ← get_mgr asyFd;
  let ord := OrderNode_new (lit "CLUSTER NODES") (Some (if isInit then clusterInit_cb else clusterNodes_cb)) (Some asyFd) in
  if isDelay then cmdnode ← new_order ord; order_later (nodeCli_ m) cmdnode
  else
    limit ← time_limit DEFAULT_CMD_OUTSECOND;
    cmdnode ← new_order (with_limit DEFAULT_CMD_OUTSECOND limit ord);
    order_now (nodeCli_ m) (Some cmdnode) limit.

Definition infoReplicNodesUpdate (asyFd : nat) (isDelay : bool) : M () :=
  m ← get_mgr asyFd;
  cmdnode ← new_order (OrderNode_new (lit "INFO REPLICATION") (Some infoReplication_cb) (Some asyFd));
  if isDelay then order_later (nodeCli_ m) cmdnode else order_now (nodeCli_ m) (Some cmdnode) 0.

Definition connect_new (c : nat) : M () := order_now (Some c) None 0.

(** [updateNodesInfo]: the callback gets no private pointer. *)
Definition updateNodesInfo (asyFd : Z) : M () :=
  n ← op_get (λ w, length (vectRedisCliMgr w));
  if (asyFd <? 0) || bool_decide (n <= Z.to_nat asyFd)%nat then mret ()
  else
    m ← get_mgr (Z.to_nat asyFd);
    if initState_ m =? REDIS_SVR_INVALID_STATE then mret ()
    else if svrType_ m =? REDIS_MASTER_SLAVE_SERVER then
      limit ← time_limit DEFAULT_CMD_OUTSECOND;
      cmdnode ← new_order (with_limit DEFAULT_CMD_OUTSECOND limit
                  (OrderNode_new (lit "INFO replication") (Some infoReplication_cb) None));
      order_now (nodeCli_ m) (Some cmdnode) limit
    else mret ().

(** ** Replies about the topology *)

(** A reader of replies, run on the manager [asyFd] and the shared heap. *)
Definition analysis (f : RedisClientMgr → Par → bytes → An (Z * RedisClientMgr)) (asyFd : nat) (text : bytes) :
    M (Z * list nat) :=
  m ← get_mgr asyFd;
  (λ w,
    let par := {| ioThreadNum := ioThreadNum_ w; keepSecond := keepSecond_ w; connOutSecond := a_connOutSecond_ w |} in
    let sc := {| heap := clients w; ioIndex := initIoIndex w; addRedisCli := [] |} in
    let '(r, sc') := f m par text sc in
    let w' := w <| clients := heap sc' |> <| initIoIndex := ioIndex sc' |> in
    match r with
    | inr (code, m') => Some ((code, addRedisCli sc'), w' <| vectRedisCliMgr ::= <[asyFd := m']> |>)
    | inl (Return code) => Some ((code, addRedisCli sc'), w')
    | inl _ => None
    end) : M (Z * list nat).

Definition has_text (t : string) (line : bytes) : bool := bool_decide (is_Some (find_sub (lit t) line)).
Definition connected_cli (cli : option nat) : M bool := op_get (λ w, connected (clients w) cli).
(** [nodeCli_ == nullptr || nodeCli_->tcpCliState() == REDIS_CLIENT_STATE_INIT] *)
Definition node_down (m : RedisClientMgr) : M bool :=
  op_get (λ w, negb (bool_decide (is_Some (nodeCli_ m))) || (tcpCliState (clients w) (nodeCli_ m) =? REDIS_CLIENT_STATE_INIT)).
(** [run(asyncExceCallBack)] and [run(asyncStateCallBack)] with the description. *)
Definition notify_exce (asyFd : nat) (code : Z) : M () :=
  m ← get_mgr asyFd; run (asyncExceCallBack_task asyFd code (inSvrInfoStr_ m)).

Definition clusterInfoCallBack (ret : Z) (priv : option nat) (resultMsg : list bytes) : M () :=
  match priv with
  | None => mret ()
  | Some asyFd =>
      m ← get_mgr asyFd;
      if (initState_ m =? REDIS_SVR_INVALID_STATE) || negb (ret =? 0) then mret ()
      else
        text ← op_some (resultMsg !! 0%nat);
        line ← op_some (split text newline [] !! 0%nat);
        match find_char ":" line with
        | None => if initState_ m =? REDIS_SVR_ERROR_STATE then mret () else enter_state asyFd REDIS_SVR_ERROR_STATE
        | Some pos =>
            if bool_decide (drop (pos + 1) line = lit "ok") then
              if initState_ m =? REDIS_SVR_ERROR_STATE then set_state asyFd REDIS_EXCEPTION_STATE else mret ()
            else if initState_ m =? REDIS_SVR_ERROR_STATE then mret () else enter_state asyFd REDIS_SVR_ERROR_STATE
        end
  end.

(** The first connection that is up: a node's master, else its first slave. *)
Fixpoint first_up (clients : list RedisClient) (nodes : list RedisClusterNode) : option nat :=
  match nodes with
  | [] => None
  | nd :: nodes' =>
      match head (filter (λ c, connected clients c = true) (master_ (clusterNode_ nd) :: slave_ (clusterNode_ nd))) with
      | Some c => c
      | None => first_up clients nodes'
      end
  end.

(** After the new topology was stored: is the whole cluster connected? *)
Definition cluster_check (asyFd : nat) : M () :=
  m ← get_mgr asyFd;
  match all_masters_up m with
  | None => run (redisSvrMgrInvalid_task asyFd)
  | Some true => if initState_ m =? REDIS_SVR_RUNING_STATE then mret () else enter_state asyFd REDIS_SVR_RUNING_STATE
  | Some false =>
      if initState_ m =? REDIS_SVR_RUNING_STATE then
        _ ← set_state asyFd REDIS_EXCEPTION_STATE;
        _ ← notify_exce asyFd CLUSTER_NODES_CHANGE;
        notify_state asyFd REDIS_EXCEPTION_STATE
      else mret ()
  end.
(** Another connection to ask, and the two delayed questions. *)
Definition cluster_retry (asyFd : nat) : M () :=
  m ← get_mgr asyFd;
  down ← node_down m;
  _ ← (if down : bool then
         found ← op_get (λ w, first_up (clients w) (default [] (clusterVectInfo_ <$> cluterCli_ m)));
         match found with Some c => set_mgr asyFd (λ m, m <| nodeCli_ := Some c |>) | None => mret () end
       else mret ());
  _ ← run (clusterNodesUpdate_task asyFd true false);
  m ← get_mgr asyFd;
  cmdnode ← new_order (OrderNode_new (lit "CLUSTER INFO") (Some clusterInfo_cb) (Some asyFd));
  order_later (nodeCli_ m) cmdnode.
Definition clusterNodesCallBack (ret : Z) (priv : option nat) (resultMsg : list bytes) : M () :=
  match priv with
  | None => mret ()
  | Some asyFd =>
      m ← get_mgr asyFd;
      if initState_ m =? REDIS_SVR_INVALID_STATE then mret ()
      else if negb (ret =? 0) then cluster_retry asyFd
      else
        text ← op_some (resultMsg !! 0%nat);
        if existsb (has_text "master,fail") (split text newline []) then cluster_retry asyFd
        else
          '(result, added) ← analysis analysisClusterNodes asyFd text;
          if result =? 0 then _ ← op_each connect_new added; cluster_check asyFd
          else cluster_retry asyFd
  end.

Definition clusterInitCallBack (ret : Z) (priv : option nat) (resultMsg : list bytes) : M () :=
  match priv with
  | None => mret ()
  | Some asyFd =>
      m ← get_mgr asyFd;
      if initState_ m =? REDIS_SVR_INVALID_STATE then mret ()
      else if negb (ret =? 0) then run (clusterNodesUpdate_task asyFd true true)
      else
        text ← op_some (resultMsg !! 0%nat);
        '(result, added) ← analysis analysisClusterNodes asyFd text;
        if result =? 0 then
          _ ← op_each connect_new added;
          if existsb (has_text "master,fail") (split text newline []) then run (clusterNodesUpdate_task asyFd true false)
          else mret ()
        else
          _ ← run (asyncExceCallBack_task asyFd
                (if result =? ANALYSIS_STRING_FORMATE_ERROR then CLUSTER_INITSTR_FORMATE else CLUSTER_INITSTR_UNKNOWN)
                (inSvrInfoStr_ m ++ newline ++ text));
          run (clusterNodesUpdate_task asyFd true true)
  end.

(** Whether the master is connected decides the state. *)
Definition replication_check (asyFd : nat) : M () :=
  m ← get_mgr asyFd;
  if (masterConn_ m =? 1) && negb (initState_ m =? REDIS_SVR_RUNING_STATE) then enter_state asyFd REDIS_SVR_RUNING_STATE
  else if (masterConn_ m =? 0) && (initState_ m =? REDIS_SVR_RUNING_STATE) then
    let code := if slaveConn_ m =? 0 then REDIS_SVR_ERROR_STATE else REDIS_EXCEPTION_STATE in
    _ ← set_state asyFd code;
    _ ← notify_exce asyFd MASTER_SLAVE_NODES_CHANGE;
    notify_state asyFd code
  else mret ().
(** Another connection to ask, and the question again. *)
Definition replication_retry (asyFd : nat) : M () :=
  m ← get_mgr asyFd;
  down ← node_down m;
  _ ← (if down : bool then
         ms ← op_some (mSlaveCli_ m);
         up ← connected_cli (master_ ms);
         slave ← op_get (λ w, head (filter (λ c, connected (clients w) c = true) (slave_ ms)));
         match slave with
         | Some c => set_mgr asyFd (λ m, m <| nodeCli_ := c |>)
         | None => if up : bool then set_mgr asyFd (λ m, m <| nodeCli_ := master_ ms |>) else mret ()
         end
       else mret ());
  m ← get_mgr asyFd;
  run (infoReplicNodesUpdate_task asyFd (masterConn_ m =? 0)).
Definition infoReplicationCb (ret : Z) (priv : option nat) (resultMsg : list bytes) : M () :=
  match priv with
  | None => mret ()
  | Some asyFd =>
      m ← get_mgr asyFd;
      if initState_ m =? REDIS_SVR_INVALID_STATE then mret ()
      else
        text ← op_some (resultMsg !! 0%nat);
        '(result, added) ← analysis analysisSlaveNodes asyFd text;
        _ ← (if 0 <=? result then _ ← op_each connect_new added; replication_check asyFd else mret ());
        if result =? 0 then mret () else replication_retry asyFd
  end.

(** ** Adding servers *)

(** The addresses of ["ip:port,ip:port"]; the flag tells whether the end was
    reached, after an error the addresses before it stay. *)
Fixpoint parse_addrs (fuel : nat) (pBegin : bytes) : list RedisSvrInfo * bool :=
  match fuel with
  | O => ([], false)
  | S fuel' =>
      let pComma := utilFristConstchar pBegin "," in
      match utilFristConstchar pBegin ":" with
      | None => ([], false)
      | Some pColon =>
          if MAX_IP_ADDR_LEN <? Z.of_nat pColon then ([], false)
          else
            let port := drop (S pColon) pBegin in
            let len := match pComma with
                       | Some p => u64 (Z.of_nat p - Z.of_nat (S pColon))
                       | None => Z.of_nat (length (c_str port))
                       end in
            if MAX_PORT_NUM_LEN <? len then ([], false)
            else
              let info := {| port_ := atoi (c_str port); ipAddr_ := take pColon pBegin |} in
              match pComma with
              | None => ([info], true)
              | Some p => let '(l, ok) := parse_addrs fuel' (drop (S p) pBegin) in (info :: l, ok)
              end
      end
  end.

Definition redisInitConnect (asyFd : nat) : M Z :=
  cli ← get_mgr asyFd;
  let '(infos, ok) := parse_addrs (S (length (inSvrInfoStr_ cli))) (inSvrInfoStr_ cli) in
  _ ← set_mgr asyFd (λ m, m <| initSvrInfo_ ::= (.++ infos) |>);
  if negb ok then mret INIT_PARAMETER_ERROR
  else
    cli ← get_mgr asyFd;
    info ← op_some (initSvrInfo_ cli !! initSvrIndex_ cli);
    tmpRedisCli ← ((λ w,
      let tmpIoIndex := u32 (initIoIndex w + 1) in
      Some (length (clients w), w <| initIoIndex := tmpIoIndex |>
        <| clients ::= (.++ [RedisClient_new (Z.to_nat (tmpIoIndex mod ioThreadNum_ w)) (m_mgrFd_ cli) info
                               (keepSecond_ w) (a_connOutSecond_ w)]) |>)) : M nat);
    _ ← set_mgr asyFd (λ m, m <| nodeCli_ := Some tmpRedisCli |>);
    _ ← connect_new tmpRedisCli;
    mret INIT_SUCCESS_CODE.

(** [addSigleRedisInfo], [addMasterSlaveInfo], [addClusterInfo] differ in the type. *)
Definition add_info (svrType : Z) (ipPortInfo auth : bytes) : M Z :=
  ready ← op_get (λ w, negb ((callBackNum_ w =? 0) || (ioThreadNum_ w =? 0) || (keepSecond_ w =? 0) || (a_connOutSecond_ w =? 0)));
  if negb ready then mret INIT_NO_INIT_ERROR
  else
    asyFd ← op_get (λ w, length (vectRedisCliMgr w));
    _ ← op_mod (λ w, w <| vectRedisCliMgr ::= (.++ [RedisClientMgr_new <| inSvrInfoStr_ := ipPortInfo |>
      <| auth_ := auth |> <| svrType_ := svrType |> <| m_mgrFd_ := asyFd |>]) |>);
    ret ← redisInitConnect asyFd;
    mret (if ret <? 0 then ret else Z.of_nat asyFd).
Definition addSigleRedisInfo : bytes → bytes → M Z := add_info REDIS_SINGLE_SERVER.
Definition addMasterSlaveInfo : bytes → bytes → M Z := add_info REDIS_MASTER_SLAVE_SERVER.
Definition addClusterInfo : bytes → bytes → M Z := add_info REDIS_CLUSTER_SERVER.

(** ** Commands *)

(** The connection a command goes to, or the code it is refused with. *)
Definition route (m : RedisClientMgr) (clients : list RedisClient) (key : bytes) : Z + option nat :=
  if svrType_ m =? REDIS_UNKNOWN_SERVER then inl CMD_SVR_INVALID_CODE
  else if (svrType_ m =? REDIS_SINGLE_SERVER) || (svrType_ m =? REDIS_MASTER_SLAVE_SERVER) then inr (nodeCli_ m)
  else if svrType_ m =? REDIS_CLUSTER_SERVER then
    let slot := getKeySlotIndex key in
    if REDIS_CLUSTER_MAX_SLOT <? slot then inl CMD_SLOTS_CALCUL_ERROR_CODE
    else match cluterCli_ m with
         | None => inl CMD_SVR_INVALID_CODE
         | Some info =>
             match clusterSlotMap_ info !! slot with
             | None => inl CMD_SVR_NODES_DOWN
             | Some c =>
                 if tcpCliState clients (Some c) =? REDIS_CLIENT_STATE_INIT then inr (getRedisClient_slot clients m slot)
                 else inr (Some c)
             end
         end
  else inl CMD_SVR_INVALID_CODE.

Definition redisAsyncCommand (asyFd : Z) (cb : option Callback) (outSecond : Z) (priv : option nat)
    (key cmdStr : bytes) : M Z :=
  if (asyFd <? 0) || bool_decide (key = []) || bool_decide (cmdStr = []) || (outSecond =? 0) then
    mret CMD_PARAMETER_ERROR_CODE
  else
    found ← op_get (λ w, vectRedisCliMgr w !! Z.to_nat asyFd);
    match found with
    | None => mret CMD_PARAMETER_ERROR_CODE
    | Some m =>
        if (initState_ m =? REDIS_SVR_INIT_STATE) || (initState_ m =? REDIS_SVR_ERROR_STATE) ||
           (initState_ m =? REDIS_SVR_INVALID_STATE) then mret CMD_SVR_STATE_ERROR_CODE
        else
          target ← op_get (λ w, route m (clients w) key);
          match target with
          | inl code => mret code
          | inr redisClient =>
              down ← op_get (λ w, negb (bool_decide (is_Some redisClient)) ||
                                  (tcpCliState (clients w) redisClient =? REDIS_CLIENT_STATE_INIT));
              if down : bool then mret CMD_SVR_NODES_DOWN
              else
                limit ← time_limit outSecond;
                cmdOrder ← new_order (with_limit outSecond limit (OrderNode_new cmdStr cb priv));
                _ ← order_now redisClient (Some cmdOrder) limit;
                mret 0
          end
    end.

(** The formatted command of hiredis, [None] when it cannot be formatted. *)
Definition redisAsyncCommand_format (asyFd : Z) (cb : option Callback) (outSecond : Z) (priv : option nat)
    (key : bytes) (formatted : option bytes) : M Z :=
  match formatted with
  | None => mret CMD_PARAMETER_ERROR_CODE
  | Some cmd => redisAsyncCommand asyFd cb outSecond priv key (c_str cmd)
  end.
Definition set_cmd (asyFd : Z) (key value : bytes) (outSecond : Z) (cb : option Callback) (priv : option nat) : M Z :=
  cmdBuf ← sprintf1024 (lit "set " ++ c_str key ++ lit " " ++ c_str value);
  redisAsyncCommand asyFd cb outSecond priv key cmdBuf.

(** ** The callback pool *)

Definition redisSvrMgrInvalid (asyFd : nat) : M () :=
  m ← get_mgr asyFd;
  let of_ms ms := master_ ms :: slave_ ms in
  let all := nodeCli_ m :: default [] (of_ms <$> mSlaveCli_ m) ++
             concat ((of_ms ∘ clusterNode_) <$> default [] (clusterVectInfo_ <$> cluterCli_ m)) in
  _ ← op_each (λ cli, match cli with
                      | Some c => set_cli c (λ k, k <| releaseState_ := 1 |>)
                      | None => mret ()
                      end) all;
  _ ← set_mgr asyFd (λ m, m <| mSlaveCli_ := None |> <| cluterCli_ := None |>);
  enter_state asyFd REDIS_SVR_INVALID_STATE.

Definition prefix_of_state (stateCode : Z) : bytes :=
  if stateCode =? REDIS_SVR_INIT_STATE then lit "init state "
  else if stateCode =? REDIS_SVR_RUNING_STATE then lit "running ok "
  else if stateCode =? REDIS_EXCEPTION_STATE then lit "part exception "
  else if stateCode =? REDIS_SVR_ERROR_STATE then lit "error state "
  else if stateCode =? REDIS_SVR_INVALID_STATE then lit "redis svr invalid state "
  else lit "unknow state ".
Definition asyncStateCallBack (asyFd : nat) (stateCode : Z) (stateMsg : bytes) : M () :=
  cb ← op_get stateCb_;
  if cb : bool then
    buf ← sprintf1024 (prefix_of_state stateCode ++ c_str stateMsg); emit (StateChange asyFd stateCode buf)
  else mret ().
Definition text_of_exce (exceCode : Z) (msg : bytes) : bytes :=
  if exceCode =? EXCE_MALLOC_NULL then lit "new or malloc nullptr " ++ msg
  else if exceCode =? SVR_CONNECT_RESET then lit "connect failed " ++ msg
  else if exceCode =? SVR_CONECT_DISCONNECT then lit "connect had been disconnect " ++ msg
  else if exceCode =? CLUSTER_NODES_CHANGE then lit "cluster nodes change " ++ msg
  else if exceCode =? UNKOWN_REDIS_SVR_TYPE then lit "redis svr type unknow " ++ msg
  else if exceCode =? MASTER_SLAVE_NODES_CHANGE then lit "master cluster nodes change " ++ msg
  else if exceCode =? CLUSTER_INITSTR_FORMATE then lit "cluster nodes str error " ++ msg
  else if exceCode =? CLUSTER_INITSTR_UNKNOWN then lit "cluster nodes str unkown error " ++ msg
  else msg ++ lit " unkown exception".
Definition asyncExceCallBack (asyFd : nat) (exceCode : Z) (exceMsg : bytes) : M () :=
  cb ← op_get exceCb_;
  if cb : bool then
    buf ← sprintf1024 (text_of_exce exceCode (c_str exceMsg)); emit (Exception asyFd exceCode buf)
  else mret ().

(** [node->resultCb_(...)] *)
Definition call_back (cb : Callback) (ret : Z) (priv : option nat) (result : list bytes) : M () :=
  match cb with
  | user_cb _ => mret ()
  | clusterInfo_cb => clusterInfoCallBack ret priv result
  | clusterNodes_cb => clusterNodesCallBack ret priv result
  | clusterInit_cb => clusterInitCallBack ret priv result
  | infoReplication_cb => infoReplicationCb ret priv result
  end.
Definition cmdReplyCallPool : M () :=
  results ← op_get cmdResults;
  match results with
  | [] => mret ()
  | o :: rest =>
      _ ← op_mod (λ w, w <| cmdResults := rest |>);
      node ← get_order o;
      match resultCb_ node with
      | None => mret ()
      | Some cb =>
          _ ← op_mod (λ w, w <| asyncCmdNum ::= λ n, (decrement s32 n).2 |>);
          _ ← emit (Called o cb (cmdRet_ node) (cmdResult_ node));
          call_back cb (cmdRet_ node) (cmdPri_ node) (cmdResult_ node)
      end
  end.

Definition run_task (t : Task) : M () :=
  match t with
  | cmdReplyCallPool_task => cmdReplyCallPool
  | asyncStateCallBack_task fd code msg => asyncStateCallBack fd code msg
  | asyncExceCallBack_task fd code msg => asyncExceCallBack fd code msg
  | redisSvrMgrInvalid_task fd => redisSvrMgrInvalid fd
  | clusterNodesUpdate_task fd isDelay isInit => clusterNodesUpdate fd isDelay isInit
  | infoReplicNodesUpdate_task fd isDelay => infoReplicNodesUpdate fd isDelay
  end.
(** A thread of the pool takes a task; several run, so any may come first. *)
Definition pool_task (n : nat) : M () :=
  pool ← op_find callBackPoolPtr;
  t ← op_some (pool !! n);
  _ ← op_mod (λ w, w <| callBackPoolPtr := Some (delete n pool) |>);
  run_task t.

(** ** The timer thread *)

Definition timer_begin (now : Z) : M () :=
  stopped ← op_get (λ w, timerExit_ w || dealing w);
  if stopped : bool then op_undefined
  else op_mod (λ w, w <| nowSecond_ := now |> <| dealing := true |>
                      <| libeventIoPtrVect ::= fmap (libeventIoWakeup now) |>).
(** One round of the loop over the list. *)
Definition timer_round : M () :=
  busy ← op_get dealing;
  if negb busy then op_undefined
  else
    now ← op_get nowSecond_;
    '(node, rest) ← op_get (λ w, dealTimerOrder now (timerOrders w));
    _ ← op_mod (λ w, w <| timerOrders := rest |>);
    match node with
    | None => op_mod (λ w, w <| dealing := false |>)
    | Some node =>
        match n_cmdOrd_ node with
        | None => order_now (n_cli_ node) None 0
        | Some o =>
            _ ← get_order o;
            let limit := u64 (now + DEFAULT_CMD_OUTSECOND) in
            _ ← set_order o (with_limit DEFAULT_CMD_OUTSECOND limit);
            order_now (n_cli_ node) (Some o) limit
        end
    end.

(** ** The module as a whole *)

Inductive Event :=
  | EvInit (threadNum callbackNum connOutSecond keepSecond : Z) (statecb excecb : bool) (now : Z)
  | EvAddSingle (ipPortInfo auth : bytes) | EvAddMasterSlave (ipPortInfo auth : bytes)
  | EvAddCluster (ipPortInfo auth : bytes)
  | EvUpdate (asyFd : Z)
  | EvCommand (asyFd : Z) (cb : option nat) (outSecond : Z) (priv : option nat) (key cmdStr : bytes)
  | EvReady (io : nat) (ok : bool) | EvReturn (io : nat)
  | EvRead (io : nat) | EvRound (io : nat) (ans : IoAns)
  | EvTimeout (c : nat) (sync : option bytes)
  | EvConnected (c : nat) (failed : option bytes) (now : Z)
  | EvDisconnected (c : nat) (errstr : bytes)
  | EvReply (c : nat) (seq : Z) (reply : option redisReply)
  | EvTick (now : Z) | EvTimer
  | EvTask (n : nat)
  | EvExit | EvExitEnd.

Definition handle (e : Event) : M Z :=
  match e with
  | EvInit a b c d s x now => redisAsyncInit a b c d s x now
  | EvAddSingle info auth => addSigleRedisInfo info auth
  | EvAddMasterSlave info auth => addMasterSlaveInfo info auth
  | EvAddCluster info auth => addClusterInfo info auth
  | EvUpdate fd => _ ← updateNodesInfo fd; mret 0
  | EvCommand fd cb out priv key cmd => redisAsyncCommand fd (user_cb <$> cb) out priv key cmd
  | EvReady i ok => _ ← libeventIoReady i ok; mret 0
  | EvReturn i => _ ← io_return i; mret 0
  | EvRead i => _ ← handleRead_begin i; mret 0
  | EvRound i ans => _ ← handleRead_round i ans; mret 0
  | EvTimeout c sync => _ ← connectTimeout c sync; mret 0
  | EvConnected c failed now => _ ← connectCallback c failed now; mret 0
  | EvDisconnected c err => _ ← disconnectCallback c err; mret 0
  | EvReply c seq reply => _ ← cmdCallback c seq reply; mret 0
  | EvTick now => _ ← timer_begin now; mret 0
  | EvTimer => _ ← timer_round; mret 0
  | EvTask n => _ ← pool_task n; mret 0
  | EvExit => _ ← exit_begin; mret 0
  | EvExitEnd => _ ← exit_end; mret 0
  end.

(** Events one after the other; the last result. *)
Fixpoint run_events (l : list Event) (w : World) : option World :=
  match l with
  | [] => Some w
  | e :: l' => match handle e w with Some (_, w') => run_events l' w' | None => None end
  end.
Inductive reachable : World → Prop :=
  | reach_init : reachable RedisAsync_new
  | reach_step w e r w' : reachable w → handle e w = Some (r, w') → reachable w'.

End RedisAsync.
