(* ===== verification/RedisProofs.v ===== *)
(** * Guarantees of the asynchronous Redis client

    Whatever the threads, the servers and the network do, an order that somebody
    waits for stays in a place that is looked at until its callback has run. *)

From S2P Require Import Prelude CLib Incommon Atomic HashSlot RedisTopo TcpCli RedisWorld RedisConn RedisAsync.
Import RedisTools RedisTopo RedisWorld RedisConn RedisAsync.

Module RedisProofs.

(** ** Where an order is *)

(** Somebody waits for order [o]. *)
Definition needs (o : nat) (w : World) : Prop := ∃ ord, orders w !! o = Some ord ∧ is_Some (resultCb_ ord).
Definition for_order (o : nat) (n : RedisCliOrderNode) : Prop := n_cmdOrd_ n = Some o.
Definition in_timer (o : nat) (w : World) : Prop := Exists (for_order o) (timerOrders w).
Definition in_queue (o : nat) (w : World) : Prop := Exists (λ io, Exists (for_order o) (orderDeque_ io)) (libeventIoPtrVect w).
Definition in_flight (o : nat) (w : World) : Prop := Exists (λ k, o ∈ (cmdSeqOrderMap_ k).*2) (clients w).
Definition called (o : nat) (w : World) : Prop := ∃ cb ret result, Called o cb ret result ∈ outs w.
Definition tracked (o : nat) (w : World) : Prop :=
  in_timer o w ∨ in_queue o w ∨ in_flight o w ∨ o ∈ cmdResults w ∨ called o w.

(** ** The invariant

    Sequence numbers are fresh as long as a connection has sent fewer than [2^32]
    commands; orders in the queues of the IO threads have a connection; the odd
    number that ends an IO thread is only written at exit. *)

Definition sent_on (c : nat) (x : Out) : Prop := match x with Sent c' _ => c' = c | _ => False end.
#[export] Instance sent_on_dec c x : Decision (sent_on c x).
Proof. destruct x; cbn; apply _. Defined.
Definition sent (c : nat) (w : World) : Z := Z.of_nat (length (filter (sent_on c) (outs w))).
Definition few (w : World) : Prop := ∀ c, sent c w < 2 ^ 32.

Definition seq_ok (n : Z) (k : RedisClient) : Prop :=
  0 <= cmdSeq_ k <= n ∧ Forall (λ p, p.1 < cmdSeq_ k) (cmdSeqOrderMap_ k).
Definition node_ok (n : RedisCliOrderNode) : Prop := is_Some (n_cmdOrd_ n) → is_Some (n_cli_ n).
Definition odd_io (io : LibeventIo) : Prop :=
  Z.odd (wakeupFd io) = true ∨ match pc io with Draining one => Z.odd one = true | Broken => True | _ => False end.

Record Inv (w : World) : Prop := {
  i_seq : ∀ c k, clients w !! c = Some k → seq_ok (sent c w) k;
  i_node : ∀ i io, libeventIoPtrVect w !! i = Some io → Forall node_ok (orderDeque_ io);
  i_exit : ∀ i io, libeventIoPtrVect w !! i = Some io → odd_io io → isExit_ w = true }.

(** Everything waited for is tracked, except the orders in [H], which the
    operation has in its hands. *)
Record Held (H : list nat) (w : World) : Prop := {
  h_inv : Inv w;
  h_held : ∀ o, needs o w → o ∈ H ∨ tracked o w }.

(** [m] takes the orders in hand from [H] to [H']. *)
Definition holds (H : list nat) {A} (m : M A) (H' : A → list nat) : Prop := ∀ w a w',
  m w = Some (a, w') → outs w `prefix_of` outs w' ∧ (few w' → Held H w → Held (H' a) w').

Lemma sent_prefix c w w' : outs w `prefix_of` outs w' → sent c w <= sent c w'.
Proof. intros [l E]. unfold sent. rewrite E, filter_app, length_app. lia. Qed.
Lemma few_prefix w w' : outs w `prefix_of` outs w' → few w' → few w.
Proof. intros Hp Hf c. pose proof (sent_prefix c w w' Hp). specialize (Hf c). lia. Qed.

Lemma holds_ret {A} H (a : A) : holds H (mret a) (λ _, H).
Proof. by intros w b w' [= <- <-]. Qed.
Lemma holds_bind {A B} H (m : M A) (H1 : A → list nat) (k : A → M B) H2 :
  holds H m H1 → (∀ a, holds (H1 a) (k a) H2) → holds H (m ≫= k) H2.
Proof.
  intros Hm Hk w b w'. unfold mbind, Op_bind. destruct (m w) as [[a w1]|] eqn:E; [|done].
  intros Ek. destruct (Hm _ _ _ E) as [P1 Q1], (Hk _ _ _ _ Ek) as [P2 Q2].
  split; [by etrans|]. intros Hf Hh. apply Q2; [done|]. apply Q1; [by eapply few_prefix|done].
Qed.
(** Nothing in particular in hand. *)
Lemma holds_seq {A B} H (m : M A) (k : A → M B) H2 :
  holds H m (λ _, H) → (∀ a, holds H (k a) H2) → holds H (m ≫= k) H2.
Proof. intros. by eapply holds_bind. Qed.
Lemma Held_sub H H' w : (∀ o, o ∈ H → o ∈ H' ∨ tracked o w) → Held H w → Held H' w.
Proof. intros HS [Hi Hh]. split; [done|]. intros o Ho. destruct (Hh o Ho) as [?|?]; [by apply HS|by right]. Qed.
Lemma holds_undefined {A} H (H' : A → list nat) : holds H op_undefined H'.
Proof. intros w a w' [=]. Qed.
Lemma holds_get {A} H (f : World → A) : holds H (op_get f) (λ _, H).
Proof. by intros w a w' [= <- <-]. Qed.
Lemma holds_some {A} H (o : option A) : holds H (op_some o) (λ _, H).
Proof. intros w a w'. unfold op_some. destruct o; [by intros [= <- <-]|done]. Qed.
Lemma holds_find {A} H (f : World → option A) : holds H (op_find f) (λ _, H).
Proof. intros w a w'. unfold op_find. destruct (f w); [by intros [= <- <-]|done]. Qed.
Lemma holds_each {A} H (f : A → M ()) l : (∀ x, holds H (f x) (λ _, H)) → holds H (op_each f l) (λ _, H).
Proof. intros Hf. induction l; cbn; [apply holds_ret|by apply holds_seq]. Qed.
Lemma holds_if {A} H (b : bool) (m n : M A) H' : holds H m H' → holds H n H' → holds H (if b then m else n) H'.
Proof. by destruct b. Qed.

(** ** The steps *)

Lemma Exists_alter {A} (P : A → Prop) f i (l : list A) : (∀ x, P x → P (f x)) → Exists P l → Exists P (alter f i l).
Proof.
  intros Hf H. revert i. induction H as [x l Hx|x l H IH]; intros [|i]; cbn; [left; auto|by left|by right|right; apply IH].
Qed.
Lemma Exists_app_l {A} (P : A → Prop) (l k : list A) : Exists P l → Exists P (l ++ k).
Proof. intros. apply Exists_app. by left. Qed.
Lemma Exists_alter_here {A} (P : A → Prop) f i (l : list A) x : l !! i = Some x → P (f x) → Exists P (alter f i l).
Proof. intros Hi Hx. apply Exists_exists. exists (f x). split; [|done]. apply list_elem_of_lookup. exists i. by rewrite list_lookup_alter_eq, Hi. Qed.
Lemma alter_lookup {A} f i j (l : list A) y : alter f i l !! j = Some y →
  l !! j = Some y ∨ (i = j ∧ ∃ x, l !! j = Some x ∧ y = f x).
Proof.
  destruct (decide (i = j)) as [->|Hn]; [rewrite list_lookup_alter_eq|rewrite list_lookup_alter_ne by done; by left].
  destruct (l !! j) as [x|]; [|done]. intros [= <-]. eauto.
Qed.

(** What may happen to the parts of the state while nothing is taken. *)
Lemma Held_mono H w w' :
  (few w' → Inv w → Inv w') → (∀ o, needs o w' → needs o w ∨ o ∈ H ∨ tracked o w') →
  (∀ o, tracked o w → tracked o w') → few w' → Held H w → Held H w'.
Proof.
  intros HI HN HT Hf [Hi Hh]. split; [auto|]. intros o Ho.
  destruct (HN o Ho) as [Hw|?]; [|done]. destruct (Hh o Hw); eauto.
Qed.

Lemma holds_mgr H fd f : holds H (set_mgr fd f) (λ _, H).
Proof. intros w [] w' [= <-]. split; [done|]. intros _ [[] ?]. split; [by split|done]. Qed.

Definition quiet_cli (f : RedisClient → RedisClient) : Prop :=
  ∀ k, cmdSeq_ (f k) = cmdSeq_ k ∧ cmdSeqOrderMap_ (f k) = cmdSeqOrderMap_ k.
Lemma holds_cli H c f : quiet_cli f → holds H (set_cli c f) (λ _, H).
Proof.
  intros Hq w [] w' [= <-]. split; [done|]. apply Held_mono; [|eauto|].
  - intros _ [I1 I2 I3]. split; [|done|done]. intros j k Hj. cbn in Hj.
    apply alter_lookup in Hj as [Hj|(-> & k0 & Hj & ->)]; [by apply I1|].
    specialize (I1 _ _ Hj). destruct (Hq k0) as [E1 E2]. unfold seq_ok. by rewrite E1, E2.
  - intros o [?|[?|[Hf|?]]]; [by left|by right; left| |by do 3 right].
    right; right; left. apply Exists_alter; [|done]. intros k. by destruct (Hq k) as [_ ->].
Qed.

Lemma holds_order H o f : (∀ ord, resultCb_ (f ord) = resultCb_ ord) → holds H (set_order o f) (λ _, H).
Proof.
  intros Hq w [] w' [= <-]. split; [done|]. apply Held_mono; [by intros _ []|..|by eauto].
  intros o' (ord & Ho & Hc). left. cbn in Ho.
  apply alter_lookup in Ho as [Ho|(-> & ord0 & Ho & ->)]; [by exists ord|].
  exists ord0. split; [done|]. by rewrite <- Hq.
Qed.

Definition quiet_io (f : LibeventIo → LibeventIo) : Prop :=
  ∀ io, orderDeque_ (f io) = orderDeque_ io ∧ (odd_io (f io) → odd_io io).
Lemma holds_io H i f : quiet_io f → holds H (set_io i f) (λ _, H).
Proof.
  intros Hq w [] w' [= <-]. split; [done|]. apply Held_mono; [|by eauto|].
  - intros _ [I1 I2 I3]. split; [done|..]; intros j io Hj; cbn in Hj;
      apply alter_lookup in Hj as [Hj|(-> & io0 & Hj & ->)]; [by eapply I2| |by eapply I3|].
    + destruct (Hq io0) as [-> _]. by eapply I2.
    + intros Ho. apply (I3 _ _ Hj). by apply Hq.
  - intros o [?|[Hf|?]]; [by left| |by do 2 right].
    right; left. apply Exists_alter; [|done]. intros io. by destruct (Hq io) as [-> _].
Qed.

Lemma holds_emit H x : holds H (emit x) (λ _, H).
Proof.
  intros w [] w' [= <-]. assert (Hp : outs w `prefix_of` outs w ++ [x]) by (by apply prefix_app_r).
  split; [done|]. apply Held_mono; [|by eauto|].
  - intros _ [I1 I2 I3]. split; [|done|done]. intros j k Hj. destruct (I1 _ _ Hj) as [[? ?] ?].
    pose proof (sent_prefix j w (w <| outs ::= (.++ [x]) |>) Hp). unfold seq_ok. split; [lia|done].
  - intros o [?|[?|[?|[?|(cb & r & l & Hc)]]]]; [by left|by right; left|by do 2 right; left|by do 3 right; left|].
    do 4 right. exists cb, r, l. apply elem_of_app. by left.
Qed.

Lemma holds_run H t : holds H (run t) (λ _, H).
Proof.
  intros w [] w'. unfold run. destruct (callBackPoolPtr w); [|done]. intros [= <-].
  split; [done|]. intros _ [[] ?]. split; [by split|done].
Qed.
Lemma holds_count H f : holds H (op_mod (λ w, w <| asyncCmdNum ::= f |>)) (λ _, H).
Proof. intros w [] w' [= <-]. split; [done|]. intros _ [[] ?]. split; [by split|done]. Qed.

(** ** Orders in hand *)

Definition hand (node : RedisCliOrderNode) : list nat := match n_cmdOrd_ node with Some o => [o] | None => [] end.
Lemma elem_of_hand o node : o ∈ hand node ↔ for_order o node.
Proof. unfold hand, for_order. destruct (n_cmdOrd_ node) as [o'|]; [rewrite list_elem_of_singleton|]; set_solver. Qed.

Lemma holds_new H ord : holds H (new_order ord) (λ o, o :: H).
Proof.
  intros w o w' [= <- <-]. split; [done|]. intros _ [[I1 I2 I3] Hh]. split; [by split|].
  intros o (ord' & Ho & Hc). cbn in Ho. apply lookup_app_Some in Ho as [Ho|[? Ho]].
  - destruct (Hh o); [by exists ord'|left; by right|by right].
  - apply list_lookup_singleton_Some in Ho as [? <-]. left. replace o with (length (orders w)) by lia. left.
Qed.

(** An order in hand that has come to a place. *)
Lemma Held_put H o w w' :
  (few w' → Inv w → Inv w') → (∀ o', needs o' w' → needs o' w) → tracked o w' →
  (∀ o', tracked o' w → tracked o' w') → few w' → Held (o :: H) w → Held H w'.
Proof.
  intros HI HN Ho HT Hf [Hi Hh]. split; [auto|]. intros o' Hn. destruct (Hh o' (HN _ Hn)) as [Hin|?]; [|by right; auto].
  apply elem_of_cons in Hin as [->|?]; auto.
Qed.
Lemma holds_insertCmdResult H o : holds (o :: H) (insertCmdResult o) (λ _, H).
Proof.
  apply holds_seq with (H := H) (m := op_mod _) || eapply (holds_bind _ _ (λ _, H)); [|intros; apply holds_run].
  intros w [] w' [= <-]. split; [done|]. apply Held_put; [by intros _ []|done|..].
  - do 3 right; left. cbn. set_solver.
  - intros o' [?|[?|[?|[?|?]]]]; [by left|by right; left|by do 2 right; left| |by do 4 right].
    do 3 right; left. cbn. set_solver.
Qed.
(** The same for an order that is tracked anyway. *)
Lemma holds_insertCmdResult_again H o : holds H (insertCmdResult o) (λ _, H).
Proof.
  intros w a w' E. destruct (holds_insertCmdResult H o w a w' E) as [Hp HQ]. split; [done|].
  intros Hf Hh. apply HQ; [done|]. eapply Held_sub; [|done]. intros ? ?. left. by right.
Qed.

Lemma insertTimerOrder_Permutation node l : insertTimerOrder node l ≡ₚ node :: l.
Proof.
  assert (Hb : ∀ l, insert_before node l ≡ₚ node :: l).
  { induction l0 as [|x l0 IH]; cbn; [done|]. case_match; [done|]. rewrite IH. constructor. }
  unfold insertTimerOrder. destruct l; [done|]. case_match; [done|apply Hb].
Qed.
Lemma holds_insert_timer H node : holds (hand node ++ H) (insert_timer node) (λ _, H).
Proof.
  intros w [] w' [= <-]. split; [done|]. intros Hf [[I1 I2 I3] Hh]. split; [by split|].
  assert (HP : ∀ o, for_order o node ∨ in_timer o w → in_timer o (w <| timerOrders ::= insertTimerOrder node |>)).
  { intros o Ho. unfold in_timer. cbn. rewrite insertTimerOrder_Permutation. apply Exists_cons. tauto. }
  intros o Ho. destruct (Hh o Ho) as [Hin|[?|?]]; [|right; left; auto|right; by right].
  apply elem_of_app in Hin as [Hin%elem_of_hand|?]; [right; left; auto|by left].
Qed.

Lemma odd_wakeup n : Z.odd (TcpCli.eventfd_write 2 n) = Z.odd n.
Proof. unfold TcpCli.eventfd_write. case_match; [|done]. rewrite Z.odd_add. by destruct (Z.odd n). Qed.
Lemma quiet_wakeup now : quiet_io (libeventIoWakeup now).
Proof. intros io. split; [done|]. intros [Ho|Ho]; [left; by rewrite <- (odd_wakeup (wakeupFd io))|by right]. Qed.

Lemma holds_push H i node w :
  is_Some (libeventIoPtrVect w !! i) → node_ok node → Held (hand node ++ H) w →
  Held H (w <| libeventIoPtrVect ::= alter (orderNodeInsert node) i |>).
Proof.
  intros [io Hio] Hn [[I1 I2 I3] Hh]. split; [split; [done|..]|]; cbn.
  - intros j io' Hj. apply alter_lookup in Hj as [Hj|(<- & io0 & Hj & ->)]; [by eapply I2|].
    cbn. apply Forall_app. split; [by eapply I2|by constructor].
  - intros j io' Hj. apply alter_lookup in Hj as [Hj|(<- & io0 & Hj & ->)]; [by eapply I3|].
    intros Ho. by apply (I3 _ _ Hj).
  - assert (HP : ∀ o, for_order o node ∨ in_queue o w →
              in_queue o (w <| libeventIoPtrVect ::= alter (orderNodeInsert node) i |>)).
    { intros o [Ho|Ho]; cbn.
      - apply (Exists_alter_here _ _ _ _ io); [done|]. cbn. apply Exists_app. right. by left.
      - apply Exists_alter; [|done]. intros io' Hq. cbn. by apply Exists_app_l. }
    intros o Ho. destruct (Hh o Ho) as [Hin|[?|[?|?]]]; [|right; by left|right; right; left; auto|right; by do 2 right].
    apply elem_of_app in Hin as [Hin%elem_of_hand|?]; [right; right; left; auto|by left].
Qed.

Lemma holds_push_order H i node : node_ok node → holds (hand node ++ H) (push_order i node) (λ _, H).
Proof.
  intros Hn w [] w' E. unfold push_order, get_io, op_find, mbind, Op_bind in E.
  destruct (libeventIoPtrVect w !! i) eqn:Ei; [|done]. injection E as <-. split; [done|].
  intros _. apply holds_push; [by rewrite Ei|done].
Qed.

Lemma holds_has_callback H o : holds H (has_callback o) (λ _, H).
Proof. destruct o; [apply holds_seq; [apply holds_find|]|]; intros; apply holds_ret. Qed.
Lemma holds_libeventIoOrder H i node now :
  node_ok node → holds (hand node ++ H) (libeventIoOrder i node now) (λ _, H).
Proof.
  intros Hn. apply holds_seq with (H := hand node ++ H); [apply holds_has_callback|]. intros counted.
  apply holds_seq with (H := hand node ++ H); [destruct counted; [apply holds_count|apply holds_ret]|]. intros _.
  eapply holds_bind; [by apply holds_push_order|]. intros. apply holds_io, quiet_wakeup.
Qed.

(** ** Operations that take nothing *)

Create HintDb holds.
#[local] Hint Resolve holds_ret holds_undefined holds_get holds_some holds_find holds_mgr holds_run holds_emit
  holds_count holds_has_callback holds_insertCmdResult holds_insertCmdResult_again : holds.
#[local] Hint Extern 1 (holds _ (set_cli _ _) _) => apply holds_cli; by intros [] : holds.
#[local] Hint Extern 1 (holds _ (set_order _ _) _) => apply holds_order; by intros [] : holds.
#[local] Hint Extern 1 (holds _ (set_io _ _) _) => apply holds_io; by intros [] : holds.
Ltac holds_step :=
  first
    [ solve [auto with holds]
    | apply holds_if
    | apply holds_each; intros ?
    | apply holds_seq; [|intros ?]
    | match goal with
      | |- holds _ (match ?x with _ => _ end) _ => destruct x
      | |- holds _ (if ?b then _ else _) _ => destruct b
      end ].
Ltac holds_auto := repeat holds_step.

Lemma holds_insert_connect H t c : holds H (insert_timer {| n_outSecond_ := t; n_cli_ := c; n_cmdOrd_ := None |}) (λ _, H).
Proof. apply (holds_insert_timer H {| n_outSecond_ := t; n_cli_ := c; n_cmdOrd_ := None |}). Qed.
#[local] Hint Resolve holds_insert_connect : holds.
Lemma holds_reconnect H fd ip port t : holds H t (λ _, H) → holds H (reconnect fd ip port t) (λ _, H).
Proof. intros Ht. unfold reconnect, get_mgr. holds_auto. Qed.
Lemma holds_reconnectAtOnece H fd ip port : holds H (reconnectAtOnece fd ip port) (λ _, H).
Proof. apply holds_reconnect, holds_ret. Qed.
Lemma holds_delayReconnect H fd ip port : holds H (delayReconnect fd ip port) (λ _, H).
Proof. apply holds_reconnect, holds_get. Qed.
Lemma holds_sprintf H s : holds H (sprintf1024 s) (λ _, H).
Proof. unfold sprintf1024. holds_auto. Qed.
Lemma holds_exceMsgBuf H ip port err : holds H (exceMsgBuf ip port err) (λ _, H).
Proof. apply holds_sprintf. Qed.
#[local] Hint Resolve holds_reconnectAtOnece holds_delayReconnect holds_sprintf holds_exceMsgBuf : holds.

Lemma holds_redisSvrOnConnect H fd state ip port err : holds H (redisSvrOnConnect fd state ip port err) (λ _, H).
Proof.
  unfold redisSvrOnConnect, onConnect_single, onConnect_ms, onConnect_cluster, run_when_all_up, cluster_disconnected,
    master_lost, enter_state, notify_state, set_state, report, ms_conns, cluster_conns, get_mgr. holds_auto.
Qed.
Lemma holds_on_connect H c state err : holds H (on_connect c state err) (λ _, H).
Proof. unfold on_connect, get_cli. apply holds_seq; [apply holds_find|]. intros. apply holds_redisSvrOnConnect. Qed.
#[local] Hint Resolve holds_redisSvrOnConnect holds_on_connect : holds.

Lemma holds_finish_order H o f : (∀ ord, resultCb_ (f ord) = resultCb_ ord) → holds H (finish_order o f) (λ _, H).
Proof. intros Hf. unfold finish_order. holds_auto. Qed.
#[local] Hint Extern 1 (holds _ (finish_order _ _) _) => apply holds_finish_order; by intros [] : holds.
Lemma holds_disConnect_with H c b m : holds H m (λ _, H) → holds H (disConnect_with c b m) (λ _, H).
Proof. intros Hm. unfold disConnect_with, clearCmdReqBuf, freeTimeEvent, get_cli. holds_auto. Qed.
Lemma holds_disconnectCallback H c err : holds H (disconnectCallback c err) (λ _, H).
Proof.
  unfold disconnectCallback, get_cli. apply holds_seq; [apply holds_find|intros k].
  apply holds_seq; [apply holds_disConnect_with, holds_ret|intros _; apply holds_on_connect].
Qed.
Lemma holds_disConnect H c b sync : holds H (disConnect c b sync) (λ _, H).
Proof. apply holds_disConnect_with. destruct sync; [apply holds_disconnectCallback|apply holds_ret]. Qed.
#[local] Hint Resolve holds_disconnectCallback holds_disConnect : holds.
Lemma holds_connectTimeout H c sync : holds H (connectTimeout c sync) (λ _, H).
Proof. unfold connectTimeout, get_cli. holds_auto. Qed.
Lemma holds_connectCallback H c failed now : holds H (connectCallback c failed now) (λ _, H).
Proof. unfold connectCallback, setStateConnected, freeTimeEvent, get_cli. holds_auto. Qed.
Lemma holds_connectServer H c b ans : holds H (connectServer c b ans) (λ _, H).
Proof. unfold connectServer, get_cli. holds_auto. Qed.
#[local] Hint Resolve holds_connectTimeout holds_connectCallback holds_connectServer : holds.

(** ** Orders that change places *)

Lemma finish_order_spec o f w a w' :
  (∀ ord, resultCb_ (f ord) = resultCb_ ord) → finish_order o f w = Some (a, w') →
  clients w' = clients w ∧ cmdResults w `prefix_of` cmdResults w' ∧
  (needs o w' → o ∈ cmdResults w') ∧ ∀ o', needs o' w' → needs o' w.
Proof.
  intros Hf. unfold finish_order, has_callback, get_order, op_find, mbind, Op_bind.
  destruct (orders w !! o) as [ord|] eqn:Eo; [|done]. cbn. case_bool_decide as Hc.
  - unfold insertCmdResult, asyncCmdResultCallBack, run, mbind, Op_bind. cbn.
    destruct (callBackPoolPtr w); [|done]. intros [= <- <-]. cbn.
    split_and!; [done|by apply prefix_app_r|set_solver|].
    intros o' (ord' & Ho & Hn). cbn in Ho. apply alter_lookup in Ho as [Ho|(<- & ord0 & Ho & ->)]; [by exists ord'|].
    exists ord0. by rewrite <- (Hf ord0).
  - intros [= <- <-]. split_and!; [done..|by intros (ord' & ? & ?); simplify_eq|done].
Qed.

(** Entries leave the map of a connection when nobody waits or a result is there. *)
Lemma Held_map H c f w :
  (∀ k, clients w !! c = Some k → cmdSeq_ (f k) = cmdSeq_ k ∧ cmdSeqOrderMap_ (f k) ⊆ cmdSeqOrderMap_ k ∧
        ∀ p, p ∈ cmdSeqOrderMap_ k → p ∈ cmdSeqOrderMap_ (f k) ∨ (needs p.2 w → p.2 ∈ cmdResults w)) →
  Held H w → Held H (w <| clients ::= alter f c |>).
Proof.
  intros HM [[I1 I2 I3] Hh]. split; [split; [|done..]|].
  - intros j k Hj. cbn in Hj. apply alter_lookup in Hj as [Hj|(<- & k0 & Hj & ->)]; [by apply I1|].
    destruct (HM _ Hj) as (E & Hs & _), (I1 _ _ Hj) as [? Hl]. split; [by rewrite E|].
    rewrite E. apply Forall_forall. intros p Hp. rewrite Forall_forall in Hl. auto.
  - intros o Ho. destruct (Hh o Ho) as [?|[?|[?|[Hf|?]]]]; [by left|right; by left|right; right; by left| |right; by do 3 right].
    right. unfold in_flight in Hf. apply Exists_exists in Hf as (k & [j Hj]%list_elem_of_lookup & [p [-> Hp]]%list_elem_of_fmap).
    destruct (decide (j = c)) as [->|Hn].
    + destruct (HM _ Hj) as (_ & _ & [Hin|Hr]%(λ H, H p Hp)); [|do 3 right; left; by apply Hr].
      right; right; left. apply (Exists_alter_here _ _ _ _ k); [done|]. by apply list_elem_of_fmap_2.
    + right; right; left. apply Exists_exists. exists k. split; [|by apply list_elem_of_fmap_2].
      apply list_elem_of_lookup. exists j. cbn. by rewrite list_lookup_alter_ne.
Qed.

Lemma seq_insert_elem k v m p : p ∈ seq_insert k v m → p = (k, v) ∨ p ∈ m.
Proof.
  induction m as [|[k' v'] m IH]; cbn; [set_solver|]. case_match; [set_solver|]. case_match; [set_solver|].
  rewrite !elem_of_cons. tauto.
Qed.
Lemma seq_insert_old k v m p : p ∈ m → p ∈ seq_insert k v m.
Proof.
  induction m as [|[k' v'] m IH]; cbn; [set_solver|]. case_match; [set_solver|]. case_match; [set_solver|].
  rewrite !elem_of_cons. tauto.
Qed.
Lemma seq_insert_new k v m : Forall (λ p, p.1 < k) m → (k, v) ∈ seq_insert k v m.
Proof.
  induction 1 as [|[k' v'] m Hk _ IH]; cbn in *; [set_solver|].
  destruct (Z.ltb_spec k k'); [lia|]. destruct (Z.eqb_spec k k'); [lia|]. by right.
Qed.

Lemma Held_insert H c o seq f k w :
  clients w !! c = Some k → cmdSeq_ (f k) = cmdSeq_ k → cmdSeqOrderMap_ (f k) = seq_insert seq o (cmdSeqOrderMap_ k) →
  Forall (λ p, p.1 < seq) (cmdSeqOrderMap_ k) → seq < cmdSeq_ k →
  Held (o :: H) w → Held H (w <| clients ::= alter f c |>).
Proof.
  intros Hc E1 E2 Hs Hlt [[I1 I2 I3] Hh]. split; [split; [|done..]|].
  - intros j k' Hj. cbn in Hj. apply alter_lookup in Hj as [Hj|(<- & k0 & Hj & ->)]; [by apply I1|]. simplify_eq.
    destruct (I1 _ _ Hc) as [? Hl]. split; [by rewrite E1|]. rewrite E1, E2. apply Forall_forall.
    intros p [->|Hp]%seq_insert_elem; [done|]. rewrite Forall_forall in Hl. auto.
  - assert (HP : ∀ o', o' = o ∨ in_flight o' w → in_flight o' (w <| clients ::= alter f c |>)).
    { intros o' [->|Hf]; unfold in_flight; cbn.
      - apply (Exists_alter_here _ _ _ _ k); [done|]. rewrite E2. apply list_elem_of_fmap. exists (seq, o).
        split; [done|]. by apply seq_insert_new.
      - unfold in_flight in Hf. apply Exists_exists in Hf as (k' & [j Hj]%list_elem_of_lookup & Hin).
        destruct (decide (j = c)) as [->|Hn].
        + simplify_eq. apply (Exists_alter_here _ _ _ _ k); [done|]. rewrite E2.
          apply list_elem_of_fmap in Hin as (p & -> & Hp). by apply list_elem_of_fmap_2, seq_insert_old.
        + apply Exists_exists. exists k'. split; [|done]. apply list_elem_of_lookup. exists j.
          by rewrite list_lookup_alter_ne. }
    intros o' Ho'. destruct (Hh o' Ho') as [[->|?]%elem_of_cons|[?|[?|[?|?]]]];
      [right; right; right; left; auto|by left|right; by left|right; right; by left|right; right; right; left; auto|right; by do 3 right].
Qed.

Lemma sent_snoc c w x : sent c (w <| outs ::= (.++ [x]) |>) = sent c w + (if decide (sent_on c x) then 1 else 0).
Proof. unfold sent. cbn. rewrite filter_app, length_app, filter_cons, filter_nil. case_decide; cbn; lia. Qed.

(** The number is drawn and the command written. *)
Lemma Held_draw H c k msg w :
  let w1 := w <| clients ::= alter (λ k', k' <| cmdSeq_ := u32 (cmdSeq_ k + 1) |>) c |> <| outs ::= (.++ [Sent c msg]) |> in
  few w1 → clients w !! c = Some k → Held H w →
  Held H w1 ∧ Forall (λ p, p.1 < cmdSeq_ k) (cmdSeqOrderMap_ k) ∧ u32 (cmdSeq_ k + 1) = cmdSeq_ k + 1.
Proof.
  intros w1 Hf Hc [Hi Hh]. pose proof (i_seq _ Hi _ _ Hc) as [Hb Hl].
  assert (E1 : sent c w1 = sent c w + 1) by (unfold w1; rewrite sent_snoc; by case_decide).
  assert (Hw : ∀ j, sent j w <= sent j w1) by (intros j; apply sent_prefix; by apply prefix_app_r).
  assert (Eu : u32 (cmdSeq_ k + 1) = cmdSeq_ k + 1).
  { apply wrap_u_id. unfold in_u. specialize (Hf c). lia. }
  split_and!; [|done..]. split; [split|].
  - intros j k' Hj. cbn in Hj. apply alter_lookup in Hj as [Hj|(<- & k0 & Hj & ->)].
    + destruct (i_seq _ Hi _ _ Hj). split; [specialize (Hw j); lia|done].
    + simplify_eq. cbn. rewrite Eu. split; [cbn; lia|]. eapply Forall_impl; [done|]. cbn. lia.
  - apply Hi.
  - apply Hi.
  - intros o Ho. destruct (Hh o Ho) as [?|[?|[?|[Hq|[?|(cb & r & l & Hx)]]]]];
      [by left|right; by left|right; right; by left| |right; do 3 right; by left|].
    + right; right; right; left. by apply Exists_alter.
    + right; do 4 right. exists cb, r, l. apply elem_of_app. by left.
Qed.

Lemma holds_requestCmd H c o now ret : holds (o :: H) (requestCmd c o now ret) (λ _, H).
Proof.
  intros w [] w' E. unfold requestCmd, get_cli, get_order, op_find, mbind at 1, Op_bind at 1 in E.
  destruct (clients w !! c) as [k|] eqn:Ec; [|done].
  unfold mbind at 1, Op_bind at 1 in E. destruct (orders w !! o) as [ord|] eqn:Eo; [|done].
  unfold getAndAdd in E. unfold mbind at 1, Op_bind at 1, set_cli at 1, op_mod at 1 in E.
  destruct (negb (client_ k) || _); [done|].
  unfold mbind at 1, Op_bind at 1, emit, op_mod at 1 in E.
  set (w1 := w <| clients ::= _ |> <| outs ::= _ |>) in E.
  assert (Hp : outs w `prefix_of` outs w1) by (by apply prefix_app_r).
  destruct (negb (ret =? 0)).
  - eapply (holds_seq (o :: H) _ _ (λ _, H)) in E as [Hp2 HQ];
      [|by apply holds_order|intros _; apply holds_insertCmdResult].
    split; [by etrans|]. intros Hf Hh. apply HQ; [done|].
    by apply (Held_draw _ c k _ _ (few_prefix _ _ Hp2 Hf)).
  - injection E as <-. split; [done|]. intros Hf Hh.
    destruct (Held_draw _ c k (c_str (cmdMsg_ ord)) _ Hf Ec Hh) as (H1 & Hl & Eu). fold w1 in H1.
    assert (E1 : clients w1 !! c = Some (k <| cmdSeq_ := u32 (cmdSeq_ k + 1) |>))
      by (unfold w1; cbn; by rewrite list_lookup_alter_eq, Ec).
    set (w2 := w1 <| orders ::= alter (λ ord, ord <| cmdQuerySecond_ := now |>) o |>).
    assert (H2 : Held (o :: H) w2).
    { eapply (holds_order (o :: H) o (λ ord, ord <| cmdQuerySecond_ := now |>) ltac:(done) w1 () w2 eq_refl); [exact Hf|done]. }
    apply (Held_insert H c o (cmdSeq_ k) _ (k <| cmdSeq_ := u32 (cmdSeq_ k + 1) |>) w2); [done..|cbn; lia|done].
Qed.

(** What one order's end leaves to the others. *)
Lemma finish_order_mono o f w a w' p :
  (∀ ord, resultCb_ (f ord) = resultCb_ ord) → finish_order o f w = Some (a, w') →
  (needs p w → p ∈ cmdResults w) → needs p w' → p ∈ cmdResults w'.
Proof.
  intros Hf E HP Hn. destruct (finish_order_spec _ _ _ _ _ Hf E) as (_ & [l ->] & _ & HN).
  apply elem_of_app. left. auto.
Qed.

Lemma expire_orders_spec c now m w rest w' :
  expire_orders c now m w = Some (rest, w') →
  clients w' = clients w ∧ rest ⊆ m ∧ cmdResults w `prefix_of` cmdResults w' ∧ (∀ o, needs o w' → needs o w) ∧
  ∀ p, p ∈ m → p ∈ rest ∨ (needs p.2 w' → p.2 ∈ cmdResults w').
Proof.
  revert w rest. induction m as [|[seq o] m IH]; intros w rest; cbn [expire_orders].
  { intros [= <- <-]. split_and!; [done..|set_solver]. }
  unfold get_order, op_find, mbind at 1, Op_bind at 1. destruct (orders w !! o) as [ord|]; [|done].
  destruct (expired now ord); unfold mbind, Op_bind.
  - destruct (finish_order o _ w) as [[[] w1]|] eqn:Ef; [|done]. intros E.
    apply finish_order_spec in Ef as (C1 & R1 & N1 & M1); [|done].
    destruct (IH _ _ E) as (C2 & S2 & R2 & M2 & P2).
    split_and!; [congruence|set_solver|by etrans|auto|].
    intros p [->|Hp]%elem_of_cons; [|auto]. right. intros Hn. destruct R2 as [l ->]. apply elem_of_app. left. auto.
  - destruct (expire_orders c now m w) as [[r w1]|] eqn:Er; [|done]. intros [= <- <-].
    destruct (IH _ _ Er) as (C2 & S2 & R2 & M2 & P2).
    split_and!; [done|set_solver|done..|]. intros p [->|Hp]%elem_of_cons; [left; left|].
    destruct (P2 _ Hp); [left; by right|by right].
Qed.
Lemma holds_expire_orders H c now m : holds H (expire_orders c now m) (λ _, H).
Proof. induction m as [|[seq o] m IH]; cbn [expire_orders]; unfold get_order; holds_auto; apply IH. Qed.

Lemma holds_checkOutSecondCmd H c now clock : holds H (checkOutSecondCmd c now clock) (λ _, H).
Proof.
  intros w [] w' E. unfold checkOutSecondCmd in E. set (now' := if now =? 0 then clock else now) in E.
  unfold get_cli, op_find, mbind at 1, Op_bind at 1 in E. destruct (clients w !! c) as [k|] eqn:Ec; [|done].
  unfold mbind at 1, Op_bind at 1 in E.
  match type of E with context [match ?m w with _ => _ end] => set (ping := m) in E end.
  assert (HP : holds H ping (λ _, H)) by (unfold ping; holds_auto).
  assert (HC : ∀ w1, ping w = Some ((), w1) →
            ∃ k1, clients w1 !! c = Some k1 ∧ cmdSeqOrderMap_ k1 = cmdSeqOrderMap_ k).
  { intros w1. unfold ping. destruct (_ && _); [|intros [= <-]; by exists k]. destruct (client_ k); [|done].
    intros [= <-]. cbn. rewrite list_lookup_alter_eq, Ec. by eexists. }
  destruct (ping w) as [[[] w1]|] eqn:Ep; [|done].
  destruct (HP _ _ _ Ep) as [P1 Q1], (HC _ eq_refl) as (k1 & C1 & M1).
  unfold mbind, Op_bind in E. destruct (expire_orders c now' (cmdSeqOrderMap_ k) w1) as [[rest w2]|] eqn:Ee; [|done].
  destruct (holds_expire_orders H _ _ _ _ _ _ Ee) as [P2 Q2].
  destruct (expire_orders_spec _ _ _ _ _ _ Ee) as (C2 & S2 & _ & _ & R2). injection E as <-.
  split; [by repeat (etrans; [eassumption|])|]. intros Hf Hh.
  apply Held_map; [|apply Q2; [done|]; apply Q1; [by eapply few_prefix|done]].
  intros k2 Hk2. rewrite C2, C1 in Hk2. injection Hk2 as <-. cbn. rewrite M1. auto.
Qed.

Lemma holds_requestCallBack H c seq reply : holds H (requestCallBack c seq reply) (λ _, H).
Proof.
  intros w [] w' E. unfold requestCallBack, get_cli, op_find, mbind at 1, Op_bind at 1 in E.
  destruct (clients w !! c) as [k|] eqn:Ec; [|done].
  destruct (list_find _ (cmdSeqOrderMap_ k)) as [[i [seq' o]]|] eqn:El; [|by injection E as <-].
  apply list_find_Some in El as (Hi & _ & _).
  destruct (match reply with Some r => reply_result r | None => _ end) as [code result].
  unfold mbind, Op_bind in E. destruct (finish_order o _ w) as [[[] w1]|] eqn:Ef; [|done]. injection E as <-.
  destruct (holds_finish_order H o (λ ord, ord <| cmdRet_ := code |> <| cmdResult_ ::= (.++ result) |>) ltac:(done) _ _ _ Ef) as [P1 Q1].
  apply finish_order_spec in Ef as (C1 & _ & N1 & _); [|done].
  split; [done|]. intros Hf Hh. apply Held_map; [|by apply Q1].
  intros k1 Hk1. rewrite C1, Ec in Hk1. injection Hk1 as <-. cbn. split_and!; [done|apply list_subseteq_delete|].
  intros p [j Hj]%list_elem_of_lookup. destruct (decide (j = i)) as [->|Hn]; [right; by simplify_eq|left].
  apply list_elem_of_lookup. destruct (decide (j < i)%nat) as [Hlt|Hge].
  - exists j. by rewrite list_lookup_delete_lt.
  - exists (pred j). destruct j as [|j]; [lia|]. cbn. rewrite list_lookup_delete_ge by lia. done.
Qed.
#[local] Hint Resolve holds_checkOutSecondCmd holds_requestCallBack : holds.
Lemma holds_cmdCallback H c seq reply : holds H (cmdCallback c seq reply) (λ _, H).
Proof. destruct reply; [apply holds_requestCallBack|apply holds_ret]. Qed.

(** ** The IO threads *)

Lemma holds_expire_request H o code : holds (o :: H) (expire_request o code) (λ _, H).
Proof.
  apply holds_seq with (H := o :: H); [apply holds_find|intros _].
  apply holds_seq with (H := o :: H); [by apply holds_order|intros _; apply holds_insertCmdResult].
Qed.
Lemma holds_handle_order H i node ans : node_ok node → holds (hand node ++ H) (handle_order i node ans) (λ _, H).
Proof.
  destruct node as [out cli [o|]]; unfold node_ok, hand, handle_order, get_io, get_cli; cbn.
  - intros [c ->]; [by eexists|]. apply holds_seq with (H := o :: H); [apply holds_find|intros io].
    apply holds_if; [apply holds_expire_request|].
    apply holds_seq with (H := o :: H); [apply holds_find|intros k].
    apply holds_if; [apply holds_expire_request|apply holds_requestCmd].
  - intros _. holds_auto.
Qed.

Lemma Held_io H i f io w :
  libeventIoPtrVect w !! i = Some io → orderDeque_ (f io) = orderDeque_ io → (odd_io (f io) → isExit_ w = true) →
  Held H w → Held H (w <| libeventIoPtrVect ::= alter f i |>).
Proof.
  intros Hio E1 E2 [[I1 I2 I3] Hh]. split; [split; [done|..]|]; cbn.
  - intros j io' Hj. apply alter_lookup in Hj as [Hj|(<- & io0 & Hj & ->)]; [by eapply I2|]. simplify_eq.
    rewrite E1. by eapply I2.
  - intros j io' Hj. apply alter_lookup in Hj as [Hj|(<- & io0 & Hj & ->)]; [by eapply I3|]. by simplify_eq.
  - intros o Ho. destruct (Hh o Ho) as [?|[?|[Hq|?]]]; [by left|right; by left| |right; by do 2 right].
    right; right; left. unfold in_queue in *. cbn.
    apply Exists_exists in Hq as (io' & [j Hj]%list_elem_of_lookup & Hin).
    destruct (decide (j = i)) as [->|Hn].
    + simplify_eq. apply (Exists_alter_here _ _ _ _ io); [done|]. by rewrite E1.
    + apply Exists_exists. exists io'. split; [|done]. apply list_elem_of_lookup. exists j.
      by rewrite list_lookup_alter_ne.
Qed.

Lemma quiet_waiting : quiet_io (λ io, io <| pc := Waiting |>).
Proof. intros io. split; [done|]. intros [?|[]]. by left. Qed.
Lemma holds_check_client H i ans j : holds H (check_client i ans j) (λ _, H).
Proof. unfold check_client, get_io, get_cli. holds_auto. Qed.
#[local] Hint Resolve holds_check_client : holds.

Lemma holds_handleRead_end H i one ans w a w' io :
  libeventIoPtrVect w !! i = Some io → pc io = Draining one → handleRead_end i one ans w = Some (a, w') →
  outs w `prefix_of` outs w' ∧ (few w' → Held H w → Held H w').
Proof.
  intros Hio Hpc E. unfold handleRead_end, get_io, op_find, mbind at 1, Op_bind at 1 in E. rewrite Hio in E.
  destruct (one mod 2 =? 0) eqn:Eo; cbn in E.
  - eapply (holds_seq H _ _ (λ _, H)) in E; [done|apply holds_io, quiet_waiting|intros _]. holds_auto.
  - injection E as <- <-. split; [done|]. intros _ Hh. eapply Held_io; [done|done| |done]. intros _.
    apply (i_exit _ (h_inv _ _ Hh) _ _ Hio). right. rewrite Hpc. apply Z.eqb_neq in Eo.
    rewrite Zmod_odd in Eo. by destruct (Z.odd one).
Qed.

Lemma Held_take H i io node l w :
  libeventIoPtrVect w !! i = Some io → orderDeque_ io = node :: l → Held H w →
  Held (hand node ++ H) (w <| libeventIoPtrVect ::= alter (λ _, io <| orderDeque_ := l |>) i |>) ∧ node_ok node.
Proof.
  intros Hio El [[I1 I2 I3] Hh]. pose proof (I2 _ _ Hio) as Hl. rewrite El in Hl. apply Forall_cons in Hl as [Hn Hl].
  split; [|done]. split; [split; [done|..]|]; cbn.
  - intros j io' Hj. apply alter_lookup in Hj as [Hj|(<- & io0 & Hj & ->)]; [by eapply I2|done].
  - intros j io' Hj. apply alter_lookup in Hj as [Hj|(<- & io0 & Hj & ->)]; [by eapply I3|]. simplify_eq.
    intros Ho. by apply (I3 _ _ Hio).
  - intros o Ho. destruct (Hh o Ho) as [?|[?|[Hq|?]]];
      [left; apply elem_of_app; by right|right; by left| |right; by do 2 right].
    apply Exists_exists in Hq as (io' & [j Hj]%list_elem_of_lookup & Hin).
    destruct (decide (j = i)) as [->|Hn2].
    + simplify_eq. rewrite El in Hin. apply Exists_cons in Hin as [Hin|Hin].
      * left. apply elem_of_app. left. by apply elem_of_hand.
      * right; right; left. apply (Exists_alter_here _ _ _ _ io); done.
    + right; right; left. apply Exists_exists. exists io'. split; [|done]. apply list_elem_of_lookup. exists j. cbn.
      by rewrite list_lookup_alter_ne.
Qed.

(** A command without connection is only timed out. *)
Lemma holds_handle_order_null H i node ans : n_cli_ node = None → holds H (handle_order i node ans) (λ _, H).
Proof. intros E. unfold handle_order, get_io, expire_request, get_order. rewrite E. holds_auto. Qed.
Lemma holds_handleRead_round H i ans : holds H (handleRead_round i ans) (λ _, H).
Proof.
  intros w [] w' E. unfold handleRead_round, get_io, op_find, mbind at 1, Op_bind at 1 in E.
  destruct (libeventIoPtrVect w !! i) as [io|] eqn:Hio; [|done].
  destruct (pc io) eqn:Hpc; try done. unfold dealOrderNode in E.
  destruct (orderDeque_ io) as [|node l] eqn:El; [by eapply holds_handleRead_end|].
  unfold mbind, Op_bind, set_io, op_mod in E.
  set (w1 := w <| libeventIoPtrVect ::= _ |>) in E.
  assert (Hp : outs w1 `prefix_of` outs w').
  { destruct (n_cli_ node) as [c|] eqn:Ecli.
    - assert (Hn : node_ok node) by (intros _; by rewrite Ecli).
      by destruct (holds_handle_order H i node ans Hn _ _ _ E).
    - by destruct (holds_handle_order_null H i node ans Ecli _ _ _ E). }
  split; [done|]. intros Hf Hh. destruct (Held_take H i io node l w Hio El Hh) as [H1 Hn].
  by apply (holds_handle_order H i node ans Hn _ _ _ E).
Qed.

Lemma holds_handleRead_begin H i : holds H (handleRead_begin i) (λ _, H).
Proof.
  intros w [] w' E. unfold handleRead_begin, get_io, op_find, mbind, Op_bind in E.
  destruct (libeventIoPtrVect w !! i) as [io|] eqn:Hio; [|done]. destruct (pc io) eqn:Hpc; try done.
  destruct (wakeupFd io =? 0); [by injection E as <-|]. injection E as <-. split; [done|]. intros _ Hh.
  eapply Held_io; [done|done| |done]. intros [Ho|Ho]; [done|]. apply (i_exit _ (h_inv _ _ Hh) _ _ Hio). by left.
Qed.
Lemma holds_libeventIoReady H i : holds H (libeventIoReady i true) (λ _, H).
Proof.
  intros w [] w' E. unfold libeventIoReady, get_io, op_find, mbind, Op_bind in E.
  destruct (libeventIoPtrVect w !! i) as [io|] eqn:Hio; [|done]. destruct (pc io) eqn:Hpc; try done.
  injection E as <-. split; [done|]. intros _ Hh.
  eapply Held_io; [done|done| |done]. intros [Ho|[]]. apply (i_exit _ (h_inv _ _ Hh) _ _ Hio). by left.
Qed.
Lemma holds_io_return H i : holds H (io_return i) (λ _, H).
Proof.
  intros w [] w' E. unfold io_return, get_io, op_find, mbind, Op_bind in E.
  destruct (libeventIoPtrVect w !! i) as [io|] eqn:Hio; [|done]. destruct (pc io) eqn:Hpc; try done.
  unfold io_restart, op_get, mbind, Op_bind in E.
  destruct (isExit_ w) eqn:He; injection E as <-; (split; [done|]); intros _ Hh.
  - by eapply Held_io.
  - exfalso. assert (isExit_ w = true) as Hx; [|congruence].
    apply (i_exit _ (h_inv _ _ Hh) _ _ Hio). right. by rewrite Hpc.
Qed.

(** All threads at once. *)
Lemma Held_ios H g w w' :
  libeventIoPtrVect w' = g <$> libeventIoPtrVect w → (∀ io, orderDeque_ (g io) = orderDeque_ io) →
  (∀ io, odd_io (g io) → isExit_ w' = true ∨ odd_io io) → (isExit_ w = true → isExit_ w' = true) →
  clients w' = clients w → orders w' = orders w → timerOrders w' = timerOrders w → cmdResults w' = cmdResults w →
  outs w' = outs w → Held H w → Held H w'.
Proof.
  intros E1 E2 E3 E4 C1 C2 C3 C4 C5 [[I1 I2 I3] Hh]. split; [split|].
  - intros c k. unfold sent. rewrite C1, C5. apply I1.
  - intros i io. rewrite E1, list_lookup_fmap. intros (io0 & Hi & ->)%fmap_Some. rewrite E2. by eapply I2.
  - intros i io. rewrite E1, list_lookup_fmap. intros (io0 & Hi & ->)%fmap_Some.
    intros [?|?]%E3; [done|]. apply E4. by eapply I3.
  - intros o (ord & Ho & Hn). rewrite C2 in Ho. destruct (Hh o) as [?|Ht]; [by exists ord|by left|right].
    unfold tracked, in_timer, in_queue, in_flight, called. rewrite C1, C3, C4, C5, E1, Exists_fmap.
    destruct Ht as [?|[Hq|?]]; [by left| |by do 2 right]. right; left.
    eapply Exists_impl; [done|]. intros io. cbn. by rewrite E2.
Qed.

(** ** [RedisAsync] *)

Lemma holds_order_later H cli o : holds (o :: H) (order_later cli o) (λ _, H).
Proof.
  eapply (holds_seq (o :: H)); [apply holds_get|intros t].
  apply (holds_insert_timer H {| n_outSecond_ := t; n_cli_ := cli; n_cmdOrd_ := Some o |}).
Qed.
Lemma holds_order_now H cli cmd out :
  holds (match cmd with Some o => o :: H | None => H end) (order_now cli cmd out) (λ _, H).
Proof.
  destruct cli as [c|]; [|by intros w a w'].
  set (H1 := match cmd with Some o => o :: H | None => H end).
  assert (E : ∀ now, H1 = hand {| n_outSecond_ := now; n_cli_ := Some c; n_cmdOrd_ := cmd |} ++ H)
    by (intros now; by destruct cmd).
  eapply (holds_seq H1); [unfold io_of, get_cli; holds_auto|intros i].
  eapply (holds_seq H1); [apply holds_get|intros now]. rewrite (E out).
  apply holds_libeventIoOrder. by eexists.
Qed.
Lemma holds_later H ord cli : holds H (o ← new_order ord; order_later cli o) (λ _, H).
Proof. eapply holds_bind; [apply holds_new|]. intros o. apply holds_order_later. Qed.
Lemma holds_now H ord cli out : holds H (o ← new_order ord; order_now cli (Some o) out) (λ _, H).
Proof. eapply holds_bind; [apply holds_new|]. intros o. apply (holds_order_now H cli (Some o)). Qed.
Lemma holds_connect_new H c : holds H (connect_new c) (λ _, H).
Proof. apply (holds_order_now H _ None). Qed.
#[local] Hint Resolve holds_later holds_now holds_connect_new : holds.

Lemma holds_clusterNodesUpdate H fd d b : holds H (clusterNodesUpdate fd d b) (λ _, H).
Proof. unfold clusterNodesUpdate, get_mgr, time_limit. holds_auto. Qed.
Lemma holds_infoReplicNodesUpdate H fd d : holds H (infoReplicNodesUpdate fd d) (λ _, H).
Proof.
  unfold infoReplicNodesUpdate, get_mgr. apply holds_seq; [apply holds_find|intros m].
  destruct d; auto with holds.
Qed.
Lemma holds_updateNodesInfo H fd : holds H (updateNodesInfo fd) (λ _, H).
Proof. unfold updateNodesInfo, get_mgr, time_limit. holds_auto. Qed.
#[local] Hint Resolve holds_clusterNodesUpdate holds_infoReplicNodesUpdate holds_updateNodesInfo : holds.

(** The readers of replies only add connections, for the group of the manager. *)
Definition adds (P : RedisClient → Prop) (s s' : Scan) : Prop := ∃ l, heap s' = heap s ++ l ∧ Forall P l.
#[export] Instance adds_preorder P : PreOrder (adds P).
Proof.
  split.
  - intros s. exists []. by rewrite app_nil_r.
  - intros s1 s2 s3 (l1 & E1 & F1) (l2 & E2 & F2). exists (l1 ++ l2). rewrite E2, E1, app_assoc. split; [done|]. by apply Forall_app.
Qed.

Section adds.
Variables (mgr : RedisClientMgr) (par : Par) (P : RedisClient → Prop).
Hypothesis P_new : ∀ x info,
  P (RedisClient_new (Z.to_nat (u32 x mod ioThreadNum par)) (m_mgrFd_ mgr) info (keepSecond par) (connOutSecond par)).
Definition An_adds {A} (m : An A) : Prop := ∀ s, adds P s (m s).2.
Lemma An_adds_bind {A B} (m : An A) (k : A → An B) : An_adds m → (∀ a, An_adds (k a)) → An_adds (m ≫= k).
Proof using Type.
  intros Hm Hk s. specialize (Hm s). unfold mbind, An_bind. destruct (m s) as [[e|a] s1]; [done|].
  etrans; [done|]. apply Hk.
Qed.
Lemma An_adds_same {A} (m : An A) : (∀ s, (m s).2 = s) → An_adds m.
Proof using Type. intros E s. by rewrite E. Qed.
Lemma An_adds_find found info : An_adds (find_or_new mgr par found info).
Proof using P_new.
  destruct found; [by apply An_adds_same|]. intros s. eexists. split; [done|]. repeat constructor. apply P_new.
Qed.
Lemma An_adds_need {A} code (o : option A) : An_adds (need code o).
Proof using Type. destruct o; by apply An_adds_same. Qed.
Lemma An_adds_at {A} (l : list A) i : An_adds (at_ l i).
Proof using Type. apply An_adds_same. intros s. unfold at_. by destruct (l !! i). Qed.
Lemma An_adds_count c n : An_adds (count_conn c n).
Proof using Type. apply An_adds_bind; [by apply An_adds_same|intros []; by apply An_adds_same]. Qed.
Ltac adds_auto := repeat first
  [ by apply An_adds_same
  | apply An_adds_find
  | apply An_adds_need
  | apply An_adds_at
  | apply An_adds_count
  | apply An_adds_bind; [|intros ?]
  | match goal with
    | |- An_adds (match ?x with _ => _ end) => destruct x
    | |- An_adds (if ?b then _ else _) => destruct b
    end ].

Lemma slaves_loop_adds id lines sl n : An_adds (slaves_loop mgr par id lines sl n).
Proof using P_new.
  revert sl n. induction lines as [|line lines IH]; intros; cbn [slaves_loop]; [by apply An_adds_same|].
  repeat case_decide; [by apply An_adds_same| |apply IH]. adds_auto. apply IH.
Qed.
Lemma analysisClusterNodes_adds text : An_adds (analysisClusterNodes mgr par text).
Proof using P_new.
  unfold analysisClusterNodes. destruct text as [|x text]; [by apply An_adds_same|].
  apply An_adds_bind; [|intros [[] ?]; by apply An_adds_same].
  generalize (None : option RedisClusterInfo, 0, 0). generalize (split (x :: text) newline []) at 2. intros lines.
  induction lines as [|line lines IH]; intros acc; cbn [lines_scan]; [by apply An_adds_same|].
  case_decide; [by apply An_adds_same|]. destruct (strstr _ _); [|apply IH].
  apply An_adds_bind; [|intros; apply IH]. unfold master_line. destruct acc as [[ci mc] sc].
  case_decide; [by apply An_adds_same|]. adds_auto. apply slaves_loop_adds.
Qed.
Lemma analysisSlaveNodes_adds text : An_adds (analysisSlaveNodes mgr par text).
Proof using P_new.
  assert (HN : An_adds (node_connected mgr)) by (unfold node_connected; adds_auto).
  assert (HC : ∀ line, An_adds (after_colon line)) by (intros; unfold after_colon; adds_auto).
  assert (HR : ∀ info, An_adds (replication_client mgr par info)) by (intros; unfold replication_client; adds_auto).
  assert (HL : ∀ n lines i sl c, An_adds (replication_slaves mgr par n lines i sl c)).
  { induction n as [|n IH]; intros; cbn [replication_slaves]; [by apply An_adds_same|].
    unfold slave_addr. adds_auto; auto. }
  unfold analysisSlaveNodes. destruct text; [by apply An_adds_same|]. adds_auto; auto.
Qed.
End adds.

(** New connections have sent nothing. *)
Definition unused (k : RedisClient) : Prop := cmdSeq_ k = 0 ∧ cmdSeqOrderMap_ k = [].
Lemma Held_clients H l w w' :
  clients w' = clients w ++ l → Forall unused l → libeventIoPtrVect w' = libeventIoPtrVect w → isExit_ w' = isExit_ w →
  orders w' = orders w → timerOrders w' = timerOrders w → cmdResults w' = cmdResults w → outs w' = outs w →
  Held H w → Held H w'.
Proof.
  intros C1 Hl C2 C3 C4 C5 C6 C7 [[I1 I2 I3] Hh]. split; [split|].
  - intros c k. rewrite C1. unfold sent. rewrite C7. intros [?|[? Hk]]%lookup_app_Some; [by apply I1|].
    apply list_elem_of_lookup_2 in Hk. rewrite Forall_forall in Hl. destruct (Hl _ Hk) as [E1 E2].
    unfold seq_ok. rewrite E1, E2. split; [lia|done].
  - intros i io. rewrite C2. apply I2.
  - intros i io. rewrite C2, C3. apply I3.
  - intros o (ord & Ho & Hn). rewrite C4 in Ho. destruct (Hh o) as [?|Ht]; [by exists ord|by left|right].
    unfold tracked, in_timer, in_queue, in_flight, called in *. rewrite C1, C2, C5, C6, C7, Exists_app. tauto.
Qed.
Lemma holds_analysis H f fd text :
  (∀ m par t, An_adds unused (f m par t)) → holds H (analysis f fd text) (λ _, H).
Proof.
  intros Hf. unfold analysis. eapply (holds_seq H); [apply holds_find|intros m].
  intros w a w' E. cbv zeta in E.
  match type of E with context [f m ?par text ?sc] =>
    destruct (Hf m par text sc) as (l & El & Fl); destruct (f m par text sc) as [r sc'] end.
  cbn in El. assert (HC : clients w' = clients w ++ l ∧ outs w' = outs w ∧ (Held H w → Held H w')).
  { destruct r as [[code| |]|[code m']]; [|done|done|]; injection E as <- <-; (split_and!; [done|done|]);
      intros Hh; eapply Held_clients; done. }
  destruct HC as (_ & -> & HQ). split; [done|auto].
Qed.
Lemma holds_analysis_cluster H fd text : holds H (analysis analysisClusterNodes fd text) (λ _, H).
Proof. apply holds_analysis. intros. by apply analysisClusterNodes_adds. Qed.
Lemma holds_analysis_slave H fd text : holds H (analysis analysisSlaveNodes fd text) (λ _, H).
Proof. apply holds_analysis. intros. by apply analysisSlaveNodes_adds. Qed.
#[local] Hint Resolve holds_analysis_cluster holds_analysis_slave : holds.

Lemma holds_call_back H cb ret priv result : holds H (call_back cb ret priv result) (λ _, H).
Proof.
  destruct cb; cbn [call_back]; [apply holds_ret|..];
    unfold clusterInfoCallBack, clusterNodesCallBack, clusterInitCallBack, infoReplicationCb, cluster_retry,
      cluster_check, replication_check, replication_retry, node_down, connected_cli, notify_exce,
      enter_state, notify_state, set_state, get_mgr; holds_auto.
Qed.

Lemma holds_redisInitConnect H fd : holds H (redisInitConnect fd) (λ _, H).
Proof.
  unfold redisInitConnect, get_mgr. eapply (holds_seq H); [apply holds_find|intros cli].
  destruct (parse_addrs _ _) as [infos ok]. eapply (holds_seq H); [apply holds_mgr|intros _].
  apply holds_if; [apply holds_ret|]. eapply (holds_seq H); [apply holds_find|intros m].
  eapply (holds_seq H); [apply holds_some|intros info]. eapply (holds_seq H); [|intros c; holds_auto].
  intros w c w' [= <- <-]. split; [done|]. intros _ Hh. eapply (Held_clients H _ w); try done. by constructor.
Qed.
Lemma holds_add_info H t info auth : holds H (add_info t info auth) (λ _, H).
Proof.
  unfold add_info. eapply (holds_seq H); [apply holds_get|intros r]. apply holds_if; [apply holds_ret|].
  eapply (holds_seq H); [apply holds_get|intros fd].
  eapply (holds_seq H); [|intros _; eapply (holds_seq H); [apply holds_redisInitConnect|intros; apply holds_ret]].
  intros w [] w' [= <-]. split; [done|]. intros _ [[] ?]. split; [by split|done].
Qed.
Lemma holds_redisAsyncCommand H fd cb out priv key cmd : holds H (redisAsyncCommand fd cb out priv key cmd) (λ _, H).
Proof.
  unfold redisAsyncCommand, time_limit. apply holds_if; [apply holds_ret|].
  eapply (holds_seq H); [apply holds_get|intros [m|]]; [|apply holds_ret]. apply holds_if; [apply holds_ret|].
  eapply (holds_seq H); [apply holds_get|intros [code|cli]]; [apply holds_ret|].
  eapply (holds_seq H); [apply holds_get|intros b]. apply holds_if; [apply holds_ret|].
  eapply (holds_seq H); [apply holds_get|intros limit]. eapply holds_bind; [apply holds_new|]. intros o. cbn.
  eapply holds_bind; [apply (holds_order_now H cli (Some o))|]. intros. apply holds_ret.
Qed.
Lemma holds_redisAsyncInit H a b c d s x now : holds H (redisAsyncInit a b c d s x now) (λ _, H).
Proof.
  unfold redisAsyncInit. eapply (holds_seq H); [apply holds_get|intros r].
  apply holds_if; [apply holds_ret|]. apply holds_if; [apply holds_ret|].
  eapply (holds_seq H); [|intros; apply holds_ret].
  intros w [] w' [= <-]. split; [done|]. intros _ [[I1 I2 I3] Hh]. split; [split; [done|..]|]; cbn.
  - intros i io [?|[_ Hi]]%lookup_app_Some; [by eapply I2|]. apply lookup_replicate in Hi as [-> _]. constructor.
  - intros i io [?|[_ Hi]]%lookup_app_Some; [by eapply I3|]. apply lookup_replicate in Hi as [-> _].
    intros [?|?]; done.
  - intros o Ho. destruct (Hh o Ho) as [?|[?|[?|?]]]; [by left|right; by left|right; right; left|right; by do 2 right].
    unfold in_queue. cbn. by apply Exists_app_l.
Qed.
#[local] Hint Resolve holds_call_back holds_add_info holds_redisAsyncCommand holds_redisAsyncInit : holds.

Lemma holds_cmdReplyCallPool H : holds H cmdReplyCallPool (λ _, H).
Proof.
  intros w [] w' E. unfold cmdReplyCallPool in E. rewrite op_bind_get in E.
  destruct (cmdResults w) as [|o rest] eqn:Er; [by injection E as <-|].
  rewrite op_bind_mod in E. set (w1 := w <| cmdResults := rest |>) in E.
  assert (H1 : Held H w → Held (o :: H) w1).
  { intros [[I1 I2 I3] Hh]. split; [by split|]. intros o' Ho'.
    destruct (Hh o' Ho') as [?|[?|[?|[?|[Hr|?]]]]];
      [left; by right|right; by left|right; right; by left|right; do 2 right; by left| |right; by do 4 right].
    rewrite Er in Hr. apply elem_of_cons in Hr as [->|Hr]; [left; left|right; do 3 right; by left]. }
  unfold get_order in E. rewrite op_bind_find in E. destruct (orders w1 !! o) as [node|] eqn:Eo; [|done].
  destruct (resultCb_ node) as [cb|] eqn:Ecb.
  - rewrite op_bind_mod in E. set (w2 := w1 <| asyncCmdNum ::= _ |>) in E.
    unfold emit in E. rewrite op_bind_mod in E. set (w3 := w2 <| outs ::= _ |>) in E.
    destruct (holds_call_back H cb _ _ _ _ _ _ E) as [P4 Q4].
    assert (P3 : outs w `prefix_of` outs w3) by (by apply prefix_app_r).
    split; [by etrans|]. intros Hf Hh. apply Q4; [done|].
    assert (H3 : Held (o :: H) w3).
    { apply (holds_emit _ (Called o cb (cmdRet_ node) (cmdResult_ node)) w2 () w3 eq_refl); [by eapply few_prefix|].
      apply (holds_count _ (λ n, (decrement s32 n).2) w1 () w2 eq_refl); [|auto].
      assert (outs w1 = outs w) by done. eapply few_prefix; [|exact Hf]. by etrans. }
    eapply Held_sub; [|done]. intros o' [->|?]%elem_of_cons; [right|by left].
    do 4 right. exists cb, (cmdRet_ node), (cmdResult_ node). apply elem_of_app. right. left.
  - injection E as <-. split; [done|]. intros _ Hh. destruct (H1 Hh) as [Hi Hh1]. split; [done|].
    intros o' Ho'. destruct (Hh1 o' Ho') as [[->|?]%elem_of_cons|?]; [|by left|by right].
    destruct Ho' as (ord & Ho & [c Hc]). simplify_eq.
Qed.

Lemma holds_redisSvrMgrInvalid H fd : holds H (redisSvrMgrInvalid fd) (λ _, H).
Proof. unfold redisSvrMgrInvalid, enter_state, notify_state, set_state, get_mgr. holds_auto. Qed.
Lemma holds_run_task H t : holds H (run_task t) (λ _, H).
Proof.
  destruct t; cbn [run_task]; [apply holds_cmdReplyCallPool|..|apply holds_redisSvrMgrInvalid| |]; auto with holds;
    unfold asyncStateCallBack, asyncExceCallBack; holds_auto.
Qed.
Lemma holds_pool_task H n : holds H (pool_task n) (λ _, H).
Proof.
  unfold pool_task. eapply (holds_seq H); [apply holds_find|intros q]. eapply (holds_seq H); [apply holds_some|intros t].
  eapply (holds_seq H); [|intros _; apply holds_run_task].
  intros w [] w' [= <-]. split; [done|]. intros _ [[] ?]. split; [by split|done].
Qed.

Lemma Held_take_timer H node rest now w :
  dealTimerOrder now (timerOrders w) = (Some node, rest) → Held H w → Held (hand node ++ H) (w <| timerOrders := rest |>).
Proof.
  intros Ed [[I1 I2 I3] Hh]. split; [by split|]. intros o Ho.
  destruct (Hh o Ho) as [?|[Ht|?]]; [left; apply elem_of_app; by right| |right; by right].
  unfold in_timer in Ht. unfold dealTimerOrder in Ed. destruct (timerOrders w) as [|x l]; [done|].
  destruct (_ || _); [|done]. injection Ed as <- <-. apply Exists_cons in Ht as [Ht|Ht]; [|right; by left].
  left. apply elem_of_app. left. by apply elem_of_hand.
Qed.
Lemma holds_timer_round H : holds H timer_round (λ _, H).
Proof.
  intros w [] w' E. unfold timer_round in E. rewrite op_bind_get in E.
  destruct (dealing w); [cbn [negb] in E|done].
  rewrite !op_bind_get in E.
  destruct (dealTimerOrder (nowSecond_ w) (timerOrders w)) as [[node|] rest] eqn:Ed; rewrite op_bind_mod in E.
  - set (w1 := w <| timerOrders := rest |>) in E.
    assert (HN : holds (hand node ++ H) (match n_cmdOrd_ node with
        | Some o => _ ← get_order o;
            _ ← set_order o (with_limit DEFAULT_CMD_OUTSECOND (u64 (nowSecond_ w + DEFAULT_CMD_OUTSECOND)));
            order_now (n_cli_ node) (Some o) (u64 (nowSecond_ w + DEFAULT_CMD_OUTSECOND))
        | None => order_now (n_cli_ node) None 0 end) (λ _, H)).
    { unfold hand. destruct (n_cmdOrd_ node) as [o|]; [|apply (holds_order_now H _ None)].
      apply holds_seq with (H := o :: H); [apply holds_find|intros _].
      apply holds_seq with (H := o :: H); [by apply holds_order|intros _]. apply (holds_order_now H _ (Some o)). }
    destruct (n_cmdOrd_ node) eqn:En; destruct (HN _ _ _ E) as [P Q]; (split; [done|]);
      intros Hf Hh; (apply Q; [done|]); by eapply Held_take_timer.
  - injection E as <-. split; [done|]. intros _ [[I1 I2 I3] Hh].
    assert (Er : rest = timerOrders w).
    { unfold dealTimerOrder in Ed. destruct (timerOrders w); [by simplify_eq|]. destruct (_ || _); by simplify_eq. }
    split; [by split|]. intros o Ho. rewrite Er. by apply Hh.
Qed.
Lemma holds_timer_begin H now : holds H (timer_begin now) (λ _, H).
Proof.
  unfold timer_begin. eapply (holds_seq H); [apply holds_get|intros b]. apply holds_if; [apply holds_undefined|].
  intros w [] w' [= <-]. split; [done|]. intros _ Hh.
  eapply (Held_ios H (libeventIoWakeup now) w); try done. intros io Ho. right. by apply (quiet_wakeup now).
Qed.
Lemma holds_exit_begin H : holds H exit_begin (λ _, H).
Proof.
  intros w [] w' [= <-]. split; [done|]. intros _ Hh. eapply (Held_ios H id w); try done; [by rewrite list_fmap_id|by left].
Qed.
Lemma holds_exit_end H : holds H exit_end (λ _, H).
Proof.
  intros w [] w' E. unfold exit_end, op_get, mbind, Op_bind in E.
  destruct (isExit_ w) eqn:Ex; [|done]. destruct (asyncCmdNum w =? 0); [|done]. injection E as <-.
  split; [done|]. intros _ Hh. eapply (Held_ios H libeventIoExit w); try done. by left.
Qed.

(** Every event, but for an IO thread that could not start its event loop. *)
Definition starts_badly (e : Event) : bool := match e with EvReady _ false => true | _ => false end.
Lemma holds_handle H e : starts_badly e = false → holds H (handle e) (λ _, H).
Proof.
  intros He. destruct e; cbn [handle starts_badly] in *; try apply holds_add_info; auto with holds;
    try (eapply (holds_seq H); [|intros; apply holds_ret]).
  - apply holds_updateNodesInfo.
  - destruct ok; [apply holds_libeventIoReady|done].
  - apply holds_io_return.
  - apply holds_handleRead_begin.
  - apply holds_handleRead_round.
  - apply holds_connectTimeout.
  - apply holds_connectCallback.
  - apply holds_disconnectCallback.
  - apply holds_cmdCallback.
  - apply holds_timer_begin.
  - apply holds_timer_round.
  - apply holds_pool_task.
  - apply holds_exit_begin.
  - apply holds_exit_end.
Qed.

Lemma Held_run l w w' :
  Forall (λ e, starts_badly e = false) l → run_events l w = Some w' →
  outs w `prefix_of` outs w' ∧ (few w' → Held [] w → Held [] w').
Proof.
  intros Hl. revert w. induction Hl as [|e l He Hl IH]; intros w; cbn [run_events]; [by intros [= <-]|].
  destruct (handle e w) as [[r w1]|] eqn:E; [|done]. intros E2.
  destruct (holds_handle [] e He _ _ _ E) as [P1 Q1], (IH _ E2) as [P2 Q2].
  split; [by etrans|]. intros Hf Hh. apply Q2; [done|]. apply Q1; [by eapply few_prefix|done].
Qed.
Lemma Held_new : Held [] RedisAsync_new.
Proof. split; [split|]; [intros c k []%list_elem_of_lookup_2%elem_of_nil|done..|intros o (ord & Ho & _); done]. Qed.

(** C2: No command is lost: after any run of the callers, the IO threads, the timer,
    the callback pool and the servers, every order with a callback is in the
    timer's list, in the queue of an IO thread, in the map of its connection, or in
    the queue of results, or its callback has run; as long as the IO threads can
    start their event loops and fewer than [2^32] commands were sent over each
    connection. *)
Theorem no_command_lost l w :
  Forall (λ e, starts_badly e = false) l → run_events l RedisAsync_new = Some w → few w →
  ∀ o ord, orders w !! o = Some ord → is_Some (resultCb_ ord) → tracked o w.
Proof.
  intros Hl E Hf o ord Ho Hc. destruct (Held_run l _ _ Hl E) as [_ HQ].
  destruct (h_held _ _ (HQ Hf Held_new) o) as [[]%elem_of_nil|?]; [by exists ord|done].
Qed.

Lemma sent_outs c w : sent c w <= Z.of_nat (length (outs w)).
Proof. unfold sent. pose proof (length_filter (sent_on c) (outs w)). lia. Qed.

(** A single server; the connection breaks while a command is on its way, and is
    made again. *)
Definition sample_ans : IoAns := {| a_conn := ConnOk true; a_ret := 0; a_sync := λ _, None; a_clock := 0 |}.
Definition sample_start : list Event := [
  EvInit 1 1 3 10 true true 100; EvAddSingle (lit "10.0.0.1:6379") []; EvReady 0 true;
  EvRead 0; EvRound 0 sample_ans; EvRound 0 sample_ans; EvConnected 0 None 100; EvTask 0;
  EvCommand 0 (Some 7%nat) 5 None (lit "k") (lit "get k"); EvRead 0; EvRound 0 sample_ans; EvRound 0 sample_ans].
Definition sample_break : list Event := [
  EvDisconnected 0 (lit "reset"); EvTask 0; EvTask 0; EvTask 0;
  EvTick 101; EvTimer; EvTimer; EvRead 0; EvRound 0 sample_ans; EvRound 0 sample_ans; EvConnected 0 None 101; EvTask 0;
  EvTick 107; EvTimer; EvRead 0; EvRound 0 sample_ans; EvTask 0].
Definition sample_world : World := default RedisAsync_new (run_events sample_start RedisAsync_new).

Lemma no_command_lost_witness :
  run_events sample_start RedisAsync_new = Some sample_world ∧ few sample_world ∧ tracked 0 sample_world.
Proof.
  assert (E : run_events sample_start RedisAsync_new = Some sample_world) by (vm_compute; reflexivity).
  assert (Hf : few sample_world).
  { intros c. eapply Z.le_lt_trans; [apply sent_outs|]. vm_compute. reflexivity. }
  split_and!; [exact E|exact Hf|].
  eapply (no_command_lost sample_start sample_world); [|exact E|exact Hf| |].
  - repeat constructor.
  - vm_compute. reflexivity.
  - eexists. reflexivity.
Defined.

(** What callers see of a run: the results, and the count of commands. *)
Definition calls (w : World) : list (nat * Z) :=
  omap (λ x, match x with Called o _ ret _ => Some (o, ret) | _ => None end) (outs w).
Definition outcome_of (l : list Event) : option (list (nat * Z) * Z) :=
  (λ w, (calls w, asyncCmdNum w)) <$> run_events l RedisAsync_new.

(** A disconnection answers the orders of the map but leaves them in it: the
    callback runs a second time when the time of the order is over. The count then
    is negative, and [redisAsyncExit] never finds it zero. *)
Lemma answered_twice :
  outcome_of (sample_start ++ sample_break) = Some ([(0%nat, CMD_SVR_CLOSER_CODE); (0%nat, CMD_OUTTIME_CODE)], -1) ∧
  run_events (sample_start ++ sample_break ++ [EvExit; EvExitEnd]) RedisAsync_new = None.
Proof. split; vm_compute; reflexivity. Qed.

(** An order for an IO thread whose event loop could not be made is gone with its
    queue, and with it the connection of the server. *)
Lemma restart_loses_orders :
  (λ w, (orderDeque_ <$> libeventIoPtrVect w, timerOrders w)) <$>
    run_events [EvInit 1 1 3 10 true true 100; EvAddSingle (lit "10.0.0.1:6379") []; EvReady 0 false] RedisAsync_new =
  Some ([[]], []).
Proof. vm_compute. reflexivity. Qed.

(** A failed INFO REPLICATION has no text, which the callback reads all the same. *)
Lemma failed_info_undefined fd w m :
  vectRedisCliMgr w !! fd = Some m → initState_ m ≠ REDIS_SVR_INVALID_STATE →
  infoReplicationCb CMD_SVR_CLOSER_CODE (Some fd) [] w = None.
Proof.
  intros Hm Hs. unfold infoReplicationCb, get_mgr. rewrite op_bind_find, Hm.
  destruct (Z.eqb_spec (initState_ m) REDIS_SVR_INVALID_STATE); [done|]. by rewrite op_bind_some.
Qed.

End RedisProofs.
