(* ===== verification/RedisTypes.v ===== *)
(** * Well-formed states of the asynchronous Redis client

    Every index that is kept somewhere is that of an object; the table of slots of
    each cluster agrees with its nodes; the timer's list is sorted; and a group of
    servers changes its state only in ways that are reported. All of it is shown
    in one pass over the operations. *)

From stdpp Require Import sorting.
From S2P Require Import Prelude CLib Incommon Atomic HashSlot RedisTopo TcpCli RedisWorld RedisConn RedisAsync RedisProofs.
Import RedisTools RedisTopo RedisWorld RedisConn RedisAsync RedisProofs.

Module RedisTypes.

(** ** Well-formedness, relative to the numbers of objects *)

Definition below (n : nat) (o : option nat) : Prop := ∀ c, o = Some c → (c < n)%nat.
Definition ms_ok (n : nat) (ms : RedisMasterSlave) : Prop := below n (master_ ms) ∧ Forall (below n) (slave_ ms).
Definition table_ok (info : RedisClusterInfo) : Prop :=
  ∀ slot, clusterSlotMap_ info !! slot = owner (clusterVectInfo_ info) slot.
Record mgr_ok (n nm : nat) (m : RedisClientMgr) : Prop := {
  mo_fd : (m_mgrFd_ m < nm)%nat;
  mo_node : below n (nodeCli_ m);
  mo_ms : ∀ ms, mSlaveCli_ m = Some ms → ms_ok n ms;
  mo_cluster : ∀ info, cluterCli_ m = Some info →
    Forall (λ nd, ms_ok n (clusterNode_ nd)) (clusterVectInfo_ info) ∧ table_ok info }.
Definition cli_ok (ni nm no : nat) (k : RedisClient) : Prop :=
  (ioIndex_ k < ni)%nat ∧ (mgrFd_ k < nm)%nat ∧ Forall (λ p, p.2 < no)%nat (cmdSeqOrderMap_ k).
Definition order_ok (nm : nat) (ord : OrderNode) : Prop :=
  ∀ cb, resultCb_ ord = Some cb → match cb with user_cb _ => True | _ => below nm (cmdPri_ ord) end.
Definition node_in (nc no : nat) (n : RedisCliOrderNode) : Prop := below nc (n_cli_ n) ∧ below no (n_cmdOrd_ n).
Definition io_ok (nc no : nat) (io : LibeventIo) : Prop :=
  Forall (node_in nc no) (orderDeque_ io) ∧ Forall (below nc) (ioRedisClients_ io).
Definition task_fd (t : Task) : option nat :=
  match t with
  | cmdReplyCallPool_task => None
  | asyncStateCallBack_task fd _ _ | asyncExceCallBack_task fd _ _ | redisSvrMgrInvalid_task fd
  | clusterNodesUpdate_task fd _ _ | infoReplicNodesUpdate_task fd _ => Some fd
  end.
Definition tasks (w : World) : list Task := default [] (callBackPoolPtr w).
Definition sorted_timer (l : list RedisCliOrderNode) : Prop :=
  Forall (λ n, 0 <= n_outSecond_ n) l ∧ StronglySorted (λ a b, n_outSecond_ a <= n_outSecond_ b) l.

Record Good (w : World) : Prop := {
  g_mgrs : Forall (mgr_ok (length (clients w)) (length (vectRedisCliMgr w))) (vectRedisCliMgr w);
  g_clients : Forall (cli_ok (length (libeventIoPtrVect w)) (length (vectRedisCliMgr w)) (length (orders w))) (clients w);
  g_orders : Forall (order_ok (length (vectRedisCliMgr w))) (orders w);
  g_timer : Forall (node_in (length (clients w)) (length (orders w))) (timerOrders w);
  g_sorted : sorted_timer (timerOrders w);
  g_ios : Forall (io_ok (length (clients w)) (length (orders w))) (libeventIoPtrVect w);
  g_results : Forall (λ o, o < length (orders w))%nat (cmdResults w);
  g_tasks : Forall (λ t, below (length (vectRedisCliMgr w)) (task_fd t)) (tasks w);
  g_threads : ioThreadNum_ w = Z.of_nat (length (libeventIoPtrVect w));
  g_used : vectRedisCliMgr w ≠ [] → ioThreadNum_ w ≠ 0;
  g_init : ioThreadNum_ w ≠ 0 → callBackNum_ w ≠ 0 ∧ keepSecond_ w ≠ 0 ∧ a_connOutSecond_ w ≠ 0 }.

(** ** How states develop

    Nothing disappears; a group of servers keeps its type, never leaves the invalid
    state, and a new state is announced by a task, but for that of a part of the
    servers. *)

Definition announced (t : list Task) (fd : nat) (m m' : RedisClientMgr) : Prop :=
  initState_ m' = initState_ m ∨
  initState_ m ≠ REDIS_SVR_INVALID_STATE ∧
  ((∃ msg, asyncStateCallBack_task fd (initState_ m') msg ∈ t) ∨
   initState_ m' = REDIS_EXCEPTION_STATE).
Definition mgrs_le (t : list Task) (l l' : list RedisClientMgr) : Prop := ∀ fd m, l !! fd = Some m →
  ∃ m', l' !! fd = Some m' ∧ svrType_ m' = svrType_ m ∧ announced t fd m m'.
Record le (w w' : World) : Prop := {
  le_clients : (length (clients w) <= length (clients w'))%nat;
  le_orders : (length (orders w) <= length (orders w'))%nat;
  le_ios : (length (libeventIoPtrVect w) <= length (libeventIoPtrVect w'))%nat;
  le_mgrs : (length (vectRedisCliMgr w) <= length (vectRedisCliMgr w'))%nat;
  le_tasks : ∃ t, tasks w' = tasks w ++ t ∧ mgrs_le t (vectRedisCliMgr w) (vectRedisCliMgr w') }.

Lemma announced_trans t1 t2 fd m1 m2 m3 :
  announced t1 fd m1 m2 → announced t2 fd m2 m3 → announced (t1 ++ t2) fd m1 m3.
Proof.
  intros H1 H2. destruct (decide (initState_ m3 = initState_ m1)) as [?|Hn]; [by left|right].
  destruct H2 as [E|(N2 & H2)].
  - rewrite E in *. destruct H1 as [?|(N1 & [[msg ?]|?])]; [done| |by split; [|right]].
    split; [done|]. left. exists msg. apply elem_of_app. by left.
  - split; [|destruct H2 as [[msg ?]|?]; [left; exists msg; apply elem_of_app; by right|by right]].
    destruct H1 as [E|[? _]]; [by rewrite <- E|done].
Qed.
Lemma mgrs_le_refl l : mgrs_le [] l l.
Proof. intros fd m H. exists m. split_and!; [done..|by left]. Qed.
#[export] Instance le_preorder : PreOrder le.
Proof.
  split.
  - intros w. split; [done..|]. exists []. rewrite app_nil_r. split; [done|apply mgrs_le_refl].
  - intros w1 w2 w3 [A1 A2 A3 A4 (t1 & E1 & M1)] [B1 B2 B3 B4 (t2 & E2 & M2)]. split; [lia..|].
    exists (t1 ++ t2). rewrite E2, E1, app_assoc. split; [done|]. intros fd m H.
    destruct (M1 _ _ H) as (m1 & H1 & S1 & N1), (M2 _ _ H1) as (m2 & H2 & S2 & N2).
    exists m2. split_and!; [done|congruence|by eapply announced_trans].
Qed.

(** What an operation knows of the objects it has at hand. *)
Inductive Ref :=
  | r_cli (o : option nat) | r_clis (l : list (option nat)) | r_order (o : nat) | r_fd (fd : nat) | r_io (i : nat)
  | r_mgr (m : RedisClientMgr) | r_map (l : list (Z * nat)) | r_order_node (ord : OrderNode).
Definition has (w : World) (x : Ref) : Prop :=
  match x with
  | r_cli o => below (length (clients w)) o
  | r_clis l => Forall (below (length (clients w))) l
  | r_order o => (o < length (orders w))%nat
  | r_fd fd => (fd < length (vectRedisCliMgr w))%nat
  | r_io i => (i < length (libeventIoPtrVect w))%nat
  | r_mgr m => mgr_ok (length (clients w)) (length (vectRedisCliMgr w)) m
  | r_map l => Forall (λ p, p.2 < length (orders w))%nat l
  | r_order_node ord => order_ok (length (vectRedisCliMgr w)) ord
  end.

Lemma below_le n n' o : (n <= n')%nat → below n o → below n' o.
Proof. intros Hn H c E. specialize (H c E). lia. Qed.
Lemma ms_ok_le n n' ms : (n <= n')%nat → ms_ok n ms → ms_ok n' ms.
Proof. intros Hn [H1 H2]. split; [by eapply below_le|]. eapply Forall_impl; [done|]. intros. by eapply below_le. Qed.
Lemma mgr_ok_le n n' nm nm' m : (n <= n')%nat → (nm <= nm')%nat → mgr_ok n nm m → mgr_ok n' nm' m.
Proof.
  intros H1 H2 [M1 M2 M3 M4]. split; [lia|by eapply below_le|..].
  - intros ms E. eapply ms_ok_le; [done|auto].
  - intros info E. destruct (M4 _ E) as [F ?]. split; [|done]. eapply Forall_impl; [done|]. intros. by eapply ms_ok_le.
Qed.
Lemma cli_ok_le ni nm no ni' nm' no' k :
  (ni <= ni')%nat → (nm <= nm')%nat → (no <= no')%nat → cli_ok ni nm no k → cli_ok ni' nm' no' k.
Proof. intros ??? (H1 & H2 & H3). split_and!; [lia..|]. eapply Forall_impl; [done|]. cbn. lia. Qed.
Lemma order_ok_le nm nm' ord : (nm <= nm')%nat → order_ok nm ord → order_ok nm' ord.
Proof. intros H Ho cb E. specialize (Ho cb E). destruct cb; [done|by eapply below_le..]. Qed.
Lemma node_in_le nc no nc' no' n : (nc <= nc')%nat → (no <= no')%nat → node_in nc no n → node_in nc' no' n.
Proof. intros ?? [? ?]. split; by eapply below_le. Qed.
Lemma io_ok_le nc no nc' no' io : (nc <= nc')%nat → (no <= no')%nat → io_ok nc no io → io_ok nc' no' io.
Proof.
  intros ?? [H1 H2]. split; (eapply Forall_impl; [done|]); intros; [by eapply node_in_le|by eapply below_le].
Qed.
Lemma has_le w w' x : le w w' → has w x → has w' x.
Proof.
  intros [H1 H2 H3 H4 _]. destruct x; cbn; intros H.
  - by eapply below_le.
  - eapply Forall_impl; [done|]. intros. by eapply below_le.
  - lia.
  - lia.
  - lia.
  - by eapply mgr_ok_le.
  - eapply Forall_impl; [done|]. cbn. lia.
  - by eapply order_ok_le.
Qed.

(** ** Operations *)

Definition okm {A} (m : M A) (Q : A → World → Prop) (w : World) : Prop := ∀ a w',
  m w = Some (a, w') → Good w' ∧ le w w' ∧ Q a w'.

Lemma okm_ret {A} (a : A) (Q : A → World → Prop) w : Good w → Q a w → okm (mret a) Q w.
Proof. by intros G H b w' [= <- <-]. Qed.
Lemma okm_bind {A B} (m : M A) (k : A → M B) Q1 Q w :
  okm m Q1 w → (∀ a w1, Good w1 → le w w1 → Q1 a w1 → okm (k a) Q w1) → okm (m ≫= k) Q w.
Proof.
  intros Hm Hk b w'. rewrite op_bind_run. destruct (m w) as [[a w1]|] eqn:E; [|done].
  intros Ek. destruct (Hm _ _ E) as (G1 & L1 & HQ). destruct (Hk _ _ G1 L1 HQ _ _ Ek) as (G2 & L2 & ?).
  split_and!; [done|by etrans|done].
Qed.
Lemma okm_weaken {A} (m : M A) (Q1 Q : A → World → Prop) w :
  okm m Q1 w → (∀ a w', le w w' → Q1 a w' → Q a w') → okm m Q w.
Proof. intros H HQ a w' E. destruct (H _ _ E) as (? & ? & ?). auto. Qed.
Lemma okm_undefined {A} (Q : A → World → Prop) w : okm op_undefined Q w.
Proof. by intros a w'. Qed.
Lemma okm_get {A} (f : World → A) w : Good w → okm (op_get f) (λ a w', w' = w ∧ a = f w) w.
Proof. by intros G a w' [= <- <-]. Qed.
Lemma okm_find {A} (f : World → option A) w : Good w → okm (op_find f) (λ a w', w' = w ∧ f w = Some a) w.
Proof. intros G a w'. unfold op_find. destruct (f w); [by intros [= <- <-]|done]. Qed.
Lemma okm_some {A} (o : option A) w : Good w → okm (op_some o) (λ a w', w' = w ∧ o = Some a) w.
Proof. intros G a w'. unfold op_some. destruct o; [by intros [= <- <-]|done]. Qed.

Lemma le_quiet w w' t :
  (length (clients w) <= length (clients w'))%nat → (length (orders w) <= length (orders w'))%nat →
  (length (libeventIoPtrVect w) <= length (libeventIoPtrVect w'))%nat →
  vectRedisCliMgr w' = vectRedisCliMgr w → tasks w' = tasks w ++ t → le w w'.
Proof.
  intros H1 H2 H3 E1 E2. split; [done..|by rewrite E1|]. exists t. rewrite E1. split; [done|].
  intros fd m H. exists m. split_and!; [done..|by left].
Qed.
(** Steps that change neither the managers nor the sizes. *)
Lemma okm_mod f (Q : () → World → Prop) w :
  Good (f w) → length (clients (f w)) = length (clients w) → length (orders (f w)) = length (orders w) →
  length (libeventIoPtrVect (f w)) = length (libeventIoPtrVect w) →
  vectRedisCliMgr (f w) = vectRedisCliMgr w → callBackPoolPtr (f w) = callBackPoolPtr w → Q () (f w) → okm (op_mod f) Q w.
Proof.
  intros G E1 E2 E3 E4 E5 HQ a w' [= <- <-]. split_and!; [done| |done].
  apply (le_quiet _ _ []); [lia..|done|]. unfold tasks. by rewrite E5, app_nil_r.
Qed.

Lemma okm_get_mgr fd w : Good w →
  okm (get_mgr fd) (λ m w', w' = w ∧ vectRedisCliMgr w !! fd = Some m ∧ has w (r_mgr m) ∧ has w (r_fd fd)) w.
Proof.
  intros G. eapply okm_weaken; [by apply okm_find|]. cbn. intros m w' _ [-> H].
  split_and!; [done..|eapply (Forall_lookup_1 _ _ _ _ (g_mgrs _ G) H)|by eapply lookup_lt_Some].
Qed.
Lemma okm_get_cli c w : Good w →
  okm (get_cli c) (λ k w', w' = w ∧ clients w !! c = Some k ∧ has w (r_cli (Some c)) ∧ has w (r_io (ioIndex_ k)) ∧
                           has w (r_fd (mgrFd_ k)) ∧ has w (r_map (cmdSeqOrderMap_ k))) w.
Proof.
  intros G. eapply okm_weaken; [by apply okm_find|]. cbn. intros k w' _ [-> H].
  destruct (Forall_lookup_1 _ _ _ _ (g_clients _ G) H) as (? & ? & ?).
  split_and!; try done. intros c' [= <-]. by eapply lookup_lt_Some.
Qed.
Lemma okm_get_order o w : Good w →
  okm (get_order o) (λ ord w', w' = w ∧ has w (r_order o) ∧ has w (r_order_node ord)) w.
Proof.
  intros G. eapply okm_weaken; [by apply okm_find|]. cbn. intros ord w' _ [-> H].
  split_and!; [done|by eapply lookup_lt_Some|exact (Forall_lookup_1 _ _ _ _ (g_orders _ G) H)].
Qed.

Lemma okm_set_mgr fd f w : Good w →
  (∀ m, vectRedisCliMgr w !! fd = Some m →
        svrType_ (f m) = svrType_ m ∧ initState_ (f m) = initState_ m ∧ has w (r_mgr (f m))) →
  okm (set_mgr fd f) (λ _ _, True) w.
Proof.
  intros G Hf [] w' [= <-]. split_and!; [|split|done]; cbn; rewrite ?length_alter; try done.
  - destruct G. split; cbn; rewrite ?length_alter; try done.
    + apply Forall_alter; [done|]. intros m Hm _. by destruct (Hf _ Hm) as (_ & _ & ?).
    + intros H. apply g_used0. intros E. by rewrite E in H.
  - exists []. rewrite app_nil_r. split; [done|]. intros fd' m H. destruct (decide (fd = fd')) as [<-|Hn].
    + rewrite list_lookup_alter_eq, H. destruct (Hf _ H) as (? & ? & _). eexists. split_and!; [done..|by left].
    + rewrite list_lookup_alter_ne by done. exists m. split_and!; [done..|by left].
Qed.

(** The managers are as before. *)
Definition same_mgrs {A} (w : World) (_ : A) (w' : World) : Prop := vectRedisCliMgr w' = vectRedisCliMgr w.
Lemma okm_set_cli c f w : Good w →
  (∀ k, clients w !! c = Some k → ioIndex_ (f k) = ioIndex_ k ∧ mgrFd_ (f k) = mgrFd_ k ∧ has w (r_map (cmdSeqOrderMap_ (f k)))) →
  okm (set_cli c f) (same_mgrs w) w.
Proof.
  intros G Hf. apply okm_mod; cbn; rewrite ?length_alter; try done.
  destruct G. split; cbn; rewrite ?length_alter; try done.
  apply Forall_alter; [done|]. intros k Hk (H1 & H2 & _). destruct (Hf _ Hk) as (E1 & E2 & ?).
  split_and!; [by rewrite E1|by rewrite E2|done].
Qed.
Definition same_map (f : RedisClient → RedisClient) : Prop :=
  ∀ k, ioIndex_ (f k) = ioIndex_ k ∧ mgrFd_ (f k) = mgrFd_ k ∧ cmdSeqOrderMap_ (f k) = cmdSeqOrderMap_ k.
Lemma okm_set_cli_same c f w : Good w → same_map f → okm (set_cli c f) (same_mgrs w) w.
Proof.
  intros G Hf. apply okm_set_cli; [done|]. intros k Hk. destruct (Hf k) as (-> & -> & ->). split_and!; [done..|].
  by destruct (Forall_lookup_1 _ _ _ _ (g_clients _ G) Hk) as (_ & _ & ?).
Qed.

Lemma okm_set_mgr_to fd m m' w : Good w → vectRedisCliMgr w !! fd = Some m →
  svrType_ m' = svrType_ m → initState_ m' = initState_ m → has w (r_mgr m') →
  okm (set_mgr fd (λ _, m')) (λ _ w', vectRedisCliMgr w' !! fd = Some m') w.
Proof.
  intros G Hm E1 E2 H a w' E. destruct (okm_set_mgr fd (λ _, m') w G) with a w' as (? & ? & _); [|done|].
  { intros m0 Hm0. by simplify_eq. }
  split_and!; [done..|]. injection E as <- <-. cbn. by rewrite list_lookup_alter_eq, Hm.
Qed.
Definition same_cb (f : OrderNode → OrderNode) : Prop := ∀ ord, resultCb_ (f ord) = resultCb_ ord ∧ cmdPri_ (f ord) = cmdPri_ ord.
Lemma okm_set_order o f w : Good w → same_cb f → okm (set_order o f) (same_mgrs w) w.
Proof.
  intros G Hf. apply okm_mod; cbn; rewrite ?length_alter; try done.
  destruct G. split; cbn; rewrite ?length_alter; try done.
  apply Forall_alter; [done|]. intros ord _ Ho. unfold order_ok. destruct (Hf ord) as [-> ->]. apply Ho.
Qed.

Lemma okm_set_io i f w : Good w →
  (∀ io, libeventIoPtrVect w !! i = Some io → io_ok (length (clients w)) (length (orders w)) (f io)) →
  okm (set_io i f) (same_mgrs w) w.
Proof.
  intros G Hf. apply okm_mod; cbn; rewrite ?length_alter; try done.
  destruct G. split; cbn; rewrite ?length_alter; try done.
  apply Forall_alter; [done|]. auto.
Qed.
Definition same_lists (f : LibeventIo → LibeventIo) : Prop :=
  ∀ io, orderDeque_ (f io) = orderDeque_ io ∧ ioRedisClients_ (f io) = ioRedisClients_ io.
Lemma okm_set_io_same i f w : Good w → same_lists f → okm (set_io i f) (same_mgrs w) w.
Proof.
  intros G Hf. apply okm_set_io; [done|]. intros io Hio. unfold io_ok. destruct (Hf io) as [-> ->].
  exact (Forall_lookup_1 _ _ _ _ (g_ios _ G) Hio).
Qed.
Lemma okm_emit x w : Good w → okm (emit x) (same_mgrs w) w.
Proof. intros G. apply okm_mod; try done. by destruct G. Qed.
Lemma okm_count f w : Good w → okm (op_mod (λ w, w <| asyncCmdNum ::= f |>)) (same_mgrs w) w.
Proof. intros G. apply okm_mod; try done. by destruct G. Qed.
Lemma okm_run t w : Good w → below (length (vectRedisCliMgr w)) (task_fd t) → okm (run t) (same_mgrs w) w.
Proof.
  intros G Ht [] w'. unfold run. destruct (callBackPoolPtr w) as [q|] eqn:Eq; [|done]. intros [= <-].
  split_and!; [|apply (le_quiet _ _ [t]); [done..|by unfold tasks; rewrite Eq]|done].
  pose proof (g_tasks _ G) as Hq. unfold tasks in Hq. rewrite Eq in Hq. destruct G. split; try done.
  unfold tasks. cbn. apply Forall_app. split; [done|by constructor].
Qed.

Lemma okm_new_order ord w : Good w → has w (r_order_node ord) → okm (new_order ord) (λ o w', has w' (r_order o)) w.
Proof.
  intros G Ho o w' [= <- <-]. split_and!.
  - destruct G. split; cbn; rewrite ?length_app; try done; cbn.
    + eapply Forall_impl; [done|]. intros k Hk. eapply cli_ok_le; [..|exact Hk]; lia.
    + apply Forall_app. split; [done|by constructor].
    + eapply Forall_impl; [done|]. intros n Hn. eapply node_in_le; [..|exact Hn]; lia.
    + eapply Forall_impl; [done|]. intros io Hio. eapply io_ok_le; [..|exact Hio]; lia.
    + eapply Forall_impl; [done|]. cbn. lia.
  - apply (le_quiet _ _ []); cbn; rewrite ?length_app; [lia..|done|by rewrite app_nil_r].
  - cbn. rewrite length_app. cbn. lia.
Qed.

Lemma insert_before_sorted node l : sorted_timer l → 0 <= n_outSecond_ node → sorted_timer (insert_before node l).
Proof.
  intros [Hp Hs] Hn. induction l as [|x l IH]; cbn; [split; repeat constructor; done|].
  apply Forall_cons in Hp as [Hx Hp]. apply StronglySorted_inv in Hs as [Hs Hl].
  destruct (Z.leb_spec (n_outSecond_ node) (n_outSecond_ x)) as [Hle|Hgt].
  - split; [by repeat constructor|]. constructor; [by constructor|].
    constructor; [done|]. eapply Forall_impl; [done|]. cbn. lia.
  - destruct (IH Hp Hs) as [HP HS]. split; [by constructor|]. constructor; [done|].
    assert (HE : insert_before node l ≡ₚ node :: l).
    { clear. induction l as [|y l IH]; cbn; [done|]. case_match; [done|]. rewrite IH. constructor. }
    rewrite HE. constructor; [lia|done].
Qed.
Lemma insertTimerOrder_sorted node l : sorted_timer l → 0 <= n_outSecond_ node → sorted_timer (insertTimerOrder node l).
Proof.
  intros H Hn. destruct l as [|x l]; [split; repeat constructor; done|]. unfold insertTimerOrder.
  destruct (Z.eqb_spec (n_outSecond_ node) 0); [|by apply insert_before_sorted].
  destruct H as [Hp Hs]. split; [by constructor|]. constructor; [done|]. eapply Forall_impl; [done|]. cbn. lia.
Qed.
Lemma okm_insert_timer t cli o w : Good w → has w (r_cli cli) → below (length (orders w)) o → 0 <= t →
  okm (insert_timer {| n_outSecond_ := t; n_cli_ := cli; n_cmdOrd_ := o |}) (same_mgrs w) w.
Proof.
  intros G Hc Ho Ht. apply okm_mod; try done. destruct G. split; try done; cbn.
  - rewrite insertTimerOrder_Permutation. constructor; [by split|done].
  - by apply insertTimerOrder_sorted.
Qed.

Lemma okm_has_callback o w : Good w → okm (has_callback o) (λ _ w', w' = w) w.
Proof.
  intros G. destruct o; [|by apply okm_ret]. eapply okm_bind; [by apply okm_get_order|]. intros ord w1 G1 _ (-> & _).
  by apply okm_ret.
Qed.
Lemma okm_libeventIoOrder i t cli o now w : Good w → has w (r_cli cli) → below (length (orders w)) o →
  okm (libeventIoOrder i {| n_outSecond_ := t; n_cli_ := cli; n_cmdOrd_ := o |} now) (same_mgrs w) w.
Proof.
  intros G Hc Ho. unfold libeventIoOrder. eapply okm_bind; [by apply okm_has_callback|]. intros b w1 G1 _ ->.
  eapply (okm_bind _ _ (λ _ w', length (clients w') = length (clients w) ∧ length (orders w') = length (orders w) ∧
    vectRedisCliMgr w' = vectRedisCliMgr w)).
  { destruct b; [|by apply okm_ret]. by apply okm_mod; try done; destruct G1. }
  intros _ w2 G2 _ (E1 & E2 & E3). eapply (okm_bind _ _ (same_mgrs w)).
  - unfold push_order. eapply okm_bind; [by apply okm_find|]. intros io w3 G3 _ [-> _].
    eapply okm_weaken; [apply okm_set_io; [done|]|unfold same_mgrs; by intros _ w' _ ->]. intros io' Hio.
    destruct (Forall_lookup_1 _ _ _ _ (g_ios _ G2) Hio) as [H1 H2]. split; [|done]. cbn.
    apply Forall_app. split; [done|]. constructor; [|done]. by split; cbn; [rewrite E1|rewrite E2].
  - intros ? w3 G3 _ E4. eapply okm_weaken; [by apply okm_set_io_same|]. intros ? w' _ E5.
    unfold same_mgrs in *. congruence.
Qed.
Lemma okm_insertCmdResult o w : Good w → has w (r_order o) → okm (insertCmdResult o) (same_mgrs w) w.
Proof.
  intros G Ho. eapply okm_bind; [apply (okm_mod _ (same_mgrs w)); try done|].
  - destruct G. split; try done. cbn. apply Forall_app. split; [done|by constructor].
  - intros ? w1 G1 _ E. eapply okm_weaken; [apply okm_run; [done|by intros c]|].
    intros ? w' _ E'. unfold same_mgrs in *. congruence.
Qed.

(** Operations that only give the pool tasks for group [fd], with [b] one that
    announces state [s]. *)
Definition pushes (fd : nat) (s : Z) (b : bool) (m : M ()) : Prop := ∀ w w', m w = Some ((), w') →
  ∃ q t, callBackPoolPtr w = Some q ∧ w' = w <| callBackPoolPtr := Some (q ++ t) |> ∧
    Forall (λ x, task_fd x = Some fd) t ∧ (b = true → ∃ msg, asyncStateCallBack_task fd s msg ∈ t).
Lemma pushes_run fd s t : task_fd t = Some fd → pushes fd s false (run t).
Proof.
  intros Ht w w'. unfold run. destruct (callBackPoolPtr w) as [q|]; [|done]. intros [= <-].
  exists q, [t]. split_and!; [done..|by constructor|done].
Qed.
Lemma pushes_announce fd s msg : pushes fd s true (run (asyncStateCallBack_task fd s msg)).
Proof.
  intros w w'. unfold run. destruct (callBackPoolPtr w) as [q|]; [|done]. intros [= <-].
  exists q, [asyncStateCallBack_task fd s msg]. split_and!; [done..|by constructor|]. exists msg. left.
Qed.
Lemma pushes_seq fd s b1 b2 (m1 m2 : M ()) :
  pushes fd s b1 m1 → pushes fd s b2 m2 → pushes fd s (b1 || b2) (_ ← m1; m2).
Proof.
  intros H1 H2 w w'. rewrite op_bind_run. destruct (m1 w) as [[[] w1]|] eqn:E1; [|done]. intros E2.
  destruct (H1 _ _ E1) as (q1 & t1 & Q1 & -> & F1 & A1), (H2 _ _ E2) as (q2 & t2 & Q2 & -> & F2 & A2).
  cbn in Q2. injection Q2 as <-. exists q1, (t1 ++ t2). split_and!; [done|by rewrite app_assoc|by apply Forall_app|].
  intros [Hb|Hb]%orb_prop; [destruct (A1 Hb) as [msg ?]|destruct (A2 Hb) as [msg ?]]; exists msg; apply elem_of_app; auto.
Qed.
Lemma pushes_reads {A} fd s b (m : M A) k :
  (∀ w a w', m w = Some (a, w') → w' = w) → (∀ a, pushes fd s b (k a)) → pushes fd s b (m ≫= k).
Proof.
  intros Hm Hk w w'. rewrite op_bind_run. destruct (m w) as [[a w1]|] eqn:E; [|done].
  apply Hm in E as ->. apply Hk.
Qed.
Lemma get_mgr_reads fd w a w' : get_mgr fd w = Some (a, w') → w' = w.
Proof. unfold get_mgr, op_find. case_match; [by intros [= _ <-]|done]. Qed.
Lemma exceMsgBuf_reads ip port err w a w' : exceMsgBuf ip port err w = Some (a, w') → w' = w.
Proof. unfold exceMsgBuf, sprintf1024. case_match; [by intros [= _ <-]|done]. Qed.
Lemma pushes_notify_state fd s : pushes fd s true (notify_state fd s).
Proof. apply pushes_reads; [apply get_mgr_reads|intros; apply pushes_announce]. Qed.
Lemma pushes_notify_exce fd s code : pushes fd s false (notify_exce fd code).
Proof. apply pushes_reads; [apply get_mgr_reads|intros; by apply pushes_run]. Qed.
Lemma pushes_report fd s ip port err code : pushes fd s false (report fd ip port err code).
Proof. apply pushes_reads; [apply exceMsgBuf_reads|intros; by apply pushes_run]. Qed.

(** A group of servers in a new state, which is announced. *)
Lemma okm_state fd s m0 (m : M ()) w :
  Good w → vectRedisCliMgr w !! fd = Some m0 → initState_ m0 ≠ REDIS_SVR_INVALID_STATE ∨ s = initState_ m0 →
  pushes fd s true m → okm (_ ← set_state fd s; m) (λ _ _, True) w.
Proof.
  intros G Hm Hs HP [] w' E. unfold set_state, set_mgr in E. rewrite op_bind_mod in E.
  destruct (HP _ _ E) as (q & t & Q & -> & F & A). clear E. cbn in Q. destruct (A eq_refl) as [msg Hin].
  assert (Hfd : (fd < length (vectRedisCliMgr w))%nat) by (by eapply lookup_lt_Some).
  split_and!; [|split|done]; cbn; rewrite ?length_alter; try done.
  - assert (GT : Forall (λ t, below (length (vectRedisCliMgr w)) (task_fd t)) (q ++ t)).
    { apply Forall_app. split; [pose proof (g_tasks _ G) as H; unfold tasks in H; by rewrite Q in H|].
      eapply Forall_impl; [done|]. intros x Hx c. rewrite Hx. by intros [= <-]. }
    destruct G. split; cbn; rewrite ?length_alter; try done.
    + apply Forall_alter; [done|]. intros m1 Hm' []. by split.
    + intros H. apply g_used0. intros E. by rewrite E in H.
  - exists t. split; [by unfold tasks; rewrite Q|]. intros fd' m1 H. destruct (decide (fd = fd')) as [<-|Hn].
    + rewrite list_lookup_alter_eq, H. simplify_eq. eexists. split_and!; [done..|].
      destruct Hs as [Hs| ->]; [right|by left]. split; [done|]. left. by exists msg.
    + rewrite list_lookup_alter_ne by done. exists m1. split_and!; [done..|by left].
Qed.
Lemma okm_enter_state fd s m0 w :
  Good w → vectRedisCliMgr w !! fd = Some m0 → initState_ m0 ≠ REDIS_SVR_INVALID_STATE →
  okm (enter_state fd s) (λ _ _, True) w.
Proof. intros. eapply okm_state; [done..|by left|apply pushes_notify_state]. Qed.

(** ** Going through an operation *)

Create HintDb okm.
#[export] Hint Resolve okm_get okm_find okm_some okm_get_mgr okm_get_cli okm_get_order okm_set_cli_same okm_set_order
  okm_set_io_same okm_emit okm_count okm_new_order okm_has_callback okm_insertCmdResult : okm.
#[export] Hint Extern 1 (okm (run _) _ _) =>
  apply okm_run; [assumption|first [by intros ?|by intros ? [= <-]]] : okm.
#[export] Hint Extern 1 (same_map _) => by intros [] : okm.
#[export] Hint Extern 1 (same_cb _) => by intros [] : okm.
#[export] Hint Extern 1 (same_lists _) => by intros [] : okm.
Ltac ok_spec := solve [eauto with okm | eapply okm_weaken; [eauto with okm|done]].
(** Group [fd] is not in the invalid state. *)
Definition valid_state (fd : nat) (w : World) : Prop := ∀ m, vectRedisCliMgr w !! fd = Some m → initState_ m ≠ REDIS_SVR_INVALID_STATE.
Lemma valid_same fd w w' : vectRedisCliMgr w' = vectRedisCliMgr w → valid_state fd w → valid_state fd w'.
Proof. unfold valid_state. by intros ->. Qed.
Lemma valid_now fd m s w :
  vectRedisCliMgr w !! fd = Some m → (initState_ m =? s) = true → s ≠ REDIS_SVR_INVALID_STATE → valid_state fd w.
Proof. intros Hm E%Z.eqb_eq Hs m' Hm'. simplify_eq. done. Qed.
Ltac ok_carry :=
  match goal with
  | L : le ?w ?w1 |- okm _ _ ?w1 =>
      repeat match goal with H : has w _ |- _ => apply (has_le _ _ _ L) in H end; clear L;
      try match goal with
      | E : same_mgrs w _ w1, H : valid_state ?fd w |- _ => apply (valid_same fd w w1 E) in H
      | F : valid_state ?fd w → valid_state ?fd w1, H : valid_state ?fd w |- _ => apply F in H
      end
  end.
Ltac ok_intro :=
  let G := fresh "G" in let L := fresh "L" in let Q := fresh "Q" in
  intros ? ? G L Q; cbn beta in Q; destruct_and?;
  try match goal with H : ?w1 = _ |- okm _ _ ?w1 => subst w1 end; ok_carry.
Ltac ok_step :=
  lazymatch goal with
  | |- okm (mret _) _ _ => apply okm_ret; [assumption|first [done|assumption]]
  | |- okm op_undefined _ _ => apply okm_undefined
  | |- okm (if ?b then _ else _) _ _ => let E := fresh "E" in destruct b eqn:E
  | |- okm (match ?x with _ => _ end) _ _ => let E := fresh "E" in destruct x eqn:E
  | |- okm (_ ≫= _) _ _ => eapply okm_bind; [ok_spec|ok_intro]
  | |- okm _ _ _ => ok_spec
  end.
Ltac ok := repeat ok_step.

Lemma slaves_below n l clients ip port c :
  Forall (below n) l → getRedisClient_slaves clients l ip port = Some c → (c < n)%nat.
Proof. induction 1 as [|o l Ho _ IH]; cbn; [done|]. destruct (isSelfSvrInfo _ _ _ _); [apply Ho|done]. Qed.
Lemma ms_below n ms clients ip port c :
  ms_ok n ms → getRedisClient_ms clients (Some ms) ip port = Some c → (c < n)%nat.
Proof.
  intros [H1 H2]. cbn. destruct (isSelfSvrInfo _ _ _ _); [apply H1|by apply slaves_below].
Qed.
Lemma nodes_below n nodes clients ip port c :
  Forall (λ nd, ms_ok n (clusterNode_ nd)) nodes → getRedisClient_nodes clients nodes ip port = Some c → (c < n)%nat.
Proof.
  induction 1 as [|nd l Hn _ IH]; [done|]. cbn [getRedisClient_nodes].
  destruct (getRedisClient_ms clients (Some (clusterNode_ nd)) ip port) eqn:E; [|done].
  intros [= <-]. by eapply ms_below.
Qed.
Lemma self_client_below n nm m clients ip port c :
  mgr_ok n nm m → self_client m clients ip port = Some c → (c < n)%nat.
Proof.
  intros [_ H1 H2 H3]. unfold self_client. destruct (isSelfSvrInfo _ _ _ _); [apply H1|].
  destruct (mSlaveCli_ m) as [ms|]; cbn [getRedisClient_ms].
  - destruct (getRedisClient_ms clients (Some ms) ip port) as [c'|] eqn:E; cbn [getRedisClient_ms] in E; rewrite E.
    + intros [= <-]. eapply ms_below; [by apply H2|done].
    + destruct (cluterCli_ m) as [info|]; [|done]. cbn. destruct (H3 _ eq_refl). by apply nodes_below.
  - destruct (cluterCli_ m) as [info|]; [|done]. cbn. destruct (H3 _ eq_refl). by apply nodes_below.
Qed.

Lemma u64_nonneg z : 0 <= u64 z.
Proof. apply (wrap_u_range 64). lia. Qed.
Lemma okm_reconnect fd ip port t w :
  Good w → (∀ w, Good w → okm t (λ a w', w' = w ∧ 0 <= a) w) → okm (reconnect fd ip port t) (same_mgrs w) w.
Proof.
  intros G Ht. unfold reconnect. ok_step. ok_step. ok_step; [|by apply okm_ret].
  eapply okm_bind; [by apply Ht|]. ok_intro. apply okm_insert_timer; [done|cbn|done..].
  intros c [= <-]. subst. by eapply self_client_below.
Qed.
Lemma okm_reconnectAtOnece fd ip port w : Good w → okm (reconnectAtOnece fd ip port) (same_mgrs w) w.
Proof. intros G. apply okm_reconnect; [done|]. intros. by apply okm_ret. Qed.
Lemma okm_delay_time w : Good w → okm delay_time (λ a w', w' = w ∧ 0 <= a) w.
Proof. intros G. eapply okm_weaken; [by apply okm_get|]. cbn. intros a w' _ [-> ->]. split; [done|apply u64_nonneg]. Qed.
Lemma okm_delayReconnect fd ip port w : Good w → okm (delayReconnect fd ip port) (same_mgrs w) w.
Proof. intros G. apply okm_reconnect; [done|]. apply okm_delay_time. Qed.
Lemma okm_sprintf s w : Good w → okm (sprintf1024 s) (λ _ w', w' = w) w.
Proof. intros G. unfold sprintf1024. ok. Qed.
Lemma okm_exceMsgBuf ip port err w : Good w → okm (exceMsgBuf ip port err) (λ _ w', w' = w) w.
Proof. apply okm_sprintf. Qed.
#[export] Hint Resolve okm_reconnectAtOnece okm_delayReconnect okm_delay_time okm_sprintf okm_exceMsgBuf : okm.

Lemma count_at_quiet n nm place b c m :
  let m' := (count_at place b c m).2 in
  svrType_ m' = svrType_ m ∧ initState_ m' = initState_ m ∧ (mgr_ok n nm m → mgr_ok n nm m').
Proof.
  unfold count_at, count_master, count_slave. cbn. repeat case_match; (split_and!; [done..|]); intros []; by split.
Qed.
Lemma okm_ms_conns fd ip port b w : Good w → okm (ms_conns fd ip port b) (λ _ w', valid_state fd w → valid_state fd w') w.
Proof.
  intros G. unfold ms_conns. ok_step. ok_step. destruct a0 as [place m'].
  assert (HQ : svrType_ m' = svrType_ a ∧ initState_ m' = initState_ a ∧ has w (r_mgr m')).
  { unfold infoReplicConnsUpdate in *. destruct (mSlaveCli_ a); simplify_eq; [|done].
    match goal with H : (_, _) = count_at ?p ?b ?c a |- _ =>
      destruct (count_at_quiet (length (clients w)) (length (vectRedisCliMgr w)) p b c a) as (? & ? & ?); rewrite <- H in * end.
    cbn in *. auto. }
  destruct HQ as (E1 & E2 & E3). eapply okm_bind; [eapply okm_set_mgr_to; [done|eassumption|done..]|].
  ok_intro. apply okm_ret; [done|]. unfold valid_state. intros HV m0 Hm0. simplify_eq. rewrite E2. by apply HV.
Qed.
Lemma okm_cluster_conns fd ip port b c w : Good w → okm (cluster_conns fd ip port b c) (λ _ w', valid_state fd w → valid_state fd w') w.
Proof.
  intros G. unfold cluster_conns. ok_step. ok_step. destruct a0 as [place m'].
  assert (HQ : svrType_ m' = svrType_ a ∧ initState_ m' = initState_ a ∧ has w (r_mgr m')).
  { unfold clusterRedisConnsUpdate in *. destruct (cluterCli_ a); simplify_eq; [|done].
    match goal with H : (_, _) = count_at ?p ?b ?c a |- _ =>
      destruct (count_at_quiet (length (clients w)) (length (vectRedisCliMgr w)) p b c a) as (? & ? & ?); rewrite <- H in * end.
    cbn in *. auto. }
  destruct HQ as (E1 & E2 & E3). eapply okm_bind; [eapply okm_set_mgr_to; [done|eassumption|done..]|].
  ok_intro. apply okm_ret; [done|]. unfold valid_state. intros HV m0 Hm0. simplify_eq. rewrite E2. by apply HV.
Qed.
#[export] Hint Resolve okm_ms_conns okm_cluster_conns : okm.

Lemma okm_state_valid fd s (m : M ()) w :
  Good w → has w (r_fd fd) → valid_state fd w → pushes fd s true m → okm (_ ← set_state fd s; m) (λ _ _, True) w.
Proof.
  intros G [m0 Hm]%lookup_lt_is_Some HV HP. eapply okm_state; [done|done|left; by apply HV|done].
Qed.
Lemma okm_enter_valid fd s w : Good w → has w (r_fd fd) → valid_state fd w → okm (enter_state fd s) (λ _ _, True) w.
Proof. intros. apply okm_state_valid; [done..|apply pushes_notify_state]. Qed.
Lemma okm_notify_state fd s w : Good w → okm (notify_state fd s) (same_mgrs w) w.
Proof. intros G. unfold notify_state. ok. Qed.
Lemma okm_notify_exce fd s w : Good w → okm (notify_exce fd s) (same_mgrs w) w.
Proof. intros G. unfold notify_exce. ok. Qed.
Lemma okm_report fd ip port err code w : Good w → has w (r_fd fd) → okm (report fd ip port err code) (same_mgrs w) w.
Proof.
  intros G Hfd. unfold report. ok_step. apply okm_run; [done|]. intros c [= <-]. done.
Qed.
#[export] Hint Resolve okm_enter_valid okm_notify_state okm_notify_exce okm_report : okm.
#[export] Hint Extern 2 (okm (run _) _ _) => apply okm_run; [assumption|intros ? [= <-]; assumption] : okm.
(** The state was just compared. *)
Ltac ok_valid :=
  match goal with
  | E : (initState_ ?m =? ?s) = true, H : vectRedisCliMgr ?w !! ?fd = Some ?m |- okm _ _ ?w =>
      assert (valid_state fd w) by (by apply (valid_now fd m s w H E)); clear E
  end.

Lemma okm_state_then fd s (m1 m2 m3 : M ()) w :
  Good w → has w (r_fd fd) → valid_state fd w → pushes fd s true (_ ← m1; m2) →
  (∀ w', Good w' → okm m3 (λ _ _, True) w') → okm (_ ← set_state fd s; _ ← m1; _ ← m2; m3) (λ _ _, True) w.
Proof.
  intros G H HV HP H3 a w' E.
  assert (HB : okm ((_ ← set_state fd s; _ ← m1; m2) ≫= λ _, m3) (λ _ _, True) w).
  { eapply okm_bind; [by apply okm_state_valid|]. intros. by apply H3. }
  apply (HB a w'). rewrite <- E. unfold mbind, Op_bind. destruct (set_state fd s w) as [[? w1]|]; [|done].
  by destruct (m1 w1) as [[? w2]|].
Qed.

Section onConnect.
Variables (fd : nat) (state : Z) (ip : bytes) (port : Z) (err : bytes).

Lemma okm_master_lost w : Good w → has w (r_fd fd) → valid_state fd w → okm (master_lost fd ip port err) (λ _ _, True) w.
Proof.
  intros G H HV. unfold master_lost. ok_step. apply okm_state_valid; [done..|].
  apply (pushes_seq fd _ true false); [apply pushes_announce|by apply pushes_run].
Qed.
Lemma okm_run_when_all_up w : Good w → has w (r_fd fd) → valid_state fd w → okm (run_when_all_up fd) (λ _ _, True) w.
Proof. intros G H HV. unfold run_when_all_up. ok. Qed.
Lemma okm_cluster_disconnected w : Good w → has w (r_fd fd) →
  okm (cluster_disconnected fd ip port err) (λ _ w', valid_state fd w → valid_state fd w') w.
Proof.
  intros G H. unfold cluster_disconnected. eapply okm_bind; [by apply okm_report|]. intros ? w1 G1 L1 E1.
  eapply okm_bind; [by apply okm_cluster_conns|]. intros ? w2 G2 L2 E2.
  eapply (okm_bind _ _ (same_mgrs w2)); [destruct (_ =? _); [by apply okm_ret|by apply okm_reconnectAtOnece]|].
  intros ? w3 G3 L3 E3. apply okm_ret; [done|]. intros HV. eapply valid_same; [done|]. apply E2. by eapply valid_same.
Qed.
#[local] Hint Resolve okm_master_lost okm_run_when_all_up okm_cluster_disconnected : okm.

Lemma okm_onConnect_single w : Good w → okm (onConnect_single fd state ip port err) (λ _ _, True) w.
Proof.
  intros G. unfold onConnect_single. ok_step. ok_step.
  - match goal with E : _ || _ = true |- _ => apply orb_prop in E as [E|E] end; ok_valid; ok.
  - ok_step; [|ok]. ok_valid. ok_step; [|ok].
    apply okm_state_then; [done..| |intros; ok].
    apply (pushes_seq fd _ false true); [apply pushes_report|apply pushes_notify_state].
Qed.
Lemma okm_onConnect_ms w : Good w → okm (onConnect_ms fd state ip port err) (λ _ _, True) w.
Proof. intros G. unfold onConnect_ms. ok_step. ok_step; [ok_valid|]; ok. Qed.
Lemma okm_onConnect_cluster w : Good w → okm (onConnect_cluster fd state ip port err) (λ _ _, True) w.
Proof. intros G. unfold onConnect_cluster. ok_step. repeat (ok_step; [ok_valid; ok|]). ok. Qed.
Lemma okm_redisSvrOnConnect w : Good w → okm (redisSvrOnConnect fd state ip port err) (λ _ _, True) w.
Proof.
  intros G. unfold redisSvrOnConnect. ok_step.
  match goal with E : ?m = vectRedisCliMgr w !! fd |- _ => symmetry in E; destruct m; [|ok] end.
  assert (has w (r_fd fd)) by (by eapply lookup_lt_Some).
  ok_step; [ok|]. ok_step; [by apply okm_onConnect_single|]. ok_step; [by apply okm_onConnect_ms|].
  ok_step; [by apply okm_onConnect_cluster|ok].
Qed.
End onConnect.
#[export] Hint Resolve okm_redisSvrOnConnect : okm.

(** ** Connections *)

Lemma okm_on_connect c state err w : Good w → okm (on_connect c state err) (λ _ _, True) w.
Proof. intros G. unfold on_connect. ok. Qed.
Lemma okm_finish_order o f w : Good w → has w (r_order o) → same_cb f → okm (finish_order o f) (λ _ _, True) w.
Proof. intros G Ho Hf. unfold finish_order. ok. Qed.
Lemma okm_each {A} (f : A → M ()) l w :
  Good w → (∀ x w', x ∈ l → Good w' → le w w' → okm (f x) (λ _ _, True) w') → okm (op_each f l) (λ _ _, True) w.
Proof.
  revert w. induction l as [|x l IH]; intros w G Hf; cbn [op_each]; [by apply okm_ret|].
  eapply okm_bind; [apply Hf; [left|done|done]|]. intros _ w1 G1 L1 _. apply IH; [done|].
  intros y w2 Hy G2 L2. apply Hf; [by right|done|by etrans].
Qed.
Lemma okm_clearCmdReqBuf c w : Good w → okm (clearCmdReqBuf c) (λ _ _, True) w.
Proof.
  intros G. unfold clearCmdReqBuf. ok_step. apply okm_each; [done|]. intros p w' Hp G' L'.
  apply okm_finish_order; [done| |by intros []]. eapply (has_le _ _ (r_order p.2)); [done|].
  match goal with H : has w (r_map _) |- _ => cbn in H; rewrite Forall_forall in H; by apply H end.
Qed.
#[export] Hint Resolve okm_on_connect okm_clearCmdReqBuf : okm.
Lemma okm_freeTimeEvent c w : Good w → okm (freeTimeEvent c) (λ _ _, True) w.
Proof. intros G. unfold freeTimeEvent. ok. Qed.
#[export] Hint Resolve okm_freeTimeEvent : okm.
Lemma okm_disConnect_with c b m w :
  Good w → (∀ w, Good w → okm m (λ _ _, True) w) → okm (disConnect_with c b m) (λ _ _, True) w.
Proof.
  intros G Hm. unfold disConnect_with. ok_step. ok_step; [ok|]. ok_step. ok_step.
  eapply (okm_bind _ _ (λ _ _, True)); [|ok_intro; ok]. destruct (client_ _ && b); [|ok].
  eapply okm_bind; [by apply Hm|]. ok_intro. ok.
Qed.
Lemma okm_disconnectCallback c err w : Good w → okm (disconnectCallback c err) (λ _ _, True) w.
Proof.
  intros G. unfold disconnectCallback. ok_step.
  eapply okm_bind; [apply okm_disConnect_with; [done|intros; by apply okm_ret]|]. ok_intro. ok.
Qed.
Lemma okm_disConnect c b sync w : Good w → okm (disConnect c b sync) (λ _ _, True) w.
Proof.
  intros G. apply okm_disConnect_with; [done|]. intros. destruct sync; [by apply okm_disconnectCallback|by apply okm_ret].
Qed.
#[export] Hint Resolve okm_disconnectCallback okm_disConnect : okm.
Lemma okm_connectTimeout c sync w : Good w → okm (connectTimeout c sync) (λ _ _, True) w.
Proof. intros G. unfold connectTimeout. ok. Qed.
Lemma okm_setStateConnected c now w : Good w → okm (setStateConnected c now) (λ _ _, True) w.
Proof. intros G. unfold setStateConnected. ok. Qed.
#[export] Hint Resolve okm_connectTimeout okm_setStateConnected : okm.
Lemma okm_connectCallback c failed now w : Good w → okm (connectCallback c failed now) (λ _ _, True) w.
Proof. intros G. unfold connectCallback. ok. Qed.
Lemma okm_connectServer c b ans w : Good w → okm (connectServer c b ans) (λ _ _, True) w.
Proof. intros G. unfold connectServer. ok. Qed.
#[export] Hint Resolve okm_connectCallback okm_connectServer : okm.

Lemma okm_requestCmd c o now ret w : Good w → has w (r_order o) → okm (requestCmd c o now ret) (λ _ _, True) w.
Proof.
  intros G Ho. unfold requestCmd. ok_step. ok_step. unfold getAndAdd. ok_step. ok_step; [ok|]. ok_step.
  ok_step; [ok|]. ok_step. eapply okm_weaken; [apply okm_set_cli; [done|]|done].
  intros k Hk. split_and!; [done..|]. cbn. apply Forall_forall. intros p [->|Hp]%seq_insert_elem; [done|].
  destruct (Forall_lookup_1 _ _ _ _ (g_clients _ ltac:(eassumption)) Hk) as (_ & _ & HF).
  rewrite Forall_forall in HF. by apply HF.
Qed.

Lemma okm_expire_orders c now m w : Good w → has w (r_map m) → okm (expire_orders c now m) (λ rest w', has w' (r_map rest)) w.
Proof.
  revert w. induction m as [|[seq o] m IH]; intros w G Hm; cbn [expire_orders]; [by apply okm_ret|].
  apply Forall_cons in Hm as [Ho Hm]. ok_step. ok_step.
  - eapply okm_bind; [apply okm_finish_order; [done..|by intros []]|]. intros _ w1 G1 L1 _.
    apply IH; [done|]. by eapply (has_le _ _ (r_map m)).
  - eapply okm_bind; [by apply IH|]. intros rest w1 G1 L1 Hr. apply okm_ret; [done|].
    constructor; [|done]. by eapply (has_le _ _ (r_order o)).
Qed.
Lemma okm_checkOutSecondCmd c now clock w : Good w → okm (checkOutSecondCmd c now clock) (λ _ _, True) w.
Proof.
  intros G. unfold checkOutSecondCmd. set (now' := if now =? 0 then clock else now). ok_step.
  eapply (okm_bind _ _ (λ _ _, True)); [repeat ok_step|ok_intro].
  eapply okm_bind; [by apply okm_expire_orders|]. intros rest w9 G9 L9 Hr.
  eapply okm_weaken; [apply okm_set_cli; [done|]|done]. intros k Hk. by split_and!.
Qed.
Lemma okm_requestCallBack c seq reply w : Good w → okm (requestCallBack c seq reply) (λ _ _, True) w.
Proof.
  intros G. unfold requestCallBack. ok_step. destruct (list_find _ _) as [[i [seq' o]]|] eqn:El; [|ok].
  apply list_find_Some in El as (Hi & _ & _).
  destruct (match reply with Some r => reply_result r | None => _ end) as [code result].
  assert (Ho : has w (r_order o)).
  { match goal with H : has w (r_map _) |- _ => exact (Forall_lookup_1 _ _ _ _ H Hi) end. }
  eapply okm_bind; [apply okm_finish_order; [done..|by intros []]|]. ok_intro.
  eapply okm_weaken; [apply okm_set_cli; [done|]|done]. intros k Hk. split_and!; [done..|]. cbn. apply Forall_delete.
  by destruct (Forall_lookup_1 _ _ _ _ (g_clients _ ltac:(eassumption)) Hk) as (_ & _ & ?).
Qed.
#[export] Hint Resolve okm_requestCmd okm_checkOutSecondCmd okm_requestCallBack : okm.
Lemma okm_cmdCallback c seq reply w : Good w → okm (cmdCallback c seq reply) (λ _ _, True) w.
Proof. intros G. unfold cmdCallback. ok. Qed.

(** ** The IO threads *)

Lemma okm_expire_request o code w : Good w → okm (expire_request o code) (λ _ _, True) w.
Proof. intros G. unfold expire_request. ok. Qed.
#[export] Hint Resolve okm_cmdCallback okm_expire_request : okm.
Lemma okm_add_client i c w : Good w → has w (r_cli (Some c)) →
  okm (set_io i (λ io, io <| ioRedisClients_ ::= ioAddRedisClient c |>)) (λ _ _, True) w.
Proof.
  intros G Hc. eapply okm_weaken; [apply okm_set_io; [done|]|done]. intros io Hio.
  destruct (Forall_lookup_1 _ _ _ _ (g_ios _ G) Hio) as [H1 H2]. split; [done|]. cbn. unfold ioAddRedisClient.
  case_decide; [done|]. apply Forall_app. split; [|by constructor]. apply Forall_fmap.
  eapply Forall_impl; [done|]. by intros [].
Qed.
Lemma okm_drop_client i c w : Good w →
  okm (set_io i (λ io, io <| ioRedisClients_ ::= ioDisRedisClient c |>)) (λ _ _, True) w.
Proof.
  intros G. eapply okm_weaken; [apply okm_set_io; [done|]|done]. intros io Hio.
  destruct (Forall_lookup_1 _ _ _ _ (g_ios _ G) Hio) as [H1 H2]. split; [done|]. cbn. unfold ioDisRedisClient.
  apply Forall_fmap. eapply Forall_impl; [done|]. intros o Ho. cbn. by case_decide.
Qed.
#[export] Hint Resolve okm_add_client okm_drop_client : okm.
Lemma okm_handle_order i node ans w : Good w → node_in (length (clients w)) (length (orders w)) node →
  okm (handle_order i node ans) (λ _ _, True) w.
Proof.
  intros G [Hc Ho]. destruct node as [out cli ord]. cbn in *. unfold handle_order, get_io. cbn.
  assert (has w (r_cli cli)) by done. destruct ord as [o|]; cbn.
  - assert (has w (r_order o)) by (by apply Ho). ok.
  - ok.
Qed.
Lemma okm_check_client i ans j w : Good w → okm (check_client i ans j) (λ _ _, True) w.
Proof. intros G. unfold check_client, get_io. ok. Qed.
#[export] Hint Resolve okm_check_client : okm.

Lemma okm_get_io i w : Good w →
  okm (get_io i) (λ io w', w' = w ∧ libeventIoPtrVect w !! i = Some io ∧ io_ok (length (clients w)) (length (orders w)) io) w.
Proof.
  intros G. eapply okm_weaken; [by apply okm_find|]. cbn. intros io w' _ [-> H].
  split_and!; [done..|exact (Forall_lookup_1 _ _ _ _ (g_ios _ G) H)].
Qed.
#[export] Hint Resolve okm_get_io : okm.
Lemma okm_io_restart i w : Good w → okm (io_restart i) (λ _ _, True) w.
Proof.
  intros G. unfold io_restart. ok_step. ok_step; [ok|].
  eapply okm_weaken; [apply okm_set_io; [done|]|done]. intros io _. split; constructor.
Qed.
#[export] Hint Resolve okm_io_restart : okm.
Lemma okm_libeventIoReady i b w : Good w → okm (libeventIoReady i b) (λ _ _, True) w.
Proof. intros G. unfold libeventIoReady. ok. Qed.
Lemma okm_io_return i w : Good w → okm (io_return i) (λ _ _, True) w.
Proof. intros G. unfold io_return. ok. Qed.
Lemma okm_handleRead_begin i w : Good w → okm (handleRead_begin i) (λ _ _, True) w.
Proof. intros G. unfold handleRead_begin. ok. Qed.
Lemma okm_handleRead_end i one ans w : Good w → okm (handleRead_end i one ans) (λ _ _, True) w.
Proof.
  intros G. unfold handleRead_end. ok_step. ok_step; [ok|]. ok_step. ok_step; [ok|]. ok_step; [ok|].
  eapply okm_bind; [apply okm_each; [done|]; intros; by apply okm_check_client|]. ok_intro. ok.
Qed.
Lemma okm_handleRead_round i ans w : Good w → okm (handleRead_round i ans) (λ _ _, True) w.
Proof.
  intros G. unfold handleRead_round. eapply okm_bind; [by apply okm_get_io|].
  intros io w1 _ _ (-> & Hio & [H1 H2]). destruct (pc io); try apply okm_undefined.
  unfold dealOrderNode. destruct (orderDeque_ io) as [|node l]; [by apply okm_handleRead_end|].
  apply Forall_cons in H1 as [Hn Hl]. eapply okm_bind; [apply okm_set_io; [done|]; by split|].
  intros ? w1 G1 L1 _. apply okm_handle_order; [done|]. destruct L1. by eapply node_in_le.
Qed.

(** ** [RedisAsync] *)

Lemma okm_io_of cli w : Good w → okm (io_of cli) (λ i w', w' = w ∧ has w (r_cli cli)) w.
Proof.
  intros G. unfold io_of. destruct cli as [c|]; [|by intros a w'].
  intros a w'. rewrite op_bind_some. cbn. unfold get_cli. rewrite op_bind_find.
  destruct (clients w !! c) as [k|] eqn:E; [|done]. intros [= <- <-]. split_and!; [done..|].
  intros ? [= <-]. by eapply lookup_lt_Some.
Qed.
#[export] Hint Resolve okm_io_of : okm.
Lemma okm_order_now cli cmd out w : Good w → below (length (orders w)) cmd →
  okm (order_now cli cmd out) (same_mgrs w) w.
Proof. intros G Ho. unfold order_now. ok_step. ok_step. by apply okm_libeventIoOrder. Qed.
Lemma okm_connect_new c w : Good w → okm (connect_new c) (same_mgrs w) w.
Proof. intros G. by apply okm_order_now. Qed.
Lemma okm_order_later cli o w : Good w → has w (r_cli cli) → has w (r_order o) → okm (order_later cli o) (same_mgrs w) w.
Proof.
  intros G Hc Ho. unfold order_later. ok_step. apply okm_insert_timer; [done..| |done]. by intros ? [= <-].
Qed.
Lemma okm_time_limit out w : Good w → okm (time_limit out) (λ _ w', w' = w) w.
Proof. intros G. unfold time_limit. eapply okm_weaken; [by apply okm_get|]. by intros ? ? _ [-> _]. Qed.
#[export] Hint Resolve okm_connect_new okm_order_later okm_time_limit : okm.

(** The internal orders name their manager. *)
Lemma order_for_mgr msg cb fd w : has w (r_fd fd) → has w (r_order_node (OrderNode_new msg cb (Some fd))).
Proof. intros H c _. destruct c; [done|by intros ? [= <-]..]. Qed.
Lemma order_with_limit ord out limit w : has w (r_order_node ord) → has w (r_order_node (with_limit out limit ord)).
Proof. done. Qed.
Lemma okm_new_now ord cli out w : Good w → has w (r_order_node ord) →
  okm (o ← new_order ord; order_now cli (Some o) out) (λ _ _, True) w.
Proof.
  intros G Ho. ok_step. eapply okm_weaken; [apply okm_order_now; [done..|]|done]. by intros ? [= <-].
Qed.
Lemma okm_new_later ord cli w : Good w → has w (r_order_node ord) → has w (r_cli cli) →
  okm (o ← new_order ord; order_later cli o) (λ _ _, True) w.
Proof. intros G Ho Hc. ok. Qed.
Lemma mgr_node w m : has w (r_mgr m) → has w (r_cli (nodeCli_ m)).
Proof. by intros []. Qed.

Lemma okm_clusterNodesUpdate fd d b w : Good w → okm (clusterNodesUpdate fd d b) (λ _ _, True) w.
Proof.
  intros G. unfold clusterNodesUpdate. ok_step. ok_step.
  - apply okm_new_later; [done|by apply order_for_mgr|by apply mgr_node].
  - ok_step. by apply okm_new_now, order_with_limit, order_for_mgr.
Qed.
Lemma okm_infoReplicNodesUpdate fd d w : Good w → okm (infoReplicNodesUpdate fd d) (λ _ _, True) w.
Proof.
  intros G. unfold infoReplicNodesUpdate. ok_step.
  destruct d; [apply okm_new_later|apply okm_new_now]; first [done|by apply order_for_mgr|by apply mgr_node].
Qed.
Lemma okm_updateNodesInfo fd w : Good w → okm (updateNodesInfo fd) (λ _ _, True) w.
Proof.
  intros G. unfold updateNodesInfo. ok_step. ok_step; [ok|]. ok_step. ok_step; [ok|]. ok_step; [|ok]. ok_step.
  apply okm_new_now; [done|]. by intros [] _.
Qed.
#[export] Hint Resolve okm_clusterNodesUpdate okm_infoReplicNodesUpdate okm_updateNodesInfo : okm.

(** ** What the readers of replies return *)

Definition gives {A} (m : An A) (Q : A → Scan → Prop) (s : Scan) : Prop :=
  match m s with (inr a, s') => Q a s' | _ => True end.
Lemma gives_ret {A} (a : A) (Q : A → Scan → Prop) s : Q a s → gives (mret a) Q s.
Proof. done. Qed.
Lemma gives_bind {A B} (m : An A) (k : A → An B) Q s :
  gives m (λ a s', gives (k a) Q s') s → gives (m ≫= k) Q s.
Proof. unfold gives, mbind, An_bind. by destruct (m s) as [[?|a] s']. Qed.
Lemma gives_any {A B} (m : An A) (k : A → An B) Q s : (∀ a s', m s = (inr a, s') → gives (k a) Q s') → gives (m ≫= k) Q s.
Proof. intros H. apply gives_bind. unfold gives at 1. destruct (m s) as [[?|a] s'] eqn:E; [done|by apply H]. Qed.
Lemma gives_same {A B} (m : An A) (k : A → An B) Q s :
  (∀ a s', m s = (inr a, s') → s' = s) → (∀ a, gives (k a) Q s) → gives (m ≫= k) Q s.
Proof. intros Hm Hk. apply gives_any. intros a s' E. apply Hm in E as ->. apply Hk. Qed.
Lemma need_same {A} code (o : option A) s a s' : need code o s = (inr a, s') → s' = s.
Proof. destruct o; by intros [= _ <-]. Qed.
Lemma bind_same {A B} (m : An A) (k : A → An B) :
  (∀ s a s', m s = (inr a, s') → s' = s) → (∀ a s b s', k a s = (inr b, s') → s' = s) →
  ∀ s b s', (m ≫= k) s = (inr b, s') → s' = s.
Proof.
  intros Hm Hk s b s'. unfold mbind, An_bind. destruct (m s) as [[?|a] s1] eqn:E; [done|].
  intros Ek. apply Hk in Ek as ->. by eapply Hm.
Qed.
Lemma slave_addr_same line s a s' : slave_addr line s = (inr a, s') → s' = s.
Proof. unfold slave_addr. revert s a s'. repeat (apply bind_same; [intros ??; apply need_same|intros ?]). by intros ??? [= _ <-]. Qed.
Lemma after_colon_same line s a s' : after_colon line s = (inr a, s') → s' = s.
Proof. unfold after_colon. revert s a s'. apply bind_same; [intros ??; apply need_same|]. by intros ???? [= _ <-]. Qed.
Lemma at_same {A} (v : list A) i s a s' : at_ v i s = (inr a, s') → s' = s.
Proof. unfold at_. destruct (v !! i); by intros [= _ <-]. Qed.
Lemma count_same c n s a s' : count_conn c n s = (inr a, s') → s' = s.
Proof. unfold count_conn, mbind, An_bind, scan. destruct (connected _ _); by intros [= _ <-]. Qed.
Lemma node_connected_same m s a s' : node_connected m s = (inr a, s') → s' = s.
Proof. unfold node_connected. destruct (nodeCli_ m); by intros [= _ <-]. Qed.

Section gives.
Variables (nm : nat) (mgr : RedisClientMgr) (par : Par).
(** The new manager is well-formed and in the state of the one before. *)
Definition renewed (r : Z * RedisClientMgr) (s : Scan) : Prop :=
  mgr_ok (length (heap s)) nm r.2 ∧ svrType_ r.2 = svrType_ mgr ∧ initState_ r.2 = initState_ mgr.
Definition room (s : Scan) : Prop := mgr_ok (length (heap s)) nm mgr.

Lemma room_grows s s' : (length (heap s) <= length (heap s'))%nat → room s → room s'.
Proof. intros H. apply mgr_ok_le; lia. Qed.
Lemma gives_find f info (s : Scan) : below (length (heap s)) f →
  gives (find_or_new mgr par f info) (λ c s', length (heap s) <= length (heap s') ∧ c < length (heap s'))%nat s.
Proof.
  intros Hf. destruct f as [c|]; [split; [done|by apply Hf]|]. unfold gives. cbn. rewrite length_app. cbn. lia.
Qed.
Lemma known_client_room s info : room s → below (length (heap s)) (known_client mgr (heap s) info).
Proof.
  intros [_ H1 _ H2] c. unfold known_client. destruct (cluterCli_ mgr) as [ci|].
  - cbn. destruct (H2 _ eq_refl) as [HF _]. by apply nodes_below.
  - destruct (isSelfSvrInfo _ _ _ _); [apply H1|done].
Qed.
(** The connection for an address, and what follows. *)
Lemma gives_client {B} info (k : nat → An B) Q s : room s →
  (∀ c s', room s' → (length (heap s) <= length (heap s'))%nat → (c < length (heap s'))%nat → gives (k c) Q s') →
  gives (f ← scan (λ s, known_client mgr (heap s) info); find_or_new mgr par f info ≫= k) Q s.
Proof.
  intros HR Hk. apply gives_bind. cbn. apply gives_bind.
  pose proof (gives_find _ info s (known_client_room s info HR)) as H. unfold gives in *.
  destruct (find_or_new _ _ _ _ s) as [[?|c] s']; [done|]. destruct H. apply Hk; [by eapply room_grows|done..].
Qed.
Lemma gives_replication {B} info (k : nat → An B) Q s : room s →
  (∀ c s', room s' → (length (heap s) <= length (heap s'))%nat → (c < length (heap s'))%nat → gives (k c) Q s') →
  gives (replication_client mgr par info ≫= k) Q s.
Proof.
  intros HR Hk. unfold replication_client. apply gives_bind. apply gives_bind. cbn.
  assert (Hf : below (length (heap s)) (getRedisClient_ms (heap s) (mSlaveCli_ mgr) (ipAddr_ info) (port_ info))).
  { intros c. destruct (mSlaveCli_ mgr) as [ms|] eqn:E; [|done]. apply ms_below. by apply (mo_ms _ _ _ HR). }
  pose proof (gives_find _ info s Hf) as H. unfold gives in *.
  destruct (find_or_new _ _ _ _ s) as [[?|c] s']; [done|]. destruct H. apply Hk; [by eapply room_grows|done..].
Qed.

Lemma Forall_below_le n n' l : (n <= n')%nat → Forall (below n) l → Forall (below n') l.
Proof. intros. eapply Forall_impl; [done|]. intros. by eapply below_le. Qed.
Lemma Forall_below_snoc n n' l c : (n <= n')%nat → (c < n')%nat → Forall (below n) l → Forall (below n') (l ++ [Some c]).
Proof. intros. apply Forall_app. split; [by apply (Forall_below_le n)|]. constructor; [|done]. by intros ? [= <-]. Qed.

Lemma gives_slaves_loop {B} id lines sl n (k : list (option nat) * Z → An B) Q s :
  room s → Forall (below (length (heap s))) sl →
  (∀ r s', room s' → (length (heap s) <= length (heap s'))%nat → Forall (below (length (heap s'))) r.1 → gives (k r) Q s') →
  gives (slaves_loop mgr par id lines sl n ≫= k) Q s.
Proof.
  intros HR Hsl Hk. apply gives_bind.
  assert (H : gives (slaves_loop mgr par id lines sl n)
    (λ r s', room s' ∧ (length (heap s) <= length (heap s'))%nat ∧ Forall (below (length (heap s'))) r.1) s).
  { clear Hk. revert sl n s HR Hsl. induction lines as [|line lines IH]; intros sl n s HR Hsl; cbn [slaves_loop]; [done|].
    case_decide; [done|]. case_decide; [|by apply IH].
    apply gives_same; [intros ??; apply need_same|intros info]. apply gives_client; [done|]. intros c s1 HR1 H1 Hc.
    apply gives_same; [intros ??; apply count_same|intros n'].
    assert (Hs1 : Forall (below (length (heap s1))) (sl ++ [Some c])) by (by apply (Forall_below_snoc (length (heap s)))).
    specialize (IH _ n' s1 HR1 Hs1). unfold gives in *.
    destruct (slaves_loop _ _ _ _ _ _ s1) as [[?|r] s2]; [done|]. destruct IH as (? & ? & ?). split_and!; [done|lia|done]. }
  unfold gives in *. destruct (slaves_loop _ _ _ _ _ _ s) as [[?|r] s']; [done|]. destruct H as (? & ? & ?). by apply Hk.
Qed.

(** The table of slots of a new topology. *)
Definition slots_in (r : SlotsInfo) : Prop := in_u 16 (slotStart_ r) ∧ slotEnd_ r <= 65535.
Lemma parse_slots_in s : slots_in (parse_slots s).
Proof. split; [unfold parse_slots; case_match; cbn; apply wrap_u_range; lia|apply parse_slots_end]. Qed.
Lemma ranges_in l : Forall slots_in (map parse_slots l).
Proof using Type. apply Forall_fmap, Forall_forall. intros s _. apply parse_slots_in. Qed.
Lemma fill_ranges_some c ranges m m' :
  Forall slots_in ranges → fill_ranges c ranges m = Some m' →
  ∀ k, m' !! k = match m !! k with
                 | Some c => Some c
                 | None => if existsb (covers k) ranges then Some c else None
                 end.
Proof using Type.
  intros HR E. assert (HO : Forall range_ok ranges).
  { revert m E. induction HR as [|r ranges [H1 H2] _ IH]; intros m E; [done|]. cbn [fill_ranges] in E.
    destruct (fill_slots SLOT_ROUNDS c (slotStart_ r) (slotEnd_ r) m) as [m1|] eqn:Ef; [|done].
    constructor; [|by eapply IH]. split; [unfold in_u in H1; lia|].
    destruct (Z.eq_dec (slotEnd_ r) 65535) as [Ee|]; [|lia]. rewrite Ee in Ef.
    pose proof (fill_slots_forever SLOT_ROUNDS c (slotStart_ r) m ltac:(unfold in_u in H1; lia)) as H.
    replace (u16 (slotStart_ r)) with (slotStart_ r) in H by (symmetry; by apply wrap_u_id). congruence. }
  destruct (fill_ranges_spec c ranges m HO) as (m2 & E2 & Hk). by simplify_eq.
Qed.

Definition acc_ok (n : nat) (acc : Acc) : Prop := ∀ info, acc.1.1 = Some info →
  Forall (λ nd, ms_ok n (clusterNode_ nd) ∧ is_Some (master_ (clusterNode_ nd))) (clusterVectInfo_ info) ∧ table_ok info.
Lemma owner_covers nodes k : Forall (λ nd, is_Some (master_ (clusterNode_ nd))) nodes →
  existsb (λ nd, existsb (covers k) (vectSlotInfo_ nd)) nodes = bool_decide (is_Some (owner nodes k)).
Proof using Type.
  induction 1 as [|nd nodes Hnd _ IH]; [symmetry; apply bool_decide_eq_false_2; by intros [? [=]]|]. cbn.
  destruct (existsb (covers k) (vectSlotInfo_ nd)); cbn; [|exact IH].
  symmetry. by apply bool_decide_eq_true_2.
Qed.
Lemma gives_lines vLines lines acc s : room s → acc_ok (length (heap s)) acc →
  gives (lines_scan mgr par vLines lines acc) (λ acc' s', acc_ok (length (heap s')) acc' ∧ room s') s.
Proof using Type.
  revert acc s. induction lines as [|line lines IH]; intros acc s HR Ha; cbn [lines_scan]; [done|].
  case_decide; [done|]. destruct (strstr _ _); [|by apply IH].
  apply gives_bind. unfold master_line. destruct acc as [[ci mc] sc]. case_decide; [done|].
  apply gives_same; [intros ??; apply need_same|intros info]. apply gives_client; [done|]. intros c s1 HR1 H1 Hc.
  apply gives_same; [intros ??; apply count_same|intros n'].
  destruct (fill_ranges c _ _) as [m|] eqn:Ef; [|done].
  apply gives_slaves_loop; [done|done|]. intros [slaves sc'] s2 HR2 H2 Hs. cbn in Hs. apply IH; [done|].
  intros info' [= <-]. cbn. set (info0 := default _ ci) in *.
  assert (Hi : Forall (λ nd, ms_ok (length (heap s)) (clusterNode_ nd) ∧ is_Some (master_ (clusterNode_ nd)))
                 (clusterVectInfo_ info0) ∧ table_ok info0).
  { unfold info0. destruct ci; [by apply Ha|]. split; [constructor|]. intros k. apply lookup_empty. }
  destruct Hi as [Hi1 Hi2]. split.
  - apply Forall_app. split; [eapply Forall_impl; [done|]; intros nd [? ?]; split; [eapply ms_ok_le; [|done]; lia|done]|].
    constructor; [|done]. cbn. split; [|by eexists]. split; cbn; [intros ? [= <-]; lia|done].
  - intros k. cbn. rewrite owner_app, (fill_ranges_some _ _ _ _ (ranges_in _) Ef).
    rewrite owner_covers by (eapply Forall_impl; [exact Hi1|]; by intros ? []).
    cbn [owner vectSlotInfo_ clusterNode_ master_]. rewrite (Hi2 k).
    by destruct (owner (clusterVectInfo_ info0) k).
Qed.

Lemma gives_cluster text s : room s → gives (analysisClusterNodes mgr par text) renewed s.
Proof using Type.
  intros HR. unfold analysisClusterNodes. destruct text as [|x text]; [done|]. apply gives_bind.
  pose proof (gives_lines (split (x :: text) newline []) (split (x :: text) newline []) (None, 0, 0) s HR) as H.
  unfold gives in *. destruct (lines_scan _ _ _ _ _ s) as [[?|[[ci mc] sc]] s1]; [done|]. cbn.
  destruct H as [Ha HR1]; [by intros ?|]. destruct HR1 as [M1 M2 M3 M4]. split; [|done]. split; [done..|].
  cbn. intros info ->. destruct (Ha _ eq_refl) as [F ?]. split; [|done]. eapply Forall_impl; [done|]. by intros ? [].
Qed.
Lemma gives_slave text s : room s → gives (analysisSlaveNodes mgr par text) renewed s.
Proof using Type.
  intros HR. unfold analysisSlaveNodes. destruct text as [|x text]; [done|].
  apply gives_same; [intros ??; apply at_same|intros role].
  destruct (bool_decide _); (apply gives_same; [intros ??; apply node_connected_same|intros up]);
    (apply gives_same; [intros ??; apply at_same|intros line2]);
    (apply gives_same; [intros ??; apply after_colon_same|intros f2]).
  - apply gives_bind.
    assert (HL : ∀ n lines i sl c s, room s → Forall (below (length (heap s))) sl →
      gives (replication_slaves mgr par n lines i sl c) (λ r s', room s' ∧ Forall (below (length (heap s'))) r.1) s).
    { clear s HR. induction n as [|n IH]; intros lines i sl c s HR Hs; cbn [replication_slaves]; [done|].
      apply gives_same; [intros ??; apply at_same|intros line]. apply gives_same; [intros ??; apply slave_addr_same|intros info].
      apply gives_replication; [done|]. intros c1 s1 HR1 H1 Hc.
      apply gives_same; [intros ??; apply count_same|intros n']. apply IH; [done|].
      by apply (Forall_below_snoc (length (heap s))). }
    specialize (HL (Z.to_nat (atoi f2)) (split (x :: text) newline []) 3%nat [] 0 s HR ltac:(constructor)).
    unfold gives in *. destruct (replication_slaves _ _ _ _ _ _ _ s) as [[?|[sl c]] s1]; [done|]. cbn.
    destruct HL as [[M1 M2 M3 M4] Hs]. split; [|done]. split; [done..| |done]. cbn. by intros ? [= <-].
  - apply gives_same; [intros ??; apply at_same|intros line3]. apply gives_same; [intros ??; apply after_colon_same|intros f3].
    apply gives_replication; [done|]. intros c s1 [M1 M2 M3 M4] H1 Hc.
    apply gives_same; [by intros ? ? [= _ <-]|intros conn]. apply gives_ret. cbn.
    split; [|done]. split; [done| | |done]; cbn.
    + destruct conn; [by intros ? [= <-]|done].
    + intros ? [= <-]. split; cbn; [by intros ? [= <-]|by constructor].
Qed.

End gives.

End RedisTypes.
