(* ===== verification/RedisReach.v ===== *)
(** * Reachable states of the asynchronous Redis client

    The remaining operations, on top of [RedisTypes]: replies about the topology, new
    groups of servers, commands, the callback pool, the timer, exit. Every reachable
    state is well-formed, and the changes of a group's state are reported. *)

From stdpp Require Import sorting.
From S2P Require Import Prelude CLib Incommon Atomic HashSlot RedisTopo TcpCli RedisWorld RedisConn RedisAsync RedisProofs RedisTypes.
Import RedisTools RedisTopo RedisWorld RedisConn RedisAsync RedisProofs RedisTypes.

Module RedisReach.

(** ** Replies about the topology *)

(** The threads exist as soon as there is a group of servers. *)
Lemma threads_used w fd m : Good w → vectRedisCliMgr w !! fd = Some m → 0 < ioThreadNum_ w.
Proof.
  intros G Hm. assert (ioThreadNum_ w ≠ 0) by (apply (g_used _ G); by intros E; rewrite E in Hm).
  pose proof (g_threads _ G). lia.
Qed.
(** A new connection belongs to a group and a thread. *)
Lemma new_client_ok w fd x info ks cs : Good w → 0 < ioThreadNum_ w → has w (r_fd fd) →
  cli_ok (length (libeventIoPtrVect w)) (length (vectRedisCliMgr w)) (length (orders w))
    (RedisClient_new (Z.to_nat (u32 x mod ioThreadNum_ w)) fd info ks cs).
Proof.
  intros G Hn Hfd. split_and!; [cbn|done|constructor].
  pose proof (g_threads _ G). pose proof (Z.mod_pos_bound (u32 x) (ioThreadNum_ w)). lia.
Qed.
(** More connections, and the same managers. *)
Lemma Good_clients w w' l :
  clients w' = clients w ++ l →
  Forall (cli_ok (length (libeventIoPtrVect w)) (length (vectRedisCliMgr w)) (length (orders w))) l →
  w' = w <| clients := clients w' |> <| initIoIndex := initIoIndex w' |> → Good w → Good w' ∧ le w w'.
Proof.
  intros El Fl -> G. cbn in El. rewrite El. split.
  - destruct G. split; cbn; rewrite ?length_app; try done.
    + eapply Forall_impl; [done|]. intros m Hm. eapply mgr_ok_le; [..|exact Hm]; lia.
    + by apply Forall_app.
    + eapply Forall_impl; [done|]. intros n Hn. eapply node_in_le; [..|exact Hn]; lia.
    + eapply Forall_impl; [done|]. intros io Hio. eapply io_ok_le; [..|exact Hio]; lia.
  - apply (le_quiet _ _ []); cbn; rewrite ?length_app; [lia..|done|by rewrite app_nil_r].
Qed.

(** What is needed of a reader of replies. *)
Definition reader (f : RedisClientMgr → Par → bytes → An (Z * RedisClientMgr)) : Prop := ∀ m par text,
  (∀ P : RedisClient → Prop,
     (∀ x info, P (RedisClient_new (Z.to_nat (u32 x mod ioThreadNum par)) (m_mgrFd_ m) info (keepSecond par) (connOutSecond par))) →
     An_adds P (f m par text)) ∧
  (∀ nm s, mgr_ok (length (heap s)) nm m → gives (f m par text) (renewed nm m) s).
Lemma reader_cluster : reader analysisClusterNodes.
Proof. intros m par text. split; [intros P HP; by apply analysisClusterNodes_adds|intros nm s; by apply gives_cluster]. Qed.
Lemma reader_slave : reader analysisSlaveNodes.
Proof. intros m par text. split; [intros P HP; by apply analysisSlaveNodes_adds|intros nm s; by apply gives_slave]. Qed.

Lemma okm_analysis f fd text w : Good w → reader f → okm (analysis f fd text) (λ _ w', valid_state fd w → valid_state fd w') w.
Proof.
  intros G Hf. unfold analysis. eapply okm_bind; [by apply okm_get_mgr|]. intros m w1 _ _ (-> & Hm & Hok & Hfd).
  intros a w' E. cbv zeta in E.
  match type of E with context [f m ?par text ?sc] =>
    destruct (Hf m par text) as [Hadd Hg];
    destruct (Hadd (cli_ok (length (libeventIoPtrVect w)) (length (vectRedisCliMgr w)) (length (orders w)))) with sc as (l & El & Fl);
      [intros; cbn; apply new_client_ok; [done|by eapply threads_used|by apply mo_fd in Hok]|];
    specialize (Hg (length (vectRedisCliMgr w)) sc Hok); unfold gives in Hg; destruct (f m par text sc) as [r sc'] end.
  cbn in El. set (w2 := w <| clients := heap sc' |> <| initIoIndex := ioIndex sc' |>) in *.
  destruct (Good_clients w w2 l) as [G2 L2]; [done|done|done|done|].
  destruct r as [[code| |]|[code m']]; [by injection E as <- <-|done|done|]. injection E as <- <-.
  destruct Hg as (Hok' & E1 & E2). cbn in Hok', E1, E2.
  pose proof (f_equal (λ l, w2 <| vectRedisCliMgr ::= λ _, l |>) (list_insert_alter (vectRedisCliMgr w) fd m')) as Ew.
  destruct (okm_set_mgr fd (λ _, m') w2 G2) with () (w2 <| vectRedisCliMgr ::= alter (λ _, m') fd |>) as (G3 & L3 & _);
    [|done|].
  { intros m0 Hm0. cbn in Hm0. by simplify_eq. }
  change (w2 <| vectRedisCliMgr ::= <[fd := m']> |> = w2 <| vectRedisCliMgr ::= alter (λ _, m') fd |>) in Ew.
  rewrite <- Ew in G3, L3.
  split_and!; [done|by etrans|]. intros HV m0. cbn. rewrite list_lookup_insert_eq by done.
  intros [= <-]. rewrite E2. by apply HV.
Qed.

(** The one change that is not announced. *)
Lemma okm_state_partial fd w :
  Good w → has w (r_fd fd) → valid_state fd w → okm (set_state fd REDIS_EXCEPTION_STATE) (λ _ _, True) w.
Proof.
  intros G Hfd HV [] w' [= <-]. split_and!; [|split|done]; cbn; rewrite ?length_alter; try done.
  - destruct G. split; cbn; rewrite ?length_alter; try done.
    + apply Forall_alter; [done|]. intros m1 Hm' []. by split.
    + intros H. apply g_used0. intros E. by rewrite E in H.
  - exists []. rewrite app_nil_r. split; [done|]. intros fd' m H. destruct (decide (fd = fd')) as [<-|Hn].
    + rewrite list_lookup_alter_eq, H. eexists. split_and!; [done..|]. right. split; [by apply HV|by right].
    + rewrite list_lookup_alter_ne by done. exists m. split_and!; [done..|by left].
Qed.
Lemma valid_not fd m w :
  vectRedisCliMgr w !! fd = Some m → (initState_ m =? REDIS_SVR_INVALID_STATE) = false → valid_state fd w.
Proof. intros Hm E%Z.eqb_neq m' Hm'. by simplify_eq. Qed.
#[export] Hint Resolve okm_state_partial okm_analysis reader_cluster reader_slave : okm.
Lemma okm_each_same {A} (f : A → M ()) l w : Good w →
  (∀ x w', x ∈ l → Good w' → le w w' → okm (f x) (same_mgrs w') w') → okm (op_each f l) (same_mgrs w) w.
Proof.
  revert w. induction l as [|x l IH]; intros w G Hf; cbn [op_each]; [by apply okm_ret|].
  eapply okm_bind; [apply Hf; [left|done|done]|]. intros ? w1 G1 L1 E1. eapply okm_weaken; [apply IH; [done|]|].
  - intros y w2 Hy G2 L2. apply Hf; [by right|done|by etrans].
  - intros ? w' _ E2. unfold same_mgrs in *. congruence.
Qed.
Lemma okm_connect_all l w : Good w → okm (op_each connect_new l) (same_mgrs w) w.
Proof. intros G. apply okm_each_same; [done|]. intros. by apply okm_connect_new. Qed.
#[export] Hint Resolve okm_connect_all : okm.

(** Managers are looked up once more, the state is what was tested. *)
Ltac ok_test :=
  match goal with
  | E : (initState_ ?m =? REDIS_SVR_INVALID_STATE) = false, H : vectRedisCliMgr ?w !! ?fd = Some ?m |- okm _ _ ?w =>
      assert (valid_state fd w) by (by apply (valid_not fd m w H E)); clear E
  end.

Lemma okm_clusterInfoCallBack ret priv msg w : Good w → okm (clusterInfoCallBack ret priv msg) (λ _ _, True) w.
Proof.
  intros G. unfold clusterInfoCallBack. ok_step; [|ok]. ok_step. ok_step; [ok|].
  match goal with E : _ || _ = false |- _ => apply orb_false_elim in E as [E _] end. ok_test. ok.
Qed.
Lemma okm_node_down m w : Good w → okm (node_down m) (λ _ w', w' = w) w.
Proof. intros G. eapply okm_weaken; [by apply okm_get|]. by intros ? ? _ [-> _]. Qed.
Lemma okm_connected_cli c w : Good w → okm (connected_cli c) (λ _ w', w' = w) w.
Proof. intros G. eapply okm_weaken; [by apply okm_get|]. by intros ? ? _ [-> _]. Qed.
#[export] Hint Resolve okm_clusterInfoCallBack okm_node_down okm_connected_cli : okm.

Lemma okm_cluster_check fd w : Good w → valid_state fd w → okm (cluster_check fd) (λ _ _, True) w.
Proof.
  intros G HV. unfold cluster_check. ok_step. ok_step; [|ok]. ok_step; [ok|]. ok_step; [|ok].
  apply okm_state_valid; [done..|]. apply (pushes_seq fd _ false true); [apply pushes_notify_exce|apply pushes_notify_state].
Qed.

(** Another connection to ask. *)
Lemma okm_set_node fd o w : Good w → has w (r_cli o) → okm (set_mgr fd (λ m, m <| nodeCli_ := o |>)) (λ _ _, True) w.
Proof.
  intros G Ho. apply okm_set_mgr; [done|]. intros m Hm. split_and!; [done..|].
  destruct (Forall_lookup_1 _ _ _ _ (g_mgrs _ G) Hm). by split.
Qed.
Lemma head_filter_below n (P : option nat → Prop) `{∀ c, Decision (P c)} l c :
  Forall (below n) l → head (filter P l) = Some c → below n c.
Proof.
  intros Hl E. apply head_Some_elem_of, list_elem_of_filter in E as [_ Hc].
  rewrite Forall_forall in Hl. by apply Hl.
Qed.
Lemma first_up_below n cls nodes : Forall (λ nd, ms_ok n (clusterNode_ nd)) nodes → below n (first_up cls nodes).
Proof.
  induction 1 as [|nd nodes [H1 H2] _ IH]; cbn [first_up]; [done|].
  destruct (head _) as [c|] eqn:E; [|done]. eapply head_filter_below; [|exact E]. by constructor.
Qed.
Lemma okm_cluster_retry fd w : Good w → okm (cluster_retry fd) (λ _ _, True) w.
Proof.
  intros G. unfold cluster_retry. ok_step. ok_step. eapply (okm_bind _ _ (λ _ _, True)).
  - ok_step; [|ok]. ok_step. ok_step; [|ok]. apply okm_set_node; [done|]. subst.
    match goal with E : _ = first_up ?cls ?nodes |- has ?w (r_cli ?o) => change (below (length (clients w)) o);
      rewrite E; apply first_up_below end.
    match goal with H : has _ (r_mgr ?m) |- _ => destruct H as [_ _ _ H]; destruct (cluterCli_ m); [by apply H|constructor] end.
  - ok_intro. ok_step. ok_step. apply okm_new_later; [done|by apply order_for_mgr|by apply mgr_node].
Qed.
#[export] Hint Resolve okm_cluster_check okm_cluster_retry : okm.

Lemma okm_clusterNodesCallBack ret priv msg w : Good w → okm (clusterNodesCallBack ret priv msg) (λ _ _, True) w.
Proof.
  intros G. unfold clusterNodesCallBack. ok_step; [|ok]. ok_step. ok_step; [ok|]. ok_test. ok.
Qed.
Lemma okm_clusterInitCallBack ret priv msg w : Good w → okm (clusterInitCallBack ret priv msg) (λ _ _, True) w.
Proof.
  intros G. unfold clusterInitCallBack. ok_step; [|ok]. ok_step. ok_step; [ok|]. ok_test. ok.
Qed.

Lemma okm_replication_check fd w : Good w → valid_state fd w → okm (replication_check fd) (λ _ _, True) w.
Proof.
  intros G HV. unfold replication_check. ok_step. ok_step; [ok|]. ok_step; [|ok].
  apply okm_state_valid; [done..|]. apply (pushes_seq fd _ false true); [apply pushes_notify_exce|apply pushes_notify_state].
Qed.
Lemma okm_replication_retry fd w : Good w → okm (replication_retry fd) (λ _ _, True) w.
Proof.
  intros G. unfold replication_retry. ok_step. ok_step. eapply (okm_bind _ _ (λ _ _, True)).
  - ok_step; [|ok]. ok_step. ok_step. ok_step.
    match goal with H : has _ (r_mgr a), E : mSlaveCli_ a = Some ?ms |- _ => destruct (mo_ms _ _ _ H ms E) as [HM HS] end.
    match goal with E : ?o = head _ |- _ => symmetry in E; destruct o as [c|] end.
    + apply okm_set_node; [done|]. by eapply head_filter_below.
    + ok_step; [by apply okm_set_node|ok].
  - ok_intro. ok_step. ok.
Qed.
#[export] Hint Resolve okm_replication_check okm_replication_retry : okm.
Lemma okm_infoReplicationCb ret priv msg w : Good w → okm (infoReplicationCb ret priv msg) (λ _ _, True) w.
Proof.
  intros G. unfold infoReplicationCb. ok_step; [|ok]. ok_step. ok_step; [ok|]. ok_test. ok_step. ok_step.
  destruct a1 as [result added]. eapply (okm_bind _ _ (λ _ _, True)); [ok|]. ok_intro. ok.
Qed.
#[export] Hint Resolve okm_clusterNodesCallBack okm_clusterInitCallBack okm_infoReplicationCb : okm.

(** ** New groups of servers, commands *)

Lemma okm_new_client fd info w : Good w → 0 < ioThreadNum_ w → has w (r_fd fd) →
  okm ((λ w,
      let tmpIoIndex := u32 (initIoIndex w + 1) in
      Some (length (clients w), w <| initIoIndex := tmpIoIndex |>
        <| clients ::= (.++ [RedisClient_new (Z.to_nat (tmpIoIndex mod ioThreadNum_ w)) fd info
                               (keepSecond_ w) (a_connOutSecond_ w)]) |>)) : M nat)
    (λ c w', has w' (r_cli (Some c))) w.
Proof.
  intros G Hn Hfd c w' [= <- <-].
  match goal with |- Good ?w' ∧ _ => destruct (Good_clients w w' _ eq_refl) as [G' L'] end; [|done|done|].
  { constructor; [|constructor]. by apply new_client_ok. }
  split_and!; [done..|]. intros ? [= <-]. cbn. rewrite length_app. cbn. lia.
Qed.
Lemma okm_redisInitConnect fd w : Good w → okm (redisInitConnect fd) (λ _ _, True) w.
Proof.
  intros G. unfold redisInitConnect. ok_step. destruct (parse_addrs _ _) as [infos ok].
  eapply (okm_bind _ _ (λ _ _, True)).
  { apply okm_set_mgr; [done|]. intros m Hm. split_and!; [done..|].
    destruct (Forall_lookup_1 _ _ _ _ (g_mgrs _ G) Hm). by split. }
  ok_intro. ok_step; [ok|]. ok_step. ok_step. eapply okm_bind.
  { apply okm_new_client; [done|by eapply threads_used|].
    match goal with H : has _ (r_mgr ?m) |- has _ (r_fd (m_mgrFd_ ?m)) => by destruct H end. }
  intros c w8 G8 L8 Hc. eapply okm_bind; [by apply okm_set_node|]. intros ? w9 G9 L9 _. ok.
Qed.

Lemma okm_new_mgr t info auth w : Good w → ioThreadNum_ w ≠ 0 →
  okm (op_mod (λ w', w' <| vectRedisCliMgr ::= (.++ [RedisClientMgr_new <| inSvrInfoStr_ := info |>
      <| auth_ := auth |> <| svrType_ := t |> <| m_mgrFd_ := length (vectRedisCliMgr w) |>]) |>)) (λ _ _, True) w.
Proof.
  intros G Hn [] w' [= <-]. split_and!; [|split|done]; cbn; rewrite ?length_app; cbn; [|lia..|].
  - destruct G. split; cbn; rewrite ?length_app; cbn; try done.
    + apply Forall_app. split; [|constructor; [split; cbn; first [lia|done]|constructor]].
      eapply Forall_impl; [done|]. intros m Hm. eapply mgr_ok_le; [..|exact Hm]; lia.
    + eapply Forall_impl; [done|]. intros k Hk. eapply cli_ok_le; [..|exact Hk]; lia.
    + eapply Forall_impl; [done|]. intros o Ho. eapply order_ok_le; [..|exact Ho]; lia.
    + eapply Forall_impl; [done|]. intros x Hx. eapply below_le; [..|exact Hx]; lia.
  - exists []. rewrite app_nil_r. split; [done|]. intros fd m H. exists m.
    split_and!; [by apply lookup_app_l_Some|done|by left].
Qed.
Lemma okm_add_info t info auth w : Good w → okm (add_info t info auth) (λ _ _, True) w.
Proof.
  intros G. unfold add_info. ok_step. ok_step; [ok|]. ok_step. subst.
  eapply okm_bind; [apply okm_new_mgr; [done|]|].
  { intros E0. rewrite E0 in *. by destruct (callBackNum_ w =? 0). }
  ok_intro. eapply okm_bind; [by apply okm_redisInitConnect|]. ok_intro. ok.
Qed.

Lemma okm_redisAsyncCommand fd n out priv key cmd w :
  Good w → okm (redisAsyncCommand fd (user_cb <$> n) out priv key cmd) (λ _ _, True) w.
Proof.
  intros G. unfold redisAsyncCommand. ok_step; [ok|]. ok_step. ok_step; [|ok]. ok_step; [ok|]. ok_step. ok_step; [ok|].
  ok_step. ok_step; [ok|]. ok_step. eapply okm_bind.
  - apply okm_new_order; [done|]. apply order_with_limit. destruct n; intros cb; [by intros [= <-]|done].
  - ok_intro. eapply okm_bind; [apply okm_order_now; [done|by intros ? [= <-]]|]. ok_intro. ok.
Qed.

(** ** The callback pool *)

Lemma okm_invalid_state fd w : Good w → okm (enter_state fd REDIS_SVR_INVALID_STATE) (λ _ _, True) w.
Proof.
  intros G. unfold enter_state. destruct (vectRedisCliMgr w !! fd) as [m|] eqn:Hm.
  - eapply okm_state; [done|done| |apply pushes_notify_state].
    destruct (decide (initState_ m = REDIS_SVR_INVALID_STATE)); [by right|by left].
  - intros a w'. unfold set_state, set_mgr. rewrite op_bind_mod. unfold notify_state, get_mgr. rewrite op_bind_find. cbn.
    by rewrite list_lookup_alter_eq, Hm.
Qed.
Lemma okm_redisSvrMgrInvalid fd w : Good w → okm (redisSvrMgrInvalid fd) (λ _ _, True) w.
Proof.
  intros G. unfold redisSvrMgrInvalid. ok_step. eapply (okm_bind _ _ (λ _ _, True)).
  { apply okm_each; [done|]. intros [c|] w' _ G' _; ok. }
  ok_intro. eapply (okm_bind _ _ (λ _ _, True)); [|ok_intro; by apply okm_invalid_state].
  apply okm_set_mgr; [done|]. intros m Hm. split_and!; [done..|]. destruct (Forall_lookup_1 _ _ _ _ (g_mgrs _ ltac:(eassumption)) Hm).
  by split.
Qed.
Lemma okm_asyncStateCallBack fd code msg w : Good w → okm (asyncStateCallBack fd code msg) (λ _ _, True) w.
Proof. intros G. unfold asyncStateCallBack. ok. Qed.
Lemma okm_asyncExceCallBack fd code msg w : Good w → okm (asyncExceCallBack fd code msg) (λ _ _, True) w.
Proof. intros G. unfold asyncExceCallBack. ok. Qed.
#[export] Hint Resolve okm_redisSvrMgrInvalid okm_asyncStateCallBack okm_asyncExceCallBack : okm.
Lemma okm_cmdReplyCallPool w : Good w → okm cmdReplyCallPool (λ _ _, True) w.
Proof.
  intros G. unfold cmdReplyCallPool. ok_step. ok_step; [ok|]. eapply okm_bind.
  { apply (okm_mod _ (λ _ _, True)); try done. pose proof (g_results _ G) as HR. subst.
    match goal with E : _ :: _ = cmdResults w |- _ => rewrite <- E in HR end. apply Forall_cons in HR as [_ HR].
    destruct G. by split. }
  ok_intro. ok_step. ok_step; [|ok]. ok_step. ok_step. unfold call_back. ok.
Qed.
#[export] Hint Resolve okm_cmdReplyCallPool : okm.
Lemma okm_run_task t w : Good w → okm (run_task t) (λ _ _, True) w.
Proof. intros G. destruct t; cbn [run_task]; ok. Qed.

(** ** The timer *)

Lemma okm_timer_begin now w : Good w → okm (timer_begin now) (λ _ _, True) w.
Proof.
  intros G. unfold timer_begin. ok_step. ok_step; [ok|]. apply okm_mod; cbn; rewrite ?length_fmap; try done.
  destruct G. split; cbn; rewrite ?length_fmap; try done. apply Forall_fmap. eapply Forall_impl; [done|]. by intros io [].
Qed.
Lemma okm_timer_round w : Good w → okm timer_round (λ _ _, True) w.
Proof.
  intros G. unfold timer_round. ok_step. ok_step; [ok|]. ok_step. ok_step. destruct a1 as [node rest].
  assert (HD : Forall (node_in (length (clients w)) (length (orders w))) (option_list node ++ rest) ∧ sorted_timer rest).
  { pose proof (g_timer _ G) as HT. pose proof (g_sorted _ G) as [S1 S2].
    match goal with H : (_, _) = dealTimerOrder _ _ |- _ => unfold dealTimerOrder in H end.
    destruct (timerOrders w) as [|x l]; [by simplify_eq|]. apply Forall_cons in S1 as [? ?].
    destruct (_ || _); simplify_eq; cbn; [|split; [done|by split; [constructor|]]].
    split; [done|]. split; [done|]. by apply StronglySorted_inv in S2 as []. }
  destruct HD as [HD HS]. apply Forall_app in HD as [HN HR]. eapply okm_bind.
  { apply (okm_mod _ (same_mgrs w)); try done. destruct G. by split. }
  intros [] w9 G9 L9 _. destruct node as [node|].
  - apply Forall_cons in HN as [[_ HN] _]. destruct (n_cmdOrd_ node) as [o|] eqn:Eo.
    + ok_step. cbv zeta. ok_step. eapply okm_weaken; [apply okm_order_now; [done|by intros ? [= <-]]|done].
    + by eapply okm_weaken; [apply okm_order_now|].
  - apply okm_mod; try done. by destruct G9.
Qed.

(** ** Every event *)

(** The state after an event, given the tasks that wait then. *)
Definition evolves (w w' : World) : Prop := Good w' ∧ mgrs_le (tasks w') (vectRedisCliMgr w) (vectRedisCliMgr w').
Lemma announced_more t t' fd m m' : t ⊆ t' → announced t fd m m' → announced t' fd m m'.
Proof.
  intros Ht [?|[Hs [[msg H]|H]]]; [by left|right; split; [done|left; exists msg; by apply Ht]|right; split; [done|by right]].
Qed.
Lemma evolves_le w w' : Good w' → le w w' → evolves w w'.
Proof.
  intros G [_ _ _ _ (t & E & H)]. split; [done|]. rewrite E. intros fd m Hm. destruct (H _ _ Hm) as (m' & ? & ? & ?).
  exists m'. split_and!; [done..|]. eapply announced_more; [|done]. set_solver.
Qed.
Lemma okm_evolves {A} (m : M A) (z : Z) w r w' :
  okm m (λ _ _, True) w → (_ ← m; mret z) w = Some (r, w') → evolves w w'.
Proof.
  intros H. rewrite op_bind_run. destruct (m w) as [[a w1]|] eqn:E; [|done]. intros [= <- <-].
  destruct (H _ _ E) as (G' & L & _). by apply evolves_le.
Qed.
(** The same managers. *)
Lemma evolves_same w w' : Good w' → vectRedisCliMgr w' = vectRedisCliMgr w → evolves w w'.
Proof. intros G E. split; [done|]. rewrite E. intros fd m H. exists m. split_and!; [done..|by left]. Qed.

Lemma evolves_init a b c d s x now w r w' :
  Good w → redisAsyncInit a b c d s x now w = Some (r, w') → evolves w w'.
Proof.
  intros G. unfold redisAsyncInit. rewrite op_bind_get.
  destruct (negb _ && _ && _ && _) eqn:Ed; [intros [= _ <-]; by apply evolves_same|].
  destruct (_ || _) eqn:Ep; [intros [= _ <-]; by apply evolves_same|]. rewrite op_bind_mod. intros [= _ <-].
  apply evolves_same; [|done].
  assert (E0 : ioThreadNum_ w = 0).
  { destruct (Z.eq_dec (ioThreadNum_ w) 0) as [|Hn]; [done|]. destruct (g_init _ G Hn) as (? & ? & ?).
    rewrite !(proj2 (Z.eqb_neq _ _)) in Ed by done. done. }
  assert (En : libeventIoPtrVect w = []).
  { pose proof (g_threads _ G). apply nil_length_inv. lia. }
  apply orb_false_elim in Ep as [Ep1 ?%Z.ltb_ge]. apply orb_false_elim in Ep1 as [Ep1 ?%Z.ltb_ge].
  apply orb_false_elim in Ep1 as [?%Z.ltb_ge ?%Z.ltb_ge].
  destruct G. split; cbn; rewrite ?En, ?length_app, ?length_replicate; cbn; try done.
  - eapply Forall_impl; [done|]. intros k Hk. rewrite En in Hk. eapply cli_ok_le; [..|exact Hk]; cbn; lia.
  - apply Forall_replicate. by split.
  - lia.
  - lia.
  - lia.
Qed.
Lemma evolves_task n w r w' : Good w → (_ ← pool_task n; mret 0) w = Some (r, w') → evolves w w'.
Proof.
  intros G. unfold pool_task. rewrite op_bind_run. rewrite op_bind_find.
  destruct (callBackPoolPtr w) as [q|] eqn:Eq; [|done]. rewrite op_bind_some. destruct (q !! n) as [t|]; [|done].
  rewrite op_bind_mod. set (w1 := w <| callBackPoolPtr := Some (delete n q) |>).
  assert (G1 : Good w1).
  { pose proof (g_tasks _ G) as HT. unfold tasks in HT. rewrite Eq in HT. destruct G. split; try done. by apply Forall_delete. }
  intros E. pose proof (okm_evolves (run_task t) 0 w1 r w' (okm_run_task t w1 G1)) as H. apply H.
  by rewrite op_bind_run.
Qed.
Lemma evolves_exit_begin w r w' : Good w → (_ ← exit_begin; mret 0) w = Some (r, w') → evolves w w'.
Proof. intros G [= _ <-]. apply evolves_same; [by destruct G|done]. Qed.
Lemma evolves_exit_end w r w' : Good w → (_ ← exit_end; mret 0) w = Some (r, w') → evolves w w'.
Proof.
  intros G. unfold exit_end, op_get, mbind, Op_bind. destruct (_ && _); [|done]. intros [= _ <-].
  apply evolves_same; [|done]. destruct G. split; cbn; rewrite ?length_fmap; try done.
  - apply Forall_fmap. eapply Forall_impl; [done|]. by intros io [].
Qed.
#[export] Hint Resolve okm_connectTimeout okm_connectCallback okm_cmdCallback okm_io_return okm_libeventIoReady
  okm_handleRead_begin okm_handleRead_round okm_timer_begin okm_timer_round : okm.
Lemma evolves_handle e w r w' : Good w → handle e w = Some (r, w') → evolves w w'.
Proof.
  intros G. destruct e; cbn [handle]; try (apply okm_evolves; by eauto with okm).
  - by apply evolves_init.
  - intros E. destruct (okm_add_info _ _ _ _ G _ _ E) as (? & ? & _). by apply evolves_le.
  - intros E. destruct (okm_add_info _ _ _ _ G _ _ E) as (? & ? & _). by apply evolves_le.
  - intros E. destruct (okm_add_info _ _ _ _ G _ _ E) as (? & ? & _). by apply evolves_le.
  - intros E. destruct (okm_redisAsyncCommand _ _ _ _ _ _ _ G _ _ E) as (? & ? & _). by apply evolves_le.
  - by apply evolves_task.
  - by apply evolves_exit_begin.
  - by apply evolves_exit_end.
Qed.
Lemma Good_new : Good RedisAsync_new.
Proof. by split; repeat constructor. Qed.
Lemma Good_reachable w : reachable w → Good w.
Proof. induction 1 as [|w e r w' _ IH E]; [apply Good_new|]. by destruct (evolves_handle _ _ _ _ IH E). Qed.

Lemma reachable_run l w w' : reachable w → run_events l w = Some w' → reachable w'.
Proof.
  revert w. induction l as [|e l IH]; intros w Hw; cbn [run_events]; [by intros [= <-]|].
  destruct (handle e w) as [[r w1]|] eqn:E; [|done]. apply IH. by eapply reach_step.
Qed.

(** The results of runs from the start. *)
Definition world_after (l : list Event) : World := default RedisAsync_new (run_events l RedisAsync_new).
Definition defined (l : list Event) : bool := if run_events l RedisAsync_new is Some _ then true else false.
Lemma reachable_after l : defined l = true → reachable (world_after l).
Proof.
  unfold defined, world_after. destruct (run_events l _) as [w|] eqn:E; [intros _|done].
  eapply reachable_run; [apply reach_init|done].
Qed.
Lemma run_events_app l1 l2 w : run_events (l1 ++ l2) w = w1 ← run_events l1 w; run_events l2 w1.
Proof. revert w. induction l1 as [|e l1 IH]; intros w; cbn [app run_events]; [done|]. destruct (handle e w) as [[]|]; [apply IH|done]. Qed.
Lemma world_after_snoc l e : defined (l ++ [e]) = true → ∃ r, handle e (world_after l) = Some (r, world_after (l ++ [e])).
Proof.
  unfold defined, world_after. rewrite run_events_app. destruct (run_events l _) as [w|]; [|done]. cbn.
  destruct (handle e w) as [[r w']|]; [|done]. by exists r.
Qed.

(** C31: After every run the state is well-formed: the indices that are kept in groups of
    servers, connections, orders, queues, the timer's list and tasks are those of
    existing objects; in each cluster the table of slots gives for each slot the
    master of the first node that lists it; the timer's list is sorted by time; and
    there are IO threads as soon as there is a group. *)
Theorem redis_well_typed l : defined l = true → Good (world_after l).
Proof. intros H. by apply Good_reachable, reachable_after. Qed.

(** The pool is to tell the user that group [fd] is in state [s]. *)
Definition state_task_waits (fd : nat) (s : Z) (w : World) : Prop :=
  ∃ msg, asyncStateCallBack_task fd s msg ∈ tasks w.
(** C10: What a group of servers does to its state: no event changes the type of a
    group; a group in the invalid state stays there; and a new state is announced
    by a waiting [asyncStateCallBack] with that state, except when it is that of a
    partly usable group (which a reply to CLUSTER INFO enters in silence). *)
Theorem state_changes_reported w e r w' fd m :
  reachable w → handle e w = Some (r, w') → vectRedisCliMgr w !! fd = Some m →
  ∃ m', vectRedisCliMgr w' !! fd = Some m' ∧ svrType_ m' = svrType_ m ∧
    (initState_ m' ≠ initState_ m →
       initState_ m ≠ REDIS_SVR_INVALID_STATE ∧
       (initState_ m' ≠ REDIS_EXCEPTION_STATE → state_task_waits fd (initState_ m') w')).
Proof.
  intros G%Good_reachable E Hm. destruct (evolves_handle _ _ _ _ G E) as [_ HL].
  destruct (HL _ _ Hm) as (m' & Hm' & Et & HA). exists m'. split_and!; [done..|]. intros Hn.
  destruct HA as [?|[Hs HA]]; [done|]. split; [done|]. intros Hx. by destruct HA.
Qed.

(** ** A cluster of two masters, one with a slave *)

Definition cluster_reply : bytes :=
  lit "aa 10.0.0.1:6379@1 master - 0 1 1 connected 0-8191" ++ newline ++
  lit "bb 10.0.0.2:6379@1 master - 0 1 2 connected 8192-16383" ++ newline ++
  lit "cc 10.0.0.3:6379@1 slave bb 0 1 2 connected" ++ newline.
Definition string_reply (s : bytes) : redisReply := {| type := REDIS_REPLY_STRING; integer := 0; str := s; elements := [] |}.
(** IO thread [i] handles the one order in its queue. *)
Definition io_one (i : nat) : list Event := [EvRead i; EvRound i sample_ans; EvRound i sample_ans].
Definition cluster_begin : list Event :=
  [EvInit 2 1 3 10 true true 100; EvAddCluster (lit "10.0.0.1:6379") []; EvReady 0 true; EvReady 1 true] ++
  io_one 1 ++ [EvConnected 0 None 100; EvTask 0] ++ io_one 1 ++
  [EvReply 0 0 (Some (string_reply cluster_reply)); EvTask 0] ++ io_one 0.
Definition cluster_up : list Event := cluster_begin ++ EvConnected 1 None 101 :: io_one 1 ++ [EvConnected 2 None 101].
Definition first_mgr (w : World) : RedisClientMgr := default RedisClientMgr_new (head (vectRedisCliMgr w)).
Lemma first_mgr_lookup w : (0 <? Z.of_nat (length (vectRedisCliMgr w))) = true → vectRedisCliMgr w !! 0%nat = Some (first_mgr w).
Proof. unfold first_mgr. by destruct (vectRedisCliMgr w). Qed.

Lemma redis_well_typed_witness : length (clients (world_after cluster_up)) = 3%nat ∧ Good (world_after cluster_up).
Proof.
  split; [vm_compute; reflexivity|]. apply redis_well_typed. vm_compute. reflexivity.
Defined.

Definition first_up_event : Event := EvConnected 1 None 101.
Lemma state_changes_reported_witness :
  initState_ (first_mgr (world_after cluster_begin)) = REDIS_SVR_INIT_STATE ∧
  initState_ (first_mgr (world_after (cluster_begin ++ [first_up_event]))) = REDIS_SVR_RUNING_STATE ∧
  ∃ m', vectRedisCliMgr (world_after (cluster_begin ++ [first_up_event])) !! 0%nat = Some m' ∧
    svrType_ m' = svrType_ (first_mgr (world_after cluster_begin)) ∧
    (initState_ m' ≠ initState_ (first_mgr (world_after cluster_begin)) →
       initState_ (first_mgr (world_after cluster_begin)) ≠ REDIS_SVR_INVALID_STATE ∧
       (initState_ m' ≠ REDIS_EXCEPTION_STATE →
          state_task_waits 0 (initState_ m') (world_after (cluster_begin ++ [first_up_event])))).
Proof.
  split_and!; [vm_compute; reflexivity..|].
  destruct (world_after_snoc cluster_begin first_up_event) as [r Hr]; [vm_compute; reflexivity|].
  apply (state_changes_reported (world_after cluster_begin) first_up_event r); [|exact Hr|].
  - apply reachable_after. vm_compute. reflexivity.
  - apply first_mgr_lookup. vm_compute. reflexivity.
Defined.

(** ** A master whose connection breaks while it is asked for its slaves

    The question is answered with an error and no text, and the callback reads the
    text: the program is in undefined behaviour one task after the loss. *)

Definition ms_begin : list Event :=
  [EvInit 1 1 3 10 true true 100; EvAddMasterSlave (lit "10.0.0.1:6379") []; EvReady 0 true] ++
  io_one 0 ++ [EvConnected 0 None 100; EvTask 0] ++ io_one 0.
Lemma lost_master_undefined :
  defined (ms_begin ++ [EvDisconnected 0 (lit "reset")]) = true ∧
  defined (ms_begin ++ [EvDisconnected 0 (lit "reset"); EvTask 0]) = false.
Proof. split; vm_compute; reflexivity. Qed.

End RedisReach.
