(* ===== verification/RedisRoute.v ===== *)
(** * Where a command goes

    [redisAsyncCommand] against what it promises: the connection that is to serve a
    command, defined from the nodes of the group and not from the table of slots,
    and the state after the command was taken. *)

From S2P Require Import Prelude CLib Incommon Atomic HashSlot RedisTopo TcpCli RedisWorld RedisConn RedisAsync RedisProofs RedisTypes RedisReach.
Import RedisTools RedisTopo RedisWorld RedisConn RedisAsync RedisProofs RedisTypes RedisReach.

Module RedisRoute.

(** ** The promise *)

Definition up (cls : list RedisClient) (c : nat) : bool := negb (tcpCliState cls (Some c) =? REDIS_CLIENT_STATE_INIT).
(** The first node that has the slot. *)
Definition slot_node (nodes : list RedisClusterNode) (slot : Z) : option RedisClusterNode :=
  snd <$> list_find (λ nd, existsb (covers slot) (vectSlotInfo_ nd) = true) nodes.
(** Its master, or the first slave that is connected while the master is not. *)
Definition server_of (cls : list RedisClient) (nd : RedisClusterNode) : option nat :=
  c ← master_ (clusterNode_ nd);
  if up cls c then Some c
  else default None (head (filter (λ c, connected cls c = true) (slave_ (clusterNode_ nd)))).
(** The connection that serves [key], if the group has one. *)
Definition serving (m : RedisClientMgr) (cls : list RedisClient) (key : bytes) : option nat :=
  if decide (svrType_ m ∈ [REDIS_SINGLE_SERVER; REDIS_MASTER_SLAVE_SERVER]) then
    c ← nodeCli_ m; if up cls c then Some c else None
  else if decide (svrType_ m = REDIS_CLUSTER_SERVER) then
    info ← cluterCli_ m; nd ← slot_node (clusterVectInfo_ info) (getKeySlotIndex key); server_of cls nd
  else None.
Definition usable (m : RedisClientMgr) : Prop :=
  initState_ m ∉ [REDIS_SVR_INIT_STATE; REDIS_SVR_ERROR_STATE; REDIS_SVR_INVALID_STATE].
#[export] Instance usable_dec m : Decision (usable m).
Proof. unfold usable. apply _. Defined.
Definition command_target (w : World) (asyFd outSecond : Z) (key cmdStr : bytes) : option nat :=
  if decide (0 <= asyFd ∧ key ≠ [] ∧ cmdStr ≠ [] ∧ outSecond ≠ 0) then
    m ← vectRedisCliMgr w !! Z.to_nat asyFd;
    if decide (usable m) then serving m (clients w) key else None
  else None.

(** A new order at the thread of the connection, which is woken; counted when
    somebody waits for the result. *)
Definition with_command (w : World) (cb : option Callback) (outSecond : Z) (priv : option nat) (cmdStr : bytes)
    (c : nat) (k : RedisClient) : World :=
  let limit := u64 (nowSecond_ w + outSecond) in
  let node := {| n_outSecond_ := limit; n_cli_ := Some c; n_cmdOrd_ := Some (length (orders w)) |} in
  w <| orders ::= (.++ [with_limit outSecond limit (OrderNode_new cmdStr cb priv)]) |>
    <| asyncCmdNum ::= λ n, match cb with Some _ => (increment s32 n).2 | None => n end |>
    <| libeventIoPtrVect ::= alter (λ io, libeventIoWakeup (nowSecond_ w) (orderNodeInsert node io)) (ioIndex_ k) |>.

(** ** The table and the nodes *)

Lemma slot_node_cons nd nodes slot :
  slot_node (nd :: nodes) slot = if existsb (covers slot) (vectSlotInfo_ nd) then Some nd else slot_node nodes slot.
Proof.
  unfold slot_node. cbn [list_find]. destruct (existsb _ _) eqn:E; [by rewrite decide_True|].
  rewrite decide_False by done. by destruct (list_find _ nodes) as [[]|].
Qed.
Lemma owner_slot_node nodes slot : owner nodes slot = nd ← slot_node nodes slot; master_ (clusterNode_ nd).
Proof.
  induction nodes as [|nd nodes IH]; [done|]. cbn [owner]. rewrite slot_node_cons. by destruct (existsb _ _).
Qed.
Lemma slave_slot_node cls nodes slot : slave_for_slot cls nodes slot =
  nd ← slot_node nodes slot; default None (head (filter (λ c, connected cls c = true) (slave_ (clusterNode_ nd)))).
Proof.
  induction nodes as [|nd nodes IH]; [done|]. cbn [slave_for_slot]. rewrite slot_node_cons. by destruct (existsb _ _).
Qed.
Lemma connected_up cls l c :
  default None (head (filter (λ c, connected cls c = true) l)) = Some c → up cls c = true.
Proof.
  destruct (head _) as [o|] eqn:E; [|done]. cbn. intros ->.
  apply head_Some_elem_of, list_elem_of_filter in E as [E _]. unfold connected in E.
  apply andb_true_iff in E as [_ E%Z.eqb_eq]. unfold up. by rewrite E.
Qed.

(** The code's choice is the promised one: the table agrees with the nodes. *)
Definition down (cls : list RedisClient) (o : option nat) : bool :=
  negb (bool_decide (is_Some o)) || (tcpCliState cls o =? REDIS_CLIENT_STATE_INIT).
Lemma route_serving n nm m cls key : mgr_ok n nm m →
  match route m cls key with
  | inl code => code ≠ 0 ∧ serving m cls key = None
  | inr o => serving m cls key = if down cls o then None else o
  end.
Proof.
  intros Hm. unfold route, serving.
  destruct (Z.eqb_spec (svrType_ m) REDIS_UNKNOWN_SERVER) as [->|_]; [done|].
  destruct (decide (svrType_ m ∈ [REDIS_SINGLE_SERVER; REDIS_MASTER_SLAVE_SERVER])) as [Ht|Ht].
  - assert (E : (svrType_ m =? REDIS_SINGLE_SERVER) || (svrType_ m =? REDIS_MASTER_SLAVE_SERVER) = true).
    { rewrite !elem_of_cons in Ht. destruct Ht as [E|[E|[]%elem_of_nil]]; by rewrite E. }
    rewrite E. destruct (nodeCli_ m) as [c|]; cbn; [|done]. unfold up, down. cbn.
    by destruct (tcpCliState cls (Some c) =? REDIS_CLIENT_STATE_INIT).
  - rewrite !not_elem_of_cons in Ht. destruct Ht as (H1 & H2 & _).
    rewrite !(proj2 (Z.eqb_neq _ _)) by done. cbn [orb]. case_decide as Hc; [|by rewrite (proj2 (Z.eqb_neq _ _))].
    rewrite Hc, Z.eqb_refl. pose proof (getKeySlotIndex_range key).
    replace (REDIS_CLUSTER_MAX_SLOT <? getKeySlotIndex key) with false by (symmetry; apply Z.ltb_ge; unfold REDIS_CLUSTER_MAX_SLOT; lia).
    destruct (cluterCli_ m) as [info|] eqn:Ei; [|done]. destruct (mo_cluster _ _ _ Hm _ Ei) as [_ HT].
    rewrite (HT (getKeySlotIndex key)), owner_slot_node. cbn.
    destruct (slot_node _ _) as [nd|] eqn:En; [|done]. cbn. unfold server_of.
    destruct (master_ (clusterNode_ nd)) as [c|] eqn:Em; [|done]. cbn. unfold up.
    destruct (tcpCliState cls (Some c) =? REDIS_CLIENT_STATE_INIT) eqn:Ec; cbn; [|by unfold down; cbn; rewrite Ec].
    unfold getRedisClient_slot. rewrite Ei, slave_slot_node, En. cbn.
    destruct (default _ _) as [s|] eqn:Es; [|done]. apply connected_up in Es. unfold up in Es. unfold down. cbn.
    by destruct (tcpCliState cls (Some s) =? REDIS_CLIENT_STATE_INIT).
Qed.

(** ** The command *)

(** What the steps of an order do, when its connection and thread exist. *)
Lemma io_of_run w c k : clients w !! c = Some k → io_of (Some c) w = Some (ioIndex_ k, w).
Proof. intros Hk. unfold io_of, get_cli. by rewrite op_bind_some, op_bind_find, Hk. Qed.
Lemma libeventIoOrder_run w i io o ord cli t now :
  libeventIoPtrVect w !! i = Some io → orders w !! o = Some ord →
  libeventIoOrder i {| n_outSecond_ := t; n_cli_ := cli; n_cmdOrd_ := Some o |} now w =
  Some ((), w <| asyncCmdNum ::= λ n, match resultCb_ ord with Some _ => (increment s32 n).2 | None => n end |>
    <| libeventIoPtrVect ::= alter (λ io, libeventIoWakeup now
         (orderNodeInsert {| n_outSecond_ := t; n_cli_ := cli; n_cmdOrd_ := Some o |} io)) i |>).
Proof.
  intros Hio Ho. unfold libeventIoOrder, has_callback, get_order. cbn [n_cmdOrd_].
  rewrite op_bind_run, op_bind_find, Ho. cbn [mret Op_ret].
  destruct (resultCb_ ord) as [cb|] eqn:E; [rewrite bool_decide_eq_true_2 by done|rewrite bool_decide_eq_false_2 by by intros []].
  all: rewrite op_bind_run; cbn [asyncRequestCmdAdd op_mod mret Op_ret]; rewrite op_bind_run;
    unfold push_order, get_io; rewrite op_bind_find; cbn; rewrite Hio; cbn.
  all: unfold set_io, op_mod; do 2 f_equal; unfold set_with; cbn; f_equal; by rewrite list_alter_alter_eq.
Qed.
Lemma order_now_queued w c k io cb out limit priv cmd :
  clients w !! c = Some k → libeventIoPtrVect w !! ioIndex_ k = Some io → limit = u64 (nowSecond_ w + out) →
  (cmdOrder ← new_order (with_limit out limit (OrderNode_new cmd cb priv));
   _ ← order_now (Some c) (Some cmdOrder) limit; mret 0) w = Some (0, with_command w cb out priv cmd c k).
Proof.
  intros Hk Hio ->. set (ord := with_limit _ _ _). unfold new_order, order_now. rewrite op_bind_run, op_bind_run.
  set (w1 := w <| orders ::= (.++ [ord]) |>).
  rewrite op_bind_run, (io_of_run w1 c k Hk), op_bind_get.
  rewrite (libeventIoOrder_run w1 (ioIndex_ k) io (length (orders w)) ord); [done|done|].
  cbn. by rewrite lookup_app_r, Nat.sub_diag.
Qed.

(** A reachable connection has a thread. *)
Lemma client_thread w c : Good w → up (clients w) c = true →
  ∃ k io, clients w !! c = Some k ∧ libeventIoPtrVect w !! ioIndex_ k = Some io.
Proof.
  intros G Hu. unfold up, tcpCliState in Hu. cbn in Hu. destruct (clients w !! c) as [k|] eqn:Ek; [|done].
  destruct (Forall_lookup_1 _ _ _ _ (g_clients _ G) Ek) as ([io Hio]%lookup_lt_is_Some & _). by exists k, io.
Qed.
Lemma command_params asyFd out (key cmd : bytes) :
  (asyFd <? 0) || bool_decide (key = []) || bool_decide (cmd = []) || (out =? 0) =
  negb (bool_decide (0 <= asyFd ∧ key ≠ [] ∧ cmd ≠ [] ∧ out ≠ 0)).
Proof.
  apply eq_true_iff_eq. rewrite !orb_true_iff, !bool_decide_eq_true, negb_true_iff, bool_decide_eq_false, Z.ltb_lt, Z.eqb_eq.
  split; [intros [[[?|?]|?]|?] (? & ? & ? & ?); [lia|done..]|]. intros H.
  destruct (decide (asyFd < 0)); [by do 3 left|]. destruct (decide (key = [])); [by do 2 left; right|].
  destruct (decide (cmd = [])); [by left; right|]. right. destruct (decide (out = 0)); [done|]. destruct H. split_and!; [lia|done..].
Qed.
Lemma state_refused m :
  (initState_ m =? REDIS_SVR_INIT_STATE) || (initState_ m =? REDIS_SVR_ERROR_STATE) ||
  (initState_ m =? REDIS_SVR_INVALID_STATE) = negb (bool_decide (usable m)).
Proof.
  apply eq_true_iff_eq. rewrite !orb_true_iff, negb_true_iff, bool_decide_eq_false, !Z.eqb_eq. unfold usable.
  rewrite !not_elem_of_cons. split; [intros H (? & ? & ? & _); naive_solver|]. intros H.
  destruct (decide (initState_ m = REDIS_SVR_INIT_STATE)); [by do 2 left|].
  destruct (decide (initState_ m = REDIS_SVR_ERROR_STATE)); [by left; right|]. right.
  destruct (decide (initState_ m = REDIS_SVR_INVALID_STATE)); [done|]. destruct H. split_and!; [done..|apply not_elem_of_nil].
Qed.

(** The code that is returned, and nothing else. *)
Ltac refused := eexists; split; [|reflexivity]; done.

(** C4: [redisAsyncCommand] never does anything undefined and either takes the
    command or leaves everything as it was: in each reachable state it returns 0
    exactly when the arguments are valid, the group is neither starting, failed nor
    invalid, and has a connection for the key: the only one of a single server or a
    master with slaves, in a cluster the master of the first node with the key's
    slot or, while that is down, its first connected slave. Then a new order waits
    at the thread of that connection, which is woken. *)
Theorem command_goes_to_owner w asyFd cb outSecond priv key cmdStr :
  reachable w →
  match command_target w asyFd outSecond key cmdStr with
  | Some c => ∃ k, clients w !! c = Some k ∧ (ioIndex_ k < length (libeventIoPtrVect w))%nat ∧
      redisAsyncCommand asyFd cb outSecond priv key cmdStr w = Some (0, with_command w cb outSecond priv cmdStr c k)
  | None => ∃ code, code ≠ 0 ∧ redisAsyncCommand asyFd cb outSecond priv key cmdStr w = Some (code, w)
  end.
Proof.
  intros G%Good_reachable. unfold command_target, redisAsyncCommand. rewrite command_params.
  case_decide as Hp; [rewrite bool_decide_eq_true_2 by done|rewrite bool_decide_eq_false_2 by done; refused]. cbn [negb].
  rewrite op_bind_get. destruct (vectRedisCliMgr w !! Z.to_nat asyFd) as [m|] eqn:Em; [|refused]. cbn [mbind option_bind].
  rewrite state_refused.
  case_decide as Hu; [rewrite bool_decide_eq_true_2 by done|rewrite bool_decide_eq_false_2 by done; refused]. cbn [negb].
  rewrite op_bind_get. pose proof (route_serving _ _ m (clients w) key (Forall_lookup_1 _ _ _ _ (g_mgrs _ G) Em)) as HR.
  destruct (route m (clients w) key) as [code|o]; [destruct HR as [Hc ->]; by exists code|].
  rewrite op_bind_get. fold (down (clients w) o). rewrite HR. destruct (down (clients w) o) eqn:Ed; [refused|].
  apply orb_false_elim in Ed as [Eo Es]. destruct o as [c|]; [|done].
  destruct (client_thread w c G) as (k & io & Hk & Hio); [unfold up; by rewrite Es|].
  exists k. split_and!; [done|by eapply lookup_lt_Some|]. unfold time_limit. rewrite op_bind_get.
  by eapply order_now_queued.
Qed.

(** Two clients of the cluster; the second's master is lost. *)
Definition route_sample (w : World) (key : string) : option nat := command_target w 0 5 (lit key) (lit "get").
Definition cluster_lost : list Event := cluster_up ++ [EvDisconnected 1 (lit "reset")].
Lemma command_goes_to_owner_witness :
  (getKeySlotIndex (lit "b") = 3300 ∧ getKeySlotIndex (lit "a") = 15495) ∧
  (route_sample (world_after cluster_up) "b" = Some 0 ∧ route_sample (world_after cluster_up) "a" = Some 1 ∧
   route_sample (world_after cluster_lost) "a" = Some 2)%nat ∧
  ∃ k, clients (world_after cluster_lost) !! 2%nat = Some k ∧
    (ioIndex_ k < length (libeventIoPtrVect (world_after cluster_lost)))%nat ∧
    redisAsyncCommand 0 (Some (user_cb 7)) 5 None (lit "a") (lit "get") (world_after cluster_lost) =
      Some (0, with_command (world_after cluster_lost) (Some (user_cb 7)) 5 None (lit "get") 2 k).
Proof.
  split_and!; [vm_compute; reflexivity..|].
  pose proof (command_goes_to_owner (world_after cluster_lost) 0 (Some (user_cb 7)) 5 None (lit "a") (lit "get")) as H.
  assert (E : command_target (world_after cluster_lost) 0 5 (lit "a") (lit "get") = Some 2%nat) by (vm_compute; reflexivity).
  rewrite E in H. apply H, reachable_after. vm_compute. reflexivity.
Defined.

End RedisRoute.
