(* ===== verification/ClusterData.v ===== *)
(** * The synchronous cluster client: data ([src/rediscluster], headers)

    [RedisClusterMgr] finds the node of a key, [RedisClusterNode] keeps a pool of
    connections to one node, [RedisClient] is a connection. Connections and nodes are
    shared by pointer, so they live in two heaps of the [World]; a deleted object is
    [None] there and its use undefined. What hiredis and the servers do is an
    instance of [Hiredis]. *)

From S2P Require Import Prelude CLib Incommon HashSlot RedisTopo.

Module ClusterData.

(** ** hiredis

    A reply as [hiredis/hiredis.h] has it: the type, the integer, the string ([None]: a
    null pointer; the length [len] is that of the list) and the elements. *)
Record Element := { e_type : Z; e_str : option bytes }.
Record Reply := { r_type : Z; r_integer : Z; r_str : option bytes; r_element : list Element }.
Definition REDIS_REPLY_STRING : Z := 1.
Definition REDIS_REPLY_ARRAY : Z := 2.
Definition REDIS_REPLY_INTEGER : Z := 3.
Definition REDIS_REPLY_NIL : Z := 4.
Definition REDIS_REPLY_STATUS : Z := 5.
Definition REDIS_REPLY_ERROR : Z := 6.

(** A request: a format with its arguments ([redisCommand], [redisvCommand]), or the
    words of a command ([redisCommandArgv]). *)
Inductive Arg (Double : Type) := AStr (s : bytes) | AInt (z : Z) | ADouble (d : Double).
Inductive Request (Double : Type) := Format (fmt : bytes) (args : list (Arg Double)) | Argv (argv : list bytes).
Arguments AStr {_} s.
Arguments AInt {_} z.
Arguments ADouble {_} d.
Arguments Format {_} fmt args.
Arguments Argv {_} argv.

(** [redisConnectWithTimeout] returns null, a context whose [err] is set, or one that is connected. *)
Inductive Connected := NoContext | Failed (errstr : bytes) | Up.

(** What happens outside: contexts are numbered in the order in which they are made. *)
Class Hiredis := {
  Net : Type;
  Double : Type;
  redisConnectWithTimeout : bytes → Z → Z → nat → Net → Connected * Net;
  redisvCommand : nat → Request Double → Net → option Reply * Net;
  redisFree : nat → Net → Net
}.

(** ** The objects *)

Record RedisClient := {
  connStatus_ : bool; port_ : option Z; timeout_ : Z; ipStr_ : bytes; password_ : bytes;
  lastError_ : bytes; context_ : option nat; manager_ : option nat }.
#[export] Instance eta_RedisClient : Eta RedisClient := λ r, {|
  connStatus_ := connStatus_ r; port_ := port_ r; timeout_ := timeout_ r; ipStr_ := ipStr_ r;
  password_ := password_ r; lastError_ := lastError_ r; context_ := context_ r; manager_ := manager_ r |}.
Definition RedisClient_new (manager : option nat) : RedisClient := {|
  connStatus_ := false; port_ := Some 7000; timeout_ := 120; ipStr_ := lit "127.0.0.1"; password_ := [];
  lastError_ := []; context_ := None; manager_ := manager |}.

Record SlotsInfo := { slotStart : Z; slotEnd : Z }.
#[export] Instance SlotsInfo_dec : EqDecision SlotsInfo.
Proof. solve_decision. Defined.
(** [port] of a new [NodeInfo] is not initialised: [None]. *)
Record NodeInfo := { n_id : bytes; n_ipStr : bytes; n_port : option Z; n_slots : list SlotsInfo }.
#[export] Instance NodeInfo_dec : EqDecision NodeInfo.
Proof. solve_decision. Defined.
#[export] Instance eta_NodeInfo : Eta NodeInfo := λ r,
  {| n_id := n_id r; n_ipStr := n_ipStr r; n_port := n_port r; n_slots := n_slots r |}.
Definition NodeInfo_new : NodeInfo := {| n_id := []; n_ipStr := []; n_port := None; n_slots := [] |}.

(** The value is false, and the object unchanged, for a text without colon. *)
Definition ParseNodeString (nodeStr : bytes) (self : NodeInfo) : bool * NodeInfo :=
  match RedisTopo.find_char ":" nodeStr with
  | None => (false, self)
  | Some pos =>
      (true, self <| n_port := Some (atoi (drop (pos + 1) nodeStr)) |> <| n_ipStr := take pos nodeStr |>)
  end.
Definition ParseSlotString (slotStr : bytes) (self : NodeInfo) : NodeInfo :=
  let slotsInfo :=
    match RedisTopo.find_char "-" slotStr with
    | None => {| slotStart := u16 (atoi slotStr); slotEnd := u16 (atoi slotStr) |}
    | Some pos => {| slotStart := u16 (atoi (take pos slotStr)); slotEnd := u16 (atoi (drop (pos + 1) slotStr)) |}
    end in
  self <| n_slots ::= λ l, l ++ [slotsInfo] |>.

(** [useMap_] is the set of its keys. *)
Record RedisClusterNode := {
  node_bStatus_ : bool; info_ : NodeInfo; minSize_ : Z; maxSize_ : Z; currSize_ : Z; node_timeout_ : Z;
  node_password_ : bytes; useMap_ : gset nat; idleList_ : list nat }.
#[export] Instance eta_RedisClusterNode : Eta RedisClusterNode := λ r, {|
  node_bStatus_ := node_bStatus_ r; info_ := info_ r; minSize_ := minSize_ r; maxSize_ := maxSize_ r;
  currSize_ := currSize_ r; node_timeout_ := node_timeout_ r; node_password_ := node_password_ r;
  useMap_ := useMap_ r; idleList_ := idleList_ r |}.
Definition RedisClusterNode_new : RedisClusterNode := {|
  node_bStatus_ := true; info_ := NodeInfo_new; minSize_ := 2; maxSize_ := 10; currSize_ := 0; node_timeout_ := 0;
  node_password_ := []; useMap_ := ∅; idleList_ := [] |}.

(** [fullCoverage_] is not initialised by the constructor, and not read before [init] sets it. *)
Record RedisClusterMgr := {
  bStatus_ : bool; fullCoverage_ : Z; brokers_ : bytes; mgr_ipStr_ : bytes; mgr_port_ : Z; mgr_minSize_ : Z;
  mgr_maxSize_ : Z; mgr_timeout_ : Z; mgr_password_ : bytes; nodes_ : list NodeInfo;
  nodesStatus_ : gmap bytes bool; slotMap_ : gmap Z nat }.
#[export] Instance eta_RedisClusterMgr : Eta RedisClusterMgr := λ r, {|
  bStatus_ := bStatus_ r; fullCoverage_ := fullCoverage_ r; brokers_ := brokers_ r; mgr_ipStr_ := mgr_ipStr_ r;
  mgr_port_ := mgr_port_ r; mgr_minSize_ := mgr_minSize_ r; mgr_maxSize_ := mgr_maxSize_ r; mgr_timeout_ := mgr_timeout_ r;
  mgr_password_ := mgr_password_ r; nodes_ := nodes_ r; nodesStatus_ := nodesStatus_ r; slotMap_ := slotMap_ r |}.
Definition RedisClusterMgr_new : RedisClusterMgr := {|
  bStatus_ := true; fullCoverage_ := 0; brokers_ := []; mgr_ipStr_ := lit "127.0.0.1"; mgr_port_ := 7000; mgr_minSize_ := 1;
  mgr_maxSize_ := 8; mgr_timeout_ := 15; mgr_password_ := []; nodes_ := []; nodesStatus_ := ∅; slotMap_ := ∅ |}.

Section world.
Context {HR : Hiredis}.

(** The heaps, the manager, the number of the next context, the rest of the world; and
    the connections that callers have and have not given back ([held]). *)
Record World := {
  clients : list (option RedisClient); nodes : list (option RedisClusterNode); mgr : RedisClusterMgr;
  next_context : nat; net : Net; held : list nat }.
#[export] Instance eta_World : Eta World := λ r, {|
  clients := clients r; nodes := nodes r; mgr := mgr r; next_context := next_context r; net := net r; held := held r |}.
Definition World_new (n : Net) : World := {|
  clients := []; nodes := []; mgr := RedisClusterMgr_new; next_context := 0; net := n; held := [] |}.

Definition live {A} (l : list (option A)) (i : nat) : option A := l !! i ≫= id.
Definition get_client (c : nat) : Op World RedisClient := op_find (λ w, live (clients w) c).
Definition set_client (c : nat) (f : RedisClient → RedisClient) : Op World () :=
  cl ← get_client c; op_mod (λ w, w <| clients ::= <[c := Some (f cl)]> |>).
Definition get_node (n : nat) : Op World RedisClusterNode := op_find (λ w, live (nodes w) n).
Definition set_node (n : nat) (f : RedisClusterNode → RedisClusterNode) : Op World () :=
  nd ← get_node n; op_mod (λ w, w <| nodes ::= <[n := Some (f nd)]> |>).
Definition get_mgr {A} (f : RedisClusterMgr → A) : Op World A := op_get (λ w, f (mgr w)).
Definition set_mgr (f : RedisClusterMgr → RedisClusterMgr) : Op World () := op_mod (λ w, w <| mgr ::= f |>).
Definition new_client (manager : option nat) : Op World nat :=
  c ← op_get (λ w, length (clients w)); _ ← op_mod (λ w, w <| clients ::= λ l, l ++ [Some (RedisClient_new manager)] |>); mret c.

(** A call of hiredis. *)
Definition call {A} (f : Net → A * Net) : Op World A :=
  r ← op_get (λ w, f (net w)); _ ← op_mod (λ w, w <| net := r.2 |>); mret r.1.
End world.
End ClusterData.
