(* ===== verification/ClusterClient.v ===== *)
(** * A connection of the synchronous cluster client ([src/rediscluster/RedisClient.cpp])

    Connecting, and the commands: each sends one request and reads the reply by its
    type. A member function gets the index of its object; parameters that it assigns
    come in and are returned with its result. *)

From S2P Require Import Prelude CLib Incommon StringUtil ClusterData.
Import ClusterData.

Module ClusterClient.

(** [s.c_str()] *)
Definition c_str (s : bytes) : bytes := take (strIntLen (Some s)) s.
(** [strcasecmp(s, t) == 0] *)
Definition strcasecmp (s t : bytes) : bool :=
  bool_decide (StringUtility.ToLower (c_str s) = StringUtility.ToLower (c_str t)).
Definition SYSTEM_ERROR : bytes := lit "系统错误".

Section client.
Context {HR : Hiredis}.
Abbreviation Op := (Op World).

Definition setLastError (c : nat) (buffer : option bytes) : Op () :=
  set_client c (λ cl, cl <| lastError_ := default SYSTEM_ERROR buffer |> <| connStatus_ := false |>).

Definition init (c : nat) (ipStr : bytes) (port : option Z) (timeout : Z) (password : bytes) : Op bool :=
  _ ← set_client c (λ cl, cl <| ipStr_ := ipStr |> <| port_ := port |> <| timeout_ := timeout |> <| password_ := password |>);
  mret true.

Definition redisFree (ctx : nat) : Op () := call (λ n, ((), ClusterData.redisFree ctx n)).
Definition redisvCommand (ctx : nat) (r : Request Double) : Op (option Reply) := call (ClusterData.redisvCommand ctx r).

Definition release (c : nat) : Op () :=
  cl ← get_client c;
  match context_ cl with
  | Some ctx => _ ← redisFree ctx; set_client c (λ cl, cl <| context_ := None |> <| connStatus_ := false |>)
  | None => mret ()
  end.
(** [delete client]: the destructor releases. *)
Definition delete (c : nat) : Op () := _ ← release c; op_mod (λ w, w <| clients ::= <[c := None]> |>).

(** A port that was never set is read here at the latest. *)
Definition connectWithTimeout (c : nat) : Op (option nat) :=
  cl ← get_client c;
  port ← op_some (port_ cl);
  ctx ← op_get next_context;
  _ ← op_mod (λ w, w <| next_context ::= S |>);
  r ← call (redisConnectWithTimeout (c_str (ipStr_ cl)) port (timeout_ cl) ctx);
  match r with
  | NoContext => _ ← set_client c (λ cl, cl <| context_ := None |>); mret None
  | Failed errstr =>
      _ ← setLastError c (Some (c_str errstr));
      _ ← redisFree ctx;
      _ ← set_client c (λ cl, cl <| context_ := None |>);
      mret None
  | Up => _ ← set_client c (λ cl, cl <| context_ := Some ctx |>); mret (Some ctx)
  end.

Definition auth (c : nat) : Op bool :=
  cl ← get_client c;
  if bool_decide (password_ cl = []) then
    _ ← set_client c (λ cl, cl <| connStatus_ := true |>); mret true
  else
    ctx ← op_some (context_ cl);
    reply ← redisvCommand ctx (Format (lit "AUTH %s") [AStr (c_str (password_ cl))]);
    match reply with
    | None => _ ← setLastError c (Some (lit "reply is null")); mret false
    | Some r =>
        _ ← set_client c (λ cl, cl <| connStatus_ := if r_str r is Some s then strcasecmp s (lit "OK") else false |>);
        _ ← (if (REDIS_REPLY_ERROR =? r_type r) && bool_decide (is_Some (r_str r)) then setLastError c (r_str r) else mret ());
        cl ← get_client c;
        mret (connStatus_ cl)
    end.

Definition ping (c : nat) : Op bool :=
  cl ← get_client c;
  match context_ cl with
  | None => mret false
  | Some ctx =>
      reply ← redisvCommand ctx (Format (lit "PING") []);
      _ ← set_client c (λ cl, cl <| connStatus_ :=
            match reply with Some r => if r_str r is Some s then strcasecmp s (lit "PONG") else false | None => false end |>);
      match reply with
      | None => mret false
      | Some r =>
          _ ← (if (r_type r =? REDIS_REPLY_ERROR) && bool_decide (is_Some (r_str r)) then setLastError c (r_str r) else mret ());
          cl ← get_client c;
          mret (connStatus_ cl)
      end
  end.

Definition connect (c : nat) : Op bool :=
  cl ← get_client c;
  _ ← (if bool_decide (is_Some (context_ cl)) then release c else mret ());
  ctx ← connectWithTimeout c;
  match ctx with
  | None => _ ← set_client c (λ cl, cl <| connStatus_ := false |>); mret false
  | Some _ =>
      a ← auth c;
      b ← (if a : bool then ping c else mret false);
      _ ← set_client c (λ cl, cl <| connStatus_ := b |>);
      mret b
  end.
Definition reConnect (c : nat) : Op bool := _ ← release c; connect c.

(** ** Requests and replies *)

Definition checkReply (reply : option Reply) : bool :=
  match reply with
  | None => false
  | Some r => (r_type r =? REDIS_REPLY_STRING) || (r_type r =? REDIS_REPLY_ARRAY) ||
              (r_type r =? REDIS_REPLY_INTEGER) || (r_type r =? REDIS_REPLY_STATUS)
  end.
(** The last branch of the seven functions below. *)
Definition bad_reply (c : nat) (reply : option Reply) : Op () :=
  match reply with
  | None => setLastError c (Some SYSTEM_ERROR)
  | Some r => if r_type r =? REDIS_REPLY_NIL then mret () else setLastError c (r_str r)
  end.
(** What the seven functions have in common: [ok] on a reply that [checkReply] accepts,
    [fail] otherwise. *)
Definition command {A} (c : nat) (req : Request Double) (ok : Reply → Op A) (fail : A) : Op A :=
  cl ← get_client c;
  match context_ cl with
  | None => mret fail
  | Some ctx =>
      reply ← redisvCommand ctx req;
      match reply with
      | Some r => if checkReply reply then ok r else _ ← bad_reply c reply; mret fail
      | None => _ ← bad_reply c reply; mret fail
      end
  end.

(** [std::string(str, len)]; a null pointer has length 0. *)
Definition text (s : option bytes) : bytes := default [] s.
Record DataItem := { item_type : Z; item_value : bytes }.
Definition intValue (d : DataItem) : Z := atoi (item_value d).
Definition HashMapDataItem : Type := gmap bytes DataItem.
Definition item (e : Element) : DataItem := {| item_type := e_type e; item_value := text (e_str e) |}.
(** [std::map::insert]: an existing entry stays. *)
Definition map_insert (k : bytes) (v : DataItem) (m : HashMapDataItem) : HashMapDataItem :=
  match m !! k with Some _ => m | None => <[k := v]> m end.

Definition commandArgvStatus (c : nat) (vData : list bytes) : Op bool :=
  command c (Argv vData) (λ r, mret (
    if REDIS_REPLY_STRING =? r_type r
    then match r_str r with Some (x :: s) => strcasecmp (x :: s) (lit "OK") | _ => false end
    else true)) false.
Definition commandArgvInteger (c : nat) (vData : list bytes) (retval : Z) : Op (bool * Z) :=
  command c (Argv vData) (λ r, mret (true, r_integer r)) (false, retval).
Definition commandArgvArray (c : nat) (vData : list bytes) (dataItemMap : HashMapDataItem) : Op (bool * HashMapDataItem) :=
  command c (Argv vData) (λ r, mret (true,
    foldl (λ m p, map_insert p.1 (item p.2) m) dataItemMap (zip (drop 2 vData) (r_element r)))) (false, dataItemMap).
Definition commandInteger (c : nat) (retval : Z) (req : Request Double) : Op (bool * Z) :=
  command c req (λ r, mret (true, r_integer r)) (false, retval).
Definition commandString (c : nat) (value : bytes) (req : Request Double) : Op (bool * bytes) :=
  command c req (λ r, mret (true, text (r_str r))) (false, value).
Definition commandList (c : nat) (vValue : list bytes) (req : Request Double) : Op (bool * list bytes) :=
  command c req (λ r, mret (true, vValue ++ (text ∘ e_str <$> r_element r))) (false, vValue).
(** Key and value after each other; with an odd number of elements the last one is read
    behind the end. *)
Fixpoint pairs_loop (es : list Element) (m : HashMapDataItem) : option HashMapDataItem :=
  match es with
  | [] => Some m
  | [_] => None
  | k :: v :: es' => pairs_loop es' (map_insert (text (e_str k)) (item v) m)
  end.
Definition commandArray (c : nat) (dataItemMap : HashMapDataItem) (req : Request Double) : Op (bool * HashMapDataItem) :=
  command c req (λ r, m ← op_some (pairs_loop (r_element r) dataItemMap); mret (true, m)) (false, dataItemMap).
Definition commandBool (c : nat) (req : Request Double) : Op bool :=
  command c req (λ r, mret (if REDIS_REPLY_STATUS =? r_type r then true else r_integer r =? 1)) false.
Definition addParam (dest src : list bytes) : list bytes := dest ++ src.
End client.
End ClusterClient.
