(* ===== verification/ClusterCommands.v ===== *)
(** * The commands of the synchronous cluster client ([src/rediscluster/RedisClient.cpp])

    One definition for each member function that sends a command. Formats and words
    are those of the source; hiredis makes the request of them. *)

From S2P Require Import Prelude CLib ClusterData ClusterClient.
Import ClusterData ClusterClient.

Module ClusterCommands.
Section commands.
Context {HR : Hiredis}.
Abbreviation Op := (Op World).

(** [key.empty() || key == ""] *)
Definition empty {A} (l : list A) : bool := match l with [] => true | _ => false end.

Definition exists_ (c : nat) (key : bytes) : Op (bool) :=
  if empty key then mret false else
  commandBool c (Format (lit "EXISTS %s") [AStr (c_str key)]).
(** Also an answer other than 1 is an error of the connection here. *)
Definition expire (c : nat) (key : bytes) (seconds : Z) : Op bool :=
  if empty key then mret false else
  '(ok, retval) ← commandInteger c (-1) (Format (lit "EXPIRE %s %u") [AStr (c_str key); AInt seconds]);
  if negb ok then mret false
  else if 1 =? retval then mret true else _ ← setLastError c (Some SYSTEM_ERROR); mret false.
Definition set (c : nat) (key : bytes) (value : bytes) : Op (bool) :=
  if empty key || empty value then mret false else
  commandArgvStatus c [lit "SET"; key; value].
Definition get (c : nat) (key : bytes) (value : bytes) : Op (bool * bytes) :=
  if empty key then mret (false, value) else
  commandString c value (Format (lit "GET %s") [AStr (c_str key)]).
Definition getset (c : nat) (key : bytes) (newValue : bytes) (value : bytes) : Op (bool * bytes) :=
  if empty key || empty newValue then mret (false, value) else
  commandString c value (Format (lit "GETSET %s %s") [AStr (c_str key); AStr (c_str newValue)]).
Definition del (c : nat) (key : bytes) : Op (bool) :=
  if empty key then mret false else
  commandBool c (Format (lit "DEL %s") [AStr (c_str key)]).
Definition hset (c : nat) (key : bytes) (field : bytes) (value : bytes) (retval : Z) : Op (bool * Z) :=
  if empty key || empty field || empty value then mret (false, retval) else
  commandArgvInteger c [lit "HSET"; key; field; value] retval.
Definition hget (c : nat) (key : bytes) (field : bytes) (value : bytes) : Op (bool * bytes) :=
  if empty key || empty field then mret (false, value) else
  commandString c value (Format (lit "HGET %s %s") [AStr (c_str key); AStr (c_str field)]).
Definition hgetall (c : nat) (key : bytes) (dataItemMap : HashMapDataItem) : Op (bool * HashMapDataItem) :=
  if empty key then mret (false, dataItemMap) else
  commandArray c dataItemMap (Format (lit "hgetall %s") [AStr (c_str key)]).
Definition hdel (c : nat) (key : bytes) (field : bytes) (retval : Z) : Op (bool * Z) :=
  if empty key || empty field then mret (false, retval) else
  commandInteger c retval (Format (lit "HDEL %s %s") [AStr (c_str key); AStr (c_str field)]).
(** A [std::map] argument is the list of its entries in order. *)
Definition hmset (c : nat) (key : bytes) (hashMap : list (bytes * bytes)) (retval : Z) : Op (bool * Z) :=
  if empty key || empty hashMap then mret (false, retval) else
  commandArgvInteger c ([lit "HMSET"; key] ++ concat ((λ p, [p.1; p.2]) <$> hashMap)) retval.
Definition hincrby (c : nat) (key : bytes) (field : bytes) (value : bytes) (retval : Z) : Op (bool * Z) :=
  if empty key || empty field then mret (false, retval) else
  commandInteger c retval (Format (lit "HINCRBY %s %s %s") [AStr (c_str key); AStr (c_str field); AStr (c_str value)]).
Definition incrby (c : nat) (key : bytes) (value : Z) (retval : Z) : Op (bool * Z) :=
  if empty key then mret (false, retval) else
  commandInteger c retval (Format (lit "INCRBY %s %d") [AStr (c_str key); AInt value]).
Definition incr (c : nat) (key : bytes) (retval : Z) : Op (bool * Z) := incrby c key 1 retval.
Definition hmget (c : nat) (key : bytes) (fieldList : list bytes) (dataItemMap : HashMapDataItem) : Op (bool * HashMapDataItem) :=
  if empty key || empty fieldList then mret (false, dataItemMap) else
  commandArgvArray c (addParam [lit "HMGET"; key] fieldList) dataItemMap.
Definition sadd (c : nat) (key : bytes) (vValue : list bytes) (retval : Z) : Op (bool * Z) :=
  if empty key || empty vValue then mret (false, retval) else
  commandArgvInteger c (addParam [lit "SADD"; key] vValue) retval.
Definition scard (c : nat) (key : bytes) (retval : Z) : Op (bool * Z) :=
  if empty key then mret (false, retval) else
  commandInteger c retval (Format (lit "SCARD %s") [AStr (c_str key)]).
Definition smembers (c : nat) (key : bytes) (vValue : list bytes) : Op (bool * list bytes) :=
  if empty key then mret (false, vValue) else
  commandList c vValue (Format (lit "SMEMBERS %s") [AStr (c_str key)]).
Definition srem (c : nat) (key : bytes) (members : list bytes) (retval : Z) : Op (bool * Z) :=
  if empty key || empty members then mret (false, retval) else
  commandArgvInteger c (addParam [lit "SREM"; key] members) retval.
Definition sismember (c : nat) (key : bytes) (member : bytes) : Op (bool) :=
  if empty key then mret false else
  commandBool c (Format (lit "SISMEMBER %s %s") [AStr (c_str key); AStr (c_str member)]).
Definition zadd_int (c : nat) (key : bytes) (score : Z) (member : bytes) (retval : Z) : Op (bool * Z) :=
  if empty key || empty member then mret (false, retval) else
  commandInteger c retval (Format (lit "ZADD %s %d %s") [AStr (c_str key); AInt score; AStr (c_str member)]).
Definition zadd_double (c : nat) (key : bytes) (score : Double) (member : bytes) (retval : Z) : Op (bool * Z) :=
  if empty key || empty member then mret (false, retval) else
  commandInteger c retval (Format (lit "ZADD %s %f %s") [AStr (c_str key); ADouble score; AStr (c_str member)]).
Definition zadd_string (c : nat) (key : bytes) (score : bytes) (member : bytes) (retval : Z) : Op (bool * Z) :=
  if empty key || empty score || empty member then mret (false, retval) else
  commandInteger c retval (Format (lit "ZADD %s %s %s") [AStr (c_str key); AStr (c_str score); AStr (c_str member)]).
Definition zadd_map (c : nat) (key : bytes) (mMap : list (bytes * bytes)) (retval : Z) : Op (bool * Z) :=
  if empty key || empty mMap then mret (false, retval) else
  commandArgvInteger c ([lit "ZADD"; key] ++ concat ((λ p, [p.2; p.1]) <$> mMap)) retval.
Definition zcard (c : nat) (key : bytes) (retval : Z) : Op (bool * Z) :=
  if empty key then mret (false, retval) else
  commandInteger c retval (Format (lit "ZCARD %s") [AStr (c_str key)]).
Definition zincrby (c : nat) (key : bytes) (increment : Double) (member : bytes) (value : bytes) : Op (bool * bytes) :=
  if empty key then mret (false, value) else
  commandString c value (Format (lit "ZINCRBY %s %f %s") [AStr (c_str key); ADouble increment; AStr (c_str member)]).
Definition zcount (c : nat) (key : bytes) (minScore : Double) (maxScore : Double) (retval : Z) : Op (bool * Z) :=
  if empty key then mret (false, retval) else
  commandInteger c retval (Format (lit "ZCOUNT %s %f %f") [AStr (c_str key); ADouble minScore; ADouble maxScore]).
Definition zrange (c : nat) (key : bytes) (start : Z) (end_ : Z) (vValue : list bytes) (withScore : bool) : Op (bool * list bytes) :=
  if empty key then mret (false, vValue) else
  if withScore : bool then commandList c vValue (Format (lit "ZRANGE %s %d %d WITHSCORES") [AStr (c_str key); AInt start; AInt end_])
  else commandList c vValue (Format (lit "ZRANGE %s %d %d") [AStr (c_str key); AInt start; AInt end_]).
(** [retval] is passed by value: the count is lost. *)
Definition zrem (c : nat) (key : bytes) (vMembers : list bytes) (retval : Z) : Op (bool) :=
  if empty key || empty vMembers then mret false else
  '(ret, _) ← commandArgvInteger c (addParam [lit "ZREM"; key] vMembers) retval; mret ret.
Definition zrangebylex (c : nat) (key : bytes) (start : bytes) (end_ : bytes) (vValue : list bytes) (offset : Z) (count : Z) : Op (bool * list bytes) :=
  if empty key || empty start || empty end_ then mret (false, vValue) else
  commandList c vValue (Format (lit "ZRANGEBYLEX %s %s %s LIMIT %d %d") [AStr (c_str key); AStr (c_str start); AStr (c_str end_); AInt offset; AInt count]).
Definition zrangebyscore (c : nat) (key : bytes) (start : bytes) (end_ : bytes) (vValue : list bytes) (offset : Z) (count : Z) : Op (bool * list bytes) :=
  if empty key || empty start || empty end_ then mret (false, vValue) else
  commandList c vValue (Format (lit "ZRANGEBYSCORE %s %s %s LIMIT %d %d") [AStr (c_str key); AStr (c_str start); AStr (c_str end_); AInt offset; AInt count]).
Definition zrevrangebyscore (c : nat) (key : bytes) (vValue : list bytes) (start : bytes) (end_ : bytes) (offset : Z) (cout : Z) : Op (bool * list bytes) :=
  if empty key then mret (false, vValue) else
  if empty start && empty end_ then
    if (offset =? cout) && (cout =? 0) then commandList c vValue (Format (lit "ZREVRANGEBYSCORE %s -inf +inf") [AStr (c_str key)])
    else commandList c vValue (Format (lit "ZREVRANGEBYSCORE %s -inf +inf LIMIT %d %d") [AStr (c_str key); AInt offset; AInt cout])
  else
    if (offset =? cout) && (cout =? 0) then commandList c vValue (Format (lit "ZREVRANGEBYSCORE %s %s %s") [AStr (c_str key); AStr (c_str start); AStr (c_str end_)])
    else commandList c vValue (Format (lit "ZREVRANGEBYSCORE %s %s %s LIMIT %d %d") [AStr (c_str key); AStr (c_str start); AStr (c_str end_); AInt offset; AInt cout]).
Definition zrangebyscore_ (c : nat) (key : bytes) (vValue : list bytes) (start : bytes) (end_ : bytes) (offset : Z) (cout : Z) : Op (bool * list bytes) :=
  if empty key then mret (false, vValue) else
  if empty start && empty end_ then
    if (offset =? cout) && (cout =? 0) then commandList c vValue (Format (lit "ZRANGEBYSCORE %s -inf +inf WITHSCORES") [AStr (c_str key)])
    else commandList c vValue (Format (lit "ZRANGEBYSCORE %s -inf +inf WITHSCORES LIMIT %d %d") [AStr (c_str key); AInt offset; AInt cout])
  else
    if (offset =? cout) && (cout =? 0) then commandList c vValue (Format (lit "ZRANGEBYSCORE %s %s %s WITHSCORES") [AStr (c_str key); AStr (c_str start); AStr (c_str end_)])
    else commandList c vValue (Format (lit "ZRANGEBYSCORE %s %s %s WITHSCORES LIMIT %d %d") [AStr (c_str key); AStr (c_str start); AStr (c_str end_); AInt offset; AInt cout]).
Definition lpush (c : nat) (key : bytes) (value : bytes) (retval : Z) : Op (bool * Z) :=
  if empty key || empty value then mret (false, retval) else
  commandArgvInteger c [lit "LPUSH"; key; value] retval.
Definition rpush (c : nat) (key : bytes) (value : bytes) (retval : Z) : Op (bool * Z) :=
  if empty key || empty value then mret (false, retval) else
  commandArgvInteger c [lit "RPUSH"; key; value] retval.
(** The key is part of the format here; what hiredis does with a per cent sign that has
    no argument is left undefined. *)
Definition plain (fmt : bytes) : Op (Request Double) :=
  if bool_decide ("%"%byte ∈ c_str fmt) then op_undefined else mret (Format (c_str fmt) []).
Definition lpop (c : nat) (key : bytes) (value : bytes) : Op (bool * bytes) :=
  if empty key then mret (false, value) else
  req ← plain (lit "LPOP " ++ key); commandString c value req.
Definition rpop (c : nat) (key : bytes) (value : bytes) : Op (bool * bytes) :=
  if empty key then mret (false, value) else
  req ← plain (lit "RPOP " ++ key); commandString c value req.
Definition blpop (c : nat) (key : bytes) (vValue : list bytes) (timeout : Z) : Op (bool * list bytes) :=
  if empty key then mret (false, vValue) else
  req ← plain (lit "BLPOP " ++ key ++ lit " " ++ fmt_ld timeout); commandList c vValue req.
Definition brpop (c : nat) (key : bytes) (vValue : list bytes) (timeout : Z) : Op (bool * list bytes) :=
  if empty key then mret (false, vValue) else
  req ← plain (lit "BRPOP " ++ key ++ lit " " ++ fmt_ld timeout); commandList c vValue req.

(** ** Any command *)

Inductive Command :=
  | C_exists (key : bytes)
  | C_expire (key : bytes) (seconds : Z)
  | C_set (key : bytes) (value : bytes)
  | C_get (key : bytes) (value : bytes)
  | C_getset (key : bytes) (newValue : bytes) (value : bytes)
  | C_del (key : bytes)
  | C_hset (key : bytes) (field : bytes) (value : bytes) (retval : Z)
  | C_hget (key : bytes) (field : bytes) (value : bytes)
  | C_hgetall (key : bytes) (dataItemMap : HashMapDataItem)
  | C_hdel (key : bytes) (field : bytes) (retval : Z)
  | C_hmset (key : bytes) (hashMap : list (bytes * bytes)) (retval : Z)
  | C_hincrby (key : bytes) (field : bytes) (value : bytes) (retval : Z)
  | C_incrby (key : bytes) (value : Z) (retval : Z)
  | C_hmget (key : bytes) (fieldList : list bytes) (dataItemMap : HashMapDataItem)
  | C_sadd (key : bytes) (vValue : list bytes) (retval : Z)
  | C_scard (key : bytes) (retval : Z)
  | C_smembers (key : bytes) (vValue : list bytes)
  | C_srem (key : bytes) (members : list bytes) (retval : Z)
  | C_sismember (key : bytes) (member : bytes)
  | C_zadd_int (key : bytes) (score : Z) (member : bytes) (retval : Z)
  | C_zadd_double (key : bytes) (score : Double) (member : bytes) (retval : Z)
  | C_zadd_string (key : bytes) (score : bytes) (member : bytes) (retval : Z)
  | C_zadd_map (key : bytes) (mMap : list (bytes * bytes)) (retval : Z)
  | C_zcard (key : bytes) (retval : Z)
  | C_zincrby (key : bytes) (increment : Double) (member : bytes) (value : bytes)
  | C_zcount (key : bytes) (minScore : Double) (maxScore : Double) (retval : Z)
  | C_zrange (key : bytes) (start : Z) (end_ : Z) (vValue : list bytes) (withScore : bool)
  | C_zrem (key : bytes) (vMembers : list bytes) (retval : Z)
  | C_zrangebylex (key : bytes) (start : bytes) (end_ : bytes) (vValue : list bytes) (offset : Z) (count : Z)
  | C_zrangebyscore (key : bytes) (start : bytes) (end_ : bytes) (vValue : list bytes) (offset : Z) (count : Z)
  | C_zrevrangebyscore (key : bytes) (vValue : list bytes) (start : bytes) (end_ : bytes) (offset : Z) (cout : Z)
  | C_zrangebyscore_ (key : bytes) (vValue : list bytes) (start : bytes) (end_ : bytes) (offset : Z) (cout : Z)
  | C_lpush (key : bytes) (value : bytes) (retval : Z)
  | C_rpush (key : bytes) (value : bytes) (retval : Z)
  | C_lpop (key : bytes) (value : bytes)
  | C_rpop (key : bytes) (value : bytes)
  | C_blpop (key : bytes) (vValue : list bytes) (timeout : Z)
  | C_brpop (key : bytes) (vValue : list bytes) (timeout : Z).

(** What a call gives back: whether it succeeded, and the parameter it assigns. *)
Inductive Output := ONone | OInt (z : Z) | OString (s : bytes) | OList (l : list bytes) | OMap (m : HashMapDataItem).
Definition on_bool (m : Op bool) : Op (bool * Output) := b ← m; mret (b, ONone).
Definition on_int (m : Op (bool * Z)) : Op (bool * Output) := '(b, z) ← m; mret (b, OInt z).
Definition on_string (m : Op (bool * bytes)) : Op (bool * Output) := '(b, s) ← m; mret (b, OString s).
Definition on_list (m : Op (bool * list bytes)) : Op (bool * Output) := '(b, l) ← m; mret (b, OList l).
Definition on_map (m : Op (bool * HashMapDataItem)) : Op (bool * Output) := '(b, l) ← m; mret (b, OMap l).
Definition exec (c : nat) (cmd : Command) : Op (bool * Output) :=
  match cmd with
  | C_exists key => on_bool (exists_ c key)
  | C_expire key seconds => on_bool (expire c key seconds)
  | C_set key value => on_bool (set c key value)
  | C_get key value => on_string (get c key value)
  | C_getset key newValue value => on_string (getset c key newValue value)
  | C_del key => on_bool (del c key)
  | C_hset key field value retval => on_int (hset c key field value retval)
  | C_hget key field value => on_string (hget c key field value)
  | C_hgetall key dataItemMap => on_map (hgetall c key dataItemMap)
  | C_hdel key field retval => on_int (hdel c key field retval)
  | C_hmset key hashMap retval => on_int (hmset c key hashMap retval)
  | C_hincrby key field value retval => on_int (hincrby c key field value retval)
  | C_incrby key value retval => on_int (incrby c key value retval)
  | C_hmget key fieldList dataItemMap => on_map (hmget c key fieldList dataItemMap)
  | C_sadd key vValue retval => on_int (sadd c key vValue retval)
  | C_scard key retval => on_int (scard c key retval)
  | C_smembers key vValue => on_list (smembers c key vValue)
  | C_srem key members retval => on_int (srem c key members retval)
  | C_sismember key member => on_bool (sismember c key member)
  | C_zadd_int key score member retval => on_int (zadd_int c key score member retval)
  | C_zadd_double key score member retval => on_int (zadd_double c key score member retval)
  | C_zadd_string key score member retval => on_int (zadd_string c key score member retval)
  | C_zadd_map key mMap retval => on_int (zadd_map c key mMap retval)
  | C_zcard key retval => on_int (zcard c key retval)
  | C_zincrby key increment member value => on_string (zincrby c key increment member value)
  | C_zcount key minScore maxScore retval => on_int (zcount c key minScore maxScore retval)
  | C_zrange key start end_ vValue withScore => on_list (zrange c key start end_ vValue withScore)
  | C_zrem key vMembers retval => on_bool (zrem c key vMembers retval)
  | C_zrangebylex key start end_ vValue offset count => on_list (zrangebylex c key start end_ vValue offset count)
  | C_zrangebyscore key start end_ vValue offset count => on_list (zrangebyscore c key start end_ vValue offset count)
  | C_zrevrangebyscore key vValue start end_ offset cout => on_list (zrevrangebyscore c key vValue start end_ offset cout)
  | C_zrangebyscore_ key vValue start end_ offset cout => on_list (zrangebyscore_ c key vValue start end_ offset cout)
  | C_lpush key value retval => on_int (lpush c key value retval)
  | C_rpush key value retval => on_int (rpush c key value retval)
  | C_lpop key value => on_string (lpop c key value)
  | C_rpop key value => on_string (rpop c key value)
  | C_blpop key vValue timeout => on_list (blpop c key vValue timeout)
  | C_brpop key vValue timeout => on_list (brpop c key vValue timeout)
  end.
End commands.
End ClusterCommands.
