(* ===== verification/ClusterPool.v ===== *)
(** * The connections of one node ([src/rediscluster/RedisClusterNode.cpp])

    A pool: idle connections in a list, those in use in a map. A member function gets
    the index of its object; [mutex_] makes each of them one step. *)

From S2P Require Import Prelude ClusterData ClusterClient.
Import ClusterData ClusterClient.

Module ClusterPool.
Section pool.
Context {HR : Hiredis}.
Abbreviation Op := (Op World).

Definition kMinSize : Z := 1.
Definition kMaxSize : Z := 64.

(** The connection, or null and false. *)
Definition applayNewRedisClient (n : nat) : Op (option nat) :=
  nd ← get_node n;
  c ← new_client (Some n);
  _ ← init c (n_ipStr (info_ nd)) (n_port (info_ nd)) (node_timeout_ nd) (node_password_ nd);
  bRet ← connect c;
  if bRet : bool then mret (Some c) else _ ← delete c; mret None.

Fixpoint init_loop (n : nat) (rounds : nat) : Op bool :=
  match rounds with
  | O => mret true
  | S rounds' =>
      client ← applayNewRedisClient n;
      match client with
      | None => mret false
      | Some c => _ ← set_node n (λ nd, nd <| idleList_ ::= λ l, l ++ [c] |>); init_loop n rounds'
      end
  end.
Definition node_init (n : nat) (info : NodeInfo) (minSize maxSize timeout : Z) (password : bytes) : Op bool :=
  let minSize := if minSize <? kMinSize then kMinSize else minSize in
  let maxSize := if kMaxSize <? maxSize then kMaxSize else maxSize in
  _ ← set_node n (λ nd, nd <| info_ := info |> <| minSize_ := minSize |> <| maxSize_ := maxSize |>
                          <| node_timeout_ := timeout |> <| node_password_ := password |>);
  if maxSize <? minSize then mret false else init_loop n (Z.to_nat minSize).

Definition stop (n : nat) : Op () :=
  nd ← get_node n;
  _ ← op_each delete (idleList_ nd);
  _ ← set_node n (λ nd, nd <| idleList_ := [] |>);
  _ ← op_each delete (elements (useMap_ nd));
  set_node n (λ nd, nd <| useMap_ := ∅ |>).
(** [~RedisClusterNode] *)
Definition node_delete (n : nat) : Op () := _ ← stop n; op_mod (λ w, w <| nodes ::= <[n := None]> |>).

Definition getRedisClient (n : nat) : Op (option nat) :=
  nd ← get_node n;
  match idleList_ nd with
  | client :: idle =>
      _ ← set_node n (λ nd, nd <| idleList_ := idle |> <| useMap_ ::= λ u, {[client]} ∪ u |>);
      mret (Some client)
  | [] =>
      if Z.of_nat (size (useMap_ nd)) <? maxSize_ nd then
        client ← applayNewRedisClient n;
        match client with
        | Some c => _ ← set_node n (λ nd, nd <| useMap_ ::= λ u, {[c]} ∪ u |>); mret (Some c)
        | None =>
            _ ← (if bool_decide (useMap_ nd = ∅) then set_node n (λ nd, nd <| node_bStatus_ := false |>) else mret ());
            mret None
        end
      else mret None
  end.

Definition releaseRedisClient (n client : nat) : Op () :=
  nd ← get_node n;
  if bool_decide (client ∈ useMap_ nd)
  then set_node n (λ nd, nd <| idleList_ ::= λ l, l ++ [client] |> <| useMap_ ::= λ u, u ∖ {[client]} |>)
  else mret ().
(** The connection is closed but not deleted. *)
Definition removeRedisClient (n client : nat) : Op () :=
  nd ← get_node n;
  if bool_decide (client ∈ useMap_ nd) then
    _ ← set_node n (λ nd, nd <| useMap_ ::= λ u, u ∖ {[client]} |>);
    _ ← release client;
    nd ← get_node n;
    if bool_decide (useMap_ nd = ∅) && bool_decide (idleList_ nd = [])
    then set_node n (λ nd, nd <| node_bStatus_ := false |>) else mret ()
  else mret ().

(** [RedisClient::recycle] ([RedisClient.cpp]), which [~RedisClientPtr] calls. *)
Definition recycle (c : nat) : Op () :=
  cl ← get_client c;
  match manager_ cl with
  | None => mret ()
  | Some n => if connStatus_ cl then releaseRedisClient n c else removeRedisClient n c
  end.
End pool.
End ClusterPool.
