(* ===== verification/ClusterMgr.v ===== *)
(** * Nodes and slots ([src/rediscluster/RedisClusterMgr.cpp])

    The manager asks a server for the nodes of the cluster, makes a pool for each
    master, and finds the pool of a key by its hash slot. Two calls that use the tables
    at the same time are a data race in the code (only the second look at [bStatus_]
    is under a lock), so every call is one step here. *)

From S2P Require Import Prelude CLib Incommon HashSlot RedisTopo ClusterData ClusterClient ClusterCommands ClusterPool.
Import ClusterData ClusterClient ClusterPool.

Module ClusterMgr.
Section mgr.
Context {HR : Hiredis}.
Abbreviation Op := (Op World).

(** [split], [crc16] and [keyHashSlot] are the text of [RedisTools.cpp]. *)
Definition split (str delim : bytes) : list bytes := RedisTools.split str delim [].
Definition crc16 : bytes → Z := RedisTools.crc16.
Definition keyHashSlot : bytes → Z := RedisTools.keyHashSlot.
Definition getKeySlotIndex (key : bytes) : Z := keyHashSlot key.

(** ** Nodes by slot *)

(** No entry of [slotMap_] refers to node [n]. *)
Definition unused (n : nat) (m : gmap Z nat) : bool := bool_decide (map_Forall (λ _ o, o ≠ n) m).
(** A [shared_ptr] to node [n] other than those in [slotMap_] goes. *)
Definition drop_ref (n : nat) : Op () := m ← get_mgr slotMap_; if unused n m then node_delete n else mret ().
(** [slotMap_[pos] = clusterNode;] *)
Definition set_slot (n : nat) (pos : Z) : Op () :=
  m ← get_mgr slotMap_;
  _ ← set_mgr (λ g, g <| slotMap_ ::= <[pos := n]> |>);
  match m !! pos with Some o => if decide (o = n) then mret () else drop_ref o | None => mret () end.
(** [for (uint16_t pos = start; pos <= end; pos++)]: more rounds than there are slot
    numbers mean that the loop does not end. *)
Fixpoint fill_slots (fuel : nat) (n : nat) (pos slotEnd : Z) : Op () :=
  match fuel with
  | O => op_undefined
  | S fuel' => if pos <=? slotEnd then _ ← set_slot n pos; fill_slots fuel' n (u16 (pos + 1)) slotEnd else mret ()
  end.

Definition new_node : Op nat :=
  n ← op_get (λ w, length (nodes w)); _ ← op_mod (λ w, w <| nodes ::= λ l, l ++ [Some RedisClusterNode_new] |>); mret n.
Definition connectClusterNode (node : NodeInfo) : Op bool :=
  st ← get_mgr nodesStatus_;
  if bool_decide (st !! n_id node = Some true) then mret true
  else
    n ← new_node;
    g ← get_mgr id;
    bRet ← node_init n node (mgr_minSize_ g) (mgr_maxSize_ g) (mgr_timeout_ g) (mgr_password_ g);
    if negb bRet then _ ← node_delete n; mret false
    else
      _ ← op_each (λ r, fill_slots RedisTopo.SLOT_ROUNDS n (slotStart r) (slotEnd r)) (n_slots node);
      _ ← set_mgr (λ g, g <| nodesStatus_ ::= λ m, match m !! n_id node with Some _ => m | None => <[n_id node := true]> m end |>);
      _ ← drop_ref n;
      mret true.
Fixpoint connect_all (infos : list NodeInfo) : Op bool :=
  match infos with
  | [] => mret true
  | i :: infos' => bRet ← connectClusterNode i; if bRet : bool then connect_all infos' else mret false
  end.

(** ** Asking a server *)

(** [redisCommand(context, cmd)] and the test for a null reply or text. *)
Definition ask (ctx : nat) (cmd : bytes) : Op (option bytes) :=
  reply ← redisvCommand ctx (Format cmd []); mret (reply ≫= λ r, c_str <$> r_str r).
Definition clusterEnabled (ctx : nat) : Op bool :=
  str ← ask ctx (lit "INFO");
  mret (match str with
        | None => false
        | Some s =>
            match RedisTools.find_sub (lit "cluster_enabled:") s with
            | None => false
            | Some p => bool_decide (take 1 (drop (p + length (lit "cluster_enabled:")) s) = lit "1")
            end
        end).
(** Without a colon the null pointer is read. *)
Definition clusterInfo (ctx : nat) : Op bool :=
  str ← ask ctx (lit "CLUSTER INFO");
  match str with
  | None => mret false
  | Some s =>
      p ← op_some (RedisTools.find_sub (lit ":") s);
      mret (bool_decide (take 2 (drop (p + 1) s) = lit "ok"))
  end.

(** A line of CLUSTER NODES: malformed, of no interest, or a master. *)
Inductive Line := Malformed | Skip | Master (node : NodeInfo).
Definition parse_line (line : bytes) : Line :=
  let nodeInfo := split line (lit " ") in
  if (length nodeInfo <? 8)%nat then Malformed
  else
    let flags := nth 2 nodeInfo [] in
    if negb (RedisTopo.strstr flags (lit "master")) || RedisTopo.strstr flags (lit "master,fail") ||
       RedisTopo.strstr flags (lit "myself,master,fail") then Skip
    else if (length nodeInfo <? 9)%nat then Malformed
    else
      let node := NodeInfo_new <| n_id := nth 0 nodeInfo [] |> in
      let node := (ParseNodeString (nth 1 nodeInfo []) node).2 in
      Master (foldl (λ node s, ParseSlotString s node) node (drop 8 nodeInfo)).
Fixpoint lines_loop (vLines : list bytes) : Op bool :=
  match vLines with
  | [] => mret true
  | line :: vLines' =>
      match parse_line line with
      | Malformed => mret false
      | Skip => lines_loop vLines'
      | Master node => _ ← set_mgr (λ g, g <| nodes_ ::= λ l, l ++ [node] |>); lines_loop vLines'
      end
  end.
Definition getClusterNodesInfo (ctx : nat) : Op bool :=
  str ← ask ctx (lit "CLUSTER NODES");
  match str with
  | None => mret false
  | Some s => _ ← set_mgr (λ g, g <| nodes_ := [] |>); lines_loop (split s RedisTopo.newline)
  end.

(** What [init] and [init2] do with a connected client. *)
Definition use_server (c : nat) : Op Z :=
  cl ← get_client c;
  match context_ cl with
  | None => mret (-1)
  | Some ctx =>
      e ← clusterEnabled ctx;
      if negb e then mret (-1) else
      i ← clusterInfo ctx;
      if negb i then mret (-1) else
      n ← getClusterNodesInfo ctx;
      if negb n then mret (-1) else
      infos ← get_mgr nodes_;
      r ← connect_all infos;
      mret (if r : bool then 0 else -1)
  end.

Definition mgr_init (ipStr : bytes) (port minSize maxSize timeout : Z) (password : bytes) (fullCoverage : Z) : Op Z :=
  _ ← set_mgr (λ g, g <| mgr_ipStr_ := ipStr |> <| mgr_port_ := port |> <| mgr_minSize_ := minSize |>
        <| mgr_maxSize_ := maxSize |> <| mgr_timeout_ := timeout |> <| mgr_password_ := password |>
        <| fullCoverage_ := fullCoverage |>);
  client ← new_client None;
  _ ← init client ipStr (Some port) timeout password;
  ok ← connect client;
  r ← (if ok : bool then use_server client else mret (-1));
  _ ← delete client;
  mret r.

Fixpoint brokers_loop (result : list bytes) (timeout : Z) (password : bytes) : Op Z :=
  match result with
  | [] => mret (-1)
  | b :: result' =>
      match RedisTopo.find_char ":" b with
      | None => mret (-1)
      | Some index =>
          client ← new_client None;
          _ ← init client (take index b) (Some (atoi (drop (index + 1) b))) timeout password;
          ok ← connect client;
          if ok : bool then r ← use_server client; _ ← delete client; mret r
          else _ ← delete client; brokers_loop result' timeout password
      end
  end.
Definition init2 (brokers : bytes) (minSize maxSize timeout : Z) (password : bytes) (fullCoverage : Z) : Op Z :=
  _ ← set_mgr (λ g, g <| brokers_ := brokers |> <| mgr_minSize_ := minSize |> <| mgr_maxSize_ := maxSize |>
        <| mgr_timeout_ := timeout |> <| mgr_password_ := password |> <| fullCoverage_ := fullCoverage |>);
  brokers_loop (split brokers (lit ",")) timeout password.

(** ** A connection for a key *)

Definition CONNECT_SUCCESS : Z := 0.
Definition pool_of (slotIndex : Z) : Op (option nat) :=
  m ← get_mgr slotMap_;
  match m !! slotIndex with Some n => getRedisClient n | None => mret None end.
(** A pool that is down is looked up again after a new [init2], which is called without
    its last argument: 0. *)
Definition getConnection (slotIndex : Z) : Op (option nat) :=
  m ← get_mgr slotMap_;
  match m !! slotIndex with
  | None => mret None
  | Some n =>
      nd ← get_node n;
      if node_bStatus_ nd then getRedisClient n
      else
        _ ← set_mgr (λ g, g <| bStatus_ := false |> <| nodesStatus_ ::= base.delete (n_id (info_ nd)) |>);
        g ← get_mgr id;
        ret ← init2 (brokers_ g) (mgr_minSize_ g) (mgr_maxSize_ g) (mgr_timeout_ g) (mgr_password_ g) 0;
        if negb (ret =? CONNECT_SUCCESS) then mret None
        else _ ← set_mgr (λ g, g <| bStatus_ := true |>); pool_of slotIndex
  end.
Definition findNodeConnection (key : bytes) : Op (option nat) :=
  g ← get_mgr id;
  if negb (bStatus_ g) && negb (fullCoverage_ g =? 0) then mret None
  else getConnection (getKeySlotIndex (c_str key)).

(** ** Everything that can happen

    Callers use a connection only while they have it, and give it back once, as
    [RedisClientPtr] does; to call a member of a deleted object is undefined. *)
Inductive Event :=
  | EInit (ipStr : bytes) (port minSize maxSize timeout : Z) (password : bytes) (fullCoverage : Z)
  | EInit2 (brokers : bytes) (minSize maxSize timeout : Z) (password : bytes) (fullCoverage : Z)
  | EFind (key : bytes)
  | ECommand (c : nat) (cmd : ClusterCommands.Command)
  | EPing (c : nat) | EConnect (c : nat) | EReConnect (c : nat) | ERelease (c : nat)
  | ERecycle (c : nat).
Definition holding {A} (c : nat) (m : Op A) : Op A :=
  h ← op_get held; if bool_decide (c ∈ h) then _ ← get_client c; m else op_undefined.
Definition handle (e : Event) : Op () :=
  match e with
  | EInit ip port mn mx t pw fc => _ ← mgr_init ip port mn mx t pw fc; mret ()
  | EInit2 b mn mx t pw fc => _ ← init2 b mn mx t pw fc; mret ()
  | EFind key =>
      r ← findNodeConnection key;
      match r with Some c => op_mod (λ w, w <| held ::= cons c |>) | None => mret () end
  | ECommand c cmd => holding c (_ ← ClusterCommands.exec c cmd; mret ())
  | EPing c => holding c (_ ← ping c; mret ())
  | EConnect c => holding c (_ ← connect c; mret ())
  | EReConnect c => holding c (_ ← reConnect c; mret ())
  | ERelease c => holding c (_ ← release c; mret ())
  | ERecycle c => holding c (_ ← recycle c; op_mod (λ w, w <| held ::= filter (λ x, x ≠ c) |>))
  end.
Fixpoint run_events (l : list Event) (w : World) : option World :=
  match l with
  | [] => Some w
  | e :: l' => match handle e w with Some (_, w') => run_events l' w' | None => None end
  end.
Inductive reachable : World → Prop :=
  | reach_new n : reachable (World_new n)
  | reach_step w e w' : reachable w → handle e w = Some ((), w') → reachable w'.
End mgr.
End ClusterMgr.
