(* ===== verification/ClusterSample.v ===== *)
(** * A cluster to try the synchronous client on

    An instance of [Hiredis]: a server that answers a number of requests (this number is
    the state outside) and then no more, for the concrete runs of the other files. *)

From S2P Require Import Prelude CLib RedisTopo ClusterData.
Import ClusterData.

Module ClusterSample.

Definition status (s : bytes) : Reply := {| r_type := REDIS_REPLY_STATUS; r_integer := 0; r_str := Some s; r_element := [] |}.
Definition node_lines : bytes :=
  lit "id1 10.0.0.1:7000 myself,master - 0 0 1 connected 3300-3302 5" ++ RedisTopo.newline ++
  lit "id2 10.0.0.2:7000 master - 0 0 1 connected 0-2 15495" ++ RedisTopo.newline ++
  lit "id3 10.0.0.3:7000 slave id1 0 0 1 connected".
(** After the first server has failed. *)
Definition failed_over : bytes :=
  lit "id1 10.0.0.1:7000 master,fail - 0 0 1 connected" ++ RedisTopo.newline ++
  lit "id2 10.0.0.2:7000 myself,master - 0 0 1 connected 0-2 15495" ++ RedisTopo.newline ++
  lit "id3 10.0.0.3:7000 master - 0 0 1 connected 3300-3302 5".
Definition FAILS_AT : nat := 12.
Definition answers (n : nat) : list (bytes * Reply) := [
  (lit "PING", status (lit "PONG"));
  (lit "INFO", status (lit "x cluster_enabled:1"));
  (lit "CLUSTER INFO", status (lit "cluster_state:ok"));
  (lit "CLUSTER NODES", status (if (n <=? FAILS_AT)%nat then failed_over else node_lines));
  (lit "GET %s", {| r_type := REDIS_REPLY_STRING; r_integer := 0; r_str := Some (lit "v"); r_element := [] |});
  (lit "EXPIRE %s %u", {| r_type := REDIS_REPLY_INTEGER; r_integer := 0; r_str := None; r_element := [] |})].
Definition answer {D} (req : Request D) (n : nat) : option Reply * nat :=
  match n with
  | O => (None, O)
  | S n' =>
      (match req with
       | Format f _ => snd <$> List.find (λ p, bool_decide (p.1 = f)) (answers n)
       | Argv _ => Some (status (lit "OK"))
       end, n')
  end.
#[export] Instance sample : Hiredis := {|
  Net := nat; Double := Z;
  redisConnectWithTimeout ip port t ctx n := (match n with O => NoContext | _ => Up end, n);
  redisvCommand ctx req n := answer req n;
  redisFree ctx n := n |}.
End ClusterSample.
