(* ===== verification/ClusterProofs.v ===== *)
(** * The connections of the synchronous cluster client, one at a time

    The operations on one connection change nothing else ([touch], [on_client]), connect
    it only with a context ([sane]); [command_run] is a command up to its reply. *)

From S2P Require Import Prelude CLib Incommon HashSlot RedisTopo ClusterData ClusterClient ClusterCommands ClusterPool ClusterMgr.
Import ClusterData ClusterClient ClusterPool ClusterMgr.

Module ClusterProofs.

(** The definitions of all commands. *)
Ltac unfold_command := unfold ClusterCommands.exists_, ClusterCommands.set, ClusterCommands.get,
  ClusterCommands.getset, ClusterCommands.del, ClusterCommands.hset, ClusterCommands.hget, ClusterCommands.hgetall,
  ClusterCommands.hdel, ClusterCommands.hmset, ClusterCommands.hincrby, ClusterCommands.incrby,
  ClusterCommands.hmget, ClusterCommands.sadd, ClusterCommands.scard, ClusterCommands.smembers,
  ClusterCommands.srem, ClusterCommands.sismember, ClusterCommands.zadd_int, ClusterCommands.zadd_double,
  ClusterCommands.zadd_string, ClusterCommands.zadd_map, ClusterCommands.zcard, ClusterCommands.zincrby,
  ClusterCommands.zcount, ClusterCommands.zrange, ClusterCommands.zrem, ClusterCommands.zrangebylex,
  ClusterCommands.zrangebyscore, ClusterCommands.zrevrangebyscore, ClusterCommands.zrangebyscore_,
  ClusterCommands.lpush, ClusterCommands.rpush, ClusterCommands.lpop, ClusterCommands.rpop, ClusterCommands.blpop,
  ClusterCommands.brpop, ClusterCommands.expire, ClusterCommands.plain, ClusterCommands.on_bool,
  ClusterCommands.on_int, ClusterCommands.on_string, ClusterCommands.on_list, ClusterCommands.on_map, addParam,
  commandArgvStatus, commandArgvInteger, commandArgvArray, commandInteger, commandString, commandList,
  commandArray, commandBool.

Section proofs.
Context {HR : Hiredis}.
Implicit Types w : World.

(** ** Operations on one connection *)

Definition client_of (w : World) (c : nat) : option RedisClient := live (clients w) c.
Definition node_of (w : World) (n : nat) : option RedisClusterNode := live (nodes w) n.

Lemma live_insert {A} (l : list (option A)) i j o :
  (i < length l)%nat → live (<[i := o]> l) j = if decide (i = j) then o else live l j.
Proof.
  intros Hi. unfold live. destruct (decide (i = j)) as [->|Hn].
  - rewrite list_lookup_insert_eq by lia. by destruct o.
  - by rewrite list_lookup_insert_ne.
Qed.
Lemma live_lt {A} (l : list (option A)) i a : live l i = Some a → (i < length l)%nat.
Proof. unfold live. destruct (l !! i) eqn:E; [|done]. intros _. by eapply lookup_lt_Some. Qed.
Lemma live_app {A} (l : list (option A)) o j :
  live (l ++ [o]) j = if decide (j = length l) then o else live l j.
Proof.
  unfold live. destruct (decide (j = length l)) as [->|Hn].
  - rewrite lookup_app_r by lia. rewrite Nat.sub_diag. by destruct o.
  - destruct (decide (j < length l)%nat); [by rewrite lookup_app_l by lia|].
    rewrite !lookup_ge_None_2; [done|lia|rewrite length_app; cbn; lia].
Qed.

(** Of [w] only connection [c] has changed (and the world outside); a context it has now
    is its old one or a new one. *)
Record touch (c : nat) (cl cl' : RedisClient) (w w' : World) : Prop := {
  t_now : client_of w' c = Some cl';
  t_rest i : i ≠ c → client_of w' i = client_of w i;
  t_len : length (clients w') = length (clients w);
  t_nodes : nodes w' = nodes w;
  t_mgr : mgr w' = mgr w;
  t_held : held w' = held w;
  t_next : (next_context w <= next_context w')%nat;
  t_manager : manager_ cl' = manager_ cl;
  t_context : context_ cl' = context_ cl ∨ context_ cl' = None ∨
    ∃ k, context_ cl' = Some k ∧ (next_context w <= k < next_context w')%nat
}.
(** [m] leaves connection [c] with [P]. *)
Definition on_client {A} (c : nat) (m : Op World A) (P : RedisClient → A → RedisClient → Prop) : Prop :=
  ∀ w cl, client_of w c = Some cl → wlp m (λ a w', ∃ cl', touch c cl cl' w w' ∧ P cl a cl') w.

Lemma touch_refl c cl w : client_of w c = Some cl → touch c cl cl w w.
Proof. intros H. split; auto. Qed.
Lemma touch_trans c cl cl1 cl2 w w1 w2 : touch c cl cl1 w w1 → touch c cl1 cl2 w1 w2 → touch c cl cl2 w w2.
Proof.
  intros [] []. split; try congruence; try lia.
  - intros i Hi. rewrite t_rest1 by done. by apply t_rest0.
  - destruct t_context1 as [E|[E|(k & E & Hk)]].
    + destruct t_context0 as [E0|[E0|(k & E0 & Hk)]]; rewrite E, E0; [by left|by right; left|].
      right; right. exists k. split; [done|lia].
    + by right; left.
    + right; right. exists k. split; [done|lia].
Qed.

Lemma on_client_ret {A} c (a : A) : on_client c (mret a) (λ cl b cl', b = a ∧ cl' = cl).
Proof. intros w cl H. apply wlp_ret. exists cl. split; [by apply touch_refl|done]. Qed.
Lemma on_client_bind {A B} c (m : Op World A) (k : A → Op World B) P Q :
  on_client c m P → (∀ a, on_client c (k a) (λ cl1 b cl2, ∀ cl, P cl a cl1 → Q cl b cl2)) → on_client c (m ≫= k) Q.
Proof.
  intros Hm Hk w cl Hcl. eapply wlp_seq; [by apply Hm|]. cbn beta. intros a w1 (cl1 & T1 & H1).
  eapply wlp_mono; [apply (Hk a w1 cl1), T1|]. cbn beta. intros b w2 (cl2 & T2 & H2).
  exists cl2. split; [by eapply touch_trans|by apply H2].
Qed.
Lemma on_client_mono {A} c (m : Op World A) (P Q : RedisClient → A → RedisClient → Prop) :
  on_client c m P → (∀ cl a cl', P cl a cl' → Q cl a cl') → on_client c m Q.
Proof. intros Hm HQ w cl Hcl. eapply wlp_mono; [by apply Hm|]. cbn beta. intros a w' (cl' & T & H). eauto. Qed.
Lemma on_client_get c : on_client c (get_client c) (λ cl a cl', a = cl ∧ cl' = cl).
Proof.
  intros w cl Hcl. apply wlp_find. intros a Ha. exists cl. unfold client_of in Hcl. split; [by apply touch_refl|].
  split; [congruence|done].
Qed.
Lemma on_client_set c f :
  (∀ cl, manager_ (f cl) = manager_ cl ∧ (context_ (f cl) = context_ cl ∨ context_ (f cl) = None)) →
  on_client c (set_client c f) (λ cl _ cl', cl' = f cl).
Proof.
  intros Hf w cl Hcl. unfold set_client. apply wlp_bind, wlp_find. intros a Ha. unfold client_of in Hcl.
  assert (a = cl) as -> by congruence. apply wlp_mod. exists (f cl). split; [|done].
  pose proof (live_lt _ _ _ Hcl) as Hlt. destruct (Hf cl) as [Hm Hc].
  split; cbn; try done; unfold client_of; cbn.
  - by rewrite live_insert, decide_True by lia.
  - intros i Hi. rewrite live_insert by lia. by rewrite decide_False.
  - apply length_insert.
  - tauto.
Qed.
Lemma on_client_call {A} c (f : Net → A * Net) : on_client c (call f) (λ cl _ cl', cl' = cl).
Proof.
  intros w cl Hcl. unfold call. apply wlp_bind, wlp_get, wlp_bind, wlp_mod, wlp_ret. exists cl. split; [|done].
  by split; auto.
Qed.
Lemma on_client_some {A} c (o : option A) : on_client c (op_some o) (λ cl a cl', o = Some a ∧ cl' = cl).
Proof. intros w cl Hcl. apply wlp_some. intros a Ha. exists cl. split; [by apply touch_refl|done]. Qed.
Lemma on_client_if {A} c (b : bool) (m n : Op World A) P Q R :
  (b = true → on_client c m P) → (b = false → on_client c n Q) →
  (∀ cl a cl', b = true → P cl a cl' → R cl a cl') → (∀ cl a cl', b = false → Q cl a cl' → R cl a cl') →
  on_client c (if b then m else n) R.
Proof. intros. destruct b; eapply on_client_mono; eauto. Qed.

(** *** Connecting *)

(** Only a connection with a context counts as connected. *)
Definition sane (cl : RedisClient) : Prop := connStatus_ cl = true → is_Some (context_ cl).

Lemma on_release c :
  on_client c (release c) (λ cl _ cl', context_ cl' = None ∧ (sane cl → connStatus_ cl' = false)).
Proof.
  unfold release. eapply on_client_bind; [apply on_client_get|]. intros a. cbn.
  destruct (context_ a) as [ctx|] eqn:E.
  - eapply on_client_bind; [apply on_client_call|]. intros []. eapply on_client_mono; [by apply on_client_set; auto|].
    cbn. intros cl _ cl' -> cl0 -> cl1 [-> ->]. done.
  - eapply on_client_mono; [apply on_client_ret|]. cbn beta. intros cl _ cl' [_ ->] cl0 [-> ->].
    split; [done|]. unfold sane. rewrite E. destruct (connStatus_ cl0); [intros H; by destruct (H eq_refl)|done].
Qed.

Lemma on_setLastError c buf : on_client c (setLastError c buf) (λ cl _ cl',
  connStatus_ cl' = false ∧ context_ cl' = context_ cl).
Proof. unfold setLastError. eapply on_client_mono; [apply on_client_set; auto|]. by cbn; intros cl _ cl' ->. Qed.

Lemma on_connectWithTimeout c :
  on_client c (connectWithTimeout c) (λ cl o cl', context_ cl' = o ∧ (connStatus_ cl' = true → connStatus_ cl = true)).
Proof.
  intros w cl Hcl. unfold connectWithTimeout. apply wlp_bind, wlp_find. intros a Ha. unfold client_of in Hcl.
  assert (a = cl) as -> by congruence. clear Ha. apply wlp_bind, wlp_some. intros port _. apply wlp_bind, wlp_get, wlp_bind, wlp_mod.
  unfold call at 1. apply wlp_bind, wlp_bind, wlp_get, wlp_bind, wlp_mod, wlp_ret.
  set (w1 := _ <| net := _ |>). assert (touch c cl cl w w1) as T1 by (split; auto; cbn; lia).
  assert (Hend : ∀ (P : RedisClient → () → RedisClient → Prop) (m : Op World ()) (o : option nat),
    on_client c m P → (∀ u cl', P cl u cl' → context_ cl' = o ∧ (connStatus_ cl' = true → connStatus_ cl = true)) →
    wlp (_ ← m; mret o) (λ o w', ∃ cl', touch c cl cl' w w' ∧ context_ cl' = o ∧ (connStatus_ cl' = true → connStatus_ cl = true)) w1).
  { intros P m o Hm HP. eapply wlp_seq; [apply Hm, T1|]. cbn beta. intros u w2 (cl2 & T2 & H2). apply wlp_ret.
    exists cl2. split; [by eapply touch_trans|by eapply HP]. }
  destruct (redisConnectWithTimeout _ _ _ _ _).1.
  - eapply Hend; [apply on_client_set; auto|]. by cbn; intros ? ? ->.
  - apply wlp_bind. eapply wlp_mono; [apply on_setLastError, T1|]. cbn beta. intros _ w2 (cl2 & T2 & H2 & H3).
    eapply wlp_seq; [apply on_client_call, T2|]. cbn beta. intros _ w3 (cl3 & T3 & ->).
    eapply wlp_seq; [apply on_client_set; [|apply T3]; auto|]. cbn beta. intros _ w4 (cl4 & T4 & ->). apply wlp_ret.
    eexists. split; [by do 3 (eapply touch_trans; [done|])|]. cbn. split; [done|]. by rewrite H2.
  - apply wlp_bind. unfold set_client. apply wlp_bind, wlp_find. intros a Ha. unfold w1 in Ha. cbn in Ha.
    assert (a = cl) as -> by congruence. apply wlp_mod, wlp_ret. exists (cl <| context_ := Some (next_context w) |>). split; [|done].
    pose proof (live_lt _ _ _ Hcl) as Hlt. split; cbn; try done; unfold client_of; cbn.
    + by rewrite live_insert, decide_True by lia.
    + intros i Hi. rewrite live_insert by lia. by rewrite decide_False.
    + apply length_insert.
    + lia.
    + right; right. eexists. split; [done|lia].
Qed.

(** The context stays. *)
Abbreviation keeps_context := (λ cl _ cl', context_ cl' = context_ cl).
Lemma on_keep_bind {A B} c (m : Op World A) (k : A → Op World B) :
  on_client c m keeps_context → (∀ a, on_client c (k a) keeps_context) → on_client c (m ≫= k) keeps_context.
Proof.
  intros Hm Hk. eapply on_client_bind; [exact Hm|]. intros a. eapply on_client_mono; [apply Hk|].
  cbn. intros cl1 b cl2 E cl0 E0. by rewrite E.
Qed.
Lemma on_keep_of {A} c (m : Op World A) P :
  on_client c m P → (∀ cl a cl', P cl a cl' → context_ cl' = context_ cl) → on_client c m keeps_context.
Proof. apply on_client_mono. Qed.
Lemma on_keep_set c f : (∀ cl, manager_ (f cl) = manager_ cl ∧ context_ (f cl) = context_ cl) →
  on_client c (set_client c f) keeps_context.
Proof.
  intros Hf. eapply on_keep_of; [apply on_client_set|].
  - intros cl. destruct (Hf cl). auto.
  - cbn. intros cl _ cl' ->. apply Hf.
Qed.
Lemma on_keep_error c buf : on_client c (setLastError c buf) keeps_context.
Proof. eapply on_keep_of; [apply on_setLastError|]. by cbn; intros cl _ cl' [_ ?]. Qed.
Lemma on_keep_call {A} c (f : Net → A * Net) : on_client c (call f) keeps_context.
Proof. eapply on_keep_of; [apply on_client_call|]. by cbn; intros cl _ cl' ->. Qed.
Lemma on_keep_ret {A} c (a : A) : on_client c (mret a) keeps_context.
Proof. eapply on_keep_of; [apply on_client_ret|]. by cbn; intros cl _ cl' [_ ->]. Qed.
Lemma on_keep_get c : on_client c (get_client c) keeps_context.
Proof. eapply on_keep_of; [apply on_client_get|]. by cbn; intros cl _ cl' [_ ->]. Qed.
Lemma on_keep_some {A} c (o : option A) : on_client c (op_some o) keeps_context.
Proof. eapply on_keep_of; [apply on_client_some|]. by cbn; intros cl _ cl' [_ ->]. Qed.
Lemma on_keep_undefined {A} c : on_client c (op_undefined : Op World A) keeps_context.
Proof. done. Qed.
Create HintDb keep.
#[local] Hint Resolve on_keep_error on_keep_call on_keep_ret on_keep_get on_keep_some on_keep_undefined : keep.
#[local] Hint Extern 1 (on_client _ (set_client _ _) _) => apply on_keep_set; done : keep.
#[local] Hint Extern 2 (on_client _ (_ ≫= _) _) => apply on_keep_bind; [|intros ?] : keep.
#[local] Hint Extern 3 (on_client _ (if ?b then _ else _) _) => destruct b : keep.
#[local] Hint Extern 3 (on_client _ (match ?o with Some _ => _ | None => _ end) _) => destruct o : keep.

Lemma on_auth c : on_client c (auth c) keeps_context.
Proof. unfold auth, redisvCommand. auto 20 with keep. Qed.
Lemma on_ping c : on_client c (ping c) keeps_context.
Proof. unfold ping, redisvCommand. auto 20 with keep. Qed.

Lemma on_connect c :
  on_client c (connect c) (λ cl b cl', connStatus_ cl' = b ∧ (b = true → is_Some (context_ cl'))).
Proof.
  unfold connect. eapply on_client_bind; [apply on_client_get|]. intros a.
  apply on_client_bind with (P := λ _ _ _, True).
  { apply (on_client_if _ _ _ _ (λ _ _ _, True) (λ _ _ _, True)); [|intros _; eapply on_client_mono; [apply on_client_ret|done]|done..].
    intros _. by eapply on_client_mono; [apply on_release|]. }
  intros _. eapply on_client_bind; [apply on_connectWithTimeout|]. intros [ctx|].
  - eapply on_client_bind; [apply on_auth|]. intros au. apply on_client_bind with (P := keeps_context).
    { destruct au; [apply on_ping|apply on_keep_ret]. }
    intros b. eapply on_client_bind; [apply on_client_set; auto|]. intros u. eapply on_client_mono; [apply on_client_ret|].
    cbn. intros cl b' cl' [-> ->] cl0 -> cl1 E cl2 E1 cl3 [E2 _] cl4 _ cl5 _. cbn. split; [done|].
    intros _. rewrite E, E1, E2. eauto.
  - eapply on_client_bind; [apply on_client_set; auto|]. intros u. eapply on_client_mono; [apply on_client_ret|].
    cbn. by intros cl b' cl' [-> ->] cl0 -> cl1 _ cl2 _ cl3 _.
Qed.
Lemma on_reConnect c :
  on_client c (reConnect c) (λ cl b cl', connStatus_ cl' = b ∧ (b = true → is_Some (context_ cl'))).
Proof.
  unfold reConnect. eapply on_client_bind; [apply on_release|]. intros u.
  eapply on_client_mono; [apply on_connect|]. cbn. auto.
Qed.

(** *** Commands *)

(** A command can only lose the connection. *)
Abbreviation keeps := (λ cl _ cl', context_ cl' = context_ cl ∧ (connStatus_ cl' = true → connStatus_ cl = true)).
Lemma on_keeps_bind {A B} c (m : Op World A) (k : A → Op World B) :
  on_client c m keeps → (∀ a, on_client c (k a) keeps) → on_client c (m ≫= k) keeps.
Proof.
  intros Hm Hk. eapply on_client_bind; [exact Hm|]. intros a. eapply on_client_mono; [apply Hk|].
  cbn. intros cl1 b cl2 [E H] cl0 [E0 H0]. rewrite E. auto.
Qed.
Lemma on_keeps_error c buf : on_client c (setLastError c buf) keeps.
Proof. eapply on_client_mono; [apply on_setLastError|]. cbn. by intros cl _ cl' [-> ->]. Qed.
Lemma on_keeps_ret {A} c (a : A) : on_client c (mret a) keeps.
Proof. eapply on_client_mono; [apply on_client_ret|]. by cbn; intros cl _ cl' [_ ->]. Qed.
Lemma on_keeps_some {A} c (o : option A) : on_client c (op_some o) keeps.
Proof. eapply on_client_mono; [apply on_client_some|]. by cbn; intros cl _ cl' [_ ->]. Qed.
Lemma on_keeps_undefined {A} c : on_client c (op_undefined : Op World A) keeps.
Proof. done. Qed.
Lemma on_keeps_command {A} c req (ok : Reply → Op World A) fail :
  (∀ r, on_client c (ok r) keeps) → on_client c (command c req ok fail) keeps.
Proof.
  intros Hok. unfold command. apply on_keeps_bind.
  { eapply on_client_mono; [apply on_client_get|]. by cbn; intros cl _ cl' [_ ->]. }
  intros cl. destruct (context_ cl) as [ctx|]; [|apply on_keeps_ret]. apply on_keeps_bind.
  { eapply on_client_mono; [apply on_client_call|]. by cbn; intros ? _ cl' ->. }
  intros [r|]; [destruct (checkReply _); [apply Hok|]|]; apply on_keeps_bind; try (intros _; apply on_keeps_ret); unfold bad_reply.
  - destruct (_ =? _); [apply on_keeps_ret|apply on_keeps_error].
  - apply on_keeps_error.
Qed.
Create HintDb keeps.
#[local] Hint Resolve on_keeps_error on_keeps_ret on_keeps_some on_keeps_undefined : keeps.
#[local] Hint Extern 1 (on_client _ (command _ _ _ _) _) => apply on_keeps_command; intros ? : keeps.
#[local] Hint Extern 2 (on_client _ (_ ≫= _) _) => apply on_keeps_bind; [|intros ?] : keeps.
#[local] Hint Extern 3 (on_client _ (if ?b then _ else _) _) => destruct b : keeps.
#[local] Hint Extern 3 (on_client _ (match ?x with (_, _) => _ end) _) => destruct x : keeps.
Lemma on_exec c cmd : on_client c (ClusterCommands.exec c cmd) keeps.
Proof.
  destruct cmd; cbn [ClusterCommands.exec]; unfold_command; auto 20 with keeps.
Qed.

(** *** What a command does *)

(** The connection is lost, with a message. *)
Definition broken (c : nat) (cl : RedisClient) (msg : bytes) (w : World) : World :=
  w <| clients ::= <[c := Some (cl <| lastError_ := msg |> <| connStatus_ := false |>)]> |>.
Lemma setLastError_run c cl buf w :
  client_of w c = Some cl → setLastError c buf w = Some ((), broken c cl (default SYSTEM_ERROR buf) w).
Proof. intros Hc. unfold setLastError, set_client, get_client. rewrite op_bind_find. unfold client_of in Hc. by rewrite Hc. Qed.
Lemma command_run {A} c req (ok : Reply → Op World A) fail w cl ctx :
  client_of w c = Some cl → context_ cl = Some ctx →
  command c req ok fail w =
    let (reply, n) := ClusterData.redisvCommand ctx req (net w) in
    let w1 := w <| net := n |> in
    match reply with
    | Some r =>
        if checkReply reply then ok r w1
        else if r_type r =? REDIS_REPLY_NIL then Some (fail, w1)
        else Some (fail, broken c cl (default SYSTEM_ERROR (r_str r)) w1)
    | None => Some (fail, broken c cl SYSTEM_ERROR w1)
    end.
Proof.
  intros Hc Hctx. unfold command, get_client. rewrite op_bind_find. unfold client_of in Hc. rewrite Hc, Hctx.
  unfold redisvCommand, call. rewrite op_bind_run, op_bind_get, op_bind_mod.
  destruct (ClusterData.redisvCommand ctx req (net w)) as [[r|] n]; cbn [fst snd mret Op_ret].
  - destruct (checkReply (Some r)); [done|]. rewrite op_bind_run. unfold bad_reply.
    destruct (_ =? _); [done|]. by rewrite (setLastError_run _ cl).
  - rewrite op_bind_run. unfold bad_reply. by rewrite (setLastError_run _ cl).
Qed.
End proofs.
End ClusterProofs.
