(* ===== verification/ClusterResults.v ===== *)
(** * What a command of the synchronous cluster client sends and gives back

    A table of the commands, apart from the code of [RedisClient.cpp]: which arguments must
    not be empty ([missing]), the words of the command ([words]), and what is made of a
    reply ([got]); [command_outcome] says that the code keeps to it. *)

From S2P Require Import Prelude CLib Incommon ClusterData ClusterClient ClusterCommands ClusterSample ClusterProofs.
Import ClusterData ClusterClient ClusterCommands ClusterProofs.

Module ClusterResults.

(** ** The words of a request *)

(** The parts of a text between spaces. *)
Definition flush (part : bytes) : list bytes := match part with [] => [] | _ => [part] end.
Fixpoint parts (part s : bytes) : list bytes :=
  match s with
  | [] => flush part
  | x :: s' => if decide (x = " "%byte) then flush part ++ parts [] s' else parts (part ++ [x]) s'
  end.

Section table.
Context {HR : Hiredis}.
Implicit Types w : World.

Inductive Word := WText (s : bytes) | WDouble (d : Double).
(** As hiredis documents its formats: a conversion is one word, whatever it contains. *)
Fixpoint expand (fmt : list bytes) (args : list (Arg Double)) : option (list Word) :=
  match fmt, args with
  | [], [] => Some []
  | p :: fmt', AStr s :: args' => if decide (p = lit "%s") then cons (WText s) <$> expand fmt' args' else cons (WText p) <$> expand fmt' args
  | p :: fmt', AInt z :: args' =>
      if decide (p = lit "%d" ∨ p = lit "%u") then cons (WText (fmt_ld z)) <$> expand fmt' args' else cons (WText p) <$> expand fmt' args
  | p :: fmt', ADouble d :: args' => if decide (p = lit "%f") then cons (WDouble d) <$> expand fmt' args' else cons (WText p) <$> expand fmt' args
  | p :: fmt', [] => cons (WText p) <$> expand fmt' args
  | [], _ => None
  end.
Definition asked (req : Request Double) : option (list Word) :=
  match req with Format fmt args => expand (parts [] fmt) args | Argv l => Some (WText <$> l) end.

(** ** The table *)

(** An argument that must not be empty is empty. *)
Definition missing (cmd : Command) : bool :=
  match cmd with
  | C_set key value | C_getset key value _ | C_lpush key value _ | C_rpush key value _ => empty key || empty value
  | C_hset key field value _ => empty key || empty field || empty value
  | C_hget key field _ | C_hdel key field _ | C_hincrby key field _ _ => empty key || empty field
  | C_hmset key pairs _ | C_zadd_map key pairs _ => empty key || empty pairs
  | C_hmget key names _ | C_sadd key names _ | C_srem key names _ | C_zrem key names _ => empty key || empty names
  | C_zadd_int key _ member _ | C_zadd_double key _ member _ => empty key || empty member
  | C_zadd_string key score member _ => empty key || empty score || empty member
  | C_zrangebylex key start end_ _ _ _ | C_zrangebyscore key start end_ _ _ _ => empty key || empty start || empty end_
  | C_exists key | C_expire key _ | C_get key _ | C_del key | C_hgetall key _ | C_incrby key _ _ | C_scard key _
  | C_smembers key _ | C_sismember key _ | C_zcard key _ | C_zincrby key _ _ _ | C_zcount key _ _ _ | C_zrange key _ _ _ _
  | C_zrevrangebyscore key _ _ _ _ _ | C_zrangebyscore_ key _ _ _ _ _
  | C_lpop key _ | C_rpop key _ | C_blpop key _ _ | C_brpop key _ _ => empty key
  end.

Definition W (s : string) : Word := WText (lit s).
(** A string goes as it is, or up to its first NUL; numbers in decimal. *)
Definition raw (s : bytes) : Word := WText s.
Definition str (s : bytes) : Word := WText (c_str s).
Definition num (z : Z) : Word := WText (fmt_ld z).
Definition bounds_of (start end_ : bytes) : list Word :=
  if empty start && empty end_ then [W "-inf"; W "+inf"] else [str start; str end_].
Definition limit_of (offset count : Z) : list Word :=
  if (offset =? count) && (count =? 0) then [] else [W "LIMIT"; num offset; num count].
(** The key of a pop and what follows it are cut at spaces: such a key is several words. *)
Definition cut (s : bytes) : list Word := WText <$> parts [] (c_str s).
Definition words (cmd : Command) : list Word :=
  match cmd with
  | C_exists key => [W "EXISTS"; str key]
  | C_expire key seconds => [W "EXPIRE"; str key; num seconds]
  | C_set key value => [W "SET"; raw key; raw value]
  | C_get key _ => [W "GET"; str key]
  | C_getset key newValue _ => [W "GETSET"; str key; str newValue]
  | C_del key => [W "DEL"; str key]
  | C_hset key field value _ => [W "HSET"; raw key; raw field; raw value]
  | C_hget key field _ => [W "HGET"; str key; str field]
  | C_hgetall key _ => [W "hgetall"; str key]
  | C_hdel key field _ => [W "HDEL"; str key; str field]
  | C_hmset key pairs _ => W "HMSET" :: raw key :: concat ((λ p, [raw p.1; raw p.2]) <$> pairs)
  | C_hincrby key field value _ => [W "HINCRBY"; str key; str field; str value]
  | C_incrby key value _ => [W "INCRBY"; str key; num value]
  | C_hmget key fields _ => W "HMGET" :: raw key :: (raw <$> fields)
  | C_sadd key values _ => W "SADD" :: raw key :: (raw <$> values)
  | C_scard key _ => [W "SCARD"; str key]
  | C_smembers key _ => [W "SMEMBERS"; str key]
  | C_srem key members _ => W "SREM" :: raw key :: (raw <$> members)
  | C_sismember key member => [W "SISMEMBER"; str key; str member]
  | C_zadd_int key score member _ => [W "ZADD"; str key; num score; str member]
  | C_zadd_double key score member _ => [W "ZADD"; str key; WDouble score; str member]
  | C_zadd_string key score member _ => [W "ZADD"; str key; str score; str member]
  | C_zadd_map key pairs _ => W "ZADD" :: raw key :: concat ((λ p, [raw p.2; raw p.1]) <$> pairs)
  | C_zcard key _ => [W "ZCARD"; str key]
  | C_zincrby key increment member _ => [W "ZINCRBY"; str key; WDouble increment; str member]
  | C_zcount key least greatest _ => [W "ZCOUNT"; str key; WDouble least; WDouble greatest]
  | C_zrange key start end_ _ scores => [W "ZRANGE"; str key; num start; num end_] ++ (if scores then [W "WITHSCORES"] else [])
  | C_zrem key members _ => W "ZREM" :: raw key :: (raw <$> members)
  | C_zrangebylex key start end_ _ offset count => [W "ZRANGEBYLEX"; str key; str start; str end_; W "LIMIT"; num offset; num count]
  | C_zrangebyscore key start end_ _ offset count => [W "ZRANGEBYSCORE"; str key; str start; str end_; W "LIMIT"; num offset; num count]
  | C_zrevrangebyscore key _ start end_ offset count => [W "ZREVRANGEBYSCORE"; str key] ++ bounds_of start end_ ++ limit_of offset count
  | C_zrangebyscore_ key _ start end_ offset count =>
      [W "ZRANGEBYSCORE"; str key] ++ bounds_of start end_ ++ [W "WITHSCORES"] ++ limit_of offset count
  | C_lpush key value _ => [W "LPUSH"; raw key; raw value]
  | C_rpush key value _ => [W "RPUSH"; raw key; raw value]
  | C_lpop key _ => W "LPOP" :: cut key
  | C_rpop key _ => W "RPOP" :: cut key
  | C_blpop key _ timeout => W "BLPOP" :: cut (key ++ lit " " ++ fmt_ld timeout)
  | C_brpop key _ timeout => W "BRPOP" :: cut (key ++ lit " " ++ fmt_ld timeout)
  end.
(** Commands whose key is part of a format, with a per cent sign in it. *)
Definition percent (cmd : Command) : bool :=
  match cmd with
  | C_lpop key _ | C_rpop key _ | C_blpop key _ _ | C_brpop key _ _ => bool_decide ("%"%byte ∈ key)
  | _ => false
  end.

(** What the parameter held before the call. *)
Definition kept (cmd : Command) : Output :=
  match cmd with
  | C_exists _ | C_expire _ _ | C_set _ _ | C_del _ | C_sismember _ _ | C_zrem _ _ _ => ONone
  | C_get _ v | C_getset _ _ v | C_hget _ _ v | C_zincrby _ _ _ v | C_lpop _ v | C_rpop _ v => OString v
  | C_hgetall _ m | C_hmget _ _ m => OMap m
  | C_smembers _ l | C_zrange _ _ _ l _ | C_zrangebylex _ _ _ l _ _ | C_zrangebyscore _ _ _ l _ _
  | C_zrevrangebyscore _ l _ _ _ _ | C_zrangebyscore_ _ l _ _ _ _ | C_blpop _ l _ | C_brpop _ l _ => OList l
  | C_hset _ _ _ n | C_hdel _ _ n | C_hmset _ _ n | C_hincrby _ _ _ n | C_incrby _ _ n | C_sadd _ _ n | C_scard _ n
  | C_srem _ _ n | C_zadd_int _ _ _ n | C_zadd_double _ _ _ n | C_zadd_string _ _ _ n | C_zadd_map _ _ n | C_zcard _ n
  | C_zcount _ _ _ n | C_lpush _ _ n | C_rpush _ _ n => OInt n
  end.
(** Elements two by two. *)
Fixpoint pairs_of (es : list Element) : option (list (bytes * DataItem)) :=
  match es with [] => Some [] | [_] => None | k :: v :: es' => cons (text (e_str k), item v) <$> pairs_of es' end.
(** The entries that a reply brings, by name. *)
Definition entries (cmd : Command) (r : Reply) : option (list (bytes * DataItem)) :=
  match cmd with C_hmget _ fields _ => Some (zip fields (item <$> r_element r)) | _ => pairs_of (r_element r) end.
Definition verdict (cmd : Command) (r : Reply) : bool :=
  match cmd with
  | C_exists _ | C_del _ | C_sismember _ _ => (r_type r =? REDIS_REPLY_STATUS) || (r_integer r =? 1)
  | C_expire _ _ => r_integer r =? 1
  | C_set _ _ => negb (r_type r =? REDIS_REPLY_STRING) || strcasecmp (text (r_str r)) (lit "OK")
  | _ => true
  end.
(** The result of a reply of a good type: an integer, a string, the elements behind those
    of the list, or the entries under names that were not there, of each the first. *)
Definition got (cmd : Command) (r : Reply) : option (bool * Output) :=
  match kept cmd with
  | OInt _ => Some (true, OInt (r_integer r))
  | OString _ => Some (true, OString (text (r_str r)))
  | OList l => Some (true, OList (l ++ (text ∘ e_str <$> r_element r)))
  | OMap m => (λ es, (true, OMap (m ∪ list_to_map es))) <$> entries cmd r
  | ONone => Some (verdict cmd r, ONone)
  end.
Definition is_expire (cmd : Command) : bool := match cmd with C_expire _ _ => true | _ => false end.

(** How a call of [cmd] on connection [c] ends with the answer of the library. *)
Definition judged (c : nat) (cl : RedisClient) (cmd : Command) (w : World) (a : option Reply * Net) : option (bool * Output * World) :=
  let w1 := w <| net := a.2 |> in
  let lost msg := Some (false, kept cmd, broken c cl msg w1) in
  match a.1 with
  | None => lost SYSTEM_ERROR
  | Some r =>
      if decide (r_type r ∈ [REDIS_REPLY_STRING; REDIS_REPLY_ARRAY; REDIS_REPLY_INTEGER; REDIS_REPLY_STATUS]) then
        match got cmd r with
        | Some (b, o) => if is_expire cmd && negb b then lost SYSTEM_ERROR else Some (b, o, w1)
        | None => None
        end
      else if decide (r_type r = REDIS_REPLY_NIL) then Some (false, kept cmd, w1)
      else lost (default SYSTEM_ERROR (r_str r))
  end.

(** ** The code keeps to it *)

(** *** Words *)

Lemma c_str_cons x s : x ≠ NUL → c_str (x :: s) = x :: c_str s.
Proof.
  intros Hx. unfold c_str. cbn. rewrite decide_False by done.
  assert (E : ∀ s n, strIntLen_loop s n = (n + strIntLen_loop s 0)%nat).
  { induction s0 as [|y s0 IH]; intros n; cbn; [lia|]. destruct (decide _); [lia|]. rewrite IH, (IH 1%nat). lia. }
  by rewrite (E s 1%nat).
Qed.
Lemma c_str_app a s : no_nul a → c_str (a ++ s) = a ++ c_str s.
Proof. induction a as [|x a IH]; [done|]. intros [Hx Ha]%no_nul_cons. cbn [app]. rewrite c_str_cons by done. by rewrite IH. Qed.
Lemma c_str_sub s x : x ∈ c_str s → x ∈ s.
Proof. intros H. rewrite <- (take_drop (strIntLen (Some s)) s). apply elem_of_app. by left. Qed.
Lemma expand_plain l : expand l [] = Some (WText <$> l).
Proof. induction l as [|p l IH]; [done|]. cbn. by rewrite IH. Qed.
Lemma parts_name name s : " "%byte ∉ name → parts [] (name ++ " "%byte :: s) = flush name ++ parts [] s.
Proof.
  assert (H : ∀ cur, " "%byte ∉ name → parts cur (name ++ " "%byte :: s) = flush (cur ++ name) ++ parts [] s); [|by apply (H [])].
  induction name as [|x name IH]; intros cur Hn; cbn [app parts].
  - by rewrite decide_True, app_nil_r.
  - apply not_elem_of_cons in Hn as [Hx Hn]. rewrite decide_False by congruence. rewrite IH by done. by rewrite <- app_assoc.
Qed.
(** A pop sends its name and the parts of the key. *)
Lemma asked_pop name s : name ≠ [] → " "%byte ∉ name → no_nul name →
  asked (Format (c_str (name ++ " "%byte :: s)) []) = Some (WText name :: cut s).
Proof.
  intros Hne Hsp Hn. rewrite c_str_app, c_str_cons by done. cbn [asked]. rewrite expand_plain, parts_name by done. by destruct name.
Qed.
Lemma no_percent_pop name key : "%"%byte ∉ name → "%"%byte ∉ key → "%"%byte ∉ c_str (name ++ key).
Proof. intros H1 H2 H%c_str_sub. by apply elem_of_app in H as [H|H]. Qed.
Lemma no_percent_timeout name key t : "%"%byte ∉ name → "%"%byte ∉ key → "%"%byte ∉ c_str (name ++ key ++ lit " " ++ fmt_ld t).
Proof.
  intros H1 H2. apply no_percent_pop; [done|]. intros [H|[H|H]%elem_of_app]%elem_of_app; [done|by apply list_elem_of_singleton in H|].
  by apply fmt_ld_chars in H as [H|H].
Qed.

Lemma asked_pairs (l : list (bytes * bytes)) f g : (WText <$> concat ((λ p, [f p; g p]) <$> l)) = concat ((λ p, [raw (f p); raw (g p)]) <$> l).
Proof. induction l as [|p l IH]; [done|]. cbn. by rewrite <- IH. Qed.

(** *** Entries *)

Lemma map_insert_union (k : bytes) (v : DataItem) (m m' : gmap bytes DataItem) : map_insert k v m ∪ m' = m ∪ <[k := v]> m'.
Proof.
  unfold map_insert, HashMapDataItem. destruct (m !! k) as [v'|] eqn:E; apply map_eq; intros k'; rewrite !lookup_union; destruct (decide (k = k')) as [<-|Hn];
    rewrite ?E, ?lookup_insert_eq, ?lookup_insert_ne by done; try done; by destruct (m' !! k).
Qed.
Lemma inserts_union (l : list (bytes * DataItem)) (m : gmap bytes DataItem) : foldl (λ m p, map_insert p.1 p.2 m) m l = m ∪ list_to_map l.
Proof.
  revert m. induction l as [|[k v] l IH]; intros m; cbn; [by rewrite (right_id_L ∅ (∪))|]. rewrite IH. apply map_insert_union.
Qed.
Lemma zip_union (es : list Element) (names : list bytes) (m : gmap bytes DataItem) :
  foldl (λ m p, map_insert p.1 (item p.2) m) m (zip names es) = m ∪ list_to_map (zip names (item <$> es)).
Proof.
  rewrite <- inserts_union. revert es m. induction names as [|k names IH]; intros [|e es] m; cbn; [done..|]. apply IH.
Qed.
Lemma pairs_loop_union (es : list Element) (m : gmap bytes DataItem) : pairs_loop es m = (λ l, m ∪ list_to_map l) <$> pairs_of es.
Proof.
  revert es m. fix IH 1. intros [|k [|v es]] m; cbn [pairs_loop pairs_of]; [by cbn; rewrite (right_id_L ∅ (∪))|done|].
  rewrite IH. destruct (pairs_of es) as [l|]; [|done]. cbn. by rewrite map_insert_union.
Qed.

(** *** One command *)

Lemma bool_verdict r : (if REDIS_REPLY_STATUS =? r_type r then true else r_integer r =? 1) = (r_type r =? REDIS_REPLY_STATUS) || (r_integer r =? 1).
Proof. rewrite (Z.eqb_sym REDIS_REPLY_STATUS). by destruct (_ =? REDIS_REPLY_STATUS). Qed.
Lemma set_verdict r :
  (if REDIS_REPLY_STRING =? r_type r then match r_str r with Some (x :: s) => strcasecmp (x :: s) (lit "OK") | _ => false end else true) =
  negb (r_type r =? REDIS_REPLY_STRING) || strcasecmp (text (r_str r)) (lit "OK").
Proof. rewrite (Z.eqb_sym REDIS_REPLY_STRING). destruct (_ =? REDIS_REPLY_STRING); [|done]. by destruct (r_str r) as [[|x s]|]. Qed.

Lemma checkReply_good r : checkReply (Some r) = bool_decide (r_type r ∈ [REDIS_REPLY_STRING; REDIS_REPLY_ARRAY; REDIS_REPLY_INTEGER; REDIS_REPLY_STATUS]).
Proof.
  unfold checkReply. apply Bool.eq_true_iff_eq. rewrite !orb_true_iff, !Z.eqb_eq, bool_decide_eq_true, !elem_of_cons, elem_of_nil. tauto.
Qed.

Section one_command.
Variables (c : nat) (cl : RedisClient) (ctx : nat) (w : World) (cmd : Command).
Hypotheses (Hc : client_of w c = Some cl) (Hctx : context_ cl = Some ctx).

Lemma command_judged {A} req (ok : Reply → Op World A) (fail : A) (k : A → Op World (bool * Output)) :
  (∀ w1, k fail w1 = Some (false, kept cmd, w1)) →
  (∀ r w1, client_of w1 c = Some cl → (ok r ≫= k) w1 =
    match got cmd r with
    | Some (b, o) => if is_expire cmd && negb b then Some (false, kept cmd, broken c cl SYSTEM_ERROR w1) else Some (b, o, w1)
    | None => None
    end) →
  (command c req ok fail ≫= k) w = judged c cl cmd w (ClusterData.redisvCommand ctx req (net w)).
Proof.
  intros Hf Hok. rewrite op_bind_run, (command_run _ _ _ _ _ cl ctx) by done. unfold judged.
  destruct (ClusterData.redisvCommand ctx req (net w)) as [[r|] n]; cbn [fst snd]; [|by rewrite Hf].
  rewrite checkReply_good. destruct (bool_decide_reflect (r_type r ∈ [REDIS_REPLY_STRING; REDIS_REPLY_ARRAY; REDIS_REPLY_INTEGER; REDIS_REPLY_STATUS])) as [H|H].
  - rewrite decide_True by done. rewrite <- Hok by done. by rewrite op_bind_run.
  - rewrite decide_False by done. destruct (Z.eqb_spec (r_type r) REDIS_REPLY_NIL).
    + by rewrite decide_True, Hf.
    + by rewrite decide_False, Hf.
Qed.
Lemma pair_judged {X} req (ok : Reply → X) x (F : X → Output) :
  is_expire cmd = false → kept cmd = F x → (∀ r, got cmd r = Some (true, F (ok r))) →
  (command c req (λ r, mret (true, ok r)) (false, x) ≫= λ '(b, x), mret (b, F x)) w =
    judged c cl cmd w (ClusterData.redisvCommand ctx req (net w)).
Proof. intros He Hk Hg. apply command_judged; [by intros; rewrite Hk|]. intros r w1 _. by rewrite Hg, He. Qed.
Lemma bool_judged req (ok : Reply → bool) :
  is_expire cmd = false → kept cmd = ONone → (∀ r, ok r = verdict cmd r) →
  (command c req (λ r, mret (ok r)) false ≫= λ b, mret (b, ONone)) w = judged c cl cmd w (ClusterData.redisvCommand ctx req (net w)).
Proof.
  intros He Hk Hv. apply command_judged; [by intros; rewrite Hk|]. intros r w1 _. unfold got. rewrite Hk, He. cbn. by rewrite Hv.
Qed.
Lemma pop_judged {X} fmt (ok : Reply → X) x (F : X → Output) :
  is_expire cmd = false → kept cmd = F x → (∀ r, got cmd r = Some (true, F (ok r))) → "%"%byte ∉ c_str fmt →
  ((req ← plain fmt; command c req (λ r, mret (true, ok r)) (false, x)) ≫= λ '(b, x), mret (b, F x)) w =
    judged c cl cmd w (ClusterData.redisvCommand ctx (Format (c_str fmt) []) (net w)).
Proof.
  intros He Hk Hg Hp. unfold plain. rewrite bool_decide_false by done.
  exact (pair_judged (Format (c_str fmt) []) ok x F He Hk Hg).
Qed.
End one_command.

Lemma expire_judged c cl ctx w key seconds :
  client_of w c = Some cl → context_ cl = Some ctx → empty key = false →
  exec c (C_expire key seconds) w = judged c cl (C_expire key seconds) w
    (ClusterData.redisvCommand ctx (Format (lit "EXPIRE %s %u") [AStr (c_str key); AInt seconds]) (net w)).
Proof.
  intros Hc Hctx Hk. cbn [exec]. unfold on_bool, expire. rewrite Hk. unfold commandInteger.
  set (req := Format _ _).
  transitivity ((command c req (λ r, mret (true, r_integer r)) (false, -1) ≫= λ '(ok, retval),
    (if negb ok then mret false else if 1 =? retval then mret true else _ ← setLastError c (Some SYSTEM_ERROR); mret false) ≫= λ b, mret (b, ONone)) w).
  { rewrite !op_bind_run. by destruct (command _ _ _ _ w) as [[[b z] w']|]. }
  apply command_judged; [done..|]. intros r w1 H1. unfold got. cbn [kept verdict is_expire andb].
  rewrite op_bind_run. cbn [mret Op_ret negb]. rewrite (Z.eqb_sym 1). destruct (r_integer r =? 1); cbn [negb]; [done|]. by rewrite !op_bind_run, (setLastError_run _ cl) by done.
Qed.
Lemma zrem_judged c cl ctx w key members n :
  client_of w c = Some cl → context_ cl = Some ctx → empty key || empty members = false →
  exec c (C_zrem key members n) w = judged c cl (C_zrem key members n) w
    (ClusterData.redisvCommand ctx (Argv (lit "ZREM" :: key :: members)) (net w)).
Proof.
  intros Hc Hctx Hk. cbn [exec]. unfold on_bool, zrem. rewrite Hk. unfold commandArgvInteger.
  transitivity ((command c (Argv (lit "ZREM" :: key :: members)) (λ r, mret (true, r_integer r)) (false, n) ≫= λ '(b, _), mret (b, ONone)) w).
  { rewrite !op_bind_run. by destruct (command _ _ _ _ w) as [[[b z] w']|]. }
  by apply command_judged.
Qed.
Lemma hgetall_judged c cl ctx w key m :
  client_of w c = Some cl → context_ cl = Some ctx → empty key = false →
  exec c (C_hgetall key m) w = judged c cl (C_hgetall key m) w
    (ClusterData.redisvCommand ctx (Format (lit "hgetall %s") [AStr (c_str key)]) (net w)).
Proof.
  intros Hc Hctx Hk. cbn [exec]. unfold on_map, hgetall. rewrite Hk. unfold commandArray. apply command_judged; [done..|].
  intros r w1 _. unfold got. cbn [kept entries is_expire andb]. rewrite !op_bind_run. unfold op_some. rewrite pairs_loop_union.
  by destruct (pairs_of (r_element r)).
Qed.

(** C25: Every command of a connected [RedisClient]. When an argument that is needed is
    empty it returns false and does nothing. Otherwise it sends one request, whose words
    are those of the table, and by the reply: a good type gives the command's result
    ([got]; a hash reply with an odd number of elements is read behind its end), and
    nothing else has changed; only [expire] takes an answer other than 1 for a lost
    connection. NIL gives false and changes nothing. No reply or an error gives
    false, stores the message of the server, and the connection counts as lost. The
    parameter is assigned in the first case only. For the commands that make a
    format of the key, keys without a per cent sign. *)
Theorem command_outcome c cl ctx cmd w :
  client_of w c = Some cl → context_ cl = Some ctx → percent cmd = false →
  if missing cmd then exec c cmd w = Some (false, kept cmd, w)
  else ∃ req, asked req = Some (words cmd) ∧ exec c cmd w = judged c cl cmd w (ClusterData.redisvCommand ctx req (net w)).
Proof.
  intros Hc Hctx Hp. destruct (missing cmd) eqn:Hm.
  { destruct cmd; cbn [missing] in Hm; cbn [exec]; unfold_command; by rewrite Hm. }
  destruct cmd; cbn [missing] in Hm;
    try (eexists; split; [|by first [apply expire_judged|apply zrem_judged|apply hgetall_judged]]; reflexivity);
    cbn [exec]; unfold_command; rewrite Hm;
    try (eexists; split; [|first [by apply pair_judged|apply bool_judged; [done..|by first [apply bool_verdict|apply set_verdict]]]]; reflexivity);
    try (cbn [percent] in Hp; apply bool_decide_eq_false in Hp; eexists; split; [|apply pop_judged; [done..|]]).
  - eexists. split; [|by apply pair_judged]. cbn [asked words]. by rewrite fmap_app, asked_pairs.
  - eexists. split; [|apply pair_judged; [done..|]; intros r; cbn; by rewrite zip_union]. reflexivity.
  - eexists. split; [|by apply pair_judged]. cbn [asked words]. by rewrite fmap_app, asked_pairs.
  - destruct withScore; (eexists; split; [|by apply pair_judged]); reflexivity.
  - cbn [words]. unfold bounds_of, limit_of. repeat case_match; (eexists; split; [|by apply pair_judged]); reflexivity.
  - cbn [words]. unfold bounds_of, limit_of. repeat case_match; (eexists; split; [|by apply pair_judged]); reflexivity.
  - exact (asked_pop (lit "LPOP") key ltac:(done) ltac:(decide_now) ltac:(decide_now)).
  - by apply no_percent_pop; [decide_now|].
  - exact (asked_pop (lit "RPOP") key ltac:(done) ltac:(decide_now) ltac:(decide_now)).
  - by apply no_percent_pop; [decide_now|].
  - exact (asked_pop (lit "BLPOP") (key ++ lit " " ++ fmt_ld timeout) ltac:(done) ltac:(decide_now) ltac:(decide_now)).
  - by apply no_percent_timeout; [decide_now|].
  - exact (asked_pop (lit "BRPOP") (key ++ lit " " ++ fmt_ld timeout) ltac:(done) ltac:(decide_now) ltac:(decide_now)).
  - by apply no_percent_timeout; [decide_now|].
Qed.
End table.

(** ** Samples *)

(** A connected client alone. *)
Definition one_client : RedisClient := (RedisClient_new None) <| connStatus_ := true |> <| context_ := Some 0%nat |>.
Definition one_client_world : @World ClusterSample.sample :=
  (World_new (5%nat : @Net ClusterSample.sample)) <| clients := [Some one_client] |> <| next_context := 1%nat |>.
Lemma command_outcome_witness :
  client_of one_client_world 0 = Some one_client ∧ context_ one_client = Some 0%nat ∧
  ∃ req, asked req = Some [W "GET"; str (lit "k")] ∧
    exec 0 (C_get (lit "k") []) one_client_world =
    judged 0 one_client (C_get (lit "k") []) one_client_world (ClusterData.redisvCommand 0 req (net one_client_world)).
Proof.
  split; [reflexivity|]. split; [reflexivity|].
  exact (command_outcome 0 one_client 0 (C_get (lit "k") []) one_client_world eq_refl eq_refl eq_refl).
Defined.
Lemma get_answer_run : fst <$> exec 0 (C_get (lit "k") []) one_client_world = Some (true, OString (lit "v")).
Proof. by vm_compute. Qed.
(** A key with a space becomes two words of a pop, but one word of other commands. *)
Lemma key_with_space :
  words (HR := ClusterSample.sample) (C_lpop (lit "a b") []) = [W "LPOP"; W "a"; W "b"] ∧
  words (HR := ClusterSample.sample) (C_get (lit "a b") []) = [W "GET"; W "a b"].
Proof. split; reflexivity. Qed.
(** A NUL in the key of a blocking pop cuts off its time-out. *)
Lemma key_with_nul : words (HR := ClusterSample.sample) (C_blpop (lit "a" ++ [NUL]) [] 5) = [W "BLPOP"; W "a"].
Proof. by vm_compute. Qed.
End ClusterResults.
