(* ===== verification/ClusterInv.v ===== *)
(** * The invariant of the synchronous cluster client

    Pools, connections and callers in every reachable state: each connection of a pool
    is idle or in use, the idle ones are connected, those in use belong to exactly one
    caller, and the slots lead to nodes that exist. *)

From S2P Require Import Prelude CLib Incommon HashSlot RedisTopo ClusterData ClusterClient ClusterCommands ClusterPool ClusterMgr ClusterProofs.
Import ClusterData ClusterClient ClusterPool ClusterMgr ClusterProofs.

Module ClusterInv.
Section inv.
Context {HR : Hiredis}.
Implicit Types w : World.

Definition pool_size (nd : RedisClusterNode) : Z := Z.of_nat (length (idleList_ nd) + size (useMap_ nd)).

Record Inv w : Prop := {
  i_idle n nd c : node_of w n = Some nd → c ∈ idleList_ nd → (c ∉ useMap_ nd) ∧
    ∃ cl, client_of w c = Some cl ∧ manager_ cl = Some n ∧ connStatus_ cl = true ∧ is_Some (context_ cl);
  i_nodup n nd : node_of w n = Some nd → NoDup (idleList_ nd);
  i_size n nd : node_of w n = Some nd → pool_size nd <= Z.max 0 (maxSize_ nd);
  i_use n nd c : node_of w n = Some nd → c ∈ useMap_ nd →
    c ∈ held w ∧ ∃ cl, client_of w c = Some cl ∧ manager_ cl = Some n;
  i_held c : c ∈ held w → (c < length (clients w))%nat ∧ ∀ cl, client_of w c = Some cl →
    sane cl ∧ ∃ n nd, manager_ cl = Some n ∧ node_of w n = Some nd ∧ c ∈ useMap_ nd;
  i_once : NoDup (held w);
  i_slot pos n : slotMap_ (mgr w) !! pos = Some n → is_Some (node_of w n);
  i_context c cl k : client_of w c = Some cl → context_ cl = Some k → (k < next_context w)%nat ∧
    ∀ c' cl', client_of w c' = Some cl' → context_ cl' = Some k → c' = c
}.

Lemma cluster_Inv_new n : Inv (World_new n).
Proof. split; try done; try (intros; by apply elem_of_nil in H); constructor. Qed.

(** A connection in a list of a node names this node. *)
Lemma idle_manager w n nd c cl : Inv w → node_of w n = Some nd → c ∈ idleList_ nd → client_of w c = Some cl → manager_ cl = Some n.
Proof. intros HI Hn Hc Hcl. destruct (i_idle _ HI _ _ _ Hn Hc) as (_ & cl' & E & ? & _). congruence. Qed.
Lemma use_manager w n nd c cl : Inv w → node_of w n = Some nd → c ∈ useMap_ nd → client_of w c = Some cl → manager_ cl = Some n.
Proof. intros HI Hn Hc Hcl. destruct (i_use _ HI _ _ _ Hn Hc) as (_ & cl' & E & ?). congruence. Qed.

(** ** What the operations keep *)

(** A connection without a pool, as [init] makes one. *)
Definition detached w (c : nat) : Prop := ∃ cl, client_of w c = Some cl ∧ manager_ cl = None.
Record ext w w' : Prop := {
  e_clients : (length (clients w) <= length (clients w'))%nat;
  e_free c : detached w c → detached w' c;
  e_held : held w' = held w
}.
#[export] Instance ext_pre : PreOrder ext.
Proof.
  split; [by split|]. intros w1 w2 w3 [] []. split; [lia|auto|congruence].
Qed.

Definition inv_ok {A} (m : Op World A) (Q : A → World → Prop) (w : World) : Prop :=
  wlp m (λ a w', Inv w' ∧ ext w w' ∧ Q a w') w.
Lemma ok_seq {A B} (m : Op World A) (k : A → Op World B) P Q w :
  inv_ok m P w → (∀ a w', Inv w' → ext w w' → P a w' → inv_ok (k a) Q w') → inv_ok (m ≫= k) Q w.
Proof.
  intros Hm Hk. eapply wlp_seq; [exact Hm|]. cbn beta. intros a w1 (I1 & E1 & H1).
  eapply wlp_mono; [by apply (Hk a w1)|]. cbn beta. intros b w2 (I2 & E2 & H2). split; [done|]. split; [by etrans|done].
Qed.
Lemma ok_ret {A} (a : A) (Q : A → World → Prop) w : Inv w → Q a w → inv_ok (mret a) Q w.
Proof. by split. Qed.
Lemma ok_mono {A} (m : Op World A) (P Q : A → World → Prop) w :
  inv_ok m P w → (∀ a w', Inv w' → ext w w' → P a w' → Q a w') → inv_ok m Q w.
Proof. intros Hm H. eapply wlp_mono; [exact Hm|]. cbn beta. intros a w' (? & ? & ?). auto. Qed.
Lemma ok_undefined {A} (Q : A → World → Prop) w : inv_ok op_undefined Q w.
Proof. done. Qed.
Lemma ok_get {A} (f : World → A) (Q : A → World → Prop) w : Inv w → Q (f w) w → inv_ok (op_get f) Q w.
Proof. by split. Qed.
Lemma ok_some {A} (o : option A) (Q : A → World → Prop) w : Inv w → (∀ a, o = Some a → Q a w) → inv_ok (op_some o) Q w.
Proof. intros HI HQ. apply wlp_some. intros a Ha. by split; [|split; [|apply HQ]]. Qed.
Lemma ok_find {A} (f : World → option A) (Q : A → World → Prop) w : Inv w → (∀ a, f w = Some a → Q a w) → inv_ok (op_find f) Q w.
Proof. intros HI HQ. apply wlp_find. intros a Ha. by split; [|split; [|apply HQ]]. Qed.
(** Changes of the manager other than to the slots. *)
Lemma ok_set_mgr f (Q : () → World → Prop) w :
  Inv w → slotMap_ (f (mgr w)) = slotMap_ (mgr w) → Q () (w <| mgr ::= f |>) → inv_ok (set_mgr f) Q w.
Proof.
  intros HI Hf HQ. apply wlp_mod. split; [|split; [by split|done]]. destruct HI. split; try done. cbn. by rewrite Hf.
Qed.

(** One connection changes that is idle nowhere. *)
Lemma Inv_touch c cl cl' w w' :
  Inv w → touch c cl cl' w w' → client_of w c = Some cl → (c ∈ held w → sane cl') →
  (∀ n nd, node_of w n = Some nd → c ∉ idleList_ nd) → Inv w'.
Proof.
  intros HI [] Hc Hs Hidle. unfold node_of in *.
  assert (Hcl : ∀ i cli, client_of w i = Some cli → ∃ cli', client_of w' i = Some cli' ∧ manager_ cli' = manager_ cli ∧ (i ≠ c → cli' = cli)).
  { intros i cli Hi. destruct (decide (i = c)) as [->|Hic]; [|exists cli; by rewrite t_rest0].
    exists cl'. split; [done|]. by replace cli with cl by congruence. }
  split; unfold node_of; rewrite ?t_nodes0, ?t_mgr0, ?t_held0; try apply HI.
  - intros n nd i Hn Hi. destruct (i_idle _ HI n nd i Hn Hi) as (Hu & cli & H1 & H2 & H3 & H4). split; [done|].
    assert (i ≠ c) by (intros ->; by eapply Hidle). exists cli. by rewrite t_rest0.
  - intros n nd i Hn Hi. destruct (i_use _ HI n nd i Hn Hi) as (Hh & cli & H1 & H2). split; [done|].
    destruct (Hcl i cli H1) as (cli' & H3 & H4 & _). exists cli'. by rewrite H4.
  - intros i Hi. rewrite t_len0. destruct (i_held _ HI i Hi) as [Hlt Hh]. split; [done|]. intros cli Hcli.
    destruct (decide (i = c)) as [->|Hic].
    + assert (cli = cl') as -> by congruence. rewrite t_manager0. split; [by apply Hs|]. by apply Hh.
    + rewrite t_rest0 in Hcli by done. by apply Hh.
  - intros i cli k Hi Hk.
    assert (Hnew : ∀ j clj, j ≠ c → client_of w j = Some clj → context_ clj = Some k → (k < next_context w)%nat) by
      (intros j clj _ H1 H2; by destruct (i_context _ HI j clj k H1 H2)).
    assert (Hc' : context_ cl' = Some k → context_ cl = Some k ∨ (next_context w <= k < next_context w')%nat).
    { intros E. destruct t_context0 as [E'|[E'|(k' & E' & Hk')]]; [left|..]; congruence || (right; congruence). }
    destruct (decide (i = c)) as [->|Hic].
    + assert (cli = cl') as -> by congruence. destruct (Hc' Hk) as [E|Hr].
      * destruct (i_context _ HI c cl k Hc E) as [H1 H2]. split; [lia|]. intros j clj Hj Hjk.
        destruct (decide (j = c)); [done|]. rewrite t_rest0 in Hj by done. by eapply H2.
      * split; [lia|]. intros j clj Hj Hjk. destruct (decide (j = c)) as [|Hjc]; [done|]. rewrite t_rest0 in Hj by done.
        specialize (Hnew j clj Hjc Hj Hjk). lia.
    + rewrite t_rest0 in Hi by done. destruct (i_context _ HI i cli k Hi Hk) as [H1 H2]. split; [lia|].
      intros j clj Hj Hjk. destruct (decide (j = c)) as [->|Hjc]; [|rewrite t_rest0 in Hj by done; by eapply H2].
      assert (clj = cl') as -> by congruence. destruct (Hc' Hjk) as [E|Hr]; [by eapply H2|lia].
Qed.

(** Node [n] changes, and what the callers have. *)
Lemma Inv_node n nd nd' h w :
  Inv w → node_of w n = Some nd →
  (∀ c, c ∈ idleList_ nd' → (c ∉ useMap_ nd') ∧
     ∃ cl, client_of w c = Some cl ∧ manager_ cl = Some n ∧ connStatus_ cl = true ∧ is_Some (context_ cl)) →
  NoDup (idleList_ nd') → pool_size nd' <= Z.max 0 (maxSize_ nd') →
  (∀ c, c ∈ useMap_ nd' → c ∈ h ∧ ∃ cl, client_of w c = Some cl ∧ manager_ cl = Some n ∧ sane cl) →
  NoDup h → (∀ c, c ∈ held w → c ∈ useMap_ nd ∨ c ∈ h) → (∀ c, c ∈ h → c ∈ useMap_ nd' ∨ (c ∈ held w ∧ c ∉ useMap_ nd)) →
  Inv (w <| nodes ::= <[n := Some nd']> |> <| held := h |>).
Proof.
  intros HI Hn Hidle Hnd Hsz Huse Hh H1 H2. pose proof (live_lt _ _ _ Hn) as Hlt.
  assert (Hnodes : ∀ m, node_of (w <| nodes ::= <[n := Some nd']> |> <| held := h |>) m = if decide (n = m) then Some nd' else node_of w m).
  { intros m. unfold node_of. cbn. by rewrite live_insert by lia. }
  split; try apply HI; try (intros m nd0 ?; rewrite Hnodes; destruct (decide (n = m)) as [<-|Hm]); try (intros m nd0; rewrite Hnodes; destruct (decide (n = m)) as [<-|Hm]).
  - intros [= <-] Hc. by apply Hidle.
  - apply HI.
  - by intros [= <-].
  - apply HI.
  - by intros [= <-].
  - apply HI.
  - intros [= <-] Hc. destruct (Huse _ Hc) as (? & cl & ? & ? & _). eauto.
  - intros Hm' Hc. destruct (i_use _ HI m nd0 _ Hm' Hc) as (Hheld & cl & Hcl & Hman). split; [|eauto].
    cbn. destruct (H1 _ Hheld) as [Hu|]; [|done]. destruct (i_use _ HI n nd _ Hn Hu) as (_ & cl2 & Hcl2 & Hman2). congruence.
  - cbn. intros c Hc. destruct (H2 c Hc) as [Hu|[Hheld Hnu]].
    + destruct (Huse c Hu) as (_ & cl & Hcl & Hman & Hsane). split; [by eapply live_lt|]. intros cl0 Hcl0.
      assert (cl0 = cl) as -> by (unfold client_of in *; cbn in *; congruence). split; [done|]. exists n, nd'. rewrite Hnodes.
      by rewrite decide_True.
    + destruct (i_held _ HI c Hheld) as [? Hal]. split; [done|]. intros cl Hcl. destruct (Hal cl Hcl) as (Hs & m & ndm & Hm1 & Hm2 & Hm3).
      split; [done|]. exists m, ndm. rewrite Hnodes. destruct (decide (n = m)) as [<-|]; [congruence|done].
  - done.
  - intros pos m Hm. rewrite Hnodes. destruct (decide (n = m)); [done|]. by eapply (i_slot _ HI).
Qed.

(** Connections [P] are deleted, and node [n] with them if any. *)
Record gone (P : nat → Prop) (no : option nat) w w' : Prop := {
  g_gone c : P c → client_of w' c = None;
  g_rest c : ¬ P c → client_of w' c = client_of w c;
  g_len : length (clients w') = length (clients w);
  g_node n : no = Some n → node_of w' n = None;
  g_nodes n : no ≠ Some n → node_of w' n = node_of w n;
  g_nlen : length (nodes w') = length (nodes w);
  g_mgr : mgr w' = mgr w;
  g_held : held w' = held w;
  g_next : (next_context w <= next_context w')%nat
}.
Lemma Inv_gone P no w w' :
  Inv w → gone P no w w' →
  (∀ n nd c, no ≠ Some n → node_of w n = Some nd → c ∈ idleList_ nd ∨ c ∈ useMap_ nd → ¬ P c) →
  (∀ n nd c, no = Some n → node_of w n = Some nd → c ∈ useMap_ nd → P c) →
  (∀ n pos, no = Some n → slotMap_ (mgr w) !! pos ≠ Some n) → Inv w'.
Proof.
  intros HI [G1 G2 G3 G4 G5 G6 G7 G8 G9] HP HQ Hslot.
  assert (Hback : ∀ c cl, client_of w' c = Some cl → client_of w c = Some cl ∧ ¬ P c).
  { intros c cl Hc. assert (¬ P c) by (intros Hp; rewrite G1 in Hc by done; done). rewrite <- G2 by done. done. }
  assert (Hnode : ∀ n nd, node_of w' n = Some nd → no ≠ Some n ∧ node_of w n = Some nd).
  { intros n nd Hn. assert (no ≠ Some n) by (intros E; rewrite G4 in Hn by done; done). by rewrite <- G5. }
  split.
  - intros n nd c [Hno Hn]%Hnode Hc. destruct (i_idle _ HI n nd c Hn Hc) as (Hu & cl & H1 & H2). split; [done|].
    exists cl. rewrite G2 by eauto. done.
  - intros n nd [_ Hn]%Hnode. by eapply (i_nodup _ HI).
  - intros n nd [_ Hn]%Hnode. by eapply (i_size _ HI).
  - intros n nd c [Hno Hn]%Hnode Hc. rewrite G8. destruct (i_use _ HI n nd c Hn Hc) as (Hh & cl & H1 & H2). split; [done|].
    exists cl. rewrite G2 by eauto. done.
  - rewrite G8, G3. intros c Hc. destruct (i_held _ HI c Hc) as [Hlt Hh]. split; [done|].
    intros cl [Hcl Hp]%Hback. destruct (Hh cl Hcl) as (Hs & n & nd & H1 & H2 & H3). split; [done|]. exists n, nd.
    rewrite G5; [done|]. intros E. by eapply Hp, HQ.
  - rewrite G8. apply HI.
  - rewrite G7. intros pos n Hpos. rewrite G5; [by eapply (i_slot _ HI)|]. intros E. by eapply Hslot.
  - intros c cl k [Hc _]%Hback Hk. destruct (i_context _ HI c cl k Hc Hk) as [? Hu]. split; [lia|].
    intros c' cl' [Hc' _]%Hback. by apply Hu.
Qed.

(** ** Deleting *)

Lemma wlp_delete c w : wlp (delete c) (λ _, gone (λ i, i = c) None w) w.
Proof.
  unfold delete. destruct (client_of w c) as [cl|] eqn:E.
  - eapply wlp_seq; [by apply on_release|]. cbn beta. intros _ w1 (cl1 & [] & _). apply wlp_mod.
    pose proof (live_lt _ _ _ t_now0) as Hlt. split; cbn; try done; unfold client_of, node_of; cbn.
    + intros i ->. rewrite live_insert by lia. by rewrite decide_True.
    + intros i Hi. rewrite live_insert by lia. rewrite decide_False by done. by apply t_rest0.
    + by rewrite length_insert.
    + by rewrite t_nodes0.
    + by rewrite t_nodes0.
  - unfold release, get_client. apply wlp_bind, wlp_bind, wlp_find. intros a Ha. unfold client_of in E. congruence.
Qed.
Lemma gone_trans (P Q : nat → Prop) w1 w2 w3 :
  gone P None w1 w2 → gone Q None w2 w3 → gone (λ c, P c ∨ Q c) None w1 w3.
Proof.
  intros [] []. split; try congruence; try lia.
  - intros c [Hp|Hq]; [|by apply g_gone1]. destruct (client_of w3 c) eqn:E; [|done].
    assert (¬ Q c) by (intros Hq; rewrite g_gone1 in E by done; done). rewrite g_rest1, g_gone0 in E by done. done.
  - intros c Hn. rewrite g_rest1, g_rest0; tauto.
  - intros n _. by rewrite g_nodes1, g_nodes0.
Qed.
Lemma gone_iff (P Q : nat → Prop) no w w' : (∀ c, P c ↔ Q c) → gone P no w w' → gone Q no w w'.
Proof. intros HPQ []. split; try done; intros c Hc; [apply g_gone0|apply g_rest0]; by rewrite ?HPQ. Qed.
Lemma wlp_delete_all l w : wlp (op_each delete l) (λ _, gone (λ i, i ∈ l) None w) w.
Proof.
  revert w. induction l as [|c l IH]; intros w; cbn [op_each].
  - apply wlp_ret. split; try done. by intros c ?%elem_of_nil.
  - eapply wlp_seq; [apply wlp_delete|]. cbn beta. intros [] w1 H1. eapply wlp_mono; [apply IH|]. cbn beta. intros _ w2 H2.
    eapply gone_iff; [|by eapply gone_trans; [exact H1|exact H2]]. intros i. by rewrite elem_of_cons.
Qed.

Lemma set_node_nodes n f nd w : node_of w n = Some nd → set_node n f w = Some ((), w <| nodes ::= <[n := Some (f nd)]> |>).
Proof. intros Hn. unfold set_node, get_node. rewrite op_bind_find. unfold node_of in Hn. by rewrite Hn. Qed.

Lemma wlp_node_delete n w : wlp (node_delete n) (λ _ w', ∃ nd, node_of w n = Some nd ∧
  gone (λ c, c ∈ idleList_ nd ∨ c ∈ useMap_ nd) (Some n) w w') w.
Proof.
  unfold node_delete, stop. apply wlp_bind, wlp_bind, wlp_find. intros nd Hn.
  apply wlp_bind. eapply wlp_mono; [apply wlp_delete_all|]. cbn beta. intros _ w1 G1.
  assert (Hn1 : node_of w1 n = Some nd) by (rewrite (g_nodes _ _ _ _ G1) by done; exact Hn). pose proof (live_lt _ _ _ Hn1) as Hlt.
  apply wlp_bind. unfold wlp at 1. rewrite (set_node_nodes _ _ nd) by done. set (w2 := w1 <| nodes ::= _ |>).
  apply wlp_bind. eapply wlp_mono; [apply wlp_delete_all|]. cbn beta. intros _ w3 G3.
  assert (Hn3 : node_of w3 n = Some (nd <| idleList_ := [] |>)).
  { rewrite (g_nodes _ _ _ _ G3) by done. unfold node_of, w2. cbn. rewrite live_insert by lia. by rewrite decide_True. }
  unfold wlp at 1. rewrite (set_node_nodes _ _ _ _ Hn3). apply wlp_mod. exists nd. split; [done|].
  assert (Hlen : length (nodes w3) = length (nodes w1)).
  { rewrite (g_nlen _ _ _ _ G3). unfold w2. cbn. apply length_insert. }
  destruct G1 as [A1 A2 A3 _ A5 A6 A7 A8 A9], G3 as [B1 B2 B3 _ B5 B6 B7 B8 B9]. unfold w2, client_of, node_of in *. cbn in *.
  split; unfold client_of, node_of; cbn.
  - intros c [Hc|Hc].
    + destruct (decide (c ∈ elements (useMap_ nd))) as [H|H]; [by apply B1|]. rewrite B2 by done. by apply A1.
    + apply B1, elem_of_elements, Hc.
  - intros c Hc. rewrite B2, A2; [done|tauto|rewrite elem_of_elements; tauto].
  - congruence.
  - intros m [= <-]. rewrite !live_insert by (rewrite ?length_insert; lia). by rewrite decide_True.
  - intros m Hm. assert (n ≠ m) by congruence. rewrite !live_insert by (rewrite ?length_insert; lia). rewrite !decide_False by done.
    rewrite B5 by done. rewrite live_insert by lia. rewrite decide_False by done. by apply A5.
  - rewrite !length_insert. congruence.
  - congruence.
  - congruence.
  - lia.
Qed.

(** ** Connections of no pool *)

Lemma detached_idle w c n nd : Inv w → detached w c → node_of w n = Some nd → (c ∉ idleList_ nd) ∧ (c ∉ useMap_ nd).
Proof.
  intros HI (cl & Hc & Hm) Hn. split; intros Hin.
  - pose proof (idle_manager _ _ _ _ _ HI Hn Hin Hc). congruence.
  - pose proof (use_manager _ _ _ _ _ HI Hn Hin Hc). congruence.
Qed.
Lemma detached_held w c : Inv w → detached w c → c ∉ held w.
Proof.
  intros HI (cl & Hc & Hm) Hh. destruct (i_held _ HI c Hh) as [_ H]. destruct (H cl Hc) as (_ & n & nd & E & _). congruence.
Qed.
Lemma touch_ext c cl cl' w w' : client_of w c = Some cl → touch c cl cl' w w' → ext w w'.
Proof.
  intros Hc []. split; [lia| |done]. intros i (cli & Hi & Hm). destruct (decide (i = c)) as [->|Hic].
  - exists cl'. split; [done|]. congruence.
  - exists cli. by rewrite t_rest0.
Qed.
(** An operation on a connection that no pool or caller has. *)
Lemma ok_on_client {A} c (m : Op World A) P cl w :
  Inv w → on_client c m P → client_of w c = Some cl → c ∉ held w → (∀ n nd, node_of w n = Some nd → c ∉ idleList_ nd) →
  inv_ok m (λ a w', ∃ cl', client_of w' c = Some cl' ∧ manager_ cl' = manager_ cl ∧ P cl a cl' ∧ nodes w' = nodes w ∧
    mgr w' = mgr w ∧ length (clients w') = length (clients w)) w.
Proof.
  intros HI Hm Hc Hh Hi. eapply wlp_mono; [by apply Hm|]. cbn beta. intros a w' (cl' & T & HP).
  split; [by eapply Inv_touch|]. split; [by eapply touch_ext|]. destruct T. eauto 10.
Qed.
Lemma ok_detached {A} c (m : Op World A) P w :
  Inv w → on_client c m P → detached w c → inv_ok m (λ a w', nodes w' = nodes w ∧ mgr w' = mgr w ∧ length (clients w') = length (clients w)) w.
Proof.
  intros HI Hm Hd. destruct Hd as (cl & Hc & Hman) eqn:E. eapply ok_mono; [eapply (ok_on_client c m P cl); try done|].
  - by apply detached_held.
  - intros n nd Hn. by apply (detached_idle w c n nd).
  - cbn. intros a w' _ _ (cl' & _ & _ & _ & ?). done.
Qed.
(** A new connection is nowhere yet. *)
Lemma ok_new_client man w :
  Inv w → inv_ok (new_client man) (λ c w', c = length (clients w) ∧ client_of w' c = Some (RedisClient_new man) ∧
    nodes w' = nodes w ∧ mgr w' = mgr w) w.
Proof.
  intros HI. unfold new_client. apply wlp_bind, wlp_get, wlp_bind, wlp_mod, wlp_ret. set (w' := w <| clients ::= _ |>).
  assert (Hcl : ∀ i, client_of w' i = if decide (i = length (clients w)) then Some (RedisClient_new man) else client_of w i)
    by (intros i; unfold client_of; apply live_app).
  assert (Hlt : ∀ i cli, client_of w i = Some cli → i ≠ length (clients w)) by (intros i cli Hi%live_lt; lia).
  assert (Hold : ∀ i cli, client_of w i = Some cli → client_of w' i = Some cli)
    by (intros i cli Hi; rewrite Hcl; rewrite decide_False; eauto).
  split; [|split; [split|split_and!]]; try done.
  - split; try apply HI; unfold node_of; cbn.
    + intros n nd c Hn Hc. destruct (i_idle _ HI n nd c Hn Hc) as (Hu & cl & H1 & H2). split; [done|]. exists cl. eauto.
    + intros n nd c Hn Hc. destruct (i_use _ HI n nd c Hn Hc) as (Hu & cl & H1 & H2). split; [done|]. exists cl. eauto.
    + intros c Hc. destruct (i_held _ HI c Hc) as [H1 H2]. rewrite length_app. split; [lia|]. intros cl. rewrite Hcl.
      rewrite decide_False by lia. apply H2.
    + intros c cl k. rewrite Hcl. case_decide; [by intros [= <-]|]. intros Hc Hk.
      destruct (i_context _ HI c cl k Hc Hk) as [H1 H2]. split; [done|]. intros c' cl'. rewrite Hcl. case_decide; [by intros [= <-]|].
      apply H2.
  - cbn. rewrite length_app. lia.
  - intros c (cl & Hc & Hm). exists cl. eauto.
  - rewrite Hcl. by rewrite decide_True.
Qed.

(** Index [c] is that of no connection that a pool or a caller has in [w]. *)
Definition unowned w (c : nat) : Prop :=
  (c ∉ held w) ∧ ∀ n nd, node_of w n = Some nd → (c ∉ idleList_ nd) ∧ (c ∉ useMap_ nd).
Lemma unowned_new w c : Inv w → (length (clients w) <= c)%nat → unowned w c.
Proof.
  intros HI Hc. split.
  - intros Hh. destruct (i_held _ HI c Hh). lia.
  - intros n nd Hn. split; intros Hin.
    + destruct (i_idle _ HI n nd c Hn Hin) as (_ & cl & Hcl%live_lt & _). lia.
    + destruct (i_use _ HI n nd c Hn Hin) as (_ & cl & Hcl%live_lt & _). lia.
Qed.
Lemma unowned_detached w c : Inv w → detached w c → unowned w c.
Proof. intros HI Hd. split; [by apply detached_held|]. intros n nd Hn. by eapply detached_idle. Qed.
Lemma Inv_delete c w : Inv w → unowned w c → wlp (delete c) (λ _ w', Inv w' ∧ gone (λ i, i = c) None w w') w.
Proof.
  intros HI [Hh Hn]. eapply wlp_mono; [apply wlp_delete|]. cbn beta. intros _ w' G. split; [|done].
  eapply Inv_gone; [done|exact G| |done|done]. intros n nd i _ Hnd Hin ->. destruct (Hn n nd Hnd). tauto.
Qed.

(** What a caller may do with a new connection of node [n]. *)
Definition usable w (n c : nat) : Prop :=
  ∃ cl, client_of w c = Some cl ∧ manager_ cl = Some n ∧ connStatus_ cl = true ∧ is_Some (context_ cl).
Lemma ok_applayNewRedisClient n w : Inv w →
  inv_ok (applayNewRedisClient n) (λ r w', (∀ m, node_of w' m = node_of w m) ∧ length (nodes w') = length (nodes w) ∧ mgr w' = mgr w ∧
    match r with Some c => (length (clients w) <= c)%nat ∧ usable w' n c | None => True end) w.
Proof.
  intros HI. unfold applayNewRedisClient. eapply ok_seq; [apply (ok_find _ (λ nd w', w' = w)); [done|by intros]|].
  intros nd w0 _ _ ->. eapply ok_seq; [by apply ok_new_client|]. cbn. intros c w1 I1 E1 (Hlen & Hc & Hnodes & Hmgr).
  assert (Hun : ∀ w2, Inv w2 → (∀ m, node_of w2 m = node_of w m) → held w2 = held w → unowned w2 c).
  { intros w2 I2 Hn2 Hh2. destruct (unowned_new w c HI) as [U1 U2]; [lia|]. split; [by rewrite Hh2|]. intros m ndm. rewrite Hn2. apply U2. }
  assert (Hsame : ∀ w2, nodes w2 = nodes w → ∀ m, node_of w2 m = node_of w m) by (intros w2 E m; unfold node_of; by rewrite E).
  destruct (Hun w1) as [U1 U2]; [done|by apply Hsame|apply E1|].
  eapply ok_seq; [eapply (ok_on_client c (init _ _ _ _ _) (λ _ _ _, True)); [done| |done|done|intros; by eapply U2]|].
  { eapply on_client_bind; [apply on_client_set; auto|]. intros u. by eapply on_client_mono; [apply on_client_ret|]. }
  cbn. intros _ w2 I2 E2 (cl2 & Hc2 & Hm2 & _ & Hn2 & Hg2 & _). destruct (Hun w2) as [U3 U4];
    [done|apply Hsame; congruence|by rewrite (e_held _ _ E2), (e_held _ _ E1)|].
  eapply ok_seq; [eapply (ok_on_client c (connect c)); [done|apply on_connect|done|done|intros; by eapply U4]|].
  cbn. intros b w3 I3 E3 (cl3 & Hc3 & Hm3 & [Hs Hx] & Hn3 & Hg3 & _).
  assert (Hn : nodes w3 = nodes w) by congruence. assert (Hman : manager_ cl3 = Some n) by (by rewrite Hm3, Hm2). destruct b.
  - apply ok_ret; [done|]. split_and!; [by apply Hsame|congruence|congruence|lia|]. exists cl3. split_and!; [done|done|done|auto].
  - eapply wlp_seq; [apply Inv_delete; [done|]|].
    { apply Hun; [done|by apply Hsame|by rewrite (e_held _ _ E3), (e_held _ _ E2), (e_held _ _ E1)]. }
    cbn beta. intros _ w4 [I4 G]. apply wlp_ret. split; [done|]. destruct G. split; [|split_and!; [| | |done]].
    + split; [lia| |done]. intros i (cli & Hi & Hm). exists cli. rewrite g_rest0; [done|]. intros ->. congruence.
    + intros m. rewrite g_nodes0 by done. by apply Hsame.
    + congruence.
    + congruence.
Qed.

(** ** Pools *)

(** Only node [n] changes, to [nd']. *)
Definition only_node w (n : nat) (nd' : RedisClusterNode) w' : Prop :=
  node_of w' n = Some nd' ∧ (∀ m, m ≠ n → node_of w' m = node_of w m) ∧ length (nodes w') = length (nodes w) ∧ mgr w' = mgr w.
Lemma only_node_trans w n nd1 nd2 w1 w2 : only_node w n nd1 w1 → only_node w1 n nd2 w2 → only_node w n nd2 w2.
Proof. intros (A1 & A2 & A3 & A4) (B1 & B2 & B3 & B4). split_and!; [done| |congruence|congruence]. intros m Hm. by rewrite B2, A2. Qed.
(** The node [n] changes under its lock, without callers. *)
Lemma ok_set_node n f nd w :
  Inv w → node_of w n = Some nd →
  (∀ c, c ∈ idleList_ (f nd) → (c ∉ useMap_ nd) ∧ usable w n c) → NoDup (idleList_ (f nd)) →
  pool_size (f nd) <= Z.max 0 (maxSize_ (f nd)) → useMap_ (f nd) = useMap_ nd →
  inv_ok (set_node n f) (λ _ w', only_node w n (f nd) w' ∧ clients w' = clients w) w.
Proof.
  intros HI Hn H1 H2 H3 H4. pose proof (live_lt _ _ _ Hn) as Hlt. unfold inv_ok, wlp. rewrite (set_node_nodes n f nd w Hn).
  split; [|split; [by split|split; [split; [|split_and!]|done]]]; try done.
  - apply (Inv_node n nd (f nd) (held w) w); try done; rewrite ?H4.
    + intros c Hc. by apply H1.
    + intros c Hc. destruct (i_use _ HI n nd c Hn Hc) as (Hh & cl & Hcl & Hm). split; [done|]. exists cl. split_and!; [done..|].
      by apply (proj2 (i_held _ HI c Hh)).
    + apply HI.
    + tauto.
    + intros c Hc. destruct (decide (c ∈ useMap_ nd)); auto.
  - unfold node_of. cbn. rewrite live_insert by lia. by rewrite decide_True.
  - intros m Hm. unfold node_of. cbn. rewrite live_insert by lia. by rewrite decide_False.
  - cbn. apply length_insert.
Qed.
(** The parts of a node that do not change while it fills its pool. *)
Definition like (nd nd' : RedisClusterNode) : Prop :=
  info_ nd' = info_ nd ∧ node_bStatus_ nd' = node_bStatus_ nd ∧ maxSize_ nd' = maxSize_ nd.
Lemma ok_init_loop rounds n nd w :
  Inv w → node_of w n = Some nd → useMap_ nd = ∅ → Z.of_nat (length (idleList_ nd) + rounds) <= maxSize_ nd →
  inv_ok (init_loop n rounds) (λ b w', ∃ nd', only_node w n nd' w' ∧ like nd nd' ∧ useMap_ nd' = ∅ ∧
    (b = true → length (idleList_ nd') = (length (idleList_ nd) + rounds)%nat)) w.
Proof.
  revert nd w. induction rounds as [|r IH]; intros nd w HI Hn Hu Hl; cbn [init_loop].
  - apply ok_ret; [done|]. exists nd. split_and!; try done; intros _; lia.
  - eapply ok_seq; [by apply ok_applayNewRedisClient|]. cbn. intros o w1 I1 E1 (Hs & Hnl & Hg & Ho).
    destruct o as [c|]; [|apply ok_ret; [done|exists nd; split; [split_and!; [by rewrite Hs|intros m _; apply Hs|done|done]|by split_and!]]].
    destruct Ho as [Hc Hus]. assert (Hn1 : node_of w1 n = Some nd) by (by rewrite Hs).
    destruct (unowned_new w c HI Hc) as [_ Hun]. destruct (Hun n nd Hn) as [Hci _].
    eapply ok_seq; [apply (ok_set_node n _ nd); try done; cbn|].
    + intros i [Hi| ->%list_elem_of_singleton]%elem_of_app; [|by rewrite Hu]. destruct (i_idle _ I1 n nd i Hn1 Hi). done.
    + apply NoDup_app. split; [by eapply (i_nodup _ I1)|]. split; [by intros i Hi ->%list_elem_of_singleton|apply NoDup_singleton].
    + unfold pool_size. cbn. rewrite Hu, size_empty, length_app. cbn. lia.
    + cbn. intros _ w2 I2 E2 (Ho2 & _). eapply ok_mono; [apply (IH (nd <| idleList_ ::= λ l, l ++ [c] |>)); cbn; [done|apply Ho2|done|rewrite length_app; cbn; lia]|].
      cbn. intros b w3 _ _ (nd' & Ho3 & Hlike & Hu' & Hlen). exists nd'. split_and!; [|done|done|].
      * eapply only_node_trans; [|exact Ho3]. destruct Ho2 as (A1 & A2 & A3 & A4). split_and!; [done| |congruence|congruence].
        intros m Hm. by rewrite A2.
      * intros Hb. rewrite Hlen, length_app by done. cbn. lia.
Qed.
Lemma ok_node_init n nd info mn mx t pw w :
  Inv w → node_of w n = Some nd → useMap_ nd = ∅ → idleList_ nd = [] →
  inv_ok (node_init n info mn mx t pw) (λ b w', ∃ nd', only_node w n nd' w' ∧ useMap_ nd' = ∅ ∧
    info_ nd' = info ∧ node_bStatus_ nd' = node_bStatus_ nd ∧ maxSize_ nd' = Z.min mx kMaxSize ∧
    (b = true → Z.of_nat (length (idleList_ nd')) = Z.max mn kMinSize)) w.
Proof.
  intros HI Hn Hu Hi. unfold node_init, kMinSize, kMaxSize.
  set (mn' := if mn <? 1 then 1 else mn). set (mx' := if 64 <? mx then 64 else mx).
  assert (mn' = Z.max mn 1 ∧ mx' = Z.min mx 64) as [Hmn Hmx].
  { unfold mn', mx'. destruct (Z.ltb_spec mn 1), (Z.ltb_spec 64 mx); lia. }
  eapply ok_seq; [apply (ok_set_node n _ nd); try done; cbn; rewrite ?Hi; try done|].
  - by intros c ?%elem_of_nil.
  - constructor.
  - unfold pool_size. cbn. rewrite Hu, Hi, size_empty. cbn. lia.
  - cbn beta. intros _ w1 I1 E1 [Ho1 _]. set (nd1 := nd <| info_ := _ |> <| _ := _ |> <| _ := _ |> <| _ := _ |> <| _ := _ |>) in *.
    destruct (Z.ltb_spec mx' mn').
    + apply ok_ret; [done|]. by exists nd1.
    + eapply ok_mono; [apply (ok_init_loop _ n nd1); [done|apply Ho1|done|cbn; rewrite Hi; cbn; lia]|].
      cbn beta. intros b w2 _ _ (nd' & Ho2 & (L1 & L2 & L3) & Hu' & Hl). exists nd'. split_and!; try done.
      * by eapply only_node_trans.
      * rewrite L3. cbn. lia.
      * intros Hb. rewrite Hl by done. cbn. rewrite Hi. cbn. lia.
Qed.

(** ** Slots *)

(** Nodes other than [n] are as they were or deleted. *)
Definition others w (n : nat) w' : Prop :=
  length (nodes w') = length (nodes w) ∧ ∀ m, m ≠ n → node_of w' m = node_of w m ∨ node_of w' m = None.
Lemma others_trans w1 n w2 w3 : others w1 n w2 → others w2 n w3 → others w1 n w3.
Proof. intros [L1 H1] [L2 H2]. split; [congruence|]. intros m Hm. destruct (H2 m Hm) as [->|]; auto. Qed.
Lemma ok_node_delete n w :
  Inv w → (∀ pos, slotMap_ (mgr w) !! pos ≠ Some n) →
  inv_ok (node_delete n) (λ _ w', mgr w' = mgr w ∧ length (nodes w') = length (nodes w) ∧
    (∀ m, m ≠ n → node_of w' m = node_of w m) ∧ node_of w' n = None) w.
Proof.
  intros HI Hslot. eapply wlp_mono; [apply wlp_node_delete|]. cbn beta. intros _ w' (nd & Hn & G).
  split; [|split; [|destruct G; split_and!; auto; intros m Hm; apply g_nodes0; congruence]].
  - eapply Inv_gone; [done|exact G| | |by intros m pos [= <-]].
    + intros m ndm c Hm Hndm Hin Hc.
      assert (Hman : ∀ cl, client_of w c = Some cl → manager_ cl = Some n) by (intros cl Hcl; destruct Hc; [by eapply idle_manager|by eapply use_manager]).
      destruct Hin as [Hin|Hin].
      * destruct (i_idle _ HI m ndm c Hndm Hin) as (_ & cl & Hcl & Hm2 & _). specialize (Hman cl Hcl). congruence.
      * destruct (i_use _ HI m ndm c Hndm Hin) as (_ & cl & Hcl & Hm2). specialize (Hman cl Hcl). congruence.
    + intros m ndm c [= <-] Hndm. assert (ndm = nd) as -> by congruence. by right.
  - destruct G. split; [lia| |done]. intros c (cl & Hcl & Hm). exists cl. rewrite g_rest0; [done|]. intros [Hc|Hc].
    + pose proof (idle_manager _ _ _ _ _ HI Hn Hc Hcl). congruence.
    + pose proof (use_manager _ _ _ _ _ HI Hn Hc Hcl). congruence.
Qed.
Lemma unused_spec n (m : gmap Z nat) : unused n m = true ↔ ∀ pos, m !! pos ≠ Some n.
Proof.
  unfold unused. rewrite bool_decide_eq_true. split.
  - intros H pos E. by eapply H.
  - intros H pos o E ->. by apply (H pos).
Qed.
Lemma ok_drop_ref n w :
  Inv w → inv_ok (drop_ref n) (λ _ w', mgr w' = mgr w ∧ length (nodes w') = length (nodes w) ∧
    (∀ m, m ≠ n → node_of w' m = node_of w m) ∧
    (node_of w' n = node_of w n ∨ node_of w' n = None)) w.
Proof.
  intros HI. unfold drop_ref. eapply ok_seq; [apply (ok_get _ (λ m w', m = slotMap_ (mgr w) ∧ w' = w)); done|].
  intros m w0 _ _ [-> ->]. destruct (unused n _) eqn:E; [|by apply ok_ret; auto].
  eapply ok_mono; [apply ok_node_delete; [done|by apply unused_spec]|]. cbn. intros _ w' _ _ (? & ? & ? & ?). auto.
Qed.

(** [slotMap_] with [pos] and others set to [n]. *)
Lemma ok_set_slot n pos w :
  Inv w → is_Some (node_of w n) → inv_ok (set_slot n pos) (λ _ w', node_of w' n = node_of w n ∧ others w n w' ∧
    mgr w' = (mgr w) <| slotMap_ ::= <[pos := n]> |>) w.
Proof.
  intros HI Hn. unfold set_slot. eapply ok_seq; [apply (ok_get _ (λ m w', m = slotMap_ (mgr w) ∧ w' = w)); done|].
  intros m w0 _ _ [-> ->]. apply (ok_seq _ _ (λ _ w1, w1 = w <| mgr ::= λ g, g <| slotMap_ ::= <[pos := n]> |> |>)).
  { apply wlp_mod. split; [|by split; [split|]].
    destruct HI. split; try done. cbn. intros p k. rewrite lookup_insert_Some. intros [[_ <-]|[_ ?]]; [done|]. by eapply i_slot0. }
  cbn beta. intros _ w1 I1 _ ->. set (w1 := w <| mgr ::= _ |>) in *.
  assert (Hend : others w n w1) by (split; [done|auto]).
  destruct (slotMap_ (mgr w) !! pos) as [o|]; [|by apply ok_ret]. destruct (decide (o = n)) as [|Ho]; [by apply ok_ret|].
  eapply ok_mono; [by apply ok_drop_ref|]. cbn beta. intros _ w2 _ _ (E1 & E2 & E3 & E4). split; [by rewrite E3 by done|]. split; [split|done].
  - by rewrite E2.
  - intros k Hk. destruct (decide (k = o)) as [->|]; [destruct E4; auto|]. rewrite E3; auto.
Qed.

(** The slots from [pos] to [slotEnd] as the loop visits them. *)
Definition in_range (pos slotEnd k : Z) : Prop := pos <= k <= slotEnd.
Lemma ok_fill_slots fuel n pos slotEnd w :
  Inv w → is_Some (node_of w n) → 0 <= pos < 2 ^ 16 → slotEnd < 2 ^ 16 →
  inv_ok (fill_slots fuel n pos slotEnd) (λ _ w', node_of w' n = node_of w n ∧ others w n w' ∧
    (∃ m, mgr w' = (mgr w) <| slotMap_ := m |>) ∧ slotEnd ≠ 65535 ∧
    ∀ k, slotMap_ (mgr w') !! k = if decide (in_range pos slotEnd k) then Some n else slotMap_ (mgr w) !! k) w.
Proof.
  revert pos w. induction fuel as [|fuel IH]; intros pos w HI Hn Hp He; cbn [fill_slots]; [done|].
  destruct (Z.leb_spec pos slotEnd) as [Hle|Hlt].
  - eapply ok_seq; [by apply ok_set_slot|]. cbn beta. intros _ w1 I1 E1 (N1 & O1 & G1).
    destruct (decide (pos = 65535)) as [->|Hne].
    { assert (slotEnd = 65535) as -> by lia. change (u16 (65535 + 1)) with 0.
      eapply ok_mono; [apply IH; [done|by rewrite N1|lia|lia]|]. cbn beta. by intros _ w2 _ _ (_ & _ & _ & ? & _). }
    replace (u16 (pos + 1)) with (pos + 1) by (symmetry; apply wrap_u_id; unfold in_u; lia).
    eapply ok_mono; [apply IH; [done|by rewrite N1|lia|lia]|]. cbn beta. intros _ w2 _ _ (N2 & O2 & (m2 & G2) & Hend & S2).
    split; [congruence|]. split; [by eapply others_trans|]. split; [exists m2; rewrite G2, G1; done|]. split; [done|].
    intros k. rewrite S2, G1. cbn. unfold in_range.
    destruct (decide (pos = k)) as [<-|Hk]; [rewrite lookup_insert_eq|rewrite lookup_insert_ne by done]; repeat case_decide; (lia || done).
  - apply ok_ret; [done|]. split; [done|]. split; [split; auto|]. split; [by exists (slotMap_ (mgr w)); destruct (mgr w)|].
    split; [lia|]. intros k. unfold in_range. case_decide; [lia|done].
Qed.

(** Slot [k] is in one of the ranges. *)
Definition covered (ranges : list SlotsInfo) (k : Z) : bool :=
  existsb (λ r, bool_decide (slotStart r <= k <= slotEnd r)) ranges.
Definition u16_slots (ranges : list SlotsInfo) : Prop :=
  Forall (λ r, 0 <= slotStart r < 2 ^ 16 ∧ 0 <= slotEnd r < 2 ^ 16) ranges.
Lemma ok_fill_all n ranges w :
  Inv w → is_Some (node_of w n) → u16_slots ranges →
  inv_ok (op_each (λ r, fill_slots RedisTopo.SLOT_ROUNDS n (slotStart r) (slotEnd r)) ranges) (λ _ w',
    node_of w' n = node_of w n ∧ others w n w' ∧ (∃ m, mgr w' = (mgr w) <| slotMap_ := m |>) ∧
    ∀ k, slotMap_ (mgr w') !! k = if covered ranges k then Some n else slotMap_ (mgr w) !! k) w.
Proof.
  revert w. induction ranges as [|r ranges IH]; intros w HI Hn Hu; cbn [op_each].
  - apply ok_ret; [done|]. split; [done|]. split; [split; auto|]. split; [|done]. exists (slotMap_ (mgr w)). by destruct (mgr w).
  - apply Forall_cons in Hu as [[Hr1 Hr2] Hu]. eapply ok_seq; [apply ok_fill_slots; [done|done|lia|lia]|].
    cbn beta. intros _ w1 I1 E1 (N1 & O1 & (m1 & G1) & _ & S1). eapply ok_mono; [apply IH; [done|by rewrite N1|done]|].
    cbn beta. intros _ w2 _ _ (N2 & O2 & (m2 & G2) & S2). split; [congruence|]. split; [by eapply others_trans|].
    split; [exists m2; rewrite G2, G1; done|]. intros k. rewrite S2, S1. unfold covered, in_range. cbn [existsb].
    destruct (decide (slotStart r <= k <= slotEnd r)) as [H|H].
    + rewrite bool_decide_eq_true_2 by done. cbn. by destruct (existsb _ ranges).
    + rewrite bool_decide_eq_false_2 by done. done.
Qed.

Definition known (st : gmap bytes bool) (node : NodeInfo) : bool := bool_decide (st !! n_id node = Some true).
Definition note (node : NodeInfo) (st : gmap bytes bool) : gmap bytes bool :=
  match st !! n_id node with Some _ => st | None => <[n_id node := true]> st end.
(** A pool for [node], as [connectClusterNode] makes it: filled, nothing in use. *)
Definition fresh_pool (g : RedisClusterMgr) (node : NodeInfo) (nd : RedisClusterNode) : Prop :=
  info_ nd = node ∧ node_bStatus_ nd = true ∧ useMap_ nd = ∅ ∧
  Z.of_nat (length (idleList_ nd)) = Z.max (mgr_minSize_ g) kMinSize ∧ maxSize_ nd = Z.min (mgr_maxSize_ g) kMaxSize.

(** What is left of nodes after others came; the last reply is still there. *)
Definition older w w' : Prop := (length (nodes w) <= length (nodes w'))%nat ∧ nodes_ (mgr w') = nodes_ (mgr w) ∧
  ∀ m, (m < length (nodes w))%nat → node_of w' m = node_of w m ∨ node_of w' m = None.
#[export] Instance older_pre : PreOrder older.
Proof.
  split; [split; auto|]. intros w1 w2 w3 (L1 & K1 & H1) (L2 & K2 & H2). split_and!; [lia|congruence|]. intros m Hm.
  destruct (H2 m ltac:(lia)) as [->|]; auto.
Qed.
(** Only the tables of the manager differ. *)
Definition same_settings (g g' : RedisClusterMgr) : Prop :=
  ∃ m st ns, g' = g <| slotMap_ := m |> <| nodesStatus_ := st |> <| nodes_ := ns |>.
#[export] Instance same_settings_pre : PreOrder same_settings.
Proof.
  split; [intros g; exists (slotMap_ g), (nodesStatus_ g), (nodes_ g); by destruct g|].
  intros g1 g2 g3 (m1 & st1 & ns1 & ->) (m2 & st2 & ns2 & ->). by exists m2, st2, ns2.
Qed.

Lemma ok_new_node w :
  Inv w → inv_ok new_node (λ n w', n = length (nodes w) ∧ node_of w' n = Some RedisClusterNode_new ∧ mgr w' = mgr w ∧
    length (nodes w') = S n ∧ ∀ m, m ≠ n → node_of w' m = node_of w m) w.
Proof.
  intros HI. unfold new_node. apply wlp_bind, wlp_get, wlp_bind, wlp_mod, wlp_ret. set (w' := w <| nodes ::= _ |>).
  assert (Hn : ∀ m, node_of w' m = if decide (m = length (nodes w)) then Some RedisClusterNode_new else node_of w m)
    by (intros m; unfold node_of; apply live_app).
  assert (Hlt : ∀ m nd, node_of w m = Some nd → node_of w' m = Some nd).
  { intros m nd Hm. rewrite Hn. apply live_lt in Hm as Hl. rewrite decide_False by lia. done. }
  split; [|split; [by split|split_and!; try done]].
  - destruct HI. split; try done.
    + intros m nd c. rewrite Hn. case_decide; [intros [= <-] ?%elem_of_nil; done|by apply i_idle0].
    + intros m nd. rewrite Hn. case_decide; [intros [= <-]; constructor|by apply i_nodup0].
    + intros m nd. rewrite Hn. case_decide; [intros [= <-]; done|by apply i_size0].
    + intros m nd c. rewrite Hn. case_decide; [intros [= <-] H2; by apply elem_of_empty in H2|by apply i_use0].
    + intros c Hc. destruct (i_held0 c Hc) as [H1 H2]. split; [done|]. intros cl Hcl. destruct (H2 cl Hcl) as (Hs & n & nd & ? & Hnd & ?).
      split; [done|]. exists n, nd. eauto.
    + intros pos n Hpos. destruct (i_slot0 pos n Hpos) as [nd Hnd]. eauto.
  - rewrite Hn. by rewrite decide_True.
  - cbn. rewrite length_app. cbn. lia.
  - intros m Hm. rewrite Hn. by rewrite decide_False.
Qed.

(** What [connectClusterNode node] does to the tables when it gives [b]. *)
Definition connects (node : NodeInfo) (w : World) (b : bool) (w' : World) : Prop :=
  if known (nodesStatus_ (mgr w)) node then b = true ∧ mgr w' = mgr w
  else if b then nodesStatus_ (mgr w') = note node (nodesStatus_ (mgr w)) ∧
    ∃ n, (length (nodes w) <= n < length (nodes w'))%nat ∧ (∀ nd, node_of w' n = Some nd → fresh_pool (mgr w) node nd) ∧
      ∀ k, slotMap_ (mgr w') !! k = if covered (n_slots node) k then Some n else slotMap_ (mgr w) !! k
  else mgr w' = mgr w.
Lemma ok_connectClusterNode node w :
  Inv w → u16_slots (n_slots node) →
  inv_ok (connectClusterNode node) (λ b w', older w w' ∧ same_settings (mgr w) (mgr w') ∧ connects node w b w') w.
Proof.
  intros HI Hu. unfold connectClusterNode. eapply ok_seq; [apply (ok_get _ (λ st w', st = nodesStatus_ (mgr w) ∧ w' = w)); done|].
  intros st w0 _ _ [-> ->]. unfold connects. fold (known (nodesStatus_ (mgr w)) node).
  destruct (known (nodesStatus_ (mgr w)) node) eqn:Ek; [by apply ok_ret|].
  eapply ok_seq; [by apply ok_new_node|]. cbn beta. intros n w1 I1 _ (-> & N1 & G1 & L1 & R1).
  eapply ok_seq; [apply (ok_get _ (λ g w', g = mgr w ∧ w' = w1)); [done|by rewrite <- G1]|]. intros g w0 _ _ [-> ->].
  eapply ok_seq; [by eapply ok_node_init|]. cbn beta. intros b w2 I2 _ (nd & (N2 & R2 & L2 & G2) & Huse & Hinfo & Hst & Hmax & Hlen).
  assert (R : ∀ m, (m < length (nodes w))%nat → node_of w2 m = node_of w m) by (intros m Hm; rewrite R2, R1 by lia; done).
  assert (Hfree : ∀ pos, slotMap_ (mgr w2) !! pos ≠ Some (length (nodes w))).
  { intros pos. rewrite G2, G1. intros E. destruct (i_slot _ HI _ _ E) as [nd0 Hnd0%live_lt]. lia. }
  destruct b; cbn [negb].
  - eapply ok_seq; [apply ok_fill_all; [done|by eauto|done]|]. cbn beta. intros _ w3 I3 _ (N3 & [L3 O3] & (m3 & G3) & S3).
    assert (Hold : older w w3) by (split_and!; [lia|by rewrite G3, G2, G1|]; intros m Hm; destruct (O3 m ltac:(lia)) as [->|]; auto).
    eapply ok_seq.
    { apply (ok_set_mgr _ (λ _ w4, mgr w4 = (mgr w) <| slotMap_ := m3 |> <| nodesStatus_ ::= note node |> ∧ nodes w4 = nodes w3)); [done|done|].
      by cbn; rewrite G3, G2, G1. }
    cbn beta. intros _ w4 I4 _ [G4 N4]. eapply ok_seq; [by apply ok_drop_ref|]. cbn beta. intros _ w5 I5 _ (G5 & L5 & R5 & N5).
    unfold node_of in *. rewrite N4 in *. apply ok_ret; [done|]. split; [|split].
    + etrans; [exact Hold|]. split_and!; [lia|by rewrite G5, G4, G3, G2, G1|]. unfold node_of. intros m Hm. destruct (decide (m = length (nodes w))) as [->|Hne]; [exact N5|].
      left. by rewrite R5.
    + rewrite G5, G4. exists m3, (note node (nodesStatus_ (mgr w))), (nodes_ (mgr w)). by destruct (mgr w).
    + rewrite G5, G4. split; [done|]. exists (length (nodes w)). split; [lia|]. split.
      * intros nd' Hnd'. assert (nd' = nd) as -> by (destruct N5 as [E|E]; rewrite E in Hnd'; [congruence|done]).
        split_and!; try done. by apply Hlen.
      * intros k. specialize (S3 k). rewrite G3, G2, G1 in S3. exact S3.
  - eapply ok_seq; [by apply ok_node_delete|]. cbn beta. intros _ w3 I3 _ (G3 & L3 & R3 & N3). apply ok_ret; [done|].
    split; [|split; [|congruence]].
    + split_and!; [lia|by rewrite G3, G2, G1|]. intros m Hm. left. rewrite R3 by lia. by apply R.
    + by rewrite G3, G2, G1.
Qed.

(** The nodes that get a pool: those not known before and not seen before. *)
Fixpoint placed (st : gmap bytes bool) (infos : list NodeInfo) : list NodeInfo :=
  match infos with
  | [] => []
  | i :: infos' => if known st i then placed st infos' else i :: placed (note i st) infos'
  end.
(** The node of slot [k]: the last one that lists it. *)
Definition owner (infos : list NodeInfo) (k : Z) : option NodeInfo :=
  last (filter (λ i, covered (n_slots i) k = true) infos).
(** The slots lead to fresh pools of their owners, and where they led before otherwise. *)
Definition slots_of (g : RedisClusterMgr) (infos : list NodeInfo) (w w' : World) : Prop := ∀ k,
  match owner infos k with
  | Some i => ∃ n nd, slotMap_ (mgr w') !! k = Some n ∧ (length (nodes w) <= n)%nat ∧ node_of w' n = Some nd ∧ fresh_pool g i nd
  | None => slotMap_ (mgr w') !! k = slotMap_ (mgr w) !! k
  end.
Lemma owner_cons i infos k : owner (i :: infos) k =
  match owner infos k with Some j => Some j | None => if covered (n_slots i) k then Some i else None end.
Proof.
  unfold owner. destruct (covered (n_slots i) k) eqn:E.
  - rewrite filter_cons_True by done. rewrite last_cons. by destruct (last _).
  - rewrite filter_cons_False by (by rewrite E). by destruct (last _).
Qed.
Lemma fresh_pool_settings g g' i nd : same_settings g g' → fresh_pool g i nd → fresh_pool g' i nd.
Proof. by intros (m & st & ns & ->). Qed.
Lemma same_settings_sym g g' : same_settings g g' → same_settings g' g.
Proof. intros (m & st & ns & ->). exists (slotMap_ g), (nodesStatus_ g), (nodes_ g). by destruct g. Qed.

Lemma ok_connect_all infos w :
  Inv w → Forall (λ i, u16_slots (n_slots i)) infos →
  inv_ok (connect_all infos) (λ b w', older w w' ∧ same_settings (mgr w) (mgr w') ∧
    (b = true → slots_of (mgr w) (placed (nodesStatus_ (mgr w)) infos) w w')) w.
Proof.
  revert w. induction infos as [|i infos IH]; intros w HI Hu; cbn [connect_all].
  - by apply ok_ret.
  - apply Forall_cons in Hu as [Hi Hu]. eapply ok_seq; [by apply ok_connectClusterNode|].
    cbn beta. intros b w1 I1 E1 (O1 & S1 & C1). destruct b; [|by apply ok_ret].
    eapply ok_mono; [by apply IH|]. cbn beta. intros b w2 I2 _ (O2 & S2 & H2). split; [by etrans|]. split; [by etrans|].
    intros Hb. specialize (H2 Hb). unfold connects in C1. cbn [placed].
    destruct (known (nodesStatus_ (mgr w)) i).
    + destruct C1 as [_ G1]. rewrite G1 in H2. intros k. specialize (H2 k). destruct (owner _ k) as [j|]; [|by rewrite H2, G1].
      destruct H2 as (n & nd & ? & ? & ? & ?), O1. exists n, nd. split_and!; [done|lia|done|done].
    + destruct C1 as (St & n & Hn & Hfresh & Hs). rewrite St in H2. intros k. specialize (H2 k). rewrite owner_cons.
      destruct (owner _ k) as [j|].
      * destruct H2 as (n' & nd & ? & ? & ? & Hf). exists n', nd. split_and!; [done|lia|done|].
        by eapply fresh_pool_settings; [apply same_settings_sym|].
      * rewrite H2, Hs. destruct (covered (n_slots i) k) eqn:Ec; [|done].
        destruct (i_slot _ I2 k n) as [nd Hnd]; [by rewrite H2, Hs, Ec|]. exists n, nd. split_and!; [done|lia|done|].
        apply Hfresh. destruct O2 as (_ & _ & O2). destruct (O2 n ltac:(lia)) as [E|E]; rewrite E in Hnd; done.
Qed.

(** *** The reply *)

Fixpoint masters (vLines : list bytes) : option (list NodeInfo) :=
  match vLines with
  | [] => Some []
  | line :: vLines' =>
      match parse_line line with
      | Malformed => None
      | Skip => masters vLines'
      | Master node => cons node <$> masters vLines'
      end
  end.
Lemma atoi_u16 s : 0 <= u16 (atoi s) < 2 ^ 16.
Proof. apply (wrap_u_range 16). lia. Qed.
Lemma parse_line_u16 line node : parse_line line = Master node → u16_slots (n_slots node).
Proof.
  unfold parse_line. destruct (_ <? 8)%nat; [done|]. destruct (_ || _ || _); [done|]. destruct (_ <? 9)%nat; [done|].
  intros [= <-]. set (node0 := (ParseNodeString _ _).2).
  assert (Hn : u16_slots (n_slots node0)) by (unfold node0, ParseNodeString; destruct (RedisTopo.find_char _ _); constructor).
  generalize (drop 8 (split line (lit " "))). clearbody node0. intros l. revert node0 Hn.
  induction l as [|s l IH]; intros node0 Hn; cbn [foldl]; [done|]. apply IH. unfold ParseSlotString. cbn.
  apply Forall_app. split; [done|]. constructor; [|constructor]. destruct (RedisTopo.find_char _ _); cbn; split; apply atoi_u16.
Qed.
Lemma masters_u16 vLines infos : masters vLines = Some infos → Forall (λ i, u16_slots (n_slots i)) infos.
Proof.
  revert infos. induction vLines as [|line vLines IH]; cbn [masters]; intros infos; [by intros [= <-]|].
  destruct (parse_line line) as [| |node] eqn:E; [done|apply IH|].
  destruct (masters vLines) as [l|]; [|done]. intros [= <-]. constructor; [by eapply parse_line_u16|by apply IH].
Qed.
Lemma no_more_nodes g : g = g <| nodes_ ::= λ k, k ++ [] |>.
Proof. destruct g. unfold set_with. cbn. by rewrite app_nil_r. Qed.
Lemma more_nodes (g : RedisClusterMgr) node l : g <| nodes_ ::= λ k, k ++ [node] |> <| nodes_ ::= λ k, k ++ l |> = g <| nodes_ ::= λ k, k ++ node :: l |>.
Proof. destruct g. unfold set_with. cbn. by rewrite <- app_assoc. Qed.
Lemma ok_lines_loop vLines w :
  Inv w → inv_ok (lines_loop vLines) (λ b w', nodes w' = nodes w ∧ clients w' = clients w ∧ net w' = net w ∧
    ∃ l, mgr w' = (mgr w) <| nodes_ ::= λ k, k ++ l |> ∧ (b = true → masters vLines = Some l)) w.
Proof.
  revert w. induction vLines as [|line vLines IH]; intros w HI; cbn [lines_loop masters].
  - apply ok_ret; [done|]. split_and!; try done. exists []. split; [apply no_more_nodes|done].
  - destruct (parse_line line) as [| |node].
    + apply ok_ret; [done|]. split_and!; try done. exists []. split; [apply no_more_nodes|done].
    + by apply IH.
    + eapply ok_seq; [apply (ok_set_mgr _ (λ _ w', w' = w <| mgr ::= λ g, g <| nodes_ ::= λ l, l ++ [node] |> |>)); done|].
      cbn beta. intros _ w1 I1 _ ->. eapply ok_mono; [by apply IH|]. cbn beta. intros b w2 _ _ (N2 & C2 & T2 & l & G2 & H2).
      split_and!; try done. exists (node :: l). split; [rewrite G2; apply more_nodes|]. intros Hb. by rewrite H2.
Qed.
End inv.
End ClusterInv.
