(* ===== verification/ClusterReach.v ===== *)
(** * What the manager of the synchronous cluster client keeps

    A server is asked for the nodes, the slots are given to new pools of their owners
    ([use_server], [init], [init2]); connections go to callers and come back
    ([findNodeConnection], [recycle]); so the invariant of [ClusterInv] holds in every
    reachable state. *)

From S2P Require Import Prelude CLib Incommon HashSlot RedisTopo ClusterData ClusterClient ClusterCommands ClusterPool ClusterMgr ClusterProofs ClusterInv.
Import ClusterData ClusterClient ClusterPool ClusterMgr ClusterProofs ClusterInv.

Module ClusterReach.
Section reach.
Context {HR : Hiredis}.
Implicit Types w : World.

(** ** Asking a server *)

(** What a server says, to [cmd] and, after the two questions before, to CLUSTER NODES. *)
Definition say (ctx : nat) (cmd : bytes) (n : Net) : option Reply * Net := ClusterData.redisvCommand ctx (Format cmd []) n.
Definition text_of (reply : option Reply) : option bytes := reply ≫= λ r, c_str <$> r_str r.
Definition nodes_text (ctx : nat) (n : Net) : option bytes :=
  text_of (say ctx (lit "CLUSTER NODES") (say ctx (lit "CLUSTER INFO") (say ctx (lit "INFO") n).2).2).1.

(** Only the world outside differs. *)
Lemma ok_call {A} (f : Net → A * Net) w :
  Inv w → inv_ok (call f) (λ a w', a = (f (net w)).1 ∧ w' = w <| net := (f (net w)).2 |>) w.
Proof.
  intros HI. unfold call. apply wlp_bind, wlp_get, wlp_bind, wlp_mod, wlp_ret. split; [|by split; [split|]]. by destruct HI.
Qed.
Lemma ok_ask ctx cmd w :
  Inv w → inv_ok (ask ctx cmd) (λ o w', o = text_of (say ctx cmd (net w)).1 ∧ w' = w <| net := (say ctx cmd (net w)).2 |>) w.
Proof.
  intros HI. unfold ask. eapply ok_seq; [by apply ok_call|]. cbn beta. intros a w' I' _ [-> ->]. by apply ok_ret.
Qed.
Lemma ok_clusterEnabled ctx w :
  Inv w → inv_ok (clusterEnabled ctx) (λ _ w', w' = w <| net := (say ctx (lit "INFO") (net w)).2 |>) w.
Proof.
  intros HI. unfold clusterEnabled. eapply ok_seq; [by apply ok_ask|]. cbn beta. intros o w' I' _ [_ ->]. by apply ok_ret.
Qed.
Lemma ok_clusterInfo ctx w :
  Inv w → inv_ok (clusterInfo ctx) (λ _ w', w' = w <| net := (say ctx (lit "CLUSTER INFO") (net w)).2 |>) w.
Proof.
  intros HI. unfold clusterInfo. eapply ok_seq; [by apply ok_ask|]. cbn beta. intros [s|] w' I' _ [_ ->]; [|by apply ok_ret].
  eapply ok_seq; [by apply (ok_some _ (λ _ w1, w1 = w <| net := (say ctx (lit "CLUSTER INFO") (net w)).2 |>))|].
  cbn beta. intros p w' _ _ ->. by apply ok_ret.
Qed.

(** After [getClusterNodesInfo] the masters of the reply are in [nodes_]. *)
Lemma ok_getClusterNodesInfo ctx w :
  Inv w → inv_ok (getClusterNodesInfo ctx) (λ b w', nodes w' = nodes w ∧ same_settings (mgr w) (mgr w') ∧
    slotMap_ (mgr w') = slotMap_ (mgr w) ∧ nodesStatus_ (mgr w') = nodesStatus_ (mgr w) ∧
    (b = true → ∃ s, text_of (say ctx (lit "CLUSTER NODES") (net w)).1 = Some s ∧
      masters (split s RedisTopo.newline) = Some (nodes_ (mgr w')))) w.
Proof.
  intros HI. unfold getClusterNodesInfo. eapply ok_seq; [by apply ok_ask|]. cbn beta. intros o w1 I1 _ [Ho ->].
  destruct o as [s|]; [|by apply ok_ret].
  eapply ok_seq; [apply (ok_set_mgr _ (λ _ w2, nodes w2 = nodes w ∧ mgr w2 = (mgr w) <| nodes_ := [] |>)); done|].
  cbn beta. intros _ w2 I2 _ [N2 G2]. eapply ok_mono; [by apply ok_lines_loop|]. cbn beta.
  intros b w3 _ _ (N3 & _ & _ & l & G3 & Hl). rewrite G3, G2, N3, N2. cbn. split_and!; try done.
  - exists (slotMap_ (mgr w)), (nodesStatus_ (mgr w)), l. by destruct (mgr w).
  - intros Hb. exists s. split; [done|by apply Hl].
Qed.

(** The tables come from what a server said about the cluster. *)
Definition told (w : World) (w' : World) : Prop := ∃ ctx n s,
  nodes_text ctx n = Some s ∧ masters (split s RedisTopo.newline) = Some (nodes_ (mgr w')) ∧
  slots_of (mgr w') (placed (nodesStatus_ (mgr w)) (nodes_ (mgr w'))) w w'.
Lemma slots_of_settings g g' infos w w' : same_settings g g' → slots_of g infos w w' → slots_of g' infos w w'.
Proof.
  intros Hg H k. specialize (H k). destruct (owner infos k) as [i|]; [|done]. destruct H as (n & nd & ? & ? & ? & Hf).
  exists n, nd. split_and!; try done. by eapply fresh_pool_settings.
Qed.
Lemma slots_of_from g infos w1 w2 w' : nodes w1 = nodes w2 → slotMap_ (mgr w1) = slotMap_ (mgr w2) →
  slots_of g infos w1 w' → slots_of g infos w2 w'.
Proof. intros En Es H k. specialize (H k). by rewrite Es, En in H. Qed.

Lemma ok_use_server c w :
  Inv w → detached w c → inv_ok (use_server c) (λ r w', same_settings (mgr w) (mgr w') ∧ (r = 0 → told w w')) w.
Proof.
  intros HI (cl & Hc & _). unfold use_server.
  eapply ok_seq; [apply (ok_find _ (λ a w', a = cl ∧ w' = w)); [done|]|].
  { intros a Ha. unfold client_of in Hc. split; [congruence|done]. }
  intros a w0 _ _ [-> ->]. destruct (context_ cl) as [ctx|]; [|by apply ok_ret].
  eapply ok_seq; [by apply ok_clusterEnabled|]. cbn beta. intros e w1 I1 _ ->.
  destruct e; cbn [negb]; [|by apply ok_ret].
  eapply ok_seq; [by apply ok_clusterInfo|]. cbn beta. intros i w2 I2 _ ->.
  destruct i; cbn [negb]; [|by apply ok_ret].
  eapply ok_seq; [by apply ok_getClusterNodesInfo|]. cbn beta. intros b w3 I3 _ (N3 & S3 & M3 & T3 & H3).
  destruct b; cbn [negb]; [|by apply ok_ret]. destruct (H3 eq_refl) as (s & Hs & Hm).
  eapply ok_seq; [apply (ok_get _ (λ l w', l = nodes_ (mgr w3) ∧ w' = w3)); done|]. intros l w0 _ _ [-> ->].
  eapply ok_seq; [apply ok_connect_all; [done|by eapply masters_u16]|].
  cbn beta. intros r w4 I4 _ ((_ & K4 & _) & S4 & H4). apply ok_ret; [done|]. split; [by etrans|].
  destruct r; [|done]. intros _. exists ctx, (net w), s. rewrite K4. split_and!; [done|done|].
  eapply slots_of_from; [exact N3|exact M3|]. rewrite T3 in H4. by eapply slots_of_settings, H4.
Qed.

(** ** A connection for the question *)

(** A connection [c] made since [w0] goes again. *)
Lemma wlp_drop_temp c w0 w :
  Inv w → detached w c → ext w0 w → (length (clients w0) <= c)%nat →
  wlp (delete c) (λ _ w', Inv w' ∧ ext w0 w' ∧ mgr w' = mgr w ∧ length (nodes w') = length (nodes w) ∧
    ∀ n, node_of w' n = node_of w n) w.
Proof.
  intros HI Hd [X1 X2 X3] Hc. eapply wlp_mono; [by apply Inv_delete; [|apply unowned_detached]|]. cbn beta. intros _ w' [I' []].
  split; [done|]. split; [split; [lia| |congruence]|split_and!; try done; intros n; by apply g_nodes0].
  intros i Hi. assert (i ≠ c) by (intros ->; destruct Hi as (cl & Hi%live_lt & _); lia).
  destruct (X2 i Hi) as (cl & Hcl & Hm). exists cl. by rewrite g_rest0.
Qed.
Lemma ok_attempt {A} ip port t pw (k : nat → bool → Op World A) (Q : A → World → Prop) w :
  Inv w →
  (∀ c ok w1, Inv w1 → ext w w1 → detached w1 c → (length (clients w) <= c)%nat → nodes w1 = nodes w → mgr w1 = mgr w →
    wlp (k c ok) (λ a w', Inv w' ∧ ext w w' ∧ Q a w') w1) →
  inv_ok (c ← new_client None; _ ← init c ip port t pw; ok ← connect c; k c ok) Q w.
Proof.
  intros HI Hk. eapply wlp_seq; [by apply ok_new_client|]. cbn beta. intros c w1 (I1 & E1 & Hlen & Hc & N1 & G1).
  assert (D1 : detached w1 c) by (by exists (RedisClient_new None)).
  eapply wlp_seq; [apply (ok_detached c (init c ip port t pw) (λ _ _ _, True)); [done| |done]|].
  { eapply on_client_bind; [apply on_client_set; auto|]. intros u. by eapply on_client_mono; [apply on_client_ret|]. }
  cbn beta. intros _ w2 (I2 & E2 & N2 & G2 & _).
  eapply wlp_seq; [eapply (ok_detached c (connect c)); [done|apply on_connect|by apply (e_free _ _ E2)]|].
  cbn beta. intros ok w3 (I3 & E3 & N3 & G3 & _).
  assert (E : ext w w3) by (etrans; [exact E1|by etrans]).
  apply Hk; try done; try congruence; try lia. by apply (e_free _ _ E3), (e_free _ _ E2).
Qed.
(** The question itself. *)
Lemma wlp_answer c w0 w :
  Inv w → detached w c → ext w0 w → (length (clients w0) <= c)%nat →
  wlp (r ← use_server c; _ ← delete c; mret r) (λ r w', Inv w' ∧ ext w0 w' ∧ same_settings (mgr w) (mgr w') ∧ (r = 0 → told w w')) w.
Proof.
  intros HI Hd HE Hc. eapply wlp_seq; [by apply ok_use_server|]. cbn beta. intros r w1 (I1 & E1 & S1 & H1).
  eapply wlp_seq; [apply (wlp_drop_temp c w0); [done|by apply (e_free _ _ E1)|by etrans|done]|].
  cbn beta. intros _ w2 (I2 & E2 & G2 & L2 & N2). apply wlp_ret. split; [done|]. split; [done|]. rewrite G2. split; [done|].
  intros Hr. destruct (H1 Hr) as (ctx & n & s & Hs & Hm & Hk). exists ctx, n, s. rewrite G2. split_and!; [done..|].
  intros k. specialize (Hk k). rewrite G2. destruct (owner _ k) as [i|]; [|done]. destruct Hk as (m & nd & ? & ? & ? & ?).
  exists m, nd. by rewrite N2.
Qed.

Definition sent_to w w1 : Prop := nodes w1 = nodes w ∧ mgr w1 = mgr w.
Lemma told_from w w1 w' : sent_to w w1 → told w1 w' → told w w'.
Proof.
  intros [N G] (ctx & n & s & Hs & Hm & Hk). exists ctx, n, s. rewrite G in Hk. split_and!; [done..|].
  by eapply slots_of_from, Hk; [|by rewrite G].
Qed.
Lemma ok_brokers_loop result t pw w :
  Inv w → inv_ok (brokers_loop result t pw) (λ r w', same_settings (mgr w) (mgr w') ∧ (r = 0 → told w w')) w.
Proof.
  revert w. induction result as [|b result IH]; intros w HI; cbn [brokers_loop]; [by apply ok_ret|].
  destruct (RedisTopo.find_char _ b) as [index|]; [|by apply ok_ret].
  apply ok_attempt; [done|]. intros c ok w1 I1 E1 D1 Hc N1 G1. destruct ok.
  - eapply wlp_mono; [by apply (wlp_answer c w)|]. cbn beta. intros r w2 (I2 & E2 & S2 & H2). rewrite G1 in S2.
    split_and!; [done..|]. intros Hr. by apply (told_from w w1); [|apply H2].
  - eapply wlp_seq; [by apply (wlp_drop_temp c w)|]. cbn beta. intros _ w2 (I2 & E2 & G2 & L2 & N2).
    eapply wlp_mono; [by apply IH|]. cbn beta. intros r w3 (I3 & E3 & S3 & H3). rewrite G2, G1 in S3.
    split_and!; [done|by etrans|done|]. intros Hr. destruct (H3 Hr) as (ctx & n & s & Hs & Hm & Hk).
    exists ctx, n, s. rewrite G2, G1 in Hk. split_and!; [done..|]. intros k. specialize (Hk k). rewrite G2, G1, L2, N1 in Hk. done.
Qed.
(** The sizes of the pools are those given. *)
Definition sized (mn mx : Z) w : Prop := mgr_minSize_ (mgr w) = mn ∧ mgr_maxSize_ (mgr w) = mx.
Lemma sized_settings mn mx w w' : sized mn mx w → same_settings (mgr w) (mgr w') → sized mn mx w'.
Proof. unfold sized. by intros ? (m & st & ns & ->). Qed.
Lemma ok_mgr_init ip port mn mx t pw fc w : Inv w → inv_ok (mgr_init ip port mn mx t pw fc) (λ r w', sized mn mx w' ∧ (r = 0 → told w w')) w.
Proof.
  intros HI. unfold mgr_init. eapply ok_seq; [apply (ok_set_mgr _ (λ _ w1, nodes w1 = nodes w ∧ slotMap_ (mgr w1) = slotMap_ (mgr w) ∧
    nodesStatus_ (mgr w1) = nodesStatus_ (mgr w) ∧ sized mn mx w1)); done|].
  cbn beta. intros _ w1 I1 _ (N1 & M1 & T1 & S1). apply ok_attempt; [done|]. intros c ok w2 I2 E2 D2 Hc N2 G2.
  assert (Hfrom : ∀ w', told w2 w' → told w w').
  { intros w' (ctx & n & s & Hs & Hm & Hk). exists ctx, n, s. rewrite G2, T1 in Hk. split_and!; [done..|].
    eapply slots_of_from, Hk; [congruence|by rewrite G2]. }
  destruct ok.
  - eapply wlp_mono; [by apply (wlp_answer c w1)|]. cbn beta. intros r w3 (I3 & E3 & S3 & H3). rewrite G2 in S3. split_and!; [done|done|by eapply sized_settings|auto].
  - apply wlp_bind, wlp_ret. eapply wlp_seq; [by apply (wlp_drop_temp c w1)|]. cbn beta. intros _ w3 (I3 & E3 & G3 & _).
    apply wlp_ret. split_and!; try done. unfold sized. by rewrite G3, G2.
Qed.
Lemma ok_init2 b mn mx t pw fc w : Inv w → inv_ok (init2 b mn mx t pw fc) (λ r w', sized mn mx w' ∧ (r = 0 → told w w')) w.
Proof.
  intros HI. unfold init2. eapply ok_seq; [apply (ok_set_mgr _ (λ _ w1, nodes w1 = nodes w ∧ slotMap_ (mgr w1) = slotMap_ (mgr w) ∧
    nodesStatus_ (mgr w1) = nodesStatus_ (mgr w) ∧ sized mn mx w1)); done|].
  cbn beta. intros _ w1 I1 _ (N1 & M1 & T1 & S1). eapply ok_mono; [by apply ok_brokers_loop|]. cbn beta. intros r w2 _ _ [S2 H]. split; [by eapply sized_settings|]. intros Hr.
  destruct (H Hr) as (ctx & n & s & Hs & Hm & Hk). exists ctx, n, s. rewrite T1 in Hk. split_and!; [done..|].
  by eapply slots_of_from, Hk.
Qed.

(** ** Lending *)

(** Node [n] hands connection [c] out. *)
Lemma Inv_lend n nd c idle w :
  Inv w → node_of w n = Some nd → usable w n c → c ∉ held w → c ∉ useMap_ nd →
  (∀ i, i ∈ idle → i ∈ idleList_ nd ∧ i ≠ c) → NoDup idle →
  Z.of_nat (length idle + S (size (useMap_ nd))) <= Z.max 0 (maxSize_ nd) →
  let nd' := nd <| idleList_ := idle |> <| useMap_ ::= λ u, {[c]} ∪ u |> in
  Inv (w <| nodes ::= <[n := Some nd']> |> <| held := c :: held w |>).
Proof.
  intros HI Hn (cl & Hc & Hm & Hs & Hx) Hh Hu Hidle Hnd Hsz nd'. apply (Inv_node n nd nd'); try done; cbn.
  - intros i [Hi Hic]%Hidle. destruct (i_idle _ HI n nd i Hn Hi) as [Hiu Hcl]. split; [|done]. by intros [->%elem_of_singleton|?]%elem_of_union.
  - unfold pool_size. cbn. rewrite size_union, size_singleton; [lia|]. by intros i ->%elem_of_singleton ?.
  - intros i [->%elem_of_singleton|Hi]%elem_of_union.
    + split; [by left|]. exists cl. by split_and!; [done|done|intros _].
    + destruct (i_use _ HI n nd i Hn Hi) as (Hih & cli & Hcli & Hmi). split; [by right|]. exists cli. split_and!; [done..|].
      by apply (proj2 (i_held _ HI i Hih)).
  - apply NoDup_cons. split; [done|apply HI].
  - intros i Hi. right. by right.
  - intros i [->|Hi]%elem_of_cons; [left; by apply elem_of_union_l, elem_of_singleton|].
    destruct (decide (i ∈ useMap_ nd)); [left; by apply elem_of_union_r|by right].
Qed.

(** What a caller gets: nothing, or a usable connection of node [n] that no caller has. *)
Definition lent w (r : option nat) (n : nat) w' : Prop := held w' = held w ∧
  match r with
  | Some c => Inv (w' <| held := c :: held w' |>) ∧ (c ∉ held w') ∧ usable w' n c ∧ is_Some (node_of w' n)
  | None => Inv w'
  end.
Lemma wlp_getRedisClient n w :
  Inv w → wlp (getRedisClient n) (λ r w', lent w r n w' ∧ slotMap_ (mgr w') = slotMap_ (mgr w)) w.
Proof.
  intros HI. unfold getRedisClient. apply wlp_bind, wlp_find. intros nd Hn. change (node_of w n = Some nd) in Hn.
  assert (Hlive : ∀ w1 nd1, node_of w1 n = Some nd1 → is_Some (node_of (w1 <| nodes ::= <[n := Some nd1]> |>) n)).
  { intros w1 nd1 H%live_lt. unfold node_of. cbn. rewrite live_insert by lia. by rewrite decide_True. }
  destruct (idleList_ nd) as [|c idle] eqn:Hi.
  - destruct (Z.ltb_spec (Z.of_nat (size (useMap_ nd))) (maxSize_ nd)) as [Hlt|]; [|by apply wlp_ret].
    eapply wlp_seq; [by apply ok_applayNewRedisClient|]. cbn beta. intros [c|] w1 (I1 & E1 & N1 & L1 & G1 & H1).
    + destruct H1 as [Hc Hus]. assert (Hn1 : node_of w1 n = Some nd) by (by rewrite N1).
      apply wlp_bind. unfold wlp at 1. rewrite (set_node_nodes _ _ nd) by done. apply wlp_ret.
      destruct (unowned_new w c HI Hc) as [U1 U2]. destruct (U2 n nd Hn) as [_ U3].
      split; [|cbn; by rewrite G1]. split; [apply E1|]. split_and!.
      * assert (Hnd : nd <| useMap_ ::= λ u, {[c]} ∪ u |> = nd <| idleList_ := [] |> <| useMap_ ::= λ u, {[c]} ∪ u |>)
          by (destruct nd; cbn in Hi; by rewrite Hi).
        rewrite Hnd. apply (Inv_lend n nd c [] w1); try done; [by rewrite (e_held _ _ E1)|by intros i ?%elem_of_nil|constructor|cbn; lia].
      * cbn. by rewrite (e_held _ _ E1).
      * exact Hus.
      * unfold node_of. cbn. rewrite live_insert by (by eapply live_lt). by rewrite decide_True.
    + assert (Hn1 : node_of w1 n = Some nd) by (by rewrite N1). apply wlp_bind.
      destruct (bool_decide (useMap_ nd = ∅)).
      * eapply wlp_mono; [apply (ok_set_node n _ nd); try done; cbn|].
        -- intros c Hc. by rewrite Hi in Hc; apply elem_of_nil in Hc.
        -- rewrite Hi. constructor.
        -- by apply (i_size _ I1 n nd).
        -- cbn beta. intros _ w2 (I2 & E2 & (_ & _ & _ & G2) & _). apply wlp_ret. split; [|by rewrite G2, G1].
           split; [|done]. by rewrite (e_held _ _ E2), (e_held _ _ E1).
      * apply wlp_ret, wlp_ret. split; [|by rewrite G1]. split; [apply E1|done].
  - apply wlp_bind. unfold wlp at 1. rewrite (set_node_nodes _ _ nd) by done. apply wlp_ret.
    destruct (i_idle _ HI n nd c Hn) as [Hu Hcl]; [rewrite Hi; by left|].
    pose proof (i_nodup _ HI n nd Hn) as Hnd. rewrite Hi in Hnd. apply NoDup_cons in Hnd as [Hnd1 Hnd2].
    pose proof (i_size _ HI n nd Hn) as Hsz. unfold pool_size in Hsz. rewrite Hi in Hsz. cbn in Hsz.
    assert (Hh : c ∉ held w).
    { intros Hh. destruct Hcl as (cl & Hcl & Hm & _). destruct (i_held _ HI c Hh) as [_ H].
      destruct (H cl Hcl) as (_ & m & ndm & Hm' & Hndm & Hin). congruence. }
    split; [|done]. split; [done|]. split_and!; [|done|done|].
    + apply (Inv_lend n nd c idle w); try done.
      * intros i Hin. split; [rewrite Hi; by right|]. by intros ->.
      * lia.
    + unfold node_of. cbn. rewrite live_insert by (by eapply live_lt). by rewrite decide_True.
Qed.

(** A connection for slot [pos]. *)
Definition found w (pos : Z) (r : option nat) w' : Prop := held w' = held w ∧
  match r with
  | Some c => Inv (w' <| held := c :: held w' |>) ∧ (c ∉ held w') ∧ ∃ n, slotMap_ (mgr w') !! pos = Some n ∧ usable w' n c
  | None => Inv w'
  end.
Lemma wlp_lookup pos n w w0 :
  Inv w → held w = held w0 → slotMap_ (mgr w) !! pos = Some n → wlp (getRedisClient n) (found w0 pos) w.
Proof.
  intros HI Hh Hn. eapply wlp_mono; [by apply wlp_getRedisClient|]. cbn beta. intros r w' [[E H] G].
  split; [congruence|]. destruct r as [c|]; [|done]. destruct H as (? & ? & ? & _). split_and!; [done..|]. exists n. by rewrite G.
Qed.
Lemma wlp_findNodeConnection key w :
  Inv w → wlp (findNodeConnection key) (found w (getKeySlotIndex (c_str key))) w.
Proof.
  intros HI. unfold findNodeConnection. apply wlp_bind, wlp_get. destruct (_ && _); [by apply wlp_ret|].
  generalize (getKeySlotIndex (c_str key)). intros pos. unfold getConnection. apply wlp_bind, wlp_get.
  destruct (slotMap_ (mgr w) !! pos) as [n|] eqn:Es; [|by apply wlp_ret].
  apply wlp_bind, wlp_find. intros nd Hn. destruct (node_bStatus_ nd); [by apply wlp_lookup|].
  eapply wlp_seq; [apply (ok_set_mgr _ (λ _ _, True)); done|]. cbn beta. intros _ w1 (I1 & E1 & _).
  apply wlp_bind, wlp_get. eapply wlp_seq; [by apply ok_init2|]. cbn beta. intros ret w2 (I2 & E2 & _).
  assert (Hh : held w2 = held w) by (by rewrite (e_held _ _ E2), (e_held _ _ E1)).
  destruct (negb _); [by apply wlp_ret|].
  eapply wlp_seq; [apply (ok_set_mgr _ (λ _ _, True)); done|]. cbn beta. intros _ w3 (I3 & E3 & _).
  unfold pool_of. apply wlp_bind, wlp_get. assert (Hh3 : held w3 = held w) by (by rewrite (e_held _ _ E3)).
  destruct (slotMap_ (mgr w3) !! pos) as [m|] eqn:Em; [by apply wlp_lookup|by apply wlp_ret].
Qed.

(** ** Giving back *)

(** The connection [c] of a caller is in use in one pool, and idle in none. *)
Lemma held_where c cl w : Inv w → c ∈ held w → client_of w c = Some cl →
  sane cl ∧ ∃ n nd, manager_ cl = Some n ∧ node_of w n = Some nd ∧ c ∈ useMap_ nd ∧
    ∀ m ndm, node_of w m = Some ndm → c ∉ idleList_ ndm.
Proof.
  intros HI Hh Hc. destruct (proj2 (i_held _ HI c Hh) cl Hc) as (Hs & n & nd & Hm & Hn & Hu). split; [done|].
  exists n, nd. split_and!; try done. intros m ndm Hndm Hin. pose proof (idle_manager _ _ _ _ _ HI Hndm Hin Hc) as Hm'.
  assert (m = n) as -> by congruence. assert (ndm = nd) as -> by congruence. by destruct (i_idle _ HI n nd c Hn Hin).
Qed.
Lemma filter_held c i (h : list nat) : i ∈ filter (λ x, x ≠ c) h ↔ i ≠ c ∧ i ∈ h.
Proof. by rewrite list_elem_of_filter. Qed.
(** Node [n] gets [c] back, in its list of idle connections or not. *)
Lemma Inv_back n nd c tl w :
  Inv w → node_of w n = Some nd → c ∈ useMap_ nd →
  (tl = [] ∨ tl = [c] ∧ usable w n c) →
  let nd' := nd <| idleList_ ::= λ l, l ++ tl |> <| useMap_ ::= λ u, u ∖ {[c]} |> in
  Inv (w <| nodes ::= <[n := Some nd']> |> <| held := filter (λ x, x ≠ c) (held w) |>).
Proof.
  intros HI Hn Hu Htl nd'. assert (Htl' : ∀ i, i ∈ tl → i = c ∧ usable w n c).
  { intros i Hi. destruct Htl as [->|[-> Hus]]; [by apply elem_of_nil in Hi|]. by apply list_elem_of_singleton in Hi. }
  apply (Inv_node n nd nd'); try done; cbn.
  - intros i [Hi|[-> Hus]%Htl']%elem_of_app; rewrite elem_of_difference, elem_of_singleton; [|by split; [intros [_ []]|]].
    destruct (i_idle _ HI n nd i Hn Hi) as [Hiu Hcl]. split; [tauto|done].
  - apply NoDup_app. split; [by eapply (i_nodup _ HI)|]. split; [|destruct Htl as [->|[-> _]]; [constructor|apply NoDup_singleton]].
    intros i Hi [-> _]%Htl'. by destruct (i_idle _ HI n nd c Hn Hi).
  - pose proof (i_size _ HI n nd Hn) as Hsz. unfold pool_size in *. cbn. rewrite length_app.
    assert (size (useMap_ nd) = S (size (useMap_ nd ∖ {[c]}))) as E.
    { rewrite (union_difference_singleton_L c (useMap_ nd)) at 1 by done. rewrite size_union, size_singleton; [done|].
      intros i ->%elem_of_singleton [_ H]%elem_of_difference. by apply H, elem_of_singleton. }
    assert (length tl <= 1)%nat by (destruct Htl as [->|[-> _]]; cbn; lia). lia.
  - intros i [Hi Hic]%elem_of_difference. destruct (i_use _ HI n nd i Hn Hi) as (Hih & cli & Hcli & Hmi).
    split; [apply filter_held; split; [by intros ->; apply Hic, elem_of_singleton|done]|]. exists cli. split_and!; [done..|].
    by apply (proj2 (i_held _ HI i Hih)).
  - apply NoDup_filter, HI.
  - intros i Hi. destruct (decide (i = c)) as [->|Hic]; [by left|right; by apply filter_held].
  - intros i [Hic Hi]%filter_held. destruct (decide (i ∈ useMap_ nd)) as [Hiu|]; [|by right].
    left. apply elem_of_difference. split; [done|]. by intros ?%elem_of_singleton.
Qed.
(** Without the callers' list, for the steps before it is changed. *)
Lemma Inv_status n nd b w :
  Inv w → node_of w n = Some nd → Inv (w <| nodes ::= <[n := Some (nd <| node_bStatus_ := b |>)]> |>).
Proof.
  intros HI Hn. pose proof (ok_set_node n (λ nd, nd <| node_bStatus_ := b |>) nd w HI Hn) as H.
  unfold inv_ok, wlp in H. rewrite (set_node_nodes _ _ nd) in H by done. apply H; cbn; try done.
  - intros c Hc. by destruct (i_idle _ HI n nd c Hn Hc).
  - by eapply (i_nodup _ HI).
  - by apply (i_size _ HI n nd).
Qed.
Lemma wlp_recycle c w :
  Inv w → c ∈ held w → wlp (recycle c) (λ _ w', Inv (w' <| held := filter (λ x, x ≠ c) (held w') |>)) w.
Proof.
  intros HI Hh. unfold recycle. apply wlp_bind, wlp_find. intros cl Hc. change (client_of w c = Some cl) in Hc.
  destruct (held_where c cl w HI Hh Hc) as (Hs & n & nd & Hm & Hn & Hu & Hni). rewrite Hm.
  destruct (connStatus_ cl) eqn:Est; unfold releaseRedisClient, removeRedisClient; apply wlp_bind, wlp_find; intros nd0 Hn0;
    assert (nd0 = nd) as -> by (unfold node_of in Hn; congruence); rewrite bool_decide_eq_true_2 by done.
  - unfold wlp. rewrite (set_node_nodes _ _ nd) by done. apply (Inv_back n nd c [c] w); try done. right. split; [done|].
    exists cl. split_and!; [done..|by apply Hs].
  - apply wlp_bind. unfold wlp at 1. rewrite (set_node_nodes _ _ nd) by done. set (w1 := w <| nodes ::= _ |>).
    set (h := filter (λ x, x ≠ c) (held w)).
    assert (I1 : Inv (w1 <| held := h |>)).
    { assert (nd <| useMap_ ::= λ u, u ∖ {[c]} |> = nd <| idleList_ ::= λ l, l ++ [] |> <| useMap_ ::= λ u, u ∖ {[c]} |>) as E
        by (destruct nd; unfold set_with; cbn; by rewrite app_nil_r).
      unfold w1. rewrite E. apply (Inv_back n nd c [] w); auto. }
    assert (Hnode : ∀ m, node_of w1 m = if decide (n = m) then Some (nd <| useMap_ ::= λ u, u ∖ {[c]} |>) else node_of w m).
    { intros m. unfold node_of, w1. cbn. by rewrite live_insert by (by eapply live_lt). }
    eapply wlp_seq; [apply (on_release c w1 cl); done|]. cbn beta. intros _ w2 (cl2 & T & _).
    assert (I2 : Inv (w2 <| held := h |>)).
    { apply (Inv_touch c cl cl2 (w1 <| held := h |>)); [done|by destruct T|done|by intros [? _]%filter_held|].
      intros m ndm. change (node_of (w1 <| held := h |>) m) with (node_of w1 m). rewrite Hnode.
      destruct (decide (n = m)) as [<-|]; [intros [= <-]; by apply (Hni n nd)|apply Hni]. }
    assert (Hh2 : held w2 = held w) by apply (t_held _ _ _ _ _ T).
    apply wlp_bind, wlp_find. intros nd2 Hn2. destruct (_ && _); [|by apply wlp_ret; rewrite Hh2].
    unfold wlp. rewrite (set_node_nodes _ _ nd2) by done. pose proof (Inv_status n nd2 false (w2 <| held := h |>) I2 Hn2) as H2.
    change (held (w2 <| nodes ::= <[n := Some (nd2 <| node_bStatus_ := false |>)]> |>)) with (held w2). rewrite Hh2. exact H2.
Qed.

(** ** Every event *)

(** [m] may be run on a connection that a caller has. *)
Definition safe_on {A} (c : nat) (m : Op World A) : Prop := on_client c m (λ cl _ cl', sane cl → sane cl').
Lemma safe_connect c : safe_on c (connect c).
Proof. eapply on_client_mono; [apply on_connect|]. cbn. intros cl b cl' [E H] _ Hs. apply H. congruence. Qed.
Lemma safe_reConnect c : safe_on c (reConnect c).
Proof. eapply on_client_mono; [apply on_reConnect|]. cbn. intros cl b cl' [E H] _ Hs. apply H. congruence. Qed.
Lemma safe_release c : safe_on c (release c).
Proof. eapply on_client_mono; [apply on_release|]. cbn. intros cl b cl' [_ H] Hs Hc. rewrite H in Hc; done. Qed.
Lemma safe_exec c cmd : safe_on c (ClusterCommands.exec c cmd).
Proof. eapply on_client_mono; [apply on_exec|]. cbn. intros cl b cl' [E H] Hs Hc. rewrite E. auto. Qed.
(** Without a context [ping] does nothing. *)
Lemma safe_ping c : safe_on c (ping c).
Proof.
  intros w cl Hc. destruct (context_ cl) as [ctx|] eqn:E.
  - eapply wlp_mono; [by apply (on_ping c w cl)|]. cbn beta. intros b w' (cl' & T & H). exists cl'. split; [done|].
    intros _ _. rewrite H, E. eauto.
  - unfold ping. apply wlp_bind, wlp_find. intros a Ha. unfold client_of in Hc. assert (a = cl) as -> by congruence.
    rewrite E. apply wlp_ret. exists cl. split; [by apply touch_refl|done].
Qed.
Lemma wlp_holding {A} c (m : Op World A) w :
  Inv w → safe_on c m → wlp (holding c (_ ← m; mret ())) (λ _, Inv) w.
Proof.
  intros HI Hm. unfold holding. apply wlp_bind, wlp_get. destruct (bool_decide_reflect (c ∈ held w)) as [Hh|]; [|done].
  apply wlp_bind, wlp_find. intros cl Hc. change (client_of w c = Some cl) in Hc.
  destruct (held_where c cl w HI Hh Hc) as (Hs & n & nd & _ & _ & _ & Hni).
  eapply wlp_seq; [by apply (Hm w cl)|]. cbn beta. intros a w' (cl' & T & Hs'). apply wlp_ret.
  by eapply Inv_touch; [|exact T|..]; auto.
Qed.

Lemma cluster_Inv_handle e w : Inv w → wlp (handle e) (λ _, Inv) w.
Proof.
  intros HI. destruct e; cbn [handle].
  - eapply wlp_seq; [by apply ok_mgr_init|]. by intros r w' (I' & _ & _).
  - eapply wlp_seq; [by apply ok_init2|]. by intros r w' (I' & _ & _).
  - eapply wlp_seq; [by apply wlp_findNodeConnection|]. cbn beta. intros [c|] w' [_ H]; [|by apply wlp_ret].
    apply wlp_mod. apply H.
  - apply wlp_holding; [done|apply safe_exec].
  - apply wlp_holding; [done|apply safe_ping].
  - apply wlp_holding; [done|apply safe_connect].
  - apply wlp_holding; [done|apply safe_reConnect].
  - apply wlp_holding; [done|apply safe_release].
  - unfold holding. apply wlp_bind, wlp_get. destruct (bool_decide_reflect (c ∈ held w)) as [Hh|]; [|done].
    apply wlp_bind, wlp_find. intros cl _. eapply wlp_seq; [by apply wlp_recycle|]. cbn beta. intros _ w' I'. by apply wlp_mod.
Qed.
Lemma cluster_Inv_reachable w : reachable w → Inv w.
Proof.
  induction 1 as [n|w e w' _ IH He]; [apply cluster_Inv_new|]. by apply (wlp_run _ (λ _, Inv) _ _ _ He), cluster_Inv_handle.
Qed.
Lemma run_events_reachable l w w' : reachable w → run_events l w = Some w' → reachable w'.
Proof.
  revert w. induction l as [|e l IH]; intros w Hw; cbn [run_events]; [by intros [= <-]|].
  destruct (handle e w) as [[[] w1]|] eqn:E; [|done]. apply IH. by eapply reach_step.
Qed.
End reach.
End ClusterReach.
