(* ===== verification/ClusterSpec.v ===== *)
(** * What the synchronous cluster client promises

    A range of slots is given to a pool, and a pool without slots goes; the tables
    after [init]; what a caller gets for a key; that connections are not shared; and
    concrete runs, one of which frees a connection that a caller has. *)

From S2P Require Import Prelude CLib Incommon HashSlot RedisTopo ClusterData ClusterClient ClusterCommands ClusterPool ClusterMgr ClusterSample ClusterProofs ClusterInv ClusterReach.
Import ClusterData ClusterClient ClusterPool ClusterMgr ClusterProofs ClusterInv ClusterReach.

Module ClusterSpec.
Section spec.
Context {HR : Hiredis}.
Implicit Types w : World.

(** ** Deleting a pool is defined *)

Definition defined {A} (m : Op World A) w : Prop := is_Some (m w).
Lemma def_ret {A} (a : A) w : defined (mret a) w.
Proof. unfold defined. eauto. Qed.
Lemma def_seq {A B} (m : Op World A) (k : A → Op World B) P w :
  defined m w → wlp m P w → (∀ a w', P a w' → defined (k a) w') → defined (m ≫= k) w.
Proof. unfold defined. intros [[a w'] E] H Hk. rewrite op_bind_run, E. by apply Hk, (wlp_run m P w). Qed.
Lemma def_delete c w : is_Some (client_of w c) → defined (delete c) w.
Proof.
  intros [cl Hc]. unfold delete. apply (def_seq _ _ (λ _ _, True)); [|by eapply wlp_mono; [by apply (on_release c w cl)|]|by unfold defined; eauto].
  unfold release, defined, get_client. rewrite op_bind_find. unfold client_of in Hc. rewrite Hc.
  destruct (context_ cl) as [ctx|]; [|by eexists].
  unfold redisFree, set_client, get_client, call. rewrite op_bind_run, op_bind_get, op_bind_mod. cbn.
  rewrite op_bind_find. cbn. rewrite Hc. by eexists.
Qed.
Lemma def_delete_all l w : NoDup l → (∀ c, c ∈ l → is_Some (client_of w c)) → defined (op_each delete l) w.
Proof.
  revert w. induction l as [|c l IH]; intros w Hnd Hl; cbn [op_each]; [apply def_ret|].
  apply NoDup_cons in Hnd as [Hc Hnd]. eapply def_seq; [apply def_delete, Hl; by left|apply wlp_delete|].
  cbn beta. intros [] w1 G. apply IH; [done|]. intros i Hi. rewrite (g_rest _ _ _ _ G) by (intros ->; done). apply Hl. by right.
Qed.
Lemma def_node_delete n w : Inv w → is_Some (node_of w n) → defined (node_delete n) w.
Proof.
  intros HI [nd Hn]. unfold node_delete.
  assert (Hi : ∀ c, c ∈ idleList_ nd → is_Some (client_of w c)).
  { intros c Hc. destruct (i_idle _ HI n nd c Hn Hc) as (_ & cl & -> & _). eauto. }
  assert (Hu : ∀ c, c ∈ useMap_ nd → (c ∉ idleList_ nd) ∧ is_Some (client_of w c)).
  { intros c Hc. split; [intros Hin; by destruct (i_idle _ HI n nd c Hn Hin)|].
    destruct (i_use _ HI n nd c Hn Hc) as (_ & cl & -> & _). eauto. }
  set (k := op_mod (λ w, w <| nodes ::= <[n := None]> |>)). unfold defined. rewrite op_bind_run.
  cut (defined (stop n) w); [intros [[u w'] ->]; by eexists|]. unfold stop, get_node, defined. rewrite op_bind_find.
  unfold node_of in Hn. rewrite Hn. eapply def_seq; [apply def_delete_all; [by eapply (i_nodup _ HI)|done]|apply wlp_delete_all|].
  cbn beta. intros _ w1 G1. assert (Hn1 : node_of w1 n = Some nd) by (by rewrite (g_nodes _ _ _ _ G1)).
  unfold defined. rewrite op_bind_run, (set_node_nodes _ _ nd) by done. set (w2 := w1 <| nodes ::= _ |>).
  assert (Hn2 : node_of w2 n = Some (nd <| idleList_ := [] |>)).
  { unfold node_of, w2. cbn. rewrite live_insert by (by eapply live_lt). by rewrite decide_True. }
  eapply def_seq; [apply def_delete_all; [apply NoDup_elements|]|apply wlp_delete_all|].
  - intros c Hc%elem_of_elements. change (client_of w2 c) with (client_of w1 c). destruct (Hu c Hc) as [H1 H2].
    by rewrite (g_rest _ _ _ _ G1).
  - cbn beta. intros _ w3 G3. unfold defined. rewrite (set_node_nodes _ _ (nd <| idleList_ := [] |>)); [by eexists|].
    by rewrite (g_nodes _ _ _ _ G3).
Qed.

(** ** Slots *)

(** Node [m] has lost its last slot. *)
Definition slotless w w' (m : nat) : bool := negb (unused m (slotMap_ (mgr w))) && unused m (slotMap_ (mgr w')).
(** The slots in [P] lead to [n], the others where they led; the nodes without slots are
    deleted, and all others stay. *)
Record points (n : nat) (P : Z → Prop) {dP : ∀ k, Decision (P k)} w w' : Prop := {
  p_settings : ∃ m, mgr w' = (mgr w) <| slotMap_ := m |>;
  p_slots k : slotMap_ (mgr w') !! k = if decide (P k) then Some n else slotMap_ (mgr w) !! k;
  p_node : node_of w' n = node_of w n;
  p_nodes m : m ≠ n → node_of w' m = if slotless w w' m then None else node_of w m
}.
Lemma slotless_same w w' m : slotMap_ (mgr w') = slotMap_ (mgr w) → slotless w w' m = false.
Proof. unfold slotless. intros ->. by destruct (unused _ _). Qed.
Lemma points_none n (P : Z → Prop) {dP : ∀ k, Decision (P k)} w : (∀ k, ¬ P k) → points n P w w.
Proof.
  intros HP. split; [exists (slotMap_ (mgr w)); by destruct (mgr w)| |done|].
  - intros k. by rewrite decide_False.
  - intros m _. by rewrite slotless_same.
Qed.
Lemma unused_points n (P : Z → Prop) {dP : ∀ k, Decision (P k)} w w' m :
  points n P w w' → m ≠ n → unused m (slotMap_ (mgr w)) = true → unused m (slotMap_ (mgr w')) = true.
Proof.
  intros H Hm Hu. apply unused_spec. intros k. rewrite (p_slots _ _ _ _ H). rewrite unused_spec in Hu.
  case_decide; [congruence|apply Hu].
Qed.
Lemma points_trans n (P Q R : Z → Prop) {dP : ∀ k, Decision (P k)} {dQ : ∀ k, Decision (Q k)} {dR : ∀ k, Decision (R k)} w1 w2 w3 :
  (∀ k, R k ↔ P k ∨ Q k) → points n P w1 w2 → points n Q w2 w3 → points n R w1 w3.
Proof.
  intros HR' H1 H2. split.
  - destruct (p_settings _ _ _ _ H1) as [m1 E1], (p_settings _ _ _ _ H2) as [m2 E2]. exists m2. by rewrite E2, E1.
  - intros k. rewrite (p_slots _ _ _ _ H2), (p_slots _ _ _ _ H1). specialize (HR' k).
    repeat case_decide; tauto || done.
  - by rewrite (p_node _ _ _ _ H2), (p_node _ _ _ _ H1).
  - intros m Hm. rewrite (p_nodes _ _ _ _ H2), (p_nodes _ _ _ _ H1) by done. unfold slotless.
    pose proof (unused_points _ _ _ _ m H1 Hm) as U1. pose proof (unused_points _ _ _ _ m H2 Hm) as U2.
    destruct (unused m (slotMap_ (mgr w1))), (unused m (slotMap_ (mgr w2))), (unused m (slotMap_ (mgr w3))); cbn; try done;
      by (specialize (U1 eq_refl) || specialize (U2 eq_refl)).
Qed.

Lemma Inv_point n pos w :
  Inv w → is_Some (node_of w n) → Inv (w <| mgr ::= λ g, g <| slotMap_ ::= <[pos := n]> |> |>).
Proof.
  intros [] Hn. split; try done. cbn. intros p k. rewrite lookup_insert_Some. intros [[_ <-]|[_ ?]]; [done|]. by eapply i_slot0.
Qed.
(** The node [o] without slots goes. *)
Lemma drop_ref_run o w :
  Inv w → is_Some (node_of w o) → ∃ w', drop_ref o w = Some ((), w') ∧ Inv w' ∧ mgr w' = mgr w ∧
    (∀ m, m ≠ o → node_of w' m = node_of w m) ∧
    node_of w' o = if unused o (slotMap_ (mgr w)) then None else node_of w o.
Proof.
  intros HI Ho. unfold drop_ref, get_mgr. rewrite op_bind_get. destruct (unused o _) eqn:E; [|by exists w].
  destruct (def_node_delete o w HI Ho) as [[[] w'] Hrun]. exists w'. split; [done|].
  destruct (wlp_run _ _ _ _ _ Hrun (ok_node_delete o w HI (proj1 (unused_spec _ _) E))) as (I' & _ & G & _ & N & No). done.
Qed.
Lemma set_slot_run n pos w :
  Inv w → is_Some (node_of w n) →
  ∃ w', set_slot n pos w = Some ((), w') ∧ Inv w' ∧ points n (λ k, k = pos) w w'.
Proof.
  intros HI Hn. unfold set_slot, get_mgr, set_mgr. rewrite op_bind_get, op_bind_mod. set (w1 := w <| mgr ::= _ |>).
  assert (I1 : Inv w1) by by apply Inv_point.
  assert (S1 : ∀ k, slotMap_ (mgr w1) !! k = if decide (k = pos) then Some n else slotMap_ (mgr w) !! k).
  { intros k. unfold w1. cbn. case_decide as E; [rewrite E; apply lookup_insert_eq|by apply lookup_insert_ne]. }
  assert (G1 : ∃ m, mgr w1 = (mgr w) <| slotMap_ := m |>) by by eexists.
  assert (Hlive : ∀ m, m ≠ n → slotMap_ (mgr w) !! pos ≠ Some m → slotless w w1 m = false).
  { intros m Hm Hpos. unfold slotless. destruct (unused m (slotMap_ (mgr w))) eqn:E; [done|]. cbn [negb andb]. apply not_true_is_false. intros H.
    rewrite unused_spec in H. assert (unused m (slotMap_ (mgr w)) = true); [|congruence]. apply unused_spec. intros k Hk.
    specialize (H k). rewrite S1 in H. case_decide; congruence. }
  destruct (slotMap_ (mgr w) !! pos) as [o|] eqn:Eo.
  2:{ exists w1. split; [done|]. split; [done|]. split; [done|done|done|]. intros m Hm. by rewrite Hlive. }
  destruct (decide (o = n)) as [->|Ho].
  { exists w1. split; [done|]. split; [done|]. split; [done|done|done|]. intros m Hm. rewrite Hlive; [done|done|congruence]. }
  destruct (drop_ref_run o w1 I1 (i_slot _ HI _ _ Eo)) as (w' & Hrun & I' & G' & N' & No'). exists w'. split; [done|]. split; [done|].
  split; rewrite ?G'; try done; [by apply N'|]. intros m Hm. unfold slotless. rewrite G'. fold (slotless w w1 m).
  destruct (decide (m = o)) as [->|Hmo]; [|by rewrite N', Hlive by congruence].
  rewrite No'. unfold slotless. assert (unused o (slotMap_ (mgr w)) = false) as ->; [|done].
  apply not_true_is_false. rewrite unused_spec. intros H. by apply (H pos).
Qed.
Lemma fill_slots_run fuel n pos slotEnd w :
  Inv w → is_Some (node_of w n) → 0 <= pos -> pos <= 65535 -> slotEnd < 65535 → Z.max 0 (slotEnd + 1 - pos) < Z.of_nat fuel →
  ∃ w', fill_slots fuel n pos slotEnd w = Some ((), w') ∧ Inv w' ∧ points n (λ k, pos <= k <= slotEnd) w w'.
Proof.
  revert pos w. induction fuel as [|fuel IH]; intros pos w HI Hn Hp1 Hp2 He Hf; [lia|]. cbn [fill_slots].
  destruct (Z.leb_spec pos slotEnd) as [Hle|Hlt].
  - destruct (set_slot_run n pos w HI Hn) as (w1 & Hrun & I1 & P1). rewrite op_bind_run, Hrun.
    replace (u16 (pos + 1)) with (pos + 1) by (symmetry; apply wrap_u_id; unfold in_u; lia).
    destruct (IH (pos + 1) w1) as (w' & Hrun' & I' & P'); [done|by rewrite (p_node _ _ _ _ P1)|lia..|].
    exists w'. split; [done|]. split; [done|]. eapply points_trans; [|exact P1|exact P']. cbn. lia.
  - exists w. split; [done|]. split; [done|]. apply points_none. lia.
Qed.

(** C27: A range of slots of a reply. Below 65535 the loop of [connectClusterNode] ends:
    exactly its slots lead to the new pool afterwards, every pool that has lost its last
    slot is gone, and every other one is there as it was. With 65535 as the last slot
    the loop never ends. *)
Theorem slots_filled w n r :
  reachable w → is_Some (node_of w n) → 0 <= slotStart r < 2 ^ 16 → 0 <= slotEnd r < 2 ^ 16 →
  if decide (slotEnd r = 65535) then ∀ fuel, fill_slots fuel n (slotStart r) (slotEnd r) w = None
  else ∃ w', fill_slots RedisTopo.SLOT_ROUNDS n (slotStart r) (slotEnd r) w = Some ((), w') ∧
    points n (λ k, slotStart r <= k <= slotEnd r) w w'.
Proof.
  intros HI%cluster_Inv_reachable Hn Hs He. case_decide as E.
  - intros fuel. destruct (fill_slots _ _ _ _ w) as [[[] w']|] eqn:Hrun; [|done].
    destruct (wlp_run _ _ _ _ _ Hrun (ok_fill_slots fuel n (slotStart r) (slotEnd r) w HI Hn Hs (proj2 He))) as (_ & _ & _ & _ & _ & H & _).
    done.
  - destruct (fill_slots_run RedisTopo.SLOT_ROUNDS n (slotStart r) (slotEnd r) w) as (w' & Hrun & _ & H); try done; try lia.
    + unfold RedisTopo.SLOT_ROUNDS. lia.
    + eauto.
Qed.

(** ** The tables after [init] *)

(** C24: When [init] or [init2] gives 0, a server has answered CLUSTER NODES with a text whose
    lines are all well formed; the masters of these lines are in [nodes_]; each slot that a
    master not known before lists leads to a new pool of the last such master, with as many
    idle connections as the least size (at least 1), none in use and at most 64 or the
    greatest size allowed; all other slots lead where they led. *)
Theorem cluster_slots w r w' mn mx :
  reachable w →
  (∃ ip port t pw fc, mgr_init ip port mn mx t pw fc w = Some (r, w')) ∨
  (∃ b t pw fc, init2 b mn mx t pw fc w = Some (r, w')) →
  r = 0 →
  ∃ ctx n s, nodes_text ctx n = Some s ∧ masters (split s RedisTopo.newline) = Some (nodes_ (mgr w')) ∧
    ∀ k, match owner (placed (nodesStatus_ (mgr w)) (nodes_ (mgr w'))) k with
         | Some i => ∃ m nd, slotMap_ (mgr w') !! k = Some m ∧ (length (nodes w) <= m)%nat ∧ node_of w' m = Some nd ∧
             info_ nd = i ∧ node_bStatus_ nd = true ∧ useMap_ nd = ∅ ∧
             Z.of_nat (length (idleList_ nd)) = Z.max mn kMinSize ∧ maxSize_ nd = Z.min mx kMaxSize
         | None => slotMap_ (mgr w') !! k = slotMap_ (mgr w) !! k
         end.
Proof.
  intros HI%cluster_Inv_reachable Hrun Hr. assert (sized mn mx w' ∧ told w w') as [[Sn Sx] (ctx & n & s & Hs & Hm & Hk)].
  { destruct Hrun as [(ip & port & t & pw & fc & E)|(b & t & pw & fc & E)].
    - destruct (wlp_run _ _ _ _ _ E (ok_mgr_init ip port mn mx t pw fc w HI)) as (_ & _ & S & H). auto.
    - destruct (wlp_run _ _ _ _ _ E (ok_init2 b mn mx t pw fc w HI)) as (_ & _ & S & H). auto. }
  exists ctx, n, s. split_and!; [done..|]. intros k. specialize (Hk k). destruct (owner _ k) as [i|]; [|done].
  destruct Hk as (m & nd & ? & ? & ? & Hf). unfold fresh_pool in Hf. rewrite Sn, Sx in Hf. eauto 10.
Qed.

(** ** Callers *)

(** C9: Connections are not shared. In every reachable state: no connection has two callers;
    an idle one is connected, has no caller and is idle once and in one pool; one in use
    has a caller; one that a caller has is, while it exists, in use in the pool that made
    it and there only; a pool has no more connections than its greatest size; no two
    connections have the same context; and the slots lead to pools that exist. *)
Theorem connections_exclusive w :
  reachable w →
  NoDup (held w) ∧
  (∀ n nd, node_of w n = Some nd →
    NoDup (idleList_ nd) ∧ pool_size nd <= Z.max 0 (maxSize_ nd) ∧
    (∀ c, c ∈ idleList_ nd → usable w n c ∧ (c ∉ held w) ∧ ∀ m ndm, node_of w m = Some ndm → c ∈ idleList_ ndm ++ elements (useMap_ ndm) → m = n) ∧
    (∀ c, c ∈ useMap_ nd → c ∈ held w)) ∧
  (∀ c cl, c ∈ held w → client_of w c = Some cl →
    ∃ n, manager_ cl = Some n ∧ ∀ m ndm, node_of w m = Some ndm → (c ∈ useMap_ ndm ↔ m = n)) ∧
  (∀ c c' cl cl' k, client_of w c = Some cl → client_of w c' = Some cl' → context_ cl = Some k → context_ cl' = Some k → c = c') ∧
  (∀ pos n, slotMap_ (mgr w) !! pos = Some n → is_Some (node_of w n)).
Proof.
  intros HI%cluster_Inv_reachable. split_and!; [apply HI| | | |apply HI].
  - intros n nd Hn. split_and!; [by eapply (i_nodup _ HI)|by apply (i_size _ HI n)| |by intros c Hc; apply (i_use _ HI n nd)].
    intros c Hc. destruct (i_idle _ HI n nd c Hn Hc) as (Hu & cl & Hcl & Hm & Hrest). split; [by exists cl|]. split.
    + intros Hh. destruct (held_where c cl w HI Hh Hcl) as (_ & m & ndm & _ & _ & _ & Hni). by apply (Hni n nd).
    + intros m ndm Hndm [H|H%elem_of_elements]%elem_of_app.
      * pose proof (idle_manager _ _ _ _ _ HI Hndm H Hcl). congruence.
      * pose proof (use_manager _ _ _ _ _ HI Hndm H Hcl). congruence.
  - intros c cl Hh Hcl. destruct (held_where c cl w HI Hh Hcl) as (_ & n & nd & Hm & Hn & Hu & _). exists n. split; [done|].
    intros m ndm Hndm. split; [|intros ->; congruence]. intros H. pose proof (use_manager _ _ _ _ _ HI Hndm H Hcl). congruence.
  - intros c c' cl cl' k H1 H2 E1 E2. by eapply (proj2 (i_context _ HI c' cl' k H2 E2)).
Qed.

(** C26: What [findNodeConnection] gives for a key is in use in the pool that the slot of the
    key leads to (after a new [init2] if that pool was down), connected, and no caller had
    it; the callers of other connections keep theirs. *)
Theorem find_connection w key c w' :
  reachable w → findNodeConnection key w = Some (Some c, w') →
  (c ∉ held w) ∧ held w' = held w ∧
  ∃ n nd cl ctx, slotMap_ (mgr w') !! getKeySlotIndex (c_str key) = Some n ∧ node_of w' n = Some nd ∧ c ∈ useMap_ nd ∧ (c ∉ idleList_ nd) ∧
    client_of w' c = Some cl ∧ manager_ cl = Some n ∧ connStatus_ cl = true ∧ context_ cl = Some ctx.
Proof.
  intros HI%cluster_Inv_reachable Hrun.
  destruct (wlp_run _ _ _ _ _ Hrun (wlp_findNodeConnection key w HI)) as [Hh (I' & Hc & n & Hn & cl & Hcl & Hm & Hs & ctx & Hx)].
  split; [congruence|]. split; [done|].
  destruct (held_where c cl _ I') as (_ & n' & nd & Hm' & Hn' & Hu & Hni); [by left|done|].
  assert (n' = n) as -> by congruence. exists n, nd, cl, ctx. split_and!; try done. by apply (Hni n nd).
Qed.
End spec.

(** ** Runs *)

(** A client of the sample cluster, where ["b"] has slot 3300 and ["a"] slot 15495. *)
Abbreviation SampleWorld := (@World ClusterSample.sample).
Definition start (n : nat) : @World ClusterSample.sample := World_new (n : @Net ClusterSample.sample).
Definition e_init : @Event ClusterSample.sample := EInit2 (lit "10.0.0.9:7000") 1 2 0 [] 0.
Definition checked (l : list (@Event ClusterSample.sample)) (n : nat) (f : @World ClusterSample.sample → bool) : bool :=
  match run_events l (start n) with Some w => f w | None => false end.
Lemma checked_world l n f : checked l n f = true → ∃ w : SampleWorld, run_events l (start n) = Some w ∧ reachable w ∧ f w = true.
Proof.
  unfold checked. destruct (run_events l (start n)) as [w|] eqn:E; [|done]. intros H. exists w. split; [done|]. split; [|done].
  by eapply run_events_reachable; [apply reach_new|].
Qed.

Lemma slots_filled_witness : ∃ w : SampleWorld, reachable w ∧ is_Some (node_of w 0) ∧
  ∃ w' : SampleWorld, fill_slots RedisTopo.SLOT_ROUNDS 0 7 9 w = Some ((), w') ∧ points 0 (λ k, 7 <= k <= 9) w w'.
Proof.
  destruct (checked_world [e_init] 20 (λ w, bool_decide (is_Some (node_of w 0)))) as (w & _ & Hw & H); [by vm_compute|].
  apply bool_decide_eq_true in H. exists w. split; [exact Hw|]. split; [exact H|].
  exact (slots_filled w 0 {| slotStart := 7; slotEnd := 9 |} Hw H ltac:(cbn; lia) ltac:(cbn; lia)).
Defined.

Lemma cluster_slots_witness : ∃ w' : SampleWorld, init2 (lit "10.0.0.9:7000") 1 2 0 [] 0 (start 20) = Some (0, w') ∧
  ∃ ctx n s, @nodes_text ClusterSample.sample ctx n = Some s ∧ masters (split s RedisTopo.newline) = Some (nodes_ (mgr w')).
Proof.
  assert (match init2 (lit "10.0.0.9:7000") 1 2 0 [] 0 (start 20) with Some (r, _) => r = 0 | None => False end) as H by (by vm_compute).
  destruct (init2 _ _ _ _ _ _ (start 20)) as [[r w']|] eqn:E; [|by destruct H]. rewrite H in E |- *. exists w'. split; [reflexivity|].
  destruct (cluster_slots (start 20) 0 w' 1 2 (reach_new _) (or_intror (ex_intro _ _ (ex_intro _ _ (ex_intro _ _ (ex_intro _ _ E))))) eq_refl)
    as (ctx & n & s & Hs & Hm & _). exists ctx, n, s. split; [exact Hs|exact Hm].
Defined.

Lemma connections_exclusive_witness : ∃ w : SampleWorld, reachable w ∧ held w ≠ [] ∧ NoDup (held w) ∧
  ∀ pos n, slotMap_ (mgr w) !! pos = Some n → is_Some (node_of w n).
Proof.
  destruct (checked_world [e_init; EFind (lit "b"); EFind (lit "a")] 20 (λ w, bool_decide (held w ≠ []))) as (w & _ & Hw & H); [by vm_compute|].
  apply bool_decide_eq_true in H. exists w. destruct (connections_exclusive w Hw) as (H1 & _ & _ & _ & H2). done.
Defined.

Lemma find_connection_witness : ∃ (w : SampleWorld) c (w' : SampleWorld), reachable w ∧ findNodeConnection (lit "b") w = Some (Some c, w') ∧
  (c ∉ held w) ∧ held w' = held w.
Proof.
  destruct (checked_world [e_init] 20 (λ w, match findNodeConnection (lit "b") w with Some (Some _, _) => true | _ => false end))
    as (w & _ & Hw & H); [by vm_compute|].
  destruct (findNodeConnection (lit "b") w) as [[[c|] w']|] eqn:E; try done. exists w, c, w'.
  destruct (find_connection w (lit "b") c w' Hw E) as (? & ? & _). done.
Defined.

(** A second [init] after a failover frees the connection that a caller has of the first
    server: the pool goes with its last slot, whoever uses its connections. What the caller
    does with it then is undefined. *)
Example busy_connection_freed :
  checked [e_init; EFind (lit "b"); e_init] 20 (λ w, bool_decide (held w = [1%nat] ∧ client_of w 1 = None)) = true ∧
  run_events [e_init; EFind (lit "b"); e_init; ECommand 1%nat (ClusterCommands.C_get (lit "b") [])] (start 20) = None.
Proof. by vm_compute. Qed.
(** [expire] of a key that does not exist loses the connection: the answer is 0. *)
Example expire_loses_connection :
  checked [e_init; EFind (lit "b"); ECommand 1%nat (ClusterCommands.C_expire (lit "b") 10)] 20
    (λ w, match client_of w 1 with Some cl => negb (connStatus_ cl) | None => false end) = true.
Proof. by vm_compute. Qed.
(** The connection that is given back without being connected is closed, and stays in the heap. *)
Example removed_not_deleted :
  checked [e_init; EFind (lit "b"); ECommand 1%nat (ClusterCommands.C_expire (lit "b") 10); ERecycle 1%nat] 20
    (λ w, match client_of w 1, node_of w 0 with
          | Some cl, Some nd => bool_decide (context_ cl = None ∧ useMap_ nd = ∅ ∧ idleList_ nd = [] ∧ node_bStatus_ nd = false)
          | _, _ => false
          end) = true.
Proof. by vm_compute. Qed.
(** After the pool has gone down, the next look-up asks the brokers again and finds the new
    pool; but full coverage, which the first [init2] asked for, is off from then on. *)
Example coverage_lost :
  checked [EInit2 (lit "10.0.0.9:7000") 1 2 0 [] 1; EFind (lit "b"); ECommand 1%nat (ClusterCommands.C_expire (lit "b") 10);
           ERecycle 1%nat; EFind (lit "b")] 20
    (λ w, bool_decide (length (held w) = 1%nat ∧ bStatus_ (mgr w) = true ∧ fullCoverage_ (mgr w) = 0)) = true.
Proof. by vm_compute. Qed.
End ClusterSpec.
