(* ===== verification/HttpReq.v ===== *)
(** * HTTP requests, connections and their queues ([src/curlHttpCli])

    [HttpReqSession] is a request with its response, [ConnInfo] a curl handle with
    its buffers; [HttpRequestQueue], [HttpResponseQueue] and [HttpConnInfoQueue] are
    the queues between threads. A pointer to an object is the index of the object
    in the list that holds all of them. *)

From S2P Require Import Prelude CLib Incommon.

Module HttpReq.

Inductive CURL_HTTP_VERSION := CURLHTTP10 | CURLHTTP11 | CURLHTTP20 | CURLHTTP2TLS | CURLHTTPNONE.
Inductive CURL_HTTP_REQUEST_TYPE :=
  CURLHTTP_GET | CURLHTTP_POST | CURLHTTP_PUT | CURLHTTP_DELETE | CURLHTTP_UPDATE | CURLHTTP_UNKONOW.

(** ** [HttpReqSession]

    [private_] is an opaque pointer; [cb_] tells whether a callback is set. *)
Record HttpReqSession := {
  httpVer : CURL_HTTP_VERSION; reqType : CURL_HTTP_REQUEST_TYPE; private_ : Z;
  connInfo_ : option nat; maxconns_ : Z; connOutSecond : Z; dataOutSecond : Z;
  insertMicroSecond : Z; reqMicroSecond : Z; rspMicroSecond : Z; isKeepAlive_ : Z; rspCode : Z;
  sslVerifyPeer : Z; sslVeriftHost : Z; rspBody : bytes; reqUrl : bytes; reqData : bytes;
  errorMsg : bytes; cacertFile : bytes; headVec : list bytes; cb_ : bool }.
#[export] Instance eta_HttpReqSession : Eta HttpReqSession := λ r, {|
  httpVer := r.(httpVer); reqType := r.(reqType); private_ := r.(private_);
  connInfo_ := r.(connInfo_); maxconns_ := r.(maxconns_); connOutSecond := r.(connOutSecond);
  dataOutSecond := r.(dataOutSecond); insertMicroSecond := r.(insertMicroSecond);
  reqMicroSecond := r.(reqMicroSecond); rspMicroSecond := r.(rspMicroSecond);
  isKeepAlive_ := r.(isKeepAlive_); rspCode := r.(rspCode); sslVerifyPeer := r.(sslVerifyPeer);
  sslVeriftHost := r.(sslVeriftHost); rspBody := r.(rspBody); reqUrl := r.(reqUrl);
  reqData := r.(reqData); errorMsg := r.(errorMsg); cacertFile := r.(cacertFile);
  headVec := r.(headVec); cb_ := r.(cb_) |}.

Definition HttpReqSession_default : HttpReqSession := {|
  httpVer := CURLHTTP11; reqType := CURLHTTP_POST; private_ := 0; connInfo_ := None;
  maxconns_ := 0; connOutSecond := 30; dataOutSecond := 60; insertMicroSecond := 0;
  reqMicroSecond := 0; rspMicroSecond := 0; isKeepAlive_ := 0; rspCode := 0; sslVerifyPeer := 0;
  sslVeriftHost := 0; rspBody := []; reqUrl := []; reqData := []; errorMsg := [];
  cacertFile := []; headVec := []; cb_ := false |}.

Definition HttpReqSession_new (ver : CURL_HTTP_VERSION) (type : CURL_HTTP_REQUEST_TYPE) (url body : bytes) :
    HttpReqSession := {|
  httpVer := ver; reqType := type; private_ := 0; connInfo_ := None; maxconns_ := 0;
  connOutSecond := 30; dataOutSecond := 60; insertMicroSecond := 0; reqMicroSecond := 0;
  rspMicroSecond := 0; isKeepAlive_ := 0; rspCode := 0; sslVerifyPeer := 0; sslVeriftHost := 0;
  rspBody := []; reqUrl := url; reqData := body; errorMsg := []; cacertFile := []; headVec := [];
  cb_ := false |}.

(** [operator=], member by member, and the copy constructor on top of it. *)
Definition HttpReqSession_assign (that this : HttpReqSession) : HttpReqSession :=
  let this := this <| httpVer := httpVer that |> in
  let this := this <| reqType := reqType that |> in
  let this := this <| private_ := private_ that |> in
  let this := this <| connInfo_ := connInfo_ that |> in
  let this := this <| maxconns_ := maxconns_ that |> in
  let this := this <| connOutSecond := connOutSecond that |> in
  let this := this <| dataOutSecond := dataOutSecond that |> in
  let this := this <| insertMicroSecond := insertMicroSecond that |> in
  let this := this <| reqMicroSecond := reqMicroSecond that |> in
  let this := this <| rspMicroSecond := rspMicroSecond that |> in
  let this := this <| isKeepAlive_ := isKeepAlive_ that |> in
  let this := this <| rspCode := rspCode that |> in
  let this := this <| sslVerifyPeer := sslVerifyPeer that |> in
  let this := this <| sslVeriftHost := sslVeriftHost that |> in
  let this := this <| rspBody := rspBody that |> in
  let this := this <| reqUrl := reqUrl that |> in
  let this := this <| reqData := reqData that |> in
  let this := this <| errorMsg := errorMsg that |> in
  let this := this <| cacertFile := cacertFile that |> in
  let this := this <| headVec := headVec that |> in
  let this := this <| cb_ := cb_ that |> in
  this.
Definition HttpReqSession_copy (that : HttpReqSession) : HttpReqSession :=
  HttpReqSession_assign that HttpReqSession_default.

Definition setHttpReqVer (v : CURL_HTTP_VERSION) (s : HttpReqSession) : HttpReqSession := s <| httpVer := v |>.
Definition setHttpReqType (v : CURL_HTTP_REQUEST_TYPE) (s : HttpReqSession) : HttpReqSession := s <| reqType := v |>.
Definition setHttReqPrivate (v : Z) (s : HttpReqSession) : HttpReqSession := s <| private_ := v |>.
Definition setHttpReqConnoutSecond (v : Z) (s : HttpReqSession) : HttpReqSession := s <| connOutSecond := v |>.
Definition setHttpReqdataoutSecond (v : Z) (s : HttpReqSession) : HttpReqSession := s <| dataOutSecond := v |>.
Definition setHttpReqInsertMicroSecond (v : Z) (s : HttpReqSession) : HttpReqSession := s <| insertMicroSecond := v |>.
Definition setHttpReqMicroSecond (v : Z) (s : HttpReqSession) : HttpReqSession := s <| reqMicroSecond := v |>.
Definition setHttpRspMicroSecond (v : Z) (s : HttpReqSession) : HttpReqSession := s <| rspMicroSecond := v |>.
Definition setHttpResponseCode (v : Z) (s : HttpReqSession) : HttpReqSession := s <| rspCode := v |>.
Definition setHttpsSslVerifyPeer (v : Z) (s : HttpReqSession) : HttpReqSession := s <| sslVerifyPeer := v |>.
Definition setHttpsSslVerifyHost (v : Z) (s : HttpReqSession) : HttpReqSession := s <| sslVeriftHost := v |>.
Definition setHttpResponstBody (v : bytes) (s : HttpReqSession) : HttpReqSession := s <| rspBody := v |>.
Definition setHttpreqUrl (v : bytes) (s : HttpReqSession) : HttpReqSession := s <| reqUrl := v |>.
Definition setHttpReqBody (v : bytes) (s : HttpReqSession) : HttpReqSession := s <| reqData := v |>.
Definition setHttpReqErrorMsg (v : bytes) (s : HttpReqSession) : HttpReqSession := s <| errorMsg := v |>.
Definition setHttpReqPrivateHead (v : list bytes) (s : HttpReqSession) : HttpReqSession := s <| headVec := v |>.
Definition setHttpReqCallback (v : bool) (s : HttpReqSession) : HttpReqSession := s <| cb_ := v |>.
Definition setHttpsCacertFile (v : bytes) (s : HttpReqSession) : HttpReqSession := s <| cacertFile := v |>.
Definition setHttpConnInfo (v : option nat) (s : HttpReqSession) : HttpReqSession := s <| connInfo_ := v |>.
Definition setHttpUrlMaxConns (v : Z) (s : HttpReqSession) : HttpReqSession := s <| maxconns_ := v |>.
Definition setHttpUrlKeepAlive (v : Z) (s : HttpReqSession) : HttpReqSession := s <| isKeepAlive_ := v |>.
Definition addHttpReqPrivateHead (head : bytes) (s : HttpReqSession) : HttpReqSession :=
  s <| headVec ::= (.++ [head]) |>.

(** ** [ConnInfo]

    [easy], [global], [headers] tell whether the pointer is set; [error] and
    [reqUrl_] are malloc'ed buffers with their contents. *)
Definition CURL_ERROR_SIZE : nat := 256.

Record ConnInfo := {
  isNew_ : bool; easy : bool; global : bool; headers : list bytes; reqInfo : option nat;
  error : option bytes; reqUrl_ : option bytes; subIndex_ : nat; urlSize : nat;
  outSecond : Z; rspdata : bytes }.
#[export] Instance eta_ConnInfo : Eta ConnInfo := λ r, {|
  isNew_ := r.(isNew_); easy := r.(easy); global := r.(global); headers := r.(headers);
  reqInfo := r.(reqInfo); error := r.(error); reqUrl_ := r.(reqUrl_);
  subIndex_ := r.(subIndex_); urlSize := r.(urlSize); outSecond := r.(outSecond);
  rspdata := r.(rspdata) |}.

Definition ConnInfo_new (subIndex : nat) : ConnInfo := {|
  isNew_ := true; easy := false; global := false; headers := []; reqInfo := None;
  error := None; reqUrl_ := None; subIndex_ := subIndex; urlSize := 0; outSecond := 0;
  rspdata := [] |}.

(** [connInfoInit]; the arguments are what [malloc] and [curl_easy_init] answer. *)
Definition connInfoInit (malloc_ok easy_ok : bool) (c : ConnInfo) : Z * ConnInfo :=
  let init_easy c :=
    let c := c <| easy := easy_ok |> in if easy_ok then (0, c) else (-1, c) in
  match error c with
  | None =>
      if malloc_ok then init_easy (c <| error := Some (replicate CURL_ERROR_SIZE NUL) |>) else (-1, c)
  | Some _ => init_easy c
  end.

(** [connInfoReinit]: [memset] needs the error buffer. *)
Definition connInfoReinit (c : ConnInfo) : option ConnInfo :=
  match error c with
  | None => None
  | Some _ => Some (c <| outSecond := 0 |> <| reqInfo := None |>
      <| error := Some (replicate CURL_ERROR_SIZE NUL) |> <| global := false |> <| rspdata := [] |>)
  end.

(** [memset(reqUrl, 0, urlSize); memcpy(reqUrl, url.c_str(), url.size());]: [None]
    when the buffer is missing or too small. *)
Definition fill_url (url : bytes) (c : ConnInfo) : option ConnInfo :=
  match reqUrl_ c with
  | None => None
  | Some buf =>
      if decide (length buf = urlSize c ∧ (length url <= urlSize c)%nat)
      then Some (c <| reqUrl_ := Some (url ++ replicate (urlSize c - length url) NUL) |>)
      else None
  end.

Definition malloc (ok : bool) (n : nat) : option bytes := if ok then Some (replicate n NUL) else None.

(** [connInfoSetReqUrl]; [malloc_ok] is what [malloc] answers. *)
Definition connInfoSetReqUrl (malloc_ok : bool) (url : bytes) (c : ConnInfo) : option (Z * ConnInfo) :=
  if decide (urlSize c = 0)%nat then
    let c := c <| urlSize := if decide (1024 <= length url)%nat then S (length url) else 1024%nat |> in
    let c := c <| reqUrl_ := malloc malloc_ok (urlSize c) |> in
    match reqUrl_ c with
    | Some _ => c ← fill_url url c; Some (0, c)
    | None => Some (-1, c)
    end
  else
    let '(ret, c) :=
      if decide (urlSize c <= length url)%nat then
        let c := c <| urlSize := S (length url) |> in
        let c := c <| reqUrl_ := malloc malloc_ok (urlSize c) |> in
        (match reqUrl_ c with None => -1 | Some _ => 0 end, c)
      else (0, c) in
    if ret =? 0 then c ← fill_url url c; Some (0, c) else Some (ret, c).

Definition connInfoSetGlobal (g : bool) (c : ConnInfo) : ConnInfo := c <| global := g |>.
Definition connInfoSetHeader (h : list bytes) (c : ConnInfo) : ConnInfo := c <| headers := h |>.
Definition connInfoSetReqinfo (req : option nat) (c : ConnInfo) : ConnInfo := c <| reqInfo := req |>.
Definition connInfoSetOutSecond (second : Z) (c : ConnInfo) : ConnInfo := c <| outSecond := second |>.
Definition connInfoSetRspbody (body : bytes) (c : ConnInfo) : ConnInfo := c <| rspdata := body |>.
Definition connInfoAppendRspbody (body : bytes) (c : ConnInfo) : ConnInfo := c <| rspdata ::= (.++ body) |>.
Definition connInfoIsNew (c : ConnInfo) : bool * ConnInfo := (isNew_ c, c <| isNew_ := false |>).

(** ** [HttpRequestQueue]

    [httpRequest] waits while the queue is full: [None]. *)
Record HttpRequestQueue := { maxSize_ : Z; queue_ : list nat }.
#[export] Instance eta_HttpRequestQueue : Eta HttpRequestQueue := λ r,
  {| maxSize_ := r.(maxSize_); queue_ := r.(queue_) |}.
Definition HttpRequestQueue_new (maxSize : Z) : HttpRequestQueue := {| maxSize_ := maxSize; queue_ := [] |}.
Definition isFull (q : HttpRequestQueue) : bool :=
  (0 <? maxSize_ q) && (maxSize_ q <=? Z.of_nat (length (queue_ q))).
Definition httpRequest (req : nat) (q : HttpRequestQueue) : option HttpRequestQueue :=
  if isFull q then None else Some (q <| queue_ ::= (.++ [req]) |>).
Definition dealRequest (q : HttpRequestQueue) : option nat * HttpRequestQueue :=
  match queue_ q with [] => (None, q) | req :: l => (Some req, q <| queue_ := l |>) end.

(** ** [HttpResponseQueue]

    [dealResponse] waits while the queue is empty, unless the module exits. *)
Record HttpResponseQueue := { isExit_ : Z; rsp_queue_ : list nat }.
#[export] Instance eta_HttpResponseQueue : Eta HttpResponseQueue := λ r,
  {| isExit_ := r.(isExit_); rsp_queue_ := r.(rsp_queue_) |}.
Definition HttpResponseQueue_new : HttpResponseQueue := {| isExit_ := 0; rsp_queue_ := [] |}.
Definition httpResponseExit (q : HttpResponseQueue) : HttpResponseQueue := q <| isExit_ := 1 |>.
Definition httpResponse (req : nat) (q : HttpResponseQueue) : HttpResponseQueue :=
  q <| rsp_queue_ ::= (.++ [req]) |>.
Definition dealResponse (q : HttpResponseQueue) : option (option nat * HttpResponseQueue) :=
  match rsp_queue_ q with
  | [] => if isExit_ q =? 0 then None else Some (None, q)
  | req :: l => Some (Some req, q <| rsp_queue_ := l |>)
  end.

(** ** [HttpConnInfoQueue]

    The idle connections of one URL. The constructor does not initialise
    [queueSize_]: its first value is an argument. *)
Record HttpConnInfoQueue := { conn_maxSize_ : Z; conn_queueSize_ : Z; conn_queue_ : list nat }.
#[export] Instance eta_HttpConnInfoQueue : Eta HttpConnInfoQueue := λ r,
  {| conn_maxSize_ := r.(conn_maxSize_); conn_queueSize_ := r.(conn_queueSize_);
     conn_queue_ := r.(conn_queue_) |}.
Definition HttpConnInfoQueue_new (garbage maxSize : Z) : HttpConnInfoQueue :=
  {| conn_maxSize_ := maxSize; conn_queueSize_ := garbage; conn_queue_ := [] |}.
Definition conn_isFull (q : HttpConnInfoQueue) : bool :=
  (0 <? conn_maxSize_ q) && (conn_maxSize_ q <=? conn_queueSize_ q).
Definition httpcliConnInsert (conn : nat) (isNew : bool) (q : HttpConnInfoQueue) : HttpConnInfoQueue :=
  let q := q <| conn_queue_ ::= (.++ [conn]) |> in
  if isNew then q <| conn_queueSize_ ::= λ n, u64 (n + 1) |> else q.
(** [None]: the call waits for a connection to come back. *)
Definition httpcliConnPop (q : HttpConnInfoQueue) : option (option nat * HttpConnInfoQueue) :=
  match conn_queue_ q with
  | [] => if conn_isFull q then None else Some (None, q)
  | c :: l => Some (Some c, q <| conn_queue_ := l |>)
  end.

(** ** [HttpUrlConnInfo]: the queue of each URL *)

Definition UrlMap := gmap bytes HttpConnInfoQueue.

Definition connInfoFromUrl (url : bytes) (m : UrlMap) : option (option nat * UrlMap) :=
  match m !! url with
  | None => Some (None, m)
  | Some q => '(c, q) ← httpcliConnPop q; Some (c, <[url := q]> m)
  end.
Definition addUrlConnInfo (garbage : Z) (url : bytes) (maxSize : Z) (m : UrlMap) : Z * UrlMap :=
  match m !! url with
  | Some _ => (1, m)
  | None => (0, <[url := HttpConnInfoQueue_new garbage maxSize]> m)
  end.
Definition returnUrlConnInfo (garbage : Z) (url : bytes) (conn : nat) (isNew : bool) (m : UrlMap) : Z * UrlMap :=
  let q := match m !! url with None => HttpConnInfoQueue_new garbage 0 | Some q => q end in
  (0, <[url := httpcliConnInsert conn isNew q]> m).

(** ** Properties *)

(** Copying a request copies all of it: the copy the client keeps equals the
    caller's object in every member, callback and connection included. *)
Theorem request_copy (s : HttpReqSession) : HttpReqSession_copy s = s.
Proof. by destruct s. Qed.

(** The URL buffer: absent with size 0, or of the size the object records. *)
Definition url_ok (c : ConnInfo) : Prop :=
  match reqUrl_ c with None => urlSize c = 0%nat | Some buf => length buf = urlSize c ∧ (0 < urlSize c)%nat end.

Lemma strIntLen_padded url n : no_nul url → (0 < n)%nat →
  take (strIntLen (Some (url ++ replicate n NUL))) (url ++ replicate n NUL) = url.
Proof.
  intros Hu Hn. assert (E : ∀ k, strIntLen_loop (url ++ replicate n NUL) k = (k + length url)%nat).
  { induction url as [|x url IH]; intros k; cbn [app length strIntLen_loop].
    - destruct n; [lia|]. cbn [replicate strIntLen_loop]. rewrite decide_True by done. lia.
    - apply no_nul_cons in Hu as [Hx Hu]. rewrite decide_False, IH by done. lia. }
  cbn [strIntLen]. rewrite E. apply take_app_length'. done.
Qed.

Lemma fill_url_ok url c buf :
  no_nul url → (length url < urlSize c)%nat → reqUrl_ c = Some buf → length buf = urlSize c →
  ∃ c', fill_url url c = Some c' ∧ url_ok c' ∧ (length url < urlSize c')%nat ∧
    ∃ buf', reqUrl_ c' = Some buf' ∧ take (strIntLen (Some buf')) buf' = url.
Proof.
  intros Hn Hl Eb El. unfold fill_url. rewrite Eb. rewrite decide_True by (split; [done|lia]).
  eexists. split; [done|]. split_and!; [|done|eexists; split; [done|]].
  - unfold url_ok. cbn. rewrite length_app, length_replicate. lia.
  - apply strIntLen_padded; [done|lia].
Qed.

Lemma reqUrl_set c b : reqUrl_ (c <| reqUrl_ := b |>) = b.
Proof. done. Qed.
Lemma urlSize_set c n : urlSize (c <| urlSize := n |>) = n.
Proof. done. Qed.

(** The same on a buffer [malloc] has just given. *)
Lemma fill_url_new url c n :
  no_nul url → (length url < n)%nat →
  ∃ c', fill_url url (c <| urlSize := n |> <| reqUrl_ := Some (replicate n NUL) |>) = Some c' ∧ url_ok c' ∧
    (length url < urlSize c')%nat ∧ ∃ buf', reqUrl_ c' = Some buf' ∧ take (strIntLen (Some buf')) buf' = url.
Proof. intros Hn Hl. by eapply fill_url_ok; [..|apply length_replicate]. Qed.

(** The URL buffer of a connection never overflows: on a connection whose buffer
    is in order, [connInfoSetReqUrl] with a working [malloc] stores every URL, of
    any length and however often it is called, with a terminating NUL inside the
    buffer, and leaves the buffer in order. *)
Theorem url_buffer_safe (url : bytes) (c : ConnInfo) :
  url_ok c → no_nul url →
  ∃ c', connInfoSetReqUrl true url c = Some (0, c') ∧ url_ok c' ∧ (length url < urlSize c')%nat ∧
    ∃ buf, reqUrl_ c' = Some buf ∧ take (strIntLen (Some buf)) buf = url.
Proof.
  intros Hc Hn. unfold connInfoSetReqUrl, malloc.
  destruct (decide (urlSize c = 0)%nat) as [Hz|Hz]; [|destruct (decide (urlSize c <= length url)%nat) as [Hle|Hgt]].
  - assert (Hl : (length url < if decide (1024 <= length url)%nat then S (length url) else 1024%nat)%nat)
      by (case_decide; lia).
    destruct (fill_url_new url c _ Hn Hl) as (c' & E & H). exists c'. cbv zeta. by rewrite urlSize_set, reqUrl_set, E.
  - destruct (fill_url_new url c (S (length url)) Hn) as (c' & E & H); [lia|]. exists c'.
    cbv zeta. rewrite urlSize_set, reqUrl_set. cbv iota beta. change (0 =? 0) with true. cbv iota. by rewrite E.
  - unfold url_ok in Hc. destruct (reqUrl_ c) as [buf|] eqn:Eb; [|done].
    destruct (fill_url_ok url c buf) as (c' & E & H); [done|lia|done|lia|].
    exists c'. rewrite E. done.
Qed.

Lemma url_buffer_safe_witness :
  ∃ c', connInfoSetReqUrl true (lit "http://10.0.0.1/x") (ConnInfo_new 0) = Some (0, c') ∧ url_ok c' ∧
    (length (lit "http://10.0.0.1/x") < urlSize c')%nat ∧
    ∃ buf, reqUrl_ c' = Some buf ∧ take (strIntLen (Some buf)) buf = lit "http://10.0.0.1/x".
Proof. apply (url_buffer_safe (lit "http://10.0.0.1/x") (ConnInfo_new 0)); [done|decide_now]. Defined.

(** After a failed [malloc] the recorded size does not match the missing buffer,
    and the next call writes through a null pointer. *)
Lemma url_after_failed_malloc :
  ∃ c, connInfoSetReqUrl false (lit "http://a/") (ConnInfo_new 0) = Some (-1, c) ∧
    connInfoSetReqUrl true (lit "http://a/") c = None.
Proof. eexists. split; vm_compute; reflexivity. Qed.

(** Runs of one queue: what was put in and what was taken out. *)
Inductive queue_run : HttpRequestQueue → list nat → list nat → Prop :=
  | run_new n : queue_run (HttpRequestQueue_new n) [] []
  | run_put q q' r ins outs :
      queue_run q ins outs → httpRequest r q = Some q' → queue_run q' (ins ++ [r]) outs
  | run_take q q' r ins outs :
      queue_run q ins outs → dealRequest q = (Some r, q') → queue_run q' ins (outs ++ [r])
  | run_empty q q' ins outs :
      queue_run q ins outs → dealRequest q = (None, q') → queue_run q' ins outs.

(** A bounded request queue stays bounded and first-in first-out: whatever
    sequence of accepted requests and takes, at most [maxSize_] requests wait, and
    what is taken followed by what waits is what was accepted, in order. *)
Theorem request_queue_fifo (q : HttpRequestQueue) (ins outs : list nat) :
  queue_run q ins outs →
  ins = outs ++ queue_ q ∧ (0 < maxSize_ q → Z.of_nat (length (queue_ q)) <= maxSize_ q).
Proof.
  induction 1 as [n|q q' r ins outs _ [IH1 IH2] E|q q' r ins outs _ [IH1 IH2] E|q q' ins outs _ [IH1 IH2] E].
  - split; [done|]. cbn. lia.
  - unfold httpRequest in E. destruct (isFull q) eqn:Ef; [done|]. injection E as <-. cbn.
    split; [by rewrite IH1, app_assoc|]. rewrite length_app. cbn. intros Hm.
    unfold isFull in Ef. apply andb_false_iff in Ef as [Ef%Z.ltb_ge|Ef%Z.leb_gt]; lia.
  - unfold dealRequest in E. destruct (queue_ q) as [|r' l]; [done|]. injection E as <- <-. cbn.
    split; [by rewrite IH1, <- app_assoc|]. intros Hm. specialize (IH2 Hm). cbn in IH2. lia.
  - unfold dealRequest in E. destruct (queue_ q) as [|r' l] eqn:Eq; [|done]. injection E as <-.
    by rewrite Eq.
Qed.

Lemma request_queue_fifo_witness :
  let q := {| maxSize_ := 1; queue_ := [8%nat] |} in
  queue_run q [7; 8]%nat [7%nat] ∧ ([7; 8]%nat = [7%nat] ++ queue_ q ∧ (0 < 1 → Z.of_nat (length (queue_ q)) <= 1)).
Proof.
  intros q. assert (Hq : queue_run q [7; 8]%nat [7%nat]).
  { apply (run_put {| maxSize_ := 1; queue_ := [] |} q 8%nat [7%nat]); [|done].
    apply (run_take {| maxSize_ := 1; queue_ := [7%nat] |} _ 7%nat _ []); [|done].
    apply (run_put (HttpRequestQueue_new 1) _ 7%nat []); [apply run_new|done]. }
  split; [done|]. apply (request_queue_fifo q [7; 8]%nat [7%nat]), Hq.
Defined.

End HttpReq.
