(* ===== verification/HttpCli.v ===== *)
(** * The asynchronous HTTP client ([src/curlHttpCli])

    [CurlHttpCli] takes requests and hands each to an IO thread ([AsyncCurlHttp]);
    the IO thread moves them from its queue to curl handles, and completed or
    expired transfers go through the response queue to the callback thread. The
    state is that of the whole module; sessions, connections and IO objects are
    referred to by index. What libcurl, [malloc] and the clock answer is an argument
    of the operations. *)

From S2P Require Import Prelude CLib Incommon Atomic TcpCli HttpReq.

Module HttpCli.
Import HttpReq.

Definition ABSOLUTELY_OUT_HTTP_SECOND : Z := 180.

(** [AsyncCurlHttp]: [reqQueuePtr] is null until [asyncCurlReady]; [multi] are the
    connections whose handle curl works on, [connVect] all connections it made. *)
Record AsyncCurlHttp := {
  wakeupFd_ : Z; queueSize : Z; ioThreadIndex : nat; maxQueueSize_ : Z;
  reqQueuePtr : option HttpRequestQueue; connVect : list nat; multi : list nat;
  still_running : Z; stopped : Z }.
#[export] Instance eta_AsyncCurlHttp : Eta AsyncCurlHttp := λ r, {|
  wakeupFd_ := r.(wakeupFd_); queueSize := r.(queueSize); ioThreadIndex := r.(ioThreadIndex);
  maxQueueSize_ := r.(maxQueueSize_); reqQueuePtr := r.(reqQueuePtr); connVect := r.(connVect);
  multi := r.(multi); still_running := r.(still_running); stopped := r.(stopped) |}.

Definition AsyncCurlHttp_new (subIndex : nat) (maxqueue : Z) : AsyncCurlHttp := {|
  wakeupFd_ := 0; queueSize := 0; ioThreadIndex := subIndex; maxQueueSize_ := maxqueue;
  reqQueuePtr := None; connVect := []; multi := []; still_running := 0; stopped := 0 |}.

(** The members of [CurlHttpCli], the singletons, then: [entering] counts the calls of
    [curlHttpRequest] that found the module running and have no session yet; [starting]
    are those with a session, with the thread chosen; [waking] the threads that
    a finished push has not woken up yet; [responding] the requests the callback
    thread has taken, [calling] those it has counted as answered, [called] those whose
    callback ran; [rejected] those deleted by a failing [curlHttpRequest]. *)
Record World := {
  isExit : Z; threadExit : Z; readyIothread : Z; exitIothread : Z; lastIndex : Z;
  ioThreadNum : Z; maxQueue_ : Z; asyncNum : Z;
  sessions : list HttpReqSession; conns : list ConnInfo; urlMap_ : UrlMap;
  responses : HttpResponseQueue; asyncCurlHttpPtrVect : list (option AsyncCurlHttp);
  entering : nat; starting : list (nat * option nat); waking : list nat; responding : list nat;
  calling : list nat; called : list nat; rejected : list nat }.
#[export] Instance eta_World : Eta World := λ r, {|
  isExit := r.(isExit); threadExit := r.(threadExit); readyIothread := r.(readyIothread);
  exitIothread := r.(exitIothread); lastIndex := r.(lastIndex);
  ioThreadNum := r.(ioThreadNum); maxQueue_ := r.(maxQueue_); asyncNum := r.(asyncNum);
  sessions := r.(sessions); conns := r.(conns); urlMap_ := r.(urlMap_);
  responses := r.(responses); asyncCurlHttpPtrVect := r.(asyncCurlHttpPtrVect);
  entering := r.(entering); starting := r.(starting); waking := r.(waking); responding := r.(responding);
  calling := r.(calling); called := r.(called); rejected := r.(rejected) |}.

Definition CurlHttpCli_new : World := {|
  isExit := 0; threadExit := 0; readyIothread := 0; exitIothread := 0; lastIndex := 0;
  ioThreadNum := 0; maxQueue_ := 0; asyncNum := 0; sessions := []; conns := [];
  urlMap_ := ∅; responses := HttpResponseQueue_new; asyncCurlHttpPtrVect := [];
  entering := 0; starting := []; waking := []; responding := []; calling := []; called := []; rejected := [] |}.

Inductive Outcome (A : Type) := Done (a : A) (w : World) | Waits | Undefined.
Arguments Done {A} a w.
Arguments Waits {A}.
Arguments Undefined {A}.

(** [AsyncQueueNum] *)
Definition asyncReq (w : World) : World := w <| asyncNum ::= λ n, (incrementAndGet s64 n).2 |>.
Definition asyncRsp (w : World) : World := w <| asyncNum ::= λ n, (decrementAndGet s64 n).2 |>.

Definition set_io (i : nat) (io : AsyncCurlHttp) (w : World) : World :=
  w <| asyncCurlHttpPtrVect ::= <[i := Some io]> |>.
Definition set_session (s : nat) (f : HttpReqSession → HttpReqSession) (w : World) : World :=
  w <| sessions ::= alter f s |>.
Definition set_conn (c : nat) (k : ConnInfo) (w : World) : World := w <| conns ::= <[c := k]> |>.
Definition respond (s : nat) (w : World) : World := w <| responses ::= httpResponse s |>.

(** ** Start and end of the module *)

Definition curlHttpCliInit (threadNum maxQueue : Z) (w : World) : Z * World :=
  if 0 <? ioThreadNum w then (0, w)
  else
    (0, w <| maxQueue_ := maxQueue |>
          <| asyncCurlHttpPtrVect := replicate (Z.to_nat threadNum) None |>
          <| ioThreadNum := threadNum |>).

(** [httpCliIoThread] and [asyncCurlReady] up to the dispatch loop. *)
Definition io_thread_new (i : nat) (w : World) : World := set_io i (AsyncCurlHttp_new i (maxQueue_ w)) w.
Definition curlHttpThreadReady (w : World) : World := w <| readyIothread ::= λ n, u32 (n + 1) |>.
Definition asyncCurlReady (i : nat) (ok : bool) (w : World) : Outcome Z :=
  match asyncCurlHttpPtrVect w !! i with
  | Some (Some io) =>
      if ok then
        Done 0 (curlHttpThreadReady
          (set_io i (io <| reqQueuePtr := Some (HttpRequestQueue_new (maxQueueSize_ io)) |>
                        <| connVect := [] |>) w))
      else Done (-1) w
  | _ => Undefined
  end.
Definition io_thread_return (w : World) : World :=
  let w := w <| readyIothread ::= λ n, u32 (n - 1) |> in
  if negb (isExit w =? 0) then w <| exitIothread ::= λ n, u32 (n + 1) |> else w.

(** [curlHttpCliExit]: refuse new requests; once no request is on its way
    ([asyncQueNum() <= 0]) let the threads go; once that of the wake-ups is gone, stop the IO
    threads and the callback thread; once they are gone too, free the IO objects. *)
Definition asyncCurlExit (io : AsyncCurlHttp) : AsyncCurlHttp := io <| wakeupFd_ ::= TcpCli.eventfd_write 1 |>.
Definition exit_begin (w : World) : World := w <| isExit := 1 |>.
Definition exit_wait (w : World) : Outcome () :=
  if (ioThreadNum w =? 0) || (0 <? asyncNum w) then Waits else Done () (w <| threadExit := 1 |>).
Definition exit_io (i : nat) (w : World) : World := w <| asyncCurlHttpPtrVect ::= alter (option_map asyncCurlExit) i |>.
Definition exit_call (w : World) : World := w <| responses ::= httpResponseExit |>.
Definition exit_free (w : World) : Outcome () :=
  if exitIothread w =? ioThreadNum w then Done () (w <| asyncCurlHttpPtrVect ::= map (λ _, None) |>) else Waits.

(** ** [curlHttpRequest]

    The call takes five steps that other threads run between: the test whether the module is
    running; the new session, once all IO threads are ready; the choice of an IO thread;
    the push to its queue; the wake-up. *)

Definition must_wait (w : World) : bool :=
  (ioThreadNum w =? 0) || negb (readyIothread w =? ioThreadNum w).

Definition request_enter (w : World) : Z * World :=
  if negb (isExit w =? 0) then (-2, w) else (0, w <| entering ::= S |>).
Definition request_begin (curlReq : HttpReqSession) (microSeconds : Z) (w : World) : Outcome () :=
  if must_wait w then Waits
  else
    let req := setHttpReqInsertMicroSecond microSeconds (HttpReqSession_copy curlReq) in
    let s := length (sessions w) in
    Done () ((asyncReq (w <| entering ::= pred |> <| sessions ::= (.++ [req]) |>)) <| starting ::= cons (s, None) |>).

(** [connInfoFromUrl] or [addUrlConnInfo], then the index of
    [curlHttpClientWakeup]. *)
Definition request_route (garbage : Z) (s : nat) (w : World) : Outcome nat :=
  match sessions w !! s with
  | None => Undefined
  | Some req =>
      match connInfoFromUrl (reqUrl req) (urlMap_ w) with
      | None => Waits
      | Some (Some c, m) =>
          match conns w !! c with
          | None => Undefined
          | Some k => Done (subIndex_ k) (w <| urlMap_ := m |>)
          end
      | Some (None, m) =>
          let '(_, m) := addUrlConnInfo garbage (reqUrl req) (maxconns_ req) m in
          let w := w <| urlMap_ := m |> in
          let subIndex := lastIndex w in
          let w := w <| lastIndex := u32 (subIndex + 1) |> in
          Done (Z.to_nat (u64 (s32 (subIndex mod ioThreadNum w)))) w
      end
  end.

(** [curlhttpRequest]: -1 when the thread has no queue; the thread is woken up then too. *)
Definition curlhttpRequest (i s : nat) (w : World) : Outcome Z :=
  match asyncCurlHttpPtrVect w !! i with
  | None => Undefined
  | Some None => Done (-1) w
  | Some (Some io) =>
      match reqQueuePtr io with
      | None => Done (-1) (w <| waking ::= cons i |>)
      | Some q =>
          match httpRequest s q with
          | None => Waits
          | Some q => Done 0 ((set_io i (io <| reqQueuePtr := Some q |>) w) <| waking ::= cons i |>)
          end
      end
  end.

(** The failing end of [curlHttpRequest]. *)
Definition request_reject (s : nat) (w : World) : World := (asyncRsp w) <| rejected ::= cons s |>.

(** [wakeup] of the thread [i]: that of a caller does not test the pointer again, the periodic
    one does. *)
Definition wakeup (io : AsyncCurlHttp) : AsyncCurlHttp := io <| wakeupFd_ ::= TcpCli.eventfd_write 2 |>.
Definition request_wakeup (i : nat) (w : World) : Outcome () :=
  match asyncCurlHttpPtrVect w !! i with
  | Some (Some io) => Done () (set_io i (wakeup io) w)
  | _ => Undefined
  end.
Definition httpIoWake (i : nat) (w : World) : World := w <| asyncCurlHttpPtrVect ::= alter (option_map wakeup) i |>.

(** ** The IO thread *)

(** What [malloc], curl and the clock answer while a request is started. *)
Record ServeEnv := {
  init_malloc_ok : bool; curl_easy_init_ok : bool; url_malloc_ok : bool;
  curl_multi_add_ok : bool; now_second : Z; now_micro : Z }.

(** Options set on a handle, in order. *)
Inductive CurlOpt :=
  | OptTimeout (z : Z) | OptConnectTimeout (z : Z) | OptNosignal | OptFreshConnect | OptForbidReuse
  | OptTcpKeepalive | OptTcpKeepidle (z : Z) | OptTcpKeepintvl (z : Z)
  | OptSslVerifypeer (z : Z) | OptSslVerifyhost (z : Z) | OptAutoreferer | OptCainfo (f : bytes)
  | OptCookiesession | OptHttpVersion (v : CURL_HTTP_VERSION) | OptHttpget | OptPost
  | OptPostfieldsize (z : Z) | OptPostfields (b : bytes) | OptCustomrequest (m : bytes)
  | OptHttpheader (h : list bytes) | OptUrl (u : bytes).

Definition post_options (sess : HttpReqSession) : list CurlOpt :=
  if bool_decide (reqData sess = []) then []
  else [OptPostfieldsize (Z.of_nat (length (reqData sess))); OptPostfields (reqData sess)].

(** The method; [None] is the unsupported type. *)
Definition method_options (sess : HttpReqSession) : option (list CurlOpt) :=
  match reqType sess with
  | CURLHTTP_GET => Some [OptHttpget]
  | CURLHTTP_POST => Some (OptPost :: post_options sess)
  | CURLHTTP_PUT => Some [OptCustomrequest (lit "PUT")]
  | CURLHTTP_DELETE => Some [OptCustomrequest (lit "DELETE")]
  | CURLHTTP_UPDATE => Some [OptCustomrequest (lit "UPDATE")]
  | CURLHTTP_UNKONOW => None
  end.

Definition new_options (sess : HttpReqSession) : list CurlOpt :=
  [OptTimeout (dataOutSecond sess); OptConnectTimeout (connOutSecond sess); OptNosignal] ++
  (if isKeepAlive_ sess =? 0 then [OptFreshConnect; OptForbidReuse]
   else [OptTcpKeepalive; OptTcpKeepidle 20; OptTcpKeepintvl 10]) ++
  [OptSslVerifypeer (if sslVerifyPeer sess =? 0 then 0 else 1);
   OptSslVerifyhost (if sslVeriftHost sess =? 0 then 0 else 1); OptAutoreferer;
   OptCainfo (if bool_decide (cacertFile sess = []) then lit "./cacert.pem" else cacertFile sess);
   OptCookiesession; OptHttpVersion (httpVer sess)].

(** [sprintf(headBuf, "%s", head)] into 1024 bytes. *)
Definition header_fits (head : bytes) : bool := (strIntLen (Some head) <? 1024)%nat.

(** What a request needs of curl before it runs: all options of a new handle, or
    those that change on a used one; [None] for an unsupported type. *)
Definition start_options (fresh : bool) (sess : HttpReqSession) : option (list CurlOpt) :=
  if fresh then
    l ← method_options sess;
    Some (new_options sess ++ l ++
          (if bool_decide (headVec sess = []) then [] else [OptHttpheader (headVec sess)]) ++
          [OptUrl (reqUrl sess)])
  else
    Some (match reqType sess with CURLHTTP_POST => post_options sess | _ => [] end).

Definition fail (s : nat) (code : Z) (msg : bytes) (w : World) : World :=
  respond s (set_session s (λ q, setHttpReqErrorMsg msg (setHttpResponseCode code q)) w).

(** [requetHttpServer(conn, sess)]: the second half, for the connection [c]. *)
Definition start_transfer (i c s : nat) (k : ConnInfo) (e : ServeEnv) (io : AsyncCurlHttp) (w : World) : World :=
  let k := connInfoSetOutSecond (now_second e) (connInfoSetGlobal true (connInfoSetReqinfo (Some s) k)) in
  let w := set_conn c k w in
  let w := set_session s (setHttpReqMicroSecond (now_micro e)) w in
  set_io i (if curl_multi_add_ok e then io <| multi ::= cons c |> else io) w.

Definition requetHttpServer (i : nat) (conn : option nat) (s : nat) (e : ServeEnv) (w : World) : Outcome () :=
  match asyncCurlHttpPtrVect w !! i, sessions w !! s with
  | Some (Some io), Some sess =>
      match conn with
      | None =>
          let k := ConnInfo_new (ioThreadIndex io) in
          let '(ret, k) := connInfoInit (init_malloc_ok e) (curl_easy_init_ok e) k in
          if ret <? 0 then Done () (fail s (-1) (lit "connInfo init error") w)
          else
            match connInfoSetReqUrl (url_malloc_ok e) (reqUrl sess) k with
            | None => Undefined
            | Some (ret, k) =>
                if ret <? 0 then Done () (fail s (-1) (lit "connInfo req url error") w)
                else
                  match start_options true sess with
                  | None => Done () (fail s (-2) (lit "connInfo httpRequestType no support") w)
                  | Some _ =>
                      if forallb header_fits (headVec sess) then
                        let k := connInfoSetHeader (headVec sess) k in
                        let c := length (conns w) in
                        let w := w <| conns ::= (.++ [k]) |> in
                        let io := io <| connVect ::= (.++ [c]) |> in
                        Done () (start_transfer i c s k e io w)
                      else Undefined
                  end
            end
      | Some c =>
          match conns w !! c with
          | None => Undefined
          | Some k => Done () (start_transfer i c s k e io w)
          end
      end
  | _, _ => Undefined
  end.

(** One round of the loop of [requetHttpServer()]: [false] when the queue is empty. *)
Definition serve_round (i : nat) (e : ServeEnv) (w : World) : Outcome bool :=
  match asyncCurlHttpPtrVect w !! i with
  | Some (Some io) =>
      match reqQueuePtr io with
      | None => Undefined
      | Some q =>
          let io := io <| queueSize ::= λ n, if n =? 0 then 0 else n - 1 |> in
          let '(req, q) := dealRequest q in
          let w := set_io i (io <| reqQueuePtr := Some q |>) w in
          match req with
          | None => Done false w
          | Some s =>
              match sessions w !! s with
              | None => Undefined
              | Some sess =>
                  match requetHttpServer i (connInfo_ sess) s e w with
                  | Done _ w => Done true w | Waits => Waits | Undefined => Undefined
                  end
              end
          end
      end
  | _ => Undefined
  end.

(** The end of a transfer: the handle leaves curl, the request goes to the response
    queue, the connection to the queue of [url]. *)
Definition finish_conn (garbage : Z) (i c : nat) (url : bytes) (w : World) : Outcome () :=
  match asyncCurlHttpPtrVect w !! i, conns w !! c with
  | Some (Some io), Some k =>
      match reqInfo k, connInfoReinit k with
      | Some s, Some k' =>
          let '(isNew, k') := connInfoIsNew k' in
          let w := if global k then set_io i (io <| multi ::= filter (.≠ c) |>) w else w in
          let w := respond s w in
          let w := set_conn c k' w in
          Done () (w <| urlMap_ := (returnUrlConnInfo garbage url c isNew (urlMap_ w)).2 |>)
      | _, _ => Undefined
      end
  | _, _ => Undefined
  end.

(** [check_multi_info] on one [CURLMSG_DONE] message for connection [c]. *)
Record DoneMsg := { msg_result : Z; response_code : Z; eff_url : bytes; done_micro : Z }.
Definition complete (garbage : Z) (i c : nat) (msg : DoneMsg) (w : World) : Outcome () :=
  match conns w !! c with
  | None => Undefined
  | Some k =>
      match reqInfo k with
      | None => Undefined
      | Some s =>
          let code q :=
            if msg_result msg =? 0 then setHttpResponseCode (s32 (response_code msg)) q
            else
              setHttpReqErrorMsg (match error k with None => [] | Some b => take (strIntLen (Some b)) b end)
                (setHttpResponseCode (s32 (msg_result msg)) q) in
          let body q := if bool_decide (rspdata k = []) then q else setHttpResponstBody (rspdata k) q in
          let w := set_session s (λ q, body (setHttpRspMicroSecond (done_micro msg) (code q))) w in
          finish_conn garbage i c (eff_url msg) w
      end
  end.

(** [httpcliConnForEach] on one connection of the vector. *)
Definition expire_conn (garbage : Z) (i c : nat) (seconds : Z) (w : World) : Outcome () :=
  match conns w !! c with
  | None => Undefined
  | Some k =>
      if negb (outSecond k =? 0) && (ABSOLUTELY_OUT_HTTP_SECOND <? s64 (seconds - outSecond k)) then
        match reqUrl_ k with
        | None => Undefined
        | Some b => finish_conn garbage i c (take (strIntLen (Some b)) b) w
        end
      else Done () w
  end.

(** [write_cb] *)
Definition write_cb (c : nat) (data : bytes) (w : World) : Outcome Z :=
  match conns w !! c with
  | None => Undefined
  | Some k =>
      let realsize := Z.of_nat (length data) in
      match reqInfo k with
      | Some s =>
          match sessions w !! s with
          | None => Undefined
          | Some sess =>
              if rspCode sess =? 0 then
                Done realsize (set_conn c (if bool_decide (rspdata k = []) then connInfoSetRspbody data k
                                           else connInfoAppendRspbody data k) w)
              else Done realsize w
          end
      | None => Done realsize w
      end
  end.

(** [handleRead], before and after the work on the queue; the result of the second
    part tells whether the dispatch loop is left. *)
Definition handleRead_begin (io : AsyncCurlHttp) : option (Z * AsyncCurlHttp) :=
  let one := wakeupFd_ io in
  if one =? 0 then None
  else Some (one, io <| wakeupFd_ := 0 |> <| queueSize ::= λ n, u64 (n + one / 2) |>).
Definition handleRead_end (one : Z) (io : AsyncCurlHttp) : bool * AsyncCurlHttp :=
  if negb (one mod 2 =? 0) || (stopped io =? 1) then
    (still_running io =? 0, io <| stopped := 1 |>)
  else (false, io).

(** [timeExpireCb], [curlEventFdcb]: curl reports how many transfers still run; the
    end of [check_multi_info] tells whether the dispatch loop is left. *)
Definition curl_multi_socket_action (running : Z) (io : AsyncCurlHttp) : AsyncCurlHttp :=
  io <| still_running := running |>.
Definition check_multi_end (io : AsyncCurlHttp) : bool :=
  (still_running io =? 0) && negb (stopped io =? 0).

(** ** The callback thread *)

Definition callback_take (w : World) : Outcome () :=
  match dealResponse (responses w) with
  | None => Waits
  | Some (None, q) => Done () (w <| responses := q |>)
  | Some (Some s, q) => Done () (w <| responses := q |> <| responding ::= cons s |>)
  end.
(** A request is counted as answered, then its callback runs. *)
Definition callback_count (s : nat) (w : World) : World := (asyncRsp w) <| calling ::= cons s |>.
Definition callback_run (s : nat) (w : World) : World := w <| called ::= cons s |>.

End HttpCli.
