(* ===== verification/HttpCliProofs.v ===== *)
(** * Correctness of the HTTP client ([HttpCli])

    The client as a transition system over its callers, IO threads and callback
    thread: every accepted request is in exactly one place until its callback
    runs, the count of requests on their way is right when the client waits for it
    to leave, and no request waits in a queue without a wake-up. *)

From Stdlib Require Import Permutation.
From S2P Require Import Prelude CLib Incommon Atomic TcpCli HttpReq HttpCli.

Module HttpCliProofs.
Import HttpReq HttpCli.

(** ** The transition system *)

(** Steps of callers, IO threads and curl with the requests that were taken. *)
Inductive work : World → World → Prop :=
  | work_route g s i l1 l2 w w' :
      starting w = l1 ++ (s, None) :: l2 → request_route g s w = Done i w' →
      work w (w' <| starting := l1 ++ (s, Some i) :: l2 |>)
  | work_push s i l1 l2 w w' :
      starting w = l1 ++ (s, Some i) :: l2 → curlhttpRequest i s w = Done 0 w' →
      work w (w' <| starting := l1 ++ l2 |>)
  | work_refuse s i l1 l2 w w' :
      starting w = l1 ++ (s, Some i) :: l2 → curlhttpRequest i s w = Done (-1) w' →
      work w (request_reject s (w' <| starting := l1 ++ l2 |>))
  | work_wake i l1 l2 w w' :
      waking w = l1 ++ i :: l2 → request_wakeup i w = Done () w' → work w (w' <| waking := l1 ++ l2 |>)
  | work_serve i io e b w w' :
      asyncCurlHttpPtrVect w !! i = Some (Some io) → (0 < queueSize io) →
      serve_round i e w = Done b w' → work w w'
  | work_running i io n w :
      asyncCurlHttpPtrVect w !! i = Some (Some io) →
      work w (set_io i (curl_multi_socket_action n io) w)
  | work_complete g i io c msg w w' :
      asyncCurlHttpPtrVect w !! i = Some (Some io) → c ∈ multi io →
      complete g i c msg w = Done () w' → work w w'
  | work_expire g i io c seconds w w' :
      asyncCurlHttpPtrVect w !! i = Some (Some io) → c ∈ connVect io →
      expire_conn g i c seconds w = Done () w' → work w w'
  | work_data c data r w w' : write_cb c data w = Done r w' → work w w'.

Inductive step : World → World → Prop :=
  | step_work w w' : work w w' → step w w'
  | step_init n mq w : 0 <= n < 2 ^ 31 → step w (curlHttpCliInit n mq w).2
  (* an IO object is made for a thread that has none, or whose [asyncCurlReady] failed *)
  | step_thread i w p :
      asyncCurlHttpPtrVect w !! i = Some p → (∀ io, p = Some io → reqQueuePtr io = None) →
      step w (io_thread_new i w)
  | step_ready i ok r w w' io :
      asyncCurlHttpPtrVect w !! i = Some (Some io) → reqQueuePtr io = None →
      asyncCurlReady i ok w = Done r w' → step w w'
  | step_return w : step w (io_thread_return w)
  | step_exit_begin w : step w (exit_begin w)
  | step_exit_wait w w' : exit_wait w = Done () w' → step w w'
  | step_exit_io i w : step w (exit_io i w)
  | step_exit_call w : step w (exit_call w)
  (* curlHttpRequest; [connInfo_] is for the client's own use *)
  | step_enter w : step w (request_enter w).2
  | step_begin req micro w w' :
      connInfo_ req = None → (0 < entering w)%nat → request_begin req micro w = Done () w' → step w w'
  | step_wake_thread i w : step w (httpIoWake i w)
  (* [handleRead] *)
  | step_read i io io' one w :
      asyncCurlHttpPtrVect w !! i = Some (Some io) → handleRead_begin io = Some (one, io') →
      step w (set_io i io' w)
  | step_read_end i io one w :
      asyncCurlHttpPtrVect w !! i = Some (Some io) → step w (set_io i (handleRead_end one io).2 w)
  (* the callback thread *)
  | step_take w w' : callback_take w = Done () w' → step w w'
  | step_count s l1 l2 w :
      responding w = l1 ++ s :: l2 → step w (callback_count s (w <| responding := l1 ++ l2 |>))
  | step_call s l1 l2 w :
      calling w = l1 ++ s :: l2 → step w (callback_run s (w <| calling := l1 ++ l2 |>)).

Definition reachable (w : World) : Prop := rtc step CurlHttpCli_new w.

(** ** Where requests are

    Conservation is stated for every weight [μ] of requests: with [μ] counting one
    request it says where that request is, with [μ = 1] how many there are. *)

Definition weight (μ : nat → nat) (l : list nat) : nat := sum_list (μ <$> l).

Definition queue_of (p : option AsyncCurlHttp) : list nat :=
  match p with
  | Some io => match reqQueuePtr io with Some q => queue_ q | None => [] end
  | None => []
  end.
Definition carried (k : ConnInfo) : list nat := option_list (reqInfo k).
Definition queued (w : World) : list nat := concat (queue_of <$> asyncCurlHttpPtrVect w).
Definition inflight (w : World) : list nat := concat (carried <$> conns w).

(** Counted as answered; the callback may have to run yet. *)
Definition answered (w : World) : list nat := calling w ++ called w.
Definition pending (μ : nat → nat) (w : World) : nat :=
  weight μ (fst <$> starting w) + weight μ (queued w) + weight μ (inflight w) +
  weight μ (rsp_queue_ (responses w)) + weight μ (responding w).

Lemma weight_app μ l1 l2 : weight μ (l1 ++ l2) = (weight μ l1 + weight μ l2)%nat.
Proof. unfold weight. rewrite fmap_app. induction l1; cbn in *; lia. Qed.
Lemma weight_cons μ x l : weight μ (x :: l) = (μ x + weight μ l)%nat.
Proof. done. Qed.

Lemma weight_option μ o :
  weight μ (option_list o) = match o with Some s => μ s | None => 0%nat end.
Proof. destruct o; [cbn; lia|done]. Qed.

(** Replacing one element of a list of holders. *)
Lemma weight_insert {A} μ (f : A → list nat) l i x y :
  l !! i = Some x →
  (weight μ (concat (f <$> <[i := y]> l)) + weight μ (f x) =
   weight μ (concat (f <$> l)) + weight μ (f y))%nat.
Proof.
  revert i. induction l as [|z l IH]; intros [|i] Hi; [done..| |].
  - injection Hi as ->. change (<[0%nat := y]> (x :: l)) with (y :: l).
    rewrite !fmap_cons. cbn [concat]. rewrite !weight_app. lia.
  - change (<[S i := y]> (z :: l)) with (z :: <[i := y]> l). specialize (IH i Hi).
    rewrite !fmap_cons. cbn [concat]. rewrite !weight_app. lia.
Qed.

Lemma weight_alter {A} μ (f : A → list nat) g l i :
  (∀ x, f (g x) = f x) → weight μ (concat (f <$> alter g i l)) = weight μ (concat (f <$> l)).
Proof.
  intros Hg. f_equal. f_equal. revert i. induction l as [|z l IH]; intros [|i]; cbn; [done..| |].
  - by rewrite Hg.
  - f_equal. apply IH.
Qed.

(** An operation that only moves requests from one place to another. *)
Record keeps (w w' : World) : Prop := {
  keeps_pending μ : pending μ w' = pending μ w;
  keeps_called : answered w' = answered w;
  keeps_rejected : rejected w' = rejected w;
  keeps_sessions : connInfo_ <$> sessions w' = connInfo_ <$> sessions w;
  keeps_num : asyncNum w' = asyncNum w;
  keeps_threads : ioThreadNum w' = ioThreadNum w;
  keeps_vect : length (asyncCurlHttpPtrVect w') = length (asyncCurlHttpPtrVect w)
}.

Lemma keeps_refl w : keeps w w.
Proof. by split. Qed.
Lemma keeps_trans w1 w2 w3 : keeps w1 w2 → keeps w2 w3 → keeps w1 w3.
Proof. intros [] []. split; intros; congruence. Qed.

Lemma keeps_set_io i p io w :
  asyncCurlHttpPtrVect w !! i = Some p → queue_of (Some io) = queue_of p → keeps w (set_io i io w).
Proof.
  intros Hi Hq. split; try done; [|apply length_insert]. intros μ. unfold pending. cbn -[weight queued].
  pose proof (weight_insert μ queue_of _ _ _ (Some io) Hi) as E. rewrite Hq in E.
  unfold queued at 1. cbn -[weight queue_of]. unfold queued. unfold inflight. cbn -[weight queue_of]. lia.
Qed.

Lemma keeps_set_conn c k k' w :
  conns w !! c = Some k → reqInfo k' = reqInfo k → keeps w (set_conn c k' w).
Proof.
  intros Hc Hq. split; try done. intros μ. unfold pending, inflight, queued. cbn -[weight].
  pose proof (weight_insert μ carried _ _ _ k' Hc) as E. unfold carried in E at 2 4. rewrite Hq in E.
  cbn -[weight] in *. lia.
Qed.

Lemma keeps_set_session s f w :
  (∀ q, connInfo_ (f q) = connInfo_ q) → keeps w (set_session s f w).
Proof.
  intros Hf. split; try done. cbn. apply list_eq. intros j. rewrite !list_lookup_fmap.
  destruct (decide (s = j)) as [<-|]; [|by rewrite list_lookup_alter_ne].
  rewrite list_lookup_alter_eq. destruct (sessions w !! s); [|done]. cbn. by rewrite Hf.
Qed.

(** The same, but with a request [s] arriving from outside the places. *)
Record arrives (s : nat) (w w' : World) : Prop := {
  arrives_pending μ : pending μ w' = (pending μ w + μ s)%nat;
  arrives_called : answered w' = answered w;
  arrives_rejected : rejected w' = rejected w;
  arrives_sessions : connInfo_ <$> sessions w' = connInfo_ <$> sessions w;
  arrives_num : asyncNum w' = asyncNum w;
  arrives_threads : ioThreadNum w' = ioThreadNum w;
  arrives_vect : length (asyncCurlHttpPtrVect w') = length (asyncCurlHttpPtrVect w)
}.

Lemma keeps_arrives s w1 w2 w3 : keeps w1 w2 → arrives s w2 w3 → arrives s w1 w3.
Proof.
  intros [K1 K2 K3 K4 K5 K6 K7] [A1 A2 A3 A4 A5 A6 A7]. split; [|congruence..]. intros μ. by rewrite A1, K1.
Qed.
Lemma arrives_keeps s w1 w2 w3 : arrives s w1 w2 → keeps w2 w3 → arrives s w1 w3.
Proof.
  intros [A1 A2 A3 A4 A5 A6 A7] [K1 K2 K3 K4 K5 K6 K7]. split; [|congruence..]. intros μ. by rewrite K1, A1.
Qed.

Lemma arrives_respond s w : arrives s w (respond s w).
Proof.
  split; try done. intros μ. unfold pending. cbn -[weight queued inflight].
  rewrite weight_app. change (weight μ [s]) with (μ s + 0)%nat.
  unfold queued, inflight. cbn -[weight]. lia.
Qed.

Lemma arrives_fail s code msg w : arrives s w (fail s code msg w).
Proof. eapply keeps_arrives; [|apply arrives_respond]; by apply keeps_set_session. Qed.

Lemma arrives_set_conn s c k k' w :
  conns w !! c = Some k → reqInfo k = None → reqInfo k' = Some s → arrives s w (set_conn c k' w).
Proof.
  intros Hc Hn Hs. split; try done. intros μ. unfold pending, inflight, queued. cbn -[weight].
  pose proof (weight_insert μ carried _ _ _ k' Hc) as E. unfold carried in E at 2 4.
  rewrite Hn, Hs, !weight_option in E. lia.
Qed.

Lemma keeps_new_conn k w : reqInfo k = None → keeps w (w <| conns ::= (.++ [k]) |>).
Proof.
  intros Hk. split; try done. intros μ. unfold pending, inflight, queued. cbn -[weight].
  rewrite fmap_app, concat_app, weight_app. cbn [fmap list_fmap concat]. unfold carried at 2.
  rewrite Hk, app_nil_r, weight_option. lia.
Qed.

Lemma arrives_start i c s k e io p w :
  conns w !! c = Some k → reqInfo k = None → asyncCurlHttpPtrVect w !! i = Some p →
  queue_of (Some io) = queue_of p → arrives s w (start_transfer i c s k e io w).
Proof.
  intros Hc Hn Hi Hq. unfold start_transfer.
  eapply arrives_keeps; [apply (arrives_set_conn s c k
    (connInfoSetOutSecond (now_second e) (connInfoSetGlobal true (connInfoSetReqinfo (Some s) k)))); done|].
  eapply keeps_trans; [by apply (keeps_set_session s (setHttpReqMicroSecond (now_micro e)))|].
  eapply (keeps_set_io i p); [done|].
  rewrite <- Hq. by destruct (curl_multi_add_ok e).
Qed.

Lemma connInfoInit_reqInfo m e k r k' : connInfoInit m e k = (r, k') → reqInfo k' = reqInfo k.
Proof. unfold connInfoInit. repeat case_match; intros; by simplify_eq. Qed.

Lemma connInfoSetReqUrl_reqInfo m url k r k' :
  connInfoSetReqUrl m url k = Some (r, k') → reqInfo k' = reqInfo k.
Proof.
  assert (Hf : ∀ k k', fill_url url k = Some k' → reqInfo k' = reqInfo k).
  { intros k1 k2. unfold fill_url. repeat case_match; intros; by simplify_eq. }
  unfold connInfoSetReqUrl. intros E. repeat case_match; simplify_eq/=;
    try (match goal with H : fill_url _ _ ≫= _ = Some _ |- _ =>
           apply bind_Some in H as (? & H%Hf & ?) end); by simplify_eq/=.
Qed.

Lemma arrives_requet i s e w w' :
  requetHttpServer i None s e w = Done () w' → arrives s w w'.
Proof.
  unfold requetHttpServer. intros E.
  destruct (asyncCurlHttpPtrVect w !! i) as [[io|]|] eqn:Hi; [|done..].
  destruct (sessions w !! s) as [sess|]; [|done].
  destruct (connInfoInit _ _ _) as [r k] eqn:E1. apply connInfoInit_reqInfo in E1.
  destruct (r <? 0); [injection E as <-; apply arrives_fail|].
  destruct (connInfoSetReqUrl _ _ _) as [[r' k']|] eqn:E2; [|done]. apply connInfoSetReqUrl_reqInfo in E2.
  destruct (r' <? 0); [injection E as <-; apply arrives_fail|].
  destruct (start_options true sess); [|injection E as <-; apply arrives_fail].
  destruct (forallb _ _); [|done]. injection E as <-.
  assert (Hk : reqInfo (connInfoSetHeader (headVec sess) k') = None)
    by (change (reqInfo k' = None); by rewrite E2, E1).
  eapply keeps_arrives; [by apply (keeps_new_conn (connInfoSetHeader (headVec sess) k'))|].
  eapply arrives_start; [|done|done|done]. cbn. by apply list_lookup_middle.
Qed.

Lemma keeps_serve i e b w w' :
  Forall (λ q, connInfo_ q = None) (sessions w) → serve_round i e w = Done b w' → keeps w w'.
Proof.
  intros Hn E. unfold serve_round in E.
  destruct (asyncCurlHttpPtrVect w !! i) as [[io|]|] eqn:Hi; [|done..].
  destruct (reqQueuePtr io) as [q|] eqn:Hq; [|done].
  destruct (queue_ q) as [|s l] eqn:El; unfold dealRequest in E; rewrite El in E.
  { injection E as <- <-. eapply keeps_set_io; [done|]. cbn. by rewrite Hq. }
  match type of E with context [set_io i ?x w] => set (io' := x) in * end.
  change (sessions (set_io i io' w)) with (sessions w) in E.
  destruct (sessions w !! s) as [sess|] eqn:Hs; [|done].
  rewrite Forall_lookup in Hn. rewrite (Hn _ _ Hs) in E.
  destruct (requetHttpServer _ _ _ _ _) as [[] w1| |] eqn:E1; [|done..]. injection E as <- <-.
  apply arrives_requet in E1 as [A1 A2 A3 A4 A5 A6 A7].
  split; [|by rewrite ?A2, ?A3, ?A4, ?A5, ?A6..|rewrite A7; apply length_insert].
  intros μ. rewrite A1. unfold pending, queued, inflight. cbn -[weight queue_of].
  pose proof (weight_insert μ queue_of _ _ _ (Some io') Hi) as W.
  unfold queue_of in W at 2 4. cbn [reqQueuePtr io'] in W.
  change (reqQueuePtr io') with (Some (q <| queue_ := l |>)) in W. rewrite Hq, El, weight_cons in W.
  cbn -[weight queue_of] in W. lia.
Qed.

Lemma finish_conn_keeps g i c url w w' : finish_conn g i c url w = Done () w' → keeps w w'.
Proof.
  unfold finish_conn. intros E. destruct (asyncCurlHttpPtrVect w !! i) as [[io|]|] eqn:Hi; [|done..].
  destruct (conns w !! c) as [k|] eqn:Hc; [|done]. destruct (reqInfo k) as [s|] eqn:Hs; [|done].
  destruct (connInfoReinit k) as [k'|] eqn:Hk; [|done]. cbn [connInfoIsNew] in E.
  assert (Hn : reqInfo (k' <| isNew_ := false |>) = None).
  { unfold connInfoReinit in Hk. destruct (error k); [|done]. by injection Hk as <-. }
  injection E as <-.
  match goal with |- keeps w (set_with urlMap_ _ (set_conn c ?k1 (respond s ?w1))) =>
    set (w1' := w1); assert (K : keeps w w1') end.
  { unfold w1'. destruct (global k); [|apply keeps_refl]. by eapply keeps_set_io. }
  assert (Hc1 : conns w1' !! c = Some k) by (unfold w1'; by destruct (global k)).
  eapply keeps_trans; [exact K|]. clearbody w1'. clear K.
  split; try done. intros μ. unfold pending, inflight, queued. cbn -[weight].
  match goal with |- context [<[c := ?y]> (conns w1')] =>
    pose proof (weight_insert μ carried _ _ _ y Hc1) as W; unfold carried in W at 2 4;
    assert (Hy : reqInfo y = None) by exact Hn; rewrite Hy, Hs in W end.
  rewrite !weight_option in W. rewrite weight_app.
  change (weight μ [s]) with (μ s + 0)%nat. lia.
Qed.

Lemma complete_keeps g i c msg w w' : complete g i c msg w = Done () w' → keeps w w'.
Proof.
  unfold complete. intros E. destruct (conns w !! c) as [k|]; [|done]. destruct (reqInfo k); [|done].
  eapply keeps_trans; [|by eapply finish_conn_keeps]. apply keeps_set_session.
  intros q. by destruct (bool_decide _), (_ =? _).
Qed.

Lemma expire_keeps g i c seconds w w' : expire_conn g i c seconds w = Done () w' → keeps w w'.
Proof.
  unfold expire_conn. intros E. destruct (conns w !! c) as [k|]; [|done].
  destruct (_ && _); [|injection E as <-; apply keeps_refl]. destruct (reqUrl_ k); [|done].
  by eapply finish_conn_keeps.
Qed.

Lemma write_keeps c data r w w' : write_cb c data w = Done r w' → keeps w w'.
Proof.
  unfold write_cb. intros E. destruct (conns w !! c) as [k|] eqn:Hc; [|done].
  destruct (reqInfo k) eqn:Hr; [|injection E as <- <-; apply keeps_refl].
  destruct (sessions w !! _) as [sess|]; [|done].
  destruct (rspCode sess =? 0); injection E as <- <-; [|apply keeps_refl].
  eapply keeps_set_conn; [done|]. by destruct (bool_decide _).
Qed.

(** ** Conservation *)

Definition one (_ : nat) : nat := 1.

Record Inv (w : World) : Prop := {
  inv_all μ : (pending μ w + weight μ (answered w) + weight μ (rejected w) =
               weight μ (seq 0 (length (sessions w))))%nat;
  inv_num : asyncNum w = s64 (Z.of_nat (pending one w));
  inv_user : Forall (λ q, connInfo_ q = None) (sessions w);
  inv_vect : Z.of_nat (length (asyncCurlHttpPtrVect w)) = ioThreadNum w
}.

Lemma HttpInv_new : Inv CurlHttpCli_new.
Proof. by split. Qed.

Lemma sessions_length w w' :
  connInfo_ <$> sessions w' = connInfo_ <$> sessions w → length (sessions w') = length (sessions w).
Proof. intros E. by rewrite <- (length_fmap connInfo_), E, length_fmap. Qed.

Lemma Inv_keeps w w' : Inv w → keeps w w' → Inv w'.
Proof.
  intros [Ia In Iu Iv] [K1 K2 K3 K4 K5 K6 K7]. split.
  - intros μ. by rewrite K1, K2, K3, (sessions_length _ _ K4).
  - by rewrite K5, K1.
  - apply (Forall_fmap connInfo_ (λ o, o = None)). rewrite K4. by apply (Forall_fmap connInfo_ (λ o, o = None)).
  - by rewrite K6, K7.
Qed.

(** Worlds that differ in other fields only. *)
Lemma keeps_fields w w' :
  starting w' = starting w → asyncCurlHttpPtrVect w' = asyncCurlHttpPtrVect w → conns w' = conns w →
  responses w' = responses w → responding w' = responding w → calling w' = calling w → called w' = called w →
  rejected w' = rejected w → sessions w' = sessions w → asyncNum w' = asyncNum w →
  ioThreadNum w' = ioThreadNum w → keeps w w'.
Proof.
  intros E1 E2 E3 E4 E5 E6 E7 E8 E9 E10 E11. split; [|unfold answered; congruence|congruence..|by rewrite E2].
  intros μ. unfold pending, queued, inflight. by rewrite E1, E2, E3, E4, E5.
Qed.

Lemma starting_weight μ (l1 l2 : list (nat * option nat)) s o :
  weight μ (fst <$> (l1 ++ (s, o) :: l2)) = (μ s + weight μ (fst <$> (l1 ++ l2)))%nat.
Proof. rewrite !fmap_app, fmap_cons, !weight_app, weight_cons. cbn [fst]. lia. Qed.

Lemma s64_succ z : s64 (s64 z + 1) = s64 (z + 1).
Proof. apply s64_add_l. Qed.
Lemma s64_pred z : (decrementAndGet s64 (s64 z)).2 = s64 (z - 1).
Proof.
  unfold decrementAndGet. rewrite addAndGet_run. cbn [snd]. change (s64 (-1)) with (-1).
  rewrite s64_add_l. done.
Qed.

Lemma Inv_begin req micro r w w' :
  Inv w → connInfo_ req = None → request_begin req micro w = Done r w' → Inv w'.
Proof.
  intros [Ia In Iu Iv] Hr E. unfold request_begin in E.
  destruct (must_wait w); [done|]. injection E as <- <-.
  assert (P : ∀ μ, pending μ ((asyncReq (w <| entering ::= pred |> <| sessions ::= (.++ [setHttpReqInsertMicroSecond micro (HttpReqSession_copy req)]) |>))
    <| starting ::= cons (length (sessions w), None) |>) = (μ (length (sessions w)) + pending μ w)%nat).
  { intros μ. unfold pending, queued, inflight. cbn -[weight]. rewrite weight_cons. lia. }
  split.
  - intros μ. specialize (Ia μ). rewrite P. unfold answered in *. cbn -[weight pending seq].
    rewrite length_app. cbn [length]. rewrite seq_app, !weight_app, <- Ia, !weight_app. cbn -[weight pending].
    change (weight μ [length (sessions w)]) with (μ (length (sessions w)) + 0)%nat. lia.
  - rewrite P. cbn -[pending]. rewrite incrementAndGet_run. cbn [snd]. rewrite In, s64_succ. f_equal.
    change (one (length (sessions w))) with 1%nat. lia.
  - cbn. apply Forall_app. split; [done|]. by repeat constructor.
  - done.
Qed.

Lemma keeps_route g s i o l1 l2 w w' :
  starting w = l1 ++ (s, o) :: l2 → request_route g s w = Done i w' →
  keeps w (w' <| starting := l1 ++ (s, Some i) :: l2 |>).
Proof.
  intros Hl E. unfold request_route in E. destruct (sessions w !! s) as [q|]; [|done].
  assert (Hk : ∀ m n, keeps w (w <| urlMap_ := m |> <| lastIndex := n |> <| starting := l1 ++ (s, Some i) :: l2 |>)).
  { intros m n. split; try done. intros μ. unfold pending, queued, inflight.
    cbn -[weight]. by rewrite Hl, !starting_weight. }
  destruct (connInfoFromUrl _ _) as [[[c|] m]|]; [| |done].
  - destruct (conns w !! c); [|done]. injection E as <- <-. exact (Hk m (lastIndex w)).
  - destruct (addUrlConnInfo _ _ _ _) as [r m']. injection E as E <-. rewrite <- E. rewrite E. apply Hk.
Qed.

Lemma push_keeps s i r l1 l2 w w' :
  starting w = l1 ++ (s, Some i) :: l2 → curlhttpRequest i s w = Done r w' →
  (r = 0 ∧ keeps w (w' <| starting := l1 ++ l2 |>)) ∨ (r = -1 ∧ ∃ l, w' = w <| waking := l |>).
Proof.
  intros Hl E. unfold curlhttpRequest in E.
  destruct (asyncCurlHttpPtrVect w !! i) as [[io|]|] eqn:Hi; [|injection E as <- <-; right; split; [done|by exists (waking w); destruct w]|done].
  destruct (reqQueuePtr io) as [q|] eqn:Hq; [|injection E as <- <-; right; by split; [|eexists]].
  destruct (httpRequest s q) as [q'|] eqn:Hh; [|done]. injection E as <- <-. left. split; [done|].
  split; try done; [|apply length_insert].
  intros μ. unfold pending, queued, inflight. cbn -[weight queue_of]. rewrite Hl, starting_weight.
  pose proof (weight_insert μ queue_of _ _ _ (Some (io <| reqQueuePtr := Some q' |>)) Hi) as W.
  unfold queue_of in W at 2 4. cbn [reqQueuePtr set_with] in W. rewrite Hq in W.
  change (reqQueuePtr (io <| reqQueuePtr := Some q' |>)) with (Some q') in W.
  unfold httpRequest in Hh. destruct (isFull q); [done|]. injection Hh as <-.
  cbn -[weight queue_of] in W. rewrite weight_app in W.
  change (weight μ [s]) with (μ s + 0)%nat in W. lia.
Qed.

Lemma Inv_refuse s o l1 l2 w :
  Inv w → starting w = l1 ++ (s, o) :: l2 → Inv (request_reject s (w <| starting := l1 ++ l2 |>)).
Proof.
  intros [Ia In Iu Iv] Hl.
  assert (P : ∀ μ, (μ s + pending μ (request_reject s (w <| starting := l1 ++ l2 |>)) = pending μ w)%nat).
  { intros μ. unfold pending, queued, inflight. cbn -[weight]. rewrite Hl, starting_weight. lia. }
  split; try done.
  - intros μ. specialize (Ia μ). specialize (P μ). unfold answered in *. cbn -[weight pending seq] in *. rewrite weight_cons. lia.
  - specialize (P one). cbn -[pending]. rewrite In, s64_pred. f_equal. change (one s) with 1%nat in P. lia.
Qed.

Lemma Inv_count s l1 l2 w :
  Inv w → responding w = l1 ++ s :: l2 → Inv (callback_count s (w <| responding := l1 ++ l2 |>)).
Proof.
  intros [Ia In Iu Iv] Hl.
  assert (P : ∀ μ, (μ s + pending μ (callback_count s (w <| responding := l1 ++ l2 |>)) = pending μ w)%nat).
  { intros μ. unfold pending, queued, inflight. cbn -[weight].
    rewrite Hl, !weight_app, weight_cons. lia. }
  split; try done.
  - intros μ. specialize (Ia μ). specialize (P μ). unfold answered in *. rewrite weight_app in *. cbn -[weight pending seq] in *. rewrite weight_cons. lia.
  - specialize (P one). cbn -[pending]. rewrite In, s64_pred. f_equal. change (one s) with 1%nat in P. lia.
Qed.
Lemma Inv_call s l1 l2 w :
  Inv w → calling w = l1 ++ s :: l2 → Inv (callback_run s (w <| calling := l1 ++ l2 |>)).
Proof.
  intros [Ia In Iu Iv] Hl. split; try done. intros μ. rewrite <- Ia.
  change (pending μ (callback_run _ _)) with (pending μ w). unfold answered. cbn -[weight pending].
  rewrite Hl, !weight_app, !weight_cons. lia.
Qed.

Lemma keeps_take w w' : callback_take w = Done () w' → keeps w w'.
Proof.
  unfold callback_take, dealResponse. destruct (rsp_queue_ (responses w)) as [|s l] eqn:El.
  - destruct (isExit_ _ =? 0); [done|]. intros [= <-]. by apply keeps_fields.
  - intros [= <-]. split; try done. intros μ. unfold pending, queued, inflight. cbn -[weight].
    rewrite El, !weight_cons. lia.
Qed.

Lemma keeps_alter_io f i w :
  (∀ p, queue_of (f p) = queue_of p) → keeps w (w <| asyncCurlHttpPtrVect ::= alter f i |>).
Proof.
  intros Hf. split; try done; [|apply length_alter]. intros μ. unfold pending, queued, inflight.
  cbn -[weight]. by rewrite weight_alter.
Qed.
Lemma keeps_request_wakeup i w w' : request_wakeup i w = Done () w' → keeps w w'.
Proof.
  unfold request_wakeup. intros E. destruct (asyncCurlHttpPtrVect w !! i) as [[io|]|] eqn:Hi; [|done..].
  injection E as <-. by eapply keeps_set_io.
Qed.
Lemma work_keeps w w' :
  Inv w → work w w' →
  keeps w w' ∨ ∃ s i l1 l2 l, starting w = l1 ++ (s, Some i) :: l2 ∧ w' = request_reject s (w <| waking := l |> <| starting := l1 ++ l2 |>).
Proof.
  intros HI Hs. destruct Hs as
    [g s i l1 l2 w w' Hl E|s i l1 l2 w w' Hl E|s i l1 l2 w w' Hl E|i l1 l2 w w' Hl E|i io e b w w' Hi Hq E|i io n w Hi
    |g i io c msg w w' Hi Hc E|g i io c secs w w' Hi Hc E|c data r w w' E].
  - left. by eapply keeps_route.
  - destruct (push_keeps _ _ _ _ _ _ _ Hl E) as [[_ K]|[? _]]; [by left|done].
  - destruct (push_keeps _ _ _ _ _ _ _ Hl E) as [[? _]|[_ [l ->]]]; [done|]. right. by exists s, i, l1, l2, l.
  - left. apply keeps_request_wakeup in E. eapply keeps_trans; [done|]. by apply keeps_fields.
  - left. eapply keeps_serve; [apply (inv_user _ HI)|done].
  - left. by eapply keeps_set_io.
  - left. by eapply complete_keeps.
  - left. by eapply expire_keeps.
  - left. by eapply write_keeps.
Qed.
(** Only new requests add to what is on its way. *)
Lemma step_keeps w w' :
  Inv w → step w w' →
  keeps w w' ∨ Inv w' ∧ ((0 < entering w)%nat ∨ (pending one w' <= pending one w)%nat).
Proof.
  intros HI Hs. destruct Hs as
    [w w' Hs|n mq w Hn|i w p Hp Hnone|i ok r w w' io Hi Hq E|w|w|w w' E|i w|w|w|req micro w w' Hr He E|i w
    |i io io' o w Hi E|i io o w Hi|w w' E|s l1 l2 w Hl|s l1 l2 w Hl].
  - destruct (work_keeps _ _ HI Hs) as [K|(s & i & l1 & l2 & l & Hl & ->)]; [by left|right].
    split; [eapply Inv_refuse; [|exact Hl]; eapply Inv_keeps; [done|]; by apply keeps_fields|right].
    unfold pending, queued, inflight. cbn -[weight]. rewrite Hl, starting_weight. lia.
  - unfold curlHttpCliInit. destruct (Z.ltb_spec 0 (ioThreadNum w)); [left; apply keeps_refl|right].
    destruct HI as [Ia In Iu Iv]. assert (Hv : asyncCurlHttpPtrVect w = []) by (apply nil_length_inv; lia).
    cbn [snd]. match goal with |- Inv ?w' ∧ _ => assert (P : ∀ μ, pending μ w' = pending μ w) end.
    { intros μ. unfold pending, queued, inflight. cbn -[weight]. rewrite Hv. do 4 f_equal. f_equal.
      induction (Z.to_nat n); [done|]. cbn. done. }
    split; [|right; by rewrite P]. split; [intros μ; by rewrite P|by rewrite P|done|]. cbn. rewrite length_replicate. lia.
  - left. eapply keeps_set_io; [done|]. destruct p as [io|]; [|done]. cbn. by rewrite (Hnone io).
  - left. unfold asyncCurlReady in E. rewrite Hi in E. destruct ok; injection E as <- <-; [|apply keeps_refl].
    apply (keeps_trans _ (set_io i (io <| reqQueuePtr := Some (HttpRequestQueue_new (maxQueueSize_ io)) |>
      <| connVect := [] |>) w)); [|by apply keeps_fields].
    eapply keeps_set_io; [done|]. cbn. by rewrite Hq.
  - left. unfold io_thread_return. destruct (negb _); by apply keeps_fields.
  - left. by apply keeps_fields.
  - left. unfold exit_wait in E. destruct (_ || _); [done|]. injection E as <-. by apply keeps_fields.
  - left. apply keeps_alter_io. by intros [io|].
  - left. by split.
  - left. unfold request_enter. destruct (negb _); by apply keeps_fields.
  - right. split; [by eapply Inv_begin|by left].
  - left. apply keeps_alter_io. by intros [io|].
  - left. eapply keeps_set_io; [done|]. unfold handleRead_begin in E. destruct (_ =? 0); [done|]. by injection E as <- <-.
  - left. eapply keeps_set_io; [done|]. unfold handleRead_end. by destruct (_ || _).
  - left. by apply keeps_take.
  - right. split; [by apply Inv_count|right]. unfold pending, queued, inflight. cbn -[weight].
    rewrite Hl, !weight_app, weight_cons. lia.
  - right. split; [by apply Inv_call|by right].
Qed.
Lemma HttpInv_step w w' : Inv w → step w w' → Inv w'.
Proof. intros HI Hs. destruct (step_keeps _ _ HI Hs) as [K|[H _]]; [by eapply Inv_keeps|done]. Qed.
Lemma step_pending w w' : Inv w → step w w' → entering w = 0%nat → (pending one w' <= pending one w)%nat.
Proof. intros HI Hs He. destruct (step_keeps _ _ HI Hs) as [K|[_ [?|?]]]; [by rewrite (keeps_pending _ _ K)|lia|done]. Qed.

Lemma HttpInv_reachable w : reachable w → Inv w.
Proof.
  intros Hr. unfold reachable in Hr. remember CurlHttpCli_new as w0 eqn:E.
  assert (HI : Inv w0) by (subst; apply HttpInv_new). clear E.
  induction Hr as [|? ? ? Hs _ IH]; [done|]. apply IH. by eapply HttpInv_step.
Qed.

(** ** A run of the client, for examples *)

Definition http_world {A} (o : Outcome A) : World :=
  match o with Done _ w => w | _ => CurlHttpCli_new end.
Definition http_io (i : nat) (w : World) : AsyncCurlHttp :=
  match asyncCurlHttpPtrVect w !! i with Some (Some io) => io | _ => AsyncCurlHttp_new 0 0 end.

Definition get_request : HttpReqSession :=
  HttpReqSession_new CURLHTTP11 CURLHTTP_GET (lit "http://10.0.0.1/") [].
Definition all_well : ServeEnv :=
  {| init_malloc_ok := true; curl_easy_init_ok := true; url_malloc_ok := true;
     curl_multi_add_ok := true; now_second := 1000; now_micro := 1000000000 |}.
Definition done_200 : DoneMsg :=
  {| msg_result := 0; response_code := 200; eff_url := lit "http://10.0.0.1/"; done_micro := 1000500000 |}.

Definition run_ready : World :=
  http_world (asyncCurlReady 0 true (io_thread_new 0 (curlHttpCliInit 1 10 CurlHttpCli_new).2)).
Definition run_entered : World := (request_enter run_ready).2.
Definition run_begun : World := http_world (request_begin get_request 999000000 run_entered).
Definition run_routed : World :=
  (http_world (request_route 0 0 run_begun)) <| starting := [(0%nat, Some 0%nat)] |>.
Definition run_pushed : World := (http_world (curlhttpRequest 0 0 run_routed)) <| starting := [] |>.
Definition run_woken : World := (http_world (request_wakeup 0 run_pushed)) <| waking := [] |>.
Definition run_read_io : AsyncCurlHttp :=
  match handleRead_begin (http_io 0 run_woken) with Some (_, io) => io | None => http_io 0 run_woken end.
Definition run_read : World := set_io 0 run_read_io run_woken.
Definition run_served : World := http_world (serve_round 0 all_well run_read).
Definition run_completed : World := http_world (complete 0 0 0 done_200 run_served).
Definition run_taken : World := http_world (callback_take run_completed).
Definition run_counted : World := callback_count 0 (run_taken <| responding := [] |>).
Definition run_called : World := callback_run 0 (run_counted <| calling := [] |>).

Ltac http_eval := vm_compute; reflexivity.

Lemma run_read_reachable : reachable run_read.
Proof.
  eapply rtc_l; [apply (step_init 1 10); lia|].
  eapply rtc_l; [by apply (step_thread 0%nat _ None)|].
  eapply rtc_l; [by apply (step_ready 0%nat true 0 _ run_ready (AsyncCurlHttp_new 0 10))|].
  eapply rtc_l; [apply step_enter|].
  eapply rtc_l; [apply (step_begin get_request 999000000 run_entered run_begun); [done|by constructor|http_eval]|].
  eapply rtc_l; [apply step_work, (work_route 0 0%nat 0%nat [] [] _ (http_world (request_route 0 0 run_begun))); http_eval|].
  eapply rtc_l; [apply step_work, (work_push 0%nat 0%nat [] [] _ (http_world (curlhttpRequest 0 0 run_routed))); http_eval|].
  eapply rtc_l; [apply step_work, (work_wake 0%nat [] [] _ (http_world (request_wakeup 0 run_pushed))); http_eval|].
  apply rtc_once. apply (step_read 0%nat (http_io 0 run_woken) run_read_io 2 run_woken); http_eval.
Qed.

Lemma run_called_reachable : reachable run_called.
Proof.
  unfold reachable. etransitivity; [apply run_read_reachable|].
  eapply rtc_l; [apply step_work, (work_serve 0%nat (http_io 0 run_read) all_well true _ run_served); http_eval|].
  eapply rtc_l; [apply step_work, (work_complete 0 0%nat (http_io 0 run_served) 0%nat done_200 _ run_completed)|].
  { http_eval. }
  { vm_compute. constructor. }
  { http_eval. }
  eapply rtc_l; [apply (step_take _ run_taken); http_eval|].
  eapply rtc_l; [apply (step_count 0%nat [] []); http_eval|].
  apply rtc_once. apply (step_call 0%nat [] []). http_eval.
Qed.

(** A second request for the same URL takes the idle connection out of the queue
    of the URL, but does not hand it to the IO thread, which makes another one. *)
Definition run_again : World :=
  let w := http_world (request_begin get_request 0 (request_enter run_called).2) in
  let w := (http_world (request_route 0 1 w)) <| starting := [] |> in
  let w := http_world (request_wakeup 0 (http_world (curlhttpRequest 0 1 w))) in
  let w := set_io 0 (match handleRead_begin (http_io 0 w) with Some (_, io) => io | None => http_io 0 w end) w in
  http_world (serve_round 0 all_well w).

Lemma idle_connection_not_reused :
  (conn_queue_ <$> urlMap_ run_called !! lit "http://10.0.0.1/") = Some [0%nat] ∧
  (conn_queue_ <$> urlMap_ run_again !! lit "http://10.0.0.1/") = Some [] ∧
  (reqInfo <$> conns run_again) = [None; Some 1%nat].
Proof. split_and!; http_eval. Qed.

(** ** Every request is answered once *)

Definition that (s x : nat) : nat := if decide (x = s) then 1 else 0.

Lemma weight_that_count s l : weight (that s) l = length (filter (λ x, x = s) l).
Proof.
  induction l as [|x l IH]; [done|]. rewrite weight_cons, filter_cons, IH. unfold that.
  by case_decide.
Qed.

Lemma weight_Permutation l1 l2 : (∀ s, weight (that s) l1 = weight (that s) l2) → l1 ≡ₚ l2.
Proof.
  intros H. apply (Permutation_count_occ Nat.eq_dec). intros s.
  assert (E : ∀ l, count_occ Nat.eq_dec l s = weight (that s) l).
  { induction l as [|x l IH]; [done|]. rewrite weight_cons, <- IH. cbn. unfold that.
    destruct (Nat.eq_dec x s), (decide (x = s)); done || lia. }
  by rewrite !E.
Qed.

Lemma weight_that_seq s n : weight (that s) (seq 0 n) = if decide (s < n)%nat then 1%nat else 0%nat.
Proof.
  induction n as [|n IH]; [done|]. rewrite seq_S, weight_app, IH. cbn -[that].
  change (weight (that s) [n]) with (that s n + 0)%nat. unfold that. repeat case_decide; lia.
Qed.

Lemma weight_one l : weight one l = length l.
Proof. unfold weight. change one with (λ _ : nat, 1%nat). rewrite sum_list_fmap_const. lia. Qed.

(** C3: Each request is answered exactly once: whatever the callers, IO threads, curl
    and the callback thread do, a request taken by [curlHttpRequest] is in exactly
    one place: on its way (being placed, in a queue, in a transfer, in the response
    queue, with the callback thread), or answered by its callback, or refused to
    the caller; so no callback runs twice and none is lost. *)
Theorem request_answered_once (w : World) (s : nat) :
  reachable w → (s < length (sessions w))%nat →
  (pending (that s) w + length (filter (λ x, x = s) (calling w ++ called w)) +
   length (filter (λ x, x = s) (rejected w)) = 1)%nat.
Proof.
  intros HI%HttpInv_reachable Hs. pose proof (inv_all _ HI (that s)) as E.
  rewrite weight_that_seq, decide_True, !weight_that_count in E by done. done.
Qed.

Lemma request_answered_once_witness :
  called run_called = [0%nat] ∧
  (pending (that 0) run_called + length (filter (λ x, x = 0%nat) (calling run_called ++ called run_called)) +
   length (filter (λ x, x = 0%nat) (rejected run_called)) = 1)%nat.
Proof.
  split; [http_eval|]. apply (request_answered_once run_called 0 run_called_reachable).
  vm_compute. lia.
Defined.

(** [curlHttpCliExit] lets the threads go only in states in which every request has been counted as
    answered, or refused to its caller. *)
Lemma exit_waits w w' :
  reachable w → exit_wait w = Done () w' → Z.of_nat (length (sessions w)) < 2 ^ 63 →
  answered w ++ rejected w ≡ₚ seq 0 (length (sessions w)).
Proof.
  intros HI%HttpInv_reachable E Hn. unfold exit_wait in E.
  destruct (_ || _) eqn:Hb; [done|]. apply orb_false_iff in Hb as [_ Hb%Z.ltb_ge].
  pose proof (inv_all _ HI one) as E1. rewrite !weight_one, length_seq in E1.
  rewrite (inv_num _ HI), wrap_s_id in Hb by (unfold in_s; lia).
  assert (Hp : ∀ s, pending (that s) w = 0%nat).
  { intros s. assert (H0 : pending one w = 0%nat) by lia. unfold pending in *. rewrite !weight_one in H0.
    assert (Hz : ∀ l, length l = 0%nat → weight (that s) l = 0%nat) by (by intros [|]).
    rewrite !Hz by lia. done. }
  apply weight_Permutation. intros s. rewrite weight_app, <- (inv_all _ HI (that s)), Hp. done.
Qed.

(** ** Wake-ups

    The request queue, the eventfd and the count of work of one IO thread at the
    grain of their atomic steps. [placing] counts the callers between their push
    and their wake-up; [serving] holds while the thread runs the loop of
    [requetHttpServer()], which ends when the queue is empty or [queueSize] is used
    up. *)

Record Tok := { tio : AsyncCurlHttp; placing : nat; serving : bool }.

Inductive tok_step : Tok → Tok → Prop :=
  | tok_push io n b s q q' :
      reqQueuePtr io = Some q → httpRequest s q = Some q' →
      tok_step {| tio := io; placing := n; serving := b |}
        {| tio := io <| reqQueuePtr := Some q' |>; placing := S n; serving := b |}
  | tok_wake io n b :
      tok_step {| tio := io; placing := S n; serving := b |}
        {| tio := io <| wakeupFd_ ::= TcpCli.eventfd_write 2 |>; placing := n; serving := b |}
  | tok_tick io n b :
      tok_step {| tio := io; placing := n; serving := b |}
        {| tio := io <| wakeupFd_ ::= TcpCli.eventfd_write 2 |>; placing := n; serving := b |}
  | tok_exit io n b :
      tok_step {| tio := io; placing := n; serving := b |}
        {| tio := asyncCurlExit io; placing := n; serving := b |}
  | tok_read io io' n one :
      handleRead_begin io = Some (one, io') →
      tok_step {| tio := io; placing := n; serving := false |} {| tio := io'; placing := n; serving := true |}
  | tok_check io n :
      tok_step {| tio := io; placing := n; serving := false |} {| tio := io; placing := n; serving := true |}
  | tok_serve io n s q q' :
      reqQueuePtr io = Some q → 0 < queueSize io → dealRequest q = (Some s, q') →
      tok_step {| tio := io; placing := n; serving := true |}
        {| tio := io <| queueSize := queueSize io - 1 |> <| reqQueuePtr := Some q' |>;
           placing := n; serving := true |}
  | tok_empty io n q q' :
      reqQueuePtr io = Some q → 0 < queueSize io → dealRequest q = (None, q') →
      tok_step {| tio := io; placing := n; serving := true |}
        {| tio := io <| queueSize := queueSize io - 1 |> <| reqQueuePtr := Some q' |>;
           placing := n; serving := false |}
  | tok_done io n :
      queueSize io = 0 →
      tok_step {| tio := io; placing := n; serving := true |} {| tio := io; placing := n; serving := false |}.

(** An IO thread that has entered its dispatch loop. *)
Definition tok_start (maxqueue : Z) : Tok :=
  {| tio := (AsyncCurlHttp_new 0 maxqueue) <| reqQueuePtr := Some (HttpRequestQueue_new maxqueue) |>;
     placing := 0; serving := false |}.

Definition waiting (t : Tok) : Z := Z.of_nat (length (queue_of (Some (tio t)))).

Record TokInv (n : Z) (t : Tok) : Prop := {
  tok_range : 0 <= wakeupFd_ (tio t) ∧ 0 <= queueSize (tio t);
  tok_bound : wakeupFd_ (tio t) + 2 * queueSize (tio t) <= 2 * n;
  tok_enough : waiting t <= queueSize (tio t) + wakeupFd_ (tio t) / 2 + Z.of_nat (placing t);
  tok_idle : serving t = false → waiting t <= wakeupFd_ (tio t) / 2 + Z.of_nat (placing t)
}.

Lemma eventfd_write_add c one : 0 <= c → 0 < one <= 2 → c < 2 ^ 63 → TcpCli.eventfd_write one c = c + one.
Proof. intros. unfold TcpCli.eventfd_write. destruct (Z.ltb_spec (c + one) (2 ^ 64 - 1)); lia. Qed.

Lemma httpRequest_queue s q q' : httpRequest s q = Some q' → queue_ q' = queue_ q ++ [s].
Proof. unfold httpRequest. destruct (isFull q); [done|]. by intros [= <-]. Qed.

Lemma TokInv_step n t t' : TokInv n t → 0 <= n < 2 ^ 61 → tok_step t t' → TokInv (n + 1) t'.
Proof.
  intros [Hr Hb He Hi] Hn Hs. unfold waiting in *.
  destruct Hs as [io m b s q q' Hq Hp|io m b|io m b|io m b|io io' m o Ho|io m|io m s q q' Hq Hz Hd
    |io m q q' Hq Hz Hd|io m Hz]; cbn -[Z.of_nat Z.mul Z.div Z.add] in Hr, Hb, He, Hi.
  - apply httpRequest_queue in Hp. rewrite Hq in *.
    split; unfold waiting; cbn -[Z.of_nat Z.mul Z.div Z.add]; rewrite ?Hp, ?length_app; cbn [length]; [lia..|]. intros Hf. specialize (Hi Hf). lia.
  - pose proof (eventfd_write_add (wakeupFd_ io) 2 ltac:(lia) ltac:(lia) ltac:(lia)) as E.
    split; unfold waiting; cbn -[Z.of_nat Z.mul Z.div Z.add]; rewrite ?E; [lia|lia|dlia|]. intros Hf. specialize (Hi Hf). dlia.
  - pose proof (eventfd_write_add (wakeupFd_ io) 2 ltac:(lia) ltac:(lia) ltac:(lia)) as E.
    split; unfold waiting; cbn -[Z.of_nat Z.mul Z.div Z.add]; rewrite ?E; [lia|lia|dlia|]. intros Hf. specialize (Hi Hf). dlia.
  - pose proof (eventfd_write_add (wakeupFd_ io) 1 ltac:(lia) ltac:(lia) ltac:(lia)) as E.
    split; unfold waiting; cbn -[Z.of_nat Z.mul Z.div Z.add]; rewrite ?E; [lia|lia|dlia|]. intros Hf. specialize (Hi Hf). dlia.
  - unfold handleRead_begin in Ho. destruct (Z.eqb_spec (wakeupFd_ io) 0); [done|].
    injection Ho as <- <-.
    assert (Hu : u64 (queueSize io + wakeupFd_ io / 2) = queueSize io + wakeupFd_ io / 2)
      by (apply wrap_u_id; unfold in_u; dlia).
    split; unfold waiting; cbn -[Z.of_nat Z.mul Z.div Z.add]; rewrite ?Hu; [dlia..|done].
  - split; unfold waiting; cbn -[Z.of_nat Z.mul Z.div Z.add]; [lia|lia|lia|done].
  - rewrite Hq in *. unfold dealRequest in Hd. destruct (queue_ q) as [|x l] eqn:El; [done|].
    injection Hd as <- <-. cbn [length] in *. split; unfold waiting; cbn -[Z.of_nat Z.mul Z.div Z.add]; [lia|lia|lia|done].
  - rewrite Hq in *. unfold dealRequest in Hd. destruct (queue_ q) as [|x l] eqn:El; [|done].
    injection Hd as <-. split; unfold waiting; cbn -[Z.of_nat Z.mul Z.div Z.add]; rewrite ?El; cbn [length] in *; [lia|lia|dlia|]. intros _. dlia.
  - split; unfold waiting; cbn -[Z.of_nat Z.mul Z.div Z.add]; [lia|lia|lia|]. intros _. lia.
Qed.

(** C37: No request is forgotten in a queue: in every interleaving of callers, the
    periodic wake-up and the IO thread, when the IO thread is not serving and every
    caller has finished its wake-up, a request in the queue means that the eventfd
    holds a wake-up (at least 2) that the IO thread has yet to read. *)
Theorem http_no_lost_wakeup (maxqueue : Z) (n : nat) (t : Tok) :
  nsteps tok_step n (tok_start maxqueue) t → Z.of_nat n < 2 ^ 61 →
  serving t = false → placing t = 0%nat → queue_of (Some (tio t)) ≠ [] → 2 <= wakeupFd_ (tio t).
Proof.
  intros Hs Hn Hf Hp Hq. assert (HI : TokInv (Z.of_nat n) t).
  { clear Hf Hp Hq. revert t Hs. induction n as [|n IH]; intros t Hs.
    - inversion Hs; subst. split; cbn; [lia|lia|done|done].
    - apply nsteps_inv_r in Hs as (t1 & Hs1 & Hs). rewrite Nat2Z.inj_succ, <- Z.add_1_r.
      eapply TokInv_step; [apply IH; [lia|done]|lia|done]. }
  pose proof (tok_idle _ _ HI Hf) as Hi. pose proof (tok_range _ _ HI). unfold waiting in Hi.
  assert (0 < length (queue_of (Some (tio t))))%nat by (destruct (queue_of _); [done|cbn; lia]).
  rewrite Hp in Hi. dlia.
Qed.

Definition pushed_tok : Tok :=
  {| tio := (AsyncCurlHttp_new 0 5) <| reqQueuePtr := Some {| maxSize_ := 5; queue_ := [3%nat] |} |>
       <| wakeupFd_ := 2 |>; placing := 0; serving := false |}.

Lemma http_no_lost_wakeup_witness : 2 <= wakeupFd_ (tio pushed_tok).
Proof.
  refine (http_no_lost_wakeup 5 2 pushed_tok _ _ _ _ _); [|done..].
  eapply nsteps_l; [by apply (tok_push _ _ _ 3%nat (HttpRequestQueue_new 5) {| maxSize_ := 5; queue_ := [3%nat] |})|].
  eapply nsteps_l; [apply tok_wake|]. apply nsteps_O.
Defined.

End HttpCliProofs.
