(* ===== verification/HttpExit.v ===== *)
(** * The threads and the exit of the HTTP client ([src/curlHttpCli/src/CurlHttpCli.cpp])

    Where each thread of the client is: the callback thread, the one that wakes up the others
    every second, the IO threads, and the one that calls [curlHttpCliExit]. Steps of
    [HttpCliProofs] are taken by the threads that are at the right place. A thread
    waits on a condition until it is notified. *)

From S2P Require Import Prelude CLib Incommon Atomic TcpCli HttpReq HttpCli HttpCliProofs.

Module HttpExit.
Import HttpReq HttpCli HttpCliProofs.

(** [httpRspCallBackThread], in [dealResponse]: before the test of the queue, after it and
    still with the mutex, or in [notEmpty_.wait]; then with a request, before and after it is
    counted. *)
Inductive CallPc := CallTest | CallTested | CallSleeps | CallHolds (s : nat) | CallCounted (s : nat) | CallOver.
(** [httpCliIoThread] and its dispatch loop; [reading]: what [handleRead] read. *)
Inductive IoPc := IoMake | IoReady | IoLoop (reading : option Z) | IoLeft | IoOver.
#[export] Instance IoPc_dec : EqDecision IoPc.
Proof. solve_decision. Defined.
(** [curlHttpCliExit] *)
Inductive ExitPc := ExitNot | ExitWaits | ExitJoinsWake | ExitStopsIo (i : nat) | ExitNotifies | ExitJoinsCall | ExitWaitsIo | ExitOver.

(** [taken]: the requests taken before the threads were let go. *)
Record Client := { world : World; wake_over : bool; call : CallPc; ios : list IoPc; exiting : ExitPc; taken : nat }.
#[export] Instance eta_Client : Eta Client := λ r, {|
  world := world r; wake_over := wake_over r; call := call r; ios := ios r; exiting := exiting r; taken := taken r |}.
Definition Client_new : Client := {|
  world := CurlHttpCli_new; wake_over := false; call := CallTest; ios := []; exiting := ExitNot; taken := 0 |}.

(** [httpResponse]: it takes the mutex, and wakes up the callback thread. *)
Definition notified (w w' : World) (pc : CallPc) : option CallPc :=
  if decide (rsp_queue_ (responses w) = rsp_queue_ (responses w')) then Some pc
  else match pc with CallTested => None | CallSleeps => Some CallTest | _ => Some pc end.
(** The callback thread after a round. *)
Definition next_round (w : World) : CallPc := if threadExit w =? 0 then CallTest else CallOver.

Inductive run_step : Client → Client → Prop :=
  | run_init n mq c :
      0 <= n < 2 ^ 31 → ioThreadNum (world c) = 0 →
      run_step c (c <| world := (curlHttpCliInit n mq (world c)).2 |> <| ios := replicate (Z.to_nat n) IoMake |>)
  (* callers, requests and curl *)
  | run_enter c : run_step c (c <| world := (request_enter (world c)).2 |>)
  | run_begin req micro c w' :
      connInfo_ req = None → (0 < entering (world c))%nat → request_begin req micro (world c) = Done () w' →
      run_step c (c <| world := w' |>)
  | run_work c w' pc :
      work (world c) w' → notified (world c) w' (call c) = Some pc → run_step c (c <| world := w' |> <| call := pc |>)
  (* the thread of the wake-ups *)
  | run_tick i c : wake_over c = false → run_step c (c <| world := httpIoWake i (world c) |>)
  | run_wake_over c : threadExit (world c) ≠ 0 → run_step c (c <| wake_over := true |>)
  (* IO threads *)
  | run_make i p c :
      ios c !! i = Some IoMake → asyncCurlHttpPtrVect (world c) !! i = Some p → (∀ io, p = Some io → reqQueuePtr io = None) →
      run_step c (c <| world := io_thread_new i (world c) |> <| ios ::= <[i := IoReady]> |>)
  | run_ready i ok r io c w' :
      ios c !! i = Some IoReady → asyncCurlHttpPtrVect (world c) !! i = Some (Some io) → reqQueuePtr io = None →
      asyncCurlReady i ok (world c) = Done r w' →
      run_step c (c <| world := w' |> <| ios ::= <[i := if r =? 0 then IoLoop None else IoLeft]> |>)
  | run_read i io io' one c :
      ios c !! i = Some (IoLoop None) → asyncCurlHttpPtrVect (world c) !! i = Some (Some io) →
      handleRead_begin io = Some (one, io') →
      run_step c (c <| world := set_io i io' (world c) |> <| ios ::= <[i := IoLoop (Some one)]> |>)
  | run_read_end i io one c :
      ios c !! i = Some (IoLoop (Some one)) → asyncCurlHttpPtrVect (world c) !! i = Some (Some io) →
      run_step c (c <| world := set_io i (handleRead_end one io).2 (world c) |>
                    <| ios ::= <[i := if (handleRead_end one io).1 : bool then IoLeft else IoLoop None]> |>)
  | run_leave i io c :
      ios c !! i = Some (IoLoop None) → asyncCurlHttpPtrVect (world c) !! i = Some (Some io) → check_multi_end io = true →
      run_step c (c <| ios ::= <[i := IoLeft]> |>)
  | run_return i c :
      ios c !! i = Some IoLeft →
      run_step c (c <| world := io_thread_return (world c) |>
                    <| ios ::= <[i := if isExit (world c) =? 0 then IoMake else IoOver]> |>)
  (* the callback thread *)
  | run_test c :
      call c = CallTest → dealResponse (responses (world c)) = None → run_step c (c <| call := CallTested |>)
  | run_sleep c : call c = CallTested → run_step c (c <| call := CallSleeps |>)
  | run_nothing c q :
      call c = CallTest → dealResponse (responses (world c)) = Some (None, q) → run_step c (c <| call := next_round (world c) |>)
  | run_take c s q w' :
      call c = CallTest → dealResponse (responses (world c)) = Some (Some s, q) → callback_take (world c) = Done () w' →
      run_step c (c <| world := w' |> <| call := CallHolds s |>)
  | run_count c s :
      call c = CallHolds s →
      run_step c (c <| world := callback_count s ((world c) <| responding := [] |>) |> <| call := CallCounted s |>)
  | run_call c s :
      call c = CallCounted s →
      run_step c (c <| world := callback_run s ((world c) <| calling := [] |>) |> <| call := next_round (world c) |>)
  (* [curlHttpCliExit] *)
  | run_exit c : exiting c = ExitNot → run_step c (c <| world := exit_begin (world c) |> <| exiting := ExitWaits |>)
  | run_exit_wait c w' :
      exiting c = ExitWaits → exit_wait (world c) = Done () w' →
      run_step c (c <| world := w' |> <| exiting := ExitJoinsWake |> <| taken := length (sessions w') |>)
  | run_exit_join c : exiting c = ExitJoinsWake → wake_over c = true → run_step c (c <| exiting := ExitStopsIo 0 |>)
  | run_exit_io i c :
      exiting c = ExitStopsIo i → Z.of_nat i < ioThreadNum (world c) →
      run_step c (c <| world := exit_io i (world c) |> <| exiting := ExitStopsIo (S i) |>)
  | run_exit_call i c :
      exiting c = ExitStopsIo i → ioThreadNum (world c) <= Z.of_nat i →
      run_step c (c <| world := exit_call (world c) |> <| exiting := ExitNotifies |>)
  | run_exit_notify c :
      exiting c = ExitNotifies →
      run_step c (c <| call ::= λ pc, match pc with CallSleeps => CallTest | _ => pc end |> <| exiting := ExitJoinsCall |>)
  | run_exit_joined c : exiting c = ExitJoinsCall → call c = CallOver → run_step c (c <| exiting := ExitWaitsIo |>)
  | run_exit_free c w' :
      exiting c = ExitWaitsIo → exit_free (world c) = Done () w' → run_step c (c <| world := w' |> <| exiting := ExitOver |>).
(** Until [curlHttpCliExit] returns. *)
Definition step (c c' : Client) : Prop := exiting c ≠ ExitOver ∧ run_step c c'.
Definition reachable (c : Client) : Prop := rtc step Client_new c.

(** ** What requests leave alone *)

Definition control (w : World) :=
  (isExit w, threadExit w, exitIothread w, ioThreadNum w, responding w, calling w, called w, entering w).
Lemma finish_control g i c url w w' : finish_conn g i c url w = Done () w' → control w' = control w.
Proof. unfold finish_conn. intros E. repeat case_match; simplify_eq; done. Qed.
Lemma requet_control i o s e w w' : requetHttpServer i o s e w = Done () w' → control w' = control w.
Proof. unfold requetHttpServer. intros E. repeat case_match; simplify_eq; done. Qed.
Lemma work_control w w' : work w w' → control w' = control w.
Proof.
  destruct 1 as
    [g s i l1 l2 w w' Hl E|s i l1 l2 w w' Hl E|s i l1 l2 w w' Hl E|i l1 l2 w w' Hl E|i io e b w w' Hi Hq E|i io n w Hi
    |g i io c msg w w' Hi Hc E|g i io c secs w w' Hi Hc E|c data r w w' E]; try done.
  - unfold request_route in E. repeat case_match; simplify_eq; done.
  - unfold curlhttpRequest in E. repeat case_match; simplify_eq; done.
  - unfold curlhttpRequest in E. repeat case_match; simplify_eq; done.
  - unfold request_wakeup in E. repeat case_match; simplify_eq; done.
  - unfold serve_round in E. repeat case_match; simplify_eq; try done.
    match goal with H : requetHttpServer _ _ _ _ _ = Done ?u _ |- _ => destruct u; apply requet_control in H; by rewrite H end.
  - unfold complete in E. destruct (conns w !! c) as [k|]; [|done]. destruct (reqInfo k); [|done]. apply finish_control in E. by rewrite E.
  - unfold expire_conn in E. repeat case_match; simplify_eq; [by apply finish_control in E|done].
  - unfold write_cb in E. repeat case_match; simplify_eq; done.
Qed.

(** ** Every step is one of [HttpCliProofs] *)

Definition held (pc : CallPc) : list nat := match pc with CallHolds s => [s] | _ => [] end.
Definition counted (pc : CallPc) : list nat := match pc with CallCounted s => [s] | _ => [] end.
Record placed (c : Client) : Prop := {
  pl_held : responding (world c) = held (call c);
  pl_counted : calling (world c) = counted (call c) }.

Lemma run_world c c' :
  placed c → run_step c c' → exiting c' ≠ ExitOver → world c' = world c ∨ HttpCliProofs.step (world c) (world c').
Proof.
  intros [H1 H2]. destruct 1; intros Hx; cbn in *; try (by left); right; eauto using HttpCliProofs.step.
  - apply (step_count s [] []). by rewrite H1, H.
  - apply (step_call s [] []). by rewrite H2, H.
Qed.
Lemma notified_places w w' pc pc' : notified w w' pc = Some pc' → held pc' = held pc ∧ counted pc' = counted pc.
Proof. unfold notified. intros E. repeat case_match; by simplify_eq. Qed.
Lemma next_round_places w : held (next_round w) = [] ∧ counted (next_round w) = [].
Proof. unfold next_round. by case_match. Qed.
Lemma init_control n mq w : ioThreadNum w = 0 → control (curlHttpCliInit n mq w).2 = control (w <| ioThreadNum := n |>).
Proof. unfold curlHttpCliInit. intros ->. done. Qed.
Lemma take_control w w' s q :
  dealResponse (responses w) = Some (Some s, q) → callback_take w = Done () w' →
  control w' = control (w <| responding := s :: responding w |>).
Proof. unfold callback_take. intros ->. by intros [= <-]. Qed.
(** Steps other than of IO threads ... *)
Ltac control_of := repeat match goal with
  | H : work _ _ |- _ => apply work_control in H
  | H : callback_take _ = _, H' : dealResponse _ = _ |- _ => pose proof (take_control _ _ _ _ H' H); clear H
  | H : exit_wait _ = _ |- _ => unfold exit_wait in H; case_match; [done|]; injection H as <-
  | H : exit_free _ = _ |- _ => unfold exit_free in H; case_match; [|done]; injection H as <-
  | H : request_begin _ _ _ = _ |- _ => unfold request_begin in H; case_match; [done|]; injection H as <-
  | H : asyncCurlReady _ _ _ = _ |- _ => unfold asyncCurlReady in H; repeat case_match; simplify_eq
  end.

Lemma placed_step c c' : placed c → run_step c c' → placed c'.
Proof.
  intros [H1 H2]. destruct 1; control_of; cbn in *; try (by split).
  - unfold curlHttpCliInit. split; cbn; by case_match.
  - unfold request_enter. split; cbn; by case_match.
  - injection H as _ _ _ _ Er Ec _ _. destruct (notified_places _ _ _ _ H0) as [Eh Ed]. split; cbn; congruence.
  - unfold io_thread_return. split; cbn; by case_match.
  - rewrite H in H1, H2. by split.
  - rewrite H in H1, H2. by split.
  - rewrite H in H1, H2. destruct (next_round_places (world c)). cbn in *. split; cbn; congruence.
  - rewrite H in H1, H2. match goal with E : control _ = _ |- _ => injection E as _ _ _ _ Er Ec _ _ end. cbn in *. split; cbn; congruence.
  - rewrite H in H1, H2. split; cbn; [done|by rewrite H2].
  - destruct (next_round_places (world c)). rewrite H in H1, H2. cbn in *. split; cbn; congruence.
  - split; cbn; destruct (call c); done.
Qed.

(** ** The invariant *)

Definition phase (e : ExitPc) : nat :=
  match e with
  | ExitNot => 0 | ExitWaits => 1 | ExitJoinsWake => 2 | ExitStopsIo _ => 3 | ExitNotifies => 4
  | ExitJoinsCall => 5 | ExitWaitsIo => 6 | ExitOver => 7
  end.
Definition closed (w : World) : list nat := answered w ++ rejected w.
Definition over (l : list IoPc) : nat := length (filter (.= IoOver) l).
Record RunInv (c : Client) : Prop := {
  ri_world : exiting c ≠ ExitOver → HttpCliProofs.reachable (world c);
  ri_placed : placed c;
  ri_ios : Z.of_nat (length (ios c)) = ioThreadNum (world c) ∧ ioThreadNum (world c) < 2 ^ 31;
  ri_over : exitIothread (world c) = Z.of_nat (over (ios c));
  ri_closed s : (2 <= phase (exiting c))%nat → Z.of_nat (taken c) < 2 ^ 63 → (s < taken c)%nat → s ∈ closed (world c);
  ri_wake : (3 <= phase (exiting c))%nat → wake_over c = true;
  ri_call : (6 <= phase (exiting c))%nat → call c = CallOver;
  ri_gone : exiting c = ExitOver → Forall (.= IoOver) (ios c) }.

Lemma over_insert l i pc pc' : l !! i = Some pc → pc ≠ IoOver → over (<[i := pc']> l) = (over l + if decide (pc' = IoOver) then 1 else 0)%nat.
Proof.
  intros Hi Hpc. rewrite <- (take_drop_middle l i pc Hi) at 2. rewrite insert_take_drop by (by eapply lookup_lt_Some).
  unfold over. rewrite !filter_app, !filter_cons, (decide_False (P := pc = IoOver)) by done. rewrite !length_app. case_decide; cbn; lia.
Qed.
Lemma over_length l : (over l <= length l)%nat.
Proof. apply length_filter. Qed.
Lemma over_all l : over l = length l → Forall (.= IoOver) l.
Proof.
  induction l as [|pc l IH]; [done|]. unfold over. rewrite filter_cons. case_decide; cbn.
  - intros [= E]. constructor; [done|]. by apply IH.
  - intros E. pose proof (over_length l). unfold over in *. lia.
Qed.

Lemma work_closed w w' : work w w' → HttpCliProofs.Inv w → closed w ⊆ closed w'.
Proof.
  intros Hs HI. destruct (work_keeps _ _ HI Hs) as [K|(s & i & l1 & l2 & l & Hl & ->)]; unfold closed.
  - by rewrite (keeps_called _ _ K), (keeps_rejected _ _ K).
  - cbn. clear. set_solver.
Qed.
Lemma run_closed c c' : RunInv c → step c c' → closed (world c) ⊆ closed (world c').
Proof.
  intros HR [Hx Hs]. pose proof (HttpInv_reachable _ (ri_world _ HR Hx)) as HI. destruct (ri_placed _ HR) as [P1 P2].
  destruct Hs; try done; try (unfold closed, answered; control_of; done).
  - unfold curlHttpCliInit. cbn. by case_match.
  - unfold request_enter. cbn. by case_match.
  - by eapply work_closed.
  - unfold io_thread_return. cbn. by case_match.
  - unfold callback_take in *. rewrite H0 in H1. by injection H1 as <-.
  - unfold closed, answered. cbn. clear. set_solver.
  - unfold closed, answered. cbn. rewrite P2, H. clear. set_solver.
Qed.

Lemma RunInv_new : RunInv Client_new.
Proof. split; cbn; intros; first [done|apply rtc_refl|by split|lia|split; [done|lia]]. Qed.
Definition threads (w : World) : Z * Z := (ioThreadNum w, exitIothread w).
Lemma run_ios c c' :
  run_step c c' →
  (ios c' = ios c ∧ threads (world c') = threads (world c)) ∨
  (∃ i pc pc', ios c !! i = Some pc ∧ pc ≠ IoOver ∧ ios c' = <[i := pc']> (ios c) ∧ ioThreadNum (world c') = ioThreadNum (world c) ∧
     exitIothread (world c') = if decide (pc' = IoOver) then u32 (exitIothread (world c) + 1) else exitIothread (world c)) ∨
  (∃ n, 0 <= n < 2 ^ 31 ∧ ioThreadNum (world c) = 0 ∧ ios c' = replicate (Z.to_nat n) IoMake ∧ threads (world c') = (n, exitIothread (world c))).
Proof.
  destruct 1; try (by left).
  - right; right. exists n. split_and!; [lia|lia|done|done|]. cbn. unfold curlHttpCliInit. by rewrite H0.
  - left. unfold request_enter. cbn. by case_match.
  - left. by control_of.
  - left. control_of. injection H as _ _ H1 H2 _ _ _ _. unfold threads. cbn. by rewrite H1, H2.
  - right; left. by eexists i, IoMake, IoReady.
  - right; left. exists i, IoReady. eexists. split_and!; [done|done|done|..]; control_of; done.
  - right; left. by eexists i, _, _.
  - right; left. eexists i, _, _. split_and!; [done|done|done|done|]. cbn. by destruct (handleRead_end _ io).1.
  - right; left. by eexists i, _, _.
  - right; left. eexists i, _, _. split_and!; [done|done|done|..]; unfold io_thread_return; cbn; by destruct (_ =? 0).
  - left. control_of. by match goal with E : control _ = _ |- _ => injection E as _ _ H1 H2 _ _ _ _; unfold threads; cbn; rewrite H1, H2 end.
  - left. by control_of.
  - left. by control_of.
Qed.
Lemma RunInv_step c c' : RunInv c → step c c' → RunInv c'.
Proof.
  intros HR Hs. pose proof (run_closed _ _ HR Hs) as Hcl. destruct HR as [Hw Hp [Hl Hn] Ho Hc Hwk Hca Hg], Hs as [Hx Hs].
  specialize (Hw Hx). clear Hg. pose proof (HttpInv_reachable _ Hw) as HI.
  assert (Hio : (Z.of_nat (length (ios c')) = ioThreadNum (world c') ∧ ioThreadNum (world c') < 2 ^ 31) ∧
    exitIothread (world c') = Z.of_nat (over (ios c'))).
  { pose proof (over_length (ios c)). destruct (run_ios _ _ Hs) as [[E1 E2]|[(i & pc & pc' & Hi & Hpc & E1 & E2 & E3)|(n & Hn' & E0 & E1 & E2)]].
    - injection E2 as E2 E3. by rewrite E1, E2, E3.
    - rewrite E1, E2, E3, length_insert, (over_insert _ _ _ _ Hi Hpc), Ho. split; [done|].
      case_decide; [rewrite wrap_u_id by (unfold in_u; lia)|]; lia.
    - injection E2 as E2 E3. rewrite E1, E2, E3, length_replicate, Ho. split; [lia|]. assert (over (ios c) = 0)%nat as -> by lia.
      f_equal. generalize (Z.to_nat n) as k. induction k as [|k IH]; [done|]. unfold over in *. cbn. done. }
  destruct Hio as [Hio1 Hio2]. split; [|by eapply placed_step|done|done|..].
  - intros Hx'. destruct (run_world _ _ Hp Hs Hx') as [->|]; [done|]. by eapply rtc_r.
  - intros s Hph Ht Hlt. assert (Hnow : (taken c' = taken c ∧ (2 <= phase (exiting c))%nat) ∨
      exit_wait (world c) = Done () (world c') ∧ taken c' = length (sessions (world c'))).
    { destruct Hs; cbn in *; try (by left); try (by left; rewrite ?H; split; [done|cbn; lia]). by right. }
    destruct Hnow as [[E Hph']|[Hwait E]]; [rewrite E in *; by apply Hcl, Hc|].
    assert (Es : sessions (world c') = sessions (world c)) by (unfold exit_wait in Hwait; case_match; [done|]; by injection Hwait as <-).
    rewrite E, Es in *. apply Hcl. unfold closed. rewrite (exit_waits _ _ Hw Hwait Ht), elem_of_seq. lia.
  - clear Hcl Hw HI Hc. destruct Hs; cbn in *; auto; intros; try lia; apply Hwk; rewrite H; cbn; lia.
  - clear Hcl Hw HI Hc. destruct Hs; cbn in *; auto; intros; try lia.
    + unfold notified in *. rewrite Hca in * by done. case_match; by simplify_eq.
    + specialize (Hca ltac:(done)). congruence.
    + specialize (Hca ltac:(done)). congruence.
    + specialize (Hca ltac:(done)). congruence.
    + specialize (Hca ltac:(done)). congruence.
    + specialize (Hca ltac:(done)). congruence.
    + specialize (Hca ltac:(done)). congruence.
    + apply Hca. rewrite H. cbn. lia.
  - clear Hcl Hw Hc. destruct Hs; cbn in *; try done. intros _. unfold exit_free in H0. case_match eqn:E; [|done].
    apply Z.eqb_eq in E. apply over_all. rewrite Ho in E. lia.
Qed.
Lemma RunInv_reachable c : reachable c → RunInv c.
Proof.
  unfold reachable. generalize RunInv_new. generalize Client_new. intros c0 H0 Hr. induction Hr as [|? ? ? Hs _ IH]; [done|].
  apply IH. by eapply RunInv_step.
Qed.

(** C33: Leaving waits for everything: when [curlHttpCliExit] returns, every request that was taken
    before it let the threads go has had its callback run or was refused to its caller, and no
    thread of the client runs any more. *)
Theorem exit_waits_for_requests (c : Client) (s : nat) :
  reachable c → exiting c = ExitOver → Z.of_nat (taken c) < 2 ^ 63 →
  ((s < taken c)%nat → s ∈ called (world c) ++ rejected (world c)) ∧
  wake_over c = true ∧ call c = CallOver ∧ Forall (.= IoOver) (ios c).
Proof.
  intros HR%RunInv_reachable He Ht. destruct HR as [_ [_ Hp] _ _ Hc Hw Hca Hg]. rewrite He in *. cbn in *.
  specialize (Hca ltac:(lia)). rewrite Hca in Hp. split; [|by auto with lia]. intros Hs. specialize (Hc s ltac:(lia) Ht Hs).
  unfold closed, answered in Hc. by rewrite Hp in Hc.
Qed.

(** ** Runs *)

(** Who goes next; a caller, curl, the callback thread and the exit have one step to take. *)
Inductive Turn :=
  | Init (n mq : Z) | Enter | Begin (req : HttpReqSession) (micro : Z) | Route | Push | Wake
  | Serve (i : nat) (e : ServeEnv) | Complete (i c : nat) (msg : DoneMsg)
  | Tick (i : nat) | WakeOver | Make (i : nat) | Ready (i : nat) | Read (i : nat) | ReadEnd (i : nat) | Return (i : nat)
  | Callback | Exit.
Definition outcome {A} (o : Outcome A) : option World := match o with Done _ w => Some w | _ => None end.
Definition worked (c : Client) (w' : World) : option Client :=
  pc ← notified (world c) w' (call c); Some (c <| world := w' |> <| call := pc |>).
Definition io_of (c : Client) (i : nat) : option AsyncCurlHttp := mjoin (asyncCurlHttpPtrVect (world c) !! i).
Definition turn (t : Turn) (c : Client) : option Client :=
  let w := world c in
  match t with
  | Init n mq =>
      if decide (0 <= n < 2 ^ 31 ∧ ioThreadNum w = 0)
      then Some (c <| world := (curlHttpCliInit n mq w).2 |> <| ios := replicate (Z.to_nat n) IoMake |>) else None
  | Enter => Some (c <| world := (request_enter w).2 |>)
  | Begin req micro =>
      if decide (connInfo_ req = None ∧ (0 < entering w)%nat)
      then w' ← outcome (request_begin req micro w); Some (c <| world := w' |>) else None
  | Route =>
      match starting w with
      | (s, None) :: l =>
          match request_route 0 s w with Done i w' => worked c (w' <| starting := (s, Some i) :: l |>) | _ => None end
      | _ => None
      end
  | Push =>
      match starting w with
      | (s, Some i) :: l =>
          match curlhttpRequest i s w with Done 0 w' => worked c (w' <| starting := l |>) | _ => None end
      | _ => None
      end
  | Wake => match waking w with i :: l => w' ← outcome (request_wakeup i w); worked c (w' <| waking := l |>) | _ => None end
  | Serve i e => io ← io_of c i; if decide (0 < queueSize io) then w' ← outcome (serve_round i e w); worked c w' else None
  | Complete i k msg => io ← io_of c i; if decide (k ∈ multi io) then w' ← outcome (complete 0 i k msg w); worked c w' else None
  | Tick i => if wake_over c then None else Some (c <| world := httpIoWake i w |>)
  | WakeOver => if threadExit w =? 0 then None else Some (c <| wake_over := true |>)
  | Make i =>
      match ios c !! i, asyncCurlHttpPtrVect w !! i with
      | Some IoMake, Some None => Some (c <| world := io_thread_new i w |> <| ios ::= <[i := IoReady]> |>)
      | _, _ => None
      end
  | Ready i =>
      io ← io_of c i;
      match ios c !! i, reqQueuePtr io, asyncCurlReady i true w with
      | Some IoReady, None, Done 0 w' => Some (c <| world := w' |> <| ios ::= <[i := IoLoop None]> |>)
      | _, _, _ => None
      end
  | Read i =>
      io ← io_of c i;
      match ios c !! i, handleRead_begin io with
      | Some (IoLoop None), Some (one, io') => Some (c <| world := set_io i io' w |> <| ios ::= <[i := IoLoop (Some one)]> |>)
      | _, _ => None
      end
  | ReadEnd i =>
      io ← io_of c i;
      match ios c !! i with
      | Some (IoLoop (Some one)) =>
          Some (c <| world := set_io i (handleRead_end one io).2 w |>
                  <| ios ::= <[i := if (handleRead_end one io).1 : bool then IoLeft else IoLoop None]> |>)
      | _ => None
      end
  | Return i =>
      match ios c !! i with
      | Some IoLeft =>
          Some (c <| world := io_thread_return w |> <| ios ::= <[i := if isExit w =? 0 then IoMake else IoOver]> |>)
      | _ => None
      end
  | Callback =>
      match call c with
      | CallTest =>
          match dealResponse (responses w) with
          | None => Some (c <| call := CallTested |>)
          | Some (None, _) => Some (c <| call := next_round w |>)
          | Some (Some s, _) => w' ← outcome (callback_take w); Some (c <| world := w' |> <| call := CallHolds s |>)
          end
      | CallTested => Some (c <| call := CallSleeps |>)
      | CallHolds s => Some (c <| world := callback_count s (w <| responding := [] |>) |> <| call := CallCounted s |>)
      | CallCounted s => Some (c <| world := callback_run s (w <| calling := [] |>) |> <| call := next_round w |>)
      | CallSleeps | CallOver => None
      end
  | Exit =>
      match exiting c with
      | ExitNot => Some (c <| world := exit_begin w |> <| exiting := ExitWaits |>)
      | ExitWaits =>
          w' ← outcome (exit_wait w); Some (c <| world := w' |> <| exiting := ExitJoinsWake |> <| taken := length (sessions w') |>)
      | ExitJoinsWake => if wake_over c then Some (c <| exiting := ExitStopsIo 0 |>) else None
      | ExitStopsIo i =>
          if decide (Z.of_nat i < ioThreadNum w) then Some (c <| world := exit_io i w |> <| exiting := ExitStopsIo (S i) |>)
          else Some (c <| world := exit_call w |> <| exiting := ExitNotifies |>)
      | ExitNotifies =>
          Some (c <| call ::= λ pc, match pc with CallSleeps => CallTest | _ => pc end |> <| exiting := ExitJoinsCall |>)
      | ExitJoinsCall => match call c with CallOver => Some (c <| exiting := ExitWaitsIo |>) | _ => None end
      | ExitWaitsIo => w' ← outcome (exit_free w); Some (c <| world := w' |> <| exiting := ExitOver |>)
      | ExitOver => None
      end
  end.
Fixpoint turns (l : list Turn) (c : Client) : option Client :=
  match l with
  | [] => Some c
  | t :: l => match exiting c with ExitOver => None | _ => c' ← turn t c; turns l c' end
  end.

Lemma outcome_Some {A} (o : Outcome A) w : outcome o = Some w → ∃ a, o = Done a w.
Proof. destruct o; intros [= ->]. by eexists. Qed.
Lemma io_of_Some c i io : io_of c i = Some io → asyncCurlHttpPtrVect (world c) !! i = Some (Some io).
Proof. unfold io_of. by destruct (_ !! i) as [[]|]; intros [= ->]. Qed.
Lemma turn_step t c c' : turn t c = Some c' → run_step c c'.
Proof.
  unfold turn, worked. intros E.
  repeat (case_match || (apply bind_Some in E as (? & ? & E))); try done; simplify_eq;
    repeat match goal with
    | H : outcome _ = Some _ |- _ => apply outcome_Some in H as [? H]
    | u : () |- _ => destruct u
    | H : io_of _ _ = Some _ |- _ => apply io_of_Some in H
    | H : _ ∧ _ |- _ => destruct H
    end; subst.
  - by apply run_init.
  - apply run_enter.
  - by eapply run_begin.
  - eapply run_work; [|done]. by eapply (work_route _ _ _ []).
  - eapply run_work; [|done]. by eapply (work_push _ _ []).
  - eapply run_work; [|done]. by eapply (work_wake _ []).
  - eapply run_work; [|done]. by eapply work_serve.
  - eapply run_work; [|done]. by eapply work_complete.
  - by apply run_tick.
  - apply run_wake_over. by apply Z.eqb_neq.
  - by eapply run_make.
  - by eapply (run_ready _ _ 0).
  - by eapply run_read.
  - pose proof (run_read_end i _ _ c ltac:(done) ltac:(done)) as R. match goal with E : (handleRead_end _ _).1 = _ |- _ => by rewrite E in R end.
  - pose proof (run_read_end i _ _ c ltac:(done) ltac:(done)) as R. match goal with E : (handleRead_end _ _).1 = _ |- _ => by rewrite E in R end.
  - pose proof (run_return i c ltac:(done)) as R. match goal with E : (_ =? 0) = _ |- _ => by rewrite E in R end.
  - pose proof (run_return i c ltac:(done)) as R. match goal with E : (_ =? 0) = _ |- _ => by rewrite E in R end.
  - by eapply run_take.
  - by eapply run_nothing.
  - by apply run_test.
  - by apply run_sleep.
  - by apply run_count.
  - by apply run_call.
  - by apply run_exit.
  - by apply run_exit_wait.
  - by apply run_exit_join.
  - by apply run_exit_io.
  - eapply run_exit_call; [done|lia].
  - by apply run_exit_notify.
  - by apply run_exit_joined.
  - by apply run_exit_free.
Qed.
Lemma turns_run l c c' : turns l c = Some c' → rtc step c c'.
Proof.
  revert c. induction l as [|t l IH]; intros c E; [by injection E as ->|]. cbn in E.
  assert (Hx : exiting c ≠ ExitOver) by (intros Hx; by rewrite Hx in E).
  assert (∃ c1, turn t c = Some c1 ∧ turns l c1 = Some c') as (c1 & E1 & E2) by (destruct (exiting c); try done; by apply bind_Some in E).
  eapply rtc_l; [|by apply IH]. split; [done|]. by eapply turn_step.
Qed.

(** One IO thread, and one request from start to end; then the exit. *)
Definition start : list Turn := [Init 1 10; Make 0; Ready 0].
Definition sent : list Turn := [Enter; Begin get_request 999000000; Route; Push].
Definition finished : list Turn :=
  [Read 0; Serve 0 all_well; ReadEnd 0; Complete 0 0 done_200; Callback; Callback; Callback].
Definition leave : list Turn := [Exit; Exit; WakeOver; Exit; Exit; Exit; Read 0; ReadEnd 0; Return 0].
Definition all_left : list Turn := [Exit; Callback; Exit; Exit].
Definition client (l : list Turn) : Client := default Client_new (turns l Client_new).
Definition client_done : Client := client (start ++ sent ++ [Wake] ++ finished ++ leave ++ all_left).
Lemma client_reachable l : is_Some (turns l Client_new) → reachable (client l).
Proof. intros [c E]. unfold client. rewrite E. by eapply turns_run. Qed.

Lemma exit_waits_for_requests_witness :
  called (world client_done) = [0%nat] ∧ exiting client_done = ExitOver ∧ ios client_done = [IoOver] ∧
  (0%nat ∈ called (world client_done) ++ rejected (world client_done)) ∧ wake_over client_done = true.
Proof.
  assert (Hr : reachable client_done) by (apply client_reachable; by eexists; vm_compute).
  destruct (exit_waits_for_requests client_done 0 Hr ltac:(by vm_compute) ltac:(by vm_compute)) as (H1 & H2 & _).
  split_and!; [by vm_compute|by vm_compute|by vm_compute| |done]. apply H1. vm_compute. lia.
Defined.

(** ** Runs that go wrong *)

(** The IO thread may finish a request before its caller has woken it up; then the caller uses a
    freed IO object when the client has been left meanwhile. *)
Lemma late_wakeup :
  let c := client (start ++ sent ++ [Tick 0] ++ finished ++ leave ++ all_left) in
  reachable c ∧ exiting c = ExitOver ∧ waking (world c) = [0%nat] ∧ request_wakeup 0 (world c) = Undefined.
Proof. split; [apply client_reachable; by eexists; vm_compute|by vm_compute]. Qed.
(** A caller that found the client running before the exit began may queue its request after
    [curlHttpCliExit] has looked at the count: it is accepted and never answered. *)
Lemma late_request_lost :
  let c := client (start ++ [Enter; Exit; Exit; WakeOver; Exit; Exit; Exit; Begin get_request 0; Route; Push; Read 0; ReadEnd 0;
    Return 0] ++ all_left) in
  reachable c ∧ exiting c = ExitOver ∧ length (sessions (world c)) = 1%nat ∧ starting (world c) = [] ∧
  called (world c) ++ rejected (world c) = [].
Proof. split; [apply client_reachable; by eexists; vm_compute|by vm_compute]. Qed.

(** The notification of the exit is not sent under the mutex: it is lost on a callback thread that
    has tested the flag and does not wait yet. *)
Record deaf (c : Client) : Prop := {
  df_exit : exiting c = ExitJoinsCall;
  df_call : call c = CallSleeps;
  df_enter : entering (world c) = 0%nat ∧ isExit (world c) ≠ 0;
  df_none : pending one (world c) = 0%nat }.
Lemma run_opened c c' :
  run_step c c' → entering (world c) = 0%nat → isExit (world c) ≠ 0 → entering (world c') = 0%nat ∧ isExit (world c') ≠ 0.
Proof.
  intros Hs Hn Hi. destruct Hs; control_of; try done.
  - unfold curlHttpCliInit. cbn. by case_match.
  - unfold request_enter. cbn. rewrite (proj2 (Z.eqb_neq _ _)) by done. done.
  - lia.
  - injection H as Hi' _ _ _ _ _ _ Hn'. cbn. by rewrite Hi', Hn'.
  - unfold io_thread_return. cbn. by case_match.
  - match goal with E : control _ = _ |- _ => injection E as Hi' _ _ _ _ _ _ Hn' end. cbn in *. by rewrite Hi', Hn'.
Qed.
Lemma deaf_step c c' : RunInv c → deaf c → step c c' → deaf c'.
Proof.
  intros HR [He Hc [Hn Hi] Hp] [Hx Hs]. pose proof (HttpInv_reachable _ (ri_world _ HR Hx)) as HI.
  assert (Hx' : exiting c' = ExitJoinsCall) by (destruct Hs; try congruence; done).
  assert (Hp' : pending one (world c') = 0%nat).
  { destruct (run_world _ _ (ri_placed _ HR) Hs) as [->|Hw]; [congruence|done|]. pose proof (step_pending _ _ HI Hw Hn). lia. }
  split; [done| |by eapply run_opened|done].
  assert (Hrsp : ∀ w, pending one w = 0%nat → rsp_queue_ (responses w) = []).
  { intros w H. unfold pending in H. rewrite (weight_one (rsp_queue_ _)) in H. apply nil_length_inv. lia. }
  destruct Hs; try congruence; try done. cbn in *. unfold notified in H0. rewrite !Hrsp in H0 by done. rewrite decide_True in H0 by done. congruence.
Qed.
Lemma exit_notification_lost :
  ∃ c, reachable c ∧ ∀ c', rtc step c c' → exiting c' = ExitJoinsCall.
Proof.
  exists (client (start ++ [Callback; Exit; Exit; WakeOver; Exit; Exit; Exit; Exit; Callback])).
  assert (Hr : reachable (client (start ++ [Callback; Exit; Exit; WakeOver; Exit; Exit; Exit; Exit; Callback])))
    by (apply client_reachable; by eexists; vm_compute).
  split; [done|]. intros c' Hs.
  assert (Hd : deaf (client (start ++ [Callback; Exit; Exit; WakeOver; Exit; Exit; Exit; Exit; Callback]))) by (split; vm_compute; done).
  apply RunInv_reachable in Hr. induction Hs as [|c c1 c2 Hs _ IH]; [apply Hd|]. apply IH; [by eapply RunInv_step|by eapply deaf_step].
Qed.

(** An IO thread that has made no IO object yet gets no signal from the exit, and makes it later. *)
Definition unsignalled (p : option AsyncCurlHttp) : Prop :=
  match p with Some io => Z.Even (wakeupFd_ io) ∧ stopped io = 0 | None => True end.
Definition quiet (w : World) : Prop := Forall unsignalled (asyncCurlHttpPtrVect w).
Lemma quiet_io w i io : quiet w → asyncCurlHttpPtrVect w !! i = Some (Some io) → unsignalled (Some io).
Proof. intros Hq Hi. by eapply (Forall_lookup_1 _ _ _ _ Hq). Qed.
Lemma quiet_set_io w i io : quiet w → unsignalled (Some io) → quiet (set_io i io w).
Proof. intros Hq Hi. by apply Forall_insert. Qed.
Lemma even_wakeup io : unsignalled (Some io) → unsignalled (Some (wakeup io)).
Proof.
  intros [[k Hk] Hs]. split; [|done]. cbn. unfold TcpCli.eventfd_write. case_match; [|by exists k]. exists (k + 1). lia.
Qed.
Ltac quiet_set := match goal with
  | Hq : quiet ?w, Hi : asyncCurlHttpPtrVect ?w !! _ = Some (Some ?io) |- _ =>
      first [exact Hq|refine (Forall_insert _ _ _ _ Hq _); exact (quiet_io _ _ _ Hq Hi)]
  end.
Lemma finish_quiet g i c url w w' : quiet w → finish_conn g i c url w = Done () w' → quiet w'.
Proof. unfold finish_conn. intros Hq E. repeat case_match; simplify_eq; quiet_set. Qed.
Lemma requet_quiet i o s e w w' : quiet w → requetHttpServer i o s e w = Done () w' → quiet w'.
Proof.
  unfold requetHttpServer. intros Hq E. repeat case_match; simplify_eq; try exact Hq;
    unfold start_transfer; destruct (curl_multi_add_ok e); quiet_set.
Qed.
Lemma work_quiet w w' : quiet w → work w w' → quiet w'.
Proof.
  intros Hq Hs. destruct Hs as
    [g s i l1 l2 w w' Hl E|s i l1 l2 w w' Hl E|s i l1 l2 w w' Hl E|i l1 l2 w w' Hl E|i io e b w w' Hi Hn E|i io n w Hi
    |g i io c msg w w' Hi Hc E|g i io c secs w w' Hi Hc E|c data r w w' E].
  - unfold request_route in E. repeat case_match; simplify_eq; exact Hq.
  - unfold curlhttpRequest in E. repeat case_match; simplify_eq; quiet_set.
  - unfold curlhttpRequest in E. repeat case_match; simplify_eq; exact Hq.
  - unfold request_wakeup in E. destruct (asyncCurlHttpPtrVect w !! i) as [[io|]|] eqn:Hi; [|done..]. injection E as <-.
    apply (Forall_insert _ _ _ _ Hq). by eapply even_wakeup, quiet_io.
  - unfold serve_round in E. rewrite Hi in E. destruct (reqQueuePtr io); [|done]. destruct (dealRequest _) as [[s|] q].
    + destruct (sessions _ !! s); [|done]. destruct (requetHttpServer _ _ _ _ _) as [[] w1| |] eqn:E1; [|done..].
      injection E as _ <-. eapply requet_quiet; [|done]. quiet_set.
    + injection E as _ <-. quiet_set.
  - quiet_set.
  - unfold complete in E. destruct (conns w !! c) as [k|]; [|done]. destruct (reqInfo k); [|done]. by eapply finish_quiet in E.
  - unfold expire_conn in E. repeat case_match; simplify_eq; [by eapply finish_quiet|done].
  - unfold write_cb in E. repeat case_match; simplify_eq; exact Hq.
Qed.

Record missed (c : Client) : Prop := {
  ms_exit : exiting c = ExitWaitsIo;
  ms_threads : threads (world c) = (1, 0);
  ms_ios : ∃ o, ios c = [IoLoop o] ∧ ∀ n, o = Some n → Z.Even n;
  ms_quiet : quiet (world c) }.
Lemma lone_io (o : option Z) (i : nat) pc : [IoLoop o] !! i = Some pc → i = 0%nat ∧ pc = IoLoop o.
Proof. destruct i; by intros [= <-]. Qed.
Lemma missed_step c c' : missed c → step c c' → missed c'.
Proof.
  intros [He Ht (o & Ho & Hn) Hq] [Hx Hs].
  assert (Hsame : ∀ c', exiting c' = exiting c → threads (world c') = threads (world c) → ios c' = ios c → quiet (world c') → missed c')
    by (intros c1 E1 E2 E3 Hq1; split; [by rewrite E1|by rewrite E2|by exists o; rewrite E3|done]).
  injection Ht as Ht1 Ht2. assert (Hsame' : ∀ c1, exiting c1 = exiting c → threads (world c1) = threads (world c) →
    ios c1 = ios c → asyncCurlHttpPtrVect (world c1) = asyncCurlHttpPtrVect (world c) → missed c1)
    by (intros c1 ? ? ? E; apply Hsame; [done..|unfold quiet; by rewrite E]).
  destruct Hs; try congruence;
    try match goal with H : ios c !! _ = Some _ |- _ => rewrite Ho in H; apply lone_io in H as [-> H] end;
    try discriminate; try (by apply Hsame').
  - apply Hsame'; [done|unfold request_enter; cbn; by case_match|done|unfold request_enter; cbn; by case_match].
  - unfold request_begin in *. case_match; [done|]. simplify_eq. by apply Hsame'.
  - pose proof (work_quiet _ _ Hq H). apply work_control in H. injection H as _ _ E3 E4 _ _ _ _.
    apply Hsame; cbn; unfold threads; try done. by rewrite E3, E4.
  - apply Hsame; try done. apply Forall_alter; [done|]. intros [io|] _ Hio; [by apply even_wakeup|done].
  - injection H as H. destruct (quiet_io _ _ _ Hq H0) as [Hev Hst]. unfold handleRead_begin in H1. case_match; [done|]. injection H1 as <- <-.
    split; [done|by unfold threads; cbn; rewrite Ht1, Ht2| |apply quiet_set_io; [done|split; [by exists 0|done]]].
    exists (Some (wakeupFd_ io)). cbn. rewrite Ho. split; [done|]. by intros n [= <-].
  - injection H as H. destruct (quiet_io _ _ _ Hq H0) as [Hev Hst]. destruct (Hn _ (eq_sym H)) as [k Hk].
    assert (E : handleRead_end one0 io = (false, io)).
    { unfold handleRead_end. rewrite Hst. rewrite Hk, Z.mul_comm, Z_mod_mult. done. }
    rewrite E. split; [done|by unfold threads; cbn; rewrite Ht1, Ht2| |by apply quiet_set_io]. exists None. cbn. by rewrite Ho.
  - destruct (quiet_io _ _ _ Hq H0) as [_ Hst]. unfold check_multi_end in H1. rewrite Hst in H1. by rewrite andb_false_r in H1.
  - unfold callback_take in H1. rewrite H0 in H1. injection H1 as <-. by apply Hsame'.
  - unfold exit_free in H0. by rewrite Ht1, Ht2 in H0.
Qed.
Lemma exit_misses_thread :
  ∃ c, reachable c ∧ sessions (world c) = [] ∧ ∀ c', rtc step c c' → exiting c' = ExitWaitsIo.
Proof.
  set (l := [Init 1 10; Exit; Exit; WakeOver; Exit; Exit; Exit; Exit; Callback; Exit; Make 0; Ready 0]).
  exists (client l). split; [apply client_reachable; by eexists; vm_compute|]. split; [by vm_compute|]. intros c' Hs.
  assert (Hm : missed (client l)).
  { split; [by vm_compute|by vm_compute|exists None; split; [by vm_compute|done]|]. unfold quiet. vm_compute. repeat constructor. by exists 0. }
  clearbody l. induction Hs as [|c c1 c2 Hs _ IH]; [apply Hm|]. apply IH. by eapply missed_step.
Qed.

End HttpExit.
