(* ===== verification/ZookConfig.v ===== *)
(** * Configuration and server lists in ZooKeeper ([src/zookconfig/ZookConfig.cpp])

    [ZookConfig] keeps a copy of the values below one node, registers servers as session
    nodes and lists the registered ones. What the ZooKeeper library and its servers do is
    an instance of [Zookeeper]; [ZkLaws] is what [zookeeper/zookeeper.h] documents. *)

From S2P Require Import Prelude CLib Incommon FileSys.
Import FileSys(slash, cstr).

Module ZookConfig.

(** ** The library

    [zoo_get path watch buffer] gives the return code, [*buffer_len] and what is in the
    buffer; it had 1024 bytes. *)
Class Zookeeper := {
  Zk : Type;
  zookeeper_init : bytes → Zk → bool * Zk;
  zoo_exists : bytes → Zk → Z * Zk;
  zoo_create : bytes → bytes → Z → Zk → Z * Zk;
  zoo_set : bytes → bytes → Zk → Z * Zk;
  zoo_get : bytes → bool → Zk → (Z * Z * bytes) * Zk;
  zoo_get_children : bytes → bool → Zk → (Z * list bytes) * Zk }.

Definition ZOK : Z := 0.
Definition ZCONNECTIONLOSS : Z := -4.
Definition ZNONODE : Z := -101.
Definition ZNODEEXISTS : Z := -110.
Definition ZOO_CHANGED_EVENT : Z := 3.
Definition ZOO_CHILD_EVENT : Z := 4.

Definition ZOOK_CONFIG_INIT_ERROR : Z := -10000.
Definition ZOOK_CONFIG_PARAMETER_ERROR : Z := -10001.
Definition ZOOK_CONFIG_ALREADY_INIT : Z := -10002.
Definition ZOOK_CONFIG_NO_INIT : Z := -10003.
Definition ZOOK_CONFIG_MALLOC_ERROR : Z := -10004.
Definition ZOOK_SERVER_INFO_ALREADY_INIT : Z := -10005.
Definition ZOOK_SERVER_INFO_ERROR : Z := -10006.

(** ** The object *)

(** The constructor takes the port as [int16_t]. *)
Record TcpServerInfo := { gateNo : Z; port : Z; ipAddr : bytes; suffix : bytes }.
Definition TcpServerInfo_new (no po : Z) (ip suff : bytes) : TcpServerInfo :=
  {| gateNo := no; port := wrap_s 16 po; ipAddr := ip; suffix := suff |}.
#[export] Instance TcpServerInfo_dec : EqDecision TcpServerInfo.
Proof. solve_decision. Defined.

(** What the callbacks were called with. *)
Inductive Called := ConfigCall (key oldValue newValue : bytes) | ServerCall (tcpServerInfo : list TcpServerInfo) (typeName : bytes).

Record ZookConfig := {
  colonyNum : nat; configRootPath : bytes; serverPathVector : list bytes; zkHandle : bool;
  configCb : bool; serverCb : bool; configMap : gmap bytes bytes }.
#[export] Instance eta_ZookConfig : Eta ZookConfig := λ r, {|
  colonyNum := colonyNum r; configRootPath := configRootPath r; serverPathVector := serverPathVector r;
  zkHandle := zkHandle r; configCb := configCb r; serverCb := serverCb r; configMap := configMap r |}.
Definition ZookConfig_new : ZookConfig := {|
  colonyNum := 0; configRootPath := []; serverPathVector := []; zkHandle := false; configCb := false;
  serverCb := false; configMap := ∅ |}.

Record World `{Zookeeper} := { zk : Zk; self : ZookConfig; calls : list Called; undefined : bool }.
#[export] Instance eta_World `{Zookeeper} : Eta World := λ r,
  {| zk := zk r; self := self r; calls := calls r; undefined := undefined r |}.

(** ** Strings *)

Fixpoint utilFristChar (str : bytes) (c : byte) : option bytes :=
  match str with
  | [] => None
  | p :: str' => if decide (p = NUL) then None else if decide (p = c) then Some str else utilFristChar str' c
  end.
Definition utilFristConstchar := utilFristChar.
(** The search backwards from the end, for a string without NUL. *)
Fixpoint utilLastConstchar (str : bytes) (c : byte) : option bytes :=
  match str with
  | [] => None
  | p :: str' => match utilLastConstchar str' c with Some r => Some r | None => if decide (p = c) then Some str else None end
  end.
Definition zookeeperPathCheck (str : bytes) : Z :=
  let len := Z.of_nat (length str) in
  match str with
  | [] => ZOOK_CONFIG_PARAMETER_ERROR
  | p :: str' =>
      if negb (bool_decide (p = slash)) then ZOOK_CONFIG_PARAMETER_ERROR
      else match str' with
           | [] => len
           | _ => if bool_decide (last str = Some slash) then ZOOK_CONFIG_PARAMETER_ERROR else len
           end
  end.

(** The loop of [initialize_zookeeper]; [p] is behind the first character of an address. *)
Fixpoint count_addresses (fuel : nat) (p : bytes) : nat :=
  match fuel with
  | O => 0%nat
  | S fuel' =>
      S match utilFristConstchar p "," with
        | None | Some [] => 0%nat
        | Some (_ :: p') => count_addresses fuel' p'
        end
  end.

Section operations.
Context `{Zookeeper}.

Definition undefined_behaviour : St World () := st_mod (λ w, w <| undefined := true |>).
Definition modify (f : ZookConfig → ZookConfig) : St World () := st_mod (λ w, w <| self ::= f |>).
Definition get {A} (f : ZookConfig → A) : St World A := st_gets (λ w, f (self w)).
(** A call of the library. *)
Definition zoo {A} (f : Zk → A * Zk) : St World A := λ w, let '(a, z) := f (zk w) in (a, w <| zk := z |>).
Definition call (c : Called) : St World () := st_mod (λ w, w <| calls ::= λ l, l ++ [c] |>).

(** [do { ret = f(); if (ret is not ZCONNECTIONLOSS) break; tryTime++; } while (tryTime < colonyNum)] *)
Fixpoint attempts {A} (code : A → Z) (n : nat) (f : Zk → A * Zk) : St World A :=
  a ← zoo f;
  match n with
  | O => mret a
  | S n' => if code a =? ZCONNECTIONLOSS then attempts code n' f else mret a
  end.
Definition retry {A} (code : A → Z) (f : Zk → A * Zk) : St World A :=
  n ← get colonyNum; attempts code (n - 1) f.

(** [sprintf] into an array of 512 bytes. *)
Definition sprintf (s : bytes) : St World bytes :=
  if decide (512 <= length s)%nat then _ ← undefined_behaviour; mret s else mret s.
(** [cfg[len] = 0] in an array of 1024 bytes, and the string that is there then. *)
Definition cfg_string (len : Z) (cfg : bytes) : St World bytes :=
  if 1024 <=? len then _ ← undefined_behaviour; mret [] else mret (cstr (take (Z.to_nat len) cfg)).

Definition initialize_zookeeper (zookeeper : bytes) : St World Z :=
  h ← get zkHandle;
  if h : bool then mret ZOOK_CONFIG_ALREADY_INIT
  else
    ok ← zoo (zookeeper_init zookeeper);
    if negb ok then mret ZOOK_CONFIG_INIT_ERROR
    else
      _ ← modify (λ z, z <| zkHandle := true |>);
      match zookeeper with
      | [] => _ ← undefined_behaviour; mret 0
      | _ :: p => _ ← modify (λ z, z <| colonyNum ::= λ n, (n + count_addresses (length zookeeper) p)%nat |>); mret 0
      end.
Definition zookConfigInit (zookAddr : bytes) : St World Z := initialize_zookeeper (cstr zookAddr).

(** *** Reading the configuration *)

Definition child_path (pathcheck : Z) (rootPath name : bytes) : bytes :=
  if pathcheck =? 1 then rootPath ++ name else rootPath ++ [slash] ++ name.
Definition code_of {A B} (r : Z * A * B) : Z := r.1.1.
Fixpoint load_each (pathcheck : Z) (rootPath : bytes) (data : list bytes) : St World Z :=
  match data with
  | [] => mret 0
  | d :: data' =>
      path ← sprintf (child_path pathcheck rootPath d);
      '(ret, len, cfg) ← retry code_of (zoo_get path true);
      if negb (ret =? ZOK) then mret ret
      else
        configValue ← (if 0 <? len then cfg_string len cfg else mret []);
        _ ← modify (λ z, z <| configMap ::= λ m, match m !! d with Some _ => m | None => <[d := configValue]> m end |>);
        load_each pathcheck rootPath data'
  end.
Definition loadAllKeyValue (rootPath : bytes) : St World Z :=
  let pathcheck := zookeeperPathCheck rootPath in
  if pathcheck <=? 0 then mret pathcheck
  else
    h ← get zkHandle;
    if negb h then mret ZOOK_CONFIG_NO_INIT
    else
      '(ret, brokerlist) ← retry fst (zoo_get_children rootPath false);
      if negb (ret =? ZOK) then mret ret else load_each pathcheck rootPath brokerlist.
Definition zookLoadAllConfig (configPath : bytes) : St World Z :=
  match configPath with
  | [] => mret ZOOK_CONFIG_PARAMETER_ERROR
  | _ =>
      root ← get configRootPath;
      match root with
      | _ :: _ => mret ZOOK_CONFIG_ALREADY_INIT
      | [] => _ ← modify (λ z, z <| configRootPath := configPath |>); loadAllKeyValue (cstr configPath)
      end
  end.

Definition getConfigKeyValue (key : bytes) : St World (Z * option bytes) :=
  m ← get configMap; mret (match m !! key with Some v => (0, Some v) | None => (-1, None) end).
Definition setConfigKeyValue (key value : bytes) : St World Z :=
  h ← get zkHandle;
  if negb h then mret ZOOK_CONFIG_NO_INIT
  else root ← get configRootPath; path ← sprintf (cstr root ++ [slash] ++ cstr key); retry id (zoo_set path value).
(** The value is given when the code is [ZOK]. *)
Definition zookGetPathValue (getPath : bytes) : St World (Z * option bytes) :=
  let pathcheck := zookeeperPathCheck (cstr getPath) in
  if pathcheck <=? 0 then mret (pathcheck, None)
  else
    h ← get zkHandle;
    if negb h then mret (ZOOK_CONFIG_NO_INIT, None)
    else
      path ← sprintf (cstr getPath);
      '(ret, len, cfg) ← retry code_of (zoo_get path false);
      if negb (ret =? ZOK) then mret (ret, None)
      else if 0 <? len then v ← cfg_string len cfg; mret (ret, Some v) else mret (ret, Some []).

(** *** Creating nodes *)

(** The loop over the path at index [length done]. *)
Fixpoint create_parents (done rest : bytes) : St World Z :=
  match rest with
  | [] => mret ZOK
  | c :: rest' =>
      if decide (c = slash) then
        ret ← retry id (zoo_exists done);
        ret ← (if ret =? ZNONODE then retry id (zoo_create done [] 0) else mret ret);
        if negb (ret =? ZOK) then mret ret else create_parents (done ++ [c]) rest'
      else create_parents (done ++ [c]) rest'
  end.
(** [createSessionPath] and [createForeverPath] differ in the flags. *)
Definition createPath (flags : Z) (path value : bytes) : St World Z :=
  let str := cstr path in
  let pathcheck := zookeeperPathCheck str in
  if pathcheck <=? 0 then mret pathcheck
  else if pathcheck =? 1 then mret ZOOK_CONFIG_PARAMETER_ERROR
  else
    ret ← create_parents (take 1 str) (drop 1 str);
    if negb (ret =? ZOK) then mret ret
    else
      ret ← retry id (zoo_exists str);
      if ret =? ZOK then retry id (zoo_set str value)
      else if ret =? ZNONODE then retry id (zoo_create str value flags)
      else mret ret.
Definition createSessionPath := createPath 1.
Definition createForeverPath := createPath 0.
Definition server_value (ip : bytes) (port : Z) (suffix : bytes) : bytes :=
  match suffix with [] => cstr ip ++ lit ":" ++ fmt_ld port | _ => cstr ip ++ lit ":" ++ fmt_ld port ++ lit ":" ++ cstr suffix end.
Definition createServerInfo (path ip : bytes) (port : Z) (suffix : bytes) : St World Z :=
  infoValue ← sprintf (server_value ip port suffix); createSessionPath path infoValue.

(** *** Lists of servers *)

(** What a node [name] with the value [infoCfg] describes; [None]: there is no colon. *)
Definition parse_info (name infoCfg : bytes) : option TcpServerInfo :=
  match utilFristChar infoCfg ":" with
  | None => None
  | Some pServerPort =>
      let serverIp := take (length infoCfg - length pServerPort) infoCfg in
      let pServerPort := drop 1 pServerPort in
      let serverPort := u16 (atoi pServerPort) in
      Some (TcpServerInfo_new (atoi name) serverPort serverIp
              (match utilFristChar pServerPort ":" with Some pSuffix => drop 1 pSuffix | None => [] end))
  end.
(** The loop, with the list so far. A node that cannot be read because the connection is
    lost, or without a value, is left out. *)
Fixpoint list_each (serverPath : bytes) (data : list bytes) (infoList : list TcpServerInfo) : St World (Z * list TcpServerInfo) :=
  match data with
  | [] => mret (Z.of_nat (length infoList), infoList)
  | d :: data' =>
      infoPath ← sprintf (serverPath ++ [slash] ++ d);
      '(ret, infoLen, infoCfg) ← retry code_of (zoo_get infoPath false);
      if ret =? ZCONNECTIONLOSS then list_each serverPath data' infoList
      else if negb (ret =? ZOK) then mret (ret, infoList)
      else if infoLen <=? 0 then list_each serverPath data' infoList
      else
        infoCfg ← cfg_string infoLen infoCfg;
        match parse_info d infoCfg with
        | None => mret (ZOOK_SERVER_INFO_ERROR, infoList)
        | Some info => list_each serverPath data' (infoList ++ [info])
        end
  end.
Definition LoadTcpServerListInfo (serverPath : bytes) : St World (Z * list TcpServerInfo) :=
  h ← get zkHandle;
  if negb h then mret (ZOOK_CONFIG_NO_INIT, [])
  else
    '(ret, brokerlist) ← retry fst (zoo_get_children serverPath true);
    if negb (ret =? ZOK) then mret (ret, []) else list_each serverPath brokerlist [].
(** The code, the list and the server type. *)
Definition getTcpServerListInfo (serverPath : bytes) : St World (Z * list TcpServerInfo * option bytes) :=
  match serverPath with
  | [] => mret (ZOOK_CONFIG_PARAMETER_ERROR, [], None)
  | _ =>
      if zookeeperPathCheck (cstr serverPath) <=? 1 then mret (ZOOK_CONFIG_PARAMETER_ERROR, [], None)
      else
        h ← get zkHandle;
        if negb h then mret (ZOOK_CONFIG_NO_INIT, [], None)
        else
          known ← get serverPathVector;
          if decide (serverPath ∈ known) then mret (ZOOK_SERVER_INFO_ALREADY_INIT, [], None)
          else
            _ ← modify (λ z, z <| serverPathVector ::= λ l, l ++ [serverPath] |>);
            let pServerType := utilLastConstchar (cstr serverPath) slash in
            '(ret, infoList) ← LoadTcpServerListInfo (cstr serverPath);
            mret (ret, infoList, pServerType)
  end.

(** *** Callbacks *)

Definition setConfigChangeCall : St World () := modify (λ z, z <| configCb := true |>).
Definition setServerChangeCall : St World () := modify (λ z, z <| serverCb := true |>).

(** The code of [zoo_get] is not looked at. *)
Definition configUpdateCallBack (key : bytes) : St World () :=
  root ← get configRootPath;
  path ← sprintf (cstr root ++ [slash] ++ key);
  '(_, len, cfg) ← zoo (zoo_get path false);
  m ← get configMap;
  match m !! key with
  | None => mret ()
  | Some oldValue =>
      newValue ← (if 0 <? len then cfg_string len cfg else mret []);
      _ ← modify (λ z, z <| configMap ::= <[key := newValue]> |>);
      cb ← get configCb;
      if cb : bool then call (ConfigCall key oldValue newValue) else mret ()
  end.
Definition serverInfoChangeCallBack (path : bytes) : St World () :=
  cb ← get serverCb;
  if negb cb then mret ()
  else
    match utilLastConstchar path slash with
    | None => mret ()
    | Some pServerType =>
        '(_, serverInfo) ← LoadTcpServerListInfo path;
        call (ServerCall serverInfo (drop 1 pServerType))
    end.

(** [strncmp(path, prefix, length(prefix)) == 0] *)
Definition starts_with (path prefix : bytes) : bool := bool_decide (prefix `prefix_of` path).
Fixpoint each_server (path : bytes) (typeVector : list bytes) : St World () :=
  match typeVector with
  | [] => mret ()
  | t :: typeVector' =>
      _ ← (if starts_with path t then serverInfoChangeCallBack path else mret ());
      each_server path typeVector'
  end.
(** An event of the library; [path] is a C string. *)
Definition watcher (type : Z) (path : bytes) : St World () :=
  _ ← (if type =? ZOO_CHILD_EVENT then typeVector ← get serverPathVector; each_server path typeVector else mret ());
  if type =? ZOO_CHANGED_EVENT then
    configPath ← get configRootPath;
    match configPath with
    | [] => mret ()
    | _ =>
        if starts_with path configPath then
          if decide (length path <= length configPath)%nat then undefined_behaviour
          else configUpdateCallBack (drop (length configPath + 1) path)
        else mret ()
    end
  else mret ().

(** ** [ZookConfigSingleton] with an address and a path *)
Definition Singleton_zookConfigInit (zookAddr path : bytes) : St World Z :=
  ret ← zookConfigInit zookAddr;
  if ret <? 0 then mret ret
  else match path with [] => mret ret | _ => zookLoadAllConfig path end.
End operations.
End ZookConfig.
