(* ===== verification/ZookLaws.v ===== *)
(** * What [ZookConfig] relies on

    The nodes and data watches of a ZooKeeper service as [zookeeper/zookeeper.h] documents
    them: [ZkAlone] for a time in which no other client changes nodes, [ZkWatches] with
    other clients; and a small service that satisfies both. *)

From S2P Require Import Prelude CLib Incommon FileSys ZookConfig.
Import FileSys(slash, cstr) ZookConfig.

(** The value, and the session with which the node vanishes. *)
Record Node := { n_value : bytes; n_owner : option nat }.
#[export] Instance Node_dec : EqDecision Node.
Proof. solve_decision. Defined.

Class ZkView (H : Zookeeper) := {
  nodes : Zk → gmap bytes Node;
  session : Zk → nat;
  watches : Zk → gset bytes }.

Definition value_of `{ZkView} (z : Zk) (p : bytes) : option bytes := n_value <$> nodes z !! p.
(** [p] is made with [v]. *)
Definition made `{ZkView} (p v : bytes) (flags : Z) (z : Zk) : gmap bytes Node :=
  <[p := {| n_value := v; n_owner := if flags =? 1 then Some (session z) else None |}]> (nodes z).
(** What [zoo_get] leaves for the value [v]: the length of all of it, and what fits. *)
Definition got (v : bytes) (len : Z) (cfg : bytes) : Prop := len = Z.of_nat (length v) ∧ cfg = take 1024 v.

(** Nobody else changes nodes: a call has its effect, or none, or the connection is lost
    before the answer is known. *)
Class ZkAlone (H : Zookeeper) `{!ZkView H} := {
  alone_init a z : nodes (zookeeper_init a z).2 = nodes z;
  alone_exists p z : nodes (zoo_exists p z).2 = nodes z ∧
    ((zoo_exists p z).1 = ZOK → is_Some (nodes z !! p)) ∧ ((zoo_exists p z).1 = ZNONODE → nodes z !! p = None);
  alone_create p v flags z :
    ((zoo_create p v flags z).1 ≠ ZOK ∧ nodes (zoo_create p v flags z).2 = nodes z) ∨
    (((zoo_create p v flags z).1 = ZOK ∨ (zoo_create p v flags z).1 = ZCONNECTIONLOSS) ∧
     nodes z !! p = None ∧ nodes (zoo_create p v flags z).2 = made p v flags z);
  alone_set p v z :
    ((zoo_set p v z).1 ≠ ZOK ∧ nodes (zoo_set p v z).2 = nodes z) ∨
    (((zoo_set p v z).1 = ZOK ∨ (zoo_set p v z).1 = ZCONNECTIONLOSS) ∧
     ∃ n, nodes z !! p = Some n ∧ nodes (zoo_set p v z).2 = <[p := {| n_value := v; n_owner := n_owner n |}]> (nodes z));
  alone_get p watch z : let '((r, len, cfg), z') := zoo_get p watch z in
    nodes z' = nodes z ∧ (r = ZOK → ∃ v, value_of z p = Some v ∧ got v len cfg);
  alone_children p watch z : nodes (zoo_get_children p watch z).2 = nodes z ∧
    ((zoo_get_children p watch z).1.1 = ZOK → ∀ e,
      e ∈ (zoo_get_children p watch z).1.2 ↔ e ≠ [] ∧ (slash ∉ e) ∧ is_Some (nodes z !! (p ++ [slash] ++ e)));
  alone_codes p watch z : code_of (zoo_get p watch z).1 <= 0 ∧ (zoo_get_children p watch z).1.1 <= 0;
  alone_session_init a z : session (zookeeper_init a z).2 = session z;
  alone_session_exists p z : session (zoo_exists p z).2 = session z;
  alone_session_create p v flags z : session (zoo_create p v flags z).2 = session z }.

(** Others may act during each call: a data watch that is still set says that the value
    has not changed since; only a successful [zoo_get] sets one. *)
Definition stable `{ZkView} (z z' : Zk) : Prop :=
  ∀ p, p ∈ watches z' → p ∈ watches z ∧ value_of z' p = value_of z p.
Class ZkWatches (H : Zookeeper) `{!ZkView H} := {
  stable_init a z : stable z (zookeeper_init a z).2;
  stable_exists p z : stable z (zoo_exists p z).2;
  stable_create p v flags z : stable z (zoo_create p v flags z).2;
  stable_set p v z : stable z (zoo_set p v z).2;
  stable_children p watch z : stable z (zoo_get_children p watch z).2;
  children_distinct p watch z : NoDup (zoo_get_children p watch z).1.2;
  get_watches p watch z : let '((r, len, cfg), z') := zoo_get p watch z in
    ∀ q, q ∈ watches z' →
      (q ∈ watches z ∧ value_of z' q = value_of z q ∨ q = p ∧ watch = true ∧ r = ZOK) ∧
      (q = p → r = ZOK → ∃ v, value_of z' p = Some v ∧ got v len cfg) }.

#[export] Instance stable_preorder `{ZkView} : PreOrder stable.
Proof. split; [by intros z p|]. intros a b c S1 S2 p Hp. destruct (S2 p Hp) as [Hb ->]. by destruct (S1 p Hb). Qed.

(** ** A small service

    [loss n]: the connection is lost during call [n], before or after its effect. *)
Module ZkSample.

Record Service := {
  s_nodes : gmap bytes Node; s_watches : gset bytes; s_events : list (Z * bytes); s_session : nat; s_tick : nat }.
#[export] Instance eta_Service : Eta Service := λ r, {|
  s_nodes := s_nodes r; s_watches := s_watches r; s_events := s_events r; s_session := s_session r;
  s_tick := s_tick r |}.

Section service.
Context (loss : nat → option bool).


(** An effect with its code, unless the connection is lost. *)
Definition connected (f : Service → Z * Service) (z : Service) : Z * Service :=
  let z1 := z <| s_tick ::= S |> in
  match loss (s_tick z) with
  | None => f z1
  | Some false => (ZCONNECTIONLOSS, z1)
  | Some true => let '(r, z2) := f z1 in (if r =? ZOK then ZCONNECTIONLOSS else r, z2)
  end.
Definition parent (p : bytes) : bytes :=
  match utilLastConstchar p slash with Some t => take (length p - length t) p | None => [] end.
(** A change of a value is announced to the session that watches. *)
Definition touch (p : bytes) (z : Service) : Service :=
  if decide (p ∈ s_watches z) then z <| s_watches ::= λ s, s ∖ {[p]} |> <| s_events ::= λ l, l ++ [(ZOO_CHANGED_EVENT, p)] |> else z.
Definition exists_ (p : bytes) : Service → Z * Service :=
  connected (λ z, (match s_nodes z !! p with Some _ => ZOK | None => ZNONODE end, z)).
Definition create (p v : bytes) (flags : Z) : Service → Z * Service := connected (λ z,
  match s_nodes z !! p with
  | Some _ => (ZNODEEXISTS, z)
  | None =>
      if bool_decide (parent p = []) || bool_decide (is_Some (s_nodes z !! parent p)) then
        (ZOK, touch p z <| s_nodes ::= <[p := {| n_value := v; n_owner := if flags =? 1 then Some (s_session z) else None |}]> |>)
      else (ZNONODE, z)
  end).
Definition set (p v : bytes) : Service → Z * Service := connected (λ z,
  match s_nodes z !! p with
  | Some n => (ZOK, touch p z <| s_nodes ::= <[p := {| n_value := v; n_owner := n_owner n |}]> |>)
  | None => (ZNONODE, z)
  end).
(** Without an answer [*buffer_len] stays as it was. *)
Definition get (p : bytes) (watch : bool) (z : Service) : (Z * Z * bytes) * Service :=
  let z1 := z <| s_tick ::= S |> in
  match loss (s_tick z), s_nodes z !! p with
  | None, Some n =>
      ((ZOK, Z.of_nat (length (n_value n)), take 1024 (n_value n)), if watch then z1 <| s_watches ::= λ s, {[p]} ∪ s |> else z1)
  | None, None => ((ZNONODE, 1024, []), z1)
  | Some _, _ => ((ZCONNECTIONLOSS, 1024, []), z1)
  end.
(** [e] when [q] is [p/e]. *)
Definition child_of (p q : bytes) : option bytes :=
  let e := drop (length p + 1) q in
  if decide (q = p ++ [slash] ++ e ∧ e ≠ [] ∧ slash ∉ e) then Some e else None.
Definition children (p : bytes) (watch : bool) (z : Service) : (Z * list bytes) * Service :=
  let z1 := z <| s_tick ::= S |> in
  match loss (s_tick z) with
  | None => ((if decide (is_Some (s_nodes z !! p)) then ZOK else ZNONODE, omap (child_of p) (elements (dom (s_nodes z)))), z1)
  | Some _ => ((ZCONNECTIONLOSS, []), z1)
  end.
#[export] Instance service : Zookeeper := {|
  Zk := Service; zookeeper_init := λ _ z, (true, z); zoo_exists := exists_; zoo_create := create; zoo_set := set;
  zoo_get := get; zoo_get_children := children |}.
#[export] Instance service_view : ZkView service := {| nodes := s_nodes; session := s_session; watches := s_watches |}.

Lemma touch_nodes p z : s_nodes (touch p z) = s_nodes z.
Proof. unfold touch. by case_decide. Qed.
Lemma touch_session p z : s_session (touch p z) = s_session z.
Proof. unfold touch. by case_decide. Qed.
Lemma touch_watches p z : s_watches (touch p z) = s_watches z ∖ {[p]}.
Proof. unfold touch. case_decide; cbn; [done|]. symmetry. apply difference_disjoint_L. set_solver. Qed.
Lemma elem_of_children p e z : e ∈ omap (child_of p) (elements (dom (s_nodes z))) ↔ e ≠ [] ∧ (slash ∉ e) ∧ is_Some (s_nodes z !! (p ++ [slash] ++ e)).
Proof.
  rewrite list_elem_of_omap. setoid_rewrite elem_of_elements. setoid_rewrite elem_of_dom. unfold child_of. split.
  - intros (q & Hq & E). case_decide as Hd; [|done]. injection E as E. rewrite E in Hd. destruct Hd as (-> & ? & ?). done.
  - intros (H1 & H2 & H3). exists (p ++ [slash] ++ e). split; [done|].
    assert (E : drop (length p + 1) (p ++ [slash] ++ e) = e) by (rewrite app_assoc; apply drop_app_length'; by rewrite length_app).
    rewrite E. by rewrite decide_True.
Qed.

Lemma child_of_Some p q e : child_of p q = Some e → q = p ++ [slash] ++ e.
Proof. unfold child_of. case_decide as Hd; [|done]. intros [= E]. rewrite E in Hd. by destruct Hd as [? _]. Qed.
Lemma children_NoDup p l : NoDup l → NoDup (omap (child_of p) l).
Proof.
  induction 1 as [|q l Hq Hl IH]; [constructor|]. cbn. destruct (child_of p q) as [e|] eqn:E; [|done].
  constructor; [|done]. rewrite list_elem_of_omap. intros (q' & Hq' & E'). apply child_of_Some in E, E'. subst. done.
Qed.

(** Each call is one of these: nothing but the tick changes, or its effect takes place. *)
Lemma connected_cases f z :
  (loss (s_tick z) ≠ None ∧ connected f z = (ZCONNECTIONLOSS, z <| s_tick ::= S |>)) ∨
  ∃ r z', f (z <| s_tick ::= S |>) = (r, z') ∧ (connected f z = (r, z') ∨ r = ZOK ∧ connected f z = (ZCONNECTIONLOSS, z')).
Proof.
  unfold connected. destruct (loss (s_tick z)) as [[]|]; [right|by left|right].
  - destruct (f _) as [r z']. exists r, z'. split; [done|]. destruct (Z.eqb_spec r ZOK); [by right|by left].
  - destruct (f _) as [r z']. exists r, z'. split; [done|by left].
Qed.
Ltac connect r z' E Hr := match goal with |- context [connected ?f ?z] =>
  let E0 := fresh in destruct (connected_cases f z) as [[_ E0]|(r & z' & E & Hr)]; [rewrite E0; clear E0|cbn in E] end.

#[export] Instance service_alone : ZkAlone service.
Proof.
  split; try done.
  - intros p z. cbn. unfold exists_. connect r z' E Hr; [done|]. injection E as <- <-.
    destruct Hr as [-> | [_ ->]]; cbn; [|done]. destruct (s_nodes z !! p) as [n|]; (split; [done|]); by split; eauto.
  - intros p v flags z. cbn. unfold create. connect r z' E Hr; [by left|].
    destruct (s_nodes z !! p) as [n|] eqn:En.
    + injection E as <- <-. destruct Hr as [-> | [? _]]; [by left|done].
    + destruct (bool_decide (parent p = []) || _).
      * injection E as <- <-. right. destruct Hr as [-> | [_ ->]]; cbn; (split; [by eauto|]); (split; [done|]); by rewrite touch_nodes.
      * injection E as <- <-. destruct Hr as [-> | [? _]]; [by left|done].
  - intros p v z. cbn. unfold set. connect r z' E Hr; [by left|].
    destruct (s_nodes z !! p) as [n|] eqn:En.
    + injection E as <- <-. right. destruct Hr as [-> | [_ ->]]; cbn; (split; [by eauto|]); exists n; by rewrite touch_nodes.
    + injection E as <- <-. destruct Hr as [-> | [? _]]; [by left|done].
  - intros p watch z. cbn. unfold get. destruct (loss (s_tick z)); cbn; [done|]. destruct (s_nodes z !! p) as [n|] eqn:En; cbn; [|done].
    split; [by destruct watch|]. intros _. exists (n_value n). unfold value_of. cbn. by rewrite En.
  - intros p watch z. cbn. unfold children. destruct (loss (s_tick z)); cbn; [done|]. split; [done|]. intros _ e. apply elem_of_children.
  - intros p watch z. cbn. unfold get, children. destruct (loss (s_tick z)); cbn; [done|].
    split; [by destruct (s_nodes z !! p)|by case_decide].
  - intros p z. cbn. unfold exists_. connect r z' E Hr; [done|]. injection E as <- <-. by destruct Hr as [-> | [_ ->]].
  - intros p v flags z. cbn. unfold create. connect r z' E Hr; [done|].
    assert (Hs : s_session z' = s_session z); [|by destruct Hr as [-> | [_ ->]]].
    destruct (s_nodes z !! p); [by injection E as <- <-|].
    destruct (bool_decide (parent p = []) || _); injection E as <- <-; cbn; by rewrite ?touch_session.
Qed.

Lemma touched_stable p v own z f :
  stable  z (touch p (z <| s_tick ::= f |>) <| s_nodes ::= <[p := {| n_value := v; n_owner := own |}]> |>).
Proof.
  intros q. cbn. rewrite touch_watches. cbn. intros [Hq Hne]%elem_of_difference. rewrite elem_of_singleton in Hne.
  split; [done|]. unfold value_of. cbn. rewrite touch_nodes. cbn. by rewrite lookup_insert_ne.
Qed.
#[export] Instance service_watches : ZkWatches service.
Proof.
  split.
  - by intros.
  - intros p z. cbn. unfold exists_. connect r z' E Hr; [by intros ?|]. injection E as <- <-. destruct Hr as [-> | [_ ->]]; by intros ?.
  - intros p v flags z. cbn. unfold create. connect r z' E Hr; [by intros ?|].
    assert (Hs : stable z z'); [|by destruct Hr as [-> | [_ ->]]].
    destruct (s_nodes z !! p); [by injection E as <- <-; intros ?|].
    destruct (bool_decide (parent p = []) || _); injection E as <- <-; [apply touched_stable|by intros ?].
  - intros p v z. cbn. unfold set. connect r z' E Hr; [by intros ?|].
    assert (Hs : stable z z'); [|by destruct Hr as [-> | [_ ->]]].
    destruct (s_nodes z !! p); injection E as <- <-; [apply touched_stable|by intros ?].
  - intros p watch z. cbn. unfold children. destruct (loss (s_tick z)); by intros ?.
  - intros p watch z. cbn. unfold children. destruct (loss (s_tick z)); cbn; [constructor|].
    apply children_NoDup, NoDup_elements.
  - intros p watch z. cbn. unfold get. destruct (loss (s_tick z)); cbn; [by intros q Hq; split; [left|]|].
    destruct (s_nodes z !! p) as [n|] eqn:En; cbn; [|by intros q Hq; split; [left|]].
    intros q Hq. split.
    + destruct watch; [|by left]. cbn in Hq. apply elem_of_union in Hq as [->%elem_of_singleton|Hq]; [by right|by left].
    + intros -> _. exists (n_value n). unfold value_of. destruct watch; cbn; by rewrite En.
Qed.
End service.
End ZkSample.
