(* ===== verification/ZookProofs.v ===== *)
(** * Nodes, server lists and the copy of the configuration *)

From S2P Require Import Prelude CLib Incommon FileSys WriteFile ReadFile ZookConfig ZookLaws.
Import FileSys(slash, cstr) ZookConfig.

Module ZookProofs.

(** ** Repeated calls *)

Section calls.
Context `{Zookeeper}.

(** Only the service has changed. *)
Definition only_zk (w w' : World) : Prop := self w' = self w ∧ calls w' = calls w ∧ undefined w' = undefined w.
#[export] Instance only_zk_preorder : PreOrder only_zk.
Proof. split; [by split|]. intros a b c (?&?&?) (?&?&?). split_and!; congruence. Qed.

(** [I] holds of the service until the call that counts, which gives [P]. *)
Lemma retry_wp {A} (code : A → Z) (f : Zk → A * Zk) (I : Zk → Prop) (P : A → Zk → Prop) Q w :
  (∀ z, I z → P (f z).1 (f z).2 ∧ (code (f z).1 = ZCONNECTIONLOSS → I (f z).2)) → I (zk w) →
  (∀ a w', only_zk w w' → P a (zk w') → Q a w') → wp (retry code f) Q w.
Proof.
  intros Hf HI HQ. unfold retry. apply wp_bind, wp_gets. generalize (colonyNum (self w) - 1)%nat as n. intros n.
  revert w HI HQ. induction n as [|n IH]; intros w HI HQ; cbn [attempts]; destruct (Hf _ HI) as [HP HL].
  - apply wp_bind. unfold wp, zoo. destruct (f (zk w)) as [a z]. by apply HQ.
  - apply wp_bind. unfold wp at 1, zoo. destruct (f (zk w)) as [a z]. cbn [fst snd] in *.
    destruct (Z.eqb_spec (code a) ZCONNECTIONLOSS) as [E|]; [|by apply wp_ret, HQ].
    apply IH; [by apply HL|]. intros a' w' (?&?&?) ?. by apply HQ.
Qed.
Lemma zsprintf_wp s Q w :
  (∀ w', self w' = self w → zk w' = zk w → calls w' = calls w → (undefined w' = false → undefined w = false) → Q s w') → wp (sprintf s) Q w.
Proof. intros HQ. unfold sprintf. case_decide; [apply wp_bind, wp_mod|]; apply wp_ret, HQ; done. Qed.
End calls.

(** ** Creating nodes *)

(** [q] is an ancestor in the path [str]. *)
Definition ancestor (q str : bytes) : Prop := q ≠ [] ∧ ∃ rest, str = q ++ slash :: rest.

Section create.
Context `{HZ : Zookeeper} `{!ZkView HZ, !ZkAlone HZ}.

Definition empty_node : Node := {| n_value := []; n_owner := None |}.
(** Some of the nodes [ok] were made, without value; nothing else was changed. *)
Definition grown (ok : bytes → Prop) (m m' : gmap bytes Node) : Prop :=
  ∀ q, m' !! q = m !! q ∨ (ok q ∧ m !! q = None ∧ m' !! q = Some empty_node).
#[export] Instance grown_preorder ok : PreOrder (grown ok).
Proof.
  split; [by left|]. intros m1 m2 m3 H12 H23 q. destruct (H23 q) as [E|(Hk & E & E')].
  - destruct (H12 q) as [E'|?]; [left; congruence|right; by rewrite E].
  - destruct (H12 q) as [E0|(_ & _ & E0)]; [right; split_and!; [done|congruence|done]|congruence].
Qed.
Lemma grown_some ok m m' q : grown ok m m' → is_Some (m !! q) → is_Some (m' !! q).
Proof. intros Hg [n Hn]. destruct (Hg q) as [E|(_ & _ & E)]; rewrite E; eauto. Qed.

Lemma exists_wp p Q w :
  (∀ r w', only_zk w w' → nodes (zk w') = nodes (zk w) → (r = ZOK → is_Some (nodes (zk w) !! p)) →
     (r = ZNONODE → nodes (zk w) !! p = None) → session (zk w') = session (zk w) → Q r w') → wp (retry id (zoo_exists p)) Q w.
Proof.
  intros HQ. apply (retry_wp id (zoo_exists p) (λ z, nodes z = nodes (zk w) ∧ session z = session (zk w))
    (λ r z, nodes z = nodes (zk w) ∧ session z = session (zk w) ∧ (r = ZOK → is_Some (nodes (zk w) !! p)) ∧ (r = ZNONODE → nodes (zk w) !! p = None))).
  - intros z [Hn Hs]. destruct (alone_exists p z) as (E1 & E2 & E3). rewrite <- Hn, <- Hs, E1, alone_session_exists. done.
  - done.
  - intros r w' Ho (?&?&?&?). by apply HQ.
Qed.
Lemma create_wp p v flags Q w :
  (∀ r w', only_zk w w' →
     (r ≠ ZOK ∧ nodes (zk w') = nodes (zk w)) ∨ (nodes (zk w) !! p = None ∧ nodes (zk w') = made p v flags (zk w)) →
     session (zk w') = session (zk w) → Q r w') → wp (retry id (zoo_create p v flags)) Q w.
Proof.
  intros HQ. set (m := nodes (zk w)).
  apply (retry_wp id (zoo_create p v flags)
    (λ z, session z = session (zk w) ∧ (nodes z = m ∨ (m !! p = None ∧ nodes z = made p v flags (zk w))))
    (λ r z, session z = session (zk w) ∧ ((r ≠ ZOK ∧ nodes z = m) ∨ (m !! p = None ∧ nodes z = made p v flags (zk w))))).
  - intros z [Hs Hz]. rewrite alone_session_create.
    destruct (alone_create p v flags z) as [[Hr E]|(Hr & Hnone & E)].
    + rewrite E. split; [|done]. split; [done|]. destruct Hz as [Hz|Hz]; [by left|by right].
    + destruct Hz as [Hz|[Hm Hz]].
      * assert (E' : made p v flags z = made p v flags (zk w)) by (unfold made; by rewrite Hz, Hs).
        rewrite E, E'. rewrite Hz in Hnone. by split; [|intros _]; (split; [done|]); right.
      * exfalso. rewrite Hz in Hnone. unfold made in Hnone. by rewrite lookup_insert_eq in Hnone.
  - by split; [|left].
  - intros r w' Ho (? & ?). by apply HQ.
Qed.
Lemma set_wp p v Q w :
  (∀ r w', only_zk w w' →
     (r ≠ ZOK ∧ nodes (zk w') = nodes (zk w)) ∨
     (∃ n, nodes (zk w) !! p = Some n ∧ nodes (zk w') = <[p := {| n_value := v; n_owner := n_owner n |}]> (nodes (zk w))) →
     Q r w') → wp (retry id (zoo_set p v)) Q w.
Proof.
  intros HQ. set (m := nodes (zk w)).
  apply (retry_wp id (zoo_set p v)
    (λ z, nodes z = m ∨ ∃ n, m !! p = Some n ∧ nodes z = <[p := {| n_value := v; n_owner := n_owner n |}]> m)
    (λ r z, (r ≠ ZOK ∧ nodes z = m) ∨ ∃ n, m !! p = Some n ∧ nodes z = <[p := {| n_value := v; n_owner := n_owner n |}]> m)).
  - intros z Hz. destruct (alone_set p v z) as [[Hr E]|(Hr & n & Hn & E)].
    + rewrite E. split; [|done]. destruct Hz as [Hz|Hz]; [by left|by right].
    + assert (Hw : ∃ n, m !! p = Some n ∧ nodes (zoo_set p v z).2 = <[p := {| n_value := v; n_owner := n_owner n |}]> m);
        [|by split; [|intros _]; right].
      destruct Hz as [Hz|(n0 & Hn0 & Hz)]; [exists n; by rewrite E, <- Hz|].
      exists n0. split; [done|]. rewrite Hz, lookup_insert_eq in Hn. injection Hn as <-. by rewrite E, Hz, insert_insert_eq.
  - by left.
  - intros r w' Ho ?. by apply HQ.
Qed.

(** A node of the path is there after its turn. *)
Lemma create_parents_wp d rest Q w :
  d ≠ [] →
  (∀ r w', only_zk w w' → grown (λ q, ancestor q (d ++ rest)) (nodes (zk w)) (nodes (zk w')) → session (zk w') = session (zk w) →
     (r = ZOK → ∀ q, ancestor q (d ++ rest) → (length d <= length q)%nat → is_Some (nodes (zk w') !! q)) → Q r w') →
  wp (create_parents d rest) Q w.
Proof.
  revert d w. induction rest as [|c rest IH]; intros d w Hd HQ; cbn [create_parents].
  { apply wp_ret, HQ; [done|done|done|]. intros _ q (_ & rest & E) Hq. rewrite app_nil_r in E.
    apply (f_equal length) in E. rewrite length_app in E. cbn in E. lia. }
  assert (Hassoc : (d ++ [c]) ++ rest = d ++ c :: rest) by (by rewrite <- app_assoc).
  assert (Hlonger : ∀ q, c ≠ slash ∨ q ≠ d → ancestor q (d ++ c :: rest) → (length d <= length q)%nat → (length (d ++ [c]) <= length q)%nat).
  { intros q Hc (_ & k & E) Hq. rewrite length_app. cbn. destruct (decide (length q = length d)) as [El|]; [|lia].
    apply app_inj_1 in E as [-> E]; [|by rewrite El]. destruct Hc; [congruence|done]. }
  destruct (decide (c = slash)) as [->|Hc].
  - assert (Hanc : ancestor d (d ++ slash :: rest)) by (split; [done|by exists rest]).
    apply wp_bind, exists_wp. intros r w1 O1 N1 H1 H2 S1.
    assert (Hmade : wp (if r =? ZNONODE then retry id (zoo_create d [] 0) else mret r) (λ r w2, only_zk w w2 ∧
      grown (λ q, ancestor q (d ++ slash :: rest)) (nodes (zk w)) (nodes (zk w2)) ∧ session (zk w2) = session (zk w) ∧
      (r = ZOK → is_Some (nodes (zk w2) !! d))) w1).
    { destruct (Z.eqb_spec r ZNONODE) as [Er|].
      - apply create_wp. intros r2 w2 O2 Hc S2. split; [by etrans|]. specialize (H2 Er).
        assert (Hin : nodes (zk w2) = nodes (zk w1) ∧ r2 ≠ ZOK ∨ nodes (zk w2) = <[d := empty_node]> (nodes (zk w))).
        { destruct Hc as [[? ?]|[_ E]]; [by left|right]. rewrite E. unfold made. cbn. by rewrite N1. }
        split_and!.
        + intros q. destruct Hin as [[E _]|E]; rewrite E; [left; by rewrite N1|].
          destruct (decide (q = d)) as [->|]; [right; by rewrite lookup_insert_eq|left; by rewrite lookup_insert_ne].
        + congruence.
        + intros Hr. destruct Hin as [[_ ?]|E]; [done|]. rewrite E, lookup_insert_eq. eauto.
      - apply wp_ret. split; [done|]. rewrite N1. by split_and!. }
    apply wp_bind. eapply wp_mono; [exact Hmade|]. intros r2 w2 (O2 & G2 & S2 & H3).
    destruct (Z.eqb_spec r2 ZOK) as [->|Hr2]; cbn [negb]; [|by apply wp_ret, HQ].
    apply IH; [by destruct d|]. rewrite Hassoc. intros r3 w3 O3 G3 S3 H4. apply HQ; [by etrans|by etrans|congruence|].
    intros Hr q Hq Hlen. destruct (decide (q = d)) as [->|Hne]; [|apply H4; auto].
    eapply grown_some; [exact G3|by apply H3].
  - apply IH; [by destruct d|]. rewrite Hassoc. intros r w' O G S H. apply HQ; [done..|]. intros Hr q Hq Hlen. apply H; auto.
Qed.

Lemma path_check_nonzero str : zookeeperPathCheck str ≠ 0.
Proof.
  unfold zookeeperPathCheck. destruct str as [|c str]; [done|]. destruct (negb _); [done|]. destruct str as [|c' str]; [done|].
  destruct (bool_decide _); [done|]. rewrite !length_cons. lia.
Qed.
Lemma not_own_ancestor str : ¬ ancestor str str.
Proof. intros (_ & rest & E). apply (f_equal length) in E. rewrite length_app in E. cbn in E. lia. Qed.

(** What [createPath] has done to the nodes, from [w] to [w']. *)
Definition path_post (flags : Z) (str value : bytes) (w : World) (r : Z) (w' : World) : Prop :=
  (∀ q, q ≠ str → nodes (zk w') !! q = nodes (zk w) !! q ∨ (ancestor q str ∧ nodes (zk w) !! q = None ∧ nodes (zk w') !! q = Some empty_node)) ∧
  (∀ n, nodes (zk w) !! str = Some n → ∃ n', nodes (zk w') !! str = Some n' ∧ n_owner n' = n_owner n) ∧
  (r = ZOK → (∀ q, ancestor q str → is_Some (nodes (zk w') !! q)) ∧
    ∃ n, nodes (zk w') !! str = Some n ∧ n_value n = value ∧
      (nodes (zk w) !! str = None → n_owner n = if flags =? 1 then Some (session (zk w)) else None)) ∧
  only_zk w w'.
Lemma createPath_wp flags path value w : wp (createPath flags path value) (path_post flags (cstr path) value w) w.
Proof.
  set (str := cstr path). set (post := path_post flags str value w).
  assert (Hfail : ∀ r w', only_zk w w' → grown (λ q, ancestor q str) (nodes (zk w)) (nodes (zk w')) → r ≠ ZOK → post r w').
  { intros r w' O G Hr. split_and!; [intros q _; apply G| |done|done]. intros n Hn.
    destruct (G str) as [E|(Ha & _)]; [exists n; by rewrite E|by apply not_own_ancestor in Ha]. }
  unfold createPath. fold str. destruct (zookeeperPathCheck str <=? 0) eqn:Hc0.
  { apply wp_ret, Hfail; [done|done|]. apply path_check_nonzero. }
  destruct (zookeeperPathCheck str =? 1); [by apply wp_ret, Hfail|].
  assert (Hne : str ≠ []) by (intros E; by rewrite E in Hc0).
  apply wp_bind, create_parents_wp; [by destruct str|]. rewrite take_drop. intros r w1 O1 G1 S1 H1.
  destruct (Z.eqb_spec r ZOK) as [->|Hr]; cbn [negb]; [|by apply wp_ret, Hfail].
  assert (Hanc : ∀ q, ancestor q str → is_Some (nodes (zk w1) !! q)).
  { intros q Hq. apply H1; [done..|]. rewrite length_take. destruct Hq as [Hq _]. destruct q; [done|]. rewrite length_cons. lia. }
  assert (Hstr : nodes (zk w1) !! str = nodes (zk w) !! str).
  { destruct (G1 str) as [E|(Ha & _)]; [done|by apply not_own_ancestor in Ha]. }
  apply wp_bind, exists_wp. intros r w2 O2 N2 H2 H2' S2.
  assert (O02 : only_zk w w2) by (by etrans). rewrite <- N2 in G1, Hanc, Hstr, H2, H2'.
  (* a change of the node itself *)
  assert (Hlast : ∀ r w3 n, only_zk w2 w3 → nodes (zk w3) = <[str := n]> (nodes (zk w2)) → n_value n = value →
    (∀ n0, nodes (zk w) !! str = Some n0 → n_owner n = n_owner n0) →
    (nodes (zk w) !! str = None → n_owner n = if flags =? 1 then Some (session (zk w)) else None) → post r w3).
  { intros r3 w3 n O3 N3 Hv Ho Hnew. split_and!.
    - intros q Hq. rewrite N3, lookup_insert_ne by done. apply G1.
    - intros n0 Hn0. rewrite N3, lookup_insert_eq. eauto.
    - intros _. rewrite N3. split; [|exists n; by rewrite lookup_insert_eq]. intros q Hq. destruct (decide (q = str)) as [->|].
      + rewrite lookup_insert_eq. eauto.
      + rewrite lookup_insert_ne by done. by apply Hanc.
    - by etrans. }
  destruct (Z.eqb_spec r ZOK) as [->|Hr].
  - apply set_wp. intros r3 w3 O3 [[Hr3 N3]|(n & Hn & N3)].
    + apply Hfail; [by etrans|by rewrite N3|done].
    + eapply Hlast; [done|exact N3|done|cbn; congruence|cbn; congruence].
  - destruct (Z.eqb_spec r ZNONODE) as [->|Hr'].
    + apply create_wp. intros r3 w3 O3 [[Hr3 N3]|[Hn N3]] S3.
      * apply Hfail; [by etrans|by rewrite N3|done].
      * eapply Hlast; [done|exact N3|done|congruence|]. intros _. cbn. by rewrite S2, S1.
    + apply wp_ret, Hfail; [done|done|done].
Qed.

(** C17: [createSessionPath] and [createForeverPath] when no other client changes nodes: on
    success the node of the path has the value and all its ancestors exist; a node that
    was not there before is a session or a permanent node as asked, one that was there
    keeps its owner ([registration_of_old_session]). Whatever the result, and however often the connection is lost, no
    other node changes but for missing ancestors, which are made without value. *)
Theorem path_created flags path value w :
  let str := cstr path in
  let '(r, w') := createPath flags path value w in
  let m := nodes (zk w) in let m' := nodes (zk w') in
  (∀ q, q ≠ str → m' !! q = m !! q ∨ (ancestor q str ∧ m !! q = None ∧ m' !! q = Some empty_node)) ∧
  (∀ n, m !! str = Some n → ∃ n', m' !! str = Some n' ∧ n_owner n' = n_owner n) ∧
  (r = ZOK → (∀ q, ancestor q str → is_Some (m' !! q)) ∧
     ∃ n, m' !! str = Some n ∧ n_value n = value ∧
       (m !! str = None → n_owner n = if flags =? 1 then Some (session (zk w)) else None)) ∧
  self w' = self w ∧ calls w' = calls w ∧ undefined w' = undefined w.
Proof. intros str. pose proof (createPath_wp flags path value w) as Hw. unfold wp in Hw. by destruct (createPath _ _ _ w). Qed.

(** ** Registered servers are listed *)

Lemma utilFristChar_app a c b : c ∉ a → NUL ∉ a → c ≠ NUL → utilFristChar (a ++ c :: b) c = Some (c :: b).
Proof.
  intros Hc Hn Hcn. induction a as [|x a IH]; cbn.
  - by rewrite decide_False, decide_True.
  - apply not_elem_of_cons in Hc as [? ?], Hn as [? ?]. rewrite !decide_False by done. by apply IH.
Qed.
Lemma utilFristChar_none a c : c ∉ a → utilFristChar a c = None.
Proof.
  intros Hc. induction a as [|x a IH]; cbn; [done|]. apply not_elem_of_cons in Hc as [? ?].
  case_decide; [done|]. rewrite decide_False by done. by apply IH.
Qed.
Lemma digits_free c z : is_digit c = false → c ≠ "-"%byte → c ∉ fmt_ld z.
Proof. intros H1 H2 [Hc|Hc]%fmt_ld_chars; congruence. Qed.

(** The line of a server is read back. *)
Lemma parse_server_value name ip po suff :
  no_nul ip → (":"%byte ∉ ip) → no_nul suff → 0 <= po < 2 ^ 15 →
  parse_info name (server_value ip po suff) = Some {| gateNo := atoi name; port := po; ipAddr := ip; suffix := suff |}.
Proof.
  intros Hip Hc Hs Hp.
  assert (E : server_value ip po suff = ip ++ ":"%byte :: fmt_ld po ++ match suff with [] => [] | _ => ":"%byte :: suff end).
  { unfold server_value. rewrite ReadFile.cstr_id by done. destruct suff; cbn; [by rewrite app_nil_r|].
    rewrite ReadFile.cstr_id by done. done. }
  assert (Hfree : (":"%byte ∉ fmt_ld po) ∧ (NUL ∉ fmt_ld po)) by (split; apply digits_free; done).
  unfold parse_info. rewrite E, utilFristChar_app by (done || exact Hip).
  rewrite skipn_cons, drop_0.
  rewrite length_app, Nat.add_sub, take_app_length. unfold TcpServerInfo_new. f_equal. f_equal.
  - rewrite atoi_fmt; [|unfold in_s; cbn; lia|by destruct suff; intros ? [= <-]].
    change (wrap_u 16 po) with (u16 po). rewrite wrap_u_id by (unfold in_u; cbn; lia). apply wrap_s_id; [lia|unfold in_s; cbn; lia].
  - destruct suff as [|x suff].
    + rewrite app_nil_r, utilFristChar_none by apply Hfree. done.
    + rewrite utilFristChar_app by (done || apply Hfree). done.
Qed.

Definition no_loss : Prop := ∀ p watch z, code_of (zoo_get p watch z).1 ≠ ZCONNECTIONLOSS.
Lemma get_wp p watch Q w :
  (∀ r len cfg w', only_zk w w' → nodes (zk w') = nodes (zk w) → r <= 0 → (no_loss → r ≠ ZCONNECTIONLOSS) →
     (r = ZOK → ∃ v, value_of (zk w) p = Some v ∧ got v len cfg) → Q (r, len, cfg) w') →
  wp (retry code_of (zoo_get p watch)) Q w.
Proof.
  intros HQ. apply (retry_wp code_of (zoo_get p watch) (λ z, nodes z = nodes (zk w))
    (λ a z, nodes z = nodes (zk w) ∧ code_of a <= 0 ∧ (no_loss → code_of a ≠ ZCONNECTIONLOSS) ∧
       (a.1.1 = ZOK → ∃ v, value_of (zk w) p = Some v ∧ got v a.1.2 a.2))).
  - intros z Hz. pose proof (alone_get p watch z) as Hg. pose proof (proj1 (alone_codes p watch z)) as Hneg.
    assert (Hl : no_loss → code_of (zoo_get p watch z).1 ≠ ZCONNECTIONLOSS) by (intros Hn; apply Hn).
    destruct (zoo_get p watch z) as [[[r len] cfg] z']. destruct Hg as [E Hv]. cbn [fst snd] in *. rewrite E. split; [|done].
    split_and!; [done|done|exact Hl|]. intros Hr. destruct (Hv Hr) as (v & Hval & ?). exists v. split; [|done].
    revert Hval. unfold value_of. by rewrite Hz.
  - done.
  - intros [[r len] cfg] w' Ho (E & Hneg & Hl & Hv). by apply HQ.
Qed.

(** [info] is the server in the node [d]. *)
Definition server_at (serverPath d : bytes) (info : TcpServerInfo) (z : Zk) : Prop :=
  ∃ v, value_of z (serverPath ++ [slash] ++ d) = Some v ∧ v ≠ [] ∧ no_nul v ∧ (length v < 1024)%nat ∧ parse_info d v = Some info.
Ltac parsed := match goal with |- context [parse_info ?e ?x] => destruct (parse_info e x) end.
Lemma list_each_wp serverPath data acc d info w :
  no_loss → server_at serverPath d info (zk w) → d ∈ data ∨ info ∈ acc →
  wp (list_each serverPath data acc) (λ r _, 0 <= r.1 → info ∈ r.2) w.
Proof.
  intros Hl. revert acc w. induction data as [|e data IH]; intros acc w Hs Hin; cbn [list_each].
  { apply wp_ret. intros _. destruct Hin as [?%elem_of_nil|]; done. }
  apply wp_bind, zsprintf_wp. intros w1 E1 Z1 _ _. apply wp_bind, get_wp. intros r len cfg w2 O2 N2 Hneg Hr Hg.
  specialize (Hr Hl). rewrite (proj2 (Z.eqb_neq _ _)) by done.
  assert (Hs2 : server_at serverPath d info (zk w2)).
  { destruct Hs as (v & Hv & Hs). exists v. split; [|done]. unfold value_of in *. by rewrite N2, Z1. }
  destruct (Z.eqb_spec r ZOK) as [->|Hne]; cbn [negb].
  2:{ apply wp_ret. cbn. intros Hr0. unfold ZOK in Hne. lia. }
  destruct (Hg eq_refl) as (v & Hv & -> & ->).
  (* the entry of [e], and the rest *)
  assert (Hnext : ∀ acc' w3, zk w3 = zk w2 → d ∈ data ∨ info ∈ acc' → wp (list_each serverPath data acc') (λ r _, 0 <= r.1 → info ∈ r.2) w3).
  { intros acc' w3 E3 Hin'. apply IH; [by rewrite E3|done]. }
  assert (Hskip : d = e → info ∉ acc → server_at serverPath e info (zk w2) ∧ v ≠ [] ∧ no_nul v ∧ (length v < 1024)%nat ∧ parse_info e v = Some info).
  { intros -> _. split; [done|]. destruct Hs as (v' & Hv' & Hs). rewrite <- Z1, Hv in Hv'. by injection Hv' as <-. }
  destruct (decide (info ∈ acc)) as [Hacc|Hacc].
  - case_match; [by apply Hnext; [|right]|]. unfold cfg_string. case_match.
    + apply wp_bind, wp_bind, wp_mod, wp_ret. parsed; [|by apply wp_ret].
      apply Hnext; [done|right]. apply elem_of_app. by left.
    + apply wp_bind, wp_ret. parsed; [|by apply wp_ret]. apply Hnext; [done|right]. apply elem_of_app. by left.
  - destruct Hin as [Hin|]; [|done]. apply elem_of_cons in Hin as [->|Hin].
    + destruct (Hskip eq_refl Hacc) as (_ & Hne & Hnul & Hlen & Hp).
      rewrite (proj2 (Z.leb_gt _ _)) by (destruct v; [done|rewrite length_cons; lia]).
      unfold cfg_string. rewrite (proj2 (Z.leb_gt _ _)) by lia. rewrite Nat2Z.id, (take_ge _ (length v)) by (rewrite length_take; lia).
      rewrite take_ge, ReadFile.cstr_id by (done || lia). apply wp_bind, wp_ret. rewrite Hp. apply Hnext; [done|right].
      apply elem_of_app. right. by apply list_elem_of_singleton.
    + case_match; [by apply Hnext; [|left]|]. unfold cfg_string. case_match.
      * apply wp_bind, wp_bind, wp_mod, wp_ret. parsed; [|apply wp_ret; cbn; unfold ZOOK_SERVER_INFO_ERROR; lia].
        apply Hnext; [done|by left].
      * apply wp_bind, wp_ret. parsed; [|apply wp_ret; cbn; unfold ZOOK_SERVER_INFO_ERROR; lia]. apply Hnext; [done|by left].
Qed.
Lemma load_wp serverPath d info w :
  no_loss → server_at serverPath d info (zk w) → d ≠ [] → slash ∉ d →
  wp (LoadTcpServerListInfo serverPath) (λ r _, 0 <= r.1 → info ∈ r.2) w.
Proof.
  intros Hl Hs Hne Hd. unfold LoadTcpServerListInfo. apply wp_bind, wp_gets. destruct (zkHandle (self w)); cbn [negb].
  2:{ apply wp_ret. cbn. unfold ZOOK_CONFIG_NO_INIT. lia. }
  apply wp_bind, (retry_wp fst (zoo_get_children serverPath true) (λ z, nodes z = nodes (zk w))
    (λ r z, nodes z = nodes (zk w) ∧ r.1 <= 0 ∧ (r.1 = ZOK → d ∈ r.2))).
  - intros z Hz. destruct (alone_children serverPath true z) as [E Hin]. pose proof (proj2 (alone_codes serverPath true z)) as Hneg.
    rewrite E. split; [|done]. split_and!; [done|done|]. intros Hr. apply (Hin Hr). split_and!; [done|done|].
    destruct Hs as (v & Hv & _). unfold value_of in Hv. rewrite Hz. destruct (nodes (zk w) !! _); [by eexists|done].
  - done.
  - intros [r l] w1 O1 (E & Hneg & Hin). cbn [fst snd] in *. destruct (Z.eqb_spec r ZOK) as [->|Hr]; cbn [negb].
    + eapply (list_each_wp _ _ _ d); [done| |left; by apply Hin]. destruct Hs as (v & Hv & Hs). exists v. split; [|done].
      unfold value_of in *. by rewrite E.
    + apply wp_ret. cbn. intros ?. unfold ZOK in Hr. lia.
Qed.

(** C18: A server that registered itself is in the list: when [createServerInfo] has
    succeeded and no other client changes nodes, the [LoadTcpServerListInfo] of the
    parent that is called next and succeeds gives an entry with the same address, port and suffix, and the
    number that the name of the node begins with. For ports below [2^15], addresses
    without colon, lines that fit the array, and while no connection is lost
    ([port_negative], [bad_value_hides] and [server_left_out] are runs without these). *)
Theorem server_listed serverPath name ip po suff w :
  no_loss → no_nul serverPath → name ≠ [] → slash ∉ name → no_nul name →
  no_nul ip → ":"%byte ∉ ip → no_nul suff → 0 <= po < 2 ^ 15 → (length (server_value ip po suff) < 512)%nat →
  let '(r, w1) := createServerInfo (serverPath ++ [slash] ++ name) ip po suff w in
  let '((ret, infoList), _) := LoadTcpServerListInfo serverPath w1 in
  r = ZOK → 0 <= ret → {| gateNo := atoi name; port := po; ipAddr := ip; suffix := suff |} ∈ infoList.
Proof.
  intros Hl Hsp Hne Hs Hn Hip Hc Hsu Hp Hlen.
  assert (Hstr : cstr (serverPath ++ [slash] ++ name) = serverPath ++ [slash] ++ name).
  { apply ReadFile.cstr_id. rewrite !no_nul_app. split_and!; [done|decide_now|done]. }
  assert (Hcreate : wp (createServerInfo (serverPath ++ [slash] ++ name) ip po suff)
    (λ r w1, r = ZOK → value_of (zk w1) (serverPath ++ [slash] ++ name) = Some (server_value ip po suff)) w).
  { unfold createServerInfo. apply wp_bind, zsprintf_wp. intros w0 _ _ _ _. eapply wp_mono; [apply createPath_wp|].
    rewrite Hstr. intros r w1 (_ & _ & Hok & _) Hr. destruct (Hok Hr) as (_ & n & Hn1 & Hv & _). unfold value_of. rewrite Hn1. cbn. by rewrite Hv. }
  unfold wp in Hcreate. destruct (createServerInfo _ _ _ _ w) as [r w1]. cbn [fst snd] in Hcreate.
  destruct (LoadTcpServerListInfo serverPath w1) as [[ret l] w2] eqn:E. intros Hr.
  assert (Hnul : no_nul (server_value ip po suff)).
  { unfold server_value. rewrite ReadFile.cstr_id by done.
    assert (Hf : no_nul (fmt_ld po)) by (apply digits_free; done).
    destruct suff; rewrite ?ReadFile.cstr_id by done; rewrite !no_nul_app; split_and!; done || decide_now. }
  refine (wp_run _ (λ r _, 0 <= r.1 → _ ∈ r.2) _ _ _ E (load_wp serverPath name _ w1 Hl _ Hne Hs)).
  exists (server_value ip po suff). split_and!; [by apply Hcreate| |done|lia|by apply parse_server_value].
  unfold server_value. destruct suff; by destruct (cstr ip).
Qed.
End create.

(** ** Samples *)

Import ZkSample.
Definition plain (v : string) : Node := {| n_value := lit v; n_owner := None |}.
Definition of_session (n : nat) (v : string) : Node := {| n_value := lit v; n_owner := Some n |}.
(** A client of session 2 with three addresses of servers. *)
Definition client (loss : nat → option bool) (l : list (string * Node)) : World (H := service loss) := {|
  zk := {| s_nodes := list_to_map (map (λ e, (lit e.1, e.2)) l); s_watches := ∅; s_events := []; s_session := 2; s_tick := 0 |} : @Zk (service loss);
  self := ZookConfig_new <| colonyNum := 3%nat |> <| zkHandle := true |> <| configCb := true |> <| serverCb := true |>; calls := []; undefined := false |}.
Definition lost_at (n : nat) (applied : bool) : nat → option bool := λ k, if (k =? n)%nat then Some applied else None.
Definition reliable : nat → option bool := λ _, None.

Lemma path_created_witness :
  let w := client (lost_at 1 false) [] in
  let str := cstr (lit "/srv/gate/7") in
  let '(r, w') := createPath 1 (lit "/srv/gate/7") (lit "10.0.0.1:80") w in
  let m := nodes (zk w) in let m' := nodes (zk w') in
  (∀ q, q ≠ str → m' !! q = m !! q ∨ (ancestor q str ∧ m !! q = None ∧ m' !! q = Some empty_node)) ∧
  (∀ n, m !! str = Some n → ∃ n', m' !! str = Some n' ∧ n_owner n' = n_owner n) ∧
  (r = ZOK → (∀ q, ancestor q str → is_Some (m' !! q)) ∧
     ∃ n, m' !! str = Some n ∧ n_value n = lit "10.0.0.1:80" ∧
       (m !! str = None → n_owner n = if 1 =? 1 then Some (session (zk w)) else None)) ∧
  self w' = self w ∧ calls w' = calls w ∧ undefined w' = undefined w.
Proof. apply (path_created 1 (lit "/srv/gate/7") (lit "10.0.0.1:80") (client (lost_at 1 false) [])). Defined.
(** It succeeds. *)
Lemma path_created_run :
  (createPath 1 (lit "/srv/gate/7") (lit "10.0.0.1:80") (client (lost_at 1 false) [])).1 = ZOK.
Proof. by vm_compute. Qed.

Lemma server_listed_witness :
  let '(r, w1) := createServerInfo (lit "/srv" ++ [slash] ++ lit "7_a") (lit "10.0.0.1") 8080 (lit "b:c") (client reliable [("/srv", plain "")]) in
  let '((ret, infoList), _) := LoadTcpServerListInfo (lit "/srv") w1 in
  r = ZOK → 0 <= ret → {| gateNo := atoi (lit "7_a"); port := 8080; ipAddr := lit "10.0.0.1"; suffix := lit "b:c" |} ∈ infoList.
Proof.
  apply (server_listed (HZ := service reliable) (lit "/srv") (lit "7_a") (lit "10.0.0.1") 8080 (lit "b:c")); try decide_now.
  intros p watch z. cbn. destruct (s_nodes z !! p); done.
Defined.

(** *** Runs that go wrong *)

Definition listed (loss : nat → option bool) (l : list (string * Node)) : Z * list TcpServerInfo :=
  (LoadTcpServerListInfo (lit "/srv") (client loss l)).1.
(** The port is kept in an [int16_t]. *)
Lemma port_negative : listed reliable [("/srv", plain ""); ("/srv/1", plain "10.0.0.1:40000")] =
  (1, [{| gateNo := 1; port := -25536; ipAddr := lit "10.0.0.1"; suffix := [] |}]).
Proof. by vm_compute. Qed.
(** A server whose value cannot be read because the connection is lost is left out of a
    list that is reported as complete. *)
Lemma server_left_out :
  listed (λ n, if (1 <=? n)%nat && (n <=? 3)%nat then Some false else None) [("/srv", plain ""); ("/srv/1", plain "10.0.0.1:80")] = (0, []).
Proof. by vm_compute. Qed.
(** One value without colon hides the servers that follow. *)
Lemma bad_value_hides : (listed reliable [("/srv", plain ""); ("/srv/1", plain "x"); ("/srv/2", plain "10.0.0.1:80")]).1 = ZOOK_SERVER_INFO_ERROR.
Proof. by vm_compute. Qed.
(** When the connection is lost after the node was made, the repeated call finds it, and the
    creation is reported as failed. *)
Lemma created_but_failed :
  let '(r, w) := createPath 1 (lit "/a/b") (lit "v") (client (lost_at 2 true) [("/a", plain "")]) in
  r = ZNODEEXISTS ∧ nodes (zk w) !! lit "/a/b" = Some (of_session 2 "v").
Proof. by vm_compute. Qed.
(** A server that starts again before its old session has ended only sets the value of the
    old node, which vanishes with the old session. *)
Lemma registration_of_old_session :
  let '(r, w) := createPath 1 (lit "/srv/7") (lit "new") (client reliable [("/srv", plain ""); ("/srv/7", of_session 1 "old")]) in
  r = ZOK ∧ nodes (zk w) !! lit "/srv/7" = Some (of_session 1 "new").
Proof. by vm_compute. Qed.
(** The type of the servers comes with a slash here, and without in the callback. *)
Lemma type_with_slash :
  (getTcpServerListInfo (lit "/srv") (client reliable [("/srv", plain "")])).1.2 = Some (lit "/srv") ∧
  calls (watcher ZOO_CHILD_EVENT (lit "/srv") (getTcpServerListInfo (lit "/srv") (client reliable [("/srv", plain "")])).2).2 =
    [ServerCall [] (lit "srv")].
Proof. by vm_compute. Qed.
(** An event of ["/srv2"] also counts as one of ["/srv"]: the callback is called twice. *)
Lemma called_twice :
  let w := client reliable [("/srv", plain ""); ("/srv2", plain "")] in
  let w := (getTcpServerListInfo (lit "/srv2") (getTcpServerListInfo (lit "/srv") w).2).2 in
  length (calls (watcher ZOO_CHILD_EVENT (lit "/srv2") w).2) = 2%nat.
Proof. by vm_compute. Qed.
(** While the connection is down, a change is reported to the application as the end of all
    servers. *)
Lemma all_servers_gone :
  let l := [("/srv", plain ""); ("/srv/1", plain "10.0.0.1:80")] in
  let w := (getTcpServerListInfo (lit "/srv") (client (λ n, if (2 <=? n)%nat then Some false else None) l)).2 in
  calls (watcher ZOO_CHILD_EVENT (lit "/srv") w).2 = [ServerCall [] (lit "srv")].
Proof. by vm_compute. Qed.
End ZookProofs.
