(* ===== verification/ZookMirror.v ===== *)
(** * The copy of the configuration

    While a value is watched the copy of it is right, whatever the application, the
    library and other clients do in between; the watch ends with the first change. *)

From S2P Require Import Prelude CLib Incommon FileSys WriteFile ReadFile ZookConfig ZookLaws ZookProofs.
Import FileSys(slash, cstr) ZookConfig ZookProofs.

Module ZookMirror.

(** ** Everything that can happen *)

Inductive Event `{Zookeeper} :=
  | EInit (zookAddr : bytes) | ELoad (configPath : bytes) | EGetKey (key : bytes) | ESetKey (key value : bytes)
  | EGetPath (path : bytes) | ECreate (flags : Z) (path value : bytes) | EServerInfo (path ip : bytes) (port : Z) (suffix : bytes)
  | EList (serverPath : bytes) | EConfigCall | EServerCall
  | EWatch (type : Z) (path : bytes)  (* the library calls [watcher] *)
  | EOthers (z : Zk).                 (* other clients act *)

Section events.
Context `{HZ : Zookeeper} `{!ZkView HZ}.

Definition ignore {A} (m : St World A) : St World () := _ ← m; mret ().
Definition handle (e : Event) : St World () :=
  match e with
  | EInit a => ignore (zookConfigInit a)
  | ELoad p => ignore (zookLoadAllConfig p)
  | EGetKey k => ignore (getConfigKeyValue k)
  | ESetKey k v => ignore (setConfigKeyValue k v)
  | EGetPath p => ignore (zookGetPathValue p)
  | ECreate f p v => ignore (createPath f p v)
  | EServerInfo p ip po s => ignore (createServerInfo p ip po s)
  | EList p => ignore (getTcpServerListInfo p)
  | EConfigCall => setConfigChangeCall
  | EServerCall => setServerChangeCall
  | EWatch t p => watcher t p
  | EOthers z => st_mod (λ w, w <| zk := z |>)
  end.
Definition key_path (root key : bytes) : bytes := root ++ [slash] ++ key.
(** A watch that the library reports is not set any more; the configuration is not that
    of the root node. *)
Definition allowed (e : Event) (w : World) : Prop :=
  match e with
  | ELoad p => no_nul p ∧ p ≠ [slash]
  | EWatch t p => t = ZOO_CHANGED_EVENT → ∃ key, p = key_path (configRootPath (self w)) key ∧ p ∉ watches (zk w)
  | EOthers z => stable (zk w) z
  | _ => True
  end.
Inductive reachable : World → Prop :=
  | reach_new z : watches z = ∅ → reachable {| zk := z; self := ZookConfig_new; calls := []; undefined := false |}
  | reach_step w e : reachable w → allowed e w → reachable (handle e w).2.
End events.

(** ** What does not touch the copy *)

Create HintDb quietly.
Section quietly.
Context `{HZ : Zookeeper} `{!ZkView HZ, !ZkWatches HZ}.

Definition quietly (w w' : World) : Prop :=
  (undefined w' = false → undefined w = false) ∧ stable (zk w) (zk w') ∧
  configMap (self w') = configMap (self w) ∧ configRootPath (self w') = configRootPath (self w).
#[export] Instance quietly_preorder : PreOrder quietly.
Proof. split; [by intros w|]. intros a b c (U1&S1&M1&R1) (U2&S2&M2&R2). split_and!; [auto|by etrans|congruence..]. Qed.
Definition is_quiet {A} (m : St World A) : Prop := ∀ w, quietly w (m w).2.
Lemma unseen_ret {A} (a : A) : is_quiet (mret a).
Proof. by intros w. Qed.
Lemma unseen_bind {A B} (m : St World A) (k : A → St World B) : is_quiet m → (∀ a, is_quiet (k a)) → is_quiet (m ≫= k).
Proof. intros Hm Hk w. rewrite st_bind_run. specialize (Hm w). destruct (m w) as [a w1]. etrans; [exact Hm|apply Hk]. Qed.
Lemma unseen_gets {A} (f : World → A) : is_quiet (st_gets f).
Proof. by intros w. Qed.
Lemma unseen_undefined : is_quiet undefined_behaviour.
Proof. by intros w; split_and!. Qed.
Lemma unseen_modify f : (∀ z, configMap (f z) = configMap z ∧ configRootPath (f z) = configRootPath z) → is_quiet (modify f).
Proof. intros Hf w. destruct (Hf (self w)) as [E1 E2]. by split_and!. Qed.
Lemma unseen_call c : is_quiet (call c).
Proof. by intros w; split_and!. Qed.
Lemma unseen_zoo {A} (f : Zk → A * Zk) : (∀ z, stable z (f z).2) → is_quiet (zoo f).
Proof. intros Hf w. unfold zoo. specialize (Hf (zk w)). destruct (f (zk w)) as [a z]. by split_and!. Qed.
Lemma unseen_get_unwatched p : is_quiet (zoo (zoo_get p false)).
Proof.
  apply unseen_zoo. intros z q. pose proof (get_watches p false z) as Hg. destruct (zoo_get p false z) as [[[r len] cfg] z'].
  intros Hq. by destruct (Hg q Hq) as [[?|(_ & ? & _)] _].
Qed.
Hint Resolve unseen_ret unseen_gets unseen_undefined unseen_call unseen_get_unwatched : quietly.
Lemma unseen_get {A} (f : ZookConfig → A) : is_quiet (get f).
Proof. apply unseen_gets. Qed.
Lemma unseen_attempts {A} (code : A → Z) n f : is_quiet (zoo f) → is_quiet (attempts code n f).
Proof.
  intros Hf. induction n as [|n IH]; cbn [attempts]; apply unseen_bind; auto with quietly. intros a.
  destruct (_ =? _); auto with quietly.
Qed.
Lemma unseen_retry {A} (code : A → Z) f : is_quiet (zoo f) → is_quiet (retry code f).
Proof. intros Hf. apply unseen_bind; [apply unseen_get|]. intros n. by apply unseen_attempts. Qed.
Lemma unseen_exists p : is_quiet (retry id (zoo_exists p)).
Proof. apply unseen_retry, unseen_zoo, stable_exists. Qed.
Lemma unseen_create p v f : is_quiet (retry id (zoo_create p v f)).
Proof. apply unseen_retry, unseen_zoo. intros z. apply stable_create. Qed.
Lemma unseen_set p v : is_quiet (retry id (zoo_set p v)).
Proof. apply unseen_retry, unseen_zoo. intros z. apply stable_set. Qed.
Lemma unseen_children p b : is_quiet (retry fst (zoo_get_children p b)).
Proof. apply unseen_retry, unseen_zoo. intros z. apply stable_children. Qed.
Lemma unseen_reread p : is_quiet (retry code_of (zoo_get p false)).
Proof. apply unseen_retry, unseen_get_unwatched. Qed.
Lemma unseen_init a : is_quiet (zoo (zookeeper_init a)).
Proof. apply unseen_zoo. intros z. apply stable_init. Qed.
Hint Resolve unseen_get unseen_exists unseen_create unseen_set unseen_children unseen_reread unseen_init : quietly.
Ltac quiet := repeat first [ progress auto with quietly | apply unseen_bind; [|intros ?] | apply unseen_modify; done | case_match | case_decide ].
Lemma unseen_sprintf s : is_quiet (sprintf s).
Proof. unfold sprintf. quiet. Qed.
Lemma unseen_cfg_string n s : is_quiet (cfg_string n s).
Proof. unfold cfg_string. quiet. Qed.
Hint Resolve unseen_sprintf unseen_cfg_string : quietly.
Lemma unseen_create_parents d rest : is_quiet (create_parents d rest).
Proof. revert d. induction rest as [|c rest IH]; intros d; cbn [create_parents]; quiet. Qed.
Hint Resolve unseen_create_parents : quietly.
Lemma unseen_createPath f p v : is_quiet (createPath f p v).
Proof. unfold createPath. quiet. Qed.
Hint Resolve unseen_createPath : quietly.
Lemma unseen_list_each p data acc : is_quiet (list_each p data acc).
Proof. revert acc. induction data as [|d data IH]; intros acc; cbn [list_each]; quiet. Qed.
Hint Resolve unseen_list_each : quietly.
Lemma unseen_load_list p : is_quiet (LoadTcpServerListInfo p).
Proof. unfold LoadTcpServerListInfo. quiet. Qed.
Hint Resolve unseen_load_list : quietly.
Lemma unseen_server_change p : is_quiet (serverInfoChangeCallBack p).
Proof. unfold serverInfoChangeCallBack. quiet. Qed.
Hint Resolve unseen_server_change : quietly.
Lemma unseen_each_server p l : is_quiet (each_server p l).
Proof. induction l as [|t l IH]; cbn [each_server]; quiet. Qed.
Lemma unseen_handle e : match e with ELoad _ | EWatch _ _ | EOthers _ => True | _ => is_quiet (handle e) end.
Proof.
  destruct e; cbn [handle]; try done; unfold ignore, zookConfigInit, initialize_zookeeper, getConfigKeyValue, setConfigKeyValue,
    zookGetPathValue, createServerInfo, createSessionPath, getTcpServerListInfo, setConfigChangeCall, setServerChangeCall; quiet.
Qed.
End quietly.

(** ** The invariant *)

Section mirror.
Context `{HZ : Zookeeper} `{!ZkView HZ, !ZkWatches HZ}.

(** What is watched is right in the copy, unless an array was overrun. *)
Definition mirrored (root : bytes) (w : World) : Prop := undefined w = false → ∀ key,
  key_path root key ∈ watches (zk w) → ∃ v, value_of (zk w) (key_path root key) = Some v ∧ configMap (self w) !! key = Some (cstr v).
Record Inv (w : World) : Prop := {
  i_new : configRootPath (self w) = [] → watches (zk w) = ∅ ∧ configMap (self w) = ∅;
  i_root : no_nul (configRootPath (self w)) ∧ configRootPath (self w) ≠ [slash];
  i_mirror : configRootPath (self w) ≠ [] → mirrored (configRootPath (self w)) w }.

Lemma mirrored_quietly root w w' : quietly w w' → mirrored root w → mirrored root w'.
Proof.
  intros (Hu & Hs & Hm & _) Hi Hu' key Hk. destruct (Hs _ Hk) as [Hk' ->]. rewrite Hm. by apply Hi; [apply Hu|].
Qed.
Lemma Inv_quietly w w' : quietly w w' → Inv w → Inv w'.
Proof.
  intros Hq []. pose proof Hq as (_ & Hs & Hm & Hr). split; rewrite ?Hr; [|done|].
  - intros E. destruct (i_new0 E) as [Hw ?]. rewrite Hm. split; [|done]. apply set_eq. intros p. split; [|by intros ?%elem_of_empty].
    intros Hp%Hs. rewrite Hw in Hp. by destruct Hp as [?%elem_of_empty _].
  - intros E. eapply mirrored_quietly; eauto.
Qed.
Lemma key_path_inj root k1 k2 : key_path root k1 = key_path root k2 → k1 = k2.
Proof. unfold key_path. by intros ?%app_inv_head%app_inv_head. Qed.

(** The value that a call left in the array. *)
Lemma cfg_value_wp len cfg w :
  wp (if 0 <? len then cfg_string len cfg else mret []) (λ s w', quietly w w' ∧ zk w' = zk w ∧ self w' = self w ∧
    (undefined w' = false → ∀ v, got v len cfg → s = cstr v)) w.
Proof.
  destruct (Z.ltb_spec 0 len) as [Hl|Hl].
  - unfold cfg_string. destruct (Z.leb_spec 1024 len); [by apply wp_bind, wp_mod, wp_ret; split_and!|].
    apply wp_ret. split_and!; try done. intros _ v [-> ->]. rewrite Nat2Z.id, !take_ge by (rewrite ?length_take; lia). done.
  - apply wp_ret. split_and!; try done. intros _ v [-> ->]. destruct v; [done|]. rewrite length_cons in Hl. lia.
Qed.
Lemma sprintf_quietly s w : wp (sprintf s) (λ a w', a = s ∧ quietly w w') w.
Proof. pose proof (unseen_sprintf s w) as Hq. unfold wp, sprintf in *. case_decide; by split. Qed.

Lemma load_each_wp root pathcheck data w :
  pathcheck ≠ 1 → NoDup data → (∀ d, d ∈ data → configMap (self w) !! d = None) → mirrored root w →
  wp (load_each pathcheck root data) (λ _ w', mirrored root w' ∧ configRootPath (self w') = configRootPath (self w)) w.
Proof.
  intros Hc. revert w. induction data as [|d data IH]; intros w Hnd Hnew Hm; cbn [load_each]; [by apply wp_ret|].
  apply NoDup_cons in Hnd as [Hd Hnd].
  replace (child_path pathcheck root d) with (key_path root d) by (unfold child_path; by destruct (Z.eqb_spec pathcheck 1)).
  apply wp_bind. eapply wp_mono; [apply sprintf_quietly|]. intros ? w1 [-> Q1].
  apply wp_bind, (retry_wp code_of (zoo_get (key_path root d) true) (λ z, stable (zk w1) z)
    (λ a z, ∀ q, q ∈ watches z → (q ∈ watches (zk w1) ∧ value_of z q = value_of (zk w1) q ∨ q = key_path root d ∧ code_of a = ZOK) ∧
       (q = key_path root d → code_of a = ZOK → ∃ v, value_of z q = Some v ∧ got v a.1.2 a.2))).
  - intros z Hz. pose proof (get_watches (key_path root d) true z) as Hg. destruct (zoo_get (key_path root d) true z) as [[[r len] cfg] z'].
    cbn. split.
    + intros q Hq. destruct (Hg q Hq) as [[[Hin E]|(-> & _ & ->)] Hval].
      * split; [left; rewrite E; by apply Hz|]. intros Eq Er. rewrite Eq. by apply Hval.
      * split; [by right|]. intros _ _. by apply Hval.
    + unfold code_of. cbn. intros -> q Hq. destruct (Hg q Hq) as [[[Hin E]|(_ & _ & ?)] _]; [|done]. rewrite E. by apply Hz.
  - done.
  - intros [[r len] cfg] w2 (Es & Ec & Eu) Hw. unfold code_of in Hw. cbn in Hw. pose proof Q1 as (U1 & S1 & M1 & R1).
    destruct (Z.eqb_spec r ZOK) as [->|Hr]; cbn [negb].
    2:{ apply wp_ret. split; [|congruence]. eapply mirrored_quietly; [|exact Hm]. etrans; [exact Q1|].
        split_and!; [congruence| |congruence..]. intros q Hq. by destruct (Hw q Hq) as [[?|[_ ?]] _]. }
    assert (Hothers : undefined w2 = false → ∀ key, key ≠ d → key_path root key ∈ watches (zk w2) →
      ∃ v, value_of (zk w2) (key_path root key) = Some v ∧ configMap (self w2) !! key = Some (cstr v)).
    { intros Hu key Hne Hq. destruct (Hw _ Hq) as [[[Hin E]|[E _]] _]; [|by apply key_path_inj in E]. rewrite E, Es, M1.
      destruct (S1 _ Hin) as [Hin' ->]. apply Hm; [|done]. apply U1. congruence. }
    apply wp_bind. eapply wp_mono; [apply cfg_value_wp|]. intros s w3 (Q3 & Z3 & S3 & H3).
    apply wp_bind, wp_mod. set (w4 := set_with _ _ _).
    assert (Hd0 : configMap (self w3) !! d = None) by (rewrite S3, Es, M1; apply Hnew, elem_of_cons; by left).
    assert (Em : configMap (self w4) = <[d := s]> (configMap (self w3))) by (cbn; by rewrite Hd0).
    eapply wp_mono; [apply (IH w4)|].
    + done.
    + intros d' Hd'. rewrite Em, lookup_insert_ne by (by intros ->). rewrite S3, Es, M1. apply Hnew, elem_of_cons. by right.
    + intros Hu key Hq. change (zk w4) with (zk w3) in *. change (undefined w4) with (undefined w3) in *. rewrite Em, Z3 in *.
      destruct (decide (key = d)) as [->|Hne].
      * destruct (Hw _ Hq) as [_ Hv]. destruct (Hv eq_refl eq_refl) as (v & Hv1 & Hv2). exists v. split; [done|].
        rewrite lookup_insert_eq. f_equal. by apply H3.
      * rewrite lookup_insert_ne, S3 by done. apply Hothers; [|done..]. by apply Q3.
    + intros r w5 [H5 R5]. split; [done|]. rewrite R5. change (configRootPath (self w4)) with (configRootPath (self w3)). congruence.
Qed.

Lemma path_check_one p : zookeeperPathCheck p = 1 → p = [slash].
Proof.
  unfold zookeeperPathCheck. destruct p as [|c p]; [done|]. destruct (bool_decide (c = slash)) eqn:Ec; cbn [negb]; [|done].
  apply bool_decide_eq_true in Ec as ->. destruct p as [|c' p]; [done|]. destruct (bool_decide _); [done|]. rewrite !length_cons. lia.
Qed.
Lemma load_Inv p w : no_nul p → p ≠ [slash] → Inv w → wp (zookLoadAllConfig p) (λ _ w', Inv w') w.
Proof.
  intros Hnul Hp HI. unfold zookLoadAllConfig. destruct p as [|c p]; [by apply wp_ret|]. set (root := c :: p) in *.
  apply wp_bind, wp_gets. destruct (configRootPath (self w)) eqn:Er; [|by apply wp_ret].
  destruct (i_new _ HI Er) as [Hw Hm]. apply wp_bind, wp_mod. set (w1 := set_with _ _ _).
  assert (Hmir : mirrored root w1) by (intros _ key; cbn; rewrite Hw; by intros ?%elem_of_empty).
  assert (HI1 : ∀ w', mirrored root w' → configRootPath (self w') = root → Inv w').
  { intros w' Hm' Hr'. split; rewrite Hr'; done. }
  unfold loadAllKeyValue. rewrite ReadFile.cstr_id by done. case_match; [by apply wp_ret, HI1|].
  apply wp_bind, wp_gets. case_match; [by apply wp_ret, HI1|].
  assert (Hch : wp (retry fst (zoo_get_children root false)) (λ r w2, quietly w1 w2 ∧ NoDup r.2) w1).
  { split; [apply unseen_children|]. change (wp (retry fst (zoo_get_children root false)) (λ r _, NoDup r.2) w1).
    apply (retry_wp fst (zoo_get_children root false) (λ _, True) (λ r _, NoDup r.2)); [|done|by intros].
    intros z _. split; [apply children_distinct|done]. }
  apply wp_bind. eapply wp_mono; [exact Hch|]. intros [r l] w2 [Q2 Hnd]. pose proof Q2 as (_ & _ & M2 & R2).
  assert (H2 : mirrored root w2) by (by eapply mirrored_quietly).
  case_match; [by apply wp_ret, HI1|].
  eapply wp_mono; [apply load_each_wp; [by intros ?%path_check_one|done| |done]|].
  - intros d _. rewrite M2. cbn. by rewrite Hm, lookup_empty.
  - intros r' w3 [H3 R3]. apply HI1; [done|by rewrite R3, R2].
Qed.
Lemma update_Inv key w :
  configRootPath (self w) ≠ [] → key_path (configRootPath (self w)) key ∉ watches (zk w) → Inv w →
  wp (configUpdateCallBack key) (λ _ w', Inv w') w.
Proof.
  intros Hroot Hkey HI. unfold configUpdateCallBack. apply wp_bind, wp_gets. apply wp_bind. eapply wp_mono; [apply sprintf_quietly|].
  intros p w1 [-> Q1]. apply wp_bind. set (p := cstr _ ++ _). pose proof (unseen_get_unwatched p w1) as Q2. unfold wp at 1.
  destruct (zoo (zoo_get p false) w1) as [[[r len] cfg] w2]. cbn [fst snd] in *.
  assert (Q02 : quietly w w2) by (by etrans). apply wp_bind, wp_gets.
  destruct (configMap (self w2) !! key) as [old|]; [|by eapply wp_ret, Inv_quietly].
  apply wp_bind. eapply wp_mono; [apply cfg_value_wp|]. intros s w3 (Q3 & _ & S3 & _).
  assert (Q03 : quietly w w3) by (by etrans). apply wp_bind, wp_mod. set (w4 := set_with _ _ _).
  assert (HI4 : Inv w4).
  { pose proof (Inv_quietly _ _ Q03 HI) as [_ H2 H3]. pose proof Q03 as (_ & S03 & _ & R3). split.
    - change (configRootPath (self w4)) with (configRootPath (self w3)). rewrite R3. done.
    - done.
    - intros Hr Hu k Hk. change (configRootPath (self w4)) with (configRootPath (self w3)) in *.
      destruct (decide (k = key)) as [->|Hne].
      + destruct Hkey. rewrite R3 in Hk. by apply (S03 _ Hk).
      + destruct (H3 Hr Hu k Hk) as (v & Hv & Hm). exists v. split; [done|]. cbn. by rewrite lookup_insert_ne. }
  apply wp_bind, wp_gets. destruct (configCb (self w4)); [|by apply wp_ret]. eapply Inv_quietly; [apply unseen_call|done].
Qed.
Lemma handle_Inv e w : allowed e w → Inv w → Inv (handle e w).2.
Proof.
  intros Ha HI. pose proof (unseen_handle e) as Hq. destruct e as [a|p|k|k v|p|fl p v|p ip po su|p| | |t p|z]; try (by eapply Inv_quietly; [apply Hq|]).
  - destruct Ha as [Hn Hp]. change (wp (ignore (zookLoadAllConfig p)) (λ _ w', Inv w') w). unfold ignore.
    apply wp_bind. eapply wp_mono; [by apply load_Inv|]. intros. by apply wp_ret.
  - change (wp (watcher t p) (λ _ w', Inv w') w). unfold watcher. destruct (Z.eqb_spec t ZOO_CHANGED_EVENT) as [Ht|Ht].
    + destruct (Ha Ht) as (key & -> & Hw). rewrite Ht. cbn [Z.eqb ZOO_CHANGED_EVENT ZOO_CHILD_EVENT Pos.eqb].
      apply wp_bind, wp_ret, wp_bind, wp_gets. destruct (configRootPath (self w)) as [|c root] eqn:Er; [by apply wp_ret|].
      unfold starts_with. rewrite bool_decide_true by (eexists; done). rewrite decide_False.
      2:{ unfold key_path. rewrite !length_app. cbn. lia. }
      assert (E : drop (length (c :: root) + 1) (key_path (c :: root) key) = key).
      { unfold key_path. rewrite app_assoc. apply drop_app_length'. by rewrite length_app. }
      rewrite E. apply update_Inv; [by rewrite Er|by rewrite Er|done].
    + apply wp_bind, (wp_mono _ (λ _ w', Inv w')); [|intros; by apply wp_ret].
      assert (Hquiet : is_quiet (if t =? ZOO_CHILD_EVENT then typeVector ← get serverPathVector; each_server p typeVector else mret ())).
      { destruct (t =? ZOO_CHILD_EVENT); [apply unseen_bind; [apply unseen_get|intros l; apply unseen_each_server]|apply unseen_ret]. }
      eapply Inv_quietly; [apply Hquiet|done].
  - eapply Inv_quietly; [|exact HI]. by split_and!.
Qed.

End mirror.

(** ** Samples *)

Import ZkSample.
Definition config_nodes (k1 k2 : string) : gmap bytes Node :=
  list_to_map [(lit "/cfg", plain ""); (lit "/cfg/k1", plain k1); (lit "/cfg/k2", plain k2)].
Definition started (k1 k2 : string) : World (H := service reliable) := {|
  zk := {| s_nodes := config_nodes k1 k2; s_watches := ∅; s_events := []; s_session := 2; s_tick := 0 |} : @Zk (service reliable);
  self := ZookConfig_new; calls := []; undefined := false |}.
(** Another client sets a value. *)
Definition others_set (p v : string) (w : World (H := service reliable)) : Event (H := service reliable) :=
  EOthers (H := service reliable) (zoo_set (lit p) (lit v) (zk w)).2.
Definition next (e : World (H := service reliable) → Event) (w : World) : World := (handle (e w) w).2.
Definition loaded (k1 k2 : string) : World (H := service reliable) :=
  next (λ _, ELoad (lit "/cfg")) (next (λ _, EConfigCall) (next (λ _, EInit (lit "a:1,b:2")) (started k1 k2))).
Definition changed_once : World (H := service reliable) :=
  next (λ _, EWatch ZOO_CHANGED_EVENT (lit "/cfg/k2")) (next (others_set "/cfg/k2" "new") (loaded "one" "two")).

Lemma changed_once_reachable : reachable changed_once.
Proof.
  unfold changed_once, loaded, next. repeat (apply reach_step); cbn [allowed].
  - apply (reach_new (HZ := service reliable)). done.
  - done.
  - done.
  - split; [decide_now|discriminate].
  - apply stable_set.
  - intros _. exists (lit "k2"). split; [reflexivity|]. apply (bool_decide_unpack _). by vm_compute.
Qed.
(** The change of the other key has arrived. *)
Lemma changed_once_run :
  configMap (self changed_once) !! lit "k2" = Some (lit "new") ∧ calls changed_once = [ConfigCall (lit "k2") (lit "two") (lit "new")].
Proof. by vm_compute. Qed.

(** The callback reads the new value without setting the watch again: the second change of
    a key is not announced, and the copy stays at the first. *)
Lemma second_change_missed :
  let w := next (others_set "/cfg/k2" "newer") changed_once in
  s_events (zk w) = [(ZOO_CHANGED_EVENT, lit "/cfg/k2")] ∧ value_of (zk w) (lit "/cfg/k2") = Some (lit "newer") ∧
  configMap (self w) !! lit "k2" = Some (lit "new").
Proof. by vm_compute. Qed.
(** A key that is added is never noticed. *)
Lemma added_key_missed :
  let w := loaded "one" "two" in let '(r, z) := zoo_create (lit "/cfg/k3") (lit "x") 0 (zk w) in
  r = ZOK ∧ s_events z = [].
Proof. by vm_compute. Qed.
(** A value of 1024 bytes: the terminator is written behind the array. *)
Lemma long_value_overruns : undefined (loaded (String.concat "" (replicate 1024 "x"%string)) "two") = true.
Proof. by vm_compute. Qed.
(** The callback does not look at the code of [zoo_get]: without an answer the length is that
    of the array, and the terminator is written behind it. *)
Lemma failed_read_overruns :
  let w := {| zk := {| s_nodes := ∅; s_watches := ∅; s_events := []; s_session := 2; s_tick := 0 |} : @Zk (service reliable);
    self := ZookConfig_new <| configRootPath := lit "/cfg" |> <| configMap := {[ lit "k1" := lit "one" ]} |>; calls := []; undefined := false |} in
  undefined (watcher ZOO_CHANGED_EVENT (lit "/cfg/k1") w).2 = true.
Proof. by vm_compute. Qed.
(** For the configuration of the root node the key loses its first character: nothing is updated. *)
Lemma root_never_updated :
  let w := {| zk := {| s_nodes := {[ lit "/k1" := plain "new" ]}; s_watches := ∅; s_events := []; s_session := 2; s_tick := 0 |} : @Zk (service reliable);
    self := ZookConfig_new <| configRootPath := [slash] |> <| configMap := {[ lit "k1" := lit "one" ]} |>; calls := []; undefined := false |} in
  configMap (self (watcher ZOO_CHANGED_EVENT (lit "/k1") w).2) !! lit "k1" = Some (lit "one").
Proof. by vm_compute. Qed.
(** The addresses are counted. *)
Lemma addresses_counted : colonyNum (self (zookConfigInit (lit "a:1,b:2,c:3") (started "" "")).2) = 3%nat.
Proof. by vm_compute. Qed.
End ZookMirror.
