(* ===== verification/Fuel.v ===== *)
(** * Operations with fuel that come to an end

    [ends m Q w]: with enough fuel [m] runs from [w] to one result, which satisfies [Q]; more
    fuel does not change it. *)

From S2P Require Import Prelude.

Section ends.
Context {W : Type}.
Implicit Types w : W.

Definition ends {A} (m : nat → Op W A) (Q : A → W → Prop) (w : W) : Prop :=
  ∃ n a w', (∀ fuel, (n <= fuel)%nat → m fuel w = Some (a, w')) ∧ Q a w'.

Lemma ends_now {A} (m : Op W A) (Q : A → W → Prop) w a w' : m w = Some (a, w') → Q a w' → ends (λ _, m) Q w.
Proof. intros E HQ. exists 0%nat, a, w'. auto. Qed.
Lemma ends_ret {A} (a : A) (Q : A → W → Prop) w : Q a w → ends (λ _, mret a) Q w.
Proof. by apply ends_now. Qed.
Lemma ends_get {A} (f : W → A) (Q : A → W → Prop) w : Q (f w) w → ends (λ _, op_get f) Q w.
Proof. by apply ends_now. Qed.
Lemma ends_mod f (Q : () → W → Prop) w : Q () (f w) → ends (λ _, op_mod f) Q w.
Proof. by apply ends_now. Qed.
Lemma ends_find {A} (f : W → option A) (Q : A → W → Prop) w a : f w = Some a → Q a w → ends (λ _, op_find f) Q w.
Proof. intros E. apply ends_now. unfold op_find. by rewrite E. Qed.
Lemma ends_mono {A} (m : nat → Op W A) (P Q : A → W → Prop) w :
  ends m P w → (∀ a w', P a w' → Q a w') → ends m Q w.
Proof. intros (n & a & w' & E & HP) HQ. exists n, a, w'. auto. Qed.
Lemma ends_bind {A B} (m : nat → Op W A) (k : nat → A → Op W B) Q w :
  ends m (λ a w', ends (λ fuel, k fuel a) Q w') w → ends (λ fuel, m fuel ≫= k fuel) Q w.
Proof.
  intros (n & a & w1 & E1 & n' & b & w2 & E2 & HQ). exists (n `max` n')%nat, b, w2. split; [|done].
  intros fuel Hf. rewrite op_bind_run, E1 by lia. apply E2. lia.
Qed.
Lemma ends_seq {A B} (m : nat → Op W A) (k : nat → A → Op W B) (P : A → W → Prop) Q w :
  ends m P w → (∀ a w', P a w' → ends (λ fuel, k fuel a) Q w') → ends (λ fuel, m fuel ≫= k fuel) Q w.
Proof. intros Hm Hk. apply ends_bind. by eapply ends_mono. Qed.
(** One unit of fuel for a round. *)
Lemma ends_round {A} (m m' : nat → Op W A) (Q : A → W → Prop) w :
  (∀ fuel, m (S fuel) w = m' fuel w) → ends m' Q w → ends m Q w.
Proof.
  intros Hm (n & a & w' & E & HQ). exists (S n), a, w'. split; [|done]. intros [|fuel] Hf; [lia|]. rewrite Hm. apply E. lia.
Qed.
Lemma ends_unfold {A} (m m' : nat → Op W A) (Q : A → W → Prop) w : (∀ fuel, m (S fuel) = m' fuel) → ends m' Q w → ends m Q w.
Proof. intros Hm. apply ends_round. intros fuel. by rewrite Hm. Qed.
Lemma ends_wlp {A} (m : nat → Op W A) (Q : A → W → Prop) w : ends m Q w → ∃ n, ∀ fuel, (n <= fuel)%nat → wlp (m fuel) Q w.
Proof. intros (n & a & w' & E & HQ). exists n. intros fuel Hf. unfold wlp. by rewrite E. Qed.
Lemma ends_run {A} (m : Op W A) (Q : A → W → Prop) w a w' : ends (λ _, m) Q w → m w = Some (a, w') → Q a w'.
Proof. intros (n & b & w1 & E & HQ) E'. rewrite (E n) in E' by done. by injection E' as -> ->. Qed.
End ends.
