(* ===== verification/KafkaBrokers.v ===== *)
(** * The Kafka brokers that ZooKeeper lists ([src/zookafka/src/ZooKafBrokers.cpp])

    The nodes below [/brokers/ids] hold JSON with the host and port of a broker;
    [set_brokerlist_from_zookeeper] makes the list for librdkafka of them. It is the same in
    [ZooKfkTopicsPush.cpp] and [ZooKfkTopicsPop.cpp], with jansson; [ZooKafBrokers.cpp]
    parses with rapidjson. Both libraries are classes, as ZooKeeper is. *)

From S2P Require Import Prelude CLib FileSys ZookConfig.
Import FileSys(slash, cstr) ZookConfig(Zookeeper, Zk, zoo_get, zoo_get_children, ZOK, ZCONNECTIONLOSS, ZOO_CHILD_EVENT, utilFristConstchar, count_addresses).

Module KafkaBrokers.

Definition NO_KAFKA_BROKERS_FOUND : Z := -10000.
Definition TRANSMIT_PARAMTER_ERROR : Z := -10001.
Definition PUSH_TOPIC_NAME_NOINIT : Z := -10002.
Definition MODULE_RECV_EXIT_COMMND : Z := -10003.
Definition KAFKA_MODULE_NEW_ERROR : Z := -10004.
Definition KAFKA_BROKERS_ADD_ERROR : Z := -10005.
Definition KAFKA_NO_TOPIC_NAME_INIT : Z := -10006.
Definition KAFKA_TOPIC_CONF_NEW_ERROR : Z := -10007.
Definition KAFKA_TOPIC_NEW_ERROR : Z := -10008.
Definition KAFKA_INIT_ALREADY : Z := -10009.
Definition KAFKA_NO_INIT_ALREADY : Z := -10010.
Definition KAFKA_UNHAPPEN_ERRPR : Z := -10011.
Definition KAFKA_CONSUMER_CONFSET_ERROR : Z := -10012.
Definition KAFKA_CONSUMER_ADDTOPIC_ERROR : Z := -10013.

Definition KafkaBrokerPath : bytes := lit "/brokers/ids".
#[global] Arguments KafkaBrokerPath : simpl never.

(** ** The JSON libraries *)

Class Jansson := {
  json_t : Type;
  json_loads : bytes → option json_t;
  json_object_get : json_t → bytes → option json_t;
  json_string_value : json_t → option bytes;
  json_integer_value : json_t → Z }.

(** [member] is [None] when there is none of the name. *)
Class RapidJson := {
  Value : Type;
  Parse : bytes → option Value;
  IsObject : Value → bool;
  member : Value → bytes → option Value;
  GetString : Value → option bytes;  (* [None]: it is no string *)
  GetInt : Value → option Z }.

(** What a node describes. *)
Inductive Described := Skipped | Broker (host : bytes) (port : Z).

(** The outer [None]: a string that is not there is printed. *)
Definition jansson_broker `{Jansson} (cfg : bytes) : option Described :=
  match json_loads (cstr cfg) with
  | None => Some Skipped
  | Some jobj =>
      match json_object_get jobj (lit "host"), json_object_get jobj (lit "port") with
      | Some jhost, Some jport =>
          match json_string_value jhost with
          | Some host => Some (Broker host (s32 (json_integer_value jport)))
          | None => None
          end
      | _, _ => Some Skipped
      end
  end.
(** The outer [None]: an assertion of the library fails, as it does for [doc[name]] when there
    is no such member. The port is read from the member [code]. *)
Definition rapidjson_broker `{RapidJson} (cfg : bytes) : option Described :=
  match Parse cfg with
  | None => Some Skipped
  | Some doc =>
      if negb (IsObject doc) then Some Skipped
      else
        let jHost := default [] (member doc (lit "host") ≫= GetString) in
        jPort ← (if bool_decide (is_Some (member doc (lit "port") ≫= GetInt)) then member doc (lit "code") ≫= GetInt else Some 0);
        Some (if bool_decide (jHost = []) || (jPort =? 0) then Skipped else Broker jHost jPort)
  end.

(** ** The list *)

(** The bytes written past the end of an array. *)
Definition in_bounds {W} (P : Prop) `{Decision P} : Op W () := if decide P then mret () else op_undefined.
Definition broker_address (host : bytes) (port : Z) : bytes := host ++ lit ":" ++ fmt_ld port.
(** The list in the order of the nodes. *)
Definition broker_join (l : list bytes) : bytes :=
  match l with [] => [] | a :: l' => a ++ mjoin ((λ b, lit "," ++ b) <$> l') end.

Section brokers.
Context `{Zookeeper}.

Definition zoo {A} (f : Zk → A * Zk) : Op Zk A := λ z, Some (f z).
(** [do { ... } while (tryTime < zookeeperColonyNum)]: [n] more attempts. *)
Fixpoint children_attempts (n : nat) : Op Zk (Z * list bytes) :=
  '(ret, brokerlist) ← zoo (zoo_get_children KafkaBrokerPath true);
  match n with
  | O => mret (ret, brokerlist)
  | S n' => if ret =? ZCONNECTIONLOSS then children_attempts n' else mret (ret, brokerlist)
  end.

(** [cfg[len] = 0] in the array of 1024 bytes. *)
Definition cfg_bytes (len : Z) (cfg : bytes) : Op Zk bytes :=
  _ ← in_bounds (len < 1024); mret (take (Z.to_nat len) cfg).

Section decoder.
(** The part for one node's value: [jansson_broker] or [rapidjson_broker]. *)
Variable decode : bytes → option Described.

(** The loop over the nodes: the count and the string in the array of 1024 bytes, which a
    comma follows unless it is for the last node. The code of [zoo_get] is not looked at. *)
Fixpoint each_broker (data : list bytes) (ret : Z) (brokers : bytes) : Op Zk (Z * bytes) :=
  match data with
  | [] => mret (ret, brokers)
  | d :: data' =>
      _ ← in_bounds (length (KafkaBrokerPath ++ [slash] ++ d) < 255)%nat;
      '(_, len, cfg) ← zoo (zoo_get (KafkaBrokerPath ++ [slash] ++ d) false);
      if len <=? 0 then each_broker data' ret brokers
      else
        cfg ← cfg_bytes len cfg;
        described ← op_some (decode cfg);
        match described with
        | Skipped => each_broker data' ret brokers
        | Broker host port =>
            let brokers := brokers ++ broker_address host port ++ (match data' with [] => [] | _ => lit "," end) in
            _ ← in_bounds (length brokers < 1024)%nat;
            each_broker data' (ret + 1) brokers
        end
  end.
(** With a handle that is not null. *)
Definition set_brokerlist_from_zookeeper (zookeeperColonyNum : nat) : Op Zk (Z * bytes) :=
  '(ret, brokerlist) ← children_attempts (zookeeperColonyNum - 1);
  if negb (ret =? ZOK) then mret (ret, []) else each_broker brokerlist ret [].
End decoder.

(** The condition of [watcher]. *)
Definition is_broker_event (type : Z) (path : bytes) : bool :=
  (type =? ZOO_CHILD_EVENT) && bool_decide (KafkaBrokerPath `prefix_of` path).
End brokers.

(** ** [ZooKafBrokers] *)

Section ZooKafBrokers.
Context `{Zookeeper} `{RapidJson}.

Record ZooKafBrokers := { zKeepers : bytes; zookeeph : bool; cb_ : bool }.
Definition ZooKafBrokers_new : ZooKafBrokers := {| zKeepers := []; zookeeph := false; cb_ := false |}.
(** The object, the static number of addresses and what the callback was called with. *)
Record World := { zk : Zk; colonyNum : nat; self : ZooKafBrokers; changes : list bytes }.
#[local] Instance eta_ZooKafBrokers : Eta ZooKafBrokers := λ r,
  {| zKeepers := zKeepers r; zookeeph := zookeeph r; cb_ := cb_ r |}.
#[local] Instance eta_World : Eta World := λ r,
  {| zk := zk r; colonyNum := colonyNum r; self := self r; changes := changes r |}.

Definition with_zk {A} (m : nat → Op Zk A) : Op World A := λ w,
  match m (colonyNum w) (zk w) with Some (a, z) => Some (a, w <| zk := z |>) | None => None end.

Definition initialize_zookeeper (zookeeper : bytes) : Op World bool :=
  ok ← with_zk (λ _, zoo (ZookConfig.zookeeper_init zookeeper));
  if negb ok then mret false
  else
    match zookeeper with
    | [] => op_undefined
    | _ :: p => _ ← op_mod (λ w, w <| colonyNum ::= λ n, (n + count_addresses (length zookeeper) p)%nat |>); mret true
    end.
Definition zookInit (zookeepers : bytes) : Op World bytes :=
  h ← op_get (λ w, zookeeph (self w));
  if h : bool then mret []
  else
    _ ← op_mod (λ w, w <| self ::= λ s, s <| zKeepers := zookeepers |> |>);
    ok ← initialize_zookeeper (cstr zookeepers);
    _ ← op_mod (λ w, w <| self ::= λ s, s <| zookeeph := ok |> |>);
    if negb ok then mret []
    else
      '(ret, brokers) ← with_zk (set_brokerlist_from_zookeeper rapidjson_broker);
      if ret <=? 0 then mret [] else mret brokers.
Definition kfkBrokerChange (bros : bytes) : Op World () :=
  cb ← op_get (λ w, cb_ (self w));
  if cb : bool then op_mod (λ w, w <| changes ::= λ l, l ++ [bros] |>) else mret ().
Definition setBrokerNoticeCall : Op World () := op_mod (λ w, w <| self ::= λ s, s <| cb_ := true |> |>).
(** An error of ZooKeeper is reported as a cluster without brokers. *)
Definition watcher (type : Z) (path : bytes) : Op World () :=
  if is_broker_event type path then
    '(ret, brokers) ← with_zk (set_brokerlist_from_zookeeper rapidjson_broker);
    if 0 <? ret then kfkBrokerChange brokers else kfkBrokerChange []
  else mret ().
End ZooKafBrokers.
End KafkaBrokers.
