(* ===== verification/KafkaDiscovery.v ===== *)
(** * Finding the Kafka brokers

    What [set_brokerlist_from_zookeeper] gives when ZooKeeper answers and nobody changes the
    nodes, and what it does otherwise. *)

From S2P Require Import Prelude CLib Incommon FileSys ZookConfig ZookLaws ZookProofs KafkaBrokers.
Import FileSys(slash, cstr) ZookConfig(Zookeeper, Zk, zoo_get, zoo_get_children, zoo_create, ZOK, code_of) KafkaBrokers.

Module KafkaDiscovery.

(** ** The nodes of the brokers *)

Definition broker_path (e : bytes) : bytes := KafkaBrokerPath ++ [slash] ++ e.
Definition broker_nodes (m : gmap bytes Node) : list bytes := omap (ZkSample.child_of KafkaBrokerPath) (elements (dom m)).
Definition node_address (decode : bytes → option Described) (m : gmap bytes Node) (e : bytes) : option bytes :=
  n ← m !! broker_path e;
  if decide (0 < length (n_value n) < 1024)%nat then
    match decode (n_value n) with Some (Broker host port) => Some (broker_address host port) | _ => None end
  else None.
Definition addresses (decode : bytes → option Described) (m : gmap bytes Node) (l : list bytes) : list bytes :=
  omap (node_address decode m) l.

(** Each node below [/brokers/ids] describes a broker, with a path and a value that the
    arrays hold. *)
Definition well_described (decode : bytes → option Described) (m : gmap bytes Node) : Prop :=
  is_Some (m !! KafkaBrokerPath) ∧
  Forall (λ e, (length (broker_path e) < 255)%nat ∧ is_Some (node_address decode m e)) (broker_nodes m).
#[export] Instance well_described_dec decode m : Decision (well_described decode m).
Proof. unfold well_described. apply _. Defined.
Definition room (decode : bytes → option Described) (m : gmap bytes Node) : Prop :=
  (length (broker_join (addresses decode m (broker_nodes m))) < 1024)%nat.
#[export] Instance room_dec decode m : Decision (room decode m).
Proof. unfold room. apply _. Defined.

Lemma elem_of_broker_nodes m e : e ∈ broker_nodes m ↔ e ≠ [] ∧ (slash ∉ e) ∧ is_Some (m !! broker_path e).
Proof.
  apply (ZkSample.elem_of_children KafkaBrokerPath e
    {| ZkSample.s_nodes := m; ZkSample.s_watches := ∅; ZkSample.s_events := []; ZkSample.s_session := 0%nat; ZkSample.s_tick := 0%nat |}).
Qed.
Lemma broker_nodes_NoDup m : NoDup (broker_nodes m).
Proof. apply ZkSample.children_NoDup, NoDup_elements. Qed.

Lemma broker_join_cons a l : broker_join (a :: l) = a ++ match l with [] => [] | _ => lit "," ++ broker_join l end.
Proof. destruct l as [|b l]; cbn [broker_join fmap list_fmap mjoin list_join]; [done|]. by rewrite <- app_assoc. Qed.
Lemma length_broker_join l : length (broker_join l) = (sum_list (length <$> l) + (length l - 1))%nat.
Proof.
  induction l as [|a l IH]; [done|]. rewrite broker_join_cons, length_app. cbn [fmap list_fmap sum_list length].
  destruct l as [|b l]; [cbn; lia|]. rewrite length_app, IH. cbn. lia.
Qed.
Lemma length_broker_join_perm l1 l2 : l1 ≡ₚ l2 → length (broker_join l1) = length (broker_join l2).
Proof. intros H. rewrite !length_broker_join. by rewrite H. Qed.

(** ** The list that is read *)

Section read.
Context `{HZ : Zookeeper} `{!ZkView HZ} `{!ZkAlone HZ} `{!ZkWatches HZ} (decode : bytes → option Described).

(** The connection to the service is there. *)
Definition answering : Prop := ∀ p watch z, is_Some (nodes z !! p) →
  code_of (zoo_get p watch z).1 = ZOK ∧ (zoo_get_children p watch z).1.1 = ZOK.

Lemma node_address_Some m e a : node_address decode m e = Some a →
  ∃ n host port, m !! broker_path e = Some n ∧ (0 < length (n_value n) < 1024)%nat ∧
    decode (n_value n) = Some (Broker host port) ∧ a = broker_address host port.
Proof.
  unfold node_address. intros (n & Hn & E)%bind_Some. case_decide as Hl; [|done].
  destruct (decode (n_value n)) as [[|host port]|] eqn:Ed; [done| |done]. injection E as <-. eauto 10.
Qed.
Lemma get_broker z p n : answering → nodes z !! p = Some n → (length (n_value n) < 1024)%nat →
  ∃ z', zoo_get p false z = ((ZOK, Z.of_nat (length (n_value n)), n_value n), z') ∧ nodes z' = nodes z.
Proof.
  intros Ha Hn Hl. pose proof (alone_get p false z) as Hg. destruct (Ha p false z) as [Hc _]; [by eauto|].
  destruct (zoo_get p false z) as [[[r len] cfg] z']. cbn in Hc. subst r. destruct Hg as [Hz Hg].
  destruct (Hg eq_refl) as (v & Hv & -> & ->). unfold value_of in Hv. rewrite Hn in Hv. injection Hv as <-.
  exists z'. by rewrite take_ge by lia.
Qed.

Lemma each_broker_reads data ret brokers z :
  answering → (∀ e, e ∈ data → (length (broker_path e) < 255)%nat ∧ is_Some (node_address decode (nodes z) e)) →
  (length (brokers ++ broker_join (addresses decode (nodes z) data)) < 1024)%nat →
  ∃ z', nodes z' = nodes z ∧ each_broker decode data ret brokers z =
    Some ((ret + Z.of_nat (length data), brokers ++ broker_join (addresses decode (nodes z) data)), z').
Proof.
  intros Ha. revert ret brokers z. induction data as [|d data IH]; intros ret brokers z Hd Hl.
  { exists z. cbn. by rewrite Z.add_0_r, app_nil_r. }
  destruct (Hd d) as [Hp [a Ea]]; [by left|]. assert (Hd' : ∀ e, e ∈ data → (length (broker_path e) < 255)%nat ∧ is_Some (node_address decode (nodes z) e)).
  { intros e He. apply Hd. by right. }
  pose proof (node_address_Some _ _ _ Ea) as (n & host & port & Hn & Hv & Hdec & ->).
  destruct (get_broker z _ n Ha Hn) as (z1 & Eg & Ez); [lia|]. unfold addresses in Hl. cbn [omap list_omap] in Hl. rewrite Ea in Hl.
  fold (addresses decode (nodes z) data) in Hl. rewrite broker_join_cons in Hl.
  set (comma := match data with [] => [] | _ => lit "," end).
  assert (Ej : match addresses decode (nodes z) data with [] => [] | _ => lit "," ++ broker_join (addresses decode (nodes z) data) end =
               comma ++ broker_join (addresses decode (nodes z) data)).
  { subst comma. destruct data as [|d' data']; [done|]. destruct (Hd' d') as [_ [a' Ea']]; [by left|].
    unfold addresses. cbn [omap list_omap]. by rewrite Ea'. }
  rewrite Ej in Hl. destruct (IH (ret + 1) (brokers ++ broker_address host port ++ comma) z1) as (z2 & Ez2 & E2).
  { by rewrite Ez. }
  { rewrite Ez. by rewrite <- !app_assoc. }
  exists z2. split; [congruence|]. cbn [each_broker]. rewrite op_bind_run. unfold in_bounds at 1. rewrite decide_True by exact Hp.
  cbn [mret Op_ret]. rewrite op_bind_run. unfold zoo. change (KafkaBrokerPath ++ [slash] ++ d) with (broker_path d). rewrite Eg.
  cbn beta iota. rewrite (proj2 (Z.leb_gt _ 0)) by lia. rewrite op_bind_run. unfold cfg_bytes. rewrite op_bind_run. unfold in_bounds at 1.
  rewrite decide_True by lia. cbn [mret Op_ret]. rewrite Nat2Z.id, take_ge by lia. rewrite op_bind_some, Hdec. cbn beta iota.
  fold comma. rewrite op_bind_run. unfold in_bounds at 1. rewrite decide_True.
  2:{ rewrite !length_app in *. lia. }
  cbn [mret Op_ret]. rewrite E2, Ez. unfold addresses. cbn [omap list_omap]. rewrite Ea. fold (addresses decode (nodes z) data).
  rewrite broker_join_cons, Ej, <- !app_assoc. cbn [length]. do 3 f_equal. lia.
Qed.

Lemma children_answered n z : answering → is_Some (nodes z !! KafkaBrokerPath) →
  ∃ l z', children_attempts n z = Some ((ZOK, l), z') ∧ nodes z' = nodes z ∧ l ≡ₚ broker_nodes (nodes z).
Proof.
  intros Ha Hk. destruct (Ha KafkaBrokerPath true z Hk) as [_ Hc].
  pose proof (alone_children KafkaBrokerPath true z) as [Hn Hl]. specialize (Hl Hc).
  pose proof (children_distinct KafkaBrokerPath true z) as Hnd.
  destruct (zoo_get_children KafkaBrokerPath true z) as [[r l] z'] eqn:E. cbn in *. subst r.
  exists l, z'. split_and!; [|done|].
  - destruct n; cbn [children_attempts]; rewrite op_bind_run; unfold zoo; by rewrite E.
  - apply NoDup_Permutation; [done|apply broker_nodes_NoDup|]. intros e. by rewrite Hl, elem_of_broker_nodes.
Qed.

(** The list of the brokers: ZooKeeper answers and each node below [/brokers/ids] describes
    a broker; then the count is that of the nodes, and the text joins their addresses with
    commas, in some order. *)
Lemma brokers_read n z :
  answering → well_described decode (nodes z) → room decode (nodes z) →
  ∃ l z', set_brokerlist_from_zookeeper decode n z =
    Some ((Z.of_nat (length l), broker_join (addresses decode (nodes z) l)), z') ∧
    l ≡ₚ broker_nodes (nodes z) ∧ nodes z' = nodes z.
Proof.
  intros Ha [Hk Hw] Hr. rewrite Forall_forall in Hw. destruct (children_answered (n - 1) z Ha Hk) as (l & z1 & E1 & Ez1 & Hl).
  destruct (each_broker_reads l ZOK [] z1 Ha) as (z2 & Ez2 & E2).
  - rewrite Ez1. intros e He. apply Hw. by rewrite <- Hl.
  - rewrite Ez1. cbn [app]. erewrite length_broker_join_perm; [exact Hr|]. unfold addresses. by rewrite Hl.
  - exists l, z2. rewrite Ez1 in *. split_and!; [|done|congruence]. unfold set_brokerlist_from_zookeeper.
    rewrite op_bind_run, E1. cbn [negb Z.eqb ZOK]. by rewrite E2.
Qed.
End read.
End KafkaDiscovery.
