(* ===== verification/KafkaPush.v ===== *)
(** * The Kafka producer ([src/zookafka/src/ZooKfkTopicsPush.cpp])

    [ZooKfkTopicsPush] sends messages to topics of a cluster that it finds through ZooKeeper;
    [ZooKfkProducers] and [ZooKfkGenerators] are rows of producers. librdkafka is an
    instance of [Producer]. *)

From S2P Require Import Prelude CLib FileSys ZookConfig KafkaBrokers.
Import FileSys(slash, cstr) ZookConfig(Zookeeper, Zk, utilFristConstchar, count_addresses) KafkaBrokers.

Module KafkaPush.

(** ** librdkafka *)

(** A message as it was produced; the topic is the name. *)
Record Message := { m_topic : bytes; m_payload : bytes; m_key : option bytes; m_private : Z }.
#[export] Instance Message_dec : EqDecision Message.
Proof. solve_decision. Defined.
(** What the library says of it in the end. *)
Record Report := { r_message : Message; r_offset : Z; r_err : Z }.

(** Clients and topics are numbers. [rd_kafka_poll] gives the reports for which it calls the
    delivery callback. *)
Class Producer := {
  Rk : Type;
  Conf : Type;
  TopicConf : Type;
  rd_kafka_conf_new : Conf;
  rd_kafka_conf_set : bytes → bytes → Conf → Z * Conf;
  rd_kafka_new : Conf → Rk → option nat * Rk;
  rd_kafka_brokers_add : nat → bytes → Rk → Z * Rk;
  rd_kafka_topic_conf_new : option TopicConf;
  rd_kafka_topic_conf_set : bytes → bytes → TopicConf → TopicConf;
  rd_kafka_topic_new : nat → bytes → TopicConf → Rk → option nat * Rk;
  rd_kafka_produce : nat → Z → Z → bytes → option bytes → Z → Rk → Z * Rk;
  rd_kafka_last_error : Rk → Z;
  rd_kafka_err2str : Z → bytes;
  rd_kafka_outq_len : nat → Rk → Z;
  rd_kafka_poll : nat → Z → Rk → list Report * Rk;
  rd_kafka_topic_destroy : nat → Rk → Rk;
  rd_kafka_destroy : nat → Rk → Rk }.

Definition RD_KAFKA_RESP_ERR__QUEUE_FULL : Z := -184.
Definition RD_KAFKA_PARTITION_UA : Z := -1.
Definition RD_KAFKA_MSG_F_COPY : Z := 2.
Definition SIGIO : Z := 29.

(** ** The object *)

Record CALLBACKMSG := {
  topic : bytes; msg : bytes; key : option bytes; errMsg : bytes; offset : Z; msgLen : Z; keyLen : Z; errorCode : Z }.
(** What the callbacks of the application were called with. *)
Inductive Called := WriteCall (msgPri : Z) (msgInfo : CALLBACKMSG) | ErrorCall (msgPri : Z) (msgInfo : CALLBACKMSG).

Record ZooKfkTopicsPush := {
  zKeepers : bytes; zookeeph : bool; kfkBrokers : bytes; kfkt : option nat; topicPtrMap : gmap bytes nat; cb_ : bool;
  wcb_ : bool; downcb_ : option (bytes → Z); kfkErrorCode : Z; kfkErrorMsg : bytes; destroy : Z; initFlag : Z }.
#[export] Instance eta_Push : Eta ZooKfkTopicsPush := λ r, {|
  zKeepers := zKeepers r; zookeeph := zookeeph r; kfkBrokers := kfkBrokers r; kfkt := kfkt r; topicPtrMap := topicPtrMap r;
  cb_ := cb_ r; wcb_ := wcb_ r; downcb_ := downcb_ r; kfkErrorCode := kfkErrorCode r; kfkErrorMsg := kfkErrorMsg r;
  destroy := destroy r; initFlag := initFlag r |}.
Definition ZooKfkTopicsPush_new : ZooKfkTopicsPush := {|
  zKeepers := []; zookeeph := false; kfkBrokers := []; kfkt := None; topicPtrMap := ∅; cb_ := false; wcb_ := false;
  downcb_ := None; kfkErrorCode := 0; kfkErrorMsg := []; destroy := 0; initFlag := 0 |}.

(** ZooKeeper, the static number of its addresses and librdkafka are common to the objects. *)
Record Shared `{Zookeeper, Producer} := { zk : Zk; colonyNum : nat; rk : Rk; called : list Called }.
#[export] Instance eta_Shared `{Zookeeper, Producer} : Eta Shared := λ r,
  {| zk := zk r; colonyNum := colonyNum r; rk := rk r; called := called r |}.
Record World `{Zookeeper, Producer} := { shared : Shared; self : ZooKfkTopicsPush }.
#[export] Instance eta_World `{Zookeeper, Producer} : Eta World := λ r, {| shared := shared r; self := self r |}.

(** [str2Vec] for a string without NUL; [fuel] is above its length. *)
Fixpoint str2Vec_loop (fuel : nat) (pChar : bytes) (delim : byte) : list bytes :=
  match fuel with
  | O => []
  | S fuel' =>
      match utilFristConstchar pChar delim with
      | Some qChar => take (length pChar - length qChar) pChar :: str2Vec_loop fuel' (drop 1 qChar) delim
      | None => [pChar]
      end
  end.
Definition str2Vec (src : bytes) (delim : byte) : list bytes := str2Vec_loop (S (length src)) src delim.

Section operations.
Context `{HZ : Zookeeper} `{HP : Producer} `{HJ : Jansson}.

Definition get {A} (f : ZooKfkTopicsPush → A) : Op World A := op_get (λ w, f (self w)).
Definition modify (f : ZooKfkTopicsPush → ZooKfkTopicsPush) : Op World () := op_mod (λ w, w <| self ::= f |>).
(** A call of librdkafka. *)
Definition lib {A} (f : Rk → A * Rk) : Op World A := λ w, let '(a, r) := f (rk (shared w)) in Some (a, w <| shared ::= λ s, s <| rk := r |> |>).
Definition peek {A} (f : Rk → A) : Op World A := op_get (λ w, f (rk (shared w))).
Definition with_zk {A} (m : nat → Op Zk A) : Op World A := λ w,
  match m (colonyNum (shared w)) (zk (shared w)) with
  | Some (a, z) => Some (a, w <| shared ::= λ s, s <| zk := z |> |>)
  | None => None
  end.
Definition call (c : Called) : Op World () := op_mod (λ w, w <| shared ::= λ s, s <| called ::= λ l, l ++ [c] |> |>).
(** The client, where the library is given the pointer. *)
Definition client : Op World nat := op_find (λ w, kfkt (self w)).

(** *** Delivery reports *)

Definition msgPushErrorCall (msgPri : Z) (msgInfo : CALLBACKMSG) : Op World () :=
  cb ← get cb_; if cb : bool then call (ErrorCall msgPri msgInfo) else mret ().
Definition msgPushWriteCall (msgPri : Z) (msgInfo : CALLBACKMSG) : Op World () :=
  cb ← get wcb_; if cb : bool then call (WriteCall msgPri msgInfo) else mret ().
Definition report_info (message : Report) : CALLBACKMSG :=
  let m := r_message message in {|
    offset := r_offset message; topic := m_topic m; msg := m_payload m; msgLen := s32 (Z.of_nat (length (m_payload m)));
    key := m_key m; keyLen := s32 (Z.of_nat (length (default [] (m_key m)))); errorCode := r_err message;
    errMsg := rd_kafka_err2str (r_err message) |}.
Definition msgDelivered (message : Report) : Op World () :=
  let msg := report_info message in
  _ ← msgPushWriteCall (m_private (r_message message)) msg;
  if negb (r_err message =? 0) then msgPushErrorCall (m_private (r_message message)) msg else mret ().
(** [rd_kafka_poll] with the callbacks. *)
Definition poll (kfkt : nat) (timeout : Z) : Op World () :=
  reports ← lib (rd_kafka_poll kfkt timeout); op_each msgDelivered reports.
(** [while (rd_kafka_outq_len(kfkt) > queueSize) rd_kafka_poll(kfkt, timeout)] *)
Fixpoint drain (fuel : nat) (kfkt : nat) (timeout queueSize : Z) : Op World () :=
  len ← peek (rd_kafka_outq_len kfkt);
  if len <=? queueSize then mret ()
  else match fuel with O => op_undefined | S fuel' => _ ← poll kfkt timeout; drain fuel' kfkt timeout queueSize end.

(** *** Start *)

Definition setKfkErrorMessage (code : Z) (msg : bytes) : Op World () :=
  modify (λ s, s <| kfkErrorCode := code |> <| kfkErrorMsg := msg |>).
Definition getLastErrorMsg : Op World (Z * bytes) := get (λ s, (kfkErrorCode s, kfkErrorMsg s)).
Definition setMsgPushErrorCall : Op World () := modify (λ s, s <| cb_ := true |>).
Definition setMsgPushCallBack : Op World () := modify (λ s, s <| wcb_ := true |>).
Definition setBrokersChangeCallBack (cb : bytes → Z) : Op World () := modify (λ s, s <| downcb_ := Some cb |>).

(** [zookeeper] is not a null pointer, and is read behind the terminator when it is empty. *)
Definition initialize_zookeeper (zookeeper : bytes) : Op World bool :=
  ok ← with_zk (λ _, zoo (ZookConfig.zookeeper_init zookeeper));
  if negb ok then mret false
  else
    match zookeeper with
    | [] => op_undefined
    | _ :: p => _ ← op_mod (λ w, w <| shared ::= λ s, s <| colonyNum ::= λ n, (n + count_addresses (length zookeeper) p)%nat |> |>); mret true
    end.

Definition topic_conf (conf : TopicConf) : TopicConf :=
  rd_kafka_topic_conf_set (lit "request.required.acks") (lit "1") (rd_kafka_topic_conf_set (lit "produce.offset.report") (lit "true") conf).
(** What [kfkInit] and [producerAddTopic] do for a topic. *)
Definition add_topic (kfkt : option nat) (topic : bytes) : Op World Z :=
  match rd_kafka_topic_conf_new with
  | None => mret KAFKA_TOPIC_CONF_NEW_ERROR
  | Some pTopiConf =>
      h ← op_some kfkt;
      pTopic ← lib (rd_kafka_topic_new h (cstr topic) (topic_conf pTopiConf));
      match pTopic with
      | None => mret KAFKA_TOPIC_NEW_ERROR
      | Some pTopic =>
          _ ← modify (λ s, s <| topicPtrMap ::= λ m, match m !! topic with Some _ => m | None => <[topic := pTopic]> m end |>);
          mret 0
      end
  end.
Definition producerAddTopic (topic : bytes) : Op World Z := h ← get kfkt; add_topic h topic.
Fixpoint add_topics (kfkt : nat) (topics_ : list bytes) : Op World Z :=
  match topics_ with
  | [] => mret 0
  | t :: topics_' => ret ← add_topic (Some kfkt) t; if ret =? 0 then add_topics kfkt topics_' else mret ret
  end.

Definition conf_pairs (queueBuffMaxMs queueBuffMaxMess : Z) : list (bytes * bytes) := [
  (lit "internal.termination.signal", fmt_ld SIGIO);
  (lit "queue.buffering.max.messages", fmt_ld queueBuffMaxMess);
  (lit "queue.buffering.max.ms", fmt_ld queueBuffMaxMs);
  (lit "message.send.max.retries", lit "3");
  (lit "retry.backoff.ms", lit "100");
  (lit "socket.blocking.max.ms", lit "10");
  (lit "queue.enqueue.timeout.ms", lit "0");
  (lit "queue.buffering.max.kbytes", lit "4096");
  (lit "batch.num.messages", lit "1");
  (lit "producer.type", lit "async")].
Definition conf_set_all (l : list (bytes * bytes)) (conf : Conf) : Conf :=
  foldl (λ c nv, (rd_kafka_conf_set nv.1 nv.2 c).2) conf l.
Definition kfkInit (brokers topics : bytes) (queueBuffMaxMs queueBuffMaxMess : Z) : Op World Z :=
  match brokers with
  | [] => mret NO_KAFKA_BROKERS_FOUND
  | _ =>
      flag ← get initFlag;
      if negb (flag =? 0) then mret KAFKA_INIT_ALREADY
      else
        _ ← modify (λ s, s <| initFlag := 1 |>);
        h ← lib (rd_kafka_new (conf_set_all (conf_pairs queueBuffMaxMs queueBuffMaxMess) rd_kafka_conf_new));
        _ ← modify (λ s, s <| kfkt := h |>);
        match h with
        | None => mret KAFKA_MODULE_NEW_ERROR
        | Some h =>
            _ ← modify (λ s, s <| kfkBrokers ::= λ b, match b with [] => brokers | _ => b end |>);
            ret ← lib (rd_kafka_brokers_add h (cstr brokers));
            if ret =? 0 then mret KAFKA_BROKERS_ADD_ERROR
            else match topics with [] => mret 0 | _ => add_topics h (str2Vec (cstr topics) ",") end
        end
  end.
(** What both [zookInit] do first: the number of brokers, or an error. *)
Definition find_brokers (zookeepers : bytes) : Op World Z :=
  h ← get zookeeph;
  if h : bool then mret KAFKA_INIT_ALREADY
  else
    ok ← initialize_zookeeper (cstr zookeepers);
    _ ← modify (λ s, s <| zookeeph := ok |>);
    if negb ok then mret KAFKA_MODULE_NEW_ERROR
    else
      '(ret, brokers) ← with_zk (set_brokerlist_from_zookeeper jansson_broker);
      if ret <=? 0 then mret NO_KAFKA_BROKERS_FOUND
      else _ ← modify (λ s, s <| zKeepers := zookeepers |> <| kfkBrokers := brokers |>); mret ret.
Definition zookInit (zookeepers topics : bytes) (queueBuffMaxMs queueBuffMaxMess : Z) : Op World Z :=
  ret ← find_brokers zookeepers;
  if ret <=? 0 then mret ret else brokers ← get kfkBrokers; kfkInit brokers topics queueBuffMaxMs queueBuffMaxMess.

(** *** Messages *)

(** [lockFlag] says whether the mutex is taken. *)
Definition bolckFlush (fuel : nat) (queueSize : Z) : Op World Z :=
  h ← client;
  len ← peek (rd_kafka_outq_len h);
  let queueSize := if queueSize <=? 0 then if 0 <? len then len ÷ 2 else 0 else queueSize in
  _ ← drain fuel h 50 queueSize; mret 0.
(** The loop of [push] with the topic [pTopic]: a full queue is waited for. *)
Fixpoint produce (fuel : nat) (pTopic : nat) (partition msgFlags : Z) (data : bytes) (key : option bytes) (msgPri : Z) : Op World Z :=
  match fuel with
  | O => op_undefined
  | S fuel' =>
      ret ← lib (rd_kafka_produce pTopic partition msgFlags data key msgPri);
      if ret <? 0 then
        e ← peek rd_kafka_last_error;
        if e =? RD_KAFKA_RESP_ERR__QUEUE_FULL then _ ← bolckFlush fuel' 0; produce fuel' pTopic partition msgFlags data key msgPri
        else _ ← setKfkErrorMessage e (rd_kafka_err2str e); mret ret
      else mret ret
  end.
Definition push (fuel : nat) (topic data : bytes) (key : option bytes) (msgPri partition msgFlags : Z) : Op World Z :=
  m ← get topicPtrMap;
  if bool_decide (data = []) || bool_decide (topic = []) || bool_decide (m = ∅) then mret TRANSMIT_PARAMTER_ERROR
  else
    d ← get destroy;
    if negb (d =? 0) then mret MODULE_RECV_EXIT_COMMND
    else
      match m !! topic with
      | None => mret PUSH_TOPIC_NAME_NOINIT
      | Some pTopic =>
          ret ← produce fuel pTopic partition msgFlags data key msgPri;
          if 0 <=? ret then h ← client; peek (rd_kafka_outq_len h) else mret ret
      end.

(** *** End and changes of the cluster *)

Definition kfkDestroy (fuel : nat) : Op World () :=
  _ ← modify (λ s, s <| destroy := 1 |>);
  _ ← modify (λ s, s <| destroy ::= Z.succ |>);
  d ← get destroy;
  if 2 <? d then mret ()
  else
    h ← get kfkt;
    _ ← (match h with Some h => drain fuel h 100 0 | None => mret () end);
    m ← get topicPtrMap;
    _ ← op_each (λ t, lib (λ r, ((), rd_kafka_topic_destroy t.2 r))) (map_to_list m);
    _ ← modify (λ s, s <| topicPtrMap := ∅ |>);
    _ ← (match h with Some h => _ ← lib (λ r, ((), rd_kafka_destroy h r)); modify (λ s, s <| kfkt := None |>) | None => mret () end);
    modify (λ s, s <| zookeeph := false |> <| cb_ := false |> <| wcb_ := false |> <| zKeepers := [] |> <| kfkBrokers := [] |>).
Definition changeKafkaBrokers (fuel : nat) (brokers : bytes) : Op World () :=
  cb ← get downcb_;
  let over := match cb with Some downcb => 0 <? downcb brokers | None => bool_decide (brokers = []) end in
  if over then kfkDestroy fuel
  else
    _ ← modify (λ s, s <| kfkBrokers := brokers |>);
    h ← client;
    _ ← lib (rd_kafka_brokers_add h (cstr brokers));
    poll h 10.
Definition watcher (fuel : nat) (type : Z) (path : bytes) : Op World () :=
  if is_broker_event type path then
    '(ret, brokers) ← with_zk (set_brokerlist_from_zookeeper jansson_broker);
    if 0 <? ret then changeKafkaBrokers fuel brokers
    else if ret =? 0 then changeKafkaBrokers fuel [] else mret ()
  else mret ().
End operations.
End KafkaPush.
