(* ===== verification/KafkaLaws.v ===== *)
(** * What the producer relies on

    The queue of librdkafka as [librdkafka/rdkafka.h] documents it: an accepted message is
    reported once, with its outcome, when the application polls; and a small client library
    that satisfies this. *)

From S2P Require Import Prelude CLib KafkaBrokers KafkaPush.
Import KafkaBrokers KafkaPush.

(** [pending h r]: what [h] accepted and did not report yet. [topic_of t r]: the client and
    the name of the topic [t]. [patience h r]: so often can a poll bring nothing. *)
Class ProducerLaws (P : Producer) := {
  pending : nat → Rk → list Message;
  topic_of : nat → Rk → option (nat * bytes);
  patience : nat → Rk → nat;
  outq_len_pending h r : rd_kafka_outq_len h r = Z.of_nat (length (pending h r));
  new_pending c r h : (rd_kafka_new c r).1 = Some h → pending h (rd_kafka_new c r).2 = [];
  brokers_add_pending h b r : pending h (rd_kafka_brokers_add h b r).2 = pending h r;
  brokers_add_topics h b r t : topic_of t (rd_kafka_brokers_add h b r).2 = topic_of t r;
  topic_new_pending h n c r : pending h (rd_kafka_topic_new h n c r).2 = pending h r;
  topic_new_topics h n c r t x : topic_of t r = Some x → topic_of t (rd_kafka_topic_new h n c r).2 = Some x;
  topic_new_name h n c r t : (rd_kafka_topic_new h n c r).1 = Some t → topic_of t (rd_kafka_topic_new h n c r).2 = Some (h, n);
  produce_queues t part flags data k priv r h n : topic_of t r = Some (h, n) →
    let '(ret, r') := rd_kafka_produce t part flags data k priv r in
    0 <= ret ∧ pending h r' ≡ₚ {| m_topic := n; m_payload := data; m_key := k; m_private := priv |} :: pending h r ∨
    ret < 0 ∧ pending h r' = pending h r ∧ (rd_kafka_last_error r' = RD_KAFKA_RESP_ERR__QUEUE_FULL → pending h r ≠ []);
  produce_topics t part flags data k priv r t' : topic_of t' (rd_kafka_produce t part flags data k priv r).2 = topic_of t' r;
  poll_reports h ms r : let '(l, r') := rd_kafka_poll h ms r in
    (r_message <$> l) ++ pending h r' ≡ₚ pending h r ∧ (l = [] → pending h r ≠ [] → (patience h r' < patience h r)%nat);
  poll_topics h ms r t : topic_of t (rd_kafka_poll h ms r).2 = topic_of t r }.

(** ** Samples *)

Module KafkaSample.

(** A library with queues of [S room] messages. Between two reports there are [pause] polls
    that bring nothing; [outcome] is the error of each message in turn. *)
Record Lib := {
  queues : gmap nat (list Message); topics : list (nat * bytes); next : nat; idle : nat; last_error : Z; reported : Z }.
#[export] Instance eta_Lib : Eta Lib := λ r, {|
  queues := queues r; topics := topics r; next := next r; idle := idle r; last_error := last_error r; reported := reported r |}.
Definition Lib_new : Lib := {| queues := ∅; topics := []; next := 1; idle := 0; last_error := 0; reported := 0 |}.
Definition queue (h : nat) (r : Lib) : list Message := default [] (queues r !! h).

Section lib.
Context (room pause : nat) (outcome : Z → Z).

Definition produce (t : nat) (part flags : Z) (data : bytes) (k : option bytes) (priv : Z) (r : Lib) : Z * Lib :=
  match topics r !! t with
  | None => (-1, r <| last_error := -188 |>)
  | Some (h, n) =>
      if (room <? length (queue h r))%nat then (-1, r <| last_error := RD_KAFKA_RESP_ERR__QUEUE_FULL |>)
      else (0, r <| queues ::= <[h := queue h r ++ [{| m_topic := n; m_payload := data; m_key := k; m_private := priv |}]]> |>)
  end.
Definition poll (h : nat) (ms : Z) (r : Lib) : list Report * Lib :=
  match idle r, queue h r with
  | S n, _ => ([], r <| idle := n |>)
  | O, [] => ([], r)
  | O, m :: q => ([{| r_message := m; r_offset := reported r; r_err := outcome (reported r) |}],
      r <| queues ::= <[h := q]> |> <| idle := pause |> <| reported ::= Z.succ |>)
  end.
Definition topic_new (h : nat) (n : bytes) (_ : list (bytes * bytes)) (r : Lib) : option nat * Lib :=
  match n with [] => (None, r) | _ => (Some (length (topics r)), r <| topics ::= λ l, l ++ [(h, n)] |>) end.
#[export] Instance library : Producer := {|
  Rk := Lib; Conf := list (bytes * bytes); TopicConf := list (bytes * bytes); rd_kafka_conf_new := [];
  rd_kafka_conf_set n v c := (0, c ++ [(n, v)]); rd_kafka_new _ r := (Some (next r), r <| queues ::= <[next r := []]> |> <| next ::= S |>);
  rd_kafka_brokers_add _ b r := (if bool_decide (b = []) then 0 else 1, r); rd_kafka_topic_conf_new := Some [];
  rd_kafka_topic_conf_set n v c := c ++ [(n, v)]; rd_kafka_topic_new := topic_new; rd_kafka_produce := produce;
  rd_kafka_last_error := last_error; rd_kafka_err2str e := lit "error " ++ CLib.fmt_ld e;
  rd_kafka_outq_len h r := Z.of_nat (length (queue h r)); rd_kafka_poll := poll; rd_kafka_topic_destroy _ r := r;
  rd_kafka_destroy h r := r <| queues ::= delete h |> |}.

Lemma queue_insert h q r : queue h (r <| queues ::= <[h := q]> |>) = q.
Proof. unfold queue, set_with. cbn. by rewrite lookup_insert_eq. Qed.
#[export] Instance library_laws : ProducerLaws library.
Proof.
  refine {| pending := queue : nat → @Rk library → list Message; topic_of t r := topics r !! t; patience _ r := idle r |}.
  - done.
  - intros c r h. cbn. intros [= <-]. apply queue_insert.
  - done.
  - done.
  - by intros h [] c r.
  - intros h [|b n] c r t x Ht; [done|]. cbn. by apply lookup_app_l_Some.
  - intros h [|b n] c r t; cbn; [done|]. intros [= <-]. by rewrite lookup_app_r, Nat.sub_diag by lia.
  - intros t part flags data k priv r h n Ht. cbn. unfold produce. rewrite Ht.
    destruct (Nat.ltb_spec room (length (queue h r))).
    + right. split_and!; [lia|done|]. intros _ E. rewrite E in *. cbn in *. lia.
    + left. split; [lia|]. rewrite queue_insert. apply Permutation_app_comm.
  - intros t part flags data k priv r t'. cbn. unfold produce. destruct (topics r !! t) as [[h n]|]; [|done]. by case_match.
  - intros h ms r. cbn. unfold poll. destruct (idle r) as [|i] eqn:Ei; [|by split; [|intros; cbn; lia]].
    destruct (queue h r) as [|m q] eqn:Eq; [by rewrite Eq|]. cbn. split; [|done]. f_equiv.
    replace (queue h _) with (queue h (r <| queues ::= <[h := q]> |>)) by done. by rewrite queue_insert.
  - intros h ms r t. cbn. unfold poll. destruct (idle r); [|done]. by destruct (queue h r).
Defined.
End lib.

(** JSON: strings without escapes, integers and objects of these. *)
Inductive Json := JString (s : bytes) | JInt (z : Z) | JObject (members : list (bytes * Json)).
Definition quote : Byte.byte := "034".
Definition parse_string (s : bytes) : option (bytes * bytes) :=
  match s with
  | c :: s' => if decide (c = quote) then let '(a, b) := span (λ c, bool_decide (c ≠ quote)) s' in Some (a, drop 1 b) else None
  | [] => None
  end.
Definition parse_atom (s : bytes) : option (Json * bytes) :=
  match parse_string s with
  | Some (a, b) => Some (JString a, b)
  | None =>
      match s with
      | c :: _ => if CLib.is_digit c then Some (JInt (CLib.strtol s), (span CLib.is_digit s).2) else None
      | [] => None
      end
  end.
Fixpoint parse_members (fuel : nat) (s : bytes) : option (list (bytes * Json)) :=
  match fuel with
  | O => None
  | S fuel' =>
      '(name, s) ← parse_string s;
      '(v, s) ← (match s with c :: s' => if decide (c = ":"%byte) then parse_atom s' else None | [] => None end);
      match s with
      | [c] => if decide (c = "}"%byte) then Some [(name, v)] else None
      | c :: s' => if decide (c = ","%byte) then l ← parse_members fuel' s'; Some ((name, v) :: l) else None
      | [] => None
      end
  end.
Definition parse (s : bytes) : option Json :=
  match s with
  | c :: s' => if decide (c = "{"%byte) then JObject <$> parse_members (length s) s' else None
  | [] => None
  end.
Fixpoint find_member (name : bytes) (l : list (bytes * Json)) : option Json :=
  match l with [] => None | (n, v) :: l' => if decide (n = name) then Some v else find_member name l' end.
Definition object_get (j : Json) (name : bytes) : option Json := match j with JObject l => find_member name l | _ => None end.
#[export] Instance jansson : Jansson := {|
  json_loads := parse; json_object_get := object_get; json_string_value j := match j with JString s => Some s | _ => None end;
  json_integer_value j := match j with JInt z => z | _ => 0 end |}.
#[export] Instance rapidjson : RapidJson := {|
  Value := Json; Parse := parse; IsObject j := match j with JObject _ => true | _ => false end; member := object_get;
  GetString j := match j with JString s => Some s | _ => None end; GetInt j := match j with JInt z => Some z | _ => None end |}.
(** The value of a broker's node. *)
Definition broker_json (host : string) (port : string) : bytes :=
  [Byte.x7b; quote] ++ lit "host" ++ [quote; Byte.x3a; quote] ++ lit host ++ [quote; Byte.x2c; quote] ++ lit "port" ++ [quote; Byte.x3a] ++ lit port ++ [Byte.x7d].
Lemma broker_json_parsed : jansson_broker (broker_json "10.0.0.1" "9092") = Some (Broker (lit "10.0.0.1") 9092).
Proof. by vm_compute. Qed.
End KafkaSample.
