(* ===== verification/KafkaPushProofs.v ===== *)
(** * The messages of a producer

    Every message that [push] accepts is reported to the application exactly once, at the
    latest by [kfkDestroy], and all the waiting comes to an end. *)

From S2P Require Import Prelude CLib FileSys ZookConfig ZookLaws ZookProofs KafkaBrokers KafkaDiscovery Fuel KafkaPush KafkaLaws.
Import FileSys(slash, cstr) ZookConfig(Zookeeper, Zk, zookeeper_init, ZOO_CHILD_EVENT, code_of) KafkaBrokers KafkaDiscovery KafkaPush.

Module KafkaPushProofs.

(** ** What the callbacks were told *)

Definition write_calls (l : list Called) : list (Z * CALLBACKMSG) :=
  omap (λ c, match c with WriteCall p i => Some (p, i) | ErrorCall _ _ => None end) l.
Definition error_calls (l : list Called) : list (Z * CALLBACKMSG) :=
  omap (λ c, match c with WriteCall _ _ => None | ErrorCall p i => Some (p, i) end) l.
Definition told (c : Z * CALLBACKMSG) : Message :=
  {| m_topic := topic c.2; m_payload := msg c.2; m_key := key c.2; m_private := c.1 |}.
Definition failed (c : Z * CALLBACKMSG) : Prop := errorCode c.2 ≠ 0.
#[export] Instance failed_dec c : Decision (failed c).
Proof. unfold failed. apply _. Defined.

(** ** What the application asks for *)

Inductive Request :=
  | Push (topic data : bytes) (key : option bytes) (msgPri partition msgFlags : Z)
  | AddTopic (topic : bytes)
  | Flush (queueSize : Z)
  | Brokers (brokers : bytes).  (* the cluster has changed *)

Section ledger.
Context `{HZ : Zookeeper} `{HP : Producer} `{!ProducerLaws HP} `{HJ : Jansson}.
Implicit Types w : World.

Definition request (fuel : nat) (r : Request) : Op World Z :=
  match r with
  | Push t d k p part flags => push fuel t d k p part flags
  | AddTopic t => producerAddTopic t
  | Flush n => bolckFlush fuel n
  | Brokers b => _ ← changeKafkaBrokers fuel b; mret 0
  end.
Fixpoint requests (fuel : nat) (l : list Request) : Op World (list Z) :=
  match l with
  | [] => mret []
  | r :: l' => a ← request fuel r; answers ← requests fuel l'; mret (a :: answers)
  end.
(** A message was accepted when the answer is not negative. *)
Definition accepted_one (r : Request) (a : Z) : list Message :=
  match r with
  | Push t d k p _ _ => if 0 <=? a then [{| m_topic := cstr t; m_payload := d; m_key := k; m_private := p |}] else []
  | _ => []
  end.
Definition accepted (l : list Request) (answers : list Z) : list Message := mjoin (zip_with accepted_one l answers).

(** ** The books *)

Record Ledger (h : nat) (acc : list Message) (w : World) : Prop := {
  l_client : kfkt (self w) = Some h;
  l_cb : cb_ (self w) = true;
  l_wcb : wcb_ (self w) = true;
  l_topics t p : topicPtrMap (self w) !! t = Some p → topic_of p (rk (shared w)) = Some (h, cstr t);
  l_count : (told <$> write_calls (called (shared w))) ++ pending h (rk (shared w)) ≡ₚ acc;
  l_errors : error_calls (called (shared w)) = filter failed (write_calls (called (shared w))) }.

Lemma ledger_perm h acc acc' w : acc ≡ₚ acc' → Ledger h acc w → Ledger h acc' w.
Proof. intros E []. split; try done. by rewrite <- E. Qed.

Definition report_calls (r : Report) : list Called :=
  WriteCall (m_private (r_message r)) (report_info r) ::
  if negb (r_err r =? 0) then [ErrorCall (m_private (r_message r)) (report_info r)] else [].
Definition add_calls (l : list Called) (w : World) : World := w <| shared ::= λ s, s <| called ::= λ c, c ++ l |> |>.
Lemma add_calls_nil w : add_calls [] w = w.
Proof. destruct w as [[] ?]. unfold add_calls, set_with. cbn. by rewrite app_nil_r. Qed.
Lemma add_calls_app l1 l2 w : add_calls l2 (add_calls l1 w) = add_calls (l1 ++ l2) w.
Proof. unfold add_calls, set_with. cbn. by rewrite app_assoc. Qed.
Lemma msgDelivered_run r w :
  cb_ (self w) = true → wcb_ (self w) = true → msgDelivered r w = Some ((), add_calls (report_calls r) w).
Proof.
  intros Hc Hw. unfold msgDelivered, msgPushWriteCall, msgPushErrorCall, get. rewrite op_bind_run, op_bind_get, Hw.
  change (call ?c w) with (Some ((), add_calls [c] w)). cbn beta iota. unfold report_calls. destruct (negb _).
  - rewrite op_bind_get. change (cb_ (self (add_calls _ w))) with (cb_ (self w)). rewrite Hc.
    change (call ?c ?w) with (Some ((), add_calls [c] w)). by rewrite add_calls_app.
  - done.
Qed.
Lemma deliver_run l w :
  cb_ (self w) = true → wcb_ (self w) = true → op_each msgDelivered l w = Some ((), add_calls (l ≫= report_calls) w).
Proof.
  revert w. induction l as [|r l IH]; intros w Hc Hw; cbn [op_each]; [by rewrite add_calls_nil|].
  rewrite op_bind_run, msgDelivered_run, IH by done. by rewrite add_calls_app, bind_cons.
Qed.
Lemma write_calls_app l1 l2 : write_calls (l1 ++ l2) = write_calls l1 ++ write_calls l2.
Proof. apply omap_app. Qed.
Lemma error_calls_app l1 l2 : error_calls (l1 ++ l2) = error_calls l1 ++ error_calls l2.
Proof. apply omap_app. Qed.
Lemma told_reports l : told <$> write_calls (l ≫= report_calls) = r_message <$> l.
Proof.
  induction l as [|r l IH]; [done|]. rewrite bind_cons, write_calls_app, fmap_app, IH. unfold report_calls. destruct r as [[] ? ?]. by destruct (negb _).
Qed.
Lemma error_reports l : error_calls (l ≫= report_calls) = filter failed (write_calls (l ≫= report_calls)).
Proof.
  induction l as [|r l IH]; [done|]. rewrite bind_cons, write_calls_app, error_calls_app, filter_app, IH. f_equal.
  unfold report_calls. destruct (Z.eqb_spec (r_err r) 0) as [E|E]; cbn; unfold filter; cbn.
  - by rewrite decide_False by (unfold failed; cbn; lia).
  - by rewrite decide_True by done.
Qed.

(** The object stays as it is. *)
Definition same_object (w w' : World) : Prop := self w' = self w.

Lemma poll_run h ms w : cb_ (self w) = true → wcb_ (self w) = true →
  let '(l, r) := rd_kafka_poll h ms (rk (shared w)) in
  poll h ms w = Some ((), add_calls (l ≫= report_calls) (w <| shared ::= λ s, s <| rk := r |> |>)).
Proof.
  intros Hc Hw. unfold poll. rewrite op_bind_run. unfold lib. destruct (rd_kafka_poll h ms (rk (shared w))) as [l r].
  by apply deliver_run.
Qed.
Lemma poll_ledger h ms acc w : Ledger h acc w → ∃ w',
  poll h ms w = Some ((), w') ∧ Ledger h acc w' ∧ same_object w w' ∧
  (pending h (rk (shared w)) ≠ [] → (length (pending h (rk (shared w'))) < length (pending h (rk (shared w))))%nat ∨
    (length (pending h (rk (shared w'))) = length (pending h (rk (shared w))) ∧ patience h (rk (shared w')) < patience h (rk (shared w)))%nat).
Proof.
  intros HL. pose proof (poll_run h ms w (l_cb _ _ _ HL) (l_wcb _ _ _ HL)) as Hr. pose proof (poll_reports h ms (rk (shared w))) as Hp.
  pose proof (poll_topics h ms (rk (shared w))) as Ht. destruct HL as [? ? ? Htop Hcount Herr].
  destruct (rd_kafka_poll h ms (rk (shared w))) as [l r']. destruct Hp as [Hp Hpat].
  eexists. split; [exact Hr|]. split_and!; [|done|].
  - split; unfold add_calls, set_with; cbn; try done.
    + intros t p Htp. rewrite Ht. by apply Htop.
    + by rewrite write_calls_app, fmap_app, told_reports, <- app_assoc, Hp.
    + by rewrite error_calls_app, write_calls_app, filter_app, Herr, error_reports.
  - unfold add_calls, set_with. cbn. intros Hne. apply Permutation_length in Hp. rewrite length_app, length_fmap in Hp.
    destruct l as [|x l]; [right|left; cbn in Hp; lia]. cbn in Hp. split; [lia|]. by apply Hpat.
Qed.

(** Waiting for a shorter queue. *)
Lemma drain_ledger h ms q acc w : 0 <= q → Ledger h acc w →
  ends (λ fuel, drain fuel h ms q) (λ _ w', Ledger h acc w' ∧ same_object w w' ∧
    Z.of_nat (length (pending h (rk (shared w')))) <= q ∧
    (length (pending h (rk (shared w'))) <= length (pending h (rk (shared w))))%nat) w.
Proof.
  intros Hq. remember (length (pending h (rk (shared w)))) as n eqn:En. remember (patience h (rk (shared w))) as k eqn:Ek.
  revert k w Ek En. induction n as [n IHn] using lt_wf_ind. intros k. induction k as [k IHk] using lt_wf_ind. intros w Ek En HL.
  destruct (Z.leb_spec (Z.of_nat n) q) as [Hle|Hgt].
  - exists 0%nat, (), w. split; [|by split_and!; subst].
    intros fuel _. destruct fuel; cbn [drain]; rewrite op_bind_run; cbn; rewrite outq_len_pending, <- En, (proj2 (Z.leb_le _ _)) by lia; done.
  - apply (ends_round _ (λ fuel, _ ← poll h ms; drain fuel h ms q)).
    { intros fuel. cbn [drain]. rewrite op_bind_run. cbn. by rewrite outq_len_pending, <- En, (proj2 (Z.leb_gt _ _)) by lia. }
    destruct (poll_ledger h ms acc w HL) as (w1 & E1 & HL1 & S1 & Hdec). apply ends_bind. exists 0%nat, (), w1. split; [by intros|].
    eapply (ends_mono _ (λ _ w', Ledger h acc w' ∧ same_object w1 w' ∧ Z.of_nat (length (pending h (rk (shared w')))) <= q ∧
      (length (pending h (rk (shared w'))) <= length (pending h (rk (shared w1))))%nat)).
    + destruct Hdec as [Hlt|[Heq Hlt]]; [by intros E; rewrite E in En; cbn in *; lia|by eapply IHn; [|done..]; lia|].
      rewrite Heq, <- En. eapply IHk; [|done|congruence|done]. by rewrite Ek.
    + intros _ w2 (HL2 & S2 & H2 & H3). unfold same_object in *. split_and!; [done|congruence|done|lia].
Qed.
Lemma flush_ledger h q acc w : Ledger h acc w →
  ends (λ fuel, bolckFlush fuel q) (λ r w', r = 0 ∧ Ledger h acc w' ∧ same_object w w' ∧
    (q = 0 → pending h (rk (shared w)) ≠ [] → (length (pending h (rk (shared w'))) < length (pending h (rk (shared w))))%nat)) w.
Proof.
  intros HL. unfold bolckFlush. apply ends_bind. eapply ends_find; [apply (l_client _ _ _ HL)|]. apply ends_bind, ends_get. rewrite outq_len_pending.
  set (n := length (pending h (rk (shared w)))). cbn zeta. set (q' := if q <=? 0 then _ else q).
  assert (Hq : 0 <= q').
  { subst q'. destruct (Z.leb_spec q 0); [|lia]. case_match; [|lia]. apply Z.quot_pos; lia. }
  eapply ends_seq; [by apply drain_ledger|]. intros _ w1 (HL1 & S1 & H1 & H2). apply ends_ret. split_and!; [done..|].
  intros -> Hne. assert (0 < n)%nat. { unfold n. destruct (pending _ _); [done|cbn; lia]. }
  subst q'. cbn in H1. rewrite (proj2 (Z.ltb_lt _ _)) in H1 by lia. fold n. dlia.
Qed.

(** ** The operations keep the books *)

(** What the requests leave alone. *)
Definition steady (w w' : World) : Prop :=
  destroy (self w') = destroy (self w) ∧ downcb_ (self w') = downcb_ (self w) ∧ topicPtrMap (self w) ⊆ topicPtrMap (self w').
#[local] Instance steady_preorder : PreOrder steady.
Proof.
  split; [by intros w|]. intros a b c (? & ? & ?) (? & ? & ?). split_and!; [congruence..|]. by etrans.
Qed.
Lemma same_steady w w' : same_object w w' → steady w w'.
Proof. unfold same_object, steady. by intros ->. Qed.
Lemma ledger_self f h acc w :
  kfkt (f (self w)) = kfkt (self w) → cb_ (f (self w)) = cb_ (self w) → wcb_ (f (self w)) = wcb_ (self w) →
  topicPtrMap (f (self w)) = topicPtrMap (self w) → Ledger h acc w → Ledger h acc (w <| self ::= f |>).
Proof.
  intros E1 E2 E3 E4 []. split; cbn; try congruence.
  intros t p. change (self (w <| self ::= f |>)) with (f (self w)). rewrite E4. apply l_topics0.
Qed.

Lemma lib_run {A} (f : Rk → A * Rk) w a r : f (rk (shared w)) = (a, r) → lib f w = Some (a, w <| shared ::= λ s, s <| rk := r |> |>).
Proof. unfold lib. by intros ->. Qed.
Lemma ledger_rk h acc acc' r w :
  (∀ t x, topic_of t (rk (shared w)) = Some x → topic_of t r = Some x) →
  acc ++ pending h r ≡ₚ acc' ++ pending h (rk (shared w)) → Ledger h acc w → Ledger h acc' (w <| shared ::= λ s, s <| rk := r |> |>).
Proof.
  intros Ht Hp []. split; cbn; try done.
  - intros t p Htp. by apply Ht, l_topics0.
  - set (T := told <$> _) in *. apply (Permutation_app_inv_r (pending h (rk (shared w)))). rewrite <- Hp, <- l_count0.
    rewrite <- !app_assoc. apply Permutation_app_head, Permutation_app_comm.
Qed.
Lemma ledger_rk_same h acc r w :
  (∀ t x, topic_of t (rk (shared w)) = Some x → topic_of t r = Some x) → pending h r = pending h (rk (shared w)) →
  Ledger h acc w → Ledger h acc (w <| shared ::= λ s, s <| rk := r |> |>).
Proof. intros Ht Hp. apply ledger_rk; [done|by rewrite Hp]. Qed.

Definition entry (t d : bytes) (k : option bytes) (p ret : Z) : list Message :=
  if 0 <=? ret then [{| m_topic := t; m_payload := d; m_key := k; m_private := p |}] else [].
Lemma produce_ledger pt t part flags d k p h acc w :
  Ledger h acc w → topicPtrMap (self w) !! t = Some pt →
  ends (λ fuel, produce fuel pt part flags d k p) (λ ret w', Ledger h (acc ++ entry (cstr t) d k p ret) w' ∧ steady w w') w.
Proof.
  remember (length (pending h (rk (shared w)))) as n eqn:En. revert w En. induction n as [n IH] using lt_wf_ind. intros w En HL Ht.
  eapply ends_unfold; [intros fuel; cbn [produce]; reflexivity|].
  pose proof (produce_queues pt part flags d k p (rk (shared w)) h _ (l_topics _ _ _ HL _ _ Ht)) as Hq.
  pose proof (produce_topics pt part flags d k p (rk (shared w))) as Htop.
  destruct (rd_kafka_produce pt part flags d k p (rk (shared w))) as [ret r] eqn:E. apply ends_bind. eapply ends_now; [by apply lib_run|].
  assert (Hkeep : ∀ t' x, topic_of t' (rk (shared w)) = Some x → topic_of t' r = Some x) by (intros t' x; by rewrite Htop).
  destruct Hq as [[Hret Hp]|(Hret & Hp & Hfull)].
  - rewrite (proj2 (Z.ltb_ge _ _)) by lia. apply ends_ret. split; [|by apply same_steady]. apply (ledger_rk _ acc); [done| |done].
    unfold entry. rewrite (proj2 (Z.leb_le _ _)), Hp, <- app_assoc by lia. done.
  - rewrite (proj2 (Z.ltb_lt _ _)) by lia. set (w1 := w <| shared ::= _ |>). assert (HL1 : Ledger h acc w1) by (by apply ledger_rk_same).
    apply ends_bind, ends_get. change (rk (shared w1)) with r. destruct (Z.eqb_spec (rd_kafka_last_error r) RD_KAFKA_RESP_ERR__QUEUE_FULL) as [Ef|Ef].
    + eapply ends_seq; [by apply (flush_ledger h 0)|]. cbn beta. intros _ w2 (_ & HL2 & S2 & Hlt).
      pose proof (same_steady _ _ S2) as St2. eapply ends_mono; [eapply IH; [|done..|]|].
      * specialize (Hlt eq_refl). change (rk (shared w1)) with r in Hlt. rewrite Hp in Hlt. rewrite En. apply Hlt. by apply Hfull.
      * rewrite S2. done.
      * intros ret' w3 [HL3 S3]. split; [done|]. etrans; [exact St2|done].
    + apply ends_bind, ends_mod, ends_ret. split; [|done]. unfold entry. rewrite (proj2 (Z.leb_gt _ _)), app_nil_r by lia.
      by apply ledger_self.
Qed.
Lemma push_ledger t d k p part flags h acc w :
  Ledger h acc w → ends (λ fuel, push fuel t d k p part flags) (λ ret w', Ledger h (acc ++ entry (cstr t) d k p ret) w' ∧ steady w w') w.
Proof.
  intros HL. assert (Hneg : ∀ ret, ret < 0 → Ledger h (acc ++ entry (cstr t) d k p ret) w ∧ steady w w).
  { intros ret Hr. unfold entry. by rewrite (proj2 (Z.leb_gt _ _)), app_nil_r by lia. }
  unfold push. apply ends_bind, ends_get. case_match; [by apply ends_ret, Hneg|]. apply ends_bind, ends_get.
  case_match; [by apply ends_ret, Hneg|]. destruct (topicPtrMap (self w) !! t) as [pt|] eqn:Et; [|by apply ends_ret, Hneg].
  eapply ends_seq; [by apply produce_ledger|]. intros ret w1 [HL1 S1]. cbn beta.
  destruct (Z.leb_spec 0 ret) as [Hr|Hr]; [|by apply ends_ret].
  apply ends_bind. eapply ends_find; [apply (l_client _ _ _ HL1)|]. apply ends_get. split; [|done]. rewrite outq_len_pending. revert HL1.
  unfold entry. by rewrite !(proj2 (Z.leb_le _ _)) by lia.
Qed.
Lemma add_topic_ledger t h acc w :
  Ledger h acc w → ends (λ _, add_topic (Some h) t) (λ _ w', Ledger h acc w' ∧ steady w w') w.
Proof.
  intros HL. unfold add_topic. destruct rd_kafka_topic_conf_new as [c|]; [|by apply ends_ret]. apply ends_bind. eapply ends_now; [reflexivity|].
  pose proof (topic_new_name h (cstr t) (topic_conf c) (rk (shared w))) as Hname.
  pose proof (topic_new_topics h (cstr t) (topic_conf c) (rk (shared w))) as Hold.
  pose proof (topic_new_pending h (cstr t) (topic_conf c) (rk (shared w))) as Hp.
  destruct (rd_kafka_topic_new h (cstr t) (topic_conf c) (rk (shared w))) as [o r] eqn:E. cbn [fst snd] in *.
  apply ends_bind. eapply ends_now; [by apply lib_run|]. set (w1 := w <| shared ::= _ |>).
  assert (HL1 : Ledger h acc w1) by (apply ledger_rk_same; [intros; by apply Hold|done|done]).
  destruct o as [pt|]; [|by apply ends_ret; split; [|apply same_steady]].
  apply ends_bind, ends_mod, ends_ret. split.
  - destruct HL1 as [? ? ? Htop ? ?]. split; unfold set_with in *; cbn in *; try done. intros t' p'.
    destruct (topicPtrMap (self w) !! t) eqn:Et; [by apply Htop|]. intros [[<- <-]|[_ ?]]%lookup_insert_Some; [by apply Hname|by apply Htop].
  - split_and!; [done..|]. unfold set_with. cbn. destruct (topicPtrMap (self w) !! t) eqn:Et; [done|]. by apply insert_subseteq.
Qed.
Lemma brokers_ledger b h acc w :
  downcb_ (self w) = None → b ≠ [] → Ledger h acc w → ends (λ fuel, changeKafkaBrokers fuel b)
    (λ _ w', Ledger h acc w' ∧ steady w w' ∧ kfkBrokers (self w') = b) w.
Proof.
  intros Hd Hb HL. unfold changeKafkaBrokers. apply ends_bind, ends_get. rewrite Hd, bool_decide_false by done.
  apply ends_bind, ends_mod. set (w1 := w <| self ::= _ |>). assert (HL1 : Ledger h acc w1) by (by apply ledger_self).
  apply ends_bind. eapply ends_find; [apply (l_client _ _ _ HL1)|].
  pose proof (brokers_add_pending h (cstr b) (rk (shared w1))) as Hp. pose proof (λ t, brokers_add_topics h (cstr b) (rk (shared w1)) t) as Ht.
  destruct (rd_kafka_brokers_add h (cstr b) (rk (shared w1))) as [n r] eqn:E. apply ends_bind. eapply ends_now; [by apply lib_run|].
  cbn [fst snd] in *. set (w2 := w1 <| shared ::= _ |>).
  assert (HL2 : Ledger h acc w2) by (apply ledger_rk_same; [by intros t x; rewrite Ht|done|done]).
  destruct (poll_ledger h 10 acc w2 HL2) as (w3 & E3 & HL3 & S3 & _). eapply ends_now; [exact E3|].
  unfold steady. by rewrite S3.
Qed.
Lemma add_topics_ledger h l acc w :
  Ledger h acc w → ends (λ _, add_topics h l) (λ _ w', Ledger h acc w' ∧ steady w w') w.
Proof.
  revert w. induction l as [|t l IH]; intros w HL; cbn [add_topics]; [by apply ends_ret|].
  eapply ends_seq; [by apply add_topic_ledger|]. cbn beta. intros ret w1 [HL1 S1]. case_match; [|by apply ends_ret].
  eapply ends_mono; [by apply IH|]. intros _ w2 [HL2 S2]. split; [done|]. by etrans.
Qed.

Definition allowed (r : Request) : Prop := match r with Brokers b => b ≠ [] | _ => True end.
Lemma request_ledger r h acc w :
  allowed r → downcb_ (self w) = None → Ledger h acc w →
  ends (λ fuel, request fuel r) (λ a w', Ledger h (acc ++ accepted_one r a) w' ∧ steady w w') w.
Proof.
  intros Ha Hd HL. destruct r as [t d k p part flags|t|q|b]; cbn [request accepted_one].
  - by apply push_ledger.
  - unfold producerAddTopic. apply ends_bind, ends_get. rewrite (l_client _ _ _ HL).
    eapply ends_mono; [by apply add_topic_ledger|]. cbn beta. intros. by rewrite app_nil_r.
  - eapply ends_mono; [by apply flush_ledger|]. cbn beta. intros a w' (_ & HL' & S & _). rewrite app_nil_r. split; [done|]. by apply same_steady.
  - eapply ends_seq; [by apply brokers_ledger|]. cbn beta. intros _ w' (HL' & S & _). apply ends_ret. by rewrite app_nil_r.
Qed.
Lemma requests_ledger l h acc w :
  Forall allowed l → downcb_ (self w) = None → Ledger h acc w →
  ends (λ fuel, requests fuel l) (λ a w', length a = length l ∧ Ledger h (acc ++ accepted l a) w' ∧ steady w w') w.
Proof.
  intros Hl. revert acc w. induction Hl as [|r l Hr Hl IH]; intros acc w Hd HL; cbn [requests].
  { apply ends_ret. unfold accepted. cbn. by rewrite app_nil_r. }
  eapply ends_seq; [by apply request_ledger|]. cbn beta. intros a w1 [HL1 S1].
  eapply ends_seq; [apply IH; [|done]|].
  - destruct S1 as (_ & -> & _). done.
  - cbn beta. intros answers w2 (Hlen & HL2 & S2). apply ends_ret. split_and!; [cbn; lia| |by etrans].
    unfold accepted. cbn [zip_with mjoin list_join]. by rewrite app_assoc.
Qed.

(** What is left after [kfkDestroy]. *)
Definition closed (w : World) : Prop :=
  kfkt (self w) = None ∧ topicPtrMap (self w) = ∅ ∧ zookeeph (self w) = false ∧ destroy (self w) ≠ 0.
Lemma destroy_topics (l : list (bytes * nat)) w : ∃ r,
  op_each (λ t, lib (λ r, ((), rd_kafka_topic_destroy t.2 r))) l w = Some ((), w <| shared ::= λ s, s <| rk := r |> |>).
Proof.
  revert w. induction l as [|[t p] l IH]; intros w; cbn [op_each].
  - exists (rk (shared w)). by destruct w as [[] ?].
  - rewrite op_bind_run. unfold lib at 1. cbn beta iota. set (w1 := w <| shared ::= _ |>). destruct (IH w1) as [r E]. rewrite E. by exists r.
Qed.
Lemma destroy_ledger h acc w :
  Ledger h acc w → ends kfkDestroy (λ _ w', closed w' ∧
    told <$> write_calls (called (shared w')) ≡ₚ acc ∧ error_calls (called (shared w')) = filter failed (write_calls (called (shared w')))) w.
Proof.
  intros HL. unfold kfkDestroy. apply ends_bind, ends_mod, ends_bind, ends_mod, ends_bind, ends_get. set (w1 := set_with _ _ _).
  change (2 <? destroy (self w1)) with false. cbn iota. assert (HL1 : Ledger h acc w1) by (by do 2 (apply ledger_self; [done..|])).
  apply ends_bind, ends_get. rewrite (l_client _ _ _ HL1). eapply ends_seq; [by apply drain_ledger|]. cbn beta.
  intros _ w2 (HL2 & S2 & H2 & _). assert (Hd : destroy (self w2) = 2) by (by rewrite S2).
  apply ends_bind, ends_get. apply ends_bind. destruct (destroy_topics (map_to_list (topicPtrMap (self w2))) w2) as [r Er].
  eapply ends_now; [exact Er|].
  apply ends_bind, ends_mod, ends_bind, ends_bind. eapply ends_now; [reflexivity|].
  apply ends_mod, ends_mod. match goal with |- closed ?w' ∧ _ => set (w3 := w') end.
  assert (Ec : called (shared w3) = called (shared w2)) by reflexivity.
  split; [by split_and!; [reflexivity..|change (destroy (self w3)) with (destroy (self w2)); rewrite Hd]|]. split; [|rewrite Ec; apply HL2].
  rewrite Ec, <- (l_count _ _ _ HL2). destruct (pending h (rk (shared w2))); [by rewrite app_nil_r|cbn in H2; lia].
Qed.

(** A new object with both callbacks. *)
Definition listening : ZooKfkTopicsPush := ZooKfkTopicsPush_new <| cb_ := true |> <| wcb_ := true |>.
Lemma init_ledger brokers topics ms n w :
  self w = listening → called (shared w) = [] →
  ends (λ _, kfkInit brokers topics ms n) (λ ret w', ret = 0 → ∃ h, Ledger h [] w' ∧ downcb_ (self w') = None) w.
Proof.
  intros Hs Hc. unfold kfkInit. destruct brokers as [|b0 brokers]; [by apply ends_ret|]. set (b := b0 :: brokers).
  apply ends_bind, ends_get. rewrite Hs. cbn [initFlag listening Z.eqb negb]. change (initFlag listening =? 0) with true. cbn [negb].
  apply ends_bind, ends_mod, ends_bind. set (conf := conf_set_all _ _). set (w0 := set_with _ _ w).
  change (rk (shared w0)) with (rk (shared w)). pose proof (λ h, new_pending conf (rk (shared w0)) h) as Hnew.
  destruct (rd_kafka_new conf (rk (shared w0))) as [o r] eqn:E. eapply ends_now; [by apply lib_run|].
  apply ends_bind, ends_mod. destruct o as [h|]; [|by apply ends_ret]. cbn [fst snd] in Hnew. specialize (Hnew h eq_refl).
  apply ends_bind, ends_mod. set (w1 := set_with _ _ _).
  assert (HL1 : Ledger h [] w1).
  { split; try done.
    - unfold w1, w0, set_with. cbn. by rewrite Hs.
    - unfold w1, w0, set_with. cbn. by rewrite Hs.
    - intros t p. unfold w1, w0, set_with. cbn. by rewrite Hs.
    - unfold w1, w0, set_with. cbn. by rewrite Hc, Hnew.
    - unfold w1, w0, set_with. cbn. by rewrite Hc. }
  assert (Hd1 : downcb_ (self w1) = None) by (unfold w1, w0, set_with; cbn; by rewrite Hs).
  pose proof (brokers_add_pending h (cstr b) (rk (shared w1))) as Hp. pose proof (λ t, brokers_add_topics h (cstr b) (rk (shared w1)) t) as Ht.
  destruct (rd_kafka_brokers_add h (cstr b) (rk (shared w1))) as [c r2] eqn:E2. apply ends_bind. eapply ends_now; [by apply lib_run|].
  cbn [fst snd] in *. set (w2 := w1 <| shared ::= _ |>).
  assert (HL2 : Ledger h [] w2) by (apply ledger_rk_same; [by intros t x; rewrite Ht|done|done]).
  case_match; [by apply ends_ret|]. destruct topics as [|t0 topics]; [by apply ends_ret; eauto|].
  eapply ends_mono; [by apply add_topics_ledger|]. cbn beta. intros ret w3 [HL3 S3] _. exists h. split; [done|].
  destruct S3 as (_ & -> & _). done.
Qed.

(** C13: The producer loses no message: of a new producer that was started, whatever is asked of
    it and however often the queue is full, every call returns, and after [kfkDestroy]
    the application was told of each message that [push] accepted exactly once, and again
    of each that failed. *)
Theorem messages_reported brokers topics ms n reqs w w1 :
  self w = listening → called (shared w) = [] → kfkInit brokers topics ms n w = Some (0, w1) → Forall allowed reqs →
  ends (λ fuel, answers ← requests fuel reqs; _ ← kfkDestroy fuel; mret answers) (λ answers w2,
    length answers = length reqs ∧ closed w2 ∧
    told <$> write_calls (called (shared w2)) ≡ₚ accepted reqs answers ∧
    error_calls (called (shared w2)) = filter failed (write_calls (called (shared w2)))) w1.
Proof.
  intros Hs Hc Hi Hr. pose proof (ends_run (kfkInit brokers topics ms n) _ w 0 w1 (init_ledger brokers topics ms n w Hs Hc) Hi) as Hi'.
  destruct (Hi' eq_refl) as (h & HL & Hd).
  eapply ends_seq; [by apply (requests_ledger reqs h [])|]. cbn beta. intros answers w2 (Hlen & HL2 & _).
  eapply ends_seq; [by apply (destroy_ledger h)|]. cbn beta. intros _ w3 (H1 & H2 & H3). by apply ends_ret.
Qed.
End ledger.

(** ** The brokers *)

Section brokers.
Context `{HZ : Zookeeper} `{!ZkView HZ} `{!ZkAlone HZ} `{!ZkWatches HZ} `{HP : Producer} `{!ProducerLaws HP} `{HJ : Jansson}.

(** [l] joins the addresses of all brokers. *)
Definition broker_text (z : Zk) (s : bytes) : Prop :=
  ∃ l, l ≡ₚ broker_nodes (nodes z) ∧ s = broker_join (addresses jansson_broker (nodes z) l).
Definition readable (z : Zk) : Prop := well_described jansson_broker (nodes z) ∧ room jansson_broker (nodes z).

Lemma broker_text_nodes z z' s : nodes z' = nodes z → broker_text z s → broker_text z' s.
Proof. unfold broker_text. by intros ->. Qed.
Lemma read_run w :
  answering → readable (zk (shared w)) → ∃ s z, broker_text (zk (shared w)) s ∧ nodes z = nodes (zk (shared w)) ∧
    with_zk (set_brokerlist_from_zookeeper jansson_broker) w =
    Some ((Z.of_nat (length (broker_nodes (nodes (zk (shared w))))), s), w <| shared ::= λ s, s <| zk := z |> |>).
Proof.
  intros Ha [Hw Hr]. destruct (brokers_read jansson_broker (colonyNum (shared w)) _ Ha Hw Hr) as (l & z & E & Hl & Hz).
  eexists _, z. split_and!; [by exists l|done|]. unfold with_zk. rewrite E. do 4 f_equal. by rewrite Hl.
Qed.

(** What a new object finds: its list joins the addresses of the brokers that are in
    ZooKeeper, and the result is their number. *)
Theorem brokers_found zookeepers w :
  answering → self w = ZooKfkTopicsPush_new → cstr zookeepers ≠ [] → (zookeeper_init (cstr zookeepers) (zk (shared w))).1 = true →
  readable (zk (shared w)) → broker_nodes (nodes (zk (shared w))) ≠ [] →
  ∃ w', find_brokers zookeepers w = Some (Z.of_nat (length (broker_nodes (nodes (zk (shared w'))))), w') ∧
    broker_text (zk (shared w')) (kfkBrokers (self w')) ∧ nodes (zk (shared w')) = nodes (zk (shared w)).
Proof.
  intros Ha Hs Hz Hok Hr Hne. unfold find_brokers, get. rewrite op_bind_get, Hs. cbn [zookeeph ZooKfkTopicsPush_new].
  rewrite op_bind_run. unfold initialize_zookeeper. rewrite op_bind_run. unfold with_zk at 1, zoo.
  pose proof (alone_init (cstr zookeepers) (zk (shared w))) as Hn.
  destruct (zookeeper_init (cstr zookeepers) (zk (shared w))) as [ok z1]. cbn in Hok, Hn. subst ok. cbn [negb].
  destruct (cstr zookeepers) as [|c p]; [done|]. rewrite op_bind_mod. cbn [mret Op_ret]. unfold modify. rewrite op_bind_mod. cbn [negb].
  set (w1 := set_with _ _ _). assert (En : nodes (zk (shared w1)) = nodes (zk (shared w))) by exact Hn.
  destruct (read_run w1 Ha) as (s & z & Ht & Ez & E); [unfold readable; by rewrite En|].
  rewrite op_bind_run, E. rewrite En in *. rewrite (proj2 (Z.leb_gt _ _)).
  2:{ destruct (broker_nodes _); [done|cbn; lia]. }
  rewrite op_bind_mod. match goal with |- context [mret _ ?w] => set (w2 := w) end. exists w2.
  assert (E2 : nodes (zk (shared w2)) = nodes (zk (shared w))) by exact Ez. split; [by rewrite E2|]. split; [|done].
  by apply (broker_text_nodes (zk (shared w1))); [rewrite E2|].
Qed.

Lemma broker_text_empty z s : readable z → broker_text z s → s = [] → broker_nodes (nodes z) = [].
Proof.
  intros [[_ Hw] _] (l & Hl & ->). rewrite Forall_forall in Hw. destruct l as [|e l]; [intros _; by apply Permutation_nil_l in Hl|].
  destruct (Hw e) as [_ [a Ea]]; [rewrite <- Hl; by left|]. unfold addresses. cbn [omap list_omap]. rewrite Ea, broker_join_cons.
  apply node_address_Some in Ea as (n & host & port & _ & _ & _ & ->). unfold broker_address. by destruct host.
Qed.
(** C16: A change of the brokers below ZooKeeper's node is followed: the object's list is the new
    one, or when no broker is left the object is closed after all reports. While ZooKeeper
    answers, every node of a broker is well described, the list fits the array, and no
    callback for changes is set; [trailing_comma], [vanished_broker_overruns] and
    [long_list_overruns] are runs without these. *)
Theorem brokers_followed path h acc w :
  answering → readable (zk (shared w)) → KafkaBrokerPath `prefix_of` path → downcb_ (self w) = None → Ledger h acc w →
  ends (λ fuel, watcher fuel ZOO_CHILD_EVENT path) (λ _ w',
    if decide (broker_nodes (nodes (zk (shared w))) = []) then
      closed w' ∧ told <$> write_calls (called (shared w')) ≡ₚ acc
    else Ledger h acc w' ∧ broker_text (zk (shared w)) (kfkBrokers (self w')) ∧ destroy (self w') = destroy (self w)) w.
Proof.
  intros Ha Hr Hp Hd HL. unfold watcher, is_broker_event. rewrite bool_decide_true, Z.eqb_refl by done. cbn [andb].
  destruct (read_run w Ha Hr) as (s & z & Ht & Ez & E). apply ends_bind. eapply ends_now; [exact E|]. cbn beta iota.
  set (w1 := set_with _ _ _). assert (HL1 : Ledger h acc w1) by (by destruct HL; split). destruct (decide _) as [En|En].
  - rewrite En. cbn [length Z.of_nat Z.ltb Z.compare Z.eqb]. unfold changeKafkaBrokers. apply ends_bind, ends_get.
    change (downcb_ (self w1)) with (downcb_ (self w)). rewrite Hd. cbn [bool_decide decide_rel]. rewrite bool_decide_true by done.
    eapply ends_mono; [by apply (destroy_ledger h)|]. cbn beta. by intros _ w' (? & ? & _).
  - rewrite (proj2 (Z.ltb_lt _ _)) by (destruct (broker_nodes _); [done|cbn; lia]).
    eapply ends_mono; [apply (brokers_ledger s h acc); [done| |done]|].
    + intros ->. by eapply En, broker_text_empty.
    + cbn beta. intros _ w' (HL' & (S & _) & ->). by split_and!.
Qed.
End brokers.

(** After [kfkDestroy] the answer of [push] is the one for a wrong parameter, not that of the
    exit. *)
Lemma push_when_closed `{Zookeeper} `{Producer} fuel t d k p part flags (w : World) :
  closed w → push fuel t d k p part flags w = Some (TRANSMIT_PARAMTER_ERROR, w).
Proof.
  intros (_ & Hm & _). unfold push, get. rewrite op_bind_get, Hm. by rewrite (bool_decide_true (∅ = ∅)), orb_true_r.
Qed.

(** ** Samples *)

Import ZkSample KafkaSample ZookProofs(plain, reliable).

Definition kafka_nodes (l : list (string * bytes)) : gmap bytes Node :=
  list_to_map ((KafkaBrokerPath, plain "") :: ((λ e, (broker_path (lit e.1), {| n_value := e.2; n_owner := None |})) <$> l)).
Definition two_brokers : list (string * bytes) := [("0"%string, broker_json "10.0.0.1" "9092"); ("1"%string, broker_json "10.0.0.2" "9092")].
(** A library with queues of two messages where the second message fails. *)
Abbreviation lib2 := (library 1 2 (λ n, if n =? 1 then -192 else 0)).
Abbreviation SWorld := (World (H := service reliable) (H0 := lib2)).
Definition sample (l : list (string * bytes)) (s : ZooKfkTopicsPush) : SWorld := {|
  shared := {| zk := {| s_nodes := kafka_nodes l; s_watches := ∅; s_events := []; s_session := 2; s_tick := 0 |} : @Zk (service reliable);
    colonyNum := 0; rk := Lib_new : @Rk lib2; called := [] |};
  self := s |}.
Lemma reliable_answers : answering (HZ := service reliable).
Proof. intros p watch z [n Hn]. cbn. cbn in Hn. rewrite Hn. cbn. by rewrite decide_True by eauto. Qed.
Lemma op_result {W A} (m : Op W A) w a : fst <$> m w = Some a → m w = Some (a, default w (snd <$> m w)).
Proof. destruct (m w) as [[b w']|]; [|done]. cbn. by intros [= ->]. Qed.

Definition started : World := default (sample [] listening) (snd <$> kfkInit (lit "a:1,b:2") (lit "t,u") 1000 100000 (sample [] listening)).
Definition traffic : list Request := [
  Push (lit "t") (lit "one") None 1 RD_KAFKA_PARTITION_UA RD_KAFKA_MSG_F_COPY;
  Push (lit "v") (lit "lost") None 2 RD_KAFKA_PARTITION_UA RD_KAFKA_MSG_F_COPY;
  Push (lit "u") (lit "two") (Some (lit "k")) 3 RD_KAFKA_PARTITION_UA RD_KAFKA_MSG_F_COPY;
  Brokers (lit "c:3");
  Push (lit "t") (lit "three") None 4 RD_KAFKA_PARTITION_UA RD_KAFKA_MSG_F_COPY;
  Push (lit "t") (lit "four") None 5 RD_KAFKA_PARTITION_UA RD_KAFKA_MSG_F_COPY;
  Flush 0; AddTopic (lit "v");
  Push (lit "v") (lit "five") None 6 RD_KAFKA_PARTITION_UA RD_KAFKA_MSG_F_COPY].
Lemma messages_reported_witness :
  ends (λ fuel, answers ← requests fuel traffic; _ ← kfkDestroy fuel; mret answers) (λ answers w2,
    length answers = length traffic ∧ closed w2 ∧
    told <$> write_calls (called (shared w2)) ≡ₚ accepted traffic answers ∧
    error_calls (called (shared w2)) = filter failed (write_calls (called (shared w2)))) started.
Proof.
  apply (messages_reported (lit "a:1,b:2") (lit "t,u") 1000 100000 traffic (sample [] listening) started).
  - reflexivity.
  - reflexivity.
  - apply op_result. vm_compute. reflexivity.
  - repeat constructor. discriminate.
Defined.
(** The answers, and what the callbacks were told: private data, text and error. *)
Lemma traffic_run :
  (λ r, (r.1, (λ c, match c with WriteCall p i => (true, p, msg i, errorCode i) | ErrorCall p i => (false, p, msg i, errorCode i) end) <$> called (shared r.2)))
    <$> (answers ← requests 20 traffic; _ ← kfkDestroy 20; mret answers) started =
  Some ([1; -10002; 2; 0; 2; 2; 0; 0; 2],
    [(true, 1, lit "one", 0); (true, 3, lit "two", -192); (false, 3, lit "two", -192); (true, 4, lit "three", 0);
     (true, 5, lit "four", 0); (true, 6, lit "five", 0)]).
Proof. by vm_compute. Qed.

Lemma brokers_found_witness : ∃ w',
  find_brokers (HJ := jansson) (lit "z:1") (sample two_brokers ZooKfkTopicsPush_new) = Some (Z.of_nat (length (broker_nodes (nodes (zk (shared w'))))), w') ∧
  broker_text (HJ := jansson) (zk (shared w')) (kfkBrokers (self w')) ∧
  nodes (zk (shared w')) = nodes (zk (shared (sample two_brokers ZooKfkTopicsPush_new))).
Proof.
  apply (brokers_found (HJ := jansson) (lit "z:1") (sample two_brokers ZooKfkTopicsPush_new)).
  - exact reliable_answers.
  - reflexivity.
  - discriminate.
  - reflexivity.
  - split; decide_now.
  - decide_now.
Defined.
(** The brokers change while a producer is at work. *)
Definition connected (l : list (string * bytes)) : World :=
  default (sample l listening) (snd <$> kfkInit (lit "a:1") (lit "t") 1000 100000 (sample l listening)).
Lemma brokers_followed_witness : ∃ h,
  ends (λ fuel, watcher (HJ := jansson) fuel ZOO_CHILD_EVENT KafkaBrokerPath) (λ _ w',
    if decide (broker_nodes (nodes (zk (shared (connected two_brokers)))) = []) then
      closed w' ∧ told <$> write_calls (called (shared w')) ≡ₚ []
    else Ledger h [] w' ∧ broker_text (HJ := jansson) (zk (shared (connected two_brokers))) (kfkBrokers (self w')) ∧
      destroy (self w') = destroy (self (connected two_brokers))) (connected two_brokers).
Proof.
  assert (E : kfkInit (lit "a:1") (lit "t") 1000 100000 (sample two_brokers listening) = Some (0, connected two_brokers)).
  { apply op_result. vm_compute. reflexivity. }
  destruct (ends_run _ _ _ _ _ (init_ledger (lit "a:1") (lit "t") 1000 100000 (sample two_brokers listening) eq_refl eq_refl) E eq_refl) as (h & HL & Hd).
  exists h. apply (brokers_followed (HJ := jansson) KafkaBrokerPath h [] (connected two_brokers) reliable_answers); [|done|done|done].
  split; decide_now.
Defined.
Definition seen (fuel : nat) (w : SWorld) : option (bytes * bool * Z) :=
  (λ r, (kfkBrokers (self r.2), bool_decide (is_Some (kfkt (self r.2))), destroy (self r.2))) <$> watcher (HJ := jansson) fuel ZOO_CHILD_EVENT KafkaBrokerPath w.
Lemma followed_run : seen 5 (connected two_brokers) = Some (lit "10.0.0.2:9092,10.0.0.1:9092", true, 0).
Proof. by vm_compute. Qed.
Lemma last_broker_gone : seen 5 (connected []) = Some ([], false, 2).
Proof. by vm_compute. Qed.

(** A broker's node that has vanished when it is read: without an answer the length is that of
    the array, and the terminator is written behind it. *)
Lemma vanished_broker_overruns :
  each_broker (H := service reliable) (jansson_broker (H := jansson)) [lit "9"] 0 [] (zk (shared (sample two_brokers listening))) = None.
Proof. by vm_compute. Qed.
(** When the last node is no broker, a comma stays at the end. *)
Lemma trailing_comma : seen 5 (connected [("0"%string, lit "x"); ("1"%string, broker_json "10.0.0.2" "9092")]) = Some (lit "10.0.0.2:9092,", true, 0).
Proof. by vm_compute. Qed.
(** Sixty brokers with such addresses overrun the array for the list. *)
Definition many_brokers : list (string * bytes) :=
  (λ n, (String.string_of_list_byte (fmt_ld (Z.of_nat n)), broker_json "broker.example.org" "9092")) <$> seq 0 60.
Lemma long_list_overruns : seen 5 (connected many_brokers) = None.
Proof. by vm_compute. Qed.
(** [ZooKafBrokers] asks for the member [code] where it found [port]: for the node of a broker
    an assertion of rapidjson fails. *)
Lemma rapidjson_port_missing : rapidjson_broker (H := rapidjson) (broker_json "10.0.0.1" "9092") = None.
Proof. by vm_compute. Qed.
(** It reports an error of ZooKeeper as a cluster without brokers. *)
Lemma error_reported_as_empty :
  let z : @Zk (service (λ _, Some false)) := {| s_nodes := kafka_nodes two_brokers; s_watches := ∅; s_events := []; s_session := 2; s_tick := 0 |} in
  let w := {| KafkaBrokers.zk := z; KafkaBrokers.colonyNum := 1; KafkaBrokers.changes := [];
    KafkaBrokers.self := {| KafkaBrokers.zKeepers := lit "z:1"; KafkaBrokers.zookeeph := true; KafkaBrokers.cb_ := true |} |} in
  (λ r, KafkaBrokers.changes r.2) <$> KafkaBrokers.watcher (H0 := rapidjson) ZOO_CHILD_EVENT KafkaBrokerPath w = Some [ [] ].
Proof. by vm_compute. Qed.

(** Once [kfkInit] has failed it cannot be repeated. *)
Lemma failed_init_stays :
  (λ r, r.1) <$> (r1 ← kfkInit [NUL] [] 1000 100000; r2 ← kfkInit (lit "a:1") [] 1000 100000; mret (r1, r2)) (sample [] listening) =
  Some (KAFKA_BROKERS_ADD_ERROR, KAFKA_INIT_ALREADY).
Proof. by vm_compute. Qed.
(** A change that is announced before [kfkInit] is done hands a null pointer to librdkafka. *)
Lemma change_before_init : seen 5 (sample two_brokers listening) = None.
Proof. by vm_compute. Qed.
End KafkaPushProofs.
