(* ===== verification/KafkaPool.v ===== *)
(** * Rows of Kafka producers ([src/zookafka/src/ZooKfkTopicsPush.cpp])

    [ZooKfkProducers] and [ZooKfkGenerators] hand the messages to their producers in turn;
    they differ in how the producers are started. *)

From S2P Require Import Prelude CLib FileSys ZookConfig ZookLaws ZookProofs KafkaBrokers KafkaPush KafkaLaws KafkaPushProofs.
Import ZookConfig(Zookeeper, Zk) KafkaBrokers KafkaPush.

Module KafkaPool.

Record ZooKfkProducers := { lastIndex : Z; kfkProducerNum : Z; ZooKfkProducerPtrVec : list ZooKfkTopicsPush }.
#[export] Instance eta_Producers : Eta ZooKfkProducers := λ r,
  {| lastIndex := lastIndex r; kfkProducerNum := kfkProducerNum r; ZooKfkProducerPtrVec := ZooKfkProducerPtrVec r |}.
Definition ZooKfkProducers_new : ZooKfkProducers := {| lastIndex := 0; kfkProducerNum := 0; ZooKfkProducerPtrVec := [] |}.
Record Pool `{Zookeeper, Producer} := { common : Shared; row : ZooKfkProducers }.
#[export] Instance eta_Pool `{Zookeeper, Producer} : Eta Pool := λ r, {| common := common r; row := row r |}.

Section pool.
Context `{HZ : Zookeeper} `{HP : Producer} `{HJ : Jansson}.

Definition get {A} (f : ZooKfkProducers → A) : Op Pool A := op_get (λ w, f (row w)).
Definition modify (f : ZooKfkProducers → ZooKfkProducers) : Op Pool () := op_mod (λ w, w <| row ::= f |>).
(** An operation of [ZooKfkProducerPtrVec[i]]. *)
Definition at_producer {A} (i : nat) (m : Op World A) : Op Pool A := λ w,
  match ZooKfkProducerPtrVec (row w) !! i with
  | None => None
  | Some s =>
      match m {| shared := common w; self := s |} with
      | Some (a, w') => Some (a, w <| common := shared w' |> <| row ::= λ p, p <| ZooKfkProducerPtrVec ::= <[i := self w']> |> |>)
      | None => None
      end
  end.
(** The loops over the producers from [i], with the result so far; [stop]: an error ends it. *)
Fixpoint each_producer (stop : bool) (f : Z → Op World Z) (n i : nat) (ret : Z) : Op Pool Z :=
  match n with
  | O => mret ret
  | S n' =>
      v ← get ZooKfkProducerPtrVec;
      match v with
      | [] => each_producer stop f n' (S i) KAFKA_UNHAPPEN_ERRPR
      | _ =>
          ret ← at_producer i (f ret);
          if stop && (ret <? 0) then mret ret else each_producer stop f n' (S i) ret
      end
  end.
Definition for_producers (stop : bool) (f : Z → Op World Z) : Op Pool Z :=
  n ← get kfkProducerNum; each_producer stop f (Z.to_nat n) 0 KAFKA_NO_INIT_ALREADY.

(** A producer that was not started is destroyed again. *)
Fixpoint new_producers (fuel : nat) (start : Op World Z) (n : nat) (ret : Z) : Op Pool Z :=
  match n with
  | O => mret ret
  | S n' => λ w,
      match start {| shared := common w; self := ZooKfkTopicsPush_new |} with
      | None => None
      | Some (ret, w') =>
          if ret <? 0 then
            match kfkDestroy fuel w' with Some (_, w'') => Some (ret, w <| common := shared w'' |>) | None => None end
          else new_producers fuel start n' ret (w <| common := shared w' |> <| row ::= λ p, p <| ZooKfkProducerPtrVec ::= λ v, v ++ [self w'] |> |>)
      end
  end.
Definition init_with (fuel : nat) (start : Op World Z) (produceNum : Z) : Op Pool Z :=
  n ← get kfkProducerNum;
  if negb (n =? 0) then mret KAFKA_INIT_ALREADY
  else _ ← modify (λ p, p <| kfkProducerNum := produceNum |>); new_producers fuel start (Z.to_nat produceNum) 0.
(** Of [ZooKfkProducers] and of [ZooKfkGenerators]. *)
Definition zooKfkProducersInit (fuel : nat) (produceNum : Z) (zookStr topicStr : bytes) : Op Pool Z :=
  init_with fuel (zookInit zookStr topicStr 1000 100000) produceNum.
Definition zooKfkGeneratorsInit (fuel : nat) (produceNum : Z) (brokerStr topicStr : bytes) : Op Pool Z :=
  init_with fuel (kfkInit brokerStr topicStr 1000 100000) produceNum.

Definition zooKfkProducersDestroy (fuel : nat) : Op Pool () := _ ← for_producers false (λ ret, _ ← kfkDestroy fuel; mret ret); mret ().
Definition setMsgPushErrorCall : Op Pool Z := for_producers false (λ ret, _ ← KafkaPush.setMsgPushErrorCall; mret (ret + 1)).
Definition setMsgPushCallBack : Op Pool Z := for_producers false (λ ret, _ ← KafkaPush.setMsgPushCallBack; mret (ret + 1)).
Definition setBrokersChangeCall (cb : bytes → Z) : Op Pool Z := for_producers false (λ ret, _ ← setBrokersChangeCallBack cb; mret (ret + 1)).
Definition addProducerTopic (topic : bytes) : Op Pool Z := for_producers true (λ _, producerAddTopic topic).
(** The code and the text of the last error, when [push] failed. *)
Definition psuhKfkMsg (fuel : nat) (topic msg : bytes) (key : option bytes) (msgPri : Z) : Op Pool (Z * option bytes) :=
  n ← get kfkProducerNum;
  if n =? 0 then mret (KAFKA_NO_INIT_ALREADY, None)
  else
    index ← get lastIndex;
    _ ← modify (λ p, p <| lastIndex := u32 (index + 1) |>);
    let sunindex := s32 (index mod u32 n) in
    v ← get ZooKfkProducerPtrVec;
    match v with
    | [] => mret (KAFKA_UNHAPPEN_ERRPR, None)
    | _ =>
        at_producer (Z.to_nat sunindex)
          (ret ← push fuel topic msg key msgPri RD_KAFKA_PARTITION_UA RD_KAFKA_MSG_F_COPY;
           if ret <? 0 then '(code, text) ← getLastErrorMsg; mret (code, Some text) else mret (ret, None))
    end.
Definition produceFlush (fuel : nat) (index : Z) : Op Pool Z :=
  v ← get ZooKfkProducerPtrVec;
  match v with
  | [] => mret KAFKA_NO_INIT_ALREADY
  | _ => if index <? 0 then op_undefined else _ ← at_producer (Z.to_nat index) (bolckFlush fuel 0); mret 0
  end.

(** The producers take turns, and the answer is that of [push], or the code of the last error
    when [push] failed. *)
Lemma psuh_in_turn fuel topic msg key msgPri w :
  0 <= lastIndex (row w) < 2 ^ 32 → 0 < kfkProducerNum (row w) < 2 ^ 31 →
  kfkProducerNum (row w) = Z.of_nat (length (ZooKfkProducerPtrVec (row w))) →
  let i := Z.to_nat (lastIndex (row w) mod kfkProducerNum (row w)) in
  ∃ s, ZooKfkProducerPtrVec (row w) !! i = Some s ∧
    (λ r, (r.1.1, common r.2, lastIndex (row r.2), ZooKfkProducerPtrVec (row r.2))) <$> psuhKfkMsg fuel topic msg key msgPri w =
    (λ r, (if r.1 <? 0 then kfkErrorCode (self r.2) else r.1, shared r.2, u32 (lastIndex (row w) + 1), <[i := self r.2]> (ZooKfkProducerPtrVec (row w))))
      <$> push fuel topic msg key msgPri RD_KAFKA_PARTITION_UA RD_KAFKA_MSG_F_COPY {| shared := common w; self := s |}.
Proof.
  intros Hl Hn Hlen i. assert (Hi : (i < length (ZooKfkProducerPtrVec (row w)))%nat).
  { pose proof (Z.mod_pos_bound (lastIndex (row w)) (kfkProducerNum (row w))). lia. }
  destruct (lookup_lt_is_Some_2 _ _ Hi) as [s Hs]. exists s. split; [done|].
  unfold psuhKfkMsg, get, modify. rewrite op_bind_get, (proj2 (Z.eqb_neq _ 0)), op_bind_get, op_bind_mod, op_bind_get by lia. cbn beta.
  assert (Es : Z.to_nat (s32 (lastIndex (row w) mod u32 (kfkProducerNum (row w)))) = i).
  { rewrite (wrap_u_id 32) by (unfold in_u; lia). pose proof (Z.mod_pos_bound (lastIndex (row w)) (kfkProducerNum (row w))).
    rewrite wrap_s_id by (unfold in_s; lia). done. }
  unfold set_with at 1 2. cbn [row ZooKfkProducerPtrVec]. destruct (ZooKfkProducerPtrVec (row w)) as [|s0 v] eqn:Ev; [done|].
  rewrite Es. unfold at_producer, set_with. cbn. rewrite Ev, Hs, op_bind_run.
  destruct (push _ _ _ _ _ _ _ _) as [[ret w']|]; [|done]. cbn. by destruct (ret <? 0).
Qed.
End pool.

(** ** Runs *)

Import KafkaPushProofs.
Abbreviation SPool := (Pool (H := ZkSample.service ZookProofs.reliable) (H0 := lib2)).
Definition fresh_row : SPool := {| common := shared (sample [] listening); row := ZooKfkProducers_new |}.
(** With two producers for the topic [t]. *)
Definition two_producers : SPool := default fresh_row (snd <$> zooKfkGeneratorsInit 5 2 (lit "a:1") (lit "t") fresh_row).

(** A message for a topic that was not added is refused by [push], but the answer is the code
    of librdkafka's last error, which is zero as if the message was queued. *)
Lemma refusal_hidden : fst <$> psuhKfkMsg 5 (lit "v") (lit "text") None 1 two_producers = Some (0, Some []).
Proof. by vm_compute. Qed.
(** The setters answer with a negative number for success. *)
Lemma setter_answer : fst <$> setMsgPushCallBack two_producers = Some (-10008).
Proof. by vm_compute. Qed.
(** When the second producer cannot be started there is one, but two are counted: the second
    message asks for a producer that is not there. *)
Definition short_row : SPool := two_producers <| row ::= λ p, p <| ZooKfkProducerPtrVec ::= take 1 |> |>.
Lemma short_row_overrun :
  (λ r, r.1.1) <$> psuhKfkMsg 5 (lit "t") (lit "one") None 1 short_row = Some 1 ∧
  (λ r, r.1.1) <$> psuhKfkMsg 5 (lit "t") (lit "two") None 2 (short_row <| row ::= λ p, p <| lastIndex := 1 |> |>) = None.
Proof. by vm_compute. Qed.
(** No producer could be started, and the row cannot be initialised again. *)
Lemma failed_row_stays :
  (λ r, r.1) <$> (r1 ← zooKfkGeneratorsInit 5 2 [NUL] (lit "t"); r2 ← zooKfkGeneratorsInit 5 2 (lit "a:1") (lit "t"); mret (r1, r2)) fresh_row =
  Some (KAFKA_BROKERS_ADD_ERROR, KAFKA_INIT_ALREADY).
Proof. by vm_compute. Qed.
End KafkaPool.
