(* ===== verification/KafkaPop.v ===== *)
(** * The Kafka consumer ([src/zookafka/src/ZooKfkTopicsPop.cpp])

    [ZooKfkTopicsPop] reads the messages of topics that can be started and stopped one by
    one. librdkafka is an instance of [Consumer]. *)

From S2P Require Import Prelude CLib FileSys ZookConfig KafkaBrokers KafkaPush.
Import FileSys(cstr) ZookConfig(Zookeeper, Zk, count_addresses) KafkaBrokers KafkaPush(str2Vec, SIGIO, RD_KAFKA_PARTITION_UA).

Module KafkaPop.

(** ** librdkafka *)

Record Message := {
  m_topic : option bytes; m_payload : bytes; m_key : bytes; m_offset : Z; m_partition : Z; m_err : Z }.
#[export] Instance Message_dec : EqDecision Message.
Proof. solve_decision. Defined.

(** [rd_kafka_topic_partition_list_new] says whether there is memory for a list. *)
Class Consumer := {
  Rk : Type;
  Conf : Type;
  TopicConf : Type;
  rd_kafka_conf_new : option Conf;
  rd_kafka_conf_set : bytes → bytes → Conf → Z * Conf;
  rd_kafka_topic_conf_new : TopicConf;
  rd_kafka_topic_conf_set : bytes → bytes → TopicConf → Z * TopicConf;
  rd_kafka_conf_set_default_topic_conf : TopicConf → Conf → Conf;
  rd_kafka_new : Conf → Rk → option nat * Rk;
  rd_kafka_brokers_add : nat → bytes → Rk → Z * Rk;
  rd_kafka_poll_set_consumer : nat → Rk → Rk;
  rd_kafka_topic_partition_list_new : Z → Rk → bool;
  rd_kafka_subscribe : nat → list (bytes * Z) → Rk → Z * Rk;
  rd_kafka_unsubscribe : nat → Rk → Z * Rk;
  rd_kafka_subscription : nat → Rk → Z;
  rd_kafka_consumer_poll : nat → Z → Rk → option Message * Rk;
  rd_kafka_poll : nat → Z → Rk → Rk;
  rd_kafka_err2str : Z → bytes;
  rd_kafka_consumer_close : nat → Rk → Z * Rk;
  rd_kafka_destroy : nat → Rk → Rk }.

Definition RD_KAFKA_RESP_ERR__PARTITION_EOF : Z := -191.
Definition RD_KAFKA_OFFSET_INVALID : Z := -1001.

(** ** The object *)

Record ZooKfkTopicsPop := {
  zKeepers : bytes; zookeeph : bool; kfkBrokers : bytes; groupName_ : bytes; topics_ : list bytes; kfkt : option nat;
  kMessageMaxSize : Z; startOffset : Z; partition : Z; kfkErrorCode : Z; kfkErrorMsg : bytes; destroy : Z; initFlag : Z;
  switchFlag : Z; errorFlag : Z; downcb_ : option (bytes → Z) }.
#[export] Instance eta_Pop : Eta ZooKfkTopicsPop := λ r, {|
  zKeepers := zKeepers r; zookeeph := zookeeph r; kfkBrokers := kfkBrokers r; groupName_ := groupName_ r;
  topics_ := topics_ r; kfkt := kfkt r; kMessageMaxSize := kMessageMaxSize r; startOffset := startOffset r;
  partition := partition r; kfkErrorCode := kfkErrorCode r; kfkErrorMsg := kfkErrorMsg r; destroy := destroy r;
  initFlag := initFlag r; switchFlag := switchFlag r; errorFlag := errorFlag r; downcb_ := downcb_ r |}.
Definition ZooKfkTopicsPop_new : ZooKfkTopicsPop := {|
  zKeepers := []; zookeeph := false; kfkBrokers := []; groupName_ := []; topics_ := []; kfkt := None;
  kMessageMaxSize := 4 * 1024 * 1024; startOffset := RD_KAFKA_OFFSET_INVALID; partition := RD_KAFKA_PARTITION_UA;
  kfkErrorCode := 0; kfkErrorMsg := []; destroy := 0; initFlag := 0; switchFlag := 0; errorFlag := 0; downcb_ := None |}.

Record Shared `{Zookeeper, Consumer} := { zk : Zk; colonyNum : nat; rk : Rk }.
#[export] Instance eta_Shared `{Zookeeper, Consumer} : Eta Shared := λ r, {| zk := zk r; colonyNum := colonyNum r; rk := rk r |}.
Record World `{Zookeeper, Consumer} := { shared : Shared; self : ZooKfkTopicsPop }.
#[export] Instance eta_World `{Zookeeper, Consumer} : Eta World := λ r, {| shared := shared r; self := self r |}.

(** What [pop] and [tryPop] store through their references and pointers. *)
Record Taken := { t_topic : option bytes; t_data : bytes; t_key : bytes; t_offset : Z; t_parnum : Z }.
#[export] Instance Taken_dec : EqDecision Taken.
Proof. solve_decision. Defined.
Definition taken (m : Message) : Taken :=
  {| t_topic := cstr <$> m_topic m; t_data := m_payload m; t_key := m_key m; t_offset := m_offset m; t_parnum := m_partition m |}.

Section operations.
Context `{HZ : Zookeeper} `{HC : Consumer} `{HJ : Jansson}.

Definition get {A} (f : ZooKfkTopicsPop → A) : Op World A := op_get (λ w, f (self w)).
Definition modify (f : ZooKfkTopicsPop → ZooKfkTopicsPop) : Op World () := op_mod (λ w, w <| self ::= f |>).
Definition lib {A} (f : Rk → A * Rk) : Op World A := λ w, let '(a, r) := f (rk (shared w)) in Some (a, w <| shared ::= λ s, s <| rk := r |> |>).
Definition peek {A} (f : Rk → A) : Op World A := op_get (λ w, f (rk (shared w))).
Definition with_zk {A} (m : nat → Op Zk A) : Op World A := λ w,
  match m (colonyNum (shared w)) (zk (shared w)) with
  | Some (a, z) => Some (a, w <| shared ::= λ s, s <| zk := z |> |>)
  | None => None
  end.
(** The client, where the library is given the pointer. *)
Definition client : Op World nat := op_find (λ w, kfkt (self w)).

Definition setKfkErrorMessage (code : Z) (msg : bytes) : Op World () :=
  modify (λ s, s <| kfkErrorCode := code |> <| kfkErrorMsg := msg |>).
Definition getLastErrorMsg : Op World (Z * bytes) := get (λ s, (kfkErrorCode s, kfkErrorMsg s)).
Definition setBrokersChangeCallBack (cb : bytes → Z) : Op World () := modify (λ s, s <| downcb_ := Some cb |>).

(** *** Start *)

Definition initialize_zookeeper (zookeeper : bytes) : Op World bool :=
  ok ← with_zk (λ _, zoo (ZookConfig.zookeeper_init zookeeper));
  if negb ok then mret false
  else
    match zookeeper with
    | [] => op_undefined
    | _ :: p => _ ← op_mod (λ w, w <| shared ::= λ s, s <| colonyNum ::= λ n, (n + count_addresses (length zookeeper) p)%nat |> |>); mret true
    end.
(** The names of topics as the library gets them, with [partition]. *)
Definition partition_list (par : Z) (l : list bytes) : list (bytes * Z) := (λ t, (cstr t, par)) <$> l.

(** The configuration; [None]: an error is returned. *)
Definition base_conf (conf : Conf) : Conf :=
  (rd_kafka_conf_set (lit "session.timeout.ms") (lit "6000")
    (rd_kafka_conf_set (lit "queued.min.messages") (lit "1000000")
      (rd_kafka_conf_set (lit "internal.termination.signal") (fmt_ld SIGIO) conf).2).2).2.
Definition topic_conf : TopicConf :=
  (rd_kafka_topic_conf_set (lit "auto.offset.reset") (lit "largest")
    (rd_kafka_topic_conf_set (lit "auto.commit.interval.ms") (lit "500")
      (rd_kafka_topic_conf_set (lit "auto.commit.enable") (lit "true") rd_kafka_topic_conf_new).2).2).2.
(** [kfkInit] up to the client. *)
Definition make_client (brokers groupName : bytes) : Op World Z :=
  match rd_kafka_conf_new with
  | None => mret KAFKA_MODULE_NEW_ERROR
  | Some conf =>
      _ ← modify (λ s, s <| kfkBrokers ::= λ b, match b with [] => brokers | _ => b end |>);
      let '(ret, conf) := rd_kafka_conf_set (lit "metadata.broker.list") (cstr brokers) (base_conf conf) in
      if negb (ret =? 0) then mret KAFKA_CONSUMER_CONFSET_ERROR
      else
        _ ← (match groupName with [] => mret () | _ => modify (λ s, s <| groupName_ := groupName |>) end);
        let '(ret, conf) := match groupName with [] => (0, conf) | _ => rd_kafka_conf_set (lit "group.id") (cstr groupName) conf end in
        if negb (ret =? 0) then mret KAFKA_CONSUMER_CONFSET_ERROR
        else
          let '(ret, tconf) := rd_kafka_topic_conf_set (lit "offset.store.method") (lit "broker") topic_conf in
          if negb (ret =? 0) then mret KAFKA_CONSUMER_CONFSET_ERROR
          else
            h ← lib (rd_kafka_new (rd_kafka_conf_set_default_topic_conf tconf conf));
            _ ← modify (λ s, s <| kfkt := h |>);
            match h with
            | None => mret KAFKA_MODULE_NEW_ERROR
            | Some h => ret ← lib (rd_kafka_brokers_add h (cstr brokers)); mret (if ret =? 0 then KAFKA_BROKERS_ADD_ERROR else 0)
            end
  end.
Definition kfkInit (brokers topic groupName : bytes) : Op World Z :=
  match brokers with
  | [] => mret NO_KAFKA_BROKERS_FOUND
  | _ =>
      flag ← get initFlag;
      if negb (flag =? 0) then mret KAFKA_INIT_ALREADY
      else
        _ ← modify (λ s, s <| initFlag := 1 |>);
        ret ← make_client brokers groupName;
        if negb (ret =? 0) then mret ret
        else
          h ← client;
          _ ← lib (λ r, ((), rd_kafka_poll_set_consumer h r));
          match topic with
          | [] => mret 0
          | _ =>
              let topics := str2Vec (cstr topic) "," in
              ok ← peek (rd_kafka_topic_partition_list_new (Z.of_nat (length topics)));
              if negb ok then mret KAFKA_TOPIC_CONF_NEW_ERROR
              else
                _ ← modify (λ s, s <| topics_ ::= λ l, l ++ topics |>);
                par ← get partition;
                err ← lib (rd_kafka_subscribe h (partition_list par topics));
                mret (if err =? 0 then 0 else KAFKA_CONSUMER_ADDTOPIC_ERROR)
          end
  end.
(** What both [zookInit] do first: 1, or an error. *)
Definition find_brokers (zookeepers : bytes) : Op World Z :=
  h ← get zookeeph;
  if h : bool then mret KAFKA_INIT_ALREADY
  else
    ok ← initialize_zookeeper (cstr zookeepers);
    _ ← modify (λ s, s <| zookeeph := ok |>);
    if negb ok then mret KAFKA_MODULE_NEW_ERROR
    else
      '(ret, brokers) ← with_zk (set_brokerlist_from_zookeeper jansson_broker);
      if ret <=? 0 then mret NO_KAFKA_BROKERS_FOUND
      else _ ← modify (λ s, s <| zKeepers := zookeepers |> <| kfkBrokers := brokers |>); mret 1.
Definition zookInit (zookeepers topic groupName : bytes) : Op World Z :=
  ret ← find_brokers zookeepers;
  if ret <=? 0 then mret ret else brokers ← get kfkBrokers; kfkInit brokers topic groupName.

(** *** Topics *)

Definition set_switch (v : Z) : Op World () := modify (λ s, s <| switchFlag := v |>).
(** The error that every later call returns. *)
Definition fail_switch (code : Z) : Op World Z :=
  _ ← modify (λ s, s <| switchFlag := 0 |> <| errorFlag := KAFKA_CONSUMER_ADDTOPIC_ERROR |>); mret code.
(** Both calls for the new list; [keep]: the topics when unsubscribing fails. *)
Definition subscribe_again (h : nat) (unsubscribe : bool) (pList keep : list bytes) : Op World Z :=
  err ← (if unsubscribe then lib (rd_kafka_unsubscribe h) else mret 0);
  if negb (err =? 0) then _ ← modify (λ s, s <| topics_ := keep |>); fail_switch KAFKA_CONSUMER_ADDTOPIC_ERROR
  else
    par ← get partition;
    err ← lib (rd_kafka_subscribe h (partition_list par pList));
    if negb (err =? 0) then _ ← modify (λ s, s <| topics_ := [] |>); fail_switch KAFKA_CONSUMER_ADDTOPIC_ERROR
    else _ ← modify (λ s, s <| topics_ := pList |>); _ ← set_switch 0; get errorFlag.
Definition kfkTopicConsumeStart (topic : bytes) : Op World Z :=
  e ← get errorFlag;
  if negb (e =? 0) then mret e
  else
    _ ← set_switch 1;
    l ← get topics_;
    if decide (topic ∈ l) then _ ← set_switch 0; mret 0
    else
      ok ← peek (rd_kafka_topic_partition_list_new (Z.of_nat (length l + 1)));
      if negb ok then fail_switch KAFKA_TOPIC_CONF_NEW_ERROR
      else h ← client; subscribe_again h (1 <? Z.of_nat (length l + 1)) (l ++ [topic]) l.
(** [topics_] without the first occurrence. *)
Fixpoint erase (topic : bytes) (l : list bytes) : list bytes :=
  match l with [] => [] | t :: l' => if decide (t = topic) then l' else t :: erase topic l' end.
Definition kfkTopicConsumeStop (topic : bytes) : Op World Z :=
  l ← get topics_;
  match l with
  | [] => mret 0
  | _ =>
      e ← get errorFlag;
      if negb (e =? 0) then mret e
      else
        _ ← set_switch 1;
        if negb (bool_decide (topic ∈ l)) then _ ← set_switch 0; mret TRANSMIT_PARAMTER_ERROR
        else
          let l' := erase topic l in
          _ ← modify (λ s, s <| topics_ := l' |>);
          match l' with
          | [] =>
              h ← client;
              err ← lib (rd_kafka_unsubscribe h);
              if negb (err =? 0) then _ ← modify (λ s, s <| topics_ := [topic] |>); fail_switch KAFKA_CONSUMER_ADDTOPIC_ERROR
              else _ ← set_switch 0; mret 0
          | _ =>
              ok ← peek (rd_kafka_topic_partition_list_new (Z.of_nat (length l')));
              if negb ok then _ ← modify (λ s, s <| topics_ := l' ++ [topic] |>); fail_switch KAFKA_MODULE_NEW_ERROR
              else h ← client; subscribe_again h true l' (l' ++ [topic])
          end
  end.

(** *** Messages *)

(** The returns at the start of [pop] and [tryPop]. *)
Definition refused : Op World (option Z) := get (λ s,
  if negb (destroy s =? 0) then Some MODULE_RECV_EXIT_COMMND
  else if negb (errorFlag s =? 0) then Some (errorFlag s)
  else if negb (switchFlag s =? 0) then Some 0
  else match kfkt s with
       | None => Some KAFKA_NO_INIT_ALREADY
       | Some _ => match topics_ s with [] => Some KAFKA_NO_TOPIC_NAME_INIT | _ => None end
       end).
(** Other threads set the flags before they wait for the mutex: [others] says after which
    poll, for [switchFlag] and [destroy]. *)
Definition interfere (f : bool * bool) (s : ZooKfkTopicsPop) : ZooKfkTopicsPop :=
  s <| switchFlag ::= λ v, if f.1 then 1 else v |> <| destroy ::= λ v, if f.2 then 1 else v |>.
Definition is_eof (m : Message) : bool := m_err m =? RD_KAFKA_RESP_ERR__PARTITION_EOF.
(** The loop of [pop]; it goes on when [others] is used up. *)
Fixpoint pop_loop (h : nat) (others : list (bool * bool)) : Op World (option Message) :=
  match others with
  | [] => op_undefined
  | f :: others' =>
      message ← lib (rd_kafka_consumer_poll h 500);
      _ ← modify (interfere f);
      stop ← get (λ s, negb (switchFlag s =? 0) || negb (destroy s =? 0));
      match message with
      | Some m => if is_eof m then if stop : bool then mret None else pop_loop h others' else mret (Some m)
      | None => if stop then mret None else pop_loop h others'
      end
  end.
(** The result is read from an error message that was destroyed. *)
Definition pop (others : list (bool * bool)) : Op World (Z * option Taken) :=
  r ← refused;
  match r with
  | Some ret => mret (ret, None)
  | None =>
      h ← client;
      message ← pop_loop h others;
      match message with
      | None => mret (0, None)
      | Some m =>
          if negb (m_err m =? 0) then _ ← setKfkErrorMessage (m_err m) (rd_kafka_err2str (m_err m)); op_undefined
          else mret (0, Some (taken m))
      end
  end.
(** [timeout_ms] is not used. *)
Definition tryPop (timeout_ms : Z) : Op World (Z * option Taken) :=
  r ← refused;
  match r with
  | Some ret => mret (ret, None)
  | None =>
      h ← client;
      message ← lib (rd_kafka_consumer_poll h 500);
      match message with
      | None => mret (0, None)
      | Some m =>
          if negb (m_err m =? 0) then
            if is_eof m then mret (0, None)
            else _ ← setKfkErrorMessage (m_err m) (rd_kafka_err2str (m_err m)); mret (m_err m, None)
          else mret (1, Some (taken m))
      end
  end.

(** *** End and changes of the cluster *)

Definition kfkDestroy : Op World () :=
  _ ← modify (λ s, s <| destroy := 1 |>);
  _ ← modify (λ s, s <| destroy ::= Z.succ |>);
  d ← get destroy;
  if 2 <? d then mret ()
  else
    h ← get kfkt;
    _ ← (match h with
         | Some h => _ ← lib (rd_kafka_consumer_close h); _ ← lib (λ r, ((), rd_kafka_destroy h r)); modify (λ s, s <| kfkt := None |>)
         | None => mret ()
         end);
    modify (λ s, s <| zookeeph := false |> <| zKeepers := [] |> <| kfkBrokers := [] |> <| topics_ := [] |>
      <| kMessageMaxSize := 4 * 1024 * 1024 |> <| startOffset := RD_KAFKA_OFFSET_INVALID |> <| partition := RD_KAFKA_PARTITION_UA |>).
Definition changeKafkaBrokers (brokers : bytes) : Op World () :=
  cb ← get downcb_;
  let over := match cb with Some downcb => 0 <? downcb brokers | None => bool_decide (brokers = []) end in
  if over then kfkDestroy
  else
    _ ← modify (λ s, s <| kfkBrokers := brokers |>);
    h ← client;
    _ ← lib (rd_kafka_brokers_add h (cstr brokers));
    lib (λ r, ((), rd_kafka_poll h 10 r)).
Definition watcher (type : Z) (path : bytes) : Op World () :=
  if is_broker_event type path then
    '(ret, brokers) ← with_zk (set_brokerlist_from_zookeeper jansson_broker);
    if 0 <? ret then changeKafkaBrokers brokers
    else if ret =? 0 then changeKafkaBrokers [] else mret ()
  else mret ().
(** The list of topics is only logged. *)
Definition kfkSubscription : Op World () :=
  h ← get kfkt;
  match h with
  | None => mret ()
  | Some h =>
      err ← peek (rd_kafka_subscription h);
      if negb (err =? 0) then setKfkErrorMessage err (rd_kafka_err2str err) else mret ()
  end.
End operations.
End KafkaPop.
