(* ===== verification/KafkaPopProofs.v ===== *)
(** * Topics and messages of a consumer

    While no call has failed, what the library is subscribed to is what the object says;
    the messages come in order. [ConsumerLaws] is what [librdkafka/rdkafka.h] documents. *)

From S2P Require Import Prelude CLib FileSys ZookConfig ZookLaws ZookProofs KafkaBrokers Fuel KafkaPush KafkaPop.
Import FileSys(cstr) ZookConfig(Zookeeper, Zk) KafkaBrokers KafkaPop.

Module KafkaPopProofs.

(** [incoming h r]: the messages that are still to come, with the marks of the ends of
    partitions. [patience h r]: so often can a poll bring nothing although there is one. *)
Class ConsumerLaws (C : Consumer) := {
  subscribed : nat → Rk → list bytes;
  incoming : nat → Rk → list Message;
  patience : nat → Rk → nat;
  new_subscribed c r h : (rd_kafka_new c r).1 = Some h → subscribed h (rd_kafka_new c r).2 = [];
  brokers_subscribed h' h b r : subscribed h' (rd_kafka_brokers_add h b r).2 = subscribed h' r;
  set_consumer_subscribed h' h r : subscribed h' (rd_kafka_poll_set_consumer h r) = subscribed h' r;
  subscribe_ok h l r : (rd_kafka_subscribe h l r).1 = 0 → subscribed h (rd_kafka_subscribe h l r).2 = l.*1;
  unsubscribe_ok h r : (rd_kafka_unsubscribe h r).1 = 0 → subscribed h (rd_kafka_unsubscribe h r).2 = [];
  consumer_poll_subscribed h' h ms r : subscribed h' (rd_kafka_consumer_poll h ms r).2 = subscribed h' r;
  poll_subscribed h' h ms r : subscribed h' (rd_kafka_poll h ms r) = subscribed h' r;
  poll_incoming h ms r :
    match rd_kafka_consumer_poll h ms r with
    | (Some m, r') => incoming h r = m :: incoming h r'
    | (None, r') => incoming h r' = incoming h r ∧ (incoming h r ≠ [] → (patience h r' < patience h r)%nat)
    end }.

(** ** What happens to a consumer *)

Inductive Event :=
  | Start (topic : bytes) | Stop (topic : bytes) | Pop (others : list (bool * bool)) | TryPop (timeout_ms : Z)
  | Brokers (brokers : bytes) | Subscription.

Section topics.
Context `{HZ : Zookeeper} `{HC : Consumer} `{!ConsumerLaws HC}.
Implicit Types w : World.

Definition ignore {A} (m : Op World A) : Op World () := _ ← m; mret ().
Definition handle (e : Event) : Op World () :=
  match e with
  | Start t => ignore (kfkTopicConsumeStart t)
  | Stop t => ignore (kfkTopicConsumeStop t)
  | Pop others => ignore (pop others)
  | TryPop ms => ignore (tryPop ms)
  | Brokers b => changeKafkaBrokers b
  | Subscription => kfkSubscription
  end.
Definition allowed (e : Event) : Prop := match e with Brokers b => b ≠ [] | _ => True end.
(** From a successful [kfkInit], until the object is destroyed. *)
Inductive reachable : World → Prop :=
  | reach_init brokers topic groupName w w1 :
      self w = ZooKfkTopicsPop_new → kfkInit brokers topic groupName w = Some (0, w1) → reachable w1
  | reach_event e w w1 : reachable w → allowed e → handle e w = Some ((), w1) → reachable w1.

(** *** The invariant *)

Definition live (w : World) : Prop := downcb_ (self w) = None ∧ is_Some (kfkt (self w)).
(** The topics of the client are [l] unless a call has failed. *)
Definition follows (l : list bytes) (w : World) : Prop :=
  ∀ h, kfkt (self w) = Some h → errorFlag (self w) = 0 → subscribed h (rk (shared w)) = cstr <$> l.
Definition Inv (w : World) : Prop := live w ∧ follows (topics_ (self w)) w.

(** *** What each call does *)

Definition answered {A} (m : Op World A) (Q : A → World → Prop) (w : World) : Prop := ∃ a w', m w = Some (a, w') ∧ Q a w'.
Lemma answered_ret {A} (a : A) (Q : A → World → Prop) w : Q a w → answered (mret a) Q w.
Proof. intros HQ. by exists a, w. Qed.
Lemma answered_get {A} (f : ZooKfkTopicsPop → A) (Q : A → World → Prop) w : Q (f (self w)) w → answered (get f) Q w.
Proof. intros HQ. by exists (f (self w)), w. Qed.
Lemma answered_peek {A} (f : Rk → A) (Q : A → World → Prop) w : Q (f (rk (shared w))) w → answered (peek f) Q w.
Proof. intros HQ. by exists (f (rk (shared w))), w. Qed.
Lemma answered_modify f (Q : () → World → Prop) w : Q () (w <| self ::= f |>) → answered (modify f) Q w.
Proof. intros HQ. by exists (), (w <| self ::= f |>). Qed.
Lemma answered_client h (Q : nat → World → Prop) w : kfkt (self w) = Some h → Q h w → answered client Q w.
Proof. intros E HQ. exists h, w. unfold client, op_find. by rewrite E. Qed.
Lemma answered_lib {A} (f : Rk → A * Rk) (Q : A → World → Prop) w :
  Q (f (rk (shared w))).1 (w <| shared ::= λ s, s <| rk := (f (rk (shared w))).2 |> |>) → answered (lib f) Q w.
Proof. intros HQ. eexists _, _. split; [|exact HQ]. unfold lib. by destruct (f _). Qed.
Lemma answered_bind {A B} (m : Op World A) (k : A → Op World B) Q w :
  answered m (λ a w', answered (k a) Q w') w → answered (m ≫= k) Q w.
Proof. intros (a & w1 & E1 & b & w2 & E2 & HQ). exists b, w2. by rewrite op_bind_run, E1. Qed.
Lemma answered_mono {A} (m : Op World A) (P Q : A → World → Prop) w : answered m P w → (∀ a w', P a w' → Q a w') → answered m Q w.
Proof. intros (a & w1 & E & HP) H. exists a, w1. auto. Qed.
Lemma answered_wlp {A} (m : Op World A) (Q : A → World → Prop) w : answered m Q w → wlp m Q w.
Proof. intros (a & w1 & E & HQ). unfold wlp. by rewrite E. Qed.

(** No call of the library fails. *)
Definition accepting : Prop :=
  (∀ n r, rd_kafka_topic_partition_list_new n r = true) ∧ (∀ h l r, (rd_kafka_subscribe h l r).1 = 0) ∧
  (∀ h r, (rd_kafka_unsubscribe h r).1 = 0).
(** How a call ends that found the object in the state [w] and leaves [w']: the flag is set for
    failures of the library only, and the answer tells them; [done r l] without a failure. *)
Definition ended (done : Z → list bytes → Prop) (w : World) (r : Z) (w' : World) : Prop :=
  (errorFlag (self w) = 0 → accepting → errorFlag (self w') = 0) ∧
  (errorFlag (self w') = 0 → done r (topics_ (self w'))) ∧
  (errorFlag (self w') ≠ 0 → r ≠ 0).
(** The list with the topic, at the end when it is new. *)
Definition started (t : bytes) (l : list bytes) (r : Z) (l' : list bytes) : Prop :=
  r = 0 ∧ (t ∈ l → l' = l) ∧ (t ∉ l → l' = l ++ [t]).
(** The list without its first [t]; when there is none it stays, with an error. *)
Definition stopped (t : bytes) (l : list bytes) (r : Z) (l' : list bytes) : Prop :=
  (t ∉ l → r = (if decide (l = []) then 0 else TRANSMIT_PARAMTER_ERROR) ∧ l' = l) ∧
  (∀ l1 l2, l = l1 ++ t :: l2 → t ∉ l1 → r = 0 ∧ l' = l1 ++ l2).
Definition broken (w : World) (r : Z) (w' : World) : Prop := Inv w' ∧ errorFlag (self w') ≠ 0 ∧ r ≠ 0.
Lemma broken_ended P w r w' : ¬ accepting → broken w r w' → Inv w' ∧ ended P w r w'.
Proof. intros Hn (HI & He & Hr). split; [done|]. by split_and!. Qed.

(** After an operation that has failed the flag says so. *)
Lemma fail_broken code w w0 : live w → code ≠ 0 → answered (fail_switch code) (broken w0) w.
Proof. intros HI Hc. unfold fail_switch. apply answered_bind, answered_modify, answered_ret. by split_and!. Qed.
Lemma fail_ended P code w w0 : live w → code ≠ 0 → ¬ accepting → answered (fail_switch code) (λ r w', Inv w' ∧ ended P w0 r w') w.
Proof. intros HI Hc Hn. eapply answered_mono; [by apply (fail_broken _ _ w0)|]. intros r w'. by apply broken_ended. Qed.
Lemma keep_and_fail_ended P f code w w0 :
  downcb_ (f (self w)) = downcb_ (self w) → kfkt (f (self w)) = kfkt (self w) → live w → code ≠ 0 → ¬ accepting →
  answered (_ ← modify f; fail_switch code) (λ r w', Inv w' ∧ ended P w0 r w') w.
Proof.
  intros E1 E2 HI Hc Hn. apply answered_bind, answered_modify, fail_ended; [|done..]. destruct HI as [? ?]. split.
  - change (downcb_ (f (self w)) = None). by rewrite E1.
  - change (is_Some (kfkt (f (self w)))). by rewrite E2.
Qed.
Lemma subscribe_again_Inv (P : Z → list bytes → Prop) h (unsub : bool) pList keep w w0 :
  kfkt (self w) = Some h → errorFlag (self w) = 0 → live w → P 0 pList →
  answered (subscribe_again h unsub pList keep) (λ r w', Inv w' ∧ ended P w0 r w') w.
Proof.
  intros Hh He HI HP. unfold subscribe_again. apply answered_bind.
  apply (answered_mono _ (λ err w1, self w1 = self w ∧ (err ≠ 0 → ¬ accepting))).
  { destruct unsub; [|by apply answered_ret]. apply answered_lib. split; [done|]. intros Hu (_ & _ & Ha). by apply Hu, Ha. }
  intros err w1 [E1 Hu]. assert (H1 : live w1) by (unfold live; by rewrite E1). destruct (Z.eqb_spec err 0) as [->|Ee]; cbn [negb].
  2:{ apply keep_and_fail_ended; [done..|by apply Hu]. }
  apply answered_bind, answered_get, answered_bind, answered_lib. pose proof (subscribe_ok h (partition_list (partition (self w1)) pList) (rk (shared w1))) as Hs.
  set (res := rd_kafka_subscribe h (partition_list (partition (self w1)) pList) (rk (shared w1))) in *. set (w2 := w1 <| shared ::= _ |>) in *.
  destruct (Z.eqb_spec res.1 0) as [E|E]; cbn [negb].
  2:{ apply keep_and_fail_ended; [done..|]. intros (_ & Ha & _). by apply E, Ha. }
  apply answered_bind, answered_modify, answered_bind, answered_modify, answered_get.
  assert (E0 : errorFlag (self w1) = 0) by (by rewrite E1). split; [|split_and!].
  - split; [exact H1|]. intros h' Hh' _. assert (h' = h) as ->.
    { change (kfkt (self w1) = Some h') in Hh'. rewrite E1, Hh in Hh'. by injection Hh'. }
    change (subscribed h res.2 = cstr <$> pList). rewrite (Hs E). unfold partition_list. by rewrite <- list_fmap_compose.
  - intros _ _. exact E0.
  - intros _. change (P (errorFlag (self w1)) pList). by rewrite E0.
  - done.
Qed.
Lemma start_Inv t w :
  Inv w → answered (kfkTopicConsumeStart t) (λ r w', Inv w' ∧ ended (started t (topics_ (self w))) w r w') w.
Proof.
  intros HI. unfold kfkTopicConsumeStart. apply answered_bind, answered_get.
  destruct (Z.eqb_spec (errorFlag (self w)) 0) as [He|He]; cbn [negb]; [|by apply answered_ret; split].
  apply answered_bind, answered_modify, answered_bind, answered_get. set (w1 := w <| self ::= _ |>).
  change (topics_ (self w1)) with (topics_ (self w)). destruct (decide (t ∈ topics_ (self w))) as [Ht|Ht].
  - apply answered_bind, answered_modify, answered_ret. split; [exact HI|]. split_and!; [done| |done]. by intros _; split_and!.
  - destruct HI as [HL _]. apply answered_bind, answered_peek. destruct (rd_kafka_topic_partition_list_new _ _) eqn:En; cbn [negb].
    + pose proof HL as (_ & h & Hh). apply answered_bind. eapply answered_client; [exact Hh|]. by apply subscribe_again_Inv.
    + apply fail_ended; [done..|]. intros (Ha & _). by rewrite Ha in En.
Qed.
Lemma erase_first t l1 l2 : t ∉ l1 → erase t (l1 ++ t :: l2) = l1 ++ l2.
Proof.
  induction l1 as [|x l1 IH]; intros Hn; cbn [erase app]; [by rewrite decide_True|]. apply not_elem_of_cons in Hn as [Hx Hl].
  rewrite decide_False by done. by rewrite IH.
Qed.
Lemma erase_stopped t l : t ∈ l → stopped t l 0 (erase t l).
Proof. intros Ht. split; [done|]. intros l1 l2 -> Hn. by rewrite erase_first. Qed.
Lemma stop_Inv t w :
  Inv w → answered (kfkTopicConsumeStop t) (λ r w', Inv w' ∧
    (topics_ (self w) ≠ [] ∨ errorFlag (self w) = 0 → ended (stopped t (topics_ (self w))) w r w')) w.
Proof.
  intros HI. unfold kfkTopicConsumeStop. apply answered_bind, answered_get.
  destruct (topics_ (self w)) as [|t0 l0] eqn:El.
  { apply answered_ret. split; [done|]. intros [?|E]; [done|]. split_and!; [done| |done]. intros _. rewrite El. split; [done|].
    intros l1 l2 Hl. by destruct l1. }
  set (l := t0 :: l0) in *. apply answered_bind, answered_get.
  apply (answered_mono _ (λ r w', Inv w' ∧ ended (stopped t l) w r w')); [|by intros r w' [? ?]].
  destruct (Z.eqb_spec (errorFlag (self w)) 0) as [He|He]; cbn [negb]; [|by apply answered_ret; split].
  apply answered_bind, answered_modify. destruct (bool_decide (t ∈ l)) eqn:Et; cbn [negb].
  2:{ apply bool_decide_eq_false in Et. apply answered_bind, answered_modify, answered_ret. split; [exact HI|]. split_and!; [done| |done].
      intros _. split; [done|]. intros l1 l2 Hl. exfalso. apply Et. rewrite Hl. set_solver. }
  apply bool_decide_eq_true, erase_stopped in Et.
  destruct HI as [HL _]. pose proof HL as (_ & h & Hh). cbv zeta. apply answered_bind, answered_modify. destruct (erase t l) as [|t1 l1] eqn:E1.
  - apply answered_bind. eapply answered_client; [exact Hh|]. apply answered_bind, answered_lib. set (w2 := _ <| self ::= _ |>).
    pose proof (unsubscribe_ok h (rk (shared w2))) as Hu. destruct (Z.eqb_spec (rd_kafka_unsubscribe h (rk (shared w2))).1 0) as [E|E]; cbn [negb].
    + apply answered_bind, answered_modify, answered_ret. split; [|by split_and!]. split; [exact HL|]. intros h' Hh' _.
      change (kfkt (self w) = Some h') in Hh'. rewrite Hh in Hh'. injection Hh' as <-. by apply Hu.
    + apply keep_and_fail_ended; [done..|]. intros (_ & _ & Ha). by apply E, Ha.
  - apply answered_bind, answered_peek. destruct (rd_kafka_topic_partition_list_new _ _) eqn:En; cbn [negb].
    + apply answered_bind. eapply answered_client; [exact Hh|]. by apply subscribe_again_Inv.
    + apply keep_and_fail_ended; [done..|]. intros (Ha & _). by rewrite Ha in En.
Qed.

(** *** Messages leave the topics alone *)

(** The object's topics, client and error flag, and the subscription, stay. *)
Definition quiet (w w' : World) : Prop :=
  topics_ (self w') = topics_ (self w) ∧ kfkt (self w') = kfkt (self w) ∧ errorFlag (self w') = errorFlag (self w) ∧
  downcb_ (self w') = downcb_ (self w) ∧ ∀ h, subscribed h (rk (shared w')) = subscribed h (rk (shared w)).
#[local] Instance quiet_preorder : PreOrder quiet.
Proof. split; [by intros w|]. intros a b c (? & ? & ? & ? & S1) (? & ? & ? & ? & S2). split_and!; congruence. Qed.
Lemma Inv_quiet w w' : quiet w w' → Inv w → Inv w'.
Proof.
  intros (E1 & E2 & E3 & E4 & Es) [[Hd Hk] Hs]. unfold Inv, live, follows. rewrite E1, E2, E3, E4. split; [done|].
  intros h Hh He. rewrite Es. by apply Hs.
Qed.
Lemma quiet_modify f w : topics_ (f (self w)) = topics_ (self w) → kfkt (f (self w)) = kfkt (self w) →
  errorFlag (f (self w)) = errorFlag (self w) → downcb_ (f (self w)) = downcb_ (self w) → quiet w (w <| self ::= f |>).
Proof. by intros; split_and!. Qed.
Definition is_quiet {A} (m : Op World A) : Prop := ∀ w, wlp m (λ _ w', quiet w w') w.
Lemma quietly_ret {A} (a : A) : is_quiet (mret a).
Proof. intros w. by apply wlp_ret. Qed.
Lemma quietly_bind {A B} (m : Op World A) (k : A → Op World B) : is_quiet m → (∀ a, is_quiet (k a)) → is_quiet (m ≫= k).
Proof.
  intros Hm Hk w. eapply wlp_seq; [apply Hm|]. cbn beta. intros a w1 H1. eapply wlp_mono; [apply Hk|]. cbn beta. intros b w2 H2. by etrans.
Qed.
Lemma quietly_get {A} (f : ZooKfkTopicsPop → A) : is_quiet (get f).
Proof. by intros w. Qed.
Lemma quiet_peek {A} (f : Rk → A) : is_quiet (peek f).
Proof. by intros w. Qed.
Lemma quiet_client : is_quiet client.
Proof. intros w. by apply wlp_find. Qed.
Lemma quiet_undefined {A} : is_quiet (op_undefined : Op World A).
Proof. by intros w. Qed.
Lemma quiet_mod f : (∀ w, quiet w (w <| self ::= f |>)) → is_quiet (modify f).
Proof. intros Hf w. apply Hf. Qed.
Lemma quiet_lib {A} (f : Rk → A * Rk) : (∀ h r, subscribed h (f r).2 = subscribed h r) → is_quiet (lib f).
Proof.
  intros Hf w. unfold wlp, lib. pose proof (λ h, Hf h (rk (shared w))) as Hs. destruct (f _) as [a r]. by split_and!.
Qed.
Lemma quiet_consumer_poll h ms : is_quiet (lib (rd_kafka_consumer_poll h ms)).
Proof. apply quiet_lib. intros. apply consumer_poll_subscribed. Qed.
Lemma quiet_refused : is_quiet refused.
Proof. by intros w. Qed.
Lemma quiet_setKfkErrorMessage code msg : is_quiet (setKfkErrorMessage code msg).
Proof. by intros w. Qed.
Create HintDb quiet.
#[local] Hint Resolve quietly_ret quietly_get quiet_peek quiet_client quiet_undefined quiet_consumer_poll quiet_refused quiet_setKfkErrorMessage : quiet.
Ltac quiet_step := repeat (first [progress eauto with quiet | apply quietly_bind; [|intros ?] | case_match]).
Lemma quiet_pop_loop h others : is_quiet (pop_loop h others).
Proof.
  induction others as [|f others IH]; cbn [pop_loop]; [apply quiet_undefined|].
  apply quietly_bind; [apply quiet_consumer_poll|]. intros m. apply quietly_bind; [by intros w|]. intros _. quiet_step.
Qed.
#[local] Hint Resolve quiet_pop_loop : quiet.
Lemma quiet_pop others : is_quiet (pop others).
Proof. unfold pop. quiet_step. Qed.
Lemma quiet_tryPop ms : is_quiet (tryPop ms).
Proof. unfold tryPop. quiet_step. Qed.
Lemma quiet_kfkSubscription : is_quiet kfkSubscription.
Proof. unfold kfkSubscription. quiet_step. Qed.
Lemma brokers_quiet b w : downcb_ (self w) = None → b ≠ [] → wlp (changeKafkaBrokers b) (λ _ w', quiet w w') w.
Proof.
  intros Hd Hb. unfold changeKafkaBrokers. apply wlp_bind, wlp_get. rewrite Hd, bool_decide_false by done.
  match goal with |- wlp ?m _ _ => assert (Hq : is_quiet m); [|by apply Hq] end.
  apply quietly_bind; [by intros w'|]. intros []. apply quietly_bind; [apply quiet_client|]. intros h.
  apply quietly_bind; [apply quiet_lib; intros; apply brokers_subscribed|]. intros n. apply quiet_lib. intros. apply poll_subscribed.
Qed.

(** *** Start *)

Definition empty (w : World) : Prop := downcb_ (self w) = None ∧ topics_ (self w) = [].
Lemma make_client_wlp brokers groupName w : empty w →
  wlp (make_client brokers groupName) (λ r w', empty w' ∧ (r = 0 → ∃ h, kfkt (self w') = Some h ∧ subscribed h (rk (shared w')) = [])) w.
Proof.
  intros He. unfold make_client. destruct rd_kafka_conf_new as [conf|]; [|by apply wlp_ret].
  apply wlp_bind, wlp_mod. set (w1 := w <| self ::= _ |>). assert (H1 : empty w1) by exact He. clearbody w1.
  destruct (rd_kafka_conf_set _ _ _) as [ret conf1]. case_match; [by apply wlp_ret; split|].
  eapply (wlp_seq _ _ (λ _ w2, empty w2)); [by destruct groupName|]. intros [] w2 H2.
  destruct (match groupName with [] => _ | _ => _ end) as [ret2 conf2]. case_match; [by apply wlp_ret; split|].
  destruct (rd_kafka_topic_conf_set _ _ _) as [ret3 tconf]. case_match; [by apply wlp_ret; split|].
  set (cf := rd_kafka_conf_set_default_topic_conf _ _). pose proof (λ h, new_subscribed cf (rk (shared w2)) h) as Hnew.
  apply wlp_bind. unfold lib at 1, wlp at 1. destruct (rd_kafka_new cf (rk (shared w2))) as [o r]. cbn [fst snd] in Hnew.
  apply wlp_bind, wlp_mod. destruct o as [h|]; [|by apply wlp_ret].
  apply wlp_bind. unfold lib at 1, wlp at 1. set (w3 := set_with _ _ _).
  pose proof (brokers_subscribed h h (cstr brokers) (rk (shared w3))) as Hb. destruct (rd_kafka_brokers_add _ _ _) as [n r3].
  apply wlp_ret. split; [exact H2|]. intros _. exists h. split; [done|]. cbn [snd] in Hb.
  change (subscribed h r3 = []). rewrite Hb. by apply Hnew.
Qed.
Lemma kfkInit_Inv brokers topic groupName w : self w = ZooKfkTopicsPop_new →
  wlp (kfkInit brokers topic groupName) (λ r w', r = 0 → Inv w') w.
Proof.
  intros Hs. unfold kfkInit. destruct brokers as [|b0 brokers]; [by apply wlp_ret|]. set (b := b0 :: brokers).
  apply wlp_bind, wlp_get. rewrite Hs. change (negb (initFlag ZooKfkTopicsPop_new =? 0)) with false. cbn iota.
  apply wlp_bind, wlp_mod. eapply wlp_seq; [apply make_client_wlp; by split; unfold set_with; cbn; rewrite Hs|]. cbn beta.
  intros ret w1 [[Hd Ht] Hk]. destruct (Z.eqb_spec ret 0) as [Er|Er]; cbn [negb]; [|by apply wlp_ret; intros ->].
  destruct (Hk Er) as (h & Hh & Hsub). apply wlp_bind, wlp_find. intros h' Hh'. rewrite Hh in Hh'. injection Hh' as <-.
  apply wlp_bind. unfold lib at 1, wlp at 1. set (w2 := w1 <| shared ::= _ |>).
  assert (Hsub2 : subscribed h (rk (shared w2)) = []).
  { change (subscribed h (rd_kafka_poll_set_consumer h (rk (shared w1))) = []). by rewrite set_consumer_subscribed. }
  assert (HL : ∀ w', self w' = self w2 → live w') by (intros w' E; unfold live; rewrite E; split; [exact Hd|by exists h]).
  destruct topic as [|t0 topic].
  - apply wlp_ret. intros _. split; [by apply HL|]. intros h' Hh' _. change (kfkt (self w1) = Some h') in Hh'. rewrite Hh in Hh'.
    injection Hh' as <-. change (topics_ (self w2)) with (topics_ (self w1)). by rewrite Hsub2, Ht.
  - set (topics := KafkaPush.str2Vec _ _). apply wlp_bind, wlp_get. case_match; [by apply wlp_ret|].
    apply wlp_bind, wlp_mod, wlp_bind, wlp_get. set (w3 := w2 <| self ::= _ |>). apply wlp_bind. unfold lib at 1, wlp at 1.
    pose proof (subscribe_ok h (partition_list (partition (self w3)) topics) (rk (shared w3))) as Hok.
    destruct (rd_kafka_subscribe _ _ _) as [err r]. apply wlp_ret. destruct (Z.eqb_spec err 0) as [->|]; [|done]. intros _.
    split; [split; [exact Hd|by exists h]|]. intros h' Hh' _. change (kfkt (self w1) = Some h') in Hh'. rewrite Hh in Hh'. injection Hh' as <-.
    change (subscribed h r = cstr <$> (topics_ (self w1) ++ topics)). rewrite Ht. cbn [app]. cbn [fst snd] in Hok. rewrite Hok by done.
    unfold partition_list. by rewrite <- list_fmap_compose.
Qed.

(** *** The whole *)

Lemma event_Inv e w : allowed e → Inv w → wlp (handle e) (λ _ w', Inv w') w.
Proof.
  intros Ha HI. assert (Hq : ∀ A (m : Op World A), is_quiet m → wlp (ignore m) (λ _ w', Inv w') w).
  { intros A m Hm. eapply wlp_mono; [apply (quietly_bind m _ Hm (λ _, quietly_ret ()))|]. cbn beta. intros _ w' Hw. by eapply Inv_quiet. }
  destruct e as [t|t|others|ms|b|]; cbn [handle].
  - eapply wlp_seq; [by apply answered_wlp, start_Inv|]. cbn beta. intros r w' [? _]. by apply wlp_ret.
  - eapply wlp_seq; [by apply answered_wlp, stop_Inv|]. cbn beta. intros r w' [? _]. by apply wlp_ret.
  - apply Hq, quiet_pop.
  - apply Hq, quiet_tryPop.
  - eapply wlp_mono; [apply brokers_quiet; [apply HI|done]|]. cbn beta. intros _ w' Hw. by eapply Inv_quiet.
  - eapply wlp_mono; [apply quiet_kfkSubscription|]. cbn beta. intros _ w' Hw. by eapply Inv_quiet.
Qed.
Lemma reachable_Inv w : reachable w → Inv w.
Proof.
  induction 1 as [brokers topic g w w1 Hs E|e w w1 Hr IH Ha E].
  - exact (wlp_run _ (λ r w', r = 0 → Inv w') _ _ _ E (kfkInit_Inv brokers topic g w Hs) eq_refl).
  - exact (wlp_run _ (λ _ w', Inv w') _ _ _ E (event_Inv e w Ha IH)).
Qed.


(** ** Messages *)

(** Nobody else calls anything while [pop] waits. *)
Definition alone (n : nat) : list (bool * bool) := replicate n (false, false).
Fixpoint pops (fuel n : nat) : Op World (list (Z * option Taken)) :=
  match n with O => mret [] | S n' => a ← pop (alone fuel); l ← pops fuel n'; mret (a :: l) end.
Definition messages (h : nat) (w : World) : list Message := filter (λ m, is_eof m = false) (incoming h (rk (shared w))).
Definition ready (h : nat) (w : World) : Prop :=
  kfkt (self w) = Some h ∧ destroy (self w) = 0 ∧ errorFlag (self w) = 0 ∧ switchFlag (self w) = 0 ∧ topics_ (self w) ≠ [].

Lemma interfere_alone w : w <| self ::= interfere (false, false) |> = w.
Proof. by destruct w as [? []]. Qed.
Lemma pop_loop_ends h m rest w :
  messages h w = m :: rest → destroy (self w) = 0 → switchFlag (self w) = 0 →
  ends (λ fuel, pop_loop h (alone fuel)) (λ o w', o = Some m ∧ messages h w' = rest ∧ self w' = self w) w.
Proof.
  remember (length (incoming h (rk (shared w)))) as n eqn:En. remember (patience h (rk (shared w))) as k eqn:Ek. revert k w Ek En.
  induction n as [n IHn] using lt_wf_ind. intros k. induction k as [k IHk] using lt_wf_ind. intros w Ek En Hm Hd Hsw.
  set (next := λ w1, w1 <| self ::= interfere (false, false) |>).
  pose proof (poll_incoming h 500 (rk (shared w))) as Hp. destruct (rd_kafka_consumer_poll h 500 (rk (shared w))) as [o r'] eqn:E.
  set (w1 := w <| shared ::= λ s, s <| rk := r' |> |>).
  assert (Hstep : ∀ fuel, pop_loop h (alone (S fuel)) w = match o with
    | Some m => if is_eof m then pop_loop h (alone fuel) w1 else Some (Some m, w1) | None => pop_loop h (alone fuel) w1 end).
  { intros fuel. cbn [pop_loop alone replicate]. rewrite op_bind_run. unfold lib. rewrite E. fold w1. unfold modify. rewrite op_bind_mod.
    rewrite interfere_alone. unfold get. rewrite op_bind_get. change (switchFlag (self w1)) with (switchFlag (self w)).
    change (destroy (self w1)) with (destroy (self w)). rewrite Hsw, Hd. cbn [Z.eqb negb orb]. destruct o as [m'|]; [|done]. by destruct (is_eof m'). }
  assert (Hw1 : messages h w1 = filter (λ m, is_eof m = false) (incoming h r')) by done.
  destruct o as [m'|].
  - unfold messages in Hm. rewrite Hp in Hm. destruct (is_eof m') eqn:Eo.
    + rewrite filter_cons_False in Hm by (by rewrite Eo). eapply (ends_round _ (λ fuel w2, pop_loop h (alone fuel) w1)); [intros fuel; by rewrite Hstep|].
      destruct (IHn (length (incoming h r'))) with (k := patience h r') (w := w1) as (n1 & a & w2 & E2 & HQ);
        [rewrite En, Hp; cbn; lia|done..|]. exists n1, a, w2. by split.
    + rewrite filter_cons_True in Hm by done. injection Hm as -> <-. eapply (ends_round _ (λ fuel w2, Some (Some m, w1))); [intros fuel; by rewrite Hstep|].
      exists 0%nat, (Some m), w1. by split.
  - destruct Hp as [Hin Hlt]. eapply (ends_round _ (λ fuel w2, pop_loop h (alone fuel) w1)); [intros fuel; by rewrite Hstep|].
    destruct (IHk (patience h r')) with (w := w1) as (n1 & a & w2 & E2 & HQ); [|done|by rewrite En, <- Hin|by rewrite Hw1, Hin|done|done|].
    + rewrite Ek. apply Hlt. intros E0. unfold messages in Hm. by rewrite E0 in Hm.
    + exists n1, a, w2. by split.
Qed.
Lemma ready_self h w w' : self w' = self w → ready h w → ready h w'.
Proof. unfold ready. by intros ->. Qed.
Lemma pop_ends h m rest w :
  ready h w → messages h w = m :: rest → m_err m = 0 →
  ends (λ fuel, pop (alone fuel)) (λ a w', a = (0, Some (taken m)) ∧ messages h w' = rest ∧ self w' = self w) w.
Proof.
  intros (Hk & Hd & He & Hsw & Ht) Hm Herr. unfold pop. apply ends_bind, ends_get. rewrite Hd, He, Hsw, Hk. cbn [Z.eqb negb].
  destruct (topics_ (self w)) eqn:Et; [done|]. apply ends_bind. eapply ends_find; [exact Hk|].
  eapply ends_seq; [by apply pop_loop_ends|]. cbn beta. intros o w1 (-> & H1 & H2). rewrite Herr. cbn [Z.eqb negb]. by apply ends_ret.
Qed.

(** C15: When the library has at least [n] messages, the first [n] of them without error, and
    nobody else calls anything: [n] calls of [pop] return and hand the messages out one by one
    in their order, whatever marks of ends and empty polls come in between. (With no
    message [pop] waits; a message with an error is read after it was destroyed,
    [error_after_destroy].) *)
Theorem consumed_in_order h n w :
  ready h w → (n <= length (messages h w))%nat → Forall (λ m, m_err m = 0) (take n (messages h w)) →
  ends (λ fuel, pops fuel n) (λ l w',
    l = (λ m, (0, Some (taken m))) <$> take n (messages h w) ∧ messages h w' = drop n (messages h w) ∧ self w' = self w) w.
Proof.
  revert w. induction n as [|n IH]; intros w Hr Hn Hf; cbn [pops]; [by apply ends_ret|].
  destruct (messages h w) as [|m rest] eqn:Em; [cbn in Hn; lia|]. cbn [take] in Hf. apply Forall_cons in Hf as [Hm Hf].
  eapply ends_seq; [by apply pop_ends|]. cbn beta. intros a w1 (-> & H1 & S1).
  eapply ends_seq; [apply IH; [by eapply ready_self|rewrite H1; cbn in Hn; lia|by rewrite H1]|].
  cbn beta. intros l w2 (-> & H2 & S2). apply ends_ret. rewrite H1 in *. split_and!; [done|done|congruence].
Qed.
End topics.

(** ** Samples *)

Module PopSample.

(** A library whose polls bring [stream] one by one; [refuses n]: the call [n] of subscribe or
    unsubscribe fails. *)
Record Lib := { subs : gmap nat (list bytes); stream : list (option Message); next : nat; calls : nat }.
#[export] Instance eta_Lib : Eta Lib := λ r, {| subs := subs r; stream := stream r; next := next r; calls := calls r |}.
Section lib.
Context (refuses : nat → bool).
Definition set_topics (h : nat) (l : list bytes) (r : Lib) : Z * Lib :=
  let r1 := r <| calls ::= S |> in if refuses (calls r) then (-1, r1) else (0, r1 <| subs ::= <[h := l]> |>).
#[export] Instance library : Consumer := {|
  Rk := Lib; Conf := list (bytes * bytes); TopicConf := list (bytes * bytes); rd_kafka_conf_new := Some [];
  rd_kafka_conf_set n v c := (0, c ++ [(n, v)]); rd_kafka_topic_conf_new := []; rd_kafka_topic_conf_set n v c := (0, c ++ [(n, v)]);
  rd_kafka_conf_set_default_topic_conf t c := c ++ t; rd_kafka_new _ r := (Some (next r), r <| subs ::= <[next r := []]> |> <| next ::= S |>);
  rd_kafka_brokers_add _ b r := (if bool_decide (b = []) then 0 else 1, r); rd_kafka_poll_set_consumer _ r := r;
  rd_kafka_topic_partition_list_new _ _ := true; rd_kafka_subscribe h l := set_topics h l.*1; rd_kafka_unsubscribe h := set_topics h [];
  rd_kafka_subscription _ _ := 0;
  rd_kafka_consumer_poll _ _ r := match stream r with [] => (None, r) | o :: l => (o, r <| stream := l |>) end;
  rd_kafka_poll _ _ r := r; rd_kafka_err2str e := lit "error " ++ fmt_ld e; rd_kafka_consumer_close _ r := (0, r);
  rd_kafka_destroy h r := r <| subs ::= delete h |> |}.

#[export] Instance library_laws : ConsumerLaws library.
Proof.
  refine {| subscribed h r := default [] (subs r !! h); incoming _ r := omap id (stream r); patience _ r := length (stream r) |}.
  - intros c r h. cbn. intros [= <-]. by rewrite lookup_insert_eq.
  - done.
  - done.
  - intros h l r. cbn. unfold set_topics. destruct (refuses (calls r)); [done|]. cbn. by rewrite lookup_insert_eq.
  - intros h r. cbn. unfold set_topics. destruct (refuses (calls r)); [done|]. cbn. by rewrite lookup_insert_eq.
  - intros h' h ms r. cbn. by destruct (stream r).
  - done.
  - intros h ms r. cbn. destruct (stream r) as [|[m|] l] eqn:E; cbn; rewrite ?E; [by split|done|]. split; [done|]. lia.
Defined.
End lib.
Definition text (t d : string) (err : Z) : option Message :=
  Some {| m_topic := Some (lit t); m_payload := lit d; m_key := []; m_offset := 7; m_partition := 0; m_err := err |}.
Definition quiet_stream : list (option Message) := [
  None; text "t" "" (-191); text "t" "one" 0; None; None; text "u" "two" 0; text "t" "" (-191); text "t" "three" 0].
End PopSample.
Import PopSample.
Definition never : nat → bool := λ _, false.
Abbreviation PWorld f := (World (H := ZkSample.service ZookProofs.reliable) (H0 := library f)).
Definition pop_sample (f : nat → bool) (l : list (option Message)) : PWorld f := {|
  shared := {| zk := {| ZkSample.s_nodes := ∅; ZkSample.s_watches := ∅; ZkSample.s_events := []; ZkSample.s_session := 2; ZkSample.s_tick := 0 |} : @Zk (ZkSample.service ZookProofs.reliable);
    colonyNum := 0; rk := {| subs := ∅; stream := l; next := 1; calls := 0 |} : @Rk (library f) |};
  self := ZooKfkTopicsPop_new |}.
Definition after {W A} (m : Op W A) (w : W) : W := default w (snd <$> m w).
Lemma after_run {W A} (m : Op W A) w a : fst <$> m w = Some a → m w = Some (a, after m w).
Proof. unfold after. destruct (m w) as [[b w']|]; [|done]. cbn. by intros [= ->]. Qed.
Definition consuming (f : nat → bool) (topics : string) (l : list (option Message)) : PWorld f :=
  after (kfkInit (lit "a:1") (lit topics) (lit "g")) (pop_sample f l).
(** The topics of the object, the subscription and the error flag. *)
Definition topics_seen {f} (w : PWorld f) : list bytes * list bytes * Z :=
  (topics_ (self w), subscribed 1 (rk (shared w)), errorFlag (self w)).

Lemma topics_run : topics_seen (after (kfkTopicConsumeStart (lit "v")) (after (kfkTopicConsumeStop (lit "t")) (consuming never "t,u" quiet_stream))) =
  ([lit "u"; lit "v"], [lit "u"; lit "v"], 0).
Proof. by vm_compute. Qed.

Lemma consumed_in_order_witness :
  let w := consuming never "t,u" quiet_stream in
  ends (λ fuel, pops fuel 3) (λ l w',
    l = (λ m, (0, Some (taken m))) <$> take 3 (messages 1 w) ∧ messages 1 w' = drop 3 (messages 1 w) ∧ self w' = self w) w.
Proof.
  apply (consumed_in_order 1 3 (consuming never "t,u" quiet_stream)).
  - by vm_compute.
  - vm_compute. lia.
  - apply (bool_decide_unpack _). by vm_compute.
Defined.
Definition data_seen (a : Z * option Taken) : Z * option bytes := (a.1, t_data <$> a.2).
Lemma consumed_run : (λ r, map data_seen r.1) <$> pops 4 3 (consuming never "t,u" quiet_stream) =
  Some [(0, Some (lit "one")); (0, Some (lit "two")); (0, Some (lit "three"))].
Proof. by vm_compute. Qed.

(** When subscribing fails at the start the topics are kept and no flag is set: later calls go
    on as if the library was subscribed. *)
Lemma failed_init_subscribed :
  let m := kfkInit (lit "a:1") (lit "t") [] in let w := pop_sample (λ n, (n =? 0)%nat) [] in
  fst <$> m w = Some KAFKA_CONSUMER_ADDTOPIC_ERROR ∧ topics_seen (after m w) = ([lit "t"], [], 0) ∧
  fst <$> kfkTopicConsumeStart (lit "t") (after m w) = Some 0.
Proof. by vm_compute. Qed.
(** One failure of a call makes the object useless for good. *)
Lemma one_failure_is_final :
  let w := after (kfkTopicConsumeStart (lit "u")) (consuming (λ n, (n =? 2)%nat) "t" quiet_stream) in
  topics_seen w = ([], [], KAFKA_CONSUMER_ADDTOPIC_ERROR) ∧
  fst <$> kfkTopicConsumeStart (lit "u") w = Some KAFKA_CONSUMER_ADDTOPIC_ERROR ∧
  fst <$> pop (alone 5) w = Some (KAFKA_CONSUMER_ADDTOPIC_ERROR, None).
Proof. by vm_compute. Qed.
(** A topic that is named twice is still read after it was stopped. *)
Lemma twice_named_stays : topics_seen (after (kfkTopicConsumeStop (lit "t")) (consuming never "t,t" [])) = ([lit "t"], [lit "t"], 0).
Proof. by vm_compute. Qed.
(** The error 1 (offset out of range) of the broker is the answer for one message. *)
Lemma error_like_message : fst <$> tryPop 10 (consuming never "t" [text "t" "" 1]) = Some (1, None).
Proof. by vm_compute. Qed.
(** [pop] reads the error from the message that it has destroyed. *)
Lemma error_after_destroy : fst <$> pop (alone 5) (consuming never "t" [text "t" "" 1]) = None.
Proof. by vm_compute. Qed.
(** A call of [pop] that another thread interrupts answers like one with a message. *)
Lemma interrupted_pop : fst <$> pop [(false, false); (true, false)] (consuming never "t" [None; None]) = Some (0, None).
Proof. by vm_compute. Qed.
(** Starting a topic after the end hands librdkafka a null pointer. *)
Lemma start_after_destroy : fst <$> kfkTopicConsumeStart (lit "u") (after kfkDestroy (consuming never "t" [])) = None.
Proof. by vm_compute. Qed.
End KafkaPopProofs.
