(* ===== verification/KafkaRows.v ===== *)
(** * Rows of Kafka consumers ([src/zookafka/src/ZooKfkTopicsPop.cpp])

    [ZooKfkConsumers] and [ZooKfkSubscribes]: consumers that are started together and read
    from by their index. They differ in how they are started. *)

From S2P Require Import Prelude CLib FileSys ZookConfig ZookLaws ZookProofs KafkaBrokers KafkaPop KafkaPopProofs.
Import ZookConfig(Zookeeper, Zk) KafkaBrokers KafkaPop.

Module KafkaRows.

Record ZooKfkConsumers := { kfkConsumerNum : Z; ZooKfkConsumerPtrVec : list ZooKfkTopicsPop }.
#[export] Instance eta_Consumers : Eta ZooKfkConsumers := λ r,
  {| kfkConsumerNum := kfkConsumerNum r; ZooKfkConsumerPtrVec := ZooKfkConsumerPtrVec r |}.
Definition ZooKfkConsumers_new : ZooKfkConsumers := {| kfkConsumerNum := 0; ZooKfkConsumerPtrVec := [] |}.
Record Rows `{Zookeeper, Consumer} := { common : Shared; row : ZooKfkConsumers }.
#[export] Instance eta_Rows `{Zookeeper, Consumer} : Eta Rows := λ r, {| common := common r; row := row r |}.

Section rows.
Context `{HZ : Zookeeper} `{HC : Consumer} `{HJ : Jansson}.

Definition get {A} (f : ZooKfkConsumers → A) : Op Rows A := op_get (λ w, f (row w)).
Definition modify (f : ZooKfkConsumers → ZooKfkConsumers) : Op Rows () := op_mod (λ w, w <| row ::= f |>).
(** An operation of [ZooKfkConsumerPtrVec[i]]. *)
Definition at_consumer {A} (i : nat) (m : Op World A) : Op Rows A := λ w,
  match ZooKfkConsumerPtrVec (row w) !! i with
  | None => None
  | Some s =>
      match m {| shared := common w; self := s |} with
      | Some (a, w') => Some (a, w <| common := shared w' |> <| row ::= λ p, p <| ZooKfkConsumerPtrVec ::= <[i := self w']> |> |>)
      | None => None
      end
  end.
(** The loops over the consumers from [i], with the result so far; [stop]: an error ends it. *)
Fixpoint each_consumer (stop : bool) (f : Z → Op World Z) (n i : nat) (ret : Z) : Op Rows Z :=
  match n with
  | O => mret ret
  | S n' =>
      v ← get ZooKfkConsumerPtrVec;
      match v with
      | [] => each_consumer stop f n' (S i) KAFKA_UNHAPPEN_ERRPR
      | _ =>
          ret ← at_consumer i (f ret);
          if stop && (ret <? 0) then mret ret else each_consumer stop f n' (S i) ret
      end
  end.
Definition for_consumers (stop : bool) (f : Z → Op World Z) : Op Rows Z :=
  n ← get kfkConsumerNum; each_consumer stop f (Z.to_nat n) 0 KAFKA_NO_INIT_ALREADY.

(** A consumer that was not started is destroyed again. *)
Fixpoint new_consumers (start : Op World Z) (n : nat) (ret : Z) : Op Rows Z :=
  match n with
  | O => mret ret
  | S n' => λ w,
      match start {| shared := common w; self := ZooKfkTopicsPop_new |} with
      | None => None
      | Some (ret, w') =>
          if ret <? 0 then
            match kfkDestroy w' with Some (_, w'') => Some (ret, w <| common := shared w'' |>) | None => None end
          else new_consumers start n' ret (w <| common := shared w' |> <| row ::= λ p, p <| ZooKfkConsumerPtrVec ::= λ v, v ++ [self w'] |> |>)
      end
  end.
Definition init_with (start : Op World Z) (consumerNum : Z) : Op Rows Z :=
  n ← get kfkConsumerNum;
  if negb (n =? 0) then mret KAFKA_INIT_ALREADY
  else _ ← modify (λ p, p <| kfkConsumerNum := consumerNum |>); new_consumers start (Z.to_nat consumerNum) 0.
Definition zooKfkConsumerInit (consumerNum : Z) (zookStr topicStr groupName : bytes) : Op Rows Z :=
  init_with (zookInit zookStr topicStr groupName) consumerNum.
(** Also [ZooKfkSubscribes::zooKfkConsumerInit]. *)
Definition kfkBorsConsumerInit (consumerNum : Z) (borsStr topicStr groupName : bytes) : Op Rows Z :=
  init_with (kfkInit borsStr topicStr groupName) consumerNum.

Definition zooKfkConsumerDestroy : Op Rows () := _ ← for_consumers false (λ ret, _ ← kfkDestroy; mret ret); mret ().
Definition zooKfkConsumerStart (topic : bytes) : Op Rows Z := for_consumers true (λ _, kfkTopicConsumeStart topic).
Definition zooKfkConsumerStop (topic : bytes) : Op Rows Z := for_consumers true (λ _, kfkTopicConsumeStop topic).
Definition setBrokersChangeCall (cb : bytes → Z) : Op Rows Z := for_consumers false (λ ret, _ ← setBrokersChangeCallBack cb; mret ret).
(** The answer, what was read and the text of the last error. *)
Definition read_at (index : Z) (m : Op World (Z * option Taken)) : Op Rows (Z * option Taken * option bytes) :=
  n ← get kfkConsumerNum;
  if n <=? index then mret (KAFKA_NO_INIT_ALREADY, None, None)
  else
    v ← get ZooKfkConsumerPtrVec;
    match v with
    | [] => mret (KAFKA_UNHAPPEN_ERRPR, None, None)
    | _ =>
        if index <? 0 then op_undefined
        else at_consumer (Z.to_nat index)
          ('(ret, t) ← m;
           if ret <? 0 then '(code, text) ← getLastErrorMsg; mret (code, t, Some text) else mret (ret, t, None))
    end.
Definition consume (index : Z) (others : list (bool * bool)) := read_at index (pop others).
Definition tryConsume (index timeout_ms : Z) := read_at index (tryPop timeout_ms).

End rows.

(** ** Runs *)

Import KafkaPopProofs PopSample.
Abbreviation RWorld f := (Rows (H := ZkSample.service ZookProofs.reliable) (H0 := library f)).
Definition fresh_rows (f : nat → bool) (l : list (option Message)) : RWorld f := {| common := shared (pop_sample f l); row := ZooKfkConsumers_new |}.
Definition two_consumers (f : nat → bool) (l : list (option Message)) : RWorld f :=
  after (kfkBorsConsumerInit 2 (lit "a:1") (lit "t") (lit "g")) (fresh_rows f l).

(** The topics of each consumer. *)
Lemma topics_of_row : map topics_ (ZooKfkConsumerPtrVec (row (after (zooKfkConsumerStart (lit "u")) (two_consumers never [])))) =
  [[lit "t"; lit "u"]; [lit "t"; lit "u"]].
Proof. by vm_compute. Qed.
(** A call that is refused because the consumer is destroyed answers with librdkafka's last
    error, which is zero as if there was a message. *)
Lemma refusal_like_message : fst <$> consume 0 (alone 5) (after zooKfkConsumerDestroy (two_consumers never [])) = Some (0, None, Some []).
Proof. by vm_compute. Qed.
(** The setter of the callback answers with an error although it succeeds. *)
Lemma setter_fails : fst <$> setBrokersChangeCall (λ _, 0) (two_consumers never []) = Some KAFKA_NO_INIT_ALREADY.
Proof. by vm_compute. Qed.
(** When one consumer cannot be started the loops over the row leave the vector. *)
Lemma short_rows :
  let w := two_consumers (λ n, (n =? 1)%nat) [] in
  (length (ZooKfkConsumerPtrVec (row w)), kfkConsumerNum (row w)) = (1%nat, 2) ∧ fst <$> zooKfkConsumerStop (lit "t") w = None.
Proof. by vm_compute. Qed.
End KafkaRows.
