(* ===== verification/IniFile.v ===== *)
(** * Changing a value in an ini file ([src/common/UpdateIniFile.cpp])

    [UpdateIniKeyValue] rewrites a file with another value for a key; the same text is in
    [MysqlEncryPass.cpp], where it returns whether it has succeeded. The search functions
    repeat those of [Incommon.h]. Over the calls of [FileSys]. *)

From S2P Require Import Prelude CLib Incommon FileSys UniqueNum WriteFile CalmFs.
Import FileSys CalmFs.

Module IniFile.

Definition framestr_frist_constchar : option bytes → byte → option bytes := strFristConstChar.
Definition frame_strlen : option bytes → nat := strIntLen.
Definition framestr_first_conststr : option bytes → bytes → option bytes := strFirstConstStr.

(** What is behind the ["="] of the key, and the key: suffixes of the text. *)
Definition find_value (pData section key : bytes) : option (bytes * bytes) :=
  pSection ← framestr_first_conststr (Some pData) section;
  pkey ← framestr_first_conststr (Some pSection) key;
  pSign ← framestr_frist_constchar (Some pkey) "="%byte;
  Some (drop 1 pSign, pkey).
(** What is kept from the end of the line on. *)
Definition line_end (pkey : bytes) : option bytes :=
  match framestr_frist_constchar (Some pkey) (to_byte 13) with
  | Some pSign => Some pSign
  | None => framestr_frist_constchar (Some pkey) (to_byte 10)
  end.
(** A null value is written as the empty one. *)
Definition value_text (value : option bytes) : bytes := default [] (cstr <$> value).
(** The text that is written. *)
Definition updated (pData section key : bytes) (value : option bytes) : option bytes :=
  '(pSign, pkey) ← find_value pData section key;
  Some (take (length pData - length pSign) pData ++ value_text value ++ default [] (line_end pkey)).

Section update.
Context {env : Env}.

(** [fopen(p, "wb")] of a stream that is written from the start on. *)
Definition fopen_write (p : bytes) : St Fs (option nat) :=
  f ← next Fopen; fs ← st_get;
  if bool_decide (f = None) && bool_decide (p ≠ []) && negb (is_dir (resolve p) fs) && is_dir (parent (resolve p)) fs then
    match names fs !! resolve p with
    | Some i => _ ← st_mod (λ fs, fs <| data ::= <[i := []]> |>); Some <$> new_stream i
    | None =>
        _ ← st_mod (λ fs, fs <| names ::= <[resolve p := length (data fs)]> |> <| data ::= (.++ [[]]) |>);
        Some <$> new_stream (length (data fs))
    end
  else mret None.
Definition close_with (f : nat) (r : bool) : St Fs bool := _ ← fclose f; mret r.
(** [fwrite], and on to [k] when all was taken. *)
Definition write_or_close (f : nat) (content : bytes) (k : St Fs bool) : St Fs bool :=
  nWri ← fwrite f content;
  if decide (nWri = length content) then k else close_with f false.
(** Its result is that of [MysqlEncryPass.cpp]. When the file cannot be opened for writing,
    [fclose] is given a null pointer. *)
Definition UpdateIniKeyValue (section key : bytes) (value filename : option bytes) : St Fs bool :=
  match filename with
  | None => mret false
  | Some filename =>
  st ← stat filename;
  match st with
  | None => mret false
  | Some (_, nDataLen) =>
      pFile ← fopen_read filename;
      match pFile with
      | None => mret false
      | Some f =>
          pData ← fread f nDataLen;
          if decide (length pData ≠ nDataLen) then close_with f false
          else
            match find_value pData section key with
            | None => close_with f false
            | Some (pSign, pkey) =>
                _ ← fclose f;
                pFile ← fopen_write filename;
                match pFile with
                | None => _ ← undefined_behaviour; mret false
                | Some f =>
                    write_or_close f (take (length pData - length pSign) pData)
                      (write_or_close f (value_text value)
                        (match line_end pkey with
                         | Some p => write_or_close f p (close_with f true)
                         | None => close_with f true
                         end))
                end
            end
      end
  end
  end.

(** ** When no call fails *)

Context `{!Calm env}.
Notation "fs ⊙ t" := (set_with tick (λ _, t) fs) (at level 1, t at level 0, left associativity).

(** A file with the content [d]. *)
Definition file_at (p : bytes) (i : nat) (d : bytes) (fs : Fs) : Prop :=
  p ≠ [] ∧ names fs !! resolve p = Some i ∧ data fs !! i = Some d ∧ is_dir (resolve p) fs = false ∧
  is_dir (parent (resolve p)) fs = true.

Lemma fopen_write_calm p i d Q fs :
  file_at p i d fs →
  (∀ t, Q (Some (length (streams fs)))
     (fs ⊙ t <| data ::= <[i := []]> |> <| streams ::= (.++ [Some {| s_ino := i; s_buf := []; s_pos := 0 |}]) |>)) →
  wp (fopen_write p) Q fs.
Proof.
  intros (Hp & Hn & _ & Hd & Hpd) HQ. unfold wp, fopen_write, new_stream. st_cbn. rewrite no_fault.
  rewrite (bool_decide_true (p ≠ [])) by done. change (is_dir ?q _) with (is_dir q fs). rewrite Hd, Hpd. cbn. rewrite Hn. apply HQ.
Qed.
(** Closing writes the buffer. *)
Lemma fclose_writes f s Q fs :
  open_stream f s fs →
  (∀ t, Q 0 (fs ⊙ t <| data ::= alter (.++ s_buf s) (s_ino s) |> <| streams ::= <[f := None]> |>)) → wp (fclose f) Q fs.
Proof. intros Hs HQ. unfold wp, fclose, drain, with_stream. st_cbn. rewrite Hs. cbn. rewrite no_fault. apply HQ. Qed.

(** The stream [f] has [buf] in its buffer, and nothing else differs from [fs0]. *)
Record writing (fs0 : Fs) (i f : nat) (buf : bytes) (fs : Fs) : Prop := {
  w_names : names fs = names fs0;
  w_data : data fs = <[i := []]> (data fs0);
  w_undefined : undefined fs = undefined fs0;
  w_stream : ∃ s, open_stream f s fs ∧ s_ino s = i ∧ s_buf s = buf }.
Definition written (fs0 : Fs) (i : nat) (new : bytes) (fs : Fs) : Prop :=
  names fs = names fs0 ∧ data fs = <[i := new]> (data fs0) ∧ undefined fs = undefined fs0.
Lemma write_or_close_calm fs0 i f buf content k Q fs :
  writing fs0 i f buf fs → (∀ fs', writing fs0 i f (buf ++ content) fs' → wp k Q fs') → wp (write_or_close f content k) Q fs.
Proof.
  intros [Hn Hd Hu (s & Hs & Hi & Hb)] Hk. unfold write_or_close. apply wp_bind. eapply fwrite_calm; [exact Hs|]. intros t.
  rewrite decide_True by done. apply Hk. split; [done..|]. exists (s <| s_buf ::= (.++ content) |>). split; [|split; [exact Hi|]].
  - unfold open_stream. cbn. rewrite list_lookup_insert_eq; [reflexivity|by eapply lookup_lt_Some].
  - cbn. by rewrite Hb.
Qed.
Lemma alter_insert {A} (f : A → A) x i (l : list A) : alter f i (<[i:=x]> l) = <[i:=f x]> l.
Proof. revert i. induction l as [|y l IH]; intros [|i]; [done..|]. cbn. f_equal. apply IH. Qed.
Lemma close_calm fs0 i f buf r Q fs :
  writing fs0 i f buf fs → (∀ fs', written fs0 i buf fs' → Q r fs') → wp (close_with f r) Q fs.
Proof.
  intros [Hn Hd Hu (s & Hs & Hsi & Hb)] HQ. unfold close_with. apply wp_bind. eapply fclose_writes; [exact Hs|]. intros t.
  apply wp_ret, HQ. split_and!; [done| |done]. cbn. by rewrite Hsi, Hb, Hd, alter_insert.
Qed.

(** The call gives the file the text [updated]; when a part of the key is not found it
    changes nothing. *)
Lemma update_calm section key value filename i d fs :
  file_at filename i d fs →
  wp (UpdateIniKeyValue section key value (Some filename)) (λ r fs',
    match updated d section key value with
    | Some new => r = true ∧ written fs i new fs'
    | None => r = false ∧ written fs i d fs'
    end) fs.
Proof.
  intros Hf. pose proof Hf as (Hp & Hn & Hd & Hdir & Hpd). assert (Hsame : <[i:=d]> (data fs) = data fs) by (by apply list_insert_id).
  unfold UpdateIniKeyValue. apply wp_bind. eapply stat_calm; [done..|]. intros t1.
  apply wp_bind. eapply fopen_read_calm; [exact Hn|]. intros t2. apply wp_bind. set (f := length _). set (s1 := Build_Stream i [] 0).
  assert (Hs : open_stream f s1 (fs ⊙ t1 ⊙ t2 <| streams ::= (.++ [Some s1]) |>)).
  { unfold open_stream. cbn. by rewrite lookup_app_r, Nat.sub_diag by (unfold f; cbn; lia). }
  eapply fread_calm; [exact Hs|]. intros t3. cbv zeta. set (fs1 := set_with streams _ _). cbn [s_pos s_ino s1]. rewrite drop_0.
  assert (Hdata : ∀ t, data (fs ⊙ t1 ⊙ t) = data fs) by done.
  replace (default [] (data _ !! i)) with d by (cbn; by rewrite Hd). rewrite take_ge by done.
  rewrite decide_False by naive_solver.
  set (s2 := s1 <| s_pos ::= _ |>). set (fs2 := set_with streams _ _). assert (Hs2 : open_stream f s2 fs2).
  { unfold open_stream, fs2. cbn. rewrite list_lookup_insert_eq; [reflexivity|]. rewrite length_app. unfold f. cbn. lia. }
  assert (E2 : names fs2 = names fs ∧ data fs2 = data fs ∧ undefined fs2 = undefined fs ∧ dirs fs2 = dirs fs) by done.
  clearbody fs2. clear Hs fs1 Hdata. destruct E2 as (N2 & D2 & U2 & I2). unfold updated. destruct (find_value d section key) as [[pSign pkey]|] eqn:Ef; cbn.
  - apply wp_bind. eapply fclose_calm; [exact Hs2|done|]. intros t4. apply wp_bind. set (fs3 := set_with streams _ _).
    assert (Hf3 : file_at filename i d fs3).
    { unfold file_at, is_dir. change (names fs3) with (names fs2). change (data fs3) with (data fs2). change (dirs fs3) with (dirs fs2).
      rewrite N2, D2, I2. done. }
    eapply fopen_write_calm; [exact Hf3|]. intros t5. set (fs4 := set_with streams _ _).
    assert (Hw : writing fs i (length (streams fs3)) [] fs4).
    { split; [exact N2| |exact U2|].
      - change (data fs4) with (<[i:=[]]> (data fs2)). by rewrite D2.
      - exists (Build_Stream i [] 0). split; [|done]. unfold open_stream. cbn. by rewrite lookup_app_r, Nat.sub_diag by done. }
    clearbody fs4. eapply write_or_close_calm; [exact Hw|]. clear Hw fs4. intros fs4 Hw.
    eapply write_or_close_calm; [exact Hw|]. clear Hw fs4. intros fs4 Hw. cbn [app] in Hw. destruct (line_end pkey) as [p|].
    + eapply write_or_close_calm; [exact Hw|]. clear Hw fs4. intros fs4 Hw. rewrite <- app_assoc in Hw.
      eapply close_calm; [exact Hw|]. intros fs' Hfs'. by split.
    + eapply close_calm; [exact Hw|]. intros fs' Hfs'. cbn [default from_option]. unfold id. by rewrite app_nil_r.
  - unfold close_with. apply wp_bind. eapply fclose_calm; [exact Hs2|done|]. intros t4. apply wp_ret. split; [done|].
    split_and!; cbn; [done|by rewrite D2, Hsame|done].
Qed.
End update.

(** ** What the new text is *)

Lemma first_occurrence_inj t s r r' : first_occurrence t s r → first_occurrence t s r' → r = r'.
Proof.
  destruct r as [p|], r' as [p'|]; cbn; [|naive_solver..].
  intros (a & [E Ho] & Hmin) (a' & [E' Ho'] & Hmin'). pose proof (Hmin a' p' (conj E' Ho')). pose proof (Hmin' a p (conj E Ho)).
  rewrite E in E'. apply app_inj_1 in E' as [_ ->]; [done|lia].
Qed.
Lemma first_conststr s t r :
  no_nul s → no_nul t → t ≠ [] → first_occurrence t s r → framestr_first_conststr (Some s) t = r.
Proof. intros Hs Ht Hne. apply first_occurrence_inj. by apply strFirstConstStr_first. Qed.
Lemma first_occurrence_suffix t s p : first_occurrence t s (Some p) → ∃ a, s = a ++ p.
Proof. intros (a & [E _] & _). by exists a. Qed.
Lemma constchar_absent p c : c ∉ p → framestr_frist_constchar (Some p) c = None.
Proof.
  intros Hc. destruct (framestr_frist_constchar (Some p) c) as [q|] eqn:E; [|done].
  apply strFristConstChar_suffix in E as (a & -> & _ & _ & k & ->). set_solver.
Qed.

Definition CR : byte := to_byte 13.
Definition LF : byte := to_byte 10.
(** A line of the text [d]: [line] starts with the first [key] behind the first [section]. *)
Record line_of (d section key before name old eol rest : bytes) : Prop := {
  lo_text : d = before ++ key ++ name ++ lit "=" ++ old ++ eol ++ rest;
  lo_first : ∃ k, first_occurrence section d (Some k) ∧
    first_occurrence key k (Some (key ++ name ++ lit "=" ++ old ++ eol ++ rest));
  lo_name : "="%byte ∉ key ++ name;
  lo_old : (CR ∉ key ++ name ++ lit "=" ++ old) ∧ (LF ∉ key ++ name ++ lit "=" ++ old);
  lo_eol : eol = [CR; LF] ∨ eol = [LF] ∧ CR ∉ rest }.

Lemma line_end_at a eol rest :
  no_nul (a ++ eol ++ rest) → CR ∉ a → LF ∉ a → eol = [CR; LF] ∨ eol = [LF] ∧ CR ∉ rest →
  line_end (a ++ eol ++ rest) = Some (eol ++ rest).
Proof.
  intros [Hn _]%no_nul_app Hcr Hlf Heol. unfold line_end. fold CR LF. destruct Heol as [->|[-> Hr]]; cbn [app].
  - unfold framestr_frist_constchar. by rewrite (strFristConstChar_app a CR).
  - rewrite (constchar_absent _ CR); [unfold framestr_frist_constchar; by rewrite (strFristConstChar_app a LF)|].
    rewrite elem_of_app, elem_of_cons. by intros [?|[?|?]].
Qed.
(** The value of the line is replaced and the rest of the file is kept. *)
Lemma updated_line d section key value before name old eol rest :
  no_nul d → no_nul section → section ≠ [] → key ≠ [] → line_of d section key before name old eol rest →
  updated d section key value = Some (before ++ key ++ name ++ lit "=" ++ value_text value ++ eol ++ rest).
Proof.
  intros Hd Hs Hsne Hkne [Ht (k & Hfs & Hfk) Hname [Hcr Hlf] Heol].
  pose proof (first_occurrence_suffix _ _ _ Hfs) as [a Ea]. assert (Hnk : no_nul k) by (rewrite Ea in Hd; by apply no_nul_app in Hd as [_ ?]).
  set (line := key ++ name ++ _) in *. assert (Hline : no_nul line) by (rewrite Ht in Hd; by apply no_nul_app in Hd as [_ ?]).
  assert (Hkey : no_nul key) by (by apply no_nul_app in Hline as [? _]).
  unfold updated, find_value. rewrite (first_conststr d section (Some k)) by done. cbn [mbind option_bind].
  rewrite (first_conststr k key (Some line)) by done. cbn [mbind option_bind].
  assert (Eq : line = (key ++ name) ++ "="%byte :: old ++ eol ++ rest) by (unfold line; by rewrite <- app_assoc).
  rewrite (f_equal (λ l, framestr_frist_constchar (Some l) "="%byte) Eq). unfold framestr_frist_constchar.
  rewrite strFristConstChar_app; [|by rewrite Eq in Hline; apply no_nul_app in Hline as [? _]|done..]. cbn [mbind option_bind drop].
  assert (El : line = (key ++ name ++ lit "=" ++ old) ++ eol ++ rest) by (unfold line; by rewrite <- !app_assoc).
  rewrite El in Hline |- *. rewrite line_end_at by done. cbn [default from_option]. unfold id. f_equal.
  assert (Etake : take (length d - length (old ++ eol ++ rest)) d = before ++ key ++ name ++ lit "=").
  { replace d with ((before ++ key ++ name ++ lit "=") ++ old ++ eol ++ rest) by (rewrite Ht; unfold line; by rewrite <- !app_assoc).
    apply take_app_length'. rewrite !length_app. lia. }
  rewrite drop_0, Etake. by rewrite <- !app_assoc.
Qed.

(** When no call fails, the value of the key gets replaced, and nothing else changes in the
    file or in other files. *)
Lemma value_replaced `{!Calm env} section key value filename i before name old eol rest fs :
  let line v := before ++ key ++ name ++ lit "=" ++ v ++ eol ++ rest in
  file_at filename i (line old) fs → no_nul (line old) → no_nul section → section ≠ [] → key ≠ [] →
  line_of (line old) section key before name old eol rest →
  let '(r, fs') := UpdateIniKeyValue section key value (Some filename) fs in
  r = true ∧ names fs' = names fs ∧ undefined fs' = undefined fs ∧ data fs' = <[i := line (value_text value)]> (data fs).
Proof.
  intros line Hf Hd Hs Hsne Hkne Hl. pose proof (update_calm section key value filename i _ fs Hf) as H. unfold wp in H. rewrite (updated_line _ _ _ _ before name old eol rest) in H by done.
  destruct (UpdateIniKeyValue _ _ _ _ fs) as [r fs']. cbn in H.
  destruct H as (-> & ? & ? & ?). done.
Qed.

(** ** Runs *)

Definition db_ini : bytes := lit "/etc/db.ini".
Definition fs_with (text : bytes) : Fs :=
  {| tick := 0; names := {[resolve db_ini := 0%nat]}; dirs := {[resolve (lit "/etc")]}; data := [text]; streams := []; undefined := false |}.
Definition line (s : string) : bytes := lit s ++ [CR; LF].
Definition sample : bytes := line "[mysql]" ++ line "host=db1" ++ line "pass = old" ++ line "port=3306".
(** A call with the password [new]: its result, the file, and whether behaviour was undefined. *)
Definition try (bad : option (Call * nat * nat)) (key : string) (text : bytes) : bool * option bytes * bool :=
  let '(r, fs) := UpdateIniKeyValue (env := env_with bad) (lit "[mysql]") (lit key) (Some (lit "new")) (Some db_ini) (fs_with text) in
  (r, data fs !! 0%nat, undefined fs).

Lemma replaced_run :
  try None "pass" sample = (true, Some (line "[mysql]" ++ line "host=db1" ++ line "pass =new" ++ line "port=3306"), false) ∧
  try None "user" sample = (false, Some sample, false).
Proof. split; reflexivity. Qed.
(** A failed write leaves a truncated file, and a failed close is reported as success: the
    old contents are gone in both cases. When the file cannot be opened for writing, the null
    pointer is closed. *)
Lemma failures_run :
  try (Some (Fwrite, 6, 0)%nat) "pass" sample = (false, Some (line "[mysql]" ++ line "host=db1" ++ lit "pass ="), false) ∧
  try (Some (Fclose, 8, 0)%nat) "pass" sample = (true, Some [], false) ∧
  (try (Some (Fopen, 4, 0)%nat) "pass" sample).2 = true.
Proof. split_and!; reflexivity. Qed.
(** The key is searched as a substring, in values too; the ["="] may be that of a later line;
    of lines that end in LF only, all up to the next CR are lost. *)
Lemma wrong_line_run :
  try None "pass" (line "[mysql]" ++ line "bypass=no" ++ line "pass=old") = (true, Some (line "[mysql]" ++ line "bypass=new" ++ line "pass=old"), false) ∧
  try None "pass" (line "[mysql]" ++ line "pass" ++ line "port=3306") = (true, Some (line "[mysql]" ++ line "pass" ++ lit "port=new" ++ [CR; LF] ++ line "port=3306"), false) ∧
  try None "pass" (lit "[mysql]" ++ [LF] ++ lit "pass=old" ++ [LF] ++ lit "port=1" ++ [LF] ++ line "user=me") = (true, Some (lit "[mysql]" ++ [LF] ++ lit "pass=new" ++ [CR; LF]), false).
Proof. split_and!; reflexivity. Qed.
End IniFile.
