(* ===== verification/Aes.v ===== *)
(** * AES texts ([src/common/AES.cpp]) and stored passwords ([src/common/MysqlEncryPass.cpp])

    Texts are padded to whole blocks, in one of two ways, and passed to OpenSSL, which is the
    class [OpenSSL]; [OpenSSLLaws] is what its manual says of a key schedule of 128 bits.
    [None] is undefined behaviour, or the exception of [new] for a negative length. *)

From S2P Require Import Prelude CLib Incommon FileSys Base64.
Import FileSys(cstr).

(** The direction of a call. *)
Inductive Dir := AES_ENCRYPT | AES_DECRYPT.

(** [AES_set_encrypt_key] and [AES_set_decrypt_key] with 128 bits, [AES_cbc_encrypt] (the output and what
    [ivec] is afterwards) and [AES_ecb_encrypt] of one block. *)
Class OpenSSL := {
  AES_KEY : Type;
  AES_set_key : Dir → bytes → AES_KEY;
  AES_cbc_encrypt : Dir → AES_KEY → bytes → bytes → bytes * bytes;
  AES_ecb_encrypt : Dir → AES_KEY → bytes → bytes }.

Module Aes.

Definition AES_BLOCK_SIZE : Z := 16.

(** [memcpy(buf + off, src, length src)] and [memset(buf + off, c, n)] inside of the buffer. *)
Definition memcpy (off : nat) (src buf : bytes) : bytes := take off buf ++ src ++ drop (off + length src) buf.
Definition memset (off : nat) (c n : Z) (buf : bytes) : bytes := memcpy off (replicate (Z.to_nat n) (to_byte c)) buf.

(** The blocks of the loops of [aes_ecbEncrypt] and [aes_ecbDecrypt]. *)
Fixpoint blocks (n : nat) (input : bytes) : list bytes :=
  match n with O => [] | S n => take 16 input :: blocks n (drop 16 input) end.

(** A length that is turned into an [int]; [None]: [memcpy] with it, or [new] of it, fails. *)
Definition int_len (input : bytes) : Z := s32 (Z.of_nat (length input)).
Definition aligned_len (inLen : Z) : Z := s32 (Z.quot inLen AES_BLOCK_SIZE * AES_BLOCK_SIZE + AES_BLOCK_SIZE).
Definition guard_undefined (P : Prop) `{Decision P} : option () := if decide P then Some () else None.
Lemma guard_true P `{Decision P} : P → guard_undefined P = Some ().
Proof. unfold guard_undefined. intros ?. by rewrite decide_True. Qed.

Section aes.
Context `{OpenSSL}.

(** The key is an array of 16 bytes: with more than 128 bits the library reads behind it,
    with other numbers it sets no key. *)
Definition set_key (d : Dir) (key : bytes) (keyBits : Z) : option AES_KEY :=
  if decide (keyBits = 128) then Some (AES_set_key d key) else None.

Definition aes_cbcEncrypt (input key iv : bytes) (keyBits : Z) : option bytes :=
  aes_key ← set_key AES_ENCRYPT key keyBits; Some (AES_cbc_encrypt AES_ENCRYPT aes_key iv input).1.
Definition aes_cbcDecrypt (input key iv : bytes) (keyBits : Z) : option bytes :=
  aes_key ← set_key AES_DECRYPT key keyBits; Some (AES_cbc_encrypt AES_DECRYPT aes_key iv input).1.
Definition ecb (d : Dir) (input key : bytes) (keyBits : Z) : option bytes :=
  aes_key ← set_key d key keyBits;
  Some (concat (AES_ecb_encrypt d aes_key <$> blocks (length input / 16) input)).
Definition aes_ecbEncrypt : bytes → bytes → Z → option bytes := ecb AES_ENCRYPT.
Definition aes_ecbDecrypt : bytes → bytes → Z → option bytes := ecb AES_DECRYPT.

(** The buffer [p_expre] before the call. *)
Definition padded (input : bytes) (inLen outLen alignType : Z) : bytes :=
  let p_expre := memcpy 0 (take (Z.to_nat inLen) input) (memset 0 0 outLen (replicate (Z.to_nat outLen) NUL)) in
  if alignType =? 1 then memset (Z.to_nat inLen) (outLen - inLen) (outLen - inLen) p_expre else p_expre.

(** The results are the returned code and [output]. *)
Definition aesCbcEncrypt (input key initIV : bytes) (alignType keyBits : Z) : option (Z * bytes) :=
  let inLen := int_len input in
  if decide (inLen = 0 ∨ length key ≠ 16%nat ∨ length initIV ≠ 16%nat) then Some (-1, [])
  else
    let outLen := aligned_len inLen in
    _ ← guard_undefined (0 <= inLen ∧ 0 <= outLen);
    q_encry ← aes_cbcEncrypt (padded input inLen outLen alignType) key initIV keyBits;
    Some (0, q_encry).

(** The length without the padding, a [char]; [None]: return -3. *)
Definition unpadded (len : Z) (text : bytes) : option Z :=
  let padding := schar (default NUL (text !! Z.to_nat (len - 1))) in
  if decide (padding < 0 ∨ AES_BLOCK_SIZE < padding) then None else Some (len - padding).

Definition aesCbcDecrypt (input key initIV : bytes) (alignType keyBits : Z) : option (Z * bytes) :=
  let len := int_len input in
  if decide (input = [] ∨ (length input mod 16)%nat ≠ 0%nat) then Some (-1, [])
  else if decide (length key ≠ 16%nat ∨ length initIV ≠ 16%nat) then Some (-1, [])
  else
    _ ← guard_undefined (0 < len);
    p_expre ← aes_cbcDecrypt (take (Z.to_nat len) input) key initIV keyBits;
    if alignType =? 1 then
      match unpadded len p_expre with
      | None => Some (-3, [])
      | Some out_len => Some (0, take (Z.to_nat out_len) p_expre)
      end
    else
      (* [strlen] reads on behind the buffer when it has no NUL *)
      _ ← guard_undefined (NUL ∈ p_expre); Some (0, cstr p_expre).

Definition aesEcbEncrypt (input key : bytes) (alignType keyBits : Z) : option (Z * bytes) :=
  let inLen := int_len input in
  if decide (inLen = 0 ∨ length key ≠ 16%nat) then Some (-1, [])
  else
    let outLen := aligned_len inLen in
    _ ← guard_undefined (0 <= inLen ∧ 0 <= outLen);
    output ← aes_ecbEncrypt (padded input inLen outLen alignType) key keyBits;
    Some (0, output).

Definition aesEcbDecrypt (input key : bytes) (alignType keyBits : Z) : option (Z * bytes) :=
  let len := int_len input in
  if decide (input = [] ∨ (length input mod 16)%nat ≠ 0%nat) then Some (-1, [])
  else if decide (length key ≠ 16%nat) then Some (-1, [])
  else
    tmpOutPut ← aes_ecbDecrypt input key keyBits;
    if alignType =? 1 then
      _ ← guard_undefined (0 < len);
      match unpadded len tmpOutPut with
      | None => Some (-3, [])
      | Some out_len => Some (0, take (Z.to_nat out_len) tmpOutPut)
      end
    else Some (0, cstr tmpOutPut).

(** ** Without errors *)

(** What the manual says: CBC and ECB keep the length of whole blocks, and the other
    direction with the same key and vector gives the text back. *)
Class OpenSSLLaws := {
  cbc_length d k iv x : length iv = 16%nat → (length x mod 16 = 0)%nat → length (AES_cbc_encrypt d k iv x).1 = length x;
  cbc_inverse key iv x : length key = 16%nat → length iv = 16%nat → (length x mod 16 = 0)%nat →
    (AES_cbc_encrypt AES_DECRYPT (AES_set_key AES_DECRYPT key) iv
      (AES_cbc_encrypt AES_ENCRYPT (AES_set_key AES_ENCRYPT key) iv x).1).1 = x;
  ecb_length d k b : length b = 16%nat → length (AES_ecb_encrypt d k b) = 16%nat;
  ecb_inverse key b : length key = 16%nat → length b = 16%nat →
    AES_ecb_encrypt AES_DECRYPT (AES_set_key AES_DECRYPT key) (AES_ecb_encrypt AES_ENCRYPT (AES_set_key AES_ENCRYPT key) b) = b }.

(** One to sixteen bytes are added. *)
Definition pad_len (input : bytes) : nat := 16 - length input mod 16.
Definition pad (alignType : Z) (input : bytes) : bytes :=
  input ++ replicate (pad_len input) (if alignType =? 1 then to_byte (Z.of_nat (pad_len input)) else NUL).

#[local] Arguments Nat.div : simpl never.
#[local] Arguments Nat.modulo : simpl never.
#[local] Arguments pad : simpl never.
Lemma pad_len_range input : (1 <= pad_len input <= 16)%nat.
Proof. unfold pad_len. dlia. Qed.
Lemma pad_blocks a input : (length (pad a input) mod 16 = 0)%nat.
Proof. unfold pad, pad_len. rewrite length_app, length_replicate. dlia. Qed.
Lemma int_len_small input : Z.of_nat (length input) < 2 ^ 31 → int_len input = Z.of_nat (length input).
Proof. intros ?. apply wrap_s_id; unfold in_s; lia. Qed.
Lemma aligned_len_small input :
  Z.of_nat (length input) < 2 ^ 31 - 16 → aligned_len (Z.of_nat (length input)) = Z.of_nat (length input + pad_len input).
Proof.
  intros ?. unfold aligned_len, AES_BLOCK_SIZE. rewrite Z.quot_div_nonneg by lia.
  rewrite wrap_s_id; unfold in_s, pad_len; dlia.
Qed.
Lemma memcpy_app a b src k : length src = length b → memcpy (length a) src (a ++ b ++ k) = a ++ src ++ k.
Proof.
  intros Hl. unfold memcpy. rewrite take_app_length. do 2 f_equal. rewrite Hl, <- length_app, app_assoc. apply drop_app_length.
Qed.
Lemma padded_pad a input :
  Z.of_nat (length input) < 2 ^ 31 - 16 →
  padded input (Z.of_nat (length input)) (Z.of_nat (length input + pad_len input)) a = pad a input.
Proof.
  intros _. unfold padded. rewrite !Nat2Z.id. set (m := pad_len input).
  assert (E0 : memset 0 0 (Z.of_nat (length input + m)) (replicate (length input + m) NUL) = replicate (length input) NUL ++ replicate m NUL).
  { unfold memset. rewrite Nat2Z.id, <- replicate_add.
    pose proof (memcpy_app [] (replicate (length input + m) NUL) (replicate (length input + m) (to_byte 0)) []) as E.
    rewrite !app_nil_r in E. cbn [app length] in E. by rewrite E by (by rewrite !length_replicate). }
  rewrite E0, firstn_all. pose proof (memcpy_app [] (replicate (length input) NUL) input (replicate m NUL)) as E1. cbn [app length] in E1.
  rewrite E1 by (by rewrite length_replicate). unfold pad. fold m. destruct (a =? 1); [|done].
  unfold memset. replace (Z.of_nat (length input + m) - Z.of_nat (length input)) with (Z.of_nat m) by lia. rewrite Nat2Z.id.
  pose proof (memcpy_app input (replicate m NUL) (replicate m (to_byte (Z.of_nat m))) []) as E2. rewrite !app_nil_r in E2.
  apply E2. by rewrite !length_replicate.
Qed.
Lemma unpadded_pad input :
  unpadded (Z.of_nat (length (pad 1 input))) (pad 1 input) = Some (Z.of_nat (length input)).
Proof.
  pose proof (pad_len_range input) as Hr. unfold unpadded, pad. cbn [Z.eqb Pos.eqb]. set (m := pad_len input) in *.
  rewrite length_app, length_replicate, lookup_app_r by lia. rewrite lookup_replicate_2 by lia. cbn [default from_option]. unfold id.
  assert (E : schar (to_byte (Z.of_nat m)) = Z.of_nat m).
  { unfold schar. rewrite to_byte_small by lia. rewrite decide_True by lia. done. }
  rewrite E, decide_False by (unfold AES_BLOCK_SIZE; lia). f_equal. lia.
Qed.
Lemma cstr_cons x s : cstr (x :: s) = if decide (x = NUL) then [] else x :: cstr s.
Proof.
  assert (E : ∀ s n, strIntLen_loop s n = (n + strIntLen_loop s 0)%nat).
  { intros s' . induction s' as [|y s' IH]; intros n; cbn; [lia|]. case_decide; [lia|]. rewrite IH, (IH 1%nat). lia. }
  unfold cstr. cbn. case_decide; [done|]. rewrite E. done.
Qed.
Lemma cstr_nul s k : cstr (s ++ NUL :: k) = cstr s.
Proof. induction s as [|x s IH]; cbn [app]; rewrite cstr_cons; [done|]. by rewrite cstr_cons, IH. Qed.
Lemma cstr_pad a input : a ≠ 1 → NUL ∈ pad a input ∧ cstr (pad a input) = cstr input.
Proof.
  intros Ha. unfold pad. rewrite (proj2 (Z.eqb_neq a 1) Ha). pose proof (pad_len_range input). destruct (pad_len input) as [|m]; [lia|].
  cbn [replicate]. split; [set_solver|]. apply cstr_nul.
Qed.

Section laws.
Context `{!OpenSSLLaws}.

(** ECB works block by block. *)
Lemma blocks_facts n x :
  length x = (16 * n)%nat → concat (blocks n x) = x ∧ Forall (λ b, length b = 16%nat) (blocks n x).
Proof.
  revert x. induction n as [|n IH]; intros x Hx; cbn [blocks].
  - destruct x; [by split|done].
  - destruct (IH (drop 16 x)) as [E HF]; [rewrite length_drop; lia|]. cbn [concat]. rewrite E, take_drop. split; [done|].
    constructor; [rewrite length_take; lia|done].
Qed.
Lemma blocks_concat l : Forall (λ b : bytes, length b = 16%nat) l → blocks (length l) (concat l) = l ∧ length (concat l) = (16 * length l)%nat.
Proof.
  induction 1 as [|b l Hb _ [E El]]; cbn [length blocks concat]; [done|]. rewrite length_app, El.
  rewrite take_app_length', drop_app_length' by done. rewrite E. split; [done|lia].
Qed.
Lemma ecb_inverse_text key x c :
  length key = 16%nat → (length x mod 16 = 0)%nat → aes_ecbEncrypt x key 128 = Some c →
  length c = length x ∧ aes_ecbDecrypt c key 128 = Some x.
Proof.
  intros Hk Hx. unfold aes_ecbEncrypt, aes_ecbDecrypt, ecb, set_key. rewrite !decide_True by done. cbn [mbind option_bind].
  set (n := (length x / 16)%nat). intros Ec%(inj Some). subst c. assert (Hn : length x = (16 * n)%nat) by (unfold n; dlia).
  destruct (blocks_facts n x Hn) as [E HF]. set (l := AES_ecb_encrypt AES_ENCRYPT (AES_set_key AES_ENCRYPT key) <$> blocks n x).
  assert (Hl : Forall (λ b, length b = 16%nat) l).
  { apply Forall_fmap. eapply Forall_impl; [exact HF|]. intros b Hb. by apply ecb_length. }
  destruct (blocks_concat l Hl) as [El Ell].
  assert (Hln : length l = n).
  { pose proof (proj2 (blocks_concat _ HF)) as Hb. rewrite E in Hb. unfold l. rewrite length_fmap. lia. }
  rewrite Ell, Hln. split; [lia|]. replace (16 * n / 16)%nat with n by dlia. rewrite <- Hln, El. f_equal. transitivity (concat (blocks n x)); [|exact E]. f_equal.
  unfold l. rewrite <- list_fmap_compose. etrans; [|apply list_fmap_id]. apply list_fmap_ext. intros j b Hb. cbn.
  apply ecb_inverse; [done|]. eapply Forall_lookup_1 in HF; [exact HF|exact Hb].
Qed.

(** Padding and the length of the text are consistent. *)
Lemma encrypt_guard input P `{Decision P} :
  input ≠ [] → Z.of_nat (length input) < 2 ^ 31 - 16 → ¬ P →
  ¬ (int_len input = 0 ∨ P) ∧ int_len input = Z.of_nat (length input) ∧
  guard_undefined (0 <= int_len input ∧ 0 <= aligned_len (int_len input)) = Some ().
Proof.
  intros Hne Hl HP. rewrite int_len_small by lia. assert (length input ≠ 0%nat) by (destruct input; [done|cbn; lia]).
  split_and!; [|done|apply guard_true; rewrite aligned_len_small by done; lia]. intros [?|?]; [lia|done].
Qed.
Lemma decrypt_guard c x :
  length c = length (pad x.1 x.2) → Z.of_nat (length x.2) < 2 ^ 31 - 16 →
  ¬ (c = [] ∨ (length c mod 16)%nat ≠ 0%nat) ∧ int_len c = Z.of_nat (length (pad x.1 x.2)) ∧ 0 < int_len c.
Proof.
  destruct x as [a input]. cbn. intros Hc Hl. pose proof (pad_blocks a input) as Hb. pose proof (pad_len_range input).
  assert (Hp : length (pad a input) = (length input + pad_len input)%nat) by (unfold pad; by rewrite length_app, length_replicate).
  rewrite int_len_small, Hc, Hp by lia. split_and!; [|done|lia]. intros [->|Hm]; [cbn in Hc; lia|by rewrite <- Hp in Hm].
Qed.

(** A text that was encrypted in CBC mode is found again; with zero padding up to its first NUL. *)
Lemma cbc_roundtrip input key initIV alignType :
  input ≠ [] → Z.of_nat (length input) < 2 ^ 31 - 16 → length key = 16%nat → length initIV = 16%nat →
  ∃ c, aesCbcEncrypt input key initIV alignType 128 = Some (0, c) ∧ length c = (length input + pad_len input)%nat ∧
    aesCbcDecrypt c key initIV alignType 128 = Some (0, if alignType =? 1 then input else cstr input).
Proof.
  intros Hne Hl Hk Hiv. destruct (encrypt_guard input (length key ≠ 16%nat ∨ length initIV ≠ 16%nat) Hne Hl ltac:(lia)) as (H1 & H2 & H3).
  unfold aesCbcEncrypt. rewrite decide_False, H3 by done. cbn [mbind option_bind]. rewrite H2, aligned_len_small, padded_pad by done.
  unfold aes_cbcEncrypt, set_key. rewrite decide_True by done. cbn [mbind option_bind]. eexists. split; [done|].
  set (x := pad alignType input). set (c := fst _). pose proof (pad_blocks alignType input) as Hx. fold x in Hx.
  assert (Hc : length c = length x) by (by apply cbc_length).
  destruct (decrypt_guard c (alignType, input) Hc Hl) as (G1 & G2 & G3). cbn in G2. fold x in G2.
  split; [rewrite Hc; unfold x, pad; by rewrite length_app, length_replicate|].
  unfold aesCbcDecrypt. rewrite decide_False, decide_False by (done || lia). rewrite guard_true by done.
  cbn [mbind option_bind]. rewrite G2, Nat2Z.id, take_ge by lia. unfold aes_cbcDecrypt, set_key. rewrite decide_True by done.
  cbn [mbind option_bind]. unfold c. rewrite cbc_inverse by done. destruct (Z.eqb_spec alignType 1) as [->|Ha].
  - unfold x. rewrite unpadded_pad, Nat2Z.id. unfold pad. by rewrite take_app_length.
  - destruct (cstr_pad alignType input Ha) as [Hn E]. fold x in Hn, E. by rewrite guard_true, E by done.
Qed.
Lemma ecb_roundtrip input key alignType :
  input ≠ [] → Z.of_nat (length input) < 2 ^ 31 - 16 → length key = 16%nat →
  ∃ c, aesEcbEncrypt input key alignType 128 = Some (0, c) ∧ length c = (length input + pad_len input)%nat ∧
    aesEcbDecrypt c key alignType 128 = Some (0, if alignType =? 1 then input else cstr input).
Proof.
  intros Hne Hl Hk. destruct (encrypt_guard input (length key ≠ 16%nat) Hne Hl ltac:(lia)) as (H1 & H2 & H3).
  unfold aesEcbEncrypt. rewrite decide_False, H3 by done. cbn [mbind option_bind]. rewrite H2, aligned_len_small, padded_pad by done.
  set (x := pad alignType input). pose proof (pad_blocks alignType input) as Hx. fold x in Hx.
  destruct (aes_ecbEncrypt x key 128) as [c|] eqn:Ec; [|by unfold aes_ecbEncrypt, ecb, set_key in Ec; rewrite decide_True in Ec by done].
  destruct (ecb_inverse_text key x c Hk Hx Ec) as [Hc Hd]. cbn [mbind option_bind]. exists c. split; [done|].
  destruct (decrypt_guard c (alignType, input) Hc Hl) as (G1 & G2 & G3). cbn in G2. fold x in G2.
  split; [rewrite Hc; unfold x, pad; by rewrite length_app, length_replicate|].
  unfold aesEcbDecrypt. rewrite decide_False, decide_False, Hd by (done || lia). cbn [mbind option_bind].
  destruct (Z.eqb_spec alignType 1) as [->|Ha].
  - rewrite guard_true by done. cbn [mbind option_bind]. rewrite G2. unfold x.
    rewrite unpadded_pad, Nat2Z.id. unfold pad. by rewrite take_app_length.
  - unfold x. by destruct (cstr_pad alignType input Ha) as [_ ->].
Qed.
End laws.

(** ** What is refused *)

(** Texts that are no whole number of blocks, and keys and vectors of another length. *)
Lemma cbc_refused input key initIV a keyBits :
  (input = [] ∨ length key ≠ 16%nat ∨ length initIV ≠ 16%nat → aesCbcEncrypt input key initIV a keyBits = Some (-1, [])) ∧
  (input = [] ∨ (length input mod 16)%nat ≠ 0%nat ∨ length key ≠ 16%nat ∨ length initIV ≠ 16%nat →
   aesCbcDecrypt input key initIV a keyBits = Some (-1, [])).
Proof.
  split; intros Hr.
  - unfold aesCbcEncrypt. rewrite decide_True; [done|]. destruct Hr as [->|Hr]; [by left|by right].
  - unfold aesCbcDecrypt. case_decide; [done|]. rewrite decide_True; [done|]. tauto.
Qed.
(** The callers of the header may ask for keys of 256 bits: there is no such key. *)
Lemma long_keys_undefined input key initIV a :
  input ≠ [] → Z.of_nat (length input) < 2 ^ 31 - 16 → length key = 16%nat → length initIV = 16%nat →
  aesCbcEncrypt input key initIV a 256 = None ∧ aesEcbEncrypt input key a 256 = None.
Proof.
  intros Hne Hl Hk Hiv. unfold aesCbcEncrypt, aesEcbEncrypt.
  destruct (encrypt_guard input (length key ≠ 16%nat ∨ length initIV ≠ 16%nat) Hne Hl ltac:(lia)) as (H1 & _ & H3).
  destruct (encrypt_guard input (length key ≠ 16%nat) Hne Hl ltac:(lia)) as (H1' & _ & _).
  rewrite !decide_False, H3 by done. done.
Qed.
(** Only the last byte of the padding is looked at: 0 to 16, and what is cut off may be
    anything. *)
Lemma padding_unchecked text :
  length text ≠ 0%nat → unpadded (Z.of_nat (length text)) text = (
    let p := schar (default NUL (last text)) in if decide (0 <= p <= 16) then Some (Z.of_nat (length text) - p) else None).
Proof.
  intros Hn. unfold unpadded, AES_BLOCK_SIZE. rewrite last_lookup. replace (Z.to_nat (Z.of_nat (length text) - 1)) with (pred (length text)) by lia.
  cbv zeta. case_decide; case_decide; try done; lia.
Qed.
End aes.

(** ** A library in which the laws hold: every byte is shifted by the key and the vector *)

Definition shift (z : Z) (b : byte) : byte := to_byte (uchar b + z).
Definition first (s : bytes) : Z := uchar (default NUL (head s)).
#[export] Instance shifting : OpenSSL := {|
  AES_KEY := Z;
  AES_set_key d key := match d with AES_ENCRYPT => first key | AES_DECRYPT => - first key end;
  AES_cbc_encrypt d k iv x :=
    let out := shift (match d with AES_ENCRYPT => k + first iv | AES_DECRYPT => k - first iv end) <$> x in
    (out, drop (length x - 16) (match d with AES_ENCRYPT => out | AES_DECRYPT => x end));
  AES_ecb_encrypt d k b := shift k <$> b |}.
Lemma shift_back z (s : bytes) : shift (- z) <$> (shift z <$> s) = s.
Proof.
  rewrite <- list_fmap_compose. etrans; [|apply list_fmap_id]. apply list_fmap_ext. intros _ b _. cbn. unfold shift.
  apply uchar_inj. rewrite !uchar_to_byte. pose proof (uchar_range b). dlia.
Qed.
#[export] Instance shifting_laws : OpenSSLLaws.
Proof.
  split; cbn; intros; rewrite ?length_fmap; try done; [|apply shift_back].
  rewrite <- (shift_back (first key + first iv) x) at 2. f_equal. f_equal. lia.
Qed.

(** Zero padding loses what follows a NUL, and a text with zero padding that is decrypted as
    the other kind keeps the padding. *)
Lemma paddings_run :
  let key := lit "0123456789abcdef" in
  let text := lit "remain" ++ [NUL] ++ lit "file" in
  ('(_, c) ← aesCbcEncrypt text key key 1 128; '(_, c0) ← aesCbcEncrypt text key key 0 128;
   r ← aesCbcDecrypt c key key 1 128; r0 ← aesCbcDecrypt c0 key key 0 128; r1 ← aesCbcDecrypt c0 key key 1 128;
   Some (r, r0, r1)) = Some ((0, text), (0, lit "remain"), (0, text ++ replicate 5 NUL)).
Proof. vm_compute. reflexivity. Qed.
End Aes.
