(* ===== verification/Passwords.v ===== *)
(** * Passwords ([src/common/MysqlEncryPass.cpp], [UserInputPass.h])

    A password is typed in, encrypted, written into an ini file ([IniFile.v]), and decrypted
    from there. The key and the vector of the encryption are global arrays, which the
    library changes; the state is what they hold. *)

From S2P Require Import Prelude CLib Incommon FileSys Base64 Aes.
Import Aes.

Module Passwords.

Record Pass := { aes_key : bytes; aes_iv : bytes }.
#[export] Instance eta_Pass : Eta Pass := λ r, {| aes_key := aes_key r; aes_iv := aes_iv r |}.

Definition RDN_AES_KEY_LEN : Z := 16.
Definition key : bytes := lit "rmcsrmcsrmcsrmcs".
Definition iv : bytes := lit "mwnetmwnetmwnetm".

Section passwords.
Context `{OpenSSL}.

(** [AES_cbc_encrypt] with the global key and vector; it leaves another vector. *)
Definition cbc (d : Dir) (input : bytes) : Op Pass bytes :=
  k ← op_get aes_key; v ← op_get aes_iv;
  let '(output, v') := AES_cbc_encrypt d (AES_set_key d k) v input in
  _ ← op_mod (λ w, w <| aes_iv := v' |>); mret output.

(** [input] is the buffer, with the text in its first [len] bytes. *)
Definition aes_cbcEncrypt (input : bytes) (len : Z) : Op Pass bytes :=
  let padding := 16 - Z.rem len 16 in
  let input := memset (Z.to_nat len) padding padding input in
  cbc AES_ENCRYPT (take (Z.to_nat (len + padding)) input).
(** The output and [outlen], which stays what it was when the padding is wrong. *)
Definition aes_cbcDecrypt (input : bytes) (len outlen : Z) : Op Pass (bytes * Z) :=
  output ← cbc AES_DECRYPT (take (Z.to_nat len) input);
  let padding := uchar (default NUL (output !! Z.to_nat (len - 1))) in
  if decide (padding < 0 ∨ 16 < padding) then mret (output, outlen)
  else mret (memset (Z.to_nat (len - padding)) 0 padding output, len - padding).

Definition set_key_iv : Op Pass () := op_mod (λ _, {| aes_key := key; aes_iv := iv |}).

Definition aesDecrypt (pass : bytes) : Op Pass bytes :=
  if decide (pass = []) then mret []
  else
    let '(ok, result) := Base64.Decode pass [] in
    if negb ok then mret []
    else if decide ((length result mod 16)%nat ≠ 0%nat) then mret []
    else
      _ ← set_key_iv;
      let len := int_len result in
      _ ← op_some (guard_undefined (0 < len));
      '(p_expre, out_len) ← aes_cbcDecrypt (take (Z.to_nat len) result) len 0;
      mret (take (Z.to_nat out_len) p_expre).

Definition aesEncryption (pass : bytes) : Op Pass bytes :=
  let inLen := int_len pass in
  let outLen := s32 (Z.quot inLen RDN_AES_KEY_LEN * RDN_AES_KEY_LEN + RDN_AES_KEY_LEN) in
  _ ← set_key_iv;
  _ ← op_some (guard_undefined (0 <= inLen ∧ 0 <= outLen));
  let p_expre := memcpy 0 (take (Z.to_nat inLen) pass) (memset 0 0 outLen (replicate (Z.to_nat outLen) NUL)) in
  express ← aes_cbcEncrypt p_expre inLen;
  let '(ok, result) := Base64.Encode express [] in
  mret (if ok : bool then result else []).

(** ** The password comes back *)

Section roundtrip.
Context `{!OpenSSLLaws}.

Lemma padded_buffer pass :
  let n := Z.of_nat (length pass) in
  n < 2 ^ 31 - 16 →
  let outLen := aligned_len n in
  let p_expre := memcpy 0 (take (Z.to_nat n) pass) (memset 0 0 outLen (replicate (Z.to_nat outLen) NUL)) in
  memset (Z.to_nat n) (16 - Z.rem n 16) (16 - Z.rem n 16) p_expre = pad 1 pass ∧
  Z.to_nat (n + (16 - Z.rem n 16)) = length (pad 1 pass).
Proof.
  intros n Hn outLen p_expre. pose proof (padded_pad 1 pass Hn) as E. pose proof (aligned_len_small pass Hn) as Ea. fold n in E, Ea.
  unfold p_expre, outLen. rewrite Ea.
  assert (Hp : 16 - Z.rem n 16 = Z.of_nat (length pass + pad_len pass) - n).
  { unfold n. rewrite Z.rem_mod_nonneg by lia. unfold pad_len. dlia. }
  rewrite Hp. split; [exact E|]. unfold pad. rewrite length_app, length_replicate. lia.
Qed.
Lemma cut_padding pass k :
  let len := Z.of_nat (length (pad 1 pass)) in
  let padding := uchar (default NUL (pad 1 pass !! Z.to_nat (len - 1))) in
  padding = Z.of_nat (pad_len pass) ∧ take (length pass) (memset (Z.to_nat (len - padding)) 0 k (pad 1 pass)) = pass.
Proof.
  intros len padding. pose proof (pad_len_range pass) as Hr.
  assert (Hl : len = Z.of_nat (length pass) + Z.of_nat (pad_len pass)).
  { unfold len, pad. rewrite length_app, length_replicate. lia. }
  assert (Hp : padding = Z.of_nat (pad_len pass)).
  { unfold padding. rewrite Hl. unfold pad. rewrite lookup_app_r, lookup_replicate_2 by lia. cbn. apply to_byte_small. lia. }
  split; [done|]. replace (Z.to_nat (len - padding)) with (length pass) by lia. unfold memset, memcpy, pad.
  rewrite take_app_length. by rewrite take_app_length.
Qed.

Lemma cbc_run d x k v :
  let r := AES_cbc_encrypt d (AES_set_key d k) v x in
  cbc d x {| aes_key := k; aes_iv := v |} = Some (r.1, {| aes_key := k; aes_iv := r.2 |}).
Proof. cbv zeta. unfold cbc. rewrite !op_bind_get. cbn. by destruct (AES_cbc_encrypt _ _ _ _). Qed.

(** C34: A stored password comes back: [aesEncryption] gives the Base64 text of whole blocks of
    AES, one to sixteen bytes longer than the password, and a later [aesDecrypt] of the text
    gives the password, whatever the global key and vector hold before either call. *)
Theorem password_roundtrip pass w w' :
  Z.of_nat (length pass) < 2 ^ 31 - 16 →
  ∃ text w1 w2, aesEncryption pass w = Some (text, w1) ∧
    Z.of_nat (length text) = (Z.of_nat (length pass + pad_len pass) + 2) / 3 * 4 ∧ aesDecrypt text w' = Some (pass, w2).
Proof.
  intros Hn. destruct (padded_buffer pass Hn) as [E1 E2]. unfold aesEncryption. rewrite int_len_small by lia. cbv zeta.
  change (s32 (_ `quot` RDN_AES_KEY_LEN * RDN_AES_KEY_LEN + RDN_AES_KEY_LEN)) with (aligned_len (Z.of_nat (length pass))).
  unfold set_key_iv. rewrite op_bind_mod, guard_true, op_bind_some by (rewrite aligned_len_small by done; lia).
  unfold aes_cbcEncrypt. cbv zeta. rewrite E1, E2, take_ge by done.
  pose proof (pad_blocks 1 pass) as Hb. pose proof (pad_len_range pass) as Hr.
  assert (Hlen : length (pad 1 pass) = (length pass + pad_len pass)%nat) by (unfold pad; by rewrite length_app, length_replicate).
  pose proof (cbc_inverse key iv (pad 1 pass) eq_refl eq_refl Hb) as Hinv.
  pose proof (cbc_length AES_ENCRYPT (AES_set_key AES_ENCRYPT key) iv (pad 1 pass) eq_refl Hb) as Hc.
  rewrite op_bind_run, cbc_run. set (c := fst (AES_cbc_encrypt AES_ENCRYPT _ iv (pad 1 pass))) in *.
  assert (Hne : c ≠ []) by (intros ->; cbn in Hc; lia). cbn [mret Op_ret]. rewrite Base64.Encode_nonempty by done.
  exists (Base64.Encode_loop c). eexists. exists {| aes_key := key; aes_iv := (AES_cbc_encrypt AES_DECRYPT (AES_set_key AES_DECRYPT key) iv c).2 |}.
  split; [reflexivity|]. pose proof (Base64.Encode_loop_length c) as Hel.
  split; [unfold Base64.Base64EncodeLen in Hel; rewrite Hc, Hlen in Hel; lia|]. unfold aesDecrypt.
  rewrite decide_False by (intros Hx; rewrite Hx in Hel; unfold Base64.Base64EncodeLen in Hel; cbn in Hel; dlia).
  rewrite Base64.Decode_Encode by done. cbn [negb]. rewrite decide_False by (rewrite Hc; lia). rewrite int_len_small by lia. cbv zeta.
  unfold set_key_iv. rewrite op_bind_mod, guard_true, op_bind_some by lia. rewrite Nat2Z.id, take_ge by done.
  unfold aes_cbcDecrypt. rewrite Nat2Z.id, take_ge by done. rewrite op_bind_run, op_bind_run, cbc_run, Hinv.
  destruct (cut_padding pass (Z.of_nat (pad_len pass))) as [Ep Et]. rewrite Hc. cbv zeta in Ep, Et |- *. rewrite Ep. rewrite Ep in Et.
  rewrite decide_False by lia. unfold mret, Op_ret. do 2 f_equal.
  etrans; [|exact Et]. f_equal. lia.
Qed.
End roundtrip.

(** A text that is no Base64, and one of another length, gives the empty password. *)
Lemma not_decrypted pass w :
  (let '(ok, result) := Base64.Decode pass [] in ok = false ∨ (length result mod 16)%nat ≠ 0%nat) →
  aesDecrypt pass w = Some ([], w).
Proof.
  unfold aesDecrypt. case_decide; [done|]. destruct (Base64.Decode pass []) as [[] result]; cbn [negb]; [|done].
  intros [?|?]; [done|]. by rewrite decide_True.
Qed.
(** The text ["="] decodes to nothing, and the byte in front of the output is read. *)
Lemma nothing_decrypted w : aesDecrypt (lit "=") w = None.
Proof. reflexivity. Qed.
End passwords.

Lemma password_roundtrip_witness :
  let w := {| aes_key := []; aes_iv := [] |} in
  Z.of_nat (length (lit "root")) < 2 ^ 31 - 16 ∧
  ∃ text w1 w2, aesEncryption (lit "root") w = Some (text, w1) ∧
    Z.of_nat (length text) = (Z.of_nat (length (lit "root") + pad_len (lit "root")) + 2) / 3 * 4 ∧ aesDecrypt text w = Some (lit "root", w2).
Proof. intros w. split; [reflexivity|]. apply (password_roundtrip (lit "root") w w). reflexivity. Defined.

(** The library leaves another vector in the array; the next call does not use it. *)
Lemma password_roundtrip_run :
  let w := {| aes_key := []; aes_iv := [] |} in
  ('(text, w1) ← aesEncryption (lit "root") w; '(pass, w2) ← aesDecrypt text w1; Some (pass, bool_decide (aes_iv w1 = iv)))
  = Some (lit "root", false).
Proof. vm_compute. reflexivity. Qed.

(** ** [userInputPassword] over the lines that are typed in; the input ends behind them *)

Fixpoint userInputPassword_loop (password : bytes) (lines : list bytes) : bytes :=
  match lines with
  | [] => password
  | line :: lines =>
      if decide (password ≠ []) then
        if decide (line = lit "y") then password else userInputPassword_loop [] lines
      else if decide (line ≠ []) then userInputPassword_loop line lines
      else userInputPassword_loop password lines
  end.
Definition userInputPassword : list bytes → bytes := userInputPassword_loop [].

(** A password is a line that was confirmed, or the last one. *)
Lemma password_confirmed lines p :
  userInputPassword lines = p → p ≠ [] → ∃ before after, lines = before ++ p :: after ∧ (after = [] ∨ head after = Some (lit "y")).
Proof.
  unfold userInputPassword. intros E Hp. subst p. revert Hp. generalize (le_n (length lines)). generalize (length lines) at 2.
  intros n. revert lines. induction n as [|n IH]; intros [|line lines] Hn; cbn in Hn |- *; try done; [lia|].
  rewrite decide_False by naive_solver. destruct (decide (line ≠ [])) as [Hl|_].
  - destruct lines as [|answer lines]; cbn.
    + intros _. exists [], []. split; [done|by left].
    + rewrite decide_True by done. case_decide as Ha.
      * intros _. exists [], (answer :: lines). subst answer. split; [done|by right].
      * intros Hp. destruct (IH lines) as (b & a & E & Ha'); [cbn in Hn; lia|done|].
        exists (line :: answer :: b), a. split; [cbn; by do 2 f_equal|done].
  - intros Hp. destruct (IH lines) as (b & a & E & Ha'); [lia|done|]. exists (line :: b), a. split; [cbn; by f_equal|done].
Qed.
Lemma typed_run :
  userInputPassword [lit "abc"; lit "n"; lit "secret"; lit "y"; lit "more"] = lit "secret" ∧
  userInputPassword [[]; lit "abc"] = lit "abc" ∧ userInputPassword [lit "y"; lit "y"] = lit "y".
Proof. split_and!; reflexivity. Qed.
End Passwords.
