(* ===== verification/Gzip.v ===== *)
(** * Compression ([src/common/gzip.cpp], [zip.cpp])

    The loops around zlib, which is the class [Zlib]. A buffer is the list of the bytes behind
    the pointer; what is written of the output buffer is a list too. [None] is undefined
    behaviour, or that the fuel is too low. *)

From S2P Require Import Prelude CLib.


Inductive Ret := Z_OK | Z_STREAM_END | Z_DATA_ERROR | Z_BUF_ERROR | Z_STREAM_ERROR.
#[export] Instance Ret_eq_dec : EqDecision Ret.
Proof. solve_decision. Defined.
Inductive Flush := Z_NO_FLUSH | Z_FINISH.

(** [deflate] and [inflate] take the available input and the room for output; they give the number of bytes
    they have consumed, what they have written, and the code. [deflateInit2] and [inflateInit2]
    are for the gzip format, [None] when they fail; the ends are whether the code is [Z_OK]. *)
Class Zlib := {
  Deflate : Type;
  deflateInit2 : option Deflate;
  deflate : Deflate → bytes → nat → Flush → Deflate * nat * bytes * Ret;
  deflateEnd : Deflate → bool;
  Inflate : Type;
  inflateInit2 : option Inflate;
  inflate : Inflate → bytes → nat → Inflate * nat * bytes * Ret;
  inflateEnd : Inflate → bool }.

Module Gzip.

(** [z_stream]; [total_out] is the length of [written]. *)
Record z_stream (Z' : Type) := {
  state : Z'; next_in : bytes; avail_in : Z; total_in : Z; written : bytes; avail_out : Z }.
#[global] Arguments state {Z'}.
#[global] Arguments next_in {Z'}.
#[global] Arguments avail_in {Z'}.
#[global] Arguments total_in {Z'}.
#[global] Arguments written {Z'}.
#[global] Arguments avail_out {Z'}.
#[export] Instance eta_z_stream Z' : Eta (z_stream Z') := λ r,
  {| state := state r; next_in := next_in r; avail_in := avail_in r; total_in := total_in r;
     written := written r; avail_out := avail_out r |}.
Definition total_out {Z'} (s : z_stream Z') : Z := Z.of_nat (length (written s)).

(** A call of the library on a stream: it may read [avail_in] bytes and write [avail_out]. *)
Definition call {Z'} (f : Z' → bytes → nat → Z' * nat * bytes * Ret) (s : z_stream Z') : option (z_stream Z' * Ret) :=
  if decide (avail_in s <= Z.of_nat (length (next_in s))) then
    let '(z, n, out, ret) := f (state s) (take (Z.to_nat (avail_in s)) (next_in s)) (Z.to_nat (avail_out s)) in
    Some ({| state := z; next_in := drop n (next_in s); avail_in := avail_in s - Z.of_nat n; total_in := total_in s + Z.of_nat n;
             written := written s ++ out; avail_out := avail_out s - Z.of_nat (length out) |}, ret)
  else None.

Section gzip.
Context `{Zlib}.

(** The [while] loop of [gzcompress]; [false]: an error, on to [end]. *)
Fixpoint feed (fuel : nat) (nzdata : Z) (c_stream : z_stream Deflate) : option (z_stream Deflate * bool) :=
  match fuel with
  | O => None
  | S fuel =>
      if decide (avail_in c_stream ≠ 0 ∧ total_out c_stream < nzdata) then
        '(c_stream, ret) ← call (λ z x n, deflate z x n Z_NO_FLUSH) c_stream;
        if decide (ret ≠ Z_OK) then Some (c_stream, false) else feed fuel nzdata c_stream
      else Some (c_stream, true)
  end.
(** The [for] loop. *)
Fixpoint finish (fuel : nat) (c_stream : z_stream Deflate) : option (z_stream Deflate) :=
  match fuel with
  | O => None
  | S fuel =>
      '(c_stream, ret) ← call (λ z x n, deflate z x n Z_FINISH) c_stream;
      if decide (ret = Z_OK) then finish fuel c_stream else Some c_stream
  end.
(** The code, what is written to [zdata], and [*nzdata]. With input left over the stream is
    never ended. *)
Definition gzcompress (fuel : nat) (data : option bytes) (nzdata : Z) : option (Z * bytes * Z) :=
  match data with
  | None | Some [] => Some (-1, [], nzdata)
  | Some data =>
      match deflateInit2 with
      | None => Some (-1, [], nzdata)
      | Some z =>
          '(c_stream, ok) ← feed fuel nzdata {| state := z; next_in := data; avail_in := u32 (Z.of_nat (length data)); total_in := 0;
                                              written := []; avail_out := u32 nzdata |};
          if decide (ok = true ∧ avail_in c_stream ≠ 0) then Some (s32 (avail_in c_stream), written c_stream, nzdata)
          else
            c_stream ← (if ok : bool then finish fuel c_stream else Some c_stream);
            if deflateEnd (state c_stream) then Some (0, written c_stream, total_out c_stream)
            else Some (-1, written c_stream, nzdata)
      end
  end.

(** [dummy_head]: [0x78] and the low byte of [(0x7800 + 30) / 31 * 31]. *)
Definition dummy_head : bytes := [to_byte (8 + 7 * 16); to_byte (Z.land (((8 + 7 * 16) * 256 + 30) / 31 * 31) 255)].
(** The loop of [gzdecompress]. After a data error the stream reads on in [dummy_head]. *)
Fixpoint gunzip (fuel : nat) (nzdata ndata : Z) (d_stream : z_stream Inflate) : option (z_stream Inflate) :=
  match fuel with
  | O => None
  | S fuel =>
      if decide (total_out d_stream < ndata ∧ total_in d_stream < nzdata) then
        '(d_stream, ret) ← call inflate (d_stream <| avail_in := 1 |> <| avail_out := 1 |>);
        match ret with
        | Z_OK => gunzip fuel nzdata ndata d_stream
        | Z_DATA_ERROR =>
            '(d_stream, ret) ← call inflate (d_stream <| next_in := dummy_head |> <| avail_in := 2 |>);
            if decide (ret ≠ Z_OK) then Some d_stream else gunzip fuel nzdata ndata d_stream
        | _ => Some d_stream
        end
      else Some d_stream
  end.
Definition gzdecompress (fuel : nat) (zdata : bytes) (ndata : Z) : option (Z * bytes * Z) :=
  match inflateInit2 with
  | None => Some (-1, [], ndata)
  | Some z =>
      d_stream ← gunzip fuel (Z.of_nat (length zdata)) ndata
        {| state := z; next_in := zdata; avail_in := 0; total_in := 0; written := []; avail_out := 0 |};
      if inflateEnd (state d_stream) then Some (0, written d_stream, total_out d_stream) else Some (-1, written d_stream, ndata)
  end.

(** [zip.cpp] does nothing. *)
Definition zipcompress (data : bytes) (nzdata : Z) : Z * bytes * Z := (0, [], nzdata).
Definition zipdecompress (zdata : bytes) (ndata : Z) : Z * bytes * Z := (0, [], ndata).
End gzip.

(** ** What the manual of zlib says

    [gz c d]: the bytes [c] are a gzip file with the contents [d]; it ends with their check value
    and length, which [inflate] compares with what it has written. [deflating fin z d c] and
    [inflating z c d]: the stream [z], not at its end, has consumed and written these bytes;
    [fin]: it was called with [Z_FINISH]. What [deflateEnd] answers for a stream that is not at
    its end is left open: zlib calls it an error before [Z_FINISH], and not afterwards. *)
Class ZlibLaws (H : Zlib) := {
  gz : bytes → bytes → Prop;
  gz_header d : ¬ gz [] d;
  deflating : bool → Deflate → bytes → bytes → Prop;
  deflate_init z : deflateInit2 = Some z → deflating false z [] [];
  (* progress, until all input is taken or the room is used up *)
  deflate_feed z din dout x n z' k out ret :
    deflating false z din dout → x ≠ [] → n ≠ 0%nat → deflate z x n Z_NO_FLUSH = (z', k, out, ret) →
    (k <= length x)%nat ∧ (length out <= n)%nat ∧ ret = Z_OK ∧ ((0 < k)%nat ∨ out ≠ []) ∧ (k = length x ∨ length out = n) ∧
    deflating false z' (din ++ take k x) (dout ++ out);
  (* the end, or the room is used up and [Z_OK] is progress *)
  deflate_finish fin z din dout n z' k out ret :
    deflating fin z din dout → deflate z [] n Z_FINISH = (z', k, out, ret) →
    k = 0%nat ∧ (length out <= n)%nat ∧
    (ret = Z_STREAM_END ∧ gz (dout ++ out) din ∧ deflateEnd z' = true ∨
     ret ≠ Z_STREAM_END ∧ length out = n ∧ (ret = Z_OK → out ≠ []) ∧ deflating true z' din (dout ++ out));
  (* a stream that is not at its end is within the bound for what it has consumed *)
  deflateBound : nat → nat;
  bound_mono n n' : (n <= n' → deflateBound n <= deflateBound n')%nat;
  deflate_bound fin z din dout : deflating fin z din dout → (length dout < deflateBound (length din))%nat;
  inflating : Inflate → bytes → bytes → Prop;
  inflate_init z : inflateInit2 = Some z → inflating z [] [];
  (* of a file: progress, and the end with its last byte, the contents being written *)
  inflate_step c d z cin dout x n z' k out ret :
    gz c d → inflating z cin dout → (cin ++ x) `prefix_of` c → x ≠ [] → n ≠ 0%nat → inflate z x n = (z', k, out, ret) →
    (k <= length x)%nat ∧ (length out <= n)%nat ∧ (dout ++ out) `prefix_of` d ∧
    (ret = Z_STREAM_END ∧ cin ++ take k x = c ∧ dout ++ out = d ∨
     ret = Z_OK ∧ ((0 < k)%nat ∨ out ≠ []) ∧ cin ++ take k x ≠ c ∧ inflating z' (cin ++ take k x) (dout ++ out));
  inflate_end z : inflateEnd z = true }.

Section laws.
Context `{H : Zlib} `{!ZlibLaws H}.

(** The stream has consumed [din] of [data], and writes into [nzdata] bytes. *)
Record compressing (data din : bytes) (nzdata : Z) (fin : bool) (s : z_stream Deflate) : Prop := {
  c_text : data = din ++ next_in s;
  c_in : avail_in s = Z.of_nat (length (next_in s));
  c_out : 0 <= avail_out s ∧ avail_out s + total_out s = nzdata;
  c_deflating : deflating fin (state s) din (written s) }.

Lemma call_run {Z'} (f : Z' → bytes → nat → Z' * nat * bytes * Ret) s :
  avail_in s = Z.of_nat (length (next_in s)) →
  call f s = let '(z, n, out, ret) := f (state s) (next_in s) (Z.to_nat (avail_out s)) in
    Some ({| state := z; next_in := drop n (next_in s); avail_in := avail_in s - Z.of_nat n; total_in := total_in s + Z.of_nat n;
             written := written s ++ out; avail_out := avail_out s - Z.of_nat (length out) |}, ret).
Proof. intros E. unfold call. rewrite decide_True by lia. rewrite E at 1. by rewrite Nat2Z.id, take_ge by done. Qed.

(** The loop ends; all input was taken, or the output is full. *)
Lemma feed_ends data din nzdata s fuel :
  compressing data din nzdata false s → (Z.to_nat (avail_out s) + length (next_in s) < fuel)%nat →
  ∃ s' din', feed fuel nzdata s = Some (s', true) ∧ compressing data din' nzdata false s' ∧ (avail_in s' = 0 ∨ total_out s' = nzdata).
Proof.
  revert s din. induction fuel as [|fuel IH]; intros s din Hs Hf; [lia|]. pose proof Hs as [Ht Hin [Ho1 Ho2] Hd]. cbn [feed].
  case_decide as Hc; [|exists s, din; split_and!; [done|exact Hs|lia]]. destruct Hc as [Hne Hlt].
  rewrite call_run by done. destruct (deflate _ _ _ _) as [[[z' k] out] ret] eqn:Ed.
  assert (Hx : next_in s ≠ []) by (intros E; rewrite E in Hin; cbn in Hin; lia).
  assert (Hn : Z.to_nat (avail_out s) ≠ 0%nat) by lia.
  destruct (deflate_feed _ _ _ _ _ _ _ _ _ Hd Hx Hn Ed) as (Hk & Ho & -> & Hp & _ & Hd').
  cbn [mbind option_bind]. rewrite decide_False by naive_solver.
  assert (Hlo : out ≠ [] → length out ≠ 0%nat) by (by destruct out).
  set (s1 := Build_z_stream _ z' _ _ _ _ _). destruct (IH s1 (din ++ take k (next_in s))) as (s' & din' & E & Hs' & Hend).
  - split; cbn; [by rewrite <- app_assoc, take_drop|rewrite length_drop; lia| |exact Hd'].
    unfold total_out in *. cbn. rewrite length_app. lia.
  - cbn. rewrite length_drop. destruct Hp as [?|?%Hlo]; lia.
  - by exists s', din'.
Qed.
(** The end of the file is written, or the output gets full. *)
Lemma finish_ends data nzdata fin s fuel :
  compressing data data nzdata fin s → (Z.to_nat (avail_out s) < fuel)%nat →
  ∃ s', finish fuel s = Some s' ∧ total_out s' <= nzdata ∧
    (deflateEnd (state s') = true ∧ gz (written s') data ∨ total_out s' = nzdata ∧ (length (written s') < deflateBound (length data))%nat).
Proof.
  revert fin s. induction fuel as [|fuel IH]; intros fin s Hs Hf; [lia|]. pose proof Hs as [Ht Hin [Ho1 Ho2] Hd]. cbn [finish].
  assert (Hx : next_in s = []).
  { apply (f_equal length) in Ht. rewrite length_app in Ht. destruct (next_in s); [done|cbn in Ht; lia]. }
  rewrite call_run, Hx by done. destruct (deflate _ _ _ _) as [[[z' k] out] ret] eqn:Ed. rewrite drop_nil. cbn [mbind option_bind].
  destruct (deflate_finish _ _ _ _ _ _ _ _ _ Hd Ed) as (-> & Ho & [(-> & Hgz & He)|(Hr & Hfull & Hp & Hd')]).
  - eexists. split; [done|]. unfold total_out in *. cbn. rewrite length_app. split; [lia|by left].
  - set (s1 := Build_z_stream _ z' _ _ _ _ _). assert (Hs1 : total_out s1 = nzdata ∧ avail_out s1 = 0).
    { unfold total_out in *. cbn. rewrite length_app. lia. }
    destruct (decide (ret = Z_OK)) as [HOK|HOK].
    + apply Hp in HOK. assert (length out ≠ 0%nat) by (by destruct out). apply (IH true); [|lia].
      destruct Hs1. split; [by rewrite app_nil_r|cbn; rewrite Hin, Hx; done|lia|exact Hd'].
    + exists s1. split_and!; [done|lia|]. right. split; [lia|]. by eapply deflate_bound.
Qed.
(** Compression ends: the whole gzip file is in the buffer and the code is 0, or the buffer is
    full. When the code is 0 the length given is that of what was written. *)
Lemma gzcompress_complete data nzdata fuel :
  data ≠ [] → Z.of_nat (length data) < 2 ^ 32 → 0 < nzdata < 2 ^ 32 → is_Some deflateInit2 →
  (Z.to_nat nzdata + length data < fuel)%nat →
  ∃ ret out n, gzcompress fuel (Some data) nzdata = Some (ret, out, n) ∧ Z.of_nat (length out) <= nzdata ∧
    (ret = 0 → n = Z.of_nat (length out)) ∧ (ret = 0 ∧ gz out data ∨ Z.of_nat (length out) = nzdata ∧ nzdata < Z.of_nat (deflateBound (length data))).
Proof.
  intros Hne Hd Hn [z Hz] Hf. unfold gzcompress. rewrite Hz. destruct data as [|b data']; [done|]. set (data := b :: data') in *.
  rewrite !wrap_u_id by (unfold in_u; lia). set (s0 := Build_z_stream _ _ _ _ _ _ _).
  assert (Hs0 : compressing data [] nzdata false s0).
  { split; [done|done|unfold total_out; cbn; lia|by apply deflate_init]. }
  destruct (feed_ends data [] nzdata s0 fuel Hs0) as (s & din & E & Hs & Hend); [change (avail_out s0) with nzdata; change (next_in s0) with data; lia|]. rewrite E. cbn [mbind option_bind].
  destruct Hs as [Ht Hin [Ho1 Ho2] Hde]. destruct (decide (avail_in s = 0)) as [H0|H0].
  - rewrite decide_False by naive_solver. assert (Hx : next_in s = []) by (destruct (next_in s); [done|cbn in Hin; lia]).
    rewrite Hx, app_nil_r in Ht. subst din.
    destruct (finish_ends data nzdata false s fuel) as (s' & E' & Hle & Hc); [by split; rewrite ?Hx, ?app_nil_r|unfold total_out in Ho2; lia|].
    rewrite E'. cbn [mbind option_bind]. unfold total_out in *.
    destruct Hc as [[-> Hgz]|[Hfull Hb]]; [|case_match]; do 3 eexists; (split; [done|]); (split; [lia|]); (split; [done|]); auto with lia.
  - rewrite decide_True by done. do 3 eexists. split; [done|]. unfold total_out in *. split; [lia|]. split; cycle 1.
    { right. pose proof (deflate_bound _ _ _ _ Hde). assert (deflateBound (length din) <= deflateBound (length data))%nat; [|lia].
      apply bound_mono. rewrite Ht, length_app. lia. }
    assert (Hl : avail_in s < 2 ^ 32) by (apply (f_equal length) in Ht; rewrite length_app in Ht; lia).
    unfold wrap_s, wrap_u. rewrite Z.mod_small by lia. case_decide; lia.
Qed.

(** The stream has consumed [cin] of the file [c]. *)
Record unzipping (c d cin : bytes) (ndata : Z) (s : z_stream Inflate) : Prop := {
  u_text : c = cin ++ next_in s;
  u_in : total_in s = Z.of_nat (length cin);
  u_out : written s `prefix_of` d;
  u_room : total_out s <= ndata;
  u_inflating : inflating (state s) cin (written s) }.
Lemma call_byte s : next_in s ≠ [] →
  call inflate (s <| avail_in := 1 |> <| avail_out := 1 |>) = let '(z, n, out, ret) := inflate (state s) (take 1 (next_in s)) 1 in
    Some ({| state := z; next_in := drop n (next_in s); avail_in := 1 - Z.of_nat n; total_in := total_in s + Z.of_nat n;
             written := written s ++ out; avail_out := 1 - Z.of_nat (length out) |}, ret).
Proof. intros Hx. unfold call. rewrite decide_True by (cbn; destruct (next_in s); [done|cbn; lia]). reflexivity. Qed.
Lemma gunzip_ends c d cin ndata s fuel :
  gz c d → unzipping c d cin ndata s → cin ≠ c → (length (next_in s) + Z.to_nat (ndata - total_out s) < fuel)%nat →
  ∃ s', gunzip fuel (Z.of_nat (length c)) ndata s = Some s' ∧ written s' = take (Z.to_nat ndata) d.
Proof.
  intros Hgz. revert s cin. induction fuel as [|fuel IH]; intros s cin Hs Hne Hf; [lia|].
  pose proof Hs as [Ht Hti Hw Hr Hi]. cbn [gunzip].
  assert (Hx : next_in s ≠ []) by (intros E; rewrite E, app_nil_r in Ht; done).
  assert (Hlt : total_in s < Z.of_nat (length c)).
  { rewrite Hti, Ht, length_app. destruct (next_in s); [done|cbn; lia]. }
  destruct (decide (total_out s < ndata)) as [Hroom|Hfull].
  - rewrite decide_True, call_byte by done. set (x := take 1 (next_in s)).
    assert (Hlx : length (next_in s) ≠ 0%nat) by (by destruct (next_in s)).
    destruct (inflate (state s) x 1) as [[[z' k] out] ret] eqn:Ed.
    assert (x ≠ [] ∧ length x = 1%nat) as [Hx0 Hx1] by (unfold x; destruct (next_in s); [done|by cbn]).
    assert (Hpre : (cin ++ x) `prefix_of` c) by (rewrite Ht; apply prefix_app, prefix_take).
    destruct (inflate_step c d _ _ _ _ _ _ _ _ _ Hgz Hi Hpre Hx0 (ltac:(done) : 1%nat ≠ 0%nat) Ed) as (Hk & Ho & Hp & Hcase).
    assert (Hlo : out ≠ [] → length out ≠ 0%nat) by (by destruct out). unfold total_out in *.
    cbn [mbind option_bind]. destruct Hcase as [(-> & _ & Hall)|(-> & Hprog & Hmore & Hi')].
    + eexists. split; [done|]. cbn. rewrite Hall, take_ge; [done|]. rewrite <- Hall, length_app. lia.
    + assert (Etake : take k x = take k (next_in s)) by (unfold x; rewrite take_take; f_equal; lia).
      eapply (IH _ (cin ++ take k x)); [|done|].
      * split; cbn; [by rewrite Etake, <- app_assoc, take_drop|rewrite length_app, length_take; lia|done| |done].
        unfold total_out. cbn. rewrite length_app. lia.
      * cbn. unfold total_out. cbn. rewrite length_drop, length_app. destruct Hprog as [?|?%Hlo]; lia.
  - rewrite decide_False by naive_solver. eexists. split; [done|]. destruct Hw as [rest ->]. unfold total_out in *.
    rewrite take_app_le, take_ge by lia. done.
Qed.
(** Decompression of a gzip file ends with as much of the contents as there is room for. *)
Lemma gzdecompress_file c d ndata fuel :
  gz c d → c ≠ [] → 0 <= ndata → is_Some inflateInit2 → (length c + Z.to_nat ndata < fuel)%nat →
  gzdecompress fuel c ndata = Some (0, take (Z.to_nat ndata) d, Z.min ndata (Z.of_nat (length d))).
Proof.
  intros Hgz Hne Hn [z Hz] Hf. unfold gzdecompress. rewrite Hz. set (s0 := Build_z_stream _ _ _ _ _ _ _).
  destruct (gunzip_ends c d [] ndata s0 fuel Hgz) as (s & -> & Hw).
  - split; cbn; [done..|apply prefix_nil|unfold total_out; cbn; lia|by apply inflate_init].
  - done.
  - unfold total_out. cbn. lia.
  - cbn [mbind option_bind]. rewrite inflate_end, Hw. unfold total_out. rewrite Hw, length_take. do 2 f_equal. lia.
Qed.

(** C35: Compression comes to an end, and is lossless unless it fills its buffer: the code is 0,
    the length given is that of the output, and every decompression of the output with room for
    the data ends with code 0 and the data; or the output is as long as the buffer, and the buffer
    is smaller than the library's bound for the data. Then code 0 says nothing (see
    [truncated_success]). *)
Theorem gzip_roundtrip data nzdata ndata fuel fuel' :
  data ≠ [] → Z.of_nat (length data) < 2 ^ 32 → 0 < nzdata < 2 ^ 32 → is_Some deflateInit2 → is_Some inflateInit2 →
  Z.of_nat (length data) <= ndata →
  (Z.to_nat nzdata + length data < fuel)%nat → (Z.to_nat nzdata + Z.to_nat ndata < fuel')%nat →
  ∃ ret out n, gzcompress fuel (Some data) nzdata = Some (ret, out, n) ∧ Z.of_nat (length out) <= nzdata ∧
    (ret = 0 → n = Z.of_nat (length out)) ∧
    (ret = 0 ∧ gzdecompress fuel' out ndata = Some (0, data, Z.of_nat (length data)) ∨
     Z.of_nat (length out) = nzdata ∧ nzdata < Z.of_nat (deflateBound (length data))).
Proof.
  intros Hne Hd Hn Hi1 Hi2 Hnd Hf Hf'. destruct (gzcompress_complete data nzdata fuel) as (ret & out & n & E & Hl & Hr & Hc); [done..|].
  exists ret, out, n. split_and!; [done..|]. destruct Hc as [(-> & Hgz)|Hfull]; [left|by right]. split; [done|].
  erewrite gzdecompress_file; [|exact Hgz|by intros ->; apply (gz_header data)|lia|done|lia].
  by rewrite take_ge, Z.min_r by lia.
Qed.
End laws.

(** Decompression reports success also for corrupt data and when there is too little room. *)
Lemma decompression_never_fails `{H : Zlib} fuel zdata ndata ret out n :
  (∀ z, inflateEnd z = true) → is_Some inflateInit2 → gzdecompress fuel zdata ndata = Some (ret, out, n) → ret = 0.
Proof.
  intros He [z Hz]. unfold gzdecompress. rewrite Hz. destruct (gunzip _ _ _ _); cbn; [|done]. rewrite He. by intros [= <-].
Qed.

(** ** A library in which the laws hold: the length in unary, and the data *)

Definition enc (d : bytes) : bytes := replicate (length d) (to_byte 1) ++ NUL :: d.
(** The length that is announced, and what follows it. *)
Definition view (c : bytes) : nat * bytes := let '(ones, rest) := span (λ b, bool_decide (b = to_byte 1)) c in (length ones, rest).
Definition body (c : bytes) : bytes := tail (view c).2.
Definition complete (c : bytes) : bool := let '(n, rest) := view c in bool_decide (length rest = S n).
#[export] Instance storing : Zlib := {|
  Deflate := bytes * option bytes;
  deflateInit2 := Some ([], None);
  deflate '(din, pending) x n flush :=
    match flush, pending with
    | Z_NO_FLUSH, None => if decide (x = [] ∨ n = 0%nat) then ((din, None), 0%nat, [], Z_BUF_ERROR) else ((din ++ x, None), length x, [], Z_OK)
    | Z_NO_FLUSH, Some _ => ((din, pending), 0%nat, [], Z_STREAM_ERROR)
    | Z_FINISH, _ =>
        let p := default (enc (din ++ x)) pending in
        ((din ++ x, Some (drop n p)), length x, take n p,
          if decide (drop n p = []) then Z_STREAM_END else if decide (n = 0%nat) then Z_BUF_ERROR else Z_OK)
    end;
  deflateEnd '(din, pending) := bool_decide (is_Some pending ∨ din = []);
  Inflate := bytes;
  inflateInit2 := Some [];
  inflate z x n :=
    match x, n with
    | b :: _, S _ =>
        match (view z).2 with
        | [] => (z ++ [b], 1%nat, [], if decide (b = to_byte 1) then Z_OK else if decide (b ≠ NUL) then Z_DATA_ERROR else if complete (z ++ [b]) then Z_STREAM_END else Z_OK)
        | r :: _ => if decide (r = NUL) then (z ++ [b], 1%nat, [b], if complete (z ++ [b]) then Z_STREAM_END else Z_OK) else (z, 0%nat, [], Z_DATA_ERROR)
        end
    | _, _ => (z, 0%nat, [], Z_BUF_ERROR)
    end;
  inflateEnd _ := true |}.

Lemma view_ones m : view (replicate m (to_byte 1)) = (m, []).
Proof.
  unfold view. rewrite <- (app_nil_r (replicate m _)). rewrite (span_Forall _ (replicate m (to_byte 1)) []); [|by apply Forall_replicate|done].
  by rewrite length_replicate.
Qed.
Lemma view_body m k : view (replicate m (to_byte 1) ++ NUL :: k) = (m, NUL :: k).
Proof.
  unfold view. rewrite (span_Forall _ (replicate m (to_byte 1)) (NUL :: k)); [by rewrite length_replicate|by apply Forall_replicate|].
  by intros x [= <-].
Qed.
(** The parts of a file [enc d]. *)
Lemma parts d cin b : (cin ++ [b]) `prefix_of` enc d →
  (∃ m, (m < length d)%nat ∧ cin = replicate m (to_byte 1) ∧ b = to_byte 1) ∨
  (cin = replicate (length d) (to_byte 1) ∧ b = NUL) ∨
  (∃ d0, cin = replicate (length d) (to_byte 1) ++ NUL :: d0 ∧ (d0 ++ [b]) `prefix_of` d).
Proof.
  intros [rest E]. unfold enc in E. rewrite <- app_assoc in E. cbn in E. set (ones := replicate _ _) in *.
  apply app_eq_inv in E as [(k & E1 & E2)|(k & E1 & E2)].
  - destruct k as [|y k]; cbn in E2.
    + injection E2 as -> _. rewrite app_nil_r in E1. right; left. by split.
    + injection E2 as -> E2. left. exists (length cin). assert (Hl : length d = (length cin + S (length k))%nat).
      { apply (f_equal length) in E1. unfold ones in E1. rewrite length_replicate, length_app in E1. cbn in E1. lia. }
      unfold ones in E1. rewrite Hl, replicate_add in E1. apply app_inj_1 in E1 as [E1 E1']; [|by rewrite length_replicate].
      cbn in E1'. injection E1' as Ey _. split_and!; [lia|by symmetry|by symmetry].
  - destruct k as [|y k]; cbn in E2.
    + injection E2 as <- _. rewrite app_nil_r in E1. right; left. by split.
    + injection E2 as <- E2. right; right. exists k. split; [done|]. exists rest. by rewrite <- app_assoc.
Qed.
Lemma complete_body m k : complete (replicate m (to_byte 1) ++ NUL :: k) = bool_decide (length k = m).
Proof. unfold complete. rewrite view_body. apply bool_decide_ext. cbn [length]. lia. Qed.
Lemma complete_ones m : complete (replicate m (to_byte 1)) = false.
Proof. unfold complete. rewrite view_ones. by apply bool_decide_false. Qed.

Lemma complete_enc d : complete (enc d) = true.
Proof. unfold enc. rewrite complete_body. by apply bool_decide_true. Qed.
Lemma body_ones m : body (replicate m (to_byte 1)) = [].
Proof. unfold body. by rewrite view_ones. Qed.
Lemma body_body m k : body (replicate m (to_byte 1) ++ NUL :: k) = k.
Proof. unfold body. by rewrite view_body. Qed.
Lemma incomplete_enc c d : complete c = false → c ≠ enc d.
Proof. intros Hc ->. by rewrite complete_enc in Hc. Qed.

#[export] Program Instance storing_laws : ZlibLaws storing := {|
  gz c d := c = enc d;
  deflating fin '(din', pending) din dout := din' = din ∧
    if fin : bool then ∃ rest, pending = Some rest ∧ rest ≠ [] ∧ enc din = dout ++ rest else pending = None ∧ dout = [];
  deflateBound n := (2 * n + 1)%nat;
  inflating z cin dout := z = cin ∧ dout = body cin ∧ complete cin = false |}.
Next Obligation. intros d E. unfold enc in E. by destruct d. Qed.
Next Obligation. by intros _ [= <-]. Qed.
Next Obligation.
  intros [din' p] din dout x n z' k out ret [-> [-> ->]] Hx Hn. cbn. rewrite decide_False by naive_solver. intros [= <- <- <- <-].
  rewrite firstn_all. assert (length x ≠ 0%nat) by (by destruct x). split_and!; try done; [cbn; lia|left; lia|by left].
Qed.
Next Obligation.
  intros fin [din' p] din dout n z' k out ret [-> Hp]. cbn. rewrite app_nil_r. set (q := default (enc din) p).
  assert (Hq : enc din = dout ++ q) by (unfold q; destruct fin; [destruct Hp as (rest & -> & _ & ?)|destruct Hp as [-> ->]]; done).
  intros [= <- <- <- <-]. split; [done|]. split; [rewrite length_take; lia|]. case_decide as Hd.
  - left. split_and!; [done| |by apply bool_decide_true; left; eexists].
    rewrite Hq. f_equal. rewrite <- (take_drop n q) at 2. by rewrite Hd, app_nil_r.
  - right. assert (Hl : (n < length q)%nat) by (destruct (decide (n < length q)%nat) as [|Hge]; [done|by rewrite drop_ge in Hd by lia]).
    split_and!; [by case_decide|rewrite length_take; lia| |done|].
    + case_decide as Hn; [done|]. intros _ E. apply (f_equal length) in E. rewrite length_take in E. cbn in E. lia.
    + exists (drop n q). split_and!; [done|done|]. by rewrite <- app_assoc, take_drop.
Qed.
Next Obligation. cbn. intros. lia. Qed.
Next Obligation.
  intros fin [din' p] din dout [-> Hp]. cbn. destruct fin; [destruct Hp as (rest & _ & Hr & E)|destruct Hp as [_ ->]; cbn; lia].
  apply (f_equal length) in E. unfold enc in E. rewrite !length_app, length_replicate in E. cbn in E. destruct rest; [done|cbn in E; lia].
Qed.
Next Obligation. by intros _ [= <-]. Qed.
Next Obligation.
  intros c d z cin dout x n z' k out ret -> (-> & -> & Hinc) Hpre Hx Hn. destruct x as [|b x]; [done|]. destruct n as [|n]; [done|].
  assert (Hb : (cin ++ [b]) `prefix_of` enc d).
  { etrans; [|exact Hpre]. exists x. by rewrite <- app_assoc. }
  cbn -[take]. intros E. assert (Hone : ∀ c, take 1 (b :: c) = [b]) by done.
  destruct (parts d cin b Hb) as [(m & Hm & -> & ->)|[[-> ->]|(d0 & -> & Hd0)]].
  - rewrite view_ones in E. cbn in E. injection E as <- <- <- <-. rewrite Hone, <- replicate_S_end, !body_ones, complete_ones.
    split_and!; [lia|cbn; lia|apply prefix_nil|]. right. split_and!; try done; [by left; lia|]. by apply incomplete_enc, complete_ones.
  - rewrite view_ones in E. cbn in E. injection E as <- <- <- <-. rewrite Hone, body_ones, body_body. fold (enc d). rewrite complete_body.
    split_and!; [lia|cbn; lia|apply prefix_nil|]. destruct d as [|y d].
    + left. done.
    + right. split_and!; [done|by left; lia|by apply incomplete_enc; rewrite complete_body|done..].
  - rewrite view_body in E. cbn in E. injection E as <- <- <- <-. rewrite Hone, <- app_assoc. cbn [app].
    rewrite !body_body, complete_body. destruct Hd0 as [r Hr]. split_and!; [lia|cbn; lia|by exists r|].
    case_bool_decide as Hl.
    + left. assert (Er : r = []) by (apply (f_equal length) in Hr; rewrite length_app in Hr; destruct r; [done|cbn in *; lia]).
      subst r. rewrite app_nil_r in Hr. rewrite <- Hr. unfold enc. done.
    + right. split_and!; [done|by left; lia| |done..]. apply incomplete_enc. rewrite complete_body. by apply bool_decide_false.
Qed.
Next Obligation. done. Qed.


(** A run of both; corrupt data, too little room for the contents, and part of a file, all
    reported as success. *)
Lemma gzip_run :
  gzcompress 100 (Some (lit "abc")) 50 = Some (0, enc (lit "abc"), 7) ∧ gzdecompress 100 (enc (lit "abc")) 50 = Some (0, lit "abc", 3) ∧
  gzdecompress 100 (lit "no gzip file") 50 = Some (0, [], 0) ∧
  gzdecompress 100 (enc (lit "abc")) 2 = Some (0, lit "ab", 2) ∧
  gzdecompress 100 (take 5 (enc (lit "abc"))) 50 = Some (0, lit "a", 1).
Proof. split_and!; vm_compute; reflexivity. Qed.
(** The result of [deflate] is not looked at, and this library, as zlib does, finds nothing wrong
    with the end of a stream that has begun to finish: with too little room for the file
    compression answers 0 and leaves part of it, which decompression takes for less data. *)
Lemma truncated_success :
  gzcompress 100 (Some (lit "abc")) 5 = Some (0, take 5 (enc (lit "abc")), 5) ∧
  gzdecompress 100 (take 5 (enc (lit "abc"))) 3 = Some (0, lit "a", 1).
Proof. split; vm_compute; reflexivity. Qed.
Lemma gzip_roundtrip_witness :
  lit "abc" ≠ [] ∧ ∃ ret out n, gzcompress 100 (Some (lit "abc")) 50 = Some (ret, out, n) ∧ Z.of_nat (length out) <= 50 ∧
    (ret = 0 → n = Z.of_nat (length out)) ∧ (ret = 0 ∧ gzdecompress 100 out 3 = Some (0, lit "abc", 3) ∨
     Z.of_nat (length out) = 50 ∧ 50 < Z.of_nat (deflateBound 3)).
Proof.
  split; [done|].
  apply (gzip_roundtrip (H := storing) (lit "abc") 50 3 100 100); [done|reflexivity|lia|by eexists|by eexists|cbn; lia|cbn; lia|cbn; lia].
Defined.
End Gzip.
