(* ===== verification/Digest.v ===== *)
(** * Digests as hexadecimal text ([src/common/MD5.cpp])

    The digest is OpenSSL's, an argument; the text is printed into a buffer of twice the
    length, two digits and a terminator at a time. *)

From S2P Require Import Prelude CLib Aes.
Import Aes(memcpy).

Module Digest.

Definition hex_digit (upper : bool) (d : Z) : byte := to_byte (if d <? 10 then 48 + d else if upper then 55 + d else 87 + d).
(** ["%02X"] and ["%02x"] of an [unsigned char]. *)
Definition hex2 (upper : bool) (b : byte) : bytes := [hex_digit upper (uchar b / 16); hex_digit upper (uchar b mod 16)].

(** A buffer of the heap, and whether something was written behind it. *)
Record Buffer := { mem : bytes; overrun : bool }.
Definition sprintf (oOut : nat) (text : bytes) (b : Buffer) : Buffer :=
  {| mem := take (length (mem b)) (memcpy oOut (text ++ [NUL]) (mem b));
     overrun := overrun b || (length (mem b) <? oOut + length text + 1)%nat |}.
Fixpoint hex_loop (upper : bool) (oOut : nat) (input : bytes) (outbuf : Buffer) : Buffer :=
  match input with
  | [] => outbuf
  | pInput :: input => hex_loop upper (oOut + 2) input (sprintf oOut (hex2 upper pInput) outbuf)
  end.
(** [output], and whether the buffer was overrun. *)
Definition hex_str (upper : bool) (input : bytes) : bytes * bool :=
  match input with
  | [] => ([], false)
  | _ =>
      let b := hex_loop upper 0 input {| mem := replicate (2 * length input) NUL; overrun := false |} in
      (mem b, overrun b)
  end.
Definition stringToHexStr : bytes → bytes * bool := hex_str true.
Definition stringTohexStr : bytes → bytes * bool := hex_str false.

Section md5.
Variable MD5 : bytes → bytes.
Definition md5Encrpty (input : bytes) : bytes := MD5 input.
Definition stringMd5ToHexStr (input : bytes) : bytes * bool := stringToHexStr (md5Encrpty input).
Definition stringMd5TohexStr (input : bytes) : bytes * bool := stringTohexStr (md5Encrpty input).
End md5.

(** ** The text *)

Definition hex (upper : bool) (input : bytes) : bytes := concat (hex2 upper <$> input).
Lemma length_hex u s : length (hex u s) = (2 * length s)%nat.
Proof. unfold hex. induction s as [|b s IH]; cbn in *; lia. Qed.

(** One byte: its digits are in the buffer, and the terminator is behind them. *)
Lemma sprintf_run u b n k buf :
  length (mem buf) = (2 * n + 2 + k)%nat →
  let buf' := sprintf (2 * n) (hex2 u b) buf in
  length (mem buf') = length (mem buf) ∧ take (2 * S n) (mem buf') = take (2 * n) (mem buf) ++ hex2 u b ∧
  overrun buf' = overrun buf || bool_decide (k = 0%nat).
Proof.
  intros Hl. cbv zeta. unfold sprintf. cbn [mem overrun]. set (t := hex2 u b). assert (Ht : length t = 2%nat) by done.
  assert (Hm : length (memcpy (2 * n) (t ++ [NUL]) (mem buf)) = (2 * n + 3 + (k - 1))%nat).
  { unfold memcpy. rewrite !length_app, length_take, length_drop, Ht. cbn [length]. lia. }
  split_and!.
  - rewrite length_take, Hm, Hl. lia.
  - rewrite take_take, Hl, Nat.min_l by lia. unfold memcpy.
    rewrite app_assoc, (app_assoc _ t), <- (app_assoc _ [NUL]). apply take_app_length'. rewrite length_app, length_take, Hl, Ht. lia.
  - f_equal. rewrite Ht, Hl. case_bool_decide; [apply Nat.ltb_lt|apply Nat.ltb_ge]; lia.
Qed.
Lemma hex_loop_run u input buf n :
  length (mem buf) = (2 * n + 2 * length input)%nat →
  mem (hex_loop u (2 * n) input buf) = take (2 * n) (mem buf) ++ hex u input ∧
  overrun (hex_loop u (2 * n) input buf) = overrun buf || bool_decide (input ≠ []).
Proof.
  revert buf n. induction input as [|b input IH]; intros buf n Hl.
  - cbn [hex_loop length] in *. unfold hex. cbn. by rewrite app_nil_r, take_ge, orb_false_r by lia.
  - cbn [hex_loop]. replace (2 * n + 2)%nat with (2 * S n)%nat by lia. cbn [length] in Hl.
    destruct (sprintf_run u b n (2 * length input) buf) as (E1 & E2 & E3); [lia|]. cbv zeta in *.
    destruct (IH (sprintf (2 * n) (hex2 u b) buf) (S n)) as [-> ->]; [lia|]. rewrite E2, E3. split; [by rewrite <- app_assoc|].
    rewrite <- orb_assoc. f_equal. rewrite (bool_decide_true (b :: input ≠ [])) by done. destruct input; [done|]. by rewrite orb_true_r.
Qed.
(** The text is the right one; the terminator of the last byte is written behind the buffer. *)
Lemma hex_str_run u input : hex_str u input = (hex u input, bool_decide (input ≠ [])).
Proof.
  unfold hex_str. destruct input as [|b input]; [done|]. set (s := b :: input). set (b0 := Build_Buffer _ _).
  destruct (hex_loop_run u s b0 0) as [E1 E2]; [unfold b0; cbn [mem]; by rewrite length_replicate|]. cbn [Nat.mul take app] in E1, E2.
  f_equal; [exact E1|exact E2].
Qed.

(** Different bytes have different texts: the text can be read back. *)
Definition unhex_digit (b : byte) : Z := let c := uchar b in if c <? 58 then c - 48 else if c <? 71 then c - 55 else c - 87.
Fixpoint unhex (s : bytes) : bytes :=
  match s with
  | a :: b :: s => to_byte (unhex_digit a * 16 + unhex_digit b) :: unhex s
  | _ => []
  end.
Lemma unhex_hex_digit u d : 0 <= d < 16 → unhex_digit (hex_digit u d) = d.
Proof.
  intros Hd. unfold unhex_digit, hex_digit. destruct (Z.ltb_spec d 10).
  - rewrite to_byte_small by lia. destruct (Z.ltb_spec (48 + d) 58); lia.
  - destruct u; rewrite to_byte_small by lia; repeat case_match; lia.
Qed.
Lemma unhex_hex u s : unhex (hex u s) = s.
Proof.
  induction s as [|b s IH]; [done|]. unfold hex in *. cbn. pose proof (uchar_range b). rewrite IH, !unhex_hex_digit by dlia. f_equal.
  rewrite <- (to_byte_uchar b) at 3. f_equal. dlia.
Qed.
(** The text of a digest has 32 digits, and is that of no other digest. *)
Lemma digest_text MD5 u input : (∀ x, length (MD5 x) = 16%nat) →
  let '(text, over) := hex_str u (md5Encrpty MD5 input) in length text = 32%nat ∧ unhex text = MD5 input ∧ over = true.
Proof.
  intros Hl. rewrite hex_str_run, length_hex, unhex_hex. unfold md5Encrpty. rewrite Hl. split_and!; [done..|].
  apply bool_decide_true. intros E. by specialize (Hl input); rewrite E in Hl.
Qed.
Lemma hex_run : stringToHexStr [to_byte 0; to_byte 171; to_byte 255] = (lit "00ABFF", true) ∧ stringTohexStr (lit "k") = (lit "6b", true).
Proof. split; reflexivity. Qed.
End Digest.
