(* ===== verification/RedisSync.v ===== *)
(** * The synchronous Redis client ([src/redisSync/redisClient.cpp])

    One connection over hiredis, which is the class [HiredisSync]. Contexts are numbered in the
    order in which they are made; the use of one that was freed is undefined ([None]). *)

From S2P Require Import Prelude CLib Incommon ClusterData ClusterClient.
Import ClusterData(Reply, r_type, r_str, Connected(..), REDIS_REPLY_ERROR).
Import ClusterClient(c_str, strcasecmp).

(** The timeout is a [struct timeval]; a command is a format with its strings. *)
Class HiredisSync := {
  Net : Type;
  redisConnectWithTimeout : bytes → Z → Z * Z → Net → Connected * Net;
  redisCommand : bytes → list bytes → Net → option Reply * Net }.

Module RedisSync.

Definition REDIS_SYNC_PARAMETER_ERROR : Z := -4000.
Definition REDIS_SYNC_DISCONNECT_ERROR : Z := -4001.
Definition REDIS_SYNC_TIMEOUT_ERROR : Z := -4002.
Definition REDIS_SYNC_PASS_ERROR : Z := -4003.

Record redisClient := {
  isConn : bool; redisPort : Z; timeoutMs : Z; redisHost : bytes; redisPass : bytes; context_ : option nat }.
#[export] Instance eta_redisClient : Eta redisClient := λ r, {|
  isConn := isConn r; redisPort := redisPort r; timeoutMs := timeoutMs r; redisHost := redisHost r;
  redisPass := redisPass r; context_ := context_ r |}.
Definition redisClient_new : redisClient :=
  {| isConn := false; redisPort := 0; timeoutMs := 0; redisHost := []; redisPass := []; context_ := None |}.

Section sync.
Context {HS : HiredisSync}.

(** The object, the contexts that are not freed, how many were made, and what is outside. *)
Record World := { self : redisClient; alive : gset nat; made : nat; net : Net }.
#[export] Instance eta_World : Eta World := λ r, {| self := self r; alive := alive r; made := made r; net := net r |}.
Abbreviation Op := (Op World).

Definition World_new (n : Net) : World := {| self := redisClient_new; alive := ∅; made := 0; net := n |}.
Definition set_self (f : redisClient → redisClient) : Op () := op_mod (λ w, w <| self ::= f |>).
Definition call {A} (f : Net → A * Net) : Op A := λ w, let '(a, n) := f (net w) in Some (a, w <| net := n |>).

Definition redisFree (c : nat) : Op () :=
  _ ← op_find (λ w, if decide (c ∈ alive w) then Some () else None);
  op_mod (λ w, w <| alive ::= λ s, s ∖ {[c]} |>).
(** The context is dereferenced. *)
Definition command (fmt : bytes) (args : list bytes) : Op (option Reply) :=
  c ← op_find (λ w, context_ (self w));
  _ ← op_find (λ w, if decide (c ∈ alive w) then Some () else None);
  call (redisCommand fmt args).

Definition disConnect : Op () :=
  c ← op_get (λ w, context_ (self w));
  _ ← match c with Some c => _ ← redisFree c; set_self (λ s, s <| context_ := None |>) | None => mret () end;
  set_self (λ s, s <| isConn := false |>).

Definition auth : Op Z :=
  pass ← op_get (λ w, redisPass (self w));
  reply ← command (lit "AUTH %s") [c_str pass];
  mret (match reply with
  | None => REDIS_SYNC_DISCONNECT_ERROR
  | Some r =>
      match r_str r with
      | Some s => if strcasecmp s (lit "OK") then 0 else REDIS_SYNC_DISCONNECT_ERROR
      | None => 0
      end
  end).

(** A context whose [err] is set is freed, and stays in the object. *)
Definition new_context (host : bytes) (port : Z) (timeout : Z * Z) : Op bool :=
  r ← call (redisConnectWithTimeout (c_str host) port timeout);
  match r with
  | NoContext => _ ← set_self (λ s, s <| context_ := None |>); mret false
  | Failed _ =>
      c ← op_get made; _ ← op_mod (λ w, w <| made ::= S |> <| alive ::= λ s, {[c]} ∪ s |>);
      _ ← set_self (λ s, s <| context_ := Some c |>);
      _ ← redisFree c; mret false
  | Up =>
      c ← op_get made; _ ← op_mod (λ w, w <| made ::= S |> <| alive ::= λ s, {[c]} ∪ s |>);
      _ ← set_self (λ s, s <| context_ := Some c |>); mret true
  end.

Definition connect (port : Z) (host : bytes) (outMs : Z) (pass : bytes) : Op Z :=
  if decide (host = [] ∨ port = 0) then mret REDIS_SYNC_PARAMETER_ERROR
  else
    _ ← set_self (λ s, s <| timeoutMs := outMs |> <| redisPort := port |> <| redisHost := host |>);
    _ ← (if decide (pass ≠ []) then set_self (λ s, s <| redisPass := pass |>) else mret ());
    ok ← new_context host port (Z.quot outMs 1000, Z.rem outMs 1000 * 1000);
    if negb ok then mret REDIS_SYNC_DISCONNECT_ERROR
    else
      a ← (if decide (pass ≠ []) then auth else mret 0);
      if a <? 0 then _ ← disConnect; mret REDIS_SYNC_PASS_ERROR
      else _ ← set_self (λ s, s <| isConn := true |>); mret 0.

Definition ping : Op Z :=
  conn ← op_get (λ w, isConn (self w));
  if negb conn then mret REDIS_SYNC_DISCONNECT_ERROR
  else
    reply ← command (lit "PING") [];
    mret (match reply with
    | None => REDIS_SYNC_DISCONNECT_ERROR
    | Some r =>
        match r_str r with
        | Some s => if strcasecmp s (lit "PONG") then 0 else REDIS_SYNC_DISCONNECT_ERROR
        | None => 0
        end
    end).
(** [~redisClient] *)
Definition delete : Op () := disConnect.

(** ** The context *)

(** The context of the object is the only one that is not freed, and a connection has one. *)
Record sound (w : World) : Prop := {
  s_alive : alive w = match context_ (self w) with Some c => {[c]} | None => ∅ end;
  s_conn : isConn (self w) = true → is_Some (context_ (self w)) }.
Lemma sound_new n : sound (World_new n).
Proof. by split. Qed.

Lemma command_sound fmt args w :
  sound w → is_Some (context_ (self w)) → ∃ r n, command fmt args w = Some (r, w <| net := n |>).
Proof.
  intros [Ha _] [c Hc]. unfold command. rewrite op_bind_find, Hc, op_bind_find. rewrite Hc in Ha.
  rewrite Ha, decide_True by set_solver. unfold call. destruct (redisCommand fmt args (net w)) as [r n]. by exists r, n.
Qed.
(** Closing, and a ping, always come to an end. *)
Lemma disConnect_sound w : sound w → ∃ w', disConnect w = Some ((), w') ∧ sound w' ∧ alive w' = ∅ ∧ net w' = net w.
Proof.
  intros [Ha _]. unfold disConnect, set_self. rewrite op_bind_get. destruct (context_ (self w)) as [c|] eqn:Hc.
  - unfold redisFree. eexists. split.
    + unfold mbind, Op_bind, op_find, op_mod. rewrite Ha, decide_True by set_solver. reflexivity.
    + cbn. split_and!; [split; cbn; [set_solver|done]|set_solver|done].
  - eexists. split; [reflexivity|]. cbn. split_and!; [split; cbn; [by rewrite Hc|done]|done|done].
Qed.
Lemma ping_sound w : sound w → ∃ r n, ping w = Some (r, w <| net := n |>) ∧ (isConn (self w) = false → r = REDIS_SYNC_DISCONNECT_ERROR).
Proof.
  intros Hw. unfold ping. rewrite op_bind_get. destruct (isConn (self w)) eqn:Hc; cbn [negb].
  - destruct (command_sound (lit "PING") [] w Hw) as (r & n & E); [by apply s_conn|]. rewrite op_bind_run, E. do 2 eexists. split; [reflexivity|done].
  - exists REDIS_SYNC_DISCONNECT_ERROR, (net w). split; [by destruct w|done].
Qed.
Lemma auth_sound w : sound w → is_Some (context_ (self w)) → ∃ r n, auth w = Some (r, w <| net := n |>) ∧ r <= 0.
Proof.
  intros Hw Hc. unfold auth. rewrite op_bind_get. destruct (command_sound (lit "AUTH %s") [c_str (redisPass (self w))] w Hw Hc) as (r & n & E).
  rewrite op_bind_run, E. do 2 eexists. split; [reflexivity|]. unfold REDIS_SYNC_DISCONNECT_ERROR. repeat case_match; lia.
Qed.

(** Connecting an object without context, when the library gives a working context or none: it
    answers 0 just when the object is connected, and otherwise no context is left over. *)
Lemma connect_sound port host outMs pass w :
  sound w → context_ (self w) = None →
  (∀ e, (redisConnectWithTimeout (c_str host) port (Z.quot outMs 1000, Z.rem outMs 1000 * 1000) (net w)).1 ≠ Failed e) →
  ∃ r w', connect port host outMs pass w = Some (r, w') ∧ sound w' ∧ (r = 0 ↔ isConn (self w') = true) ∧ (r ≠ 0 → alive w' = ∅).
Proof.
  intros [Ha Hi] Hc Hf. rewrite Hc in Ha. assert (Hn : isConn (self w) = false) by (destruct (isConn (self w)) eqn:Ei; [destruct (Hi eq_refl); congruence|done]).
  assert (Hrefused : ∀ r w', self w' = self w ∨ isConn (self w') = false ∧ context_ (self w') = None → alive w' = ∅ → r ≠ 0 →
    sound w' ∧ (r = 0 ↔ isConn (self w') = true) ∧ (r ≠ 0 → alive w' = ∅)).
  { intros r w' Hs Ha' Hr. destruct Hs as [Hs|[Hs1 Hs2]].
    - rewrite Hs, Hn. split_and!; [split; rewrite Hs, ?Hc, ?Hn; done|naive_solver|done].
    - rewrite Hs1. split_and!; [split; rewrite ?Hs1, ?Hs2; done|naive_solver|done]. }
  unfold connect. case_decide.
  { do 2 eexists. split; [reflexivity|]. apply Hrefused; [by left|done|done]. }
  rewrite op_bind_run. cbn [set_self op_mod]. set (w1 := w <| self ::= _ |>).
  assert (E1 : alive w1 = ∅ ∧ net w1 = net w ∧ context_ (self w1) = None ∧ isConn (self w1) = false) by done. clearbody w1.
  rewrite op_bind_run. assert (∃ w2, (if decide (pass ≠ []) then set_self (λ s, s <| redisPass := pass |>) else mret ()) w1 = Some ((), w2) ∧
    alive w2 = ∅ ∧ net w2 = net w ∧ context_ (self w2) = None ∧ isConn (self w2) = false) as (w2 & -> & A2 & N2 & C2 & I2).
  { case_decide; eexists; (split; [reflexivity|]); naive_solver. }
  clear E1 w1. unfold new_context. rewrite op_bind_run, op_bind_run. unfold call at 1. rewrite N2.
  destruct (redisConnectWithTimeout _ _ _ _) as [[|e|] n] eqn:Er; [|by destruct (Hf e)|].
  { do 2 eexists. split; [reflexivity|]. apply Hrefused; [right|..]; done. }
  rewrite op_bind_get. cbn [made set_with]. rewrite op_bind_run. cbn [op_mod]. rewrite op_bind_run. cbn [set_self op_mod mret Op_ret negb].
  set (c := made w2). set (w3 := set_with self _ _).
  assert (H3 : sound w3 ∧ context_ (self w3) = Some c ∧ isConn (self w3) = false ∧ alive w3 = {[c]}).
  { unfold w3. split_and!; [split|..]; cbn; rewrite ?A2, ?I2; try done; set_solver. }
  clearbody w3. destruct H3 as (S3 & C3 & I3 & A3). rewrite op_bind_run.
  assert (∃ r n', (if decide (pass ≠ []) then auth else mret 0) w3 = Some (r, w3 <| net := n' |>) ∧ r <= 0) as (r & n' & -> & Hr).
  { case_decide; [apply auth_sound; [done|by rewrite C3]|]. exists 0, (net w3). split; [by destruct w3|done]. }
  set (w4 := w3 <| net := n' |>). assert (S4 : sound w4) by (destruct S3; by split).
  destruct (Z.ltb_spec r 0).
  - destruct (disConnect_sound w4 S4) as (w' & E & S' & A' & _). rewrite op_bind_run, E. do 2 eexists. split; [reflexivity|].
    split_and!; [done| |done]. split; [done|]. intros [c' Hc']%S'. exfalso. destruct S' as [Ha' _]. rewrite Hc', A' in Ha'. set_solver.
  - do 2 eexists. split; [reflexivity|]. split_and!; [|done|done]. destruct S4 as [Ha4 _]. split; cbn; [exact Ha4|by rewrite C3].
Qed.
End sync.

(** ** Runs: each connection attempt has the outcome that is listed *)

#[export] Instance scripted : HiredisSync := {|
  Net := list Connected;
  redisConnectWithTimeout _ _ _ l := match l with [] => (NoContext, []) | r :: l => (r, l) end;
  redisCommand fmt _ l := (Some {| r_type := 5; ClusterData.r_integer := 0; r_str := Some (if decide (fmt = lit "PING") then lit "pong" else lit "OK"); ClusterData.r_element := [] |}, l) |}.
Definition start (l : list Connected) : World := World_new l.
Definition dial : Op World Z := connect 6379 (lit "127.0.0.1") 1500 (lit "secret").

Lemma connected_run : (r ← dial; p ← ping; _ ← delete; left ← op_get alive; mret (r, p, left)) (start [Up]) = Some ((0, 0, ∅), {|
  self := {| isConn := false; redisPort := 6379; timeoutMs := 1500; redisHost := lit "127.0.0.1"; redisPass := lit "secret"; context_ := None |};
  alive := ∅; made := 1; net := [] |}).
Proof. vm_compute. reflexivity. Qed.
(** A failed attempt leaves the freed context in the object: the destructor frees it again, and
    an object that was connected before uses it for the next ping. *)
Lemma failed_attempt_undefined e :
  (_ ← dial; delete) (start [Failed e]) = None ∧ (_ ← dial; _ ← dial; ping) (start [Up; Failed e]) = None.
Proof. split; vm_compute; reflexivity. Qed.
(** Connecting again without closing leaks the first context. *)
Lemma reconnect_leaks : (alive <$> (snd <$> ((_ ← dial; _ ← dial; delete) (start [Up; Up])))) = Some {[0%nat]}.
Proof. vm_compute. reflexivity. Qed.
End RedisSync.
