(* ===== verification/HttpSockets.v ===== *)
(** * Sockets and the timer of the HTTP client ([src/curlHttpCli/src/AsyncCurlHttp.cpp])

    libcurl says which sockets to watch and when to call again, through [sockFdcb] and
    [multiTimerCb]; the IO thread keeps an event of libevent for each socket, in a [SockInfo]
    that libcurl holds for it. The use of a freed [SockInfo] is undefined ([None]). *)

From S2P Require Import Prelude.

Module HttpSockets.

(** [curl/multi.h] and [event2/event.h] *)
Definition CURL_POLL_IN : Z := 1.
Definition CURL_POLL_OUT : Z := 2.
Definition CURL_POLL_REMOVE : Z := 4.
Definition CURL_CSELECT_IN : Z := 1.
Definition CURL_CSELECT_OUT : Z := 2.
Definition EV_READ : Z := 2.
Definition EV_WRITE : Z := 4.
Definition EV_PERSIST : Z := 16.

Record SockInfo := { sockfd : Z; easy : Z; action : Z }.
Definition SockInfo_zero : SockInfo := {| sockfd := 0; easy := 0; action := 0 |}.

(** The allocated [SockInfo]s, [None] when freed; the pointer that libcurl keeps for a socket
    ([curl_multi_assign]); the events that are added, by the [SockInfo] they are in, with their
    descriptor and kind; the timer in microseconds, and how many transfers run. *)
Record Sockets := {
  heap : list (option SockInfo); assigned : gmap Z nat; events : gmap nat (Z * Z); timer : option Z; still_running : Z }.
#[export] Instance eta_Sockets : Eta Sockets := λ r, {|
  heap := heap r; assigned := assigned r; events := events r; timer := timer r; still_running := still_running r |}.
Definition Sockets_new : Sockets := {| heap := []; assigned := ∅; events := ∅; timer := None; still_running := 0 |}.
Abbreviation Op := (Op Sockets).

Definition bit (z b : Z) : bool := negb (Z.land z b =? 0).
Definition kind (act : Z) : Z :=
  Z.lor (Z.lor (if bit act CURL_POLL_IN then EV_READ else 0) (if bit act CURL_POLL_OUT then EV_WRITE else 0)) EV_PERSIST.

Definition setsock (f : nat) (s e act : Z) : Op () :=
  _ ← op_find (λ w, default None (heap w !! f));
  _ ← op_mod (λ w, w <| heap ::= <[f := Some {| sockfd := s; easy := e; action := act |}]> |> <| events ::= delete f |>);
  op_mod (λ w, w <| events ::= <[f := (s, kind act)]> |>).

(** [ok]: whether [malloc] gives memory. *)
Definition addsock (ok : bool) (s easy action : Z) : Op () :=
  if ok then
    fdp ← op_get (λ w, length (heap w));
    _ ← op_mod (λ w, w <| heap ::= (.++ [Some SockInfo_zero]) |>);
    _ ← setsock fdp s easy action;
    op_mod (λ w, w <| assigned ::= <[s := fdp]> |>)
  else mret ().
Definition remsock (f : option nat) : Op () :=
  match f with
  | Some f =>
      _ ← op_find (λ w, default None (heap w !! f));
      op_mod (λ w, w <| events ::= delete f |> <| heap ::= <[f := None]> |>)
  | None => mret ()
  end.
Definition curlSockFdCb (ok : bool) (e s what : Z) (sockp : option nat) : Op () :=
  if what =? CURL_POLL_REMOVE then remsock sockp
  else match sockp with
  | None => addsock ok s e what
  | Some fdp => setsock fdp s e what
  end.

(** libcurl calls it with the pointer it has for the socket, and forgets that when the socket
    is removed. *)
Definition sockFdcb (ok : bool) (e s what : Z) : Op () :=
  sockp ← op_get (λ w, assigned w !! s);
  _ ← curlSockFdCb ok e s what sockp;
  op_mod (λ w, if what =? CURL_POLL_REMOVE then w <| assigned ::= delete s |> else w).

(** The bits that are passed on when an event of the socket has come. *)
Definition event_action (kind : Z) : Z :=
  Z.lor (if bit kind EV_READ then CURL_CSELECT_IN else 0) (if bit kind EV_WRITE then CURL_CSELECT_OUT else 0).
(** [curl_multi_socket_action] leaves the number of running transfers. *)
Definition curlEventFdcb (running : Z) : Op () :=
  op_mod (λ w, let w := w <| still_running := running |> in if running <=? 0 then w <| timer := None |> else w).

(** [struct timeval] *)
Definition timeval (timeout_ms : Z) : Z * Z := (Z.quot timeout_ms 1000, Z.rem timeout_ms 1000 * 1000).
Definition culrMultiTimerCb (timeout_ms running : Z) : Op () :=
  op_mod (λ w,
    if timeout_ms =? 0 then w <| still_running := running |>
    else if timeout_ms =? -1 then w <| timer := None |>
    else let '(sec, usec) := timeval timeout_ms in w <| timer := Some (sec * 1000000 + usec) |>).

(** ** Just the sockets that libcurl has asked for are watched *)

(** What libcurl wants: the last action of each socket that is not removed. *)
Definition ask (wanted : gmap Z Z) (c : Z * Z * Z) : gmap Z Z :=
  let '(_, s, what) := c in if what =? CURL_POLL_REMOVE then delete s wanted else <[s := what]> wanted.
Definition run (calls : list (Z * Z * Z)) : Op () := op_each (λ '(e, s, what), sockFdcb true e s what) calls.

Record watching (wanted : gmap Z Z) (w : Sockets) : Prop := {
  w_dom s : is_Some (wanted !! s) ↔ is_Some (assigned w !! s);
  w_live f : is_Some (default None (heap w !! f)) ↔ ∃ s, assigned w !! s = Some f;
  w_event s f act : assigned w !! s = Some f → wanted !! s = Some act → events w !! f = Some (s, kind act);
  w_events f p : events w !! f = Some p → ∃ s, assigned w !! s = Some f }.
Lemma watching_new : watching ∅ Sockets_new.
Proof. split; cbn; intros *; rewrite ?lookup_empty; try done. split; [by intros []|by intros [? ?]]. Qed.

(** Different sockets have different [SockInfo]s. *)
Lemma watching_inj wanted w s s' f : watching wanted w → assigned w !! s = Some f → assigned w !! s' = Some f → s = s'.
Proof.
  intros Hw H1 H2. destruct (proj2 (w_dom _ _ Hw s) ltac:(by eexists)) as [a Ha]. destruct (proj2 (w_dom _ _ Hw s') ltac:(by eexists)) as [a' Ha'].
  pose proof (w_event _ _ Hw _ _ _ H1 Ha). pose proof (w_event _ _ Hw _ _ _ H2 Ha'). congruence.
Qed.
Lemma heap_insert (l : list (option SockInfo)) f g (o : option SockInfo) : is_Some (default None (l !! f)) →
  default None (<[f := o]> l !! g) = if decide (g = f) then o else default None (l !! g).
Proof.
  intros [x Hx]. destruct (decide (g = f)) as [->|Hn]; [|by rewrite list_lookup_insert_ne].
  rewrite list_lookup_insert_eq; [done|]. destruct (l !! f) eqn:E; [by eapply lookup_lt_Some|done].
Qed.
Lemma watching_remove wanted w s f :
  watching wanted w → assigned w !! s = Some f →
  watching (delete s wanted) (w <| events ::= delete f |> <| heap ::= <[f := None]> |> <| assigned ::= delete s |>).
Proof.
  intros Hw Hs. pose proof (proj2 (w_live _ _ Hw f) (ex_intro _ s Hs)) as Hf. split; cbn.
  - intros s'. rewrite !lookup_delete. case_decide; [by split; intros []|apply Hw].
  - intros g. rewrite heap_insert by done. case_decide as Hg.
    + subst g. split; [by intros []|]. intros (s' & Hs'). rewrite lookup_delete in Hs'. case_decide; [done|].
      by rewrite (watching_inj _ _ _ _ _ Hw Hs Hs') in *.
    + rewrite (w_live _ _ Hw). split; intros (s' & Hs'); exists s'; rewrite lookup_delete in *; case_decide; subst; naive_solver.
  - intros s' g act. rewrite !lookup_delete. case_decide as Hd; [done|]. intros H1 H2. case_decide; [subst g|by eapply w_event].
    by destruct (Hd (watching_inj _ _ _ _ _ Hw Hs H1)).
  - intros g p. rewrite lookup_delete. case_decide as Hg; [done|]. intros (s' & Hs')%(w_events _ _ Hw). exists s'.
    rewrite lookup_delete. case_decide; [congruence|done].
Qed.
Lemma watching_set wanted w s f e act :
  watching wanted w → assigned w !! s = Some f →
  watching (<[s := act]> wanted) (w <| heap ::= <[f := Some {| sockfd := s; easy := e; action := act |}]> |> <| events ::= delete f |>
    <| events ::= <[f := (s, kind act)]> |>).
Proof.
  intros Hw Hs. pose proof (proj2 (w_live _ _ Hw f) (ex_intro _ s Hs)) as Hf. split; cbn.
  - intros s'. rewrite lookup_insert. case_decide; [subst s'; rewrite Hs; by split; eexists|apply Hw].
  - intros g. rewrite heap_insert by done. case_decide as Hg; [subst g; split; [by exists s|by eexists]|apply Hw].
  - intros s' g act' Hg. rewrite lookup_insert. case_decide as Hd.
    + subst s'. rewrite Hs in Hg. injection Hg as <-. intros [= <-]. by rewrite lookup_insert_eq.
    + intros Ha. rewrite lookup_insert_ne, lookup_delete_ne by (intros ->; apply Hd, (watching_inj _ _ _ _ _ Hw Hs Hg)). by eapply w_event.
  - intros g p. rewrite lookup_insert. case_decide as Hg; [subst g; by exists s|]. rewrite lookup_delete_ne by done. apply Hw.
Qed.
Lemma watching_add wanted w s e act :
  watching wanted w → assigned w !! s = None →
  let f := length (heap w) in
  watching (<[s := act]> wanted) (w <| heap ::= (.++ [Some SockInfo_zero]) |> <| heap ::= <[f := Some {| sockfd := s; easy := e; action := act |}]> |>
    <| events ::= delete f |> <| events ::= <[f := (s, kind act)]> |> <| assigned ::= <[s := f]> |>).
Proof.
  intros Hw Hs f. assert (Hfresh : ∀ s', assigned w !! s' ≠ Some f).
  { intros s' H. destruct (proj2 (w_live _ _ Hw f) (ex_intro _ s' H)) as [x Hx]. by rewrite lookup_ge_None_2 in Hx by done. }
  assert (Hlast : (heap w ++ [Some SockInfo_zero]) !! f = Some (Some SockInfo_zero)) by (by apply list_lookup_middle). split; cbn.
  - intros s'. rewrite !lookup_insert. case_decide; [by split; eexists|apply Hw].
  - intros g. rewrite heap_insert by (rewrite Hlast; by eexists). case_decide as Hg.
    + subst g. split; [|by eexists]. intros _. exists s. by rewrite lookup_insert_eq.
    + assert (E : default None ((heap w ++ [Some SockInfo_zero]) !! g) = default None (heap w !! g)).
      { destruct (decide (g < f)%nat); [by rewrite lookup_app_l by done|]. rewrite !lookup_ge_None_2; [done|unfold f in *; lia|].
        rewrite length_app. unfold f in *. cbn. lia. }
      rewrite E, (w_live _ _ Hw). split; intros (s' & Hs'); exists s'; rewrite lookup_insert in *; case_decide; subst; naive_solver.
  - intros s' g act'. rewrite !lookup_insert. case_decide as Hd; [intros [= <-] [= <-]; subst; by rewrite decide_True|]. intros H1 H2.
    assert (g ≠ f) by (intros ->; by apply (Hfresh s')). rewrite decide_False, lookup_delete_ne by done. by eapply w_event.
  - intros g p. rewrite lookup_insert. case_decide as Hg; [subst g; exists s; by rewrite lookup_insert_eq|].
    rewrite lookup_delete_ne by done. intros (s' & Hs')%(w_events _ _ Hw). exists s'. rewrite lookup_insert_ne; [done|congruence].
Qed.
Lemma sockFdcb_watching wanted w e s what :
  watching wanted w → ∃ w', sockFdcb true e s what w = Some ((), w') ∧ watching (ask wanted (e, s, what)) w' ∧
    timer w' = timer w ∧ still_running w' = still_running w.
Proof.
  intros Hw. unfold sockFdcb. rewrite op_bind_get. unfold curlSockFdCb, ask. destruct (Z.eqb_spec what CURL_POLL_REMOVE) as [->|Hn].
  - destruct (assigned w !! s) as [f|] eqn:Ef.
    + destruct (proj2 (w_live _ _ Hw f) (ex_intro _ s Ef)) as [x Hx]. eexists. split.
      { unfold remsock. rewrite op_bind_run, op_bind_find, Hx. reflexivity. }
      split; [by apply watching_remove|done].
    + eexists. split; [reflexivity|]. split; [|done]. assert (E : delete s (assigned w) = assigned w) by (by apply delete_id).
      assert (Ew : wanted !! s = None) by (apply eq_None_not_Some; intros H%(w_dom _ _ Hw); rewrite Ef in H; by destruct H).
      rewrite (delete_id wanted s Ew). destruct Hw. split; cbn; rewrite ?E; done.
  - destruct (assigned w !! s) as [f|] eqn:Ef.
    + destruct (proj2 (w_live _ _ Hw f) (ex_intro _ s Ef)) as [x Hx]. eexists. split.
      { unfold setsock. rewrite op_bind_run, op_bind_find, Hx. reflexivity. }
      split; [by apply watching_set|done].
    + eexists. split.
      { unfold addsock, setsock. rewrite op_bind_run, op_bind_get, op_bind_mod, op_bind_run, op_bind_find. cbn [heap set_with].
        rewrite list_lookup_middle by done. reflexivity. }
      split; [by apply (watching_add wanted w s e what)|done].
Qed.

(** Whatever libcurl asks for, in any order: no freed [SockInfo] is used, each socket that is
    wanted has one event, of the kind that was asked for last, there are no other events,
    and as many [SockInfo]s are allocated as there are sockets. *)
Lemma sockets_watched calls :
  ∃ w, run calls Sockets_new = Some ((), w) ∧
    let wanted := foldl ask ∅ calls in
    (∀ s k, (∃ f, events w !! f = Some (s, k)) ↔ ∃ act, wanted !! s = Some act ∧ k = kind act) ∧
    (∀ f g s k k', events w !! f = Some (s, k) → events w !! g = Some (s, k') → f = g) ∧
    (∀ f, is_Some (default None (heap w !! f)) ↔ is_Some (events w !! f)).
Proof.
  assert (Hrun : ∀ wanted w0, watching wanted w0 → ∃ w, run calls w0 = Some ((), w) ∧ watching (foldl ask wanted calls) w).
  { induction calls as [|[[e s] what] calls IH]; intros wanted w0 Hw; [by eexists|].
    destruct (sockFdcb_watching wanted w0 e s what Hw) as (w1 & E1 & Hw1 & _). destruct (IH _ _ Hw1) as (w & E & Hw').
    exists w. split; [|done]. unfold run in *. cbn [op_each]. by rewrite op_bind_run, E1. }
  destruct (Hrun ∅ Sockets_new watching_new) as (w & E & Hw). exists w. split; [done|]. cbv zeta. clear Hrun E.
  assert (Hev : ∀ f s k, events w !! f = Some (s, k) → assigned w !! s = Some f ∧ ∃ act, foldl ask ∅ calls !! s = Some act ∧ k = kind act).
  { intros f s k Hf. destruct (w_events _ _ Hw _ _ Hf) as (s' & Hs'). destruct (proj2 (w_dom _ _ Hw s') ltac:(by eexists)) as [act Ha].
    pose proof (w_event _ _ Hw _ _ _ Hs' Ha) as H. rewrite Hf in H. injection H as -> ->. eauto. }
  split_and!.
  - intros s k. split; [by intros (f & [_ ?]%Hev)|]. intros (act & Ha & ->).
    destruct (proj1 (w_dom _ _ Hw s) ltac:(by eexists)) as [f Hf]. exists f. by eapply w_event.
  - intros f g s k k' [H1 _]%Hev [H2 _]%Hev. congruence.
  - intros f. rewrite (w_live _ _ Hw). split.
    + intros (s & Hs). destruct (proj2 (w_dom _ _ Hw s) ltac:(by eexists)) as [act Ha]. eexists. by eapply w_event.
    + intros [p Hp]. by eapply w_events.
Qed.
(** The kind of an event has the bits of the action, and reports them. *)
Lemma kind_action act : 0 <= act < 4 → event_action (kind act) = act.
Proof. intros H. assert (act = 0 ∨ act = 1 ∨ act = 2 ∨ act = 3) as [->|[->|[->| ->]]] by lia; reflexivity. Qed.
(** The timer is set to the time that was asked for. *)
Lemma timer_set timeout_ms running w :
  0 < timeout_ms → (timer ∘ snd) <$> culrMultiTimerCb timeout_ms running w = Some (Some (timeout_ms * 1000)) ∧
    0 <= (timeval timeout_ms).2 < 1000000.
Proof.
  intros H. unfold culrMultiTimerCb, timeval, op_mod. cbn. destruct (Z.eqb_spec timeout_ms 0); [lia|]. destruct (Z.eqb_spec timeout_ms (-1)); [lia|].
  rewrite Z.quot_div_nonneg, Z.rem_mod_nonneg by lia. split; [|dlia]. cbn. do 2 f_equal. dlia.
Qed.
(** Without memory the socket is not watched, and nobody is told. *)
Lemma unwatched_run : (events ∘ snd) <$> sockFdcb false 1 7 CURL_POLL_IN Sockets_new = Some ∅.
Proof. reflexivity. Qed.
End HttpSockets.
