(* ===== verification/RedisLibevent.v ===== *)
(** * The earlier asynchronous Redis client ([src/redislibevent/RedisAsync.cpp])

    One object with several connections of hiredis, which take commands in turn. Threads call
    [set] and [hmset]; the thread of the event loop runs the callbacks. hiredis keeps what is
    pending on a connection and answers in order; what it decides is an argument. [None]
    is undefined behaviour, or a call that waits. *)

From S2P Require Import Prelude CLib Incommon Atomic ClusterData ClusterClient.
Import ClusterData(Reply, r_type, r_integer, r_str, r_element, e_str, REDIS_REPLY_STRING, REDIS_REPLY_ARRAY,
  REDIS_REPLY_INTEGER, REDIS_REPLY_NIL, REDIS_REPLY_STATUS, REDIS_REPLY_ERROR).
Import ClusterClient(c_str, strcasecmp).

Module RedisLibevent.

(** ** A request and its callbacks; callbacks and user data are numbers *)

Record RedisRequest := {
  seq : Z; priv : Z; retCb_ : option Z; strCb_ : option Z; strVCb_ : option Z }.
(** The three constructors with a callback; the number follows. *)
Definition request_ret (seq opaque cb : Z) : RedisRequest :=
  {| seq := seq; priv := opaque; retCb_ := Some cb; strCb_ := None; strVCb_ := None |}.
Definition request_str (seq opaque cb : Z) : RedisRequest :=
  {| seq := seq; priv := opaque; retCb_ := None; strCb_ := Some cb; strVCb_ := None |}.
Definition request_vec (seq opaque cb : Z) : RedisRequest :=
  {| seq := seq; priv := opaque; retCb_ := None; strCb_ := None; strVCb_ := Some cb |}.

(** The calls of the application. *)
Inductive Call :=
  | ResultCall (cb ret priv : Z) (err : bytes)
  | StrCall (cb : Z) (value : bytes) (priv : Z) (err : bytes)
  | VectorCall (cb : Z) (values : list bytes) (priv : Z) (err : bytes).

Definition respond_ret (r : RedisRequest) (ret : Z) (err : bytes) : option (list Call) :=
  Some (match retCb_ r with Some cb => [ResultCall cb ret (priv r) err] | None => [] end).
(** It tests the other callback; an empty [std::function] throws. *)
Definition respond_str (r : RedisRequest) (value err : bytes) : option (list Call) :=
  match retCb_ r with
  | Some _ => cb ← strCb_ r; Some [StrCall cb value (priv r) err]
  | None => Some []
  end.
Definition respond_vec (r : RedisRequest) (values : list bytes) (err : bytes) : option (list Call) :=
  Some (match strVCb_ r with Some cb => [VectorCall cb values (priv r) err] | None => [] end).

(** [std::string(str, len)]; null has length 0. *)
Definition text (s : option bytes) : bytes := default [] s.
(** What each type of reply is for the three callbacks. *)
Definition result_of (reply : Reply) : option (Z * bytes) :=
  let t := r_type reply in
  if t =? REDIS_REPLY_STRING then
    Some (match r_str reply with
          | Some s => if bool_decide (s ≠ []) && strcasecmp s (lit "OK") then (0, []) else (-1, s)
          | None => (-1, [])
          end)
  else if t =? REDIS_REPLY_INTEGER then Some (r_integer reply, [])
  else if (t =? REDIS_REPLY_ARRAY) || (t =? REDIS_REPLY_STATUS) || (t =? REDIS_REPLY_NIL) then Some (0, [])
  else if t =? REDIS_REPLY_ERROR then Some (-1, text (r_str reply))
  else None.
Definition value_of (reply : Reply) : option (bytes * bytes) :=
  let t := r_type reply in
  if (t =? REDIS_REPLY_STRING) || (t =? REDIS_REPLY_ARRAY) then Some (text (r_str reply), [])
  else if (t =? REDIS_REPLY_INTEGER) || (t =? REDIS_REPLY_STATUS) || (t =? REDIS_REPLY_NIL) then Some ([], [])
  else if t =? REDIS_REPLY_ERROR then Some ([], text (r_str reply))
  else None.
Definition vector_of (reply : Reply) : option (list bytes * bytes) :=
  let t := r_type reply in
  if t =? REDIS_REPLY_STRING then Some ([text (r_str reply)], [])
  else if t =? REDIS_REPLY_ARRAY then Some ((λ e, text (e_str e)) <$> r_element reply, [])
  else if (t =? REDIS_REPLY_INTEGER) || (t =? REDIS_REPLY_STATUS) || (t =? REDIS_REPLY_NIL) then Some ([], [])
  else if t =? REDIS_REPLY_ERROR then Some ([], text (r_str reply))
  else None.
(** The [switch] of [respondCallback]: the three tests of each case, in order. *)
Definition dispatch (r : RedisRequest) (reply : Reply) : option (list Call) :=
  a ← (match retCb_ r, result_of reply with Some _, Some (ret, err) => respond_ret r ret err | _, _ => Some [] end);
  b ← (match strCb_ r, value_of reply with Some _, Some (v, err) => respond_str r v err | _, _ => Some [] end);
  c ← (match strVCb_ r, vector_of reply with Some _, Some (v, err) => respond_vec r v err | _, _ => Some [] end);
  Some (a ++ b ++ c).

(** ** The object and hiredis

    [alive] are the contexts that are not freed, [ups] the connected ones of them, [made] counts them; [pending] is what hiredis
    keeps for a context, oldest first: the request of the callback, [None] without callback.
    [sent] are the commands hiredis took, with their connections, and [called] the calls of the
    application so far. *)
Record World := {
  asyStatus : Z; conInitNum : Z; conSuccNum : Z; lastIndex : Z; host_ : bytes; port_ : Z; conns_ : list nat; seqNum : Z;
  requestNum : Z; requests : list (option RedisRequest); alive : gset nat; ups : gset nat; made : nat; pending : gmap nat (list (option nat));
  sent : list (nat * list bytes); called : list Call }.
#[export] Instance eta_World : Eta World := λ r, {|
  asyStatus := asyStatus r; conInitNum := conInitNum r; conSuccNum := conSuccNum r; lastIndex := lastIndex r; host_ := host_ r;
  port_ := port_ r; conns_ := conns_ r; seqNum := seqNum r; requestNum := requestNum r; requests := requests r; alive := alive r; ups := ups r;
  made := made r; pending := pending r; sent := sent r; called := called r |}.
Definition RedisAsync_new : World := {|
  asyStatus := 0; conInitNum := 0; conSuccNum := 0; lastIndex := 0; host_ := []; port_ := 0; conns_ := []; seqNum := 0;
  requestNum := 0; requests := []; alive := ∅; ups := ∅; made := 0; pending := ∅; sent := []; called := [] |}.
Abbreviation Op := (Op World).

(** [redisAsyncConnect], attached and stored; [false]: [c->err] is set, the context is lost. *)
Definition new_connection (ok : bool) : Op bool :=
  c ← op_get made;
  _ ← op_mod (λ w, w <| made ::= S |> <| alive ::= λ a, {[c]} ∪ a |>);
  if ok then _ ← op_mod (λ w, w <| conns_ ::= (.++ [c]) |>); mret true else mret false.
Fixpoint connect_loop (oks : list bool) : Op Z :=
  match oks with
  | [] => mret 0
  | ok :: oks => r ← new_connection ok; if r : bool then connect_loop oks else mret (-2)
  end.
(** [base]: whether there is an event base; [oks]: what becomes of the [num] connections. *)
Definition RedisConnect (host : bytes) (port : Z) (oks : list bool) (base : bool) : Op Z :=
  let num := Z.of_nat (length oks) in
  if decide (num <= 0 ∨ host = [] ∨ port <= 0) then mret (-1)
  else if negb base then mret (-2)
  else
    _ ← op_mod (λ w, w <| host_ := host |> <| port_ := port |> <| conInitNum := num |>);
    connect_loop oks.

(** [ok]: the status is [REDIS_OK]. Erasing an element and then incrementing its iterator is
    undefined; before that the lost context is freed within its own callback. *)
Definition RedisOnConnection (c : nat) (ok bConn : bool) : Op () :=
  _ ← (if bConn then
         if ok then op_mod (λ w, w <| conSuccNum ::= λ n, s32 (n + 1) |>) else mret ()
       else if ok then
         found ← op_get (λ w, bool_decide (c ∈ conns_ w));
         if found : bool then op_undefined
         else op_mod (λ w, w <| conSuccNum ::= λ n, s32 (n - 1) |>)
       else mret ());
  op_mod (λ w, if (conSuccNum w =? conInitNum w) && (asyStatus w =? 0) then w <| asyStatus := 1 |> else w).
Definition connectCallback (c : nat) (ok : bool) : Op () := RedisOnConnection c ok true.
Definition disconnectCallback (c : nat) (ok : bool) : Op () := RedisOnConnection c ok false.

(** The next connection in turn. *)
Definition next_index : Op () :=
  op_mod (λ w, let l := s32 (lastIndex w + 1) in w <| lastIndex := if conSuccNum w <=? l then 0 else l |>).
(** What [set] and [hmset] share, once the parameters are checked and every connection is up;
    [ok]: hiredis takes the command. A request that it does not take is lost. *)
Definition async_command (cmd : list bytes) (retCb : option Z) (opaque seq : Z) (ok : bool) : Op Z :=
  req ← (match retCb with
         | Some cb => r ← op_get (λ w, length (requests w)); _ ← op_mod (λ w, w <| requests ::= (.++ [Some (request_ret seq opaque cb)]) |>); mret (Some r)
         | None => mret None
         end);
  c ← op_find (λ w, if lastIndex w <? 0 then None else conns_ w !! Z.to_nat (lastIndex w));
  _ ← op_find (λ w, if decide (c ∈ alive w) then Some () else None);
  if negb ok then mret (-1)
  else
    _ ← op_mod (λ w, w <| pending ::= λ p, <[c := default [] (p !! c) ++ [req]]> p |> <| sent ::= (.++ [(c, cmd)]) |>);
    _ ← op_mod (λ w, w <| requestNum ::= λ n, s64 (n + 1) |>);
    _ ← next_index; mret 0.
Definition take_seq : Op Z := s ← op_get seqNum; _ ← op_mod (λ w, w <| seqNum := u32 (s + 1) |>); mret s.
Definition wait_connected : Op () := op_find (λ w, if asyStatus w =? 0 then None else Some ()).
(** [%s] stops at a NUL. *)
Definition set_command (key value : bytes) : list bytes := [lit "SET"; c_str key; c_str value].
Definition hmset_command (key : bytes) (hashMap : list (bytes * bytes)) : list bytes :=
  lit "HMSET" :: key :: concat ((λ '(f, v), [f; v]) <$> hashMap).
Definition set (key value : bytes) (retCb : option Z) (priv : Z) (ok : bool) : Op Z :=
  _ ← wait_connected;
  if decide (key = [] ∨ value = []) then mret (-1) else seq ← take_seq; async_command (set_command key value) retCb priv seq ok.
Definition hmset (key : bytes) (hashMap : list (bytes * bytes)) (retCb : option Z) (priv : Z) (ok : bool) : Op Z :=
  _ ← wait_connected;
  if decide (key = [] ∨ hashMap = []) then mret (-1) else seq ← take_seq; async_command (hmset_command key hashMap) retCb priv seq ok.
Definition get (key : bytes) (strCb priv : Z) : Op Z := mret 0.

(** [respondCallback]; a null reply keeps the request. *)
Definition respondCallback (r : option Reply) (p : nat) : Op () :=
  _ ← op_mod (λ w, w <| requestNum ::= λ n, s64 (n - 1) |>);
  match r with
  | None => mret ()
  | Some reply =>
      req ← op_find (λ w, default None (requests w !! p));
      calls ← op_some (dispatch req reply);
      op_mod (λ w, w <| called ::= (.++ calls) |> <| requests ::= <[p := None]> |>)
  end.
Definition run_callback (r : option Reply) (req : option nat) : Op () :=
  match req with Some p => respondCallback r p | None => mret () end.

(** What hiredis does. A reply is for the oldest command of its connection. *)
Definition reply_arrives (c : nat) (r : Reply) : Op () :=
  l ← op_find (λ w, pending w !! c);
  match l with
  | [] => op_undefined
  | req :: l => _ ← op_mod (λ w, w <| pending ::= <[c := l]> |>); run_callback (Some r) req
  end.
(** A context is freed: its commands get null replies, and a connected one its callback. *)
Definition context_freed (c : nat) (ok : bool) : Op () :=
  _ ← op_find (λ w, if decide (c ∈ alive w) then Some () else None);
  l ← op_get (λ w, default [] (pending w !! c));
  _ ← op_mod (λ w, w <| pending ::= delete c |>);
  _ ← op_each (run_callback None) l;
  up ← op_get (λ w, bool_decide (c ∈ ups w));
  _ ← (if up : bool then disconnectCallback c ok else mret ());
  op_mod (λ w, w <| alive ::= λ a, a ∖ {[c]} |> <| ups ::= λ a, a ∖ {[c]} |>).
Definition connection_made (c : nat) (ok : bool) : Op () :=
  if ok then _ ← op_mod (λ w, w <| ups ::= λ a, {[c]} ∪ a |>); connectCallback c true
  else _ ← connectCallback c false; context_freed c false.
Definition redisAsyncFree (c : nat) : Op () := context_freed c true.
(** It waits for pending commands. *)
Definition redisAsyncDisconnect (c : nat) : Op () :=
  _ ← op_find (λ w, if decide (c ∈ alive w) then Some () else None);
  idle ← op_get (λ w, bool_decide (default [] (pending w !! c) = []));
  if idle : bool then context_freed c true else mret ().

(** [RedisBlockClear]: waits for the answers, then closes the connections and frees
    [conns_[lastIndex]], once for each. *)
Fixpoint times (n : nat) (m : Op ()) : Op () := match n with O => mret () | S n => _ ← m; times n m end.
Definition connection (i : Z) : Op nat := op_find (λ w, if i <? 0 then None else conns_ w !! Z.to_nat i).
Fixpoint disconnect_all (n : nat) (i : Z) : Op () :=
  match n with O => mret () | S n => c ← connection i; _ ← redisAsyncDisconnect c; disconnect_all n (i + 1) end.
Definition RedisBlockClear : Op () :=
  _ ← op_mod (λ w, w <| asyStatus := 0 |>);
  _ ← op_find (λ w, if 0 <? requestNum w then None else Some ());
  succ ← op_get conSuccNum; _ ← disconnect_all (Z.to_nat succ) 0;
  init ← op_get conInitNum;
  times (Z.to_nat init) (i ← op_get lastIndex; c ← connection i; redisAsyncFree c).
Definition ResetConnect (host : bytes) (port : Z) (oks : nat → bool) : Op Z :=
  _ ← op_mod (λ w, w <| host_ := host |> <| port_ := port |>);
  _ ← RedisBlockClear;
  _ ← op_mod (λ w, w <| conns_ := [] |>);
  init ← op_get conInitNum;
  connect_loop (oks <$> List.seq 0 (Z.to_nat init)).

(** ** Answers *)

Definition known (reply : Reply) : Prop := 1 <= r_type reply <= 6.
Lemma result_known reply : known reply → is_Some (result_of reply).
Proof.
  unfold known, result_of. intros H. assert (Ht : r_type reply ∈ [1;2;3;4;5;6]) by (rewrite !elem_of_cons; lia).
  rewrite !elem_of_cons in Ht. destruct Ht as [->|[->|[->|[->|[->|[->|Ht]]]]]]; try (by eexists). by apply elem_of_nil in Ht.
Qed.
(** A request with a result callback gets one call. *)
Lemma dispatch_result seq opaque cb reply ret err :
  result_of reply = Some (ret, err) → dispatch (request_ret seq opaque cb) reply = Some [ResultCall cb ret opaque err].
Proof. intros E. unfold dispatch. cbn. by rewrite E. Qed.
(** One with a string callback gets none, whatever the reply is. *)
Lemma dispatch_string seq opaque cb reply : dispatch (request_str seq opaque cb) reply = Some [].
Proof. unfold dispatch. cbn. by destruct (value_of reply) as [[]|]. Qed.

(** ** Commands and replies of a connected object *)

Record connected (w : World) : Prop := {
  n_status : asyStatus w ≠ 0;
  n_count : 0 < conSuccNum w ∧ conSuccNum w = Z.of_nat (length (conns_ w));
  n_small : conSuccNum w < 2 ^ 31 - 1;
  n_alive c : c ∈ conns_ w → c ∈ alive w;
  n_turn : 0 <= lastIndex w < conSuccNum w }.
Inductive Event :=
  | Set_ (key value : bytes) (retCb : option Z) (opaque : Z) (ok : bool)
  | Hmset (key : bytes) (hashMap : list (bytes * bytes)) (retCb : option Z) (opaque : Z) (ok : bool)
  | Arrives (c : nat) (r : Reply).
Definition step (e : Event) : Op () :=
  match e with
  | Set_ key value cb p ok => _ ← set key value cb p ok; mret ()
  | Hmset key m cb p ok => _ ← hmset key m cb p ok; mret ()
  | Arrives c r => reply_arrives c r
  end.

Lemma turn_connection w : connected w → ∃ c, conns_ w !! Z.to_nat (lastIndex w) = Some c ∧ c ∈ alive w.
Proof.
  intros [_ Hc _ Ha Ht]. destruct (conns_ w !! Z.to_nat (lastIndex w)) as [c|] eqn:E.
  - exists c. split; [done|]. apply Ha. by eapply list_elem_of_lookup_2.
  - apply lookup_ge_None in E. lia.
Qed.
(** A command that hiredis takes is put behind the others of the connection whose turn it is. *)
Lemma async_command_run cmd retCb opaque seq w :
  connected w →
  ∃ c w', conns_ w !! Z.to_nat (lastIndex w) = Some c ∧ async_command cmd retCb opaque seq true w = Some (0, w') ∧ connected w' ∧
    lastIndex w' = (lastIndex w + 1) mod conSuccNum w ∧ conns_ w' = conns_ w ∧ conSuccNum w' = conSuccNum w ∧
    requestNum w' = s64 (requestNum w + 1) ∧ called w' = called w ∧ sent w' = sent w ++ [(c, cmd)] ∧
    (let r := match retCb with Some _ => Some (length (requests w)) | None => None end in
     requests w' = requests w ++ match retCb with Some cb => [Some (request_ret seq opaque cb)] | None => [] end ∧
     pending w' = <[c := default [] (pending w !! c) ++ [r]]> (pending w)).
Proof.
  intros Hw. destruct (turn_connection w Hw) as (c & Hc & Hca). pose proof Hw as [Hst [Hn0 Hn] Hsm Hal [Ht0 Ht1]].
  assert (Hl : s32 (lastIndex w + 1) = lastIndex w + 1) by (apply wrap_s_id; unfold in_s; lia).
  assert (Hturn : (if conSuccNum w <=? lastIndex w + 1 then 0 else lastIndex w + 1) = (lastIndex w + 1) mod conSuccNum w).
  { destruct (Z.leb_spec (conSuccNum w) (lastIndex w + 1)); [|by rewrite Z.mod_small by lia].
    replace (lastIndex w + 1) with (conSuccNum w) by lia. by rewrite Z_mod_same_full. }
  assert (Hend : ∀ w', asyStatus w' = asyStatus w → conSuccNum w' = conSuccNum w → conns_ w' = conns_ w → alive w' = alive w →
    lastIndex w' = (lastIndex w + 1) mod conSuccNum w → connected w').
  { intros w' E1 E2 E3 E4 E5. split; rewrite ?E1, ?E2, ?E3, ?E4, ?E5; try done. by apply Z.mod_pos_bound. }
  exists c. unfold async_command. destruct retCb as [cb|]; eexists; (split; [done|]); split.
  - rewrite op_bind_run, op_bind_get, op_bind_mod. cbn [mret Op_ret]. rewrite op_bind_find. cbn [lastIndex conns_ set_with].
    rewrite (proj2 (Z.ltb_ge _ _)), Hc by lia. rewrite op_bind_find. cbn [alive set_with]. rewrite decide_True by done. reflexivity.
  - cbn. rewrite Hl, Hturn. split; [by apply Hend|]. done.
  - rewrite op_bind_run. cbn [mret Op_ret]. rewrite op_bind_find, (proj2 (Z.ltb_ge _ _)), Hc by lia. rewrite op_bind_find, decide_True by done.
    reflexivity.
  - cbn. rewrite Hl, Hturn, app_nil_r. split; [by apply Hend|]. done.
Qed.

(** ** Every command with a callback is answered once *)

Definition live (l : list (option RedisRequest)) : nat := length (omap id l).
#[local] Arguments live : simpl never.
Lemma live_length l k : live (l ++ k) = (live l + live k)%nat.
Proof. unfold live. by rewrite omap_app, length_app. Qed.
Lemma live_take l p r : l !! p = Some (Some r) → live l = S (live (<[p := None]> l)).
Proof.
  revert p. induction l as [|x l IH]; intros [|p] E; [done..| |].
  - cbn in E. injection E as ->. done.
  - cbn in E. specialize (IH p E). unfold live in *. cbn. destruct x; cbn; by rewrite IH.
Qed.

(** [silent] commands without callback were sent. *)
Record served (silent : nat) (w : World) : Prop := {
  sv_conn : connected w;
  sv_live p : is_Some (default None (requests w !! p)) ↔ ∃ c l, pending w !! c = Some l ∧ Some p ∈ l;
  sv_req p r : requests w !! p = Some (Some r) → ∃ seq opaque cb, r = request_ret seq opaque cb;
  sv_once p c c' l l' i i' : pending w !! c = Some l → pending w !! c' = Some l' → l !! i = Some (Some p) → l' !! i' = Some (Some p) → c = c' ∧ i = i';
  sv_count : requestNum w = s64 (Z.of_nat (live (requests w) + silent)) }.

(** hiredis takes the commands and knows the types of the replies. *)
Definition orderly (e : Event) : Prop :=
  match e with
  | Set_ _ _ _ _ ok | Hmset _ _ _ _ ok => ok = true
  | Arrives _ r => known r
  end.
(** The callback of a command that is sent. *)
Definition sends (e : Event) : option (option Z) :=
  match e with
  | Set_ key value cb _ _ => if decide (key = [] ∨ value = []) then None else Some cb
  | Hmset key m cb _ _ => if decide (key = [] ∨ m = []) then None else Some cb
  | Arrives _ _ => None
  end.
Definition with_callback (e : Event) : nat := match sends e with Some (Some _) => 1 | _ => 0 end.
Definition without_callback (e : Event) : nat := match sends e with Some None => 1 | _ => 0 end.

Lemma command_served cmd retCb opaque seq silent w :
  served silent w → ∃ w', async_command cmd retCb opaque seq true w = Some (0, w') ∧ called w' = called w ∧
    match retCb with
    | Some _ => served silent w' ∧ live (requests w') = S (live (requests w))
    | None => served (S silent) w' ∧ live (requests w') = live (requests w)
    end.
Proof.
  intros [Hc Hl Hr Ho Hn]. destruct (async_command_run cmd retCb opaque seq w Hc) as (c & w' & Hcon & E & Hc' & _ & _ & _ & En & Ecl & _ & Er & Ep).
  exists w'. split; [done|]. split; [done|]. assert (Hfresh : ∀ c l, pending w !! c = Some l → Some (length (requests w)) ∉ l).
  { intros c0 l H0 Hin. destruct (proj2 (Hl (length (requests w)))) as [x Hx]; [eauto|]. by rewrite lookup_ge_None_2 in Hx by done. }
  assert (Hmem : ∀ x : option nat, (∃ c' l', pending w' !! c' = Some l' ∧ x ∈ l') ↔
    (∃ c' l', pending w !! c' = Some l' ∧ x ∈ l') ∨ x = match retCb with Some _ => Some (length (requests w)) | None => None end).
  { intros x. rewrite Ep. split.
    - intros (c' & l' & H' & Hx). rewrite lookup_insert in H'. case_decide as Hcc; [|left; by eauto]. injection H' as <-.
      apply elem_of_app in Hx as [Hx|Hx]; [|right; by apply list_elem_of_singleton in Hx]. left.
      destruct (pending w !! c) as [l|] eqn:El; [by eauto|by apply elem_of_nil in Hx].
    - intros [(c' & l' & H' & Hx)| ->].
      + destruct (decide (c = c')) as [<-|Hcc]; [exists c; eexists; rewrite lookup_insert_eq, H'; split; [done|]; cbn; set_solver|].
        exists c', l'. by rewrite lookup_insert_ne.
      + exists c. eexists. rewrite lookup_insert_eq. split; [done|]. set_solver. }
  assert (Honce : ∀ p c1 c2 l1 l2 i1 i2, pending w' !! c1 = Some l1 → pending w' !! c2 = Some l2 →
    l1 !! i1 = Some (Some p) → l2 !! i2 = Some (Some p) → c1 = c2 ∧ i1 = i2).
  { set (r := match retCb with Some _ => Some (length (requests w)) | None => None end) in *. cbv zeta in Ep. fold r in Ep.
    assert (Hpos : ∀ p c1 l1 i1, pending w' !! c1 = Some l1 → l1 !! i1 = Some (Some p) →
      (∃ l, pending w !! c1 = Some l ∧ l !! i1 = Some (Some p)) ∨ c1 = c ∧ i1 = length (default [] (pending w !! c)) ∧ p = length (requests w)).
    { intros p c1 l1 i1 H1 Hi. rewrite Ep, lookup_insert in H1. case_decide as Hcc; [|left; by eauto]. subst c1. injection H1 as <-.
      apply lookup_app_Some in Hi as [Hi|[Hge Hi]].
      - left. destruct (pending w !! c) as [l|]; [by eauto|done].
      - apply list_lookup_singleton_Some in Hi as [Hz Hi]. right. split; [done|]. split; [lia|]. unfold r in Hi. destruct retCb; [by injection Hi|done]. }
    intros p c1 c2 l1 l2 i1 i2 H1 H2 Hi1 Hi2.
    destruct (Hpos _ _ _ _ H1 Hi1) as [(k1 & K1 & J1)|(-> & -> & ->)]; destruct (Hpos _ _ _ _ H2 Hi2) as [(k2 & K2 & J2)|(-> & -> & ?)].
    - by eapply (Ho p c1 c2).
    - subst p. destruct (Hfresh _ _ K1). by eapply list_elem_of_lookup_2.
    - destruct (Hfresh _ _ K2). by eapply list_elem_of_lookup_2.
    - done. }
  destruct retCb as [cb|].
  - split; [split; [done| | |exact Honce|]|by rewrite Er, live_length; unfold live; cbn; lia].
    + intros p. rewrite Hmem, <- Hl, Er. split.
      * intros Hp. destruct (decide (p = length (requests w))) as [->|Hne]; [by right|]. left.
        destruct (decide (p < length (requests w))%nat); [by rewrite lookup_app_l in Hp|]. rewrite lookup_ge_None_2 in Hp; [by destruct Hp|].
        rewrite length_app. cbn. lia.
      * intros [Hp|[= ->]]; [|rewrite list_lookup_middle by done; by eexists].
        destruct (requests w !! p) eqn:Eq; [|by destruct Hp]. by rewrite lookup_app_l, Eq by (by eapply lookup_lt_Some).
    + intros p r. rewrite Er. intros [Hp|[_ Hp]]%lookup_app_Some; [by eapply Hr|]. apply list_lookup_singleton_Some in Hp as [_ [= <-]]. eauto.
    + rewrite En, Hn, s64_add_l, Er, live_length. f_equal. unfold live. cbn. lia.
  - rewrite app_nil_r in Er. split; [split; [done| | |exact Honce|]|by rewrite Er].
    + intros p. rewrite Hmem, <- Hl, Er. naive_solver.
    + intros p r. rewrite Er. apply Hr.
    + rewrite En, Hn, s64_add_l, Er. f_equal. lia.
Qed.

(** A reply is for the oldest command of its connection; its callback, if there is one, is called
    once, and the request is deleted. *)
Lemma reply_served c reply silent w x l :
  served silent w → known reply → pending w !! c = Some (x :: l) →
  ∃ w', reply_arrives c reply w = Some ((), w') ∧ served silent w' ∧
    match x with
    | Some p => ∃ seq opaque cb ret err, requests w !! p = Some (Some (request_ret seq opaque cb)) ∧ result_of reply = Some (ret, err) ∧
        called w' = called w ++ [ResultCall cb ret opaque err] ∧ live (requests w) = S (live (requests w'))
    | None => called w' = called w ∧ requests w' = requests w
    end.
Proof.
  intros [[H1 H2 H3 H4 H5] Hl Hr Ho Hn] Hk Hp. unfold reply_arrives. rewrite op_bind_find, Hp, op_bind_mod.
  assert (Hrest : ∀ c' l', <[c := l]> (pending w) !! c' = Some l' → ∃ k, pending w !! c' = Some k ∧
    ∀ i y, l' !! i = Some y → k !! (if decide (c' = c) then S i else i) = Some y).
  { intros c' l' H. rewrite lookup_insert in H. case_decide as Hcc.
    - subst c'. injection H as ->. exists (x :: l'). split; [done|]. intros i y. by rewrite decide_True.
    - exists l'. split; [done|]. intros i y. by rewrite decide_False. }
  assert (Honce : ∀ q c1 c2 l1 l2 i1 i2, <[c := l]> (pending w) !! c1 = Some l1 → <[c := l]> (pending w) !! c2 = Some l2 →
    l1 !! i1 = Some (Some q) → l2 !! i2 = Some (Some q) → c1 = c2 ∧ i1 = i2).
  { intros q c1 c2 l1 l2 i1 i2 (k1 & K1 & J1)%Hrest (k2 & K2 & J2)%Hrest E1%J1 E2%J2.
    destruct (Ho _ _ _ _ _ _ _ K1 K2 E1 E2) as [-> E]. split; [done|]. case_decide; lia. }
  destruct x as [p|].
  - destruct (proj2 (Hl p)) as [r Hreq]; [exists c, (Some p :: l); split; [done|left]|].
    assert (Hreq' : requests w !! p = Some (Some r)) by (revert Hreq; destruct (requests w !! p) as [[]|]; cbn; congruence).
    destruct (Hr _ _ Hreq') as (seq & opaque & cb & ->). destruct (result_known reply Hk) as [[ret err] Hres].
    eexists. split.
    { unfold run_callback, respondCallback. rewrite op_bind_mod, op_bind_find. cbn [requests set_with]. rewrite Hreq'. cbn [default from_option id]. rewrite op_bind_some.
      rewrite (dispatch_result _ _ _ _ _ _ Hres). reflexivity. }
    split; [|exists seq, opaque, cb, ret, err; split_and!; [done..|by eapply live_take]]. cbn.
    assert (Hlt : (p < length (requests w))%nat) by (by eapply lookup_lt_Some). split; cbn; [by split| | |exact Honce|].
    + intros q. destruct (decide (q = p)) as [->|Hq].
      * rewrite list_lookup_insert_eq by done. split; [by intros []|]. intros (c' & l' & (k & K & J)%Hrest & (i & Hi)%list_elem_of_lookup_1).
        destruct (Ho p c c' _ _ 0%nat _ Hp K eq_refl (J _ _ Hi)) as [-> E]. by rewrite decide_True in E.
      * rewrite list_lookup_insert_ne, Hl by done. split.
        -- intros (c' & l' & H' & Hin). destruct (decide (c = c')) as [<-|Hcc].
           ++ exists c, l. rewrite lookup_insert_eq. split; [done|]. rewrite Hp in H'. injection H' as <-. apply elem_of_cons in Hin as [[= ->]|?]; done.
           ++ exists c', l'. by rewrite lookup_insert_ne.
        -- intros (c' & l' & (k & K & J)%Hrest & (i & Hi)%list_elem_of_lookup_1). exists c', k. split; [done|]. by eapply list_elem_of_lookup_2, J.
    + intros q r. rewrite list_lookup_insert by done. case_decide; [by intros [= ?]|apply Hr].
    + rewrite Hn, (live_take _ _ _ Hreq'). unfold Z.sub. rewrite s64_add_l. f_equal. lia.
  - eexists. split; [reflexivity|]. split; [|done]. split; cbn; [by split| |exact Hr|exact Honce|exact Hn].
    intros q. rewrite Hl. split.
    + intros (c' & l' & H' & Hin). destruct (decide (c = c')) as [<-|Hcc].
      * exists c, l. rewrite lookup_insert_eq. split; [done|]. rewrite Hp in H'. injection H' as <-. apply elem_of_cons in Hin as [?|?]; done.
      * exists c', l'. by rewrite lookup_insert_ne.
    + intros (c' & l' & (k & K & J)%Hrest & (i & Hi)%list_elem_of_lookup_1). exists c', k. split; [done|]. by eapply list_elem_of_lookup_2, J.
Qed.

Lemma seq_served n silent w : served silent w → served silent (w <| seqNum := n |>).
Proof. intros [[] ? ? ? ?]. by split; [split|..]. Qed.
(** [set] and [hmset] with parameters that are refused ([bad]) or not. *)
Lemma send_served (bad : Prop) `{Decision bad} cmd cb opaque silent w :
  served silent w →
  let m : Op Z := _ ← wait_connected; if decide bad then mret (-1) else seq ← take_seq; async_command cmd cb opaque seq true in
  ∃ r w', m w = Some (r, w') ∧ called w' = called w ∧
    if decide bad then r = -1 ∧ w' = w
    else r = 0 ∧ match cb with
    | Some _ => served silent w' ∧ live (requests w') = S (live (requests w))
    | None => served (S silent) w' ∧ live (requests w') = live (requests w)
    end.
Proof.
  intros Hw m. assert (Hst : (asyStatus w =? 0) = false) by (apply Z.eqb_neq, n_status, sv_conn with silent, Hw).
  unfold m, wait_connected. rewrite op_bind_find, Hst. destruct (decide bad) as [Hb|Hb]; [by exists (-1), w|].
  unfold take_seq. rewrite op_bind_run, op_bind_get, op_bind_mod. cbn [mret Op_ret].
  destruct (command_served cmd cb opaque (seqNum w) silent _ (seq_served (u32 (seqNum w + 1)) silent w Hw)) as (w' & E & Ec & Hs).
  exists 0, w'. done.
Qed.
Definition balance (w : World) : nat := length (called w) + live (requests w).
Lemma event_served e silent w :
  served silent w → orderly e →
  wlp (step e) (λ _ w', served (silent + without_callback e) w' ∧ balance w' = (balance w + with_callback e)%nat) w.
Proof.
  intros Hw He. unfold without_callback, with_callback, balance. destruct e as [key value cb o ok|key m cb o ok|c r]; cbn [step sends orderly] in *.
  - subst ok. destruct (send_served (key = [] ∨ value = []) (set_command key value) cb o silent w Hw) as (r & w' & E & Ec & Hs). unfold wlp.
    rewrite op_bind_run. unfold set. rewrite E. cbn [mret Op_ret]. rewrite Ec. destruct (decide (key = [] ∨ value = [])) as [_|_].
    + destruct Hs as [_ ->]. rewrite !Nat.add_0_r. done.
    + destruct Hs as [_ Hs]. destruct cb; destruct Hs as [Hs El]; rewrite El; (split; [|lia]);
        [by rewrite Nat.add_0_r|by rewrite Nat.add_1_r].
  - subst ok. destruct (send_served (key = [] ∨ m = []) (hmset_command key m) cb o silent w Hw) as (r & w' & E & Ec & Hs). unfold wlp.
    rewrite op_bind_run. unfold hmset. rewrite E. cbn [mret Op_ret]. rewrite Ec. destruct (decide (key = [] ∨ m = [])) as [_|_].
    + destruct Hs as [_ ->]. rewrite !Nat.add_0_r. done.
    + destruct Hs as [_ Hs]. destruct cb; destruct Hs as [Hs El]; rewrite El; (split; [|lia]);
        [by rewrite Nat.add_0_r|by rewrite Nat.add_1_r].
  - rename He into Hk. unfold wlp. destruct (pending w !! c) as [[|x l]|] eqn:Hp.
    + unfold reply_arrives. by rewrite op_bind_find, Hp.
    + destruct (reply_served c r silent w x l Hw Hk Hp) as (w' & -> & Hs & Hx). rewrite !Nat.add_0_r. split; [done|].
      destruct x as [p|].
      * destruct Hx as (? & ? & ? & ? & ? & _ & _ & -> & ->). rewrite length_app. cbn. lia.
      * by destruct Hx as [-> ->].
    + unfold reply_arrives. by rewrite op_bind_find, Hp.
Qed.

(** Whatever commands are sent on a connected object and whatever order the replies of the connections come
    in: a callback was called for each command with a callback, except for those that are
    still pending; and [requestNum] counts these, and all commands without callback. *)
Lemma commands_answered es silent w :
  served silent w → Forall orderly es →
  wlp (op_each step es) (λ _ w', served (silent + sum_list (without_callback <$> es)) w' ∧
    balance w' = (balance w + sum_list (with_callback <$> es))%nat) w.
Proof.
  revert silent w. induction es as [|e es IH]; intros silent w Hw Hes; cbn [op_each fmap list_fmap sum_list_with].
  - apply wlp_ret. by rewrite !Nat.add_0_r.
  - apply Forall_cons in Hes as [He Hes]. eapply wlp_seq; [by apply event_served|]. intros [] w1 [Hw1 E1]. cbn beta.
    eapply wlp_mono; [by apply (IH _ _ Hw1)|]. cbn beta. intros _ w' [Hw' E']. rewrite Nat.add_assoc. split; [done|]. unfold id at 1. lia.
Qed.

(** ** The start *)

Lemma connect_loop_run n w :
  ∃ w', connect_loop (replicate n true) w = Some (0, w') ∧ made w' = (made w + n)%nat ∧ conns_ w' = conns_ w ++ List.seq (made w) n ∧
    (∀ c, c ∈ alive w ∨ c ∈ List.seq (made w) n → c ∈ alive w') ∧
    w' = w <| made := made w' |> <| alive := alive w' |> <| conns_ := conns_ w' |>.
Proof.
  revert w. induction n as [|n IH]; intros w; cbn [replicate connect_loop List.seq].
  - exists w. rewrite app_nil_r, Nat.add_0_r. split_and!; [done..| |by destruct w]. intros c [?|H]; [done|by apply elem_of_nil in H].
  - rewrite op_bind_run. unfold new_connection. rewrite op_bind_get, op_bind_mod, op_bind_mod. cbn [mret Op_ret].
    set (w1 := w <| made ::= S |> <| alive ::= _ |> <| conns_ ::= _ |>). destruct (IH w1) as (w' & E & Em & Ec & Ea & Ew).
    exists w'. split; [exact E|]. split; [rewrite Em; cbn; lia|]. split; [rewrite Ec; cbn; by rewrite <- app_assoc|]. split.
    + intros c Hc. apply Ea. cbn. rewrite elem_of_cons in Hc. set_solver.
    + rewrite Ew at 1. by destruct w.
Qed.
Lemma callbacks_run l w :
  0 <= conSuccNum w → conSuccNum w + Z.of_nat (length l) = conInitNum w → conInitNum w < 2 ^ 31 → l ≠ [] → asyStatus w = 0 →
  op_each (λ c, connection_made c true) l w =
    Some ((), w <| ups ::= λ a, list_to_set (rev l) ∪ a |> <| conSuccNum := conInitNum w |> <| asyStatus := 1 |>).
Proof.
  revert w. induction l as [|c l IH]; intros w H0 Hn Hi Hne Ha; [done|]. cbn [op_each length] in *. rewrite op_bind_run.
  set (w1 := w <| ups ::= λ a, {[c]} ∪ a |> <| conSuccNum := conSuccNum w + 1 |>).
  assert (E1 : connection_made c true w = Some ((), if (conSuccNum w1 =? conInitNum w) && (asyStatus w =? 0) then w1 <| asyStatus := 1 |> else w1)).
  { replace w1 with (w <| ups ::= λ a, {[c]} ∪ a |> <| conSuccNum ::= λ n, s32 (n + 1) |>); [done|].
    unfold w1, set_with. cbn. by rewrite wrap_s_id by (unfold in_s; lia). }
  rewrite E1, Ha, andb_true_r. unfold w1 at 1. cbn [conSuccNum set_with]. destruct l as [|c' l].
  - cbn in Hn. rewrite (proj2 (Z.eqb_eq _ _)) by lia. cbn. unfold mret, Op_ret. do 2 f_equal. destruct w; cbn in *; subst.
    unfold set_with; cbn. f_equal; [|lia..]. by rewrite (right_id_L ∅ (∪)).
  - rewrite (proj2 (Z.eqb_neq _ _)) by (cbn [length] in *; lia). rewrite IH; [|cbn; lia|cbn in *; lia|done|done|exact Ha].
    do 2 f_equal. unfold w1. destruct w. unfold set_with. cbn. f_equal. clear. rewrite list_to_set_app_L. cbn. set_solver.
Qed.
(** Once every connection has come up, the object takes commands. *)
Lemma started host port n :
  host ≠ [] → 0 < port → (0 < n)%nat → Z.of_nat n < 2 ^ 31 - 1 →
  ∃ w, (_ ← RedisConnect host port (replicate n true) true; op_each (λ c, connection_made c true) (List.seq 0 n)) RedisAsync_new = Some ((), w) ∧
    served 0 w.
Proof.
  intros Hh Hp Hn Hm. unfold RedisConnect. rewrite length_replicate, decide_False by (intros [?|[?|?]]; [lia|done|lia]). cbn [negb]. rewrite op_bind_run, op_bind_mod.
  set (w0 := set_with conInitNum _ _). destruct (connect_loop_run n w0) as (w1 & -> & Em & Ec & Ea & Ew). cbn in Em, Ec, Ea.
  assert (E1 : conSuccNum w1 = 0 ∧ conInitNum w1 = Z.of_nat n ∧ asyStatus w1 = 0 ∧ lastIndex w1 = 0 ∧ pending w1 = ∅ ∧ requests w1 = [] ∧ requestNum w1 = 0)
    by (rewrite Ew; done).
  destruct E1 as (E1 & E2 & E3 & E4 & E5 & E6 & E7). rewrite callbacks_run; rewrite ?length_seq, ?E1, ?E2; try lia; [|destruct n; [lia|done]].
  eexists. split; [done|]. split; cbn; rewrite ?E4, ?E5, ?E6, ?E7; [split; cbn; rewrite ?E4, ?Ec, ?length_seq; try done; try lia| | | |done].
  - intros c Hc. apply Ea. by right.
  - intros p. rewrite lookup_nil. split; [by intros []|]. intros (c & l & H & _). by rewrite lookup_empty in H.
  - intros p r H. by rewrite lookup_nil in H.
  - intros p c c' l l' i i' H. by rewrite lookup_empty in H.
Qed.

(** ** Runs that go wrong, with one connection *)

Definition up : Op () := _ ← RedisConnect (lit "127.0.0.1") 6379 [true] true; connection_made 0 true.
Definition status (s : string) : Reply := {| r_type := 5; r_integer := 0; r_str := Some (lit s); r_element := [] |}.
Lemma answered_run :
  called ∘ snd <$> (_ ← up; _ ← set (lit "k") (lit "v") (Some 7) 9 true; reply_arrives 0 (status "OK")) RedisAsync_new = Some [ResultCall 7 0 9 []].
Proof. reflexivity. Qed.
(** Commands without callback stay in [requestNum], so that a new connection is waited for for ever. *)
Lemma silent_blocks host port oks :
  (_ ← up; _ ← set (lit "k") (lit "v") None 0 true; _ ← reply_arrives 0 (status "OK"); ResetConnect host port oks) RedisAsync_new = None.
Proof. reflexivity. Qed.
(** A new connection closes the old one, which hiredis frees, and so do the callback and [RedisBlockClear]. *)
Lemma reset_undefined host port oks : (_ ← up; ResetConnect host port oks) RedisAsync_new = None.
Proof. reflexivity. Qed.
(** Where one of two connections fails, commands wait for ever. *)
Lemma never_ready :
  (_ ← RedisConnect (lit "127.0.0.1") 6379 [true; true] true; _ ← connection_made 0 true; _ ← connection_made 1 false;
   set (lit "k") (lit "v") None 0 true) RedisAsync_new = None.
Proof. reflexivity. Qed.
(** When the connection is lost its commands get a null reply: no callback is called and the requests are leaked. *)
Lemma lost_unanswered :
  (λ r, (called r.2, live (requests r.2))) <$> (_ ← up; _ ← set (lit "k") (lit "v") (Some 7) 9 true; context_freed 0 false) RedisAsync_new = Some ([], 1%nat).
Proof. reflexivity. Qed.
(** The connection that is lost stays in [conns_]. *)
Lemma lost_undefined : (_ ← up; _ ← context_freed 0 false; set (lit "k") (lit "v") None 0 true) RedisAsync_new = None.
Proof. reflexivity. Qed.
End RedisLibevent.
