(* ===== verification/Times.v ===== *)
(** * Times and their texts ([src/common/TimeUtility.cpp], [Timestamp.cpp], [Timestamp.h])

    The time zone is the class [Zone]; times of the clock are arguments. [timeDifference] and
    [addTime] of Timestamp.h, which compute with [double], are left out. *)

From S2P Require Import Prelude CLib Incommon UniqueNum WriteFile Journal MsgFileProofs.
Import UniqueNum(tm, Build_tm, tm_year, tm_mon, tm_mday, tm_hour, tm_min, tm_sec, tm_ok) Journal(fmt_0d_length, fmt_0d_val) MsgFileProofs(digits_0d, plain_0d).

Module Times.

(** [localtime_r], and [mktime] with [tm_isdst] -1. *)
Class Zone := { localtime : Z → tm; mktime : tm → Z }.

(** [snprintf] into a buffer of [n] bytes, as a string. *)
Definition snprintf (n : nat) (s : bytes) : bytes := take (n - 1) s.

(** ** [strptime] with numbers *)

(** At most [n] digits, as long as a further one can keep the number in bounds. *)
Fixpoint more_digits (n : nat) (to val : Z) (s : bytes) : Z * bytes :=
  match n, s with
  | S n, b :: s' =>
      if (val * 10 <=? to) && is_digit b then more_digits n to (val * 10 + digit_val b) s' else (val, s)
  | _, _ => (val, s)
  end.
Fixpoint skip_space (s : bytes) : bytes :=
  match s with b :: s' => if c_isspace b then skip_space s' else s | [] => [] end.
Definition get_number (from to : Z) (n : nat) (s : bytes) : option (Z * bytes) :=
  match skip_space s with
  | b :: s' =>
      if is_digit b then
        let '(val, s) := more_digits (n - 1) to (digit_val b) s' in
        if (from <=? val) && (val <=? to) then Some (val, s) else None
      else None
  | [] => None
  end.
Definition match_char (c : byte) (s : bytes) : option bytes :=
  match s with b :: s => if decide (b = c) then Some s else None | [] => None end.
(** ["%Y-%m-%d %H:%M:%S"]: a space matches any white space. Fields before a mismatch are set. *)
Definition strptime (s : bytes) (t : tm) : tm :=
  match get_number 0 9999 4 s with None => t | Some (y, s) =>
  let t := Build_tm (y - 1900) (tm_mon t) (tm_mday t) (tm_hour t) (tm_min t) (tm_sec t) in
  match s ← match_char "-" s; get_number 1 12 2 s with None => t | Some (m, s) =>
  let t := Build_tm (tm_year t) (m - 1) (tm_mday t) (tm_hour t) (tm_min t) (tm_sec t) in
  match s ← match_char "-" s; get_number 1 31 2 s with None => t | Some (d, s) =>
  let t := Build_tm (tm_year t) (tm_mon t) d (tm_hour t) (tm_min t) (tm_sec t) in
  match get_number 0 23 2 (skip_space s) with None => t | Some (h, s) =>
  let t := Build_tm (tm_year t) (tm_mon t) (tm_mday t) h (tm_min t) (tm_sec t) in
  match s ← match_char ":" s; get_number 0 59 2 s with None => t | Some (m, s) =>
  let t := Build_tm (tm_year t) (tm_mon t) (tm_mday t) (tm_hour t) m (tm_sec t) in
  match s ← match_char ":" s; get_number 0 61 2 s with None => t | Some (sec, _) =>
  Build_tm (tm_year t) (tm_mon t) (tm_mday t) (tm_hour t) (tm_min t) sec
  end end end end end end.

Section times.
Context `{Zone}.

(** ** TimeUtility *)

Definition GetCurrentUS (tv_sec tv_usec : Z) : Z := s64 (s64 (tv_sec * 1000000) + tv_usec).
Definition GetCurrentMS (tv_sec tv_usec : Z) : Z := GetCurrentUS tv_sec tv_usec ÷ 1000.
(** ["%04d-%02d-%02d %02d:%02d:%02d"] *)
Definition time_text (t : tm) : bytes :=
  fmt_0d 4 (1900 + tm_year t) ++ lit "-" ++ fmt_0d 2 (tm_mon t + 1) ++ lit "-" ++ fmt_0d 2 (tm_mday t) ++ lit " " ++
  fmt_0d 2 (tm_hour t) ++ lit ":" ++ fmt_0d 2 (tm_min t) ++ lit ":" ++ fmt_0d 2 (tm_sec t).
Definition GetStringTime (now : Z) : bytes := snprintf 32 (time_text (localtime now)).
Definition GetStringTimeDetail (tv_sec tv_usec : Z) : bytes :=
  snprintf 64 (time_text (localtime tv_sec) ++ lit "." ++ fmt_0d 6 (s32 tv_usec)).
(** [tm_]: what the variable held; it is not initialised. *)
Definition GetTimeStamp (tm_ : tm) (time : bytes) : Z := mktime (strptime (take 127 (take (strIntLen (Some time)) time)) tm_).
Definition GetTimeDiff (tm1 tm2 : tm) (t1 t2 : bytes) : Z := s64 (GetTimeStamp tm1 t1 - GetTimeStamp tm2 t2).

(** ** Timestamp, a number of microseconds *)

Definition kMicroSecondsPerSecond : Z := 1000 * 1000.
Definition toString (microSecondsSinceEpoch_ : Z) : bytes := snprintf 31 (fmt_ld (microSecondsSinceEpoch_ ÷ kMicroSecondsPerSecond)).
Definition toFormattedString (us : Z) (showMilliseconds : bool) : bytes :=
  let t := localtime (us ÷ kMicroSecondsPerSecond) in
  if showMilliseconds then
    let microseconds := s32 (Z.rem us kMicroSecondsPerSecond) in
    snprintf 32 (time_text t ++ lit "." ++ fmt_0d 3 (microseconds ÷ 1000))
  else snprintf 32 (time_text t).
Definition valid (us : Z) : bool := 0 <? us.
Definition secondsSinceEpoch (us : Z) : Z := us ÷ kMicroSecondsPerSecond.
Definition fromUnixTime (t microseconds : Z) : Z := s64 (s64 (t * kMicroSecondsPerSecond) + microseconds).
Definition now (tv_sec tv_usec : Z) : Z := fromUnixTime tv_sec tv_usec.

(** ** Texts and back *)

Lemma digits_grow l v : 0 <= v → Forall (λ b, is_digit b = true) l → v <= fold_left (λ acc b, acc * 10 + digit_val b) l v.
Proof.
  revert v. induction l as [|b l IH]; intros v Hv Hl; cbn; [done|]. apply Forall_cons in Hl as [Hb%is_digit_bounds Hl].
  etrans; [|apply IH; [|done]]; unfold digit_val; lia.
Qed.
Lemma more_digits_run l to v k :
  0 <= v → Forall (λ b, is_digit b = true) l → fold_left (λ acc b, acc * 10 + digit_val b) l v <= to →
  more_digits (length l) to v (l ++ k) = (fold_left (λ acc b, acc * 10 + digit_val b) l v, k).
Proof.
  revert v. induction l as [|b l IH]; intros v Hv Hl Hto; [by destruct k|]. cbn in *. apply Forall_cons in Hl as [Hb Hl].
  assert (0 <= v * 10 + digit_val b) by (apply is_digit_bounds in Hb; unfold digit_val; lia).
  pose proof (digits_grow l _ H0 Hl). rewrite Hb, (proj2 (Z.leb_le _ _)) by (apply is_digit_bounds in Hb; unfold digit_val in *; lia).
  by apply IH.
Qed.
(** A number with leading zeros is read back. *)
Lemma get_number_run from to n z k :
  (0 < n)%nat → 0 <= z < 10 ^ Z.of_nat n → from <= z <= to → get_number from to n (fmt_0d n z ++ k) = Some (z, k).
Proof.
  intros Hn Hz Hb. pose proof (digits_0d n z ltac:(lia)) as Hd. pose proof (fmt_0d_length n z Hz Hn) as Hl.
  pose proof (fmt_0d_val n z ltac:(lia)) as Hv. destruct (fmt_0d n z) as [|b l]; [cbn in Hl; lia|]. apply Forall_cons in Hd as [Hb1 Hd].
  unfold digits_val in Hv. cbn in Hl, Hv. change (0 * 10 + digit_val b) with (digit_val b) in Hv. unfold get_number. cbn [app skip_space].
  assert (c_isspace b = false) as -> by (apply is_digit_bounds in Hb1; unfold c_isspace; lia). rewrite Hb1.
  replace (n - 1)%nat with (length l) by lia. rewrite more_digits_run; [|apply is_digit_bounds in Hb1; unfold digit_val; lia|done|lia].
  rewrite Hv. by rewrite (proj2 (Z.leb_le _ _)), (proj2 (Z.leb_le _ _)) by lia.
Qed.

Lemma get_number_skip from to n s : get_number from to n (skip_space (lit " " ++ s)) = get_number from to n s.
Proof.
  unfold get_number. change (skip_space (lit " " ++ s)) with (skip_space s).
  assert (Hi : skip_space (skip_space s) = skip_space s); [|by rewrite Hi].
  induction s as [|b s IH]; [done|]. cbn. destruct (c_isspace b) eqn:E; [done|]. cbn. by rewrite E.
Qed.
Lemma match_dash s : match_char "-" (lit "-" ++ s) = Some s.
Proof. done. Qed.
Lemma match_colon s : match_char ":" (lit ":" ++ s) = Some s.
Proof. done. Qed.

(** The fields in the bounds of the texts: years 0 to 9999. *)
Definition tm_text (t : tm) : Prop :=
  -1900 <= tm_year t < 8100 ∧ 0 <= tm_mon t < 12 ∧ 1 <= tm_mday t <= 31 ∧
  0 <= tm_hour t < 24 ∧ 0 <= tm_min t < 60 ∧ 0 <= tm_sec t <= 60.
Lemma strptime_text t tm_ k : tm_text t → strptime (time_text t ++ k) tm_ = t.
Proof.
  intros (Hy & Hmo & Hd & Hh & Hmi & Hs). unfold time_text. rewrite <- !app_assoc. unfold strptime.
  rewrite get_number_run by (cbn; lia). rewrite match_dash. cbn [mbind option_bind].
  rewrite get_number_run by (cbn; lia). rewrite match_dash. cbn [mbind option_bind].
  rewrite get_number_run by (cbn; lia). rewrite get_number_skip.
  rewrite get_number_run by (cbn; lia). rewrite match_colon. cbn [mbind option_bind].
  rewrite get_number_run by (cbn; lia). rewrite match_colon. cbn [mbind option_bind].
  rewrite get_number_run by (cbn; lia). destruct t. cbn. f_equal; lia.
Qed.
Lemma time_text_length t : tm_text t → length (time_text t) = 19%nat.
Proof.
  intros (Hy & Hmo & Hd & Hh & Hmi & Hs). unfold time_text. rewrite !length_app, !fmt_0d_length by (cbn; lia). done.
Qed.
Lemma time_text_no_nul t : tm_text t → strIntLen (Some (time_text t)) = 19%nat.
Proof.
  intros Ht. rewrite strIntLen_no_nul; [by apply time_text_length|]. unfold time_text.
  rewrite !no_nul_app. split_and!; first [apply plain_0d|by apply (bool_decide_unpack (no_nul _))].
Qed.
(** The text of a time is read back, where the time zone has the time once. *)
Lemma timestamp_roundtrip now tm_ :
  tm_text (localtime now) → mktime (localtime now) = now → GetTimeStamp tm_ (GetStringTime now) = now.
Proof.
  intros Ht Hm. pose proof (time_text_length _ Ht) as Hl. unfold GetTimeStamp, GetStringTime, snprintf.
  rewrite (take_ge (time_text _) _) by lia. rewrite time_text_no_nul by done. rewrite (take_ge (time_text _) 19), (take_ge _ 127) by lia.
  rewrite <- (app_nil_r (time_text _)), strptime_text by done. done.
Qed.

Lemma diff_texts t1 t2 tm1 tm2 :
  tm_text (localtime t1) → tm_text (localtime t2) → mktime (localtime t1) = t1 → mktime (localtime t2) = t2 → in_s 64 (t1 - t2) →
  GetTimeDiff tm1 tm2 (GetStringTime t1) (GetStringTime t2) = t1 - t2.
Proof. intros. unfold GetTimeDiff. rewrite !timestamp_roundtrip by done. by apply wrap_s_id. Qed.
(** With milliseconds the text is that of [TimeUtility], and a number from 0 to 999. *)
Lemma formatted us :
  0 <= us → tm_text (localtime (us ÷ 1000000)) →
  toFormattedString us true = time_text (localtime (us ÷ 1000000)) ++ lit "." ++ fmt_0d 3 (us `mod` 1000000 ÷ 1000).
Proof.
  intros Hus Ht. unfold toFormattedString, snprintf. change kMicroSecondsPerSecond with 1000000.
  assert (Hm : 0 <= us `mod` 1000000 < 1000000) by (apply Z.mod_pos_bound; lia).
  rewrite Z.rem_mod_nonneg, wrap_s_id by (unfold in_s; lia). apply take_ge.
  rewrite !length_app, time_text_length, fmt_0d_length by (done || lia || (cbn; rewrite Z.quot_div_nonneg by lia; dlia)). cbn. lia.
Qed.
Lemma unix_seconds t us : 0 <= t < 2 ^ 43 → 0 <= us < 1000000 → secondsSinceEpoch (fromUnixTime t us) = t.
Proof.
  intros Ht Hus. unfold secondsSinceEpoch, fromUnixTime. change kMicroSecondsPerSecond with 1000000.
  rewrite !wrap_s_id by (unfold in_s; rewrite ?wrap_s_id by (unfold in_s; lia); lia).
  rewrite Z.quot_div_nonneg by lia. dlia.
Qed.
(** A text that is no time gives what the variable held. *)
Lemma garbage tm_ : GetTimeStamp tm_ (lit "now") = mktime tm_.
Proof. reflexivity. Qed.
(** Before 1970 the milliseconds are negative. *)
Lemma negative_milliseconds :
  tm_text (localtime 0) → toFormattedString (-500000) true = time_text (localtime 0) ++ lit ".-500".
Proof. intros Ht. apply take_ge. rewrite !length_app, time_text_length by done. cbn. lia. Qed.

End times.
End Times.
