(* ===== verification/Daemon.v ===== *)
(** * Processes in the background ([src/common/Daemon.cpp])

    The pid file and the processes that can be signalled are the state; what [open], [lockf],
    [write], [fork] and the stopped process do is an argument. [ChangeTo] is left out: it
    forks and replaces the program. *)

From S2P Require Import Prelude CLib Incommon WriteFile Journal.
Import Journal(fmt_ld_length).

Module Daemon.

Definition newline : byte := "010"%byte.

(** [procs]: the processes there are, and whether this one may signal them; [self]: [getpid()];
    [stack]: what [buffer] of [GetPidFromFile] holds before it is read into. *)
Record World := { pidfile : option bytes; procs : gmap Z bool; self : Z; stack : bytes }.
#[export] Instance eta_World : Eta World := λ r, {| pidfile := pidfile r; procs := procs r; self := self r; stack := stack r |}.

(** [kill], whatever the signal is. *)
Inductive Killed := Sent | Eperm | Esrch.
Definition kill (pid : Z) (w : World) : Killed :=
  match procs w !! pid with Some true => Sent | Some false => Eperm | None => Esrch end.

(** A failing [open] gives -1. The text ends at the first newline or NUL. *)
Definition GetPidFromFile (w : World) : Z :=
  match pidfile w with
  | None => -1
  | Some content =>
      let rd := Nat.min 64 (length content) in
      if decide (rd = O) then -1
      else
        let buffer := <[63%nat := NUL]> (take rd content ++ drop rd (stack w)) in
        atoi (span (λ b, negb (bool_decide (b ∈ [NUL; newline]))) buffer).1
  end.

(** The answers to [WritePidFile] and [DaemonStart]; [wrote] is the number of bytes of [write],
    [fork] the child, [null] whether [/dev/null] can be opened. *)
Record Answers := { open_ok : bool; lock_ok : bool; wrote : option nat; fork : option Z; null : bool }.
(** The file is truncated before it is locked. *)
Definition WritePidFile (a : Answers) (w : World) : Z * World :=
  if open_ok a then
    let w := w <| pidfile := Some [] |> in
    if lock_ok a then
      let str := fmt_ld (self w) ++ [newline] in
      match wrote a with
      | None => (-1, w)
      | Some ret =>
          let w := w <| pidfile := Some (take ret str) |> in
          if decide (ret = length str) then (0, w) else (-1, w)
      end
    else (-1, w)
  else (-1, w).
Definition running (pid : Z) (w : World) : bool := match kill pid w with Sent | Eperm => true | Esrch => false end.
(** What the child returns; the parent exits with 0 as soon as there is a child. *)
Definition DaemonStart (a : Answers) (w : World) : Z * World :=
  let pid := GetPidFromFile w in
  if (0 <? pid) && running pid w then (-1, w)
  else if self w =? 1 then (-1, w)
  else
    match fork a with
    | None => (-1, w)
    | Some child =>
        let w := w <| procs ::= λ p, <[child := true]> (delete (self w) p) |> <| self := child |> in
        let '(r, w) := WritePidFile a w in
        if negb (r =? 0) then (r, w) else if null a then (0, w) else (-1, w)
    end.

(** [dies]: the round in which the process is gone, if it goes. *)
Fixpoint stop_loop (n : nat) (dies : option nat) (pid : Z) (w : World) : Z * World :=
  match n with
  | O => (-1, w)
  | S n =>
      let w := match dies with Some O => w <| procs ::= delete pid |> | _ => w end in
      match kill pid w with
      | Sent => stop_loop n (pred <$> dies) pid w
      | _ => (0, w <| pidfile := None |>)
      end
  end.
Definition DaemonStop (dies : option nat) (w : World) : Z * World :=
  let pid := GetPidFromFile w in
  if pid <=? 0 then (-1, w)
  else match kill pid w with Sent => stop_loop 300 dies pid w | _ => (-1, w) end.
Definition DaemonRestart (a : Answers) (dies : option nat) (w : World) : Z * World :=
  let pid := GetPidFromFile w in
  if 0 <? pid then
    match kill pid w with
    | Sent => let '(r, w) := DaemonStop dies w in if r <? 0 then (r, w) else DaemonStart a w
    | Eperm => (-1, w)
    | Esrch => DaemonStart a w
    end
  else DaemonStart a w.
(** [None]: the process goes on; [Some code]: it exits. *)
Definition DaemonProcess (cmd : option bytes) (a : Answers) (dies : option nat) (w : World) : option Z * World :=
  let cmd_is s := bool_decide (cmd = Some (lit s)) in
  let '(stopped, (r, w)) :=
    if bool_decide (cmd = None) || cmd_is "start" then (false, DaemonStart a w)
    else if cmd_is "stop" then (true, DaemonStop dies w)
    else if cmd_is "restart" then (false, DaemonRestart a dies w)
    else (false, (-1, w)) in
  if stopped && (r =? 0) then (Some 0, w) else if negb (r =? 0) then (Some 1, w) else (None, w).

(** ** What it promises *)

Definition pid_ok (pid : Z) : Prop := 0 < pid < 2 ^ 31.
Lemma pid_length pid : pid_ok pid → (0 < length (fmt_ld pid ++ [newline]) <= 12)%nat.
Proof.
  intros Hp. pose proof (fmt_ld_length pid ltac:(unfold pid_ok, in_s in *; lia)). rewrite length_app. cbn. lia.
Qed.
(** A pid that was written is read, whatever the buffer held. *)
Lemma pid_read_back pid w : pid_ok pid → pidfile w = Some (fmt_ld pid ++ [newline]) → GetPidFromFile w = pid.
Proof.
  intros Hp Hw. pose proof (pid_length pid Hp) as Hl. unfold GetPidFromFile. rewrite Hw.
  rewrite Nat.min_r by lia. rewrite decide_False by lia. rewrite take_ge by done.
  rewrite insert_app_r_alt by lia. rewrite <- app_assoc. rewrite span_Forall.
  - cbn [fst]. rewrite <- (app_nil_r (fmt_ld pid)). apply atoi_fmt; [unfold pid_ok, in_s in *; lia|done].
  - apply Forall_forall. intros b [Hb| ->]%fmt_ld_chars; [|done]. apply negb_true_iff, bool_decide_false.
    intros Hin. apply elem_of_cons in Hin as [->|Hin]; [done|]. by apply list_elem_of_singleton in Hin as ->.
  - by intros x [= <-].
Qed.

(** The system does what is asked, and gives the child a pid of its own. *)
Definition well (child : Z) : Answers :=
  {| open_ok := true; lock_ok := true; wrote := Some (length (fmt_ld child ++ [newline])); fork := Some child; null := true |}.
(** Without another one a process starts, and is the one that is found. *)
Lemma daemon_started child w :
  pid_ok child → self w ≠ 1 → (0 < GetPidFromFile w → kill (GetPidFromFile w) w = Esrch) →
  ∃ w', DaemonStart (well child) w = (0, w') ∧ self w' = child ∧ GetPidFromFile w' = child ∧ kill child w' = Sent.
Proof.
  intros Hc Hs Hk. unfold DaemonStart. assert ((0 <? GetPidFromFile w) && running (GetPidFromFile w) w = false) as ->.
  { destruct (Z.ltb_spec 0 (GetPidFromFile w)) as [H|]; [|done]. unfold running. by rewrite Hk. }
  rewrite (proj2 (Z.eqb_neq _ _)) by done. cbn [well fork]. unfold WritePidFile. cbn [open_ok lock_ok wrote well self set_with].
  rewrite decide_True by done. cbn. eexists. split; [done|]. split; [done|]. split.
  - apply pid_read_back; [done|]. cbn. f_equal. by apply take_ge.
  - unfold kill. cbn. by rewrite lookup_insert_eq.
Qed.
(** While the process of the pid file runs, whoever it belongs to, a second start changes nothing. *)
Lemma started_once a w : 0 < GetPidFromFile w → kill (GetPidFromFile w) w ≠ Esrch → DaemonStart a w = (-1, w).
Proof.
  intros Hp Hk. unfold DaemonStart, running. rewrite (proj2 (Z.ltb_lt _ _)) by done. by destruct (kill _ w).
Qed.
(** Stopping succeeds when the process goes within 300 rounds, and then the pid file is gone. *)
Lemma stop_loop_run n k pid w :
  kill pid w = Sent →
  stop_loop n (Some k) pid w = if decide (k < n)%nat then (0, w <| procs ::= delete pid |> <| pidfile := None |>) else (-1, w).
Proof.
  revert k w. induction n as [|n IH]; intros k w Hk; [by rewrite decide_False by lia|]. cbn. destruct k as [|k].
  - unfold kill. cbn. rewrite lookup_delete_eq. by rewrite decide_True by lia.
  - rewrite Hk. cbn. rewrite IH by done. repeat case_decide; try lia; done.
Qed.
Lemma stopped k w :
  0 < GetPidFromFile w → kill (GetPidFromFile w) w = Sent → (k < 300)%nat →
  DaemonStop (Some k) w = (0, w <| procs ::= delete (GetPidFromFile w) |> <| pidfile := None |>).
Proof.
  intros Hp Hk Hn. unfold DaemonStop. rewrite (proj2 (Z.leb_gt _ _)) by done. rewrite Hk, stop_loop_run by done. by rewrite decide_True.
Qed.
(** A restart stops the process of the pid file and starts another. *)
Lemma restarted k child w :
  pid_ok child → self w ≠ 1 → 0 < GetPidFromFile w → kill (GetPidFromFile w) w = Sent → (k < 300)%nat →
  ∃ w', DaemonRestart (well child) (Some k) w = (0, w') ∧ self w' = child ∧ GetPidFromFile w' = child ∧ kill child w' = Sent.
Proof.
  intros Hc Hs Hp Hk Hn. unfold DaemonRestart. rewrite (proj2 (Z.ltb_lt _ _)), Hk, stopped by done. cbn [Z.ltb Z.compare].
  apply daemon_started; [done|done|]. cbn. lia.
Qed.

(** ** Runs that go wrong *)

Definition background (content : string) (stack : bytes) : World :=
  {| pidfile := Some (lit content); procs := {[ 12 := true ]}; self := 77; stack := stack |}.
(** A file without newline is read on into the memory behind it: process 12 runs, and is started again. *)
Lemma unterminated : GetPidFromFile (background "12" (replicate 2 NUL ++ lit "345" ++ replicate 59 NUL)) = 12345.
Proof. by vm_compute. Qed.
(** The file of the running process is emptied when the lock cannot be had. *)
Lemma lock_failure_truncates :
  (WritePidFile {| open_ok := true; lock_ok := false; wrote := None; fork := None; null := true |} (background "12" [])).2 =
  background "" [].
Proof. reflexivity. Qed.
End Daemon.
